(* ===== verification/_CoqProject ===== *)
-Q . S2P
Prelude.v
Paths.v
Base.v
Events.v
Inverse.v
Refuse.v
Cohort.v
ShellRender.v
Probe.v
Classify.v
FlagPairs.v
Network.v
Plan.v
PlanFacts.v
PlanForward.v
ForwardFacts.v
Executor.v
Env.v
EnvFacts.v
Orchestrator.v
OrchestratorFacts.v
Fs.v
FileExec.v
FileFacts.v
Undo.v
Edits.v
Removals.v
Moves.v
Frame.v
Redirect.v
Runners.v
Text.v
Redact.v
Packages.v
Containers.v
Notes.v
Desc.v
NetworkDiff.v
SystemFacts.v
NetworkFacts.v
SqlFacts.v
Tables.v
Index.v
Blobs.v
LargeObjects.v
Retention.v
Gc.v
StoreFacts.v
StoreRuns.v
GcFacts.v
StorePlan.v
StoreExamples.v
TierStash.v
Conn.v
Procs.v
ExecFacts.v
DescFacts.v
Active.v
Baseline.v
WatchReady.v
Daemon.v
HelperEvents.v
LinuxCapture.v
CaptureFacts.v
HelperLoop.v
BsdCapture.v
Shim.v
TierTrack.v
UndoCtl.v
DaemonFacts.v
UndoSteps.v
DaemonRuns.v
RedirectUndo.v
ShimUndo.v
CaptureUndo.v
TierRuns.v
TierUndo.v
DaemonExamples.v
UndoExamples.v
TierExamples.v
