(* ===== verification/Prelude.v ===== *)
(** * A verification of [shit]

    [shit] records what a shell command does to a machine and undoes it on
    request. While a command runs, the shell hooks, the privileged helper, the
    preload shim and wrappers of system tools send events to the daemon; the
    daemon attributes them to a command and keeps them in a store; an undo
    request plans the reversal of the last commands, checks it against the
    live system and runs it through one executor per tier. This development
    models that way from end to end and proves what it promises.

    ** Parts and files

    Shared:
    - [Prelude]: libraries, tactics, machine integers, a stable sort, ordered
      iteration over a map ([BTreeMap]), and an interface for the unspecified
      iteration order of a [HashMap] ([HashOrder]). [Paths]: [std::path] as a
      sequence of components. [Text]: UTF-8, lines and words.
    - [Base], [Events], [Inverse]: the data of [inode.rs], [time.rs],
      [metadata.rs], [events.rs] and [inverse.rs]. A Rust enum is an inductive
      type in a module of its name ([FileKind::Regular] is
      [FileKind.Regular]); [format!] results are lists of pieces.
    - [Fs]: the system calls the program makes on files, on an in-memory POSIX
      file system with inodes, names, set-id bits, attributes and flags.

    Planner ([shit-planner]):
    - [Refuse] ([refuse.rs]), [Cohort] ([cohort.rs]), [ShellRender]
      ([shell_state_render.rs]), [Probe] ([probe.rs], [store.rs]).
    - [Classify], [Plan] ([plan.rs]): the scan of the events, the sets of
      replaced, transient, subsumed and hard-linked paths, one emitter per arm
      of [emit_for_event], and [plan]. [FlagPairs], [PlanForward]
      ([plan_forward.rs]): the redo planner.
    - [Executor] ([executor.rs]), [Orchestrator] ([orchestrator.rs]): the
      contract of executors, the sequential run, and the parallel run as a
      step relation of the threads of a cohort: each waits for a permit, asks
      the probe, executes and records, and between any two of these the others
      may move.
    - [FileExec] ([executors/file.rs], [executors/xattr.rs]), [Env] ([env.rs],
      [executors/env.rs]), [Runners] (running programs, [services.rs],
      [executors/services.rs]), [Packages] ([executors/package.rs]),
      [Network], [NetworkDiff] ([network.rs], [network_diff.rs],
      [executors/network.rs]), [Containers] ([executors/container.rs]),
      [Notes] (the executors of cloud tools, processes, databases and
      descriptors), [Redact] ([db/stmt.rs], [db/redact.rs]), [Conn]
      ([db/conn.rs]), [Procs] ([proc.rs] and the helper's [proc/*.rs]).

    Store ([shit-store]): [Tables] (the schema as keyed maps), [Index]
    ([index.rs]), [Blobs] ([blob.rs]), [LargeObjects] ([caibx.rs],
    [large_objects.rs]), [Retention] ([holds.rs], [bookmarks.rs],
    [importance.rs], [container_stash.rs]), [Gc] ([refcount.rs], [gc.rs]).

    Daemon ([shitd]): [Active] ([ancestry.rs], [active_commands.rs]),
    [Baseline], [WatchReady], [Daemon] (the shell hooks), [HelperEvents] (the
    messages of the helper and of the preload shim, and the stash of
    redirections), [TierStash], [TierTrack] (the trackers of the tiers),
    [UndoCtl] (control requests and the undo request with the executors the
    daemon wires).

    Edges: [LinuxCapture] (the helper's capture on Linux, [capture/linux.rs]
    and [capture/streaming.rs] of [shit-helper]), [HelperLoop] (what leads
    there: [fanotify/tree.rs], [parse.rs], [event_loop.rs], [runtime.rs],
    [ebpf/ringbuf_reader.rs], and the watch requests and the start in
    [main.rs]; a run is a sequence of the locked steps of the threads),
    [BsdCapture] (its capture on the BSDs, [capture/bsd.rs], [kqueue/vnode.rs]
    and [kqueue/drain.rs]; a run is a sequence of requests, kernel events and
    turns of the pump), [Shim] (the preload shim), [Redirect] ([redirect.rs] of [shit-shell]), [Frame]
    ([frame.rs] of [shit-proto]), [Desc] (the crate [shit-desc]).

    A component's state is a record or a map with the source's fields; an
    operation is a function from the old state to the new one and its result,
    errors included. The components meet at interfaces: the planner sees the
    store and the file system through the records of [Probe]; the executors
    of the tiers see tools through the classes [Systemctl], [PackageSystem],
    [TableTool] and [ImageTool]; codecs and hashes are classes with laws
    ([Postcard], [BlobCodec], [CaibxCodec]); the helper and the shim see the
    system through the records [Kernel], [BsdSys] and [ShimSys].

    ** What is proved

    - From capture to undo. [ShimUndo], [CaptureUndo] and [RedirectUndo]
      compose a source of events with the daemon, the store, the planner, the
      orchestrator and the file executor: files removed under the shim, files
      removed or overwritten in a directory the helper watches, and files a
      redirection truncates come back with content and metadata when the
      command is undone, whatever else reaches the daemon meanwhile without
      adding to the command's journal or losing the bytes of these files.
      [UndoSteps]: an undo request for any number of commands, the account of
      its report, and its dry run. [TierUndo] does the same for packages,
      services, routes and container images, from the two reports of the
      wrapper to the state of the system.
    - Capture. [CaptureFacts]: the helper's walk of a directory is true and
      complete within its limits, a message agrees with the bytes it carries,
      and a file is captured once per command. [HelperLoop]: under every
      interleaving of the main loop and the readers, messages are about watched
      commands and stop when the watch does; records and events are read as
      the kernel wrote them; which fanotify events are answered; the tier the
      helper claims is live. [BsdCapture]: the same of messages and captures on
      the BSDs; what is reported of a changed directory, that the scan of new
      ones ends, and what a full channel does. [ShimUndo]: the prefix matcher and the environment
      of children.
    - Daemon. [DaemonFacts], [DaemonRuns]: in every reachable state, whatever
      the order of the inputs, each journaled blob is stored and readable
      unless it was lost in one of the two ways the code has
      ([DaemonRuns.lost]), and a removal is journaled once however often the
      helper reports it. [Active], [Baseline], [WatchReady]: the
      attribution of events refines its specification, promotion, answers to
      waiting shells. [TierRuns]: what the trackers journal, and that
      passwords do not reach the journal.
    - Store. [StoreFacts], [StoreRuns]: the invariants of the index and exact
      reference counts over all runs. [StorePlan]: the index refines the
      in-memory store of the planner, and collection keeps undo plans.
      [GcFacts]: a pass ends, is safe however it ends, and is complete when it
      completes. [LargeObjects]: validation and partial reads of chunked
      objects, and the truth of their flags.
    - Planner. [PlanFacts], [ForwardFacts]: what a plan never deletes, never
      loses and marks as conflict; that it depends on the set of events only.
      [OrchestratorFacts]: which steps a run may take, and exact reports.
      [Undo], [Edits], [Removals], [Moves], [FileFacts]: planner, orchestrator
      and file executor composed on the file system. [EnvFacts]: the
      wire format of environments and their diff. [ShellRender], [ExecFacts]:
      emitted shell text, read by the word rules of a shell. [SystemFacts], [NetworkFacts], [SqlFacts],
      [ClientFacts] in the file [ExecFacts], [DescFacts]: the tiers.
    - The files [StoreExamples], [DaemonExamples], [UndoExamples] and
      [TierExamples] evaluate the definitions on
      concrete sessions: runs that meet the hypotheses of the theorems, and
      the cases in which the program does less than it says.

    ** Parameters and bounds

    Code outside the repository or behind a system call is an argument:
    [blake3], [zstd], [postcard], readers of JSON and TOML, [globset], the
    clocks, the parent relation of processes, [/proc], the programs the
    executors start, the router of privileged operations, whether [chown] is
    allowed, names of temporary files, the target system, and the iteration
    order of hash maps. Hypotheses on them are stated where they are used,
    each with a concrete run that meets them. Fuel is used where recursion is
    not structural, and is enough by construction or by a theorem: the length
    of a path ([create_dir_all]), the depth bound the code itself has
    (ancestor walk, directory walks), the number of commands ([mark_loop],
    with [gc_pass_terminates]), the depth of a tree ([scan_all], with
    [handle_dir_change_terminates]), the number of chunks ([stream_into_fd], with
    [stream_into_fd_spec]), and the length of the text in scanners. Text the
    parsers read is ASCII where the definitions say so; scores of descriptors
    are hundredths instead of [f32]. A collection pass is one step with
    respect to the handlers of the daemon. It may sweep a blob that only a
    baseline snapshot names, and the report of a container may name a blob
    before it is recorded: runs carry the set of blobs lost in these ways
    ([DaemonRuns.runs_losing]). A step of an executor is one step of a
    parallel run. Extended attributes of a pre-image the shim sends are read
    as on Linux, that is not at all.

    ** Not modelled

    The encodings of messages beyond their framing, sockets, threads within
    one operation other than those of [HelperLoop] and [BsdCapture], and errors
    of the database engine; the eBPF programs, the marks on directories, the
    work of kqueue in the kernel, Endpoint Security, the sandboxes and the
    socket of the helper; the capture and the shim on macOS; the wrappers that run a tool and collect its state, other than
    their parsers listed above; shell snippets; the command line with its
    rendering and diagnostics; the execution log. These are input and output
    around the parts above, or variants of them for other systems. *)

From Stdlib Require Export ZArith Lia.
From Stdlib Require Ascii.
From stdpp Require Export base gmap strings list sorting fin_maps.

Export (notations) Stdlib.Strings.Ascii.

Declare Scope shit_scope.
Delimit Scope shit_scope with shit.
Open Scope shit_scope.

Create HintDb shit.

(** ** Tactics *)

(** Split every conjunction and existential among the hypotheses. *)
Ltac destruct_ands :=
  repeat match goal with
  | H : _ ∧ _ |- _ => destruct H
  | H : ∃ _, _ |- _ => destruct H
  end.

(** ** Machine integers *)

(** [u64::MAX], [i64::MAX] and the [as i64] / [as u64] casts, which
    reinterpret the 64 bits. *)
Definition u64_max : Z := 2 ^ 64 - 1.
Definition i64_max : Z := 2 ^ 63 - 1.

Definition wrap_u64 (z : Z) : Z := z mod 2 ^ 64.

Definition u64_as_i64 (z : Z) : Z :=
  if bool_decide (z < 2 ^ 63)%Z then z else (z - 2 ^ 64)%Z.

Definition i64_as_u64 (z : Z) : Z := wrap_u64 z.

Definition u64_saturating_sub (a b : Z) : Z := Z.max 0 (a - b).

Definition is_u64 (z : Z) : Prop := (0 ≤ z < 2 ^ 64)%Z.

Lemma u64_i64_roundtrip (z : Z) : is_u64 z → i64_as_u64 (u64_as_i64 z) = z.
Proof.
  unfold is_u64, i64_as_u64, u64_as_i64, wrap_u64. intros Hz.
  case_bool_decide; [by apply Z.mod_small|].
  rewrite <- (Z.mod_add _ 1 (2 ^ 64)) by lia.
  rewrite Z.mod_small; lia.
Qed.

(** Below [2^63] the cast to [i64] keeps the order SQL compares with. *)
Lemma u64_as_i64_small (z : Z) : (0 ≤ z < 2 ^ 63)%Z → u64_as_i64 z = z.
Proof. unfold u64_as_i64. intros ?. case_bool_decide; lia. Qed.

#[export] Hint Resolve u64_i64_roundtrip u64_as_i64_small : shit.

(** ** Stable insertion sort *)

Section Sort.
Context {A : Type} (leb : A → A → bool).

Fixpoint insert_by (x : A) (l : list A) : list A :=
  match l with
  | [] => [x]
  | y :: l' => if leb x y then x :: y :: l' else y :: insert_by x l'
  end.

(** [sort_by]: elements that compare equal keep their order, as Rust's
    [sort_by_key] guarantees. *)
Definition sort_by (l : list A) : list A := foldr insert_by [] l.

Lemma insert_by_perm (x : A) (l : list A) : insert_by x l ≡ₚ x :: l.
Proof.
  induction l as [|y l IH]; simpl; [done|].
  case_match; [done|]. rewrite IH. by apply Permutation_swap.
Qed.

Lemma sort_by_perm (l : list A) : sort_by l ≡ₚ l.
Proof.
  induction l as [|x l IH]; simpl; [done|]. by rewrite insert_by_perm, IH.
Qed.

Lemma elem_of_sort_by (x : A) (l : list A) : x ∈ sort_by l ↔ x ∈ l.
Proof. by rewrite sort_by_perm. Qed.

Lemma length_sort_by (l : list A) : length (sort_by l) = length l.
Proof. by rewrite sort_by_perm. Qed.

Definition sorted_by : list A → Prop :=
  StronglySorted (λ x y, leb x y = true).

Context (leb_total : ∀ x y, leb x y = true ∨ leb y x = true).
Context (leb_trans : ∀ x y z, leb x y = true → leb y z = true → leb x z = true).

Lemma insert_by_sorted (x : A) (l : list A) :
  sorted_by l → sorted_by (insert_by x l).
Proof.
  induction 1 as [|y l Hl IH Hy]; simpl; [repeat constructor|].
  destruct (leb x y) eqn:E.
  - constructor; [by constructor|]. constructor; [done|].
    eapply Forall_impl; [done|]. simpl. intros z Hz. eauto.
  - constructor; [done|]. rewrite insert_by_perm. constructor; [|done].
    destruct (leb_total x y); congruence.
Qed.

Lemma sort_by_sorted (l : list A) : sorted_by (sort_by l).
Proof.
  induction l as [|x l IH]; simpl; [constructor|]. by apply insert_by_sorted.
Qed.

(** Sorting is the identity on a sorted list. *)
Lemma sort_by_id (l : list A) : sorted_by l → sort_by l = l.
Proof.
  induction 1 as [|x l Hl IH Hx]; simpl; [done|]. rewrite IH.
  destruct l as [|y l']; simpl; [done|].
  apply Forall_cons in Hx as [Hxy _]. by rewrite Hxy.
Qed.

(** A sorted list is determined by its elements when no two of them
    compare equal both ways. *)
Lemma sorted_by_unique (l1 l2 : list A) :
  (∀ x y, x ∈ l1 → y ∈ l1 → leb x y = true → leb y x = true → x = y) →
  l1 ≡ₚ l2 → sorted_by l1 → sorted_by l2 → l1 = l2.
Proof.
  intros Hanti Hperm H1. revert l2 Hperm.
  induction H1 as [|x l1 H1 IH Hx]; intros l2 Hperm H2.
  { by apply Permutation_nil in Hperm as ->. }
  destruct l2 as [|y l2].
  { symmetry in Hperm. by apply Permutation_nil_cons in Hperm. }
  rewrite Forall_forall in Hx.
  assert (x = y) as ->.
  { assert (x ∈ y :: l2) as Hin by (rewrite <- Hperm; left).
    assert (y ∈ x :: l1) as Hin' by (rewrite Hperm; left).
    apply elem_of_cons in Hin as [->|Hin]; [done|].
    apply elem_of_cons in Hin' as [->|Hin']; [done|].
    inversion_clear H2 as [|? ? _ Hy]. rewrite Forall_forall in Hy.
    apply Hanti; [left|by right|by apply Hx|by apply Hy]. }
  f_equal. apply IH.
  - intros a b Ha Hb. apply Hanti; by right.
  - by eapply Permutation_cons_inv.
  - by inversion H2.
Qed.

Lemma sort_by_perm_eq (l1 l2 : list A) :
  (∀ x y, x ∈ l1 → y ∈ l1 → leb x y = true → leb y x = true → x = y) →
  l1 ≡ₚ l2 → sort_by l1 = sort_by l2.
Proof.
  intros Hanti Hperm. apply sorted_by_unique.
  - intros x y. rewrite !elem_of_sort_by. apply Hanti.
  - by rewrite !sort_by_perm.
  - apply sort_by_sorted.
  - apply sort_by_sorted.
Qed.

End Sort.

(** ** Comparison functions

    Rust's derived [Ord]: a comparison function, lexicographic on tuples,
    structs and sequences. The laws give [sort_by] a canonical result. *)

Class LawfulCmp {A} (cmp : A → A → comparison) : Prop := {
  cmp_eq : ∀ x y, cmp x y = Eq ↔ x = y;
  cmp_flip : ∀ x y, cmp y x = CompOpp (cmp x y);
  cmp_lt_trans : ∀ x y z, cmp x y = Lt → cmp y z = Lt → cmp x z = Lt;
}.

Definition leb_of {A} (cmp : A → A → comparison) (x y : A) : bool :=
  match cmp x y with Gt => false | _ => true end.

Definition then_cmp (c d : comparison) : comparison :=
  match c with Eq => d | _ => c end.

Definition pair_cmp {A B} (ca : A → A → comparison) (cb : B → B → comparison)
    (x y : A * B) : comparison :=
  then_cmp (ca x.1 y.1) (cb x.2 y.2).

Fixpoint list_cmp {A} (ca : A → A → comparison) (l k : list A) : comparison :=
  match l, k with
  | [], [] => Eq
  | [], _ :: _ => Lt
  | _ :: _, [] => Gt
  | x :: l', y :: k' => then_cmp (ca x y) (list_cmp ca l' k')
  end.

Definition on_cmp {A B} (f : A → B) (cb : B → B → comparison)
    (x y : A) : comparison :=
  cb (f x) (f y).

Section Cmp.
Context {A} (cmp : A → A → comparison) `{!LawfulCmp cmp}.

Lemma cmp_refl (x : A) : cmp x x = Eq.
Proof. by apply cmp_eq. Qed.

Lemma leb_of_total (x y : A) : leb_of cmp x y = true ∨ leb_of cmp y x = true.
Proof. unfold leb_of. rewrite (cmp_flip x y). destruct (cmp x y); auto. Qed.

Lemma leb_of_trans (x y z : A) :
  leb_of cmp x y = true → leb_of cmp y z = true → leb_of cmp x z = true.
Proof.
  unfold leb_of. intros Hxy Hyz.
  destruct (cmp x y) eqn:E1; [|clear Hxy|done].
  { apply cmp_eq in E1 as ->. done. }
  destruct (cmp y z) eqn:E2; [|clear Hyz|done].
  { apply cmp_eq in E2 as ->. by rewrite E1. }
  by rewrite (cmp_lt_trans _ _ _ E1 E2).
Qed.

Lemma leb_of_antisym (x y : A) :
  leb_of cmp x y = true → leb_of cmp y x = true → x = y.
Proof.
  unfold leb_of. rewrite (cmp_flip x y). intros H1 H2. apply cmp_eq.
  destruct (cmp x y); done.
Qed.

End Cmp.

#[export] Instance N_compare_lawful : LawfulCmp N.compare.
Proof.
  split.
  - apply N.compare_eq_iff.
  - apply N.compare_antisym.
  - intros x y z. rewrite !N.compare_lt_iff. lia.
Qed.

#[export] Instance pair_cmp_lawful {A B} (ca : A → A → comparison)
    (cb : B → B → comparison) `{!LawfulCmp ca, !LawfulCmp cb} :
  LawfulCmp (pair_cmp ca cb).
Proof.
  split; unfold pair_cmp, then_cmp.
  - intros [x1 x2] [y1 y2]; simpl. destruct (ca x1 y1) eqn:E.
    + apply cmp_eq in E as ->. rewrite cmp_eq. naive_solver.
    + split; [done|]. intros [= -> ->]. by rewrite cmp_refl in E.
    + split; [done|]. intros [= -> ->]. by rewrite cmp_refl in E.
  - intros [x1 x2] [y1 y2]; simpl. rewrite (cmp_flip (cmp:=ca) x1 y1), (cmp_flip (cmp:=cb) x2 y2).
    by destruct (ca x1 y1).
  - intros [x1 x2] [y1 y2] [z1 z2]; simpl.
    destruct (ca x1 y1) eqn:E1; [|intros _|done].
    { apply cmp_eq in E1 as ->. destruct (ca y1 z1); eauto using cmp_lt_trans. }
    destruct (ca y1 z1) eqn:E2; [|intros _|done].
    { apply cmp_eq in E2 as ->. by rewrite E1. }
    by rewrite (cmp_lt_trans _ _ _ E1 E2).
Qed.

#[export] Instance list_cmp_lawful {A} (ca : A → A → comparison)
    `{!LawfulCmp ca} : LawfulCmp (list_cmp ca).
Proof.
  split.
  - intros l; induction l as [|x l IH]; intros [|y k]; simpl; try done.
    unfold then_cmp. destruct (ca x y) eqn:E.
    + apply cmp_eq in E as ->. rewrite IH. naive_solver.
    + split; [done|]. intros [= -> ->]. by rewrite cmp_refl in E.
    + split; [done|]. intros [= -> ->]. by rewrite cmp_refl in E.
  - intros l; induction l as [|x l IH]; intros [|y k]; simpl; try done.
    unfold then_cmp. rewrite (cmp_flip (cmp:=ca) x y), IH. by destruct (ca x y).
  - intros l; induction l as [|x l IH]; intros [|y k] [|z m]; simpl; try done.
    unfold then_cmp.
    destruct (ca x y) eqn:E1; [|intros _|done].
    { apply cmp_eq in E1 as ->. destruct (ca y z); eauto. }
    destruct (ca y z) eqn:E2; [|intros _|done].
    { apply cmp_eq in E2 as ->. by rewrite E1. }
    by rewrite (cmp_lt_trans _ _ _ E1 E2).
Qed.

Lemma on_cmp_lawful {A B} (f : A → B) (cb : B → B → comparison)
    `{!LawfulCmp cb, !Inj (=) (=) f} : LawfulCmp (on_cmp f cb).
Proof.
  split; unfold on_cmp.
  - intros x y. rewrite cmp_eq. split; [apply (inj f)|by intros ->].
  - intros x y. apply cmp_flip.
  - intros x y z. apply cmp_lt_trans.
Qed.

(** ** Strings and ordered maps *)

(** The bytes of a string; Rust compares [str] and [OsStr] byte by byte. *)
Fixpoint string_bytes (s : string) : list N :=
  match s with
  | EmptyString => []
  | String c s' => Ascii.N_of_ascii c :: string_bytes s'
  end.

#[export] Instance string_bytes_inj : Inj (=) (=) string_bytes.
Proof.
  intros s; induction s as [|c s IH]; intros [|d t]; simpl; try done.
  intros [= Hc Ht%IH]. f_equal; [|done].
  by rewrite <- (Ascii.ascii_N_embedding c), <- (Ascii.ascii_N_embedding d), Hc.
Qed.

Definition string_cmp : string → string → comparison :=
  on_cmp string_bytes (list_cmp N.compare).

#[export] Instance string_cmp_lawful : LawfulCmp string_cmp.
Proof. apply on_cmp_lawful; apply _. Qed.

Definition string_leb : string → string → bool := leb_of string_cmp.

(** Iteration over a [BTreeMap<String, V>]: ascending key order. *)
Definition btree_iter {V} (m : gmap string V) : list (string * V) :=
  sort_by (λ a b, string_leb a.1 b.1) (map_to_list m).

Lemma elem_of_btree_iter {V} (m : gmap string V) k v :
  (k, v) ∈ btree_iter m ↔ m !! k = Some v.
Proof. unfold btree_iter. by rewrite elem_of_sort_by, elem_of_map_to_list. Qed.

Lemma btree_iter_perm {V} (m : gmap string V) : btree_iter m ≡ₚ map_to_list m.
Proof. apply sort_by_perm. Qed.

Lemma NoDup_btree_iter_keys {V} (m : gmap string V) : NoDup (btree_iter m).*1.
Proof. rewrite btree_iter_perm. apply NoDup_fst_map_to_list. Qed.

#[export] Hint Resolve NoDup_btree_iter_keys : shit.

Lemma list_to_map_btree_iter {V} (m : gmap string V) :
  list_to_map (btree_iter m) = m.
Proof.
  rewrite (list_to_map_proper (M:=gmap string) _ (map_to_list m)).
  - apply list_to_map_to_list.
  - apply NoDup_btree_iter_keys.
  - apply btree_iter_perm.
Qed.

(** A loop over distinct keys whose body changes what is observed at [n] only
    at the entry for [n]. *)
Lemma foldl_at_key {V A X} (step : A → string * V → A) (get : A → X)
    (n : string) (h : V → X → X) (l : list (string * V)) (acc : A) :
  (∀ acc k v, k ≠ n → get (step acc (k, v)) = get acc) →
  (∀ acc v, get (step acc (n, v)) = h v (get acc)) →
  NoDup l.*1 →
  get (foldl step acc l) =
  match (list_to_map l : gmap string V) !! n with
  | Some v => h v (get acc)
  | None => get acc
  end.
Proof.
  intros Hne Heq. revert acc. induction l as [|[k v] l IH]; intros acc; [done|].
  rewrite fmap_cons, NoDup_cons. intros [Hk Hl]. simpl. rewrite IH by done.
  destruct (decide (k = n)) as [->|Hkn].
  - rewrite lookup_insert_eq, not_elem_of_list_to_map_1 by done. apply Heq.
  - rewrite lookup_insert_ne by done. by rewrite Hne.
Qed.

Lemma foldl_btree_at_key {V A X} (step : A → string * V → A) (get : A → X)
    (n : string) (h : V → X → X) (m : gmap string V) (acc : A) :
  (∀ acc k v, k ≠ n → get (step acc (k, v)) = get acc) →
  (∀ acc v, get (step acc (n, v)) = h v (get acc)) →
  get (foldl step acc (btree_iter m)) =
  match m !! n with Some v => h v (get acc) | None => get acc end.
Proof.
  intros Hne Heq. rewrite (foldl_at_key _ _ n h) by (done || apply NoDup_btree_iter_keys).
  by rewrite list_to_map_btree_iter.
Qed.

(** ** HashMap iteration

    Rust leaves the iteration order of a [HashMap] unspecified. A loop over
    one is modelled against this interface: any order that lists exactly the
    entries of the map. *)

Class HashOrder (K V : Type) `{Countable K} := {
  hash_iter : gmap K V → list (K * V);
  hash_iter_perm : ∀ m, hash_iter m ≡ₚ map_to_list m;
}.

(** One such order, so that definitions over [HashOrder] can be evaluated. *)
Definition map_order {K V : Type} `{Countable K} : HashOrder K V :=
  {| hash_iter := map_to_list; hash_iter_perm := λ m, reflexivity _ |}.

Lemma elem_of_hash_iter {K V} `{Countable K} (ord : HashOrder K V)
    (m : gmap K V) (k : K) (v : V) :
  (k, v) ∈ hash_iter m ↔ m !! k = Some v.
Proof. by rewrite hash_iter_perm, elem_of_map_to_list. Qed.

(** ** Lists and options *)

Lemma elem_of_flat_map {A B} (f : A → list B) (l : list A) (y : B) :
  y ∈ flat_map f l ↔ ∃ x, x ∈ l ∧ y ∈ f x.
Proof.
  rewrite list_elem_of_In, in_flat_map. setoid_rewrite list_elem_of_In. done.
Qed.

Lemma length_filter_perm {A} (P : A → bool) (l k : list A) :
  l ≡ₚ k → length (List.filter P l) = length (List.filter P k).
Proof.
  induction 1; simpl; repeat case_match; simpl; congruence.
Qed.

Lemma list_filter_perm {A} (P : A → bool) (l k : list A) :
  l ≡ₚ k → List.filter P l ≡ₚ List.filter P k.
Proof.
  induction 1; simpl; repeat case_match; eauto using Permutation, perm_swap.
Qed.

Lemma elem_of_list_filter {A} (P : A → bool) (l : list A) (x : A) :
  x ∈ List.filter P l ↔ x ∈ l ∧ P x = true.
Proof. rewrite !list_elem_of_In. apply List.filter_In. Qed.

Lemma forallb_elem {A} (P : A → bool) (l : list A) :
  forallb P l = true ↔ ∀ x, x ∈ l → P x = true.
Proof. setoid_rewrite list_elem_of_In. apply forallb_forall. Qed.

Lemma existsb_elem {A} (P : A → bool) (l : list A) :
  existsb P l = true ↔ ∃ x, x ∈ l ∧ P x = true.
Proof. setoid_rewrite list_elem_of_In. apply existsb_exists. Qed.

(** Strings as character lists. *)
Lemma string_cons_app (c : Ascii.ascii) (s t : string) :
  String c s +:+ t = String c (s +:+ t).
Proof. reflexivity. Qed.

Lemma string_app_nil_r (s : string) : s +:+ "" = s.
Proof. induction s as [|c s IH]; [done|]. by rewrite string_cons_app, IH. Qed.

Lemma string_app_assoc (a b c : string) : a +:+ b +:+ c = (a +:+ b) +:+ c.
Proof. induction a as [|x a IH]; [done|]. by rewrite !string_cons_app, IH. Qed.

(** [str::split_once] on one character. *)
Fixpoint split_once (sep : Ascii.ascii) (s : string) : option (string * string) :=
  match s with
  | EmptyString => None
  | String c rest =>
      if bool_decide (c = sep) then Some ("", rest)
      else (λ '(a, b), (String c a, b)) <$> split_once sep rest
  end.
