(* ===== verification/Paths.v ===== *)
(** * Paths

    [std::path::PathBuf] as the planner uses it. Rust compares, hashes and
    orders paths through [Path::components()], so a path is its sequence of
    components: [/a//b/./c/] and [/a/b/c] are the same [PathBuf]. Parsing of
    a path string, [parent], [starts_with] and the derived order are given on
    that view. *)

From S2P Require Import Prelude.

(** [std::path::Component] on Unix, in the order of its derived [Ord]. *)
Inductive Component :=
  | RootDir
  | CurDir
  | ParentDir
  | Normal (s : string).

#[export] Instance Component_eq_dec : EqDecision Component.
Proof. solve_decision. Defined.

#[export] Instance Component_countable : Countable Component.
Proof.
  refine (inj_countable'
    (λ c, match c with
          | RootDir => inl 0 | CurDir => inl 1 | ParentDir => inl 2
          | Normal s => inr s end)
    (λ x, match x with
          | inl 0 => RootDir | inl 1 => CurDir | inl _ => ParentDir
          | inr s => Normal s end) _).
  by intros [].
Defined.

Abbreviation PathBuf := (list Component).

(** ** Parsing *)

(** Split a string at the character [/]. *)
Fixpoint split_slash (s : string) : list string :=
  match s with
  | EmptyString => [""]
  | String c s' =>
      if bool_decide (c = "/"%char) then "" :: split_slash s'
      else match split_slash s' with
           | [] => [String c ""]
           | w :: ws => String c w :: ws
           end
  end.

(** One non-leading piece: empty pieces and [.] vanish. *)
Definition piece_component (w : string) : option Component :=
  if bool_decide (w = "") then None
  else if bool_decide (w = ".") then None
  else if bool_decide (w = "..") then Some ParentDir
  else Some (Normal w).

(** [PathBuf::from(s)], up to [Path] equality. *)
Definition path_of_string (s : string) : PathBuf :=
  match split_slash s with
  | [] => []
  | "" :: ws =>
      match ws with
      | [] => []
      | _ => RootDir :: omap piece_component ws
      end
  | w :: ws =>
      if bool_decide (w = ".") then CurDir :: omap piece_component ws
      else omap piece_component (w :: ws)
  end.

(** ** Queries *)

(** [Path::parent]: drop the last component unless it is the root. *)
Fixpoint parent (p : PathBuf) : option PathBuf :=
  match p with
  | [] => None
  | [RootDir] => None
  | [_] => Some []
  | c :: p' => cons c <$> parent p'
  end.

(** [p.as_os_str().is_empty()]. *)
Definition path_is_empty (p : PathBuf) : bool := bool_decide (p = []).

(** [Path::starts_with]: component-wise prefix. *)
Fixpoint starts_with (p base : PathBuf) : bool :=
  match base, p with
  | [], _ => true
  | b :: base', c :: p' => bool_decide (b = c) && starts_with p' base'
  | _ :: _, [] => false
  end.

(** The planner's [path.parent().filter(|p| !p.as_os_str().is_empty())]. *)
Definition nonempty_parent (p : PathBuf) : option PathBuf :=
  match parent p with
  | Some q => if path_is_empty q then None else Some q
  | None => None
  end.

(** ** Order *)

Definition component_key (c : Component) : N * string :=
  match c with
  | RootDir => (0%N, "")
  | CurDir => (1%N, "")
  | ParentDir => (2%N, "")
  | Normal s => (3%N, s)
  end.

#[export] Instance component_key_inj : Inj (=) (=) component_key.
Proof. intros [] []; simpl; congruence. Qed.

Definition path_cmp : PathBuf → PathBuf → comparison :=
  list_cmp (on_cmp component_key (pair_cmp N.compare string_cmp)).

#[export] Instance path_cmp_lawful : LawfulCmp path_cmp.
Proof. apply list_cmp_lawful, on_cmp_lawful; apply _. Qed.

Definition path_leb : PathBuf → PathBuf → bool := leb_of path_cmp.

(** ** Lemmas *)

Lemma starts_with_prefix (p base : PathBuf) :
  starts_with p base = true ↔ base `prefix_of` p.
Proof.
  revert p; induction base as [|b base IH]; intros [|c p]; simpl.
  - split; [intros _; by exists []|done].
  - split; [intros _; by exists (c :: p)|done].
  - split; [done|intros [k Hk]; by simplify_list_eq].
  - rewrite andb_true_iff, bool_decide_eq_true, IH. split.
    + intros [-> Hp]. by apply prefix_cons.
    + intros Hp. split; [by eapply prefix_cons_inv_1|by eapply prefix_cons_inv_2].
Qed.

Lemma parent_Some (p q : PathBuf) : parent p = Some q → ∃ c, p = q ++ [c].
Proof.
  revert q; induction p as [|c p IH]; intros q; simpl; [done|].
  destruct p as [|d p].
  - destruct c; intros [= <-]; eexists; done.
  - intros Hq.
    assert (cons c <$> parent (d :: p) = Some q) as Hq' by (by destruct c).
    apply fmap_Some in Hq' as (x & Hx & ->).
    destruct (IH _ Hx) as [e He]. exists e. by rewrite He.
Qed.

Lemma parent_snoc (p : PathBuf) (s : string) :
  parent (p ++ [Normal s]) = Some p.
Proof.
  induction p as [|c p IH]; simpl; [done|].
  destruct (p ++ [Normal s]) eqn:E; [by destruct p|].
  rewrite IH. by destruct c.
Qed.

Lemma parent_app (p : PathBuf) (c : Component) :
  c ≠ RootDir → parent (p ++ [c]) = Some p.
Proof.
  intros Hc. induction p as [|d p IH]; [by destruct c|]. simpl.
  destruct (p ++ [c]) eqn:E; [by destruct p|]. rewrite IH. by destruct d.
Qed.

Example path_of_string_normalises :
  path_of_string "/a//b/./c/" = [RootDir; Normal "a"; Normal "b"; Normal "c"].
Proof. reflexivity. Qed.

Example path_of_string_relative :
  path_of_string "./x/../y" = [CurDir; Normal "x"; ParentDir; Normal "y"].
Proof. reflexivity. Qed.

(** ** Rendering

    [to_string_lossy] of a path built from UTF-8 components, in its canonical
    spelling. *)
Definition component_string (c : Component) : string :=
  match c with
  | RootDir => ""
  | CurDir => "."
  | ParentDir => ".."
  | Normal s => s
  end.

Fixpoint join_slash (ws : list string) : string :=
  match ws with
  | [] => ""
  | [w] => w
  | w :: ws' => w +:+ String "/" (join_slash ws')
  end.

Definition path_string (p : PathBuf) : string :=
  match p with
  | [RootDir] => "/"
  | _ => join_slash (component_string <$> p)
  end.

Fixpoint no_slash (s : string) : bool :=
  match s with
  | EmptyString => true
  | String c s' => negb (bool_decide (c = "/"%char)) && no_slash s'
  end.

(** What a file name may be. *)
Definition normal_ok (c : Component) : bool :=
  match c with
  | Normal s =>
      negb (bool_decide (s = "")) && negb (bool_decide (s = "."))
      && negb (bool_decide (s = "..")) && no_slash s
  | ParentDir => true
  | _ => false
  end.

(** An absolute path as [components()] yields it. *)
Definition absolute_ok (p : PathBuf) : bool :=
  match p with
  | RootDir :: p' => forallb normal_ok p'
  | _ => false
  end.

Lemma split_slash_no_slash (s : string) :
  no_slash s = true → split_slash s = [s].
Proof.
  induction s as [|c s IH]; [done|]. simpl. rewrite andb_true_iff, negb_true_iff.
  intros [Hc Hs]. rewrite Hc, IH; done.
Qed.

Lemma split_slash_app (a b : string) :
  no_slash a = true → split_slash (a +:+ String "/" b) = a :: split_slash b.
Proof.
  induction a as [|c a IH]; intros Ha; [done|].
  rewrite string_cons_app. cbn [split_slash]. simpl in Ha.
  apply andb_true_iff in Ha as [Hc Ha]. apply negb_true_iff in Hc.
  by rewrite Hc, IH.
Qed.

Lemma split_slash_join (ws : list string) :
  ws ≠ [] → forallb no_slash ws = true → split_slash (join_slash ws) = ws.
Proof.
  induction ws as [|w ws IH]; [done|]. intros _. simpl. rewrite andb_true_iff.
  intros [Hw Hws]. destruct ws as [|w' ws]; [by apply split_slash_no_slash|].
  rewrite split_slash_app, IH; done.
Qed.

Lemma normal_ok_no_slash (c : Component) :
  normal_ok c = true → no_slash (component_string c) = true.
Proof.
  destruct c; simpl; try done. rewrite !andb_true_iff. tauto.
Qed.

Lemma normal_ok_piece (c : Component) :
  normal_ok c = true → piece_component (component_string c) = Some c.
Proof.
  unfold piece_component. destruct c as [| | |s]; simpl; try done.
  rewrite !andb_true_iff, !negb_true_iff, !bool_decide_eq_false.
  intros [[[H1 H2] H3] _]. by rewrite !bool_decide_eq_false_2.
Qed.

(** Printing an absolute path and parsing it back is the identity. *)
Lemma path_string_roundtrip (p : PathBuf) :
  absolute_ok p = true → path_of_string (path_string p) = p.
Proof.
  destruct p as [|[] p]; try done. destruct p as [|c p]; [done|].
  change (absolute_ok (RootDir :: c :: p)) with (forallb normal_ok (c :: p)).
  change (path_string (RootDir :: c :: p))
    with (join_slash ("" :: (component_string <$> c :: p))).
  assert (c :: p ≠ []) as Hne by done. revert Hne.
  generalize (c :: p). intros q Hne Hp. unfold path_of_string.
  rewrite split_slash_join; [|done|].
  - assert (omap piece_component (component_string <$> q) = q) as Ho.
    { clear Hne. induction q as [|d q IH]; [done|]. simpl in Hp.
      apply andb_true_iff in Hp as [Hd Hq].
      rewrite fmap_cons. cbn [omap list_omap]. by rewrite normal_ok_piece, IH. }
    destruct q as [|d q]; [done|]. rewrite fmap_cons in *. by rewrite Ho.
  - simpl. clear Hne. induction q as [|d q IH]; [done|]. simpl in Hp.
    apply andb_true_iff in Hp as [Hd Hq].
    rewrite fmap_cons. simpl. by rewrite (normal_ok_no_slash d Hd), IH.
Qed.
