(* ===== verification/Base.v ===== *)
(** * Base types of the planner

    [inode.rs], [time.rs] and [metadata.rs] of [shit-planner], and the
    user-facing messages. Enums live in a module named after the Rust type,
    so [FileKind::Regular] reads [FileKind.Regular]. *)

From S2P Require Import Prelude Paths.

(** ** Bytes *)

Abbreviation bytes := (list Byte.byte).

#[export] Instance byte_eq_dec : EqDecision Byte.byte := Byte.byte_eq_dec.

(** [Uuid]: sixteen opaque bytes, kept as the number they encode. *)
Abbreviation Uuid := N.

(** ** inode.rs *)

Record InodeRef := mkInode { i_dev : N; i_ino : N }.

#[export] Instance InodeRef_eq_dec : EqDecision InodeRef.
Proof. solve_decision. Defined.

#[export] Instance InodeRef_countable : Countable InodeRef.
Proof.
  refine (inj_countable' (λ i, (i_dev i, i_ino i)) (λ '(d, n), mkInode d n) _).
  by intros [].
Defined.

(** The sentinel [(0, 0)] of events whose capture path knows no inode. *)
Definition inode_known (i : InodeRef) : bool :=
  negb (bool_decide (i_dev i = 0%N)) || negb (bool_decide (i_ino i = 0%N)).

(** A 32-byte blake3 digest. *)
Record BlobHash := mkHash { as_bytes : list N }.

#[export] Instance BlobHash_eq_dec : EqDecision BlobHash.
Proof. solve_decision. Defined.

#[export] Instance BlobHash_countable : Countable BlobHash.
Proof. refine (inj_countable' as_bytes mkHash _). by intros []. Defined.

(** One byte as two lower-case hexadecimal digits. *)
Definition hex_digit (n : N) : Ascii.ascii :=
  Ascii.ascii_of_N (if bool_decide (n < 10)%N then 48 + n else 87 + n).

Definition hex_byte (n : N) : string :=
  String (hex_digit (n / 16)) (String (hex_digit (n mod 16)) "").

Definition to_hex (h : BlobHash) : string :=
  foldr (λ b s, hex_byte b +:+ s) "" (as_bytes h).

(** ** time.rs *)

Record TimePoint := mkTime { logical : N; wallclock_unix_nanos : N }.

#[export] Instance TimePoint_eq_dec : EqDecision TimePoint.
Proof. solve_decision. Defined.

(** The derived [Ord]: logical clock first, wall clock second. *)
Definition time_key (t : TimePoint) : N * N := (logical t, wallclock_unix_nanos t).

#[export] Instance time_key_inj : Inj (=) (=) time_key.
Proof. intros [] []; unfold time_key; simpl; congruence. Qed.

Definition time_cmp : TimePoint → TimePoint → comparison :=
  on_cmp time_key (pair_cmp N.compare N.compare).

#[export] Instance time_cmp_lawful : LawfulCmp time_cmp.
Proof. apply on_cmp_lawful; apply _. Qed.

Definition time_leb : TimePoint → TimePoint → bool := leb_of time_cmp.

Definition time_ltb (a b : TimePoint) : bool := negb (time_leb b a).

Definition u64_MAX : N := 18446744073709551615.

Definition TimePoint_min : TimePoint := mkTime 0 0.

Definition TimePoint_max : TimePoint := mkTime u64_MAX u64_MAX.

Record TimeRange := mkTimeRange { tr_start : TimePoint; tr_end : TimePoint }.

Definition TimeRange_contains (r : TimeRange) (point : TimePoint) : bool :=
  time_leb (tr_start r) point && time_ltb point (tr_end r).

Definition TimeRange_all : TimeRange := mkTimeRange TimePoint_min TimePoint_max.

Record SeqRange := mkSeqRange { sr_start : N; sr_end : N }.

Definition SeqRange_contains (r : SeqRange) (seq : N) : bool :=
  bool_decide (sr_start r ≤ seq)%N && bool_decide (seq < sr_end r)%N.

(** [seq.saturating_add(1)] at [u64]. *)
Definition SeqRange_single (seq : N) : SeqRange :=
  mkSeqRange seq (N.min (seq + 1) u64_MAX).

(** ** metadata.rs *)

Record FileMetadata := mkMeta {
  m_mode : N;
  m_uid : N;
  m_gid : N;
  m_size : N;
  m_mtime_unix_nanos : Z;
  m_xattrs : gmap string bytes;
  m_acl : option bytes;
  m_flags : N;
}.

#[export] Instance FileMetadata_eq_dec : EqDecision FileMetadata.
Proof. solve_decision. Defined.

Definition semantically_equal (self other : FileMetadata) : bool :=
  bool_decide (m_mode self = m_mode other)
  && bool_decide (m_uid self = m_uid other)
  && bool_decide (m_gid self = m_gid other)
  && bool_decide (m_size self = m_size other)
  && bool_decide (m_xattrs self = m_xattrs other)
  && bool_decide (m_acl self = m_acl other)
  && bool_decide (m_flags self = m_flags other).

Definition only_flags_changed (self other : FileMetadata) : bool :=
  negb (bool_decide (m_flags self = m_flags other))
  && bool_decide (m_mode self = m_mode other)
  && bool_decide (m_uid self = m_uid other)
  && bool_decide (m_gid self = m_gid other)
  && bool_decide (m_size self = m_size other)
  && bool_decide (m_mtime_unix_nanos self = m_mtime_unix_nanos other)
  && bool_decide (m_xattrs self = m_xattrs other)
  && bool_decide (m_acl self = m_acl other).

Module FileKind.
Inductive FileKind :=
  | Regular | Directory | Symlink | Fifo | Socket | BlockDevice | CharDevice.
End FileKind.
Export (notations) FileKind.
Abbreviation FileKind := FileKind.FileKind.

#[export] Instance FileKind_eq_dec : EqDecision FileKind.
Proof. solve_decision. Defined.

Definition S_IFMT : N := 0xF000.

Definition FileKind_from_mode (m : N) : option FileKind :=
  let t := N.land m S_IFMT in
  if bool_decide (t = 0x8000%N) then Some FileKind.Regular
  else if bool_decide (t = 0x4000%N) then Some FileKind.Directory
  else if bool_decide (t = 0xA000%N) then Some FileKind.Symlink
  else if bool_decide (t = 0x1000%N) then Some FileKind.Fifo
  else if bool_decide (t = 0xC000%N) then Some FileKind.Socket
  else if bool_decide (t = 0x6000%N) then Some FileKind.BlockDevice
  else if bool_decide (t = 0x2000%N) then Some FileKind.CharDevice
  else None.

(** ** Messages

    [format!] results that only reach the user (conflict details, warnings,
    error texts) are kept as the sequence of literal pieces and formatted
    arguments instead of the rendered [String]. [{x}] is a display piece,
    [{x:?}] a debug piece. *)

Inductive Piece :=
  | Lit (s : string)
  | PathDisplay (p : PathBuf)
  | PathDebug (p : PathBuf)
  | InodeDisplay (i : InodeRef)
  | InodeDebug (i : InodeRef)
  | BlobDisplay (b : BlobHash)
  | NumDisplay (n : N)
  (** [{n:o}] and [{n:x}]. *)
  | NumOctal (n : N)
  | NumHex (n : N)
  (** [{s:?}] of a string. *)
  | StrDebug (s : string)
  (** The debug form of an enum value: its variant and the fields. *)
  | DebugVariant (variant : string) (fields : list Piece)
  (** An error value of the standard library or of another crate. *)
  | ErrDisplay (e : string).

Abbreviation Msg := (list Piece).

(** ** Lemmas *)

(** Metadata that changed only in its flags is not semantically equal, and
    agrees on every other field. *)
Lemma only_flags_changed_spec (a b : FileMetadata) :
  only_flags_changed a b = true ↔
  m_flags a ≠ m_flags b ∧
  b = mkMeta (m_mode a) (m_uid a) (m_gid a) (m_size a) (m_mtime_unix_nanos a)
        (m_xattrs a) (m_acl a) (m_flags b).
Proof.
  unfold only_flags_changed. rewrite !andb_true_iff, negb_true_iff.
  rewrite bool_decide_eq_false, !bool_decide_eq_true.
  destruct a, b; simpl. split; [intros; destruct_ands; by subst|].
  intros [? [=]]; by subst.
Qed.

Lemma seq_range_single_contains (s t : N) :
  (s < u64_MAX)%N → SeqRange_contains (SeqRange_single s) t = bool_decide (t = s).
Proof.
  unfold SeqRange_contains, SeqRange_single; simpl. intros Hs.
  rewrite N.min_l by lia. repeat case_bool_decide; try done; lia.
Qed.

#[export] Hint Resolve only_flags_changed_spec : shit.
