(* ===== verification/Events.v ===== *)
(** * Capture events

    [events.rs] of [shit-planner]: the atomic unit of recorded state, plus the
    payload enums of [inverse.rs] that events carry. *)

From S2P Require Import Prelude Paths Base.

(** ** Payload enums shared with the inverse operations ([inverse.rs]) *)

Module KubectlOp.
Inductive KubectlOp :=
  | Delete (kind name : string)
  | Apply (kind name : string)
  | Scale (kind name : string)
  | Rollout (kind name : string).
End KubectlOp.
Abbreviation KubectlOp := KubectlOp.KubectlOp.

Module GhOp.
Inductive GhOp :=
  | ReleaseDelete (tag : string)
  | ReleaseDeleteAsset (tag asset : string)
  | IssueClose (number : N)
  | PrClose (number : N).
End GhOp.
Abbreviation GhOp := GhOp.GhOp.

Module AwsOp.
Inductive AwsOp :=
  | S3Cp (bucket key : string)
  | S3Rm (bucket key : string)
  | Ec2Terminate (instance_id : string)
  | Ec2Stop (instance_id : string).
End AwsOp.
Abbreviation AwsOp := AwsOp.AwsOp.

Module TerraformOp.
Inductive TerraformOp := Apply | Destroy | StateRm | Import.
End TerraformOp.
Abbreviation TerraformOp := TerraformOp.TerraformOp.

Module ContainerRuntime.
Inductive ContainerRuntime := Docker | Podman.
End ContainerRuntime.
Abbreviation ContainerRuntime := ContainerRuntime.ContainerRuntime.

Module ContainerOp.
Inductive ContainerOp :=
  | Rm (id : string) (name : option string) (was_running : bool)
  | Rmi (image : string) (digest : option string)
  | VolumeRm (name : string) (driver : option string)
  | NetworkRm (name : string)
  | ComposeDown (project : string) (services : list string)
      (compose_file : PathBuf) (with_volumes : bool)
  | Pull (image : string) (resolved_id : option string).
End ContainerOp.
Abbreviation ContainerOp := ContainerOp.ContainerOp.

(** [shit_proto::ShellKind]. *)
Module ShellKind.
Inductive ShellKind := Bash | Zsh | Fish | Unknown.
End ShellKind.
Abbreviation ShellKind := ShellKind.ShellKind.

(** ** Identifiers *)

Record EventId := mkEventId { event_id : N }.

#[export] Instance EventId_eq_dec : EqDecision EventId.
Proof. solve_decision. Defined.

#[export] Instance EventId_countable : Countable EventId.
Proof. refine (inj_countable' event_id mkEventId _). by intros []. Defined.

Record CommandId := mkCommandId { session : Uuid; seq : N }.

#[export] Instance CommandId_eq_dec : EqDecision CommandId.
Proof. solve_decision. Defined.

#[export] Instance CommandId_countable : Countable CommandId.
Proof.
  refine (inj_countable' (λ c, (session c, seq c)) (λ '(s, n), mkCommandId s n) _).
  by intros [].
Defined.

(** ** Event payloads *)

Module FilePreImageSource.
Inductive FilePreImageSource :=
  | BaselineCachePromote
  | EsAuthPreMutation
  | Other
  | ShimFlagsPreMutation.
End FilePreImageSource.
Abbreviation FilePreImageSource := FilePreImageSource.FilePreImageSource.

#[export] Instance FilePreImageSource_eq_dec : EqDecision FilePreImageSource.
Proof. solve_decision. Defined.

Definition is_trusted_pre_mutation (s : FilePreImageSource) : bool :=
  match s with
  | FilePreImageSource.BaselineCachePromote
  | FilePreImageSource.EsAuthPreMutation => true
  | _ => false
  end.

Definition is_shim_flags (s : FilePreImageSource) : bool :=
  match s with
  | FilePreImageSource.ShimFlagsPreMutation => true
  | _ => false
  end.

Module TreeOp.
Inductive TreeOp :=
  | Create (inode : InodeRef) (path : PathBuf) (kind : FileKind) (mode : N)
  | Unlink (inode : InodeRef) (path : PathBuf) (kind : FileKind) (mode : N)
  | Rename (from to : PathBuf) (inode : InodeRef)
  | Link (source : InodeRef) (target : PathBuf)
  | Symlink (target : string) (path : PathBuf)
  | SymlinkRemoved (target : string) (path : PathBuf).
End TreeOp.
Abbreviation TreeOp := TreeOp.TreeOp.

Module PackageManager.
Inductive PackageManager := Apt | Dpkg | Pacman | Dnf | Brew | Pkg.
End PackageManager.
Abbreviation PackageManager := PackageManager.PackageManager.

Module PackageOpKind.
Inductive PackageOpKind :=
  | Install | Remove | Purge | Upgrade | Downgrade | Hold | Unhold.
End PackageOpKind.
Abbreviation PackageOpKind := PackageOpKind.PackageOpKind.

Module NetworkTool.
Inductive NetworkTool :=
  | Iptables | Ip6tables | Nft | Ufw | Pfctl | IpRoute | IpAddr | IpLink
  | Route | Ifconfig | Networksetup.
End NetworkTool.
Abbreviation NetworkTool := NetworkTool.NetworkTool.

#[export] Instance NetworkTool_eq_dec : EqDecision NetworkTool.
Proof. solve_decision. Defined.

Module SystemdScope.
Inductive SystemdScope := User | System | LaunchdGui | LaunchdSystem | RcBase.
End SystemdScope.
Abbreviation SystemdScope := SystemdScope.SystemdScope.

Record ServiceState := mkServiceState {
  active : bool;
  enabled : bool;
  masked : bool;
  present : bool;
  raw : string;
}.

Module ProcessOpKind.
Inductive ProcessOpKind := Spawned | Killed | Detached | Exec.
End ProcessOpKind.
Abbreviation ProcessOpKind := ProcessOpKind.ProcessOpKind.

(** [events::DbEngine] and [inverse::DbEngine] have the same variants; the
    planner maps one onto the other variant by variant. *)
Module DbEngine.
Inductive DbEngine := Postgres | Mysql | Sqlite3.
End DbEngine.
Abbreviation DbEngine := DbEngine.DbEngine.

Module DbTxState.
Inductive DbTxState := AutoCommit | Committed | RolledBack | Unfinished | Unknown.
End DbTxState.
Abbreviation DbTxState := DbTxState.DbTxState.

#[export] Instance DbTxState_eq_dec : EqDecision DbTxState.
Proof. solve_decision. Defined.

(** ** The event *)

Module CaptureEventKind.
Inductive CaptureEventKind :=
  | FilePreImage (inode : InodeRef) (path : PathBuf) (blob : BlobHash)
      (meta : FileMetadata) (post_content_hash : option BlobHash)
      (source : FilePreImageSource)
  | MetadataChange (inode : InodeRef) (path : PathBuf)
      (before after : FileMetadata)
  | FileAppendPreStash (inode : InodeRef) (path : PathBuf) (pre_size : N)
  | TreeOp (op : TreeOp)
  | EnvDiff (added removed : gmap string string)
      (modified : gmap string (string * string))
  | ShellStateDiff (pwd_before pwd_after : PathBuf)
      (opts : list (string * string * string))
      (aliases : list (string * option string * option string))
      (funcs : list (string * option string * option string))
  | PackageOp (manager : PackageManager) (op : PackageOpKind)
      (packages_before packages_after : gmap string string)
      (repo_state_hint : option string)
  | NetworkOp (tool : NetworkTool) (before_state after_state : bytes)
      (inverse_invocations : list (list string))
  | SystemdOp (scope : SystemdScope) (unit : string)
      (before after : ServiceState)
  | ProcessOp (kind : ProcessOpKind) (pid : N) (argv : list string)
      (cwd : PathBuf) (env_summary : gmap string string) (parent_pid : N)
      (signal : option Z)
  | DbOp (engine : DbEngine) (target : string) (statements : list string)
      (transaction_state : DbTxState)
  | ContainerOp (runtime : ContainerRuntime) (op : ContainerOp)
      (captured_config : bytes) (stash_image : option string)
      (stash_tarball : option BlobHash)
  | TerraformOp (workdir : PathBuf) (op : TerraformOp) (prior_state : bytes)
  | KubectlOp (context : string) (namespace : option string) (op : KubectlOp)
      (captured_yaml : bytes)
  | GhOp (op : GhOp) (captured_json : bytes)
  | CaptureRefused (class : string) (path : PathBuf) (detail : string).
End CaptureEventKind.
Abbreviation CaptureEventKind := CaptureEventKind.CaptureEventKind.

Record CaptureEvent := mkEvent {
  e_id : EventId;
  e_command : CommandId;
  e_ts : TimePoint;
  e_partial : bool;
  e_kind : CaptureEventKind;
}.

Record CommandRecord := mkCommandRecord {
  c_command : CommandId;
  c_cmd_string : option string;
  c_cwd : PathBuf;
  c_pid : N;
  c_shell_kind : ShellKind;
  c_started_at : TimePoint;
  c_ended_at : option TimePoint;
  c_exit_code : option Z;
  c_event_ids : list EventId;
}.

(** The sort key [(e.ts, e.id)] of both planners. *)
Definition event_key (e : CaptureEvent) : (N * N) * N :=
  (time_key (e_ts e), event_id (e_id e)).

Definition event_cmp : CaptureEvent → CaptureEvent → comparison :=
  on_cmp event_key (pair_cmp (pair_cmp N.compare N.compare) N.compare).

(** Two events of a journal never share an id: the store assigns the row id. *)
Definition unique_ids (evs : list CaptureEvent) : Prop :=
  NoDup (e_id <$> evs).

Section EventOrder.
Let key_cmp := pair_cmp (pair_cmp N.compare N.compare) N.compare.

Lemma event_leb_total (x y : CaptureEvent) :
  leb_of event_cmp x y = true ∨ leb_of event_cmp y x = true.
Proof. apply (leb_of_total key_cmp (event_key x) (event_key y)). Qed.

Lemma event_leb_trans (x y z : CaptureEvent) :
  leb_of event_cmp x y = true → leb_of event_cmp y z = true →
  leb_of event_cmp x z = true.
Proof. apply (leb_of_trans key_cmp (event_key x) (event_key y) (event_key z)). Qed.

Lemma event_leb_key (x y : CaptureEvent) :
  leb_of event_cmp x y = true → leb_of event_cmp y x = true →
  event_key x = event_key y.
Proof. apply (leb_of_antisym key_cmp (event_key x) (event_key y)). Qed.
End EventOrder.

Lemma unique_ids_inj (evs : list CaptureEvent) (x y : CaptureEvent) :
  unique_ids evs → x ∈ evs → y ∈ evs → e_id x = e_id y → x = y.
Proof.
  unfold unique_ids. induction evs as [|e evs IH]; [by intros _ ?%elem_of_nil|].
  rewrite fmap_cons, NoDup_cons, !elem_of_cons, list_elem_of_fmap.
  intros [Hn Hnd] [->|Hx] [->|Hy] Hid; try done; naive_solver.
Qed.

(** Events with unique ids are determined by their sort key. *)
Lemma event_leb_antisym (evs : list CaptureEvent) (x y : CaptureEvent) :
  unique_ids evs → x ∈ evs → y ∈ evs →
  leb_of event_cmp x y = true → leb_of event_cmp y x = true → x = y.
Proof.
  intros Hu Hx Hy H1 H2. apply (unique_ids_inj evs); [done..|].
  pose proof (event_leb_key _ _ H1 H2) as Hk.
  unfold event_key in Hk. destruct (e_id x), (e_id y); simpl in *; congruence.
Qed.
