(* ===== verification/Inverse.v ===== *)
(** * Inverse operations and plans

    [inverse.rs] of [shit-planner]: the operations an undo executes, the plan
    node with its conflict and cohort annotations, the conflict taxonomy and
    the plan. *)

From S2P Require Import Prelude Paths Base Events.

Record OptDiff := mkOptDiff { od_name : string; od_pre : string; od_post : string }.

Record AliasDiff := mkAliasDiff {
  ad_name : string; ad_pre : option string; ad_post : option string }.

Record FuncDiff := mkFuncDiff {
  fd_name : string; fd_pre : option string; fd_post : option string }.

Record NativeDelegation := mkNativeDelegation {
  nd_argv : list string;
  nd_privileged : bool;
  nd_guard_command : option (list string);
  nd_guard_match : option string;
}.

Record DescriptorGuardOp := mkDescriptorGuardOp {
  dg_command : list string;
  dg_expected_substring : string;
}.

Module RollbackHint.
Inductive RollbackHint :=
  | Sqlite (path : PathBuf) (file_blob : option BlobHash)
  | Postgres (pitr_recommended : bool) (wal_position : option string)
      (statements_for_review : list string)
  | Mysql (binlog_position : option string)
      (statements_for_review : list string)
  | None.
End RollbackHint.
Abbreviation RollbackHint := RollbackHint.RollbackHint.

(** ** InverseOp *)

Module InverseOp.
Inductive InverseOp :=
  | RestoreContent (inode : InodeRef) (path : PathBuf) (blob : BlobHash)
  | RestoreMetadata (inode : InodeRef) (path : PathBuf) (target : FileMetadata)
  | Unlink (path : PathBuf)
  | RecreatePath (path : PathBuf) (kind : FileKind) (mode : N)
  | Rename (from to : PathBuf)
  | CreateSymlink (target : string) (path : PathBuf)
  | CreateHardlink (source target : PathBuf)
  | SetEnv (name value : string)
  | UnsetEnv (name : string)
  | PackageRollback (manager : PackageManager) (original_op : PackageOpKind)
      (packages_before packages_after : gmap string string)
      (repo_state_hint : option string) (delegation : option NativeDelegation)
  | NetworkRollback (tool : NetworkTool) (before_state : bytes)
      (inverse_invocations : list (list string))
  | SystemdRollback (scope : SystemdScope) (unit : string)
      (before after : ServiceState)
  | ProcessNote (argv : list string) (cwd : PathBuf)
      (env_summary : gmap string string) (message : Msg)
  | DescriptorReverse (descriptor_name : string) (descriptor_version : N)
      (captured_state : gmap string string) (reverse_argv : list string)
      (privileged requires_confirmation : bool)
      (guard : option DescriptorGuardOp)
  | KubectlReverse (context : string) (namespace : option string)
      (op : KubectlOp) (captured_yaml : bytes) (requires_confirmation : bool)
  | GhReverse (op : GhOp) (captured_json : bytes) (requires_confirmation : bool)
  | AwsReverse (service : string) (op : AwsOp)
      (captured_state : gmap string string)
      (stashed_content_hash : option BlobHash) (requires_confirmation : bool)
  | TerraformReverse (workdir : PathBuf) (op : TerraformOp)
      (prior_state : bytes) (plan_json : option bytes)
      (requires_confirmation : bool)
  | DbNote (engine : DbEngine) (target : string) (statements : list string)
      (rollback_hint : RollbackHint)
  | FileExtend (path : PathBuf) (truncate_to : N)
  | ShellStateRestore (pwd_before : option PathBuf) (opts_diff : list OptDiff)
      (aliases_diff : list AliasDiff) (funcs_diff : list FuncDiff)
      (snippet_bash snippet_zsh snippet_fish : option string)
  | ContainerRestore (runtime : ContainerRuntime) (op : ContainerOp)
      (captured_config : bytes) (stash_image : option string)
      (stash_tarball : option BlobHash) (requires_confirmation : bool)
  | Refuse (class : string) (reason : Msg) (remediation : option Msg)
  | RestoreFlags (inode : InodeRef) (path : PathBuf) (flags : N).
End InverseOp.
Abbreviation InverseOp := InverseOp.InverseOp.

Module InverseTier.
Inductive InverseTier :=
  | Files | Env | Packages | Network | Services | Processes | Descriptor
  | Cloud | Container | ShellState | Database | Refuse.
End InverseTier.
Abbreviation InverseTier := InverseTier.InverseTier.

#[export] Instance InverseTier_eq_dec : EqDecision InverseTier.
Proof. solve_decision. Defined.

Definition primary_path (op : InverseOp) : option PathBuf :=
  match op with
  | InverseOp.RestoreContent _ path _
  | InverseOp.RestoreMetadata _ path _
  | InverseOp.RestoreFlags _ path _
  | InverseOp.Unlink path
  | InverseOp.RecreatePath path _ _
  | InverseOp.CreateSymlink _ path
  | InverseOp.FileExtend path _ => Some path
  | InverseOp.CreateHardlink _ target => Some target
  | InverseOp.Rename _ to => Some to
  | InverseOp.SetEnv _ _
  | InverseOp.UnsetEnv _
  | InverseOp.PackageRollback _ _ _ _ _ _
  | InverseOp.NetworkRollback _ _ _
  | InverseOp.SystemdRollback _ _ _ _
  | InverseOp.ProcessNote _ _ _ _
  | InverseOp.DescriptorReverse _ _ _ _ _ _ _
  | InverseOp.KubectlReverse _ _ _ _ _
  | InverseOp.GhReverse _ _ _
  | InverseOp.AwsReverse _ _ _ _ _
  | InverseOp.TerraformReverse _ _ _ _ _
  | InverseOp.ContainerRestore _ _ _ _ _ _
  | InverseOp.ShellStateRestore _ _ _ _ _ _ _
  | InverseOp.DbNote _ _ _ _
  | InverseOp.Refuse _ _ _ => None
  end.

Definition primary_inode (op : InverseOp) : option InodeRef :=
  match op with
  | InverseOp.RestoreContent inode _ _
  | InverseOp.RestoreMetadata inode _ _
  | InverseOp.RestoreFlags inode _ _ => Some inode
  | _ => None
  end.

Definition tier (op : InverseOp) : InverseTier :=
  match op with
  | InverseOp.RestoreContent _ _ _
  | InverseOp.RestoreMetadata _ _ _
  | InverseOp.RestoreFlags _ _ _
  | InverseOp.Unlink _
  | InverseOp.RecreatePath _ _ _
  | InverseOp.Rename _ _
  | InverseOp.CreateSymlink _ _
  | InverseOp.CreateHardlink _ _
  | InverseOp.FileExtend _ _ => InverseTier.Files
  | InverseOp.SetEnv _ _ | InverseOp.UnsetEnv _ => InverseTier.Env
  | InverseOp.PackageRollback _ _ _ _ _ _ => InverseTier.Packages
  | InverseOp.NetworkRollback _ _ _ => InverseTier.Network
  | InverseOp.SystemdRollback _ _ _ _ => InverseTier.Services
  | InverseOp.ProcessNote _ _ _ _ => InverseTier.Processes
  | InverseOp.DescriptorReverse _ _ _ _ _ _ _ => InverseTier.Descriptor
  | InverseOp.KubectlReverse _ _ _ _ _
  | InverseOp.GhReverse _ _ _
  | InverseOp.AwsReverse _ _ _ _ _
  | InverseOp.TerraformReverse _ _ _ _ _ => InverseTier.Cloud
  | InverseOp.ContainerRestore _ _ _ _ _ _ => InverseTier.Container
  | InverseOp.ShellStateRestore _ _ _ _ _ _ _ => InverseTier.ShellState
  | InverseOp.DbNote _ _ _ _ => InverseTier.Database
  | InverseOp.Refuse _ _ _ => InverseTier.Refuse
  end.

(** ** Conflicts, warnings, plans *)

Module Conflict.
Inductive Conflict :=
  | Soft (detail : Msg)
  | Hard (detail : Msg)
  | Missing (detail : Msg)
  | Phantom (detail : Msg).
End Conflict.
Abbreviation Conflict := Conflict.Conflict.

Definition is_blocking (c : Conflict) : bool :=
  match c with
  | Conflict.Hard _ | Conflict.Phantom _ => true
  | _ => false
  end.

(** [{c:?}]. *)
Definition conflict_debug (c : Conflict) : Piece :=
  match c with
  | Conflict.Soft d => DebugVariant "Soft" d
  | Conflict.Hard d => DebugVariant "Hard" d
  | Conflict.Missing d => DebugVariant "Missing" d
  | Conflict.Phantom d => DebugVariant "Phantom" d
  end.

Record PlanNode := mkNode {
  n_op : InverseOp;
  n_cohort : N;
  n_conflict : option Conflict;
}.

Module PlanWarning.
Inductive PlanWarning :=
  | PartialEvents (dropped : nat)
  | UnclosedCommand
  | Informational (tier : InverseTier) (message : Msg).
End PlanWarning.
Abbreviation PlanWarning := PlanWarning.PlanWarning.

Record UndoPlan := mkPlan {
  p_command : CommandRecord;
  p_nodes : list PlanNode;
  p_warnings : list PlanWarning;
}.

Definition is_empty (p : UndoPlan) : bool :=
  match p_nodes p with [] => true | _ => false end.

Definition has_blocking_conflicts (p : UndoPlan) : bool :=
  existsb (λ n, match n_conflict n with
                | Some c => is_blocking c
                | None => false
                end) (p_nodes p).

Definition content_restore_count (p : UndoPlan) : nat :=
  length (List.filter
    (λ n, match n_op n with InverseOp.RestoreContent _ _ _ => true | _ => false end)
    (p_nodes p)).

(** A node as the emitters push it: cohort [0] until the cohort pass. *)
Definition node (op : InverseOp) (conflict : option Conflict) : PlanNode :=
  mkNode op 0 conflict.

(** ** Lemmas *)

(** Only file-tier operations carry a path or an inode. *)
Lemma primary_path_files (op : InverseOp) (p : PathBuf) :
  primary_path op = Some p → tier op = InverseTier.Files.
Proof. by destruct op. Qed.

Lemma files_have_path (op : InverseOp) :
  tier op = InverseTier.Files → is_Some (primary_path op).
Proof. destruct op; simpl; try discriminate; eauto. Qed.

#[export] Hint Resolve primary_path_files files_have_path : shit.
