(* ===== verification/Refuse.v ===== *)
(** * Refuse list

    [refuse.rs]: command classes the planner never reverses. The catalog, the
    whitespace tokenizer and the first-match lookup, with the theorem that a
    catalogued verb is refused with its own entry whatever arguments follow. *)

From S2P Require Import Prelude.

Module Refuse.

Inductive RefusePattern := WordPrefix (words : list string).

Record RefuseEntry := mkEntry {
  class : string;
  patterns : list RefusePattern;
  reason : string;
  remediation : option string;
}.

Definition CATALOG : list RefuseEntry := [
  mkEntry "remote-push"
    [ WordPrefix ["git"; "push"];
      WordPrefix ["docker"; "push"];
      WordPrefix ["podman"; "push"];
      WordPrefix ["npm"; "publish"];
      WordPrefix ["cargo"; "publish"];
      WordPrefix ["gh"; "release"; "upload"] ]
    "remote replication is outside our visibility; we capture only local-side state"
    (Some "revert the local working tree if needed; the remote side is yours to roll back manually");
  mkEntry "history-rewrite"
    [ WordPrefix ["git"; "rebase"; "-i"];
      WordPrefix ["git"; "rebase"; "--interactive"];
      WordPrefix ["git"; "filter-branch"];
      WordPrefix ["git"; "filter-repo"] ]
    "history-rewriting commands change ref topology in ways our event journal cannot mechanically reverse"
    (Some "git reflog (e.g. `git reset --hard HEAD@{1}`) is the standard recovery path");
  mkEntry "identity-generation"
    [ WordPrefix ["gpg"; "--gen-key"];
      WordPrefix ["gpg"; "--full-gen-key"];
      WordPrefix ["gpg"; "--full-generate-key"];
      WordPrefix ["ssh-keygen"] ]
    "key material may already be distributed; deleting the file alone cannot un-publish a public key"
    (Some "delete the key file manually if you are sure it was never shared; otherwise rotate / revoke through your usual channel");
  mkEntry "power-state"
    [ WordPrefix ["shutdown"];
      WordPrefix ["reboot"];
      WordPrefix ["halt"];
      WordPrefix ["poweroff"] ]
    "power-state changes have no inverse operation"
    None;
  mkEntry "sandbox-escape"
    [ WordPrefix ["chroot"];
      WordPrefix ["unshare"];
      WordPrefix ["nsenter"] ]
    "namespace / chroot transitions move execution into a context our capture tier can no longer observe"
    (Some "interactive transitions are reversible by exiting the namespace shell; persistent ones (e.g. systemd-nspawn) are out of v1 scope");
  mkEntry "opaque-shell-mutation"
    [ WordPrefix ["source"];
      WordPrefix ["."] ]
    "sourcing a script mutates the parent shell in arbitrary ways our capture tier does not introspect"
    (Some "if the sourced script defines env vars / aliases / functions, the AR06 shell-state diff (when complete) will reverse them; today it does not");
  mkEntry "system-identity"
    [ WordPrefix ["useradd"];
      WordPrefix ["userdel"];
      WordPrefix ["usermod"];
      WordPrefix ["groupadd"];
      WordPrefix ["groupdel"];
      WordPrefix ["passwd"] ]
    "PAM / shadow-file mutations touch system identity state we do not trust ourselves to roll back without explicit per-OS policy"
    (Some "use the matching inverse command directly (e.g. `userdel`) once you've confirmed no side-effects (home directory, sudoers entries, group memberships) need special handling")
].

(** ** Tokenizer: [str::split_whitespace] on ASCII text *)

Definition push_word (w : string) (ws : list string) : list string :=
  if bool_decide (w = "") then ws else w :: ws.

(** The word the string starts with, and the words after it. *)
Fixpoint words_from (s : string) : string * list string :=
  match s with
  | EmptyString => ("", [])
  | String c s' =>
      let '(w, ws) := words_from s' in
      if Ascii.is_space c then ("", push_word w ws) else (String c w, ws)
  end.

Definition tokenize (cmd_string : string) : list string :=
  let '(w, ws) := words_from cmd_string in push_word w ws.

(** ** Matching *)

(** [tokens.iter().zip(words.iter()).all(|(t, w)| t == w)]. *)
Definition pattern_matches (pat : RefusePattern) (tokens : list string) : bool :=
  match pat with
  | WordPrefix words =>
      if bool_decide (length tokens < length words) then false
      else forallb (λ '(t, w), bool_decide (t = w)) (zip tokens words)
  end.

Fixpoint first_entry (cat : list RefuseEntry) (tokens : list string)
    : option RefuseEntry :=
  match cat with
  | [] => None
  | entry :: cat' =>
      if existsb (λ pat, pattern_matches pat tokens) (patterns entry)
      then Some entry else first_entry cat' tokens
  end.

Definition match_command (cmd_string : string) : option RefuseEntry :=
  let tokens := tokenize cmd_string in
  match tokens with
  | [] => None
  | _ => first_entry CATALOG tokens
  end.

Definition catalog_classes : list string := class <$> CATALOG.

(** ** Lemmas *)

Lemma pattern_matches_prefix (words tokens : list string) :
  pattern_matches (WordPrefix words) tokens = true ↔ words `prefix_of` tokens.
Proof.
  simpl. revert tokens; induction words as [|w words IH]; intros [|t tokens]; simpl;
    try case_bool_decide; simpl in *; try lia.
  - split; [intros _; by exists []|done].
  - split; [intros _; by eexists|done].
  - split; [done|intros [k Hk]; by simplify_list_eq].
  - split; [done|intros Hp]. apply prefix_length in Hp; simpl in *; lia.
  - specialize (IH tokens). rewrite andb_true_iff, bool_decide_eq_true.
    case_bool_decide; [lia|]. rewrite IH. split.
    + intros [-> Hp]. by apply prefix_cons.
    + intros Hp. split; [by symmetry; eapply prefix_cons_inv_1|by eapply prefix_cons_inv_2].
Qed.

Lemma words_from_app (a b : string) (sp : Ascii.ascii) :
  Ascii.is_space sp = true →
  words_from (a +:+ String sp b) =
    ((words_from a).1, (words_from a).2 ++ tokenize b).
Proof.
  intros Hsp. induction a as [|c a IH].
  - change ("" +:+ String sp b) with (String sp b). cbn [words_from].
    unfold tokenize. destruct (words_from b) as [w ws]. by rewrite Hsp.
  - rewrite string_cons_app. cbn [words_from]. rewrite IH.
    destruct (words_from a) as [w ws]; simpl. destruct (Ascii.is_space c); simpl; [|done].
    unfold push_word. by case_bool_decide.
Qed.

(** Tokenizing is a homomorphism at any white-space character. *)
Lemma tokenize_app (a b : string) (sp : Ascii.ascii) :
  Ascii.is_space sp = true →
  tokenize (a +:+ String sp b) = tokenize a ++ tokenize b.
Proof.
  intros Hsp. unfold tokenize at 1 2. rewrite words_from_app by done.
  destruct (words_from a) as [w ws]; simpl. unfold push_word. by case_bool_decide.
Qed.

(** The first-match lookup, as a specification. *)
Lemma first_entry_spec (cat : list RefuseEntry) (tokens : list string) (e : RefuseEntry) :
  first_entry cat tokens = Some e ↔
  ∃ before after, cat = before ++ e :: after ∧
    (∃ ws, WordPrefix ws ∈ patterns e ∧ ws `prefix_of` tokens) ∧
    (∀ e' ws, e' ∈ before → WordPrefix ws ∈ patterns e' → ¬ ws `prefix_of` tokens).
Proof.
  assert (∀ en, existsb (λ pat, pattern_matches pat tokens) (patterns en) = true ↔
     ∃ ws, WordPrefix ws ∈ patterns en ∧ ws `prefix_of` tokens) as Hex.
  { intros en. rewrite existsb_elem. split.
    - intros ([ws] & Hin & Hm). exists ws. by rewrite <- pattern_matches_prefix.
    - intros (ws & Hin & Hm). exists (WordPrefix ws). by rewrite pattern_matches_prefix. }
  induction cat as [|en cat IH]; simpl.
  { split; [done|]. intros ([|] & ? & ? & _); simplify_list_eq. }
  destruct (existsb _ (patterns en)) eqn:E.
  - split.
    + intros [= ->]. exists [], cat. split; [done|]. split; [by apply Hex|].
      by intros ? ? ?%elem_of_nil.
    + intros ([|e' before] & after & Heq & Hm & Hb); simplify_list_eq; [done|].
      apply Hex in E as (ws & Hin & Hp). exfalso. eapply Hb; [left|done|done].
  - rewrite IH. split.
    + intros (before & after & -> & Hm & Hb). exists (en :: before), after.
      split; [done|]. split; [done|]. intros e' ws [->|Hin]%elem_of_cons Hw Hp; [|by eapply Hb].
      assert (existsb (λ pat, pattern_matches pat tokens) (patterns en) = true)
        by (apply Hex; eauto). congruence.
    + intros ([|e' before] & after & Heq & Hm & Hb); simplify_list_eq.
      * apply Hex in Hm. congruence.
      * exists before, after. split; [done|]. split; [done|].
        intros e'' ws Hin. apply Hb. by right.
Qed.

(** No pattern of one entry extends a pattern of another. *)
Definition comparable (ws vs : list string) : bool :=
  pattern_matches (WordPrefix ws) vs || pattern_matches (WordPrefix vs) ws.

Definition pattern_words (p : RefusePattern) : list string :=
  match p with WordPrefix ws => ws end.

Definition entries_independent (a b : RefuseEntry) : bool :=
  forallb (λ p, forallb (λ q, negb (comparable (pattern_words p) (pattern_words q)))
    (patterns b)) (patterns a).

Fixpoint catalog_independent (cat : list RefuseEntry) : bool :=
  match cat with
  | [] => true
  | e :: cat' => forallb (entries_independent e) cat' && catalog_independent cat'
  end.

Lemma catalog_independent_ok : catalog_independent CATALOG = true.
Proof. vm_compute. reflexivity. Qed.

Lemma entries_independent_spec (a b : RefuseEntry) (ws vs : list string) :
  entries_independent a b = true →
  WordPrefix ws ∈ patterns a → WordPrefix vs ∈ patterns b →
  ¬ ws `prefix_of` vs ∧ ¬ vs `prefix_of` ws.
Proof.
  unfold entries_independent. rewrite forallb_elem. intros H Ha Hb.
  specialize (H _ Ha). rewrite forallb_elem in H. specialize (H _ Hb).
  unfold comparable in H. rewrite negb_true_iff, orb_false_iff in H.
  cbn [pattern_words] in H. destruct H as [H1 H2].
  rewrite <- !pattern_matches_prefix. by rewrite H1, H2.
Qed.

Lemma catalog_independent_before (cat before after : list RefuseEntry) (e e' : RefuseEntry) :
  catalog_independent cat = true → cat = before ++ e :: after → e' ∈ before →
  entries_independent e' e = true.
Proof.
  revert before; induction cat as [|x cat IH]; intros before; simpl.
  { intros _ Heq. by destruct before. }
  rewrite andb_true_iff, forallb_elem. intros [Hx Hc] Heq Hin.
  destruct before as [|y before]; [by apply elem_of_nil in Hin|]. simplify_list_eq.
  apply elem_of_cons in Hin as [->|Hin]; [|by eapply IH].
  apply Hx. rewrite elem_of_app, elem_of_cons. auto.
Qed.

Lemma prefix_comparable (a b c : list string) :
  a `prefix_of` c → b `prefix_of` c → a `prefix_of` b ∨ b `prefix_of` a.
Proof. apply prefix_weak_total. Qed.

(** The words a pattern is spelled with, separated by blanks. *)
Fixpoint join_words (ws : list string) : string :=
  match ws with
  | [] => ""
  | [w] => w
  | w :: ws' => w +:+ String " " (join_words ws')
  end.

Definition word_ok (w : string) : bool := bool_decide (tokenize w = [w]).

Lemma catalog_words_ok :
  forallb (λ e, forallb (λ p, forallb word_ok (pattern_words p)
    && negb (bool_decide (pattern_words p = []))) (patterns e)) CATALOG = true.
Proof. vm_compute. reflexivity. Qed.

Lemma tokenize_join (ws : list string) :
  forallb word_ok ws = true → tokenize (join_words ws) = ws.
Proof.
  induction ws as [|w ws IH]; [done|]. simpl. rewrite andb_true_iff.
  intros [Hw Hws]. apply bool_decide_eq_true in Hw.
  destruct ws as [|w' ws]; [done|].
  rewrite tokenize_app by done. by rewrite Hw, IH.
Qed.

(** ** Catalogued verbs *)

(** A command that starts with the words of a catalogued pattern is
    refused with that pattern's own entry (its class, reason and remediation),
    whatever follows the verb: no argument list reaches another entry or
    escapes the refuse list. *)
Lemma match_command_any_args (e : RefuseEntry) (ws : list string) (args : string) :
  e ∈ CATALOG → WordPrefix ws ∈ patterns e →
  match_command (join_words ws +:+ String " " args) = Some e.
Proof.
  intros He Hp.
  pose proof catalog_words_ok as Hok. rewrite forallb_elem in Hok.
  specialize (Hok _ He). rewrite forallb_elem in Hok. specialize (Hok _ Hp).
  cbn [pattern_words] in Hok. apply andb_true_iff in Hok as [Hok Hne].
  unfold match_command. rewrite tokenize_app, tokenize_join by done.
  destruct ws as [|w ws]; [done|]. cbn [app].
  change (w :: ws ++ tokenize args) with ((w :: ws) ++ tokenize args).
  apply first_entry_spec.
  apply list_elem_of_split in He as (before & after & Hcat).
  exists before, after. split; [done|]. split.
  { exists (w :: ws). split; [done|]. by eexists. }
  intros e' vs Hin Hvs Hpre.
  pose proof (catalog_independent_before _ _ _ _ _ catalog_independent_ok Hcat Hin) as Hi.
  destruct (entries_independent_spec _ _ _ _ Hi Hvs Hp) as [H1 H2].
  destruct (prefix_comparable vs (w :: ws) ((w :: ws) ++ tokenize args)); [done|by eexists|done|done].
Qed.

Example match_command_spaces : option_map class (match_command "  git   push    --force  ") = Some "remote-push".
Proof. reflexivity. Qed.

Example match_command_rebase : match_command "git rebase main" = None.
Proof. reflexivity. Qed.

End Refuse.
