(* ===== verification/Cohort.v ===== *)
(** * Cohort assignment

    [cohort.rs]: the greedy single pass that labels every plan node with a
    cohort, so that the orchestrator may run the nodes of one cohort
    concurrently. The pass keeps one set of touched keys per cohort. *)

From S2P Require Import Prelude Paths Base Events Inverse.

Module Cohort.

Inductive TouchKey :=
  | Path (p : PathBuf)
  | Inode (i : InodeRef).

#[export] Instance TouchKey_eq_dec : EqDecision TouchKey.
Proof. solve_decision. Defined.

#[export] Instance TouchKey_countable : Countable TouchKey.
Proof.
  refine (inj_countable'
    (λ k, match k with Path p => inl p | Inode i => inr i end)
    (λ x, match x with inl p => Path p | inr i => Inode i end) _).
  by intros [].
Defined.

(** Every path and inode an operation touches. *)
Definition touches (op : InverseOp) : list TouchKey :=
  match op with
  | InverseOp.Rename from to => [Path from; Path to]
  | InverseOp.RestoreContent inode path _
  | InverseOp.RestoreMetadata inode path _
  | InverseOp.RestoreFlags inode path _ => [Path path; Inode inode]
  | InverseOp.Unlink path
  | InverseOp.RecreatePath path _ _
  | InverseOp.CreateSymlink _ path
  | InverseOp.FileExtend path _ => [Path path]
  | InverseOp.CreateHardlink source target => [Path source; Path target]
  | InverseOp.SetEnv _ _
  | InverseOp.UnsetEnv _
  | InverseOp.PackageRollback _ _ _ _ _ _
  | InverseOp.NetworkRollback _ _ _
  | InverseOp.SystemdRollback _ _ _ _
  | InverseOp.ProcessNote _ _ _ _
  | InverseOp.DescriptorReverse _ _ _ _ _ _ _
  | InverseOp.KubectlReverse _ _ _ _ _
  | InverseOp.GhReverse _ _ _
  | InverseOp.AwsReverse _ _ _ _ _
  | InverseOp.TerraformReverse _ _ _ _ _
  | InverseOp.ContainerRestore _ _ _ _ _ _
  | InverseOp.ShellStateRestore _ _ _ _ _ _ _
  | InverseOp.DbNote _ _ _ _
  | InverseOp.Refuse _ _ _ => []
  end.

(** Two operations compete on some path or inode. *)
Definition ops_conflict (a b : InverseOp) : bool :=
  existsb (λ k, bool_decide (k ∈ touches b)) (touches a).

(** [keys.iter().all(|k| !existing.contains(k))]. *)
Definition cohort_free (keys : list TouchKey) (existing : gset TouchKey) : bool :=
  forallb (λ k, negb (bool_decide (k ∈ existing))) keys.

(** The lowest cohort without overlap. *)
Fixpoint find_free (keys : list TouchKey) (cts : list (gset TouchKey)) (i : nat)
    : option nat :=
  match cts with
  | [] => None
  | existing :: cts' =>
      if cohort_free keys existing then Some i else find_free keys cts' (S i)
  end.

(** One iteration of the loop: the cohort of a node with the given keys, and
    the updated per-cohort key sets. *)
Definition place (cts : list (gset TouchKey)) (keys : list TouchKey)
    : list (gset TouchKey) * nat :=
  match keys with
  | [] => (match cts with [] => [∅] | _ => cts end, 0)
  | _ =>
      let '(cts1, idx) :=
        match find_free keys cts 0 with
        | Some i => (cts, i)
        | None => (cts ++ [∅], length cts)
        end in
      (alter (λ s, list_to_set keys ∪ s) idx cts1, idx)
  end.

(** [cohort_idx as u32]. *)
Definition as_u32 (n : nat) : N := (N.of_nat n) mod 2 ^ 32.

Definition set_cohort (n : PlanNode) (idx : nat) : PlanNode :=
  mkNode (n_op n) (as_u32 idx) (n_conflict n).

Fixpoint assign_from (cts : list (gset TouchKey)) (nodes : list PlanNode)
    : list (gset TouchKey) * list PlanNode :=
  match nodes with
  | [] => (cts, [])
  | n :: nodes' =>
      let '(cts1, idx) := place cts (touches (n_op n)) in
      let '(cts2, rest) := assign_from cts1 nodes' in
      (cts2, set_cohort n idx :: rest)
  end.

(** [assign_cohorts]: the relabelled nodes and the cohort count. *)
Definition assign_cohorts (nodes : list PlanNode) : list PlanNode * N :=
  let '(cts, nodes') := assign_from [] nodes in (nodes', as_u32 (length cts)).

(** ** Lemmas *)

Lemma ops_conflict_spec (a b : InverseOp) :
  ops_conflict a b = true ↔ ∃ k, k ∈ touches a ∧ k ∈ touches b.
Proof.
  unfold ops_conflict. rewrite existsb_elem. by setoid_rewrite bool_decide_eq_true.
Qed.

Lemma ops_conflict_sym (a b : InverseOp) : ops_conflict a b = ops_conflict b a.
Proof.
  apply eq_true_iff_eq. rewrite !ops_conflict_spec. naive_solver.
Qed.

Lemma cohort_free_spec (keys : list TouchKey) (s : gset TouchKey) :
  cohort_free keys s = true ↔ ∀ k, k ∈ keys → k ∉ s.
Proof.
  unfold cohort_free. rewrite forallb_elem.
  by setoid_rewrite negb_true_iff; setoid_rewrite bool_decide_eq_false.
Qed.

Lemma find_free_spec (keys : list TouchKey) (cts : list (gset TouchKey)) (i j : nat) :
  find_free keys cts i = Some j →
  ∃ s, i ≤ j ∧ cts !! (j - i) = Some s ∧ cohort_free keys s = true.
Proof.
  revert i; induction cts as [|s cts IH]; intros i; simpl; [done|].
  destruct (cohort_free keys s) eqn:E.
  - intros [= ->]. exists s. by rewrite Nat.sub_diag.
  - intros (s' & Hle & Hl & Hf)%IH. exists s'. split; [lia|].
    replace (j - i) with (S (j - S i)) by lia. done.
Qed.

(** What one placement guarantees. *)
Lemma place_spec (cts cts' : list (gset TouchKey)) (keys : list TouchKey) (idx : nat) :
  place cts keys = (cts', idx) →
  length cts ≤ length cts' ∧ length cts' ≤ S (length cts) ∧ idx < length cts' ∧
  (∀ i s, cts !! i = Some s → ∃ s', cts' !! i = Some s' ∧ s ⊆ s') ∧
  (∀ k, k ∈ keys → ∃ s', cts' !! idx = Some s' ∧ k ∈ s') ∧
  (∀ k s, k ∈ keys → cts !! idx = Some s → k ∉ s).
Proof.
  unfold place. destruct keys as [|k0 keys].
  { intros [= <- <-]. destruct cts as [|s cts]; simpl.
    - repeat split; try lia; intros; by apply elem_of_nil in H || done.
    - repeat split; try lia; eauto; intros; by apply elem_of_nil in H. }
  destruct (find_free (k0 :: keys) cts 0) as [i|] eqn:Hf; intros [= <- <-].
  - apply find_free_spec in Hf as (s & _ & Hl & Hfree). rewrite Nat.sub_0_r in Hl.
    pose proof (lookup_lt_Some _ _ _ Hl) as Hlt. rewrite length_alter.
    split_and!; [lia..| | |].
    + intros j t Hj. destruct (decide (j = i)) as [->|Hne].
      * rewrite list_lookup_alter_eq, Hj; simpl. eexists; split; [done|]. set_solver.
      * rewrite list_lookup_alter_ne by done. eauto.
    + intros k Hk. rewrite list_lookup_alter_eq, Hl; simpl.
      eexists; split; [done|]. set_solver.
    + intros k t Hk Ht. simplify_eq. rewrite cohort_free_spec in Hfree. auto.
  - rewrite length_alter, length_app; simpl. split_and!; [lia..| | |].
    + intros j t Hj. pose proof (lookup_lt_Some _ _ _ Hj) as Hlt.
      rewrite list_lookup_alter_ne by lia.
      rewrite lookup_app_l by done. eauto.
    + intros k Hk. rewrite list_lookup_alter_eq, lookup_app_r, Nat.sub_diag by done; simpl.
      eexists; split; [done|]. set_solver.
    + intros k t Hk Ht. apply lookup_lt_Some in Ht. lia.
Qed.

(** The labels, before truncation to [u32]. *)
Fixpoint cohort_indices (cts : list (gset TouchKey)) (nodes : list PlanNode)
    : list nat :=
  match nodes with
  | [] => []
  | n :: nodes' =>
      let '(cts1, idx) := place cts (touches (n_op n)) in
      idx :: cohort_indices cts1 nodes'
  end.

Lemma assign_from_indices (cts : list (gset TouchKey)) (nodes : list PlanNode) :
  (assign_from cts nodes).2 = zip_with set_cohort nodes (cohort_indices cts nodes).
Proof.
  revert cts; induction nodes as [|n nodes IH]; intros cts; simpl; [done|].
  destruct (place cts (touches (n_op n))) as [cts1 idx].
  specialize (IH cts1). destruct (assign_from cts1 nodes). simpl in *. by rewrite IH.
Qed.

Lemma length_cohort_indices (cts : list (gset TouchKey)) (nodes : list PlanNode) :
  length (cohort_indices cts nodes) = length nodes.
Proof.
  revert cts; induction nodes as [|n nodes IH]; intros cts; simpl; [done|].
  destruct (place _ _). simpl. by rewrite IH.
Qed.

Lemma assign_from_length (cts : list (gset TouchKey)) (nodes : list PlanNode) :
  length (assign_from cts nodes).1 ≤ length cts + length nodes.
Proof.
  revert cts; induction nodes as [|n nodes IH]; intros cts; simpl; [lia|].
  destruct (place cts (touches (n_op n))) as [cts1 idx] eqn:Hp.
  apply place_spec in Hp as (_ & Hle & _). specialize (IH cts1).
  destruct (assign_from cts1 nodes); simpl in *. lia.
Qed.

(** A key already held by a cohort never meets a later node of that cohort,
    and every label is a cohort of the result. *)
Lemma cohort_indices_spec (cts : list (gset TouchKey)) (nodes : list PlanNode)
    (j idx : nat) (n : PlanNode) :
  nodes !! j = Some n → cohort_indices cts nodes !! j = Some idx →
  idx < length (assign_from cts nodes).1 ∧
  (∀ k s, k ∈ touches (n_op n) → cts !! idx = Some s → k ∉ s).
Proof.
  revert cts j; induction nodes as [|m nodes IH]; intros cts j; [done|]. simpl.
  destruct (place cts (touches (n_op m))) as [cts1 idx1] eqn:Hp.
  apply place_spec in Hp as (H1 & _ & H2 & H3 & _ & H5).
  assert (length cts1 ≤ length (assign_from cts1 nodes).1) as Hmono.
  { clear -nodes. revert cts1; induction nodes as [|a nodes IH]; intros cts1; simpl; [lia|].
    destruct (place cts1 (touches (n_op a))) as [c2 i2] eqn:Hp.
    apply place_spec in Hp as (? & _). specialize (IH c2).
    destruct (assign_from c2 nodes); simpl in *; lia. }
  destruct j as [|j]; simpl.
  - intros [= ->] [= ->]. destruct (assign_from cts1 nodes); simpl in *.
    split; [lia|]. intros k s Hk Hs. by eapply H5.
  - intros Hn Hidx. destruct (IH _ _ Hn Hidx) as [Hlt Hd].
    destruct (assign_from cts1 nodes); simpl in *. split; [lia|].
    intros k s Hk Hs. apply H3 in Hs as (s' & Hs' & Hsub). specialize (Hd _ _ Hk Hs').
    set_solver.
Qed.

(** Nodes of one cohort touch disjoint keys. *)
Lemma cohort_indices_disjoint (cts : list (gset TouchKey)) (nodes : list PlanNode)
    (i j idx : nat) (a b : PlanNode) :
  i < j → nodes !! i = Some a → nodes !! j = Some b →
  cohort_indices cts nodes !! i = Some idx →
  cohort_indices cts nodes !! j = Some idx →
  ops_conflict (n_op a) (n_op b) = false.
Proof.
  revert cts i j; induction nodes as [|m nodes IH]; intros cts i j Hij; [done|]. simpl.
  destruct (place cts (touches (n_op m))) as [cts1 idx1] eqn:Hp.
  apply place_spec in Hp as (_ & _ & _ & _ & H4 & _).
  destruct j as [|j]; [lia|]. destruct i as [|i]; simpl.
  - intros [= ->] Hb [= ->] Hidx.
    destruct (cohort_indices_spec _ _ _ _ _ Hb Hidx) as [_ Hd].
    apply not_true_iff_false. rewrite ops_conflict_spec. intros (k & Hka & Hkb).
    destruct (H4 _ Hka) as (s & Hs & Hin). by eapply Hd.
  - intros. eapply (IH cts1 i j); eauto; lia.
Qed.

Lemma assign_cohorts_lookup (nodes : list PlanNode) (i : nat) (n' : PlanNode) :
  (assign_cohorts nodes).1 !! i = Some n' →
  ∃ n idx, nodes !! i = Some n ∧ cohort_indices [] nodes !! i = Some idx ∧
    n' = set_cohort n idx ∧ idx < length nodes.
Proof.
  unfold assign_cohorts. pose proof (assign_from_indices [] nodes) as Hi.
  pose proof (assign_from_length [] nodes) as Hl.
  destruct (assign_from [] nodes) as [cts nodes'] eqn:E; simpl in *. subst nodes'.
  rewrite lookup_zip_with_Some. intros (n & idx & -> & Hn & Hidx).
  exists n, idx. split_and!; try done.
  destruct (cohort_indices_spec [] nodes i idx n Hn Hidx) as [Hlt _].
  rewrite E in Hlt; simpl in Hlt. lia.
Qed.

Lemma as_u32_inj (i j n : nat) :
  (N.of_nat n ≤ 2 ^ 32)%N → i < n → j < n → as_u32 i = as_u32 j → i = j.
Proof.
  unfold as_u32. intros Hn Hi Hj. rewrite !N.mod_small by lia. lia.
Qed.

(** The pass changes labels only. *)
Lemma assign_cohorts_ops (nodes : list PlanNode) :
  (λ n, (n_op n, n_conflict n)) <$> (assign_cohorts nodes).1
  = (λ n, (n_op n, n_conflict n)) <$> nodes.
Proof.
  unfold assign_cohorts. pose proof (assign_from_indices [] nodes) as Hi.
  pose proof (length_cohort_indices [] nodes) as Hl.
  destruct (assign_from [] nodes) as [cts nodes']; simpl in *. subst nodes'.
  generalize dependent (cohort_indices [] nodes).
  induction nodes as [|n nodes IH]; intros [|i l] Hl; simpl in *; try done.
  f_equal. apply IH. lia.
Qed.

Lemma length_assign_cohorts (nodes : list PlanNode) :
  length (assign_cohorts nodes).1 = length nodes.
Proof.
  pose proof (assign_cohorts_ops nodes) as H. apply (f_equal length) in H.
  by rewrite !length_fmap in H.
Qed.

(** Membership in the relabelled plan, up to the label. *)
Lemma elem_of_assign_cohorts (nodes : list PlanNode) (n' : PlanNode) :
  n' ∈ (assign_cohorts nodes).1 →
  ∃ n, n ∈ nodes ∧ n_op n = n_op n' ∧ n_conflict n = n_conflict n'.
Proof.
  intros (i & Hi)%list_elem_of_lookup.
  apply assign_cohorts_lookup in Hi as (n & idx & Hn & _ & -> & _).
  exists n. split; [|done]. apply list_elem_of_lookup. eauto.
Qed.

(** ** Properties *)

(** C38. Two different nodes with the same cohort label never touch a common
    path or inode (plans of up to [2^32] nodes, the width of the label). *)
Theorem assign_cohorts_disjoint (nodes : list PlanNode) (i j : nat) (a b : PlanNode) :
  (N.of_nat (length nodes) ≤ 2 ^ 32)%N → i ≠ j →
  (assign_cohorts nodes).1 !! i = Some a → (assign_cohorts nodes).1 !! j = Some b →
  n_cohort a = n_cohort b → ops_conflict (n_op a) (n_op b) = false.
Proof.
  intros Hlen Hij Ha Hb Heq.
  apply assign_cohorts_lookup in Ha as (a0 & ia & Ha & Hia & -> & Hla).
  apply assign_cohorts_lookup in Hb as (b0 & ib & Hb & Hib & -> & Hlb).
  simpl in *. apply (as_u32_inj _ _ (length nodes)) in Heq as ->; [|done..].
  destruct (decide (i < j)).
  - by eapply (cohort_indices_disjoint [] nodes i j).
  - rewrite ops_conflict_sym. eapply (cohort_indices_disjoint [] nodes j i); eauto. lia.
Qed.

Definition ex_path (s : string) : PathBuf := [RootDir; Normal s].

Definition ex_nodes : list PlanNode :=
  [ node (InverseOp.Unlink (ex_path "x")) None;
    node (InverseOp.Rename (ex_path "x") (ex_path "y")) None;
    node (InverseOp.Unlink (ex_path "y")) None ].

Lemma assign_cohorts_disjoint_witness :
  ops_conflict (InverseOp.Unlink (ex_path "x")) (InverseOp.Unlink (ex_path "y")) = false.
Proof.
  refine (assign_cohorts_disjoint ex_nodes 0 2
    (mkNode (InverseOp.Unlink (ex_path "x")) 0 None)
    (mkNode (InverseOp.Unlink (ex_path "y")) 0 None) _ _ _ _ _);
    [vm_compute; discriminate|lia|reflexivity..].
Defined.

(** The greedy pass does not keep plan order across cohorts: there is a
    plan in which a later node gets a smaller cohort than an earlier node it
    conflicts with, so cohort labels are not non-decreasing along the plan. *)
Theorem assign_cohorts_not_monotone :
  ∃ nodes i j a b, i < j ∧
    (assign_cohorts nodes).1 !! i = Some a ∧ (assign_cohorts nodes).1 !! j = Some b ∧
    ops_conflict (n_op a) (n_op b) = true ∧ (n_cohort b < n_cohort a)%N.
Proof.
  exists ex_nodes, 1, 2,
    (mkNode (InverseOp.Rename (ex_path "x") (ex_path "y")) 1 None),
    (mkNode (InverseOp.Unlink (ex_path "y")) 0 None).
  split; [lia|]. split; [reflexivity|]. split; [reflexivity|].
  split; [reflexivity|]. simpl. lia.
Qed.

End Cohort.
