(* ===== verification/ShellRender.v ===== *)
(** * Shell-state snippets

    [shell_state_render.rs]: the shell text that reverses a captured
    shell-state diff, and the quoting it relies on. The quoting functions are
    proved against readers of the two quoting grammars: POSIX words made of
    single-quoted and backslash-escaped runs, and fish single-quoted strings. *)

From S2P Require Import Prelude Paths Base Events Inverse.

Module ShellRender.

Definition nl : string := String "010" "".

(** [str::replace] of one character by a string. *)
Fixpoint replace (c : Ascii.ascii) (by_ : string) (s : string) : string :=
  match s with
  | EmptyString => ""
  | String d s' =>
      if bool_decide (d = c) then by_ +:+ replace c by_ s'
      else String d (replace c by_ s')
  end.

Definition sh_quote (s : string) : string :=
  let inner := replace "'" "'\''" s in
  "'" +:+ inner +:+ "'".

Definition fish_quote (s : string) : string :=
  let inner := replace "'" "\'" (replace "\" "\\" s) in
  "'" +:+ inner +:+ "'".

(** [body.ends_with('\n')]. *)
Fixpoint ends_with_nl (s : string) : bool :=
  match s with
  | EmptyString => false
  | String c EmptyString => bool_decide (c = "010"%char)
  | String _ s' => ends_with_nl s'
  end.

Definition concat_map {A} (f : A → string) (l : list A) : string :=
  foldr (λ a s, f a +:+ s) "" l.

Definition manual_line (opt : OptDiff) (tail : string) : string :=
  "# manual: option `" +:+ od_name opt +:+ "` was `" +:+ od_pre opt
  +:+ "`, now `" +:+ od_post opt +:+ "`" +:+ tail +:+ nl.

(** The option loop shared by bash and zsh, with the two commands. *)
Definition opt_line (on off : string) (opt : OptDiff) : string :=
  if bool_decide (od_pre opt = "on") && negb (bool_decide (od_post opt = "on"))
  then on +:+ " " +:+ od_name opt +:+ nl
  else if bool_decide (od_pre opt = "off")
          && negb (bool_decide (od_post opt = "off"))
  then off +:+ " " +:+ od_name opt +:+ nl
  else manual_line opt "".

Definition alias_line (quote : string → string) (erase : string → string)
    (a : AliasDiff) : string :=
  match ad_pre a with
  | Some expansion => "alias " +:+ ad_name a +:+ "=" +:+ quote expansion +:+ nl
  | None => erase (ad_name a)
  end.

Definition func_line (erase : string → string) (f : FuncDiff) : string :=
  match fd_pre f with
  | Some body => body +:+ (if ends_with_nl body then "" else nl)
  | None => erase (fd_name f)
  end.

Definition cd_line (quote : string → string) (pwd_before : option PathBuf)
    : string :=
  match pwd_before with
  | Some p => "cd " +:+ quote (path_string p) +:+ nl
  | None => ""
  end.

Definition sh_unalias (name : string) : string :=
  "unalias " +:+ name +:+ " 2>/dev/null || true" +:+ nl.

Definition sh_unset_f (name : string) : string :=
  "unset -f " +:+ name +:+ " 2>/dev/null || true" +:+ nl.

Definition fish_erase (name : string) : string :=
  "functions --erase " +:+ name +:+ " 2>/dev/null; or true" +:+ nl.

Definition render_bash (pwd_before : option PathBuf) (opts : list OptDiff)
    (aliases : list AliasDiff) (funcs : list FuncDiff) : string :=
  cd_line sh_quote pwd_before
  +:+ concat_map (opt_line "set -o" "set +o") opts
  +:+ concat_map (alias_line sh_quote sh_unalias) aliases
  +:+ concat_map (func_line sh_unset_f) funcs.

Definition render_zsh (pwd_before : option PathBuf) (opts : list OptDiff)
    (aliases : list AliasDiff) (funcs : list FuncDiff) : string :=
  cd_line sh_quote pwd_before
  +:+ concat_map (opt_line "setopt" "unsetopt") opts
  +:+ concat_map (alias_line sh_quote sh_unalias) aliases
  +:+ concat_map (func_line sh_unset_f) funcs.

Definition render_fish (pwd_before : option PathBuf) (opts : list OptDiff)
    (aliases : list AliasDiff) (funcs : list FuncDiff) : string :=
  cd_line fish_quote pwd_before
  +:+ concat_map (λ opt, manual_line opt " (fish has no `set -o` equivalent)") opts
  +:+ concat_map (alias_line fish_quote fish_erase) aliases
  +:+ concat_map (func_line fish_erase) funcs.

(** ** Readers of the quoting grammars *)

Inductive QuoteState := Unquoted | Quoted.

(** Characters that end an unquoted POSIX word. *)
Definition ends_word (c : Ascii.ascii) : bool :=
  bool_decide (c = "010"%char) || bool_decide (c = " "%char)
  || bool_decide (c = "009"%char) || bool_decide (c = ";"%char)
  || bool_decide (c = "|"%char) || bool_decide (c = "&"%char).

(** Characters an unquoted POSIX word would expand or interpret; the reader
    rejects them, so that an accepted word is a literal. *)
Definition expands (c : Ascii.ascii) : bool :=
  existsb (λ d, bool_decide (c = d))
    ["$"; "`"; "*"; "?"; "["; "<"; ">"; "("; ")"; "~"; "034"; "#"]%char.

(** Read one POSIX word: its literal value and the unread rest. [None] on an
    unterminated quote or on a word that is not a literal. *)
Fixpoint sh_word (st : QuoteState) (s : string) : option (string * string) :=
  match st, s with
  | Unquoted, EmptyString => Some ("", "")
  | Quoted, EmptyString => None
  | Quoted, String c s' =>
      if bool_decide (c = "'"%char) then sh_word Unquoted s'
      else prod_map (String c) id <$> sh_word Quoted s'
  | Unquoted, String c s' =>
      if bool_decide (c = "'"%char) then sh_word Quoted s'
      else if bool_decide (c = "\"%char) then
        match s' with
        | EmptyString => None
        | String d s'' => prod_map (String d) id <$> sh_word Unquoted s''
        end
      else if ends_word c then Some ("", s)
      else if expands c then None
      else prod_map (String c) id <$> sh_word Unquoted s'
  end.

(** Read one fish single-quoted string after its opening quote: only [\\] and
    [\'] are escapes, any other backslash is literal. *)
Fixpoint fish_quoted (s : string) : option (string * string) :=
  match s with
  | EmptyString => None
  | String c s' =>
      if bool_decide (c = "'"%char) then Some ("", s')
      else if bool_decide (c = "\"%char) then
        match s' with
        | EmptyString => None
        | String d s'' =>
            if bool_decide (d = "\"%char) || bool_decide (d = "'"%char)
            then prod_map (String d) id <$> fish_quoted s''
            else prod_map (String c) id <$> fish_quoted s'
        end
      else prod_map (String c) id <$> fish_quoted s'
  end.

Definition fish_word (s : string) : option (string * string) :=
  match s with
  | String c s' => if bool_decide (c = "'"%char) then fish_quoted s' else None
  | EmptyString => None
  end.

(** ** Lemmas *)

Lemma string_app_cons (c : Ascii.ascii) (s : string) : String c "" +:+ s = String c s.
Proof. reflexivity. Qed.

(** Inside the quotes, the escaped text reads back as the text. *)
Lemma sh_word_replace (s rest : string) :
  sh_word Quoted (replace "'" "'\''" s +:+ rest) =
  prod_map (String.append s) id <$> sh_word Quoted rest.
Proof.
  induction s as [|c s IH]; cbn [replace].
  - change ("" +:+ rest) with rest.
    destruct (sh_word Quoted rest) as [[] |]; reflexivity.
  - case_bool_decide as Hc.
    + subst c. rewrite !string_cons_app. change ("" +:+ ?x) with x.
      cbn -[replace]. rewrite IH.
      destruct (sh_word Quoted rest) as [[] |]; reflexivity.
    + rewrite !string_cons_app. cbn -[replace].
      rewrite bool_decide_eq_false_2 by done. rewrite IH.
      destruct (sh_word Quoted rest) as [[] |]; reflexivity.
Qed.

Lemma sh_word_quote (s rest : string) :
  sh_word Unquoted (sh_quote s +:+ rest) =
  prod_map (String.append s) id <$> sh_word Unquoted rest.
Proof.
  unfold sh_quote. rewrite !string_cons_app. change ("" +:+ ?x) with x.
  rewrite <- string_app_assoc, string_app_cons. cbn [sh_word].
  rewrite bool_decide_eq_true_2 by done. by rewrite sh_word_replace.
Qed.

Lemma fish_quoted_replace (s rest : string) :
  fish_quoted (replace "'" "\'" (replace "\" "\\" s) +:+ rest) =
  prod_map (String.append s) id <$> fish_quoted rest.
Proof.
  induction s as [|c s IH]; cbn [replace].
  - change ("" +:+ rest) with rest.
    destruct (fish_quoted rest) as [[] |]; reflexivity.
  - case_bool_decide as Hc.
    + subst c. rewrite !string_cons_app. change ("" +:+ ?x) with x.
      cbn [replace].
      change (bool_decide ("\"%char = "'"%char)) with false. cbn iota.
      rewrite !string_cons_app. cbn. rewrite IH.
      destruct (fish_quoted rest) as [[] |]; reflexivity.
    + cbn [replace]. case_bool_decide as Hq.
      * subst c. rewrite !string_cons_app. change ("" +:+ ?x) with x.
        cbn. rewrite IH. destruct (fish_quoted rest) as [[] |]; reflexivity.
      * rewrite string_cons_app. cbn.
        rewrite !bool_decide_eq_false_2 by done. rewrite IH.
        destruct (fish_quoted rest) as [[] |]; reflexivity.
Qed.

(** ** Properties *)

(** A POSIX word [w] followed by anything that ends a word reads as [s]. *)
Definition reads_as (w s rest : string) : Prop :=
  sh_word Unquoted (w +:+ rest) = Some (s, rest).

Lemma sh_word_nl (rest : string) : sh_word Unquoted (nl +:+ rest) = Some ("", nl +:+ rest).
Proof. reflexivity. Qed.

(** The bash and zsh snippets are injection-safe where they quote: after
    the literal [cd ], a POSIX shell reads exactly the captured directory as
    one literal word, and after [alias name=] exactly the captured
    expansion, whatever characters they hold; what is left unread is the
    newline and the rest of the snippet. *)
Theorem sh_quote_literal (p : PathBuf) (opts : list OptDiff)
    (aliases : list AliasDiff) (funcs : list FuncDiff) (name expansion : string)
    (post : option string) (rest : string) :
  (∃ tl, render_bash (Some p) opts aliases funcs = "cd " +:+ sh_quote (path_string p) +:+ tl
         ∧ reads_as (sh_quote (path_string p)) (path_string p) tl)
  ∧ (∃ tl, render_zsh (Some p) opts aliases funcs = "cd " +:+ sh_quote (path_string p) +:+ tl
           ∧ reads_as (sh_quote (path_string p)) (path_string p) tl)
  ∧ (∃ tl, alias_line sh_quote sh_unalias (mkAliasDiff name (Some expansion) post) +:+ rest
             = "alias " +:+ name +:+ "=" +:+ sh_quote expansion +:+ tl
           ∧ reads_as (sh_quote expansion) expansion tl).
Proof.
  split; [|split].
  - eexists. split; [unfold render_bash; cbn [cd_line]; by rewrite <- !string_app_assoc|].
    unfold reads_as. by rewrite sh_word_quote, sh_word_nl; cbn; rewrite string_app_nil_r.
  - eexists. split; [unfold render_zsh; cbn [cd_line]; by rewrite <- !string_app_assoc|].
    unfold reads_as. by rewrite sh_word_quote, sh_word_nl; cbn; rewrite string_app_nil_r.
  - eexists. split; [unfold alias_line; cbn [ad_pre ad_name]; by rewrite <- !string_app_assoc|].
    unfold reads_as. by rewrite sh_word_quote, sh_word_nl; cbn; rewrite string_app_nil_r.
Qed.

(** A fish shell reads the quoted form of any string back as that string,
    and stops right after the closing quote. *)
Theorem fish_quote_literal (s rest : string) :
  fish_word (fish_quote s +:+ rest) = Some (s, rest).
Proof.
  unfold fish_quote. rewrite !string_cons_app. change ("" +:+ ?x) with x.
  rewrite <- string_app_assoc, string_app_cons. cbn [fish_word].
  rewrite bool_decide_eq_true_2 by done. rewrite fish_quoted_replace.
  change (fish_quoted (String "'" rest)) with (Some ("", rest)).
  unfold prod_map; cbn. by rewrite string_app_nil_r.
Qed.

Example render_bash_quotes :
  render_bash (Some (path_of_string "/home/u/it's")) [mkOptDiff "errexit" "on" "off"]
    [mkAliasDiff "ll" None (Some "ls -l")] []
  = "cd '/home/u/it'\''s'" +:+ nl +:+ "set -o errexit" +:+ nl
    +:+ "unalias ll 2>/dev/null || true" +:+ nl.
Proof. reflexivity. Qed.

End ShellRender.
