(* ===== verification/Probe.v ===== *)
(** * Interfaces of the planner

    [probe.rs] and [store.rs] of [shit-planner]: what the planner may ask of
    the live file system and of the journal, as records of operations, with
    the in-memory implementations and the laws they satisfy. *)

From S2P Require Import Prelude Paths Base Events.

(** ** probe.rs *)

Record ProbeStat := mkStat { s_inode : InodeRef; s_meta : FileMetadata }.

Record StateProbe := mkProbe {
  stat : PathBuf → option ProbeStat;
  content_hash : PathBuf → option BlobHash;
}.

(** The default [exists]. *)
Definition exists_ (probe : StateProbe) (p : PathBuf) : bool :=
  match stat probe p with Some _ => true | None => false end.

Abbreviation InMemoryProbe := (gmap PathBuf (ProbeStat * option BlobHash)).

Definition probe_insert (m : InMemoryProbe) (path : PathBuf) (st : ProbeStat)
    (hash : option BlobHash) : InMemoryProbe :=
  <[path := (st, hash)]> m.

Definition probe_remove (m : InMemoryProbe) (path : PathBuf) : InMemoryProbe :=
  delete path m.

Definition in_memory_probe (m : InMemoryProbe) : StateProbe := {|
  stat p := fst <$> m !! p;
  content_hash p := m !! p ≫= snd;
|}.

(** ** store.rs *)

Record PlannerStore := mkPlannerStore {
  events_for_command : CommandId → list CaptureEvent;
  events_for_session : Uuid → SeqRange → list CaptureEvent;
  events_touching_inode : InodeRef → TimePoint → list CaptureEvent;
  events_touching_path : PathBuf → TimePoint → list CaptureEvent;
  latest_command_for_session : Uuid → option CommandRecord;
  command_by_id : CommandId → option CommandRecord;
  event_by_id : EventId → option CaptureEvent;
  blob_size_hint : BlobHash → option N;
}.

Record InMemoryStore := mkInMemoryStore {
  ms_events : list CaptureEvent;
  ms_commands : gmap CommandId CommandRecord;
  ms_blobs : gmap BlobHash N;
}.

Definition store_new : InMemoryStore := mkInMemoryStore [] ∅ ∅.

Definition put_event (s : InMemoryStore) (ev : CaptureEvent) : InMemoryStore :=
  mkInMemoryStore (ms_events s ++ [ev]) (ms_commands s) (ms_blobs s).

Definition put_command (s : InMemoryStore) (cmd : CommandRecord) : InMemoryStore :=
  mkInMemoryStore (ms_events s) (<[c_command cmd := cmd]> (ms_commands s)) (ms_blobs s).

Definition put_blob (s : InMemoryStore) (hash : BlobHash) (len : N) : InMemoryStore :=
  mkInMemoryStore (ms_events s) (ms_commands s) (<[hash := len]> (ms_blobs s)).

Definition touches_inode (kind : CaptureEventKind) (inode : InodeRef) : bool :=
  match kind with
  | CaptureEventKind.FilePreImage i _ _ _ _ _
  | CaptureEventKind.MetadataChange i _ _ _
  | CaptureEventKind.TreeOp (TreeOp.Create i _ _ _)
  | CaptureEventKind.TreeOp (TreeOp.Unlink i _ _ _)
  | CaptureEventKind.TreeOp (TreeOp.Rename _ _ i)
  | CaptureEventKind.TreeOp (TreeOp.Link i _) => bool_decide (i = inode)
  | _ => false
  end.

Definition touches_path (kind : CaptureEventKind) (path : PathBuf) : bool :=
  match kind with
  | CaptureEventKind.FilePreImage _ p _ _ _ _
  | CaptureEventKind.MetadataChange _ p _ _
  | CaptureEventKind.TreeOp (TreeOp.Create _ p _ _)
  | CaptureEventKind.TreeOp (TreeOp.Unlink _ p _ _)
  | CaptureEventKind.TreeOp (TreeOp.Link _ p)
  | CaptureEventKind.TreeOp (TreeOp.Symlink _ p) => bool_decide (p = path)
  | CaptureEventKind.TreeOp (TreeOp.Rename from to _) =>
      bool_decide (from = path) || bool_decide (to = path)
  | _ => false
  end.

(** [sort_by_key(|e| (e.ts, e.id))]. *)
Definition sort_events (evs : list CaptureEvent) : list CaptureEvent :=
  sort_by (leb_of event_cmp) evs.

(** [sort_by_key(|e| (e.command.seq, e.ts, e.id))]. *)
Definition session_key (e : CaptureEvent) : N * ((N * N) * N) :=
  (seq (e_command e), event_key e).

Definition session_cmp : CaptureEvent → CaptureEvent → comparison :=
  on_cmp session_key (pair_cmp N.compare
    (pair_cmp (pair_cmp N.compare N.compare) N.compare)).

Definition sort_session (evs : list CaptureEvent) : list CaptureEvent :=
  sort_by (leb_of session_cmp) evs.

(** The commands of a [BTreeMap<CommandId, _>] in key order. *)
Definition command_id_cmp : CommandId → CommandId → comparison :=
  on_cmp (λ c, (session c, seq c)) (pair_cmp N.compare N.compare).

Definition command_values (m : gmap CommandId CommandRecord) : list CommandRecord :=
  (sort_by (λ a b, leb_of command_id_cmp a.1 b.1) (map_to_list m)).*2.

(** [Iterator::max_by_key] on [seq]: the last of the greatest. *)
Definition max_by_seq (cs : list CommandRecord) : option CommandRecord :=
  foldl (λ best c,
    match best with
    | Some b => if bool_decide (seq (c_command b) ≤ seq (c_command c))%N
                then Some c else Some b
    | None => Some c
    end) None cs.

Definition in_memory_store (s : InMemoryStore) : PlannerStore := {|
  events_for_command command :=
    sort_events (List.filter (λ e, bool_decide (e_command e = command)) (ms_events s));
  events_for_session sess seq_range :=
    sort_session (List.filter (λ e, bool_decide (session (e_command e) = sess)
      && SeqRange_contains seq_range (seq (e_command e))) (ms_events s));
  events_touching_inode inode since :=
    sort_events (List.filter (λ e, time_leb since (e_ts e)
      && touches_inode (e_kind e) inode) (ms_events s));
  events_touching_path path at_ :=
    sort_events (List.filter (λ e, time_leb (e_ts e) at_
      && touches_path (e_kind e) path) (ms_events s));
  latest_command_for_session sess :=
    max_by_seq (List.filter (λ c, bool_decide (session (c_command c) = sess))
      (command_values (ms_commands s)));
  command_by_id id := ms_commands s !! id;
  event_by_id id := List.find (λ e, bool_decide (e_id e = id)) (ms_events s);
  blob_size_hint hash := ms_blobs s !! hash;
|}.

(** ** The contract of the store

    What the trait documents, independent of the backing. *)
Class PlannerStoreLaws (st : PlannerStore) (journal : list CaptureEvent) : Prop := {
  events_for_command_spec : ∀ c e,
    e ∈ events_for_command st c ↔ e ∈ journal ∧ e_command e = c;
  events_for_command_sorted : ∀ c,
    sorted_by (leb_of event_cmp) (events_for_command st c);
}.

#[export] Instance in_memory_store_laws (s : InMemoryStore) :
  PlannerStoreLaws (in_memory_store s) (ms_events s).
Proof.
  split; simpl.
  - intros c e. unfold sort_events.
    by rewrite elem_of_sort_by, elem_of_list_filter, bool_decide_eq_true.
  - intros c. apply sort_by_sorted; [apply event_leb_total|apply event_leb_trans].
Qed.

(** ** Lemmas *)

Lemma max_by_seq_spec (cs : list CommandRecord) (c : CommandRecord) :
  max_by_seq cs = Some c →
  c ∈ cs ∧ ∀ d, d ∈ cs → (seq (c_command d) ≤ seq (c_command c))%N.
Proof.
  unfold max_by_seq. revert c. induction cs as [|x cs IH] using rev_ind; [done|].
  intros c. rewrite foldl_app. simpl. destruct (foldl _ None cs) as [b|] eqn:E.
  - destruct (IH b eq_refl) as [Hb Hmax]. case_bool_decide; intros [= <-];
      (split; [set_solver|]); intros d; rewrite elem_of_app, list_elem_of_singleton;
      intros [Hd| ->]; try (specialize (Hmax _ Hd)); lia.
  - intros [= <-]. split; [set_solver|].
    assert (cs = []) as ->.
    { destruct cs as [|y cs] using rev_ind; [done|]. rewrite foldl_app in E.
      simpl in E. repeat case_match; done. }
    intros d. simpl. rewrite list_elem_of_singleton. intros ->; lia.
Qed.

Lemma max_by_seq_none (cs : list CommandRecord) : max_by_seq cs = None → cs = [].
Proof.
  destruct cs as [|y cs _] using rev_ind; [done|]. unfold max_by_seq. rewrite foldl_app. simpl.
  repeat case_match; done.
Qed.

Lemma elem_of_command_values (m : gmap CommandId CommandRecord) (c : CommandRecord) :
  c ∈ command_values m ↔ ∃ k, m !! k = Some c.
Proof.
  unfold command_values. rewrite list_elem_of_fmap. split.
  - intros ([k d] & -> & Hd). rewrite elem_of_sort_by, elem_of_map_to_list in Hd. eauto.
  - intros [k Hk]. exists (k, c). split; [done|].
    by rewrite elem_of_sort_by, elem_of_map_to_list.
Qed.
