(* ===== verification/Classify.v ===== *)
(** * Event classification

    [classify_replace_paths] of [plan.rs]: which paths of a command were
    atomically replaced, which were transient scratch files, which creates a
    rename or a snapshot subsumes, and which unlinked names are hard-link
    aliases of a file that survives.

    The loops over a [HashSet] decide each path on its own, so each is the
    subset of the set its body inserts; the loop over the [HashMap] of inode
    groups writes a shared map and is modelled over an unspecified iteration
    order. *)

From S2P Require Import Prelude Paths Base Events Inverse Probe.

Module Classify.

Record EventClassification := mkClass {
  atomic_replace_paths : gset PathBuf;
  transient_paths : gset PathBuf;
  rename_subsumed_creates : gset PathBuf;
  spurious_creates_with_preimage : gset PathBuf;
  hardlink_live_paths : gset PathBuf;
  hardlink_dead_to_source : gmap PathBuf PathBuf;
  paired_flags_shims : gset EventId;
}.

(** The sets the first loop fills. *)
Record Scan := mkScan {
  creates : gset PathBuf;
  unlinks : gset PathBuf;
  pre_images : gset PathBuf;
  rename_destinations : gset PathBuf;
  pre_command_pre_images : gset PathBuf;
  paths_by_inode : gmap InodeRef (gset PathBuf);
  unlinks_with_inode : gmap PathBuf InodeRef;
}.

Definition scan_empty : Scan := mkScan ∅ ∅ ∅ ∅ ∅ ∅ ∅.

Definition scan_event (s : Scan) (ev : CaptureEvent) : Scan :=
  match e_kind ev with
  | CaptureEventKind.FilePreImage _ path _ _ _ source =>
      if is_shim_flags source then s
      else mkScan (creates s) (unlinks s) ({[path]} ∪ pre_images s)
             (rename_destinations s)
             (if is_trusted_pre_mutation source
              then {[path]} ∪ pre_command_pre_images s
              else pre_command_pre_images s)
             (paths_by_inode s) (unlinks_with_inode s)
  | CaptureEventKind.TreeOp (TreeOp.Create _ path _ _) =>
      mkScan ({[path]} ∪ creates s) (unlinks s) (pre_images s)
        (rename_destinations s) (pre_command_pre_images s)
        (paths_by_inode s) (unlinks_with_inode s)
  | CaptureEventKind.TreeOp (TreeOp.Unlink inode path _ _) =>
      if inode_known inode then
        mkScan (creates s) ({[path]} ∪ unlinks s) (pre_images s)
          (rename_destinations s) (pre_command_pre_images s)
          (<[inode := {[path]} ∪ default ∅ (paths_by_inode s !! inode)]>
             (paths_by_inode s))
          (<[path := inode]> (unlinks_with_inode s))
      else
        mkScan (creates s) ({[path]} ∪ unlinks s) (pre_images s)
          (rename_destinations s) (pre_command_pre_images s)
          (paths_by_inode s) (unlinks_with_inode s)
  | CaptureEventKind.TreeOp (TreeOp.Rename _ to _) =>
      mkScan (creates s) (unlinks s) (pre_images s)
        ({[to]} ∪ rename_destinations s) (pre_command_pre_images s)
        (paths_by_inode s) (unlinks_with_inode s)
  | _ => s
  end.

Definition scan (events : list CaptureEvent) : Scan :=
  foldl scan_event scan_empty events.

Abbreviation inb p X := (bool_decide (p ∈ X)).

Definition parent_alive (probe : StateProbe) (p : PathBuf) : bool :=
  match nonempty_parent p with
  | Some pp => exists_ probe pp
  | None => false
  end.

(** The body of the loop over [creates] and [rename_destinations]. *)
Inductive Verdict := Skip | Atomic | Transient.

#[export] Instance Verdict_eq_dec : EqDecision Verdict.
Proof. solve_decision. Defined.

Definition replace_verdict (s : Scan) (probe : StateProbe) (p : PathBuf) : Verdict :=
  if negb (inb p (unlinks s)) then Skip
  else if negb (inb p (pre_images s)) then Transient
  else if exists_ probe p then Atomic
  else
    let is_rename_destination := inb p (rename_destinations s) in
    let has_pre_command_snapshot := inb p (pre_command_pre_images s) in
    if (is_rename_destination || has_pre_command_snapshot) && parent_alive probe p
    then Atomic else Transient.

Definition select (f : PathBuf → bool) (X : gset PathBuf) : gset PathBuf :=
  filter (λ p, f p = true) X.

(** Pure creates whose path is gone at undo time. *)
Definition gone_create (s : Scan) (probe : StateProbe) (p : PathBuf) : bool :=
  negb (inb p (unlinks s)) && negb (exists_ probe p).

Definition transient_of (s : Scan) (probe : StateProbe) : gset PathBuf :=
  select (λ p, bool_decide (replace_verdict s probe p = Transient))
    (creates s ∪ rename_destinations s)
  ∪ select (gone_create s probe) (creates s).

(** Create and trusted pre-image, no unlink, path present. *)
Definition spurious_create (s : Scan) (probe : StateProbe) (p : PathBuf) : bool :=
  negb (inb p (unlinks s)) && inb p (pre_command_pre_images s) && exists_ probe p.

(** A rename brought the path, itself or with its directory. *)
Definition rename_subsumed (s : Scan) (p : PathBuf) : bool :=
  negb (inb p (unlinks s))
  && (inb p (rename_destinations s)
      || existsb (λ d, starts_with p d && negb (bool_decide (p = d)))
           (elements (rename_destinations s))).

(** Rename over a path with a pre-image, no unlink, path present. *)
Definition rename_replaced (s : Scan) (probe : StateProbe) (p : PathBuf) : bool :=
  negb (inb p (unlinks s)) && inb p (pre_images s) && exists_ probe p.

Definition is_hardlink_dead (s : Scan) (p : PathBuf) : bool :=
  match unlinks_with_inode s !! p ≫= λ i, paths_by_inode s !! i with
  | Some siblings => bool_decide (1 < size siblings)
  | None => false
  end.

(** Unlink and pre-image without create or rename. *)
Definition unlink_replaced (s : Scan) (p : PathBuf) : bool :=
  inb p (pre_images s)
  && negb (inb p (creates s) || inb p (rename_destinations s))
  && negb (is_hardlink_dead s p).

Definition atomic_of (s : Scan) (probe : StateProbe) : gset PathBuf :=
  select (λ p, bool_decide (replace_verdict s probe p = Atomic))
    (creates s ∪ rename_destinations s)
  ∪ select (rename_replaced s probe) (rename_destinations s)
  ∪ select (unlink_replaced s) (unlinks s).

(** ** Hard links *)

Definition alive_match (probe : StateProbe) (captured : InodeRef) (p : PathBuf) : bool :=
  match stat probe p with
  | Some s => bool_decide (s_inode s = captured)
  | None => false
  end.

(** One inode group: live aliases and the source of the dead ones. *)
Definition hardlink_group (probe : StateProbe) (captured : InodeRef)
    (paths : gset PathBuf) : gset PathBuf * option PathBuf :=
  if bool_decide (size paths < 2) then (∅, None)
  else
    let alive_sorted :=
      sort_by path_leb (List.filter (alive_match probe captured) (elements paths)) in
    match alive_sorted with
    | [] => (∅, None)
    | source :: _ => (list_to_set alive_sorted, Some source)
    end.

Definition dead_of (probe : StateProbe) (captured : InodeRef)
    (paths : gset PathBuf) : list PathBuf :=
  List.filter (λ p, negb (alive_match probe captured p)) (elements paths).

Definition hardlink_step (probe : StateProbe)
    (acc : gset PathBuf * gmap PathBuf PathBuf)
    (entry : InodeRef * gset PathBuf) : gset PathBuf * gmap PathBuf PathBuf :=
  let '(captured, paths) := entry in
  match hardlink_group probe captured paths with
  | (alive, Some source) =>
      (alive ∪ acc.1,
       foldl (λ m p, <[p := source]> m) acc.2 (dead_of probe captured paths))
  | (_, None) => acc
  end.

Section Ordered.
Context (ord : HashOrder InodeRef (gset PathBuf)).

Definition hardlinks (s : Scan) (probe : StateProbe)
    : gset PathBuf * gmap PathBuf PathBuf :=
  foldl (hardlink_step probe) (∅, ∅) (hash_iter (paths_by_inode s)).

Definition classify_replace_paths (events : list CaptureEvent) (probe : StateProbe)
    : EventClassification :=
  let s := scan events in
  let '(live, dead) := hardlinks s probe in
  mkClass (atomic_of s probe) (transient_of s probe)
    (select (rename_subsumed s) (creates s))
    (select (spurious_create s probe) (creates s))
    live dead ∅.
End Ordered.

(** ** Scan lemmas *)

(** What an event adds to each set. *)
Definition ev_creates (p : PathBuf) (ev : CaptureEvent) : Prop :=
  ∃ i k m, e_kind ev = CaptureEventKind.TreeOp (TreeOp.Create i p k m).

Definition ev_unlinks (p : PathBuf) (ev : CaptureEvent) : Prop :=
  ∃ i k m, e_kind ev = CaptureEventKind.TreeOp (TreeOp.Unlink i p k m).

Definition ev_renames_to (p : PathBuf) (ev : CaptureEvent) : Prop :=
  ∃ from i, e_kind ev = CaptureEventKind.TreeOp (TreeOp.Rename from p i).

Definition ev_pre_image (p : PathBuf) (ev : CaptureEvent) : Prop :=
  ∃ i b m h src, e_kind ev = CaptureEventKind.FilePreImage i p b m h src
    ∧ is_shim_flags src = false.

(** The event carries a snapshot of [p] taken before the command ran. *)
Definition ev_snapshot (p : PathBuf) (ev : CaptureEvent) : Prop :=
  ∃ i b m h src, e_kind ev = CaptureEventKind.FilePreImage i p b m h src
    ∧ is_trusted_pre_mutation src = true.

(** A scanned set holds exactly the paths some event adds. *)
Lemma scan_set_spec (f : Scan → gset PathBuf) (P : PathBuf → CaptureEvent → Prop)
    (evs : list CaptureEvent) (p : PathBuf) :
  f scan_empty = ∅ →
  (∀ s ev q, q ∈ f (scan_event s ev) ↔ P q ev ∨ q ∈ f s) →
  p ∈ f (scan evs) ↔ ∃ ev, ev ∈ evs ∧ P p ev.
Proof.
  intros Hempty Hstep. unfold scan.
  induction evs as [|ev evs IH] using rev_ind; simpl.
  { rewrite Hempty. set_solver. }
  rewrite foldl_app. simpl. rewrite Hstep, IH. set_solver.
Qed.

Ltac scan_case :=
  intros s ev q; unfold scan_event;
  repeat (case_match; simpl); try set_solver.

Lemma elem_of_creates (evs : list CaptureEvent) (p : PathBuf) :
  p ∈ creates (scan evs) ↔ ∃ ev, ev ∈ evs ∧ ev_creates p ev.
Proof. apply scan_set_spec; [done|]. unfold ev_creates. scan_case. Qed.

Lemma elem_of_unlinks (evs : list CaptureEvent) (p : PathBuf) :
  p ∈ unlinks (scan evs) ↔ ∃ ev, ev ∈ evs ∧ ev_unlinks p ev.
Proof. apply scan_set_spec; [done|]. unfold ev_unlinks. scan_case. Qed.

Lemma elem_of_rename_destinations (evs : list CaptureEvent) (p : PathBuf) :
  p ∈ rename_destinations (scan evs) ↔ ∃ ev, ev ∈ evs ∧ ev_renames_to p ev.
Proof. apply scan_set_spec; [done|]. unfold ev_renames_to. scan_case. Qed.

Lemma elem_of_pre_images (evs : list CaptureEvent) (p : PathBuf) :
  p ∈ pre_images (scan evs) ↔ ∃ ev, ev ∈ evs ∧ ev_pre_image p ev.
Proof.
  apply scan_set_spec; [done|]. unfold ev_pre_image. scan_case.
  split; [auto|]. intros [Hx|]; [|done]. destruct_ands; congruence.
Qed.

Lemma trusted_not_shim (src : FilePreImageSource) :
  is_trusted_pre_mutation src = true → is_shim_flags src = false.
Proof. by destruct src. Qed.

Lemma elem_of_pre_command (evs : list CaptureEvent) (p : PathBuf) :
  p ∈ pre_command_pre_images (scan evs) ↔ ∃ ev, ev ∈ evs ∧ ev_snapshot p ev.
Proof.
  apply scan_set_spec; [done|]. unfold ev_snapshot. scan_case.
  all: split; [auto|]; intros [Hx|]; [|done]; destruct_ands; simplify_eq.
  all: try match goal with H : is_trusted_pre_mutation _ = true |- _ =>
    pose proof (trusted_not_shim _ H) end; congruence.
Qed.

(** A snapshot is a pre-image. *)
Lemma pre_command_sub (evs : list CaptureEvent) :
  pre_command_pre_images (scan evs) ⊆ pre_images (scan evs).
Proof.
  intros p. rewrite elem_of_pre_command, elem_of_pre_images.
  intros (ev & Hev & i & b & m & h & src & Hk & Ht).
  exists ev. split; [done|]. exists i, b, m, h, src. eauto using trusted_not_shim.
Qed.

Lemma elem_of_select (f : PathBuf → bool) (X : gset PathBuf) (p : PathBuf) :
  p ∈ select f X ↔ p ∈ X ∧ f p = true.
Proof. unfold select. rewrite elem_of_filter. tauto. Qed.

(** Turn membership in the classification sets into propositions. *)
Ltac class_simpl :=
  unfold atomic_of, transient_of, gone_create, spurious_create, rename_replaced,
    unlink_replaced in *;
  repeat rewrite ?elem_of_union, ?elem_of_select, ?andb_true_iff, ?negb_true_iff,
    ?orb_false_iff, ?bool_decide_eq_true, ?bool_decide_eq_false in *.

(** A path with a verdict was unlinked. *)
Lemma replace_verdict_unlinked (s : Scan) (probe : StateProbe) (p : PathBuf) (v : Verdict) :
  replace_verdict s probe p = v → v ≠ Skip → p ∈ unlinks s.
Proof. unfold replace_verdict. case_bool_decide; [done|]. naive_solver. Qed.

(** ** Hard-link lemmas *)

Lemma elem_of_dead_of (probe : StateProbe) (i : InodeRef) (X : gset PathBuf) (p : PathBuf) :
  p ∈ dead_of probe i X ↔ p ∈ X ∧ alive_match probe i p = false.
Proof.
  unfold dead_of. by rewrite elem_of_list_filter, elem_of_elements, negb_true_iff.
Qed.

(** The source of a group is a live alias of it. *)
Lemma hardlink_group_source (probe : StateProbe) (i : InodeRef) (X : gset PathBuf)
    (src : PathBuf) :
  (hardlink_group probe i X).2 = Some src →
  2 ≤ size X ∧ src ∈ X ∧ alive_match probe i src = true
  ∧ src ∈ (hardlink_group probe i X).1.
Proof.
  unfold hardlink_group. case_bool_decide; [done|].
  destruct (sort_by _ _) as [|q l] eqn:E; [done|]. simpl. intros [= ->].
  assert (src ∈ List.filter (alive_match probe i) (elements X)) as Hin.
  { rewrite <- (elem_of_sort_by path_leb), E. left. }
  apply elem_of_list_filter in Hin as [Hin ?]. apply elem_of_elements in Hin.
  split; [lia|]. set_solver.
Qed.

Lemma elem_of_hardlink_group (probe : StateProbe) (i : InodeRef) (X : gset PathBuf)
    (p : PathBuf) :
  p ∈ (hardlink_group probe i X).1 → p ∈ X ∧ alive_match probe i p = true.
Proof.
  unfold hardlink_group. case_bool_decide; [set_solver|].
  destruct (sort_by _ _) as [|q l] eqn:E; [set_solver|]. simpl.
  intros Hp. assert (p ∈ q :: l) as Hp' by set_solver.
  rewrite <- E, elem_of_sort_by, elem_of_list_filter, elem_of_elements in Hp'. done.
Qed.

Lemma hardlink_group_none (probe : StateProbe) (i : InodeRef) (X : gset PathBuf) :
  (hardlink_group probe i X).2 = None → (hardlink_group probe i X).1 = ∅.
Proof. unfold hardlink_group. repeat case_match; done. Qed.

Lemma insert_all_lookup (l : list PathBuf) (src : PathBuf) (m : gmap PathBuf PathBuf)
    (p : PathBuf) :
  foldl (λ m p, <[p := src]> m) m l !! p =
  if bool_decide (p ∈ l) then Some src else m !! p.
Proof.
  revert m. induction l as [|q l IH]; intros m; simpl; [done|].
  rewrite IH. repeat case_bool_decide; try set_solver.
  - destruct (decide (p = q)) as [->|]; [by rewrite lookup_insert_eq|set_solver].
  - rewrite lookup_insert_ne; [done|set_solver].
Qed.

Lemma hardlink_step_live (probe : StateProbe) acc i X (p : PathBuf) :
  p ∈ (hardlink_step probe acc (i, X)).1 ↔ p ∈ acc.1 ∨ p ∈ (hardlink_group probe i X).1.
Proof.
  unfold hardlink_step. pose proof (hardlink_group_none probe i X) as Hn.
  destruct (hardlink_group probe i X) as [alive [src|]]; simpl in *; [set_solver|].
  rewrite Hn by done. set_solver.
Qed.

Lemma hardlink_step_dead (probe : StateProbe) acc i X (p : PathBuf) :
  (hardlink_step probe acc (i, X)).2 !! p =
  match (hardlink_group probe i X).2 with
  | Some src => if bool_decide (p ∈ dead_of probe i X) then Some src else acc.2 !! p
  | None => acc.2 !! p
  end.
Proof.
  unfold hardlink_step. destruct (hardlink_group probe i X) as [alive [src|]]; simpl; [|done].
  apply insert_all_lookup.
Qed.

(** An entry of the iterated groups makes [p] dead with source [src]. *)
Definition dead_entry (probe : StateProbe) (l : list (InodeRef * gset PathBuf))
    (p src : PathBuf) : Prop :=
  ∃ i X, (i, X) ∈ l ∧ (hardlink_group probe i X).2 = Some src ∧ p ∈ dead_of probe i X.

Lemma hardlinks_live_spec (probe : StateProbe) l acc (p : PathBuf) :
  p ∈ (foldl (hardlink_step probe) acc l).1 ↔
  p ∈ acc.1 ∨ ∃ i X, (i, X) ∈ l ∧ p ∈ (hardlink_group probe i X).1.
Proof.
  revert acc. induction l as [|[i X] l IH]; intros acc; cbn [foldl]; [set_solver|].
  rewrite IH, hardlink_step_live. set_solver.
Qed.

Lemma hardlinks_dead_sound (probe : StateProbe) l acc (p src : PathBuf) :
  (foldl (hardlink_step probe) acc l).2 !! p = Some src →
  acc.2 !! p = Some src ∨ dead_entry probe l p src.
Proof.
  unfold dead_entry. revert acc. induction l as [|[i X] l IH]; intros acc; cbn [foldl]; [auto|].
  intros [Ha|(j & Y & Hin & Hg & Hd)]%IH; [|right; exists j, Y; set_solver].
  rewrite hardlink_step_dead in Ha. case_match eqn:E; [|auto].
  case_bool_decide; [|auto]. simplify_eq. right. exists i, X. set_solver.
Qed.

Lemma hardlinks_dead_complete (probe : StateProbe) l acc (p : PathBuf) :
  is_Some (acc.2 !! p) ∨ (∃ src, dead_entry probe l p src) →
  is_Some ((foldl (hardlink_step probe) acc l).2 !! p).
Proof.
  unfold dead_entry. revert acc. induction l as [|[i X] l IH]; intros acc; cbn [foldl].
  { intros [|(src & j & Y & Hin & _)]; [done|set_solver]. }
  intros H. apply IH. rewrite hardlink_step_dead.
  destruct H as [Hs|(src & j & Y & [[= -> ->]|Hin]%elem_of_cons & Hg & Hd)].
  - left. repeat case_match; eauto.
  - left. rewrite Hg. rewrite bool_decide_eq_true_2 by done. eauto.
  - right. eauto 10.
Qed.

(** No name was unlinked under two different inodes. *)
Definition groups_disjoint (s : Scan) : Prop :=
  ∀ i j X Y, paths_by_inode s !! i = Some X → paths_by_inode s !! j = Some Y →
    i ≠ j → X ## Y.

Lemma hardlinks_dead_iff (ord : HashOrder InodeRef (gset PathBuf)) (s : Scan)
    (probe : StateProbe) (p src : PathBuf) :
  groups_disjoint s →
  (hardlinks ord s probe).2 !! p = Some src ↔
  ∃ i X, paths_by_inode s !! i = Some X ∧ (hardlink_group probe i X).2 = Some src
    ∧ p ∈ dead_of probe i X.
Proof.
  intros Hdis. unfold hardlinks. split.
  - intros [?|(i & X & Hin & ?)]%hardlinks_dead_sound; [done|].
    exists i, X. by rewrite elem_of_hash_iter in Hin.
  - intros (i & X & Hi & Hg & Hd).
    assert (is_Some ((foldl (hardlink_step probe) (∅, ∅) (hash_iter (paths_by_inode s))).2 !! p))
      as [src' Hs'].
    { apply hardlinks_dead_complete. right. exists src, i, X. by rewrite elem_of_hash_iter. }
    rewrite Hs'. apply hardlinks_dead_sound in Hs' as [?|(j & Y & Hj & Hg' & Hd')]; [done|].
    rewrite elem_of_hash_iter in Hj. destruct (decide (i = j)) as [->|Hne]; [congruence|].
    apply elem_of_dead_of in Hd as [Hd _]. apply elem_of_dead_of in Hd' as [Hd' _].
    pose proof (Hdis _ _ _ _ Hi Hj Hne). set_solver.
Qed.

(** With disjoint groups the result does not depend on the iteration order. *)
Lemma hardlinks_order (ord ord' : HashOrder InodeRef (gset PathBuf)) (s : Scan)
    (probe : StateProbe) :
  groups_disjoint s → hardlinks ord s probe = hardlinks ord' s probe.
Proof.
  intros Hdis. apply injective_projections.
  - apply set_eq. intros p. unfold hardlinks. rewrite !hardlinks_live_spec.
    setoid_rewrite elem_of_hash_iter. done.
  - apply map_eq. intros p. apply option_eq. intros src.
    by rewrite !hardlinks_dead_iff.
Qed.

(** The members of an inode group are names unlinked under that inode. *)
Lemma elem_of_paths_by_inode (evs : list CaptureEvent) (i : InodeRef) (X : gset PathBuf)
    (p : PathBuf) :
  paths_by_inode (scan evs) !! i = Some X → p ∈ X →
  ∃ ev k m, ev ∈ evs ∧ e_kind ev = CaptureEventKind.TreeOp (TreeOp.Unlink i p k m).
Proof.
  unfold scan. revert X. induction evs as [|ev evs IH] using rev_ind; intros X; [done|].
  rewrite foldl_app. cbn [foldl]. set (s := foldl scan_event scan_empty evs) in *.
  assert (Hold : ∀ X, paths_by_inode s !! i = Some X → p ∈ X →
    ∃ ev' k m, ev' ∈ evs ++ [ev] ∧ e_kind ev' = CaptureEventKind.TreeOp (TreeOp.Unlink i p k m)).
  { intros Y HY Hp. destruct (IH Y HY Hp) as (ev' & k & m & Hin & Hk).
    exists ev', k, m. set_solver. }
  unfold scan_event. destruct (e_kind ev) as [? ? ? ? ? src| | |op| | | | | | | | | | | |] eqn:Ek;
    try apply Hold; [by destruct (is_shim_flags src); apply Hold|].
  destruct op as [|j q k m| | | |]; try apply Hold.
  destruct (inode_known j); [|apply Hold]. simpl.
  destruct (decide (j = i)) as [->|]; [|rewrite lookup_insert_ne by done; apply Hold].
  rewrite lookup_insert_eq. intros [= <-] [->%elem_of_singleton|Hp]%elem_of_union.
  - exists ev, k, m. set_solver.
  - destruct (paths_by_inode s !! i) as [Y|] eqn:EY; [by eapply Hold|set_solver].
Qed.

(** Every name was unlinked under one inode only. *)
Definition one_inode_per_name (evs : list CaptureEvent) : Prop :=
  ∀ e1 e2 i1 i2 p k1 m1 k2 m2, e1 ∈ evs → e2 ∈ evs →
    e_kind e1 = CaptureEventKind.TreeOp (TreeOp.Unlink i1 p k1 m1) →
    e_kind e2 = CaptureEventKind.TreeOp (TreeOp.Unlink i2 p k2 m2) → i1 = i2.

Lemma one_inode_groups (evs : list CaptureEvent) :
  one_inode_per_name evs → groups_disjoint (scan evs).
Proof.
  intros H i j X Y Hi Hj Hne p HX HY.
  destruct (elem_of_paths_by_inode _ _ _ _ Hi HX) as (e1 & k1 & m1 & He1 & Hk1).
  destruct (elem_of_paths_by_inode _ _ _ _ Hj HY) as (e2 & k2 & m2 & He2 & Hk2).
  by apply Hne, (H e1 e2 _ _ _ _ _ _ _ He1 He2 Hk1 Hk2).
Qed.

Lemma paths_by_inode_known (evs : list CaptureEvent) (i : InodeRef) (X : gset PathBuf) :
  paths_by_inode (scan evs) !! i = Some X → inode_known i = true.
Proof.
  unfold scan. revert X. induction evs as [|ev evs IH] using rev_ind; intros X; [done|].
  rewrite foldl_app. cbn [foldl]. set (s := foldl scan_event scan_empty evs) in *.
  unfold scan_event. destruct (e_kind ev) as [? ? ? ? ? src| | |op| | | | | | | | | | | |];
    try apply IH; [by destruct (is_shim_flags src); apply IH|].
  destruct op as [|j q k m| | | |]; try apply IH. destruct (inode_known j) eqn:Hj; [|apply IH].
  simpl. rewrite lookup_insert_Some. intros [[-> _]|[_ H]]; [done|by eapply IH].
Qed.

(** ** Properties of the classification *)

Lemma atomic_transient_disjoint (s : Scan) (probe : StateProbe) (p : PathBuf) :
  p ∈ atomic_of s probe → p ∈ transient_of s probe → False.
Proof.
  class_simpl. intros [[[_ Ha]|[_ Ha]]|[_ Ha]] [[? Ht]|[? Ht]]; destruct_ands;
    try apply replace_verdict_unlinked in Ha as ?; try apply replace_verdict_unlinked in Ht as ?;
    try congruence; tauto.
Qed.

End Classify.
