(* ===== verification/FlagPairs.v ===== *)
(** * Pairing of flag captures

    [paired_flags_shim_events] of [plan_forward.rs]: on FreeBSD one chflags is
    observed twice, as a shim snapshot before the call and as a kqueue
    metadata change after it. The pass pairs each flags-only change with the
    latest unpaired shim snapshot of the same inode and pre-value. *)

From S2P Require Import Prelude Paths Base Events.

Module FlagPairs.

Abbreviation FlagKey := (InodeRef * N)%type.

(** [Vec::pop]. *)
Definition vec_pop {A} (l : list A) : option (A * list A) :=
  match rev l with
  | [] => None
  | x :: r => Some (x, rev r)
  end.

(** The two event shapes the pass looks at. *)
Definition shim_key (ev : CaptureEvent) : option FlagKey :=
  match e_kind ev with
  | CaptureEventKind.FilePreImage inode _ _ meta _ FilePreImageSource.ShimFlagsPreMutation =>
      Some (inode, m_flags meta)
  | _ => None
  end.

Definition helper_key (ev : CaptureEvent) : option FlagKey :=
  match e_kind ev with
  | CaptureEventKind.MetadataChange inode _ before after =>
      if only_flags_changed before after then Some (inode, m_flags before) else None
  | _ => None
  end.

(** One iteration: the pending snapshots per key and the paired ids. *)
Definition pair_step (st : gmap FlagKey (list EventId) * gset EventId)
    (ev : CaptureEvent) : gmap FlagKey (list EventId) * gset EventId :=
  let '(pending, paired) := st in
  match shim_key ev with
  | Some k => (<[k := default [] (pending !! k) ++ [e_id ev]]> pending, paired)
  | None =>
      match helper_key ev with
      | Some k =>
          match pending !! k with
          | Some ids =>
              match vec_pop ids with
              | Some (id, rest) => (<[k := rest]> pending, {[id]} ∪ paired)
              | None => (pending, paired)
              end
          | None => (pending, paired)
          end
      | None => (pending, paired)
      end
  end.

Definition paired_flags_shim_events (events : list CaptureEvent) : gset EventId :=
  (foldl pair_step (∅, ∅) events).2.

(** ** The pairing behind the ids

    The same pass keeping the events and the pairs it makes. *)
Definition ghost_step
    (st : gmap FlagKey (list CaptureEvent) * list (CaptureEvent * CaptureEvent))
    (ev : CaptureEvent) :=
  let '(pending, pairs) := st in
  match shim_key ev with
  | Some k => (<[k := default [] (pending !! k) ++ [ev]]> pending, pairs)
  | None =>
      match helper_key ev with
      | Some k =>
          match pending !! k with
          | Some evs =>
              match vec_pop evs with
              | Some (s, rest) => (<[k := rest]> pending, (s, ev) :: pairs)
              | None => (pending, pairs)
              end
          | None => (pending, pairs)
          end
      | None => (pending, pairs)
      end
  end.

Definition ghost (events : list CaptureEvent) := foldl ghost_step (∅, []) events.

Definition pair_list (events : list CaptureEvent) : list (CaptureEvent * CaptureEvent) :=
  (ghost events).2.

Lemma vec_pop_snoc {A} (l : list A) (x : A) : vec_pop (l ++ [x]) = Some (x, l).
Proof. unfold vec_pop. rewrite rev_app_distr. simpl. by rewrite rev_involutive. Qed.

Lemma vec_pop_Some {A} (l r : list A) (x : A) : vec_pop l = Some (x, r) → l = r ++ [x].
Proof.
  destruct l as [|y l _] using rev_ind; [done|]. rewrite vec_pop_snoc. by intros [= -> ->].
Qed.

Lemma vec_pop_None {A} (l : list A) : vec_pop l = None → l = [].
Proof. destruct l as [|y l _] using rev_ind; [done|]. by rewrite vec_pop_snoc. Qed.

Lemma vec_pop_fmap {A B} (f : A → B) (l : list A) :
  vec_pop (fmap (M:=list) f l) = prod_map f (fmap (M:=list) f) <$> vec_pop l.
Proof.
  destruct l as [|x l _] using rev_ind; [done|].
  by rewrite fmap_app, fmap_cons, fmap_nil, !vec_pop_snoc.
Qed.

(** The pass computes the ids of the snapshots in the pairs. *)
Lemma ghost_proj (events : list CaptureEvent) :
  foldl pair_step (∅, ∅) events =
  (fmap (M:=list) e_id <$> (ghost events).1, list_to_set (e_id ∘ fst <$> (ghost events).2)).
Proof.
  unfold ghost. induction events as [|ev evs IH] using rev_ind; [done|].
  rewrite !foldl_app. cbn [foldl]. rewrite IH.
  destruct (foldl ghost_step _ evs) as [pend pairs]. unfold pair_step, ghost_step. cbn [fst snd].
  destruct (shim_key ev) as [k|]; cbn [fst snd].
  { rewrite fmap_insert, lookup_fmap. destruct (pend !! k); simpl; [|done].
    by rewrite fmap_app. }
  destruct (helper_key ev) as [k|]; cbn [fst snd]; [|done]. rewrite lookup_fmap.
  destruct (pend !! k) as [l|]; cbn [fst snd fmap option_fmap option_map]; [|done].
  rewrite vec_pop_fmap.
  destruct (vec_pop l) as [[s r]|]; cbn [fst snd fmap option_fmap option_map prod_map]; [|done].
  by rewrite fmap_insert.
Qed.

(** ** Soundness of the pairing *)

(** [a] occurs before [b] in [l]. *)
Definition precedes {A} (l : list A) (a b : A) : Prop :=
  ∃ x y z, l = x ++ a :: y ++ b :: z.

(** What holds of the pass after the events [pre]. *)
Record pairing_inv (pre : list CaptureEvent)
    (pending : gmap FlagKey (list CaptureEvent))
    (pairs : list (CaptureEvent * CaptureEvent)) : Prop := {
  inv_pending : ∀ k l s, pending !! k = Some l → s ∈ l →
    s ∈ pre ∧ shim_key s = Some k ∧ s ∉ pairs.*1;
  inv_pending_nodup : ∀ k l, pending !! k = Some l → NoDup l;
  inv_pairs : ∀ s h, (s, h) ∈ pairs →
    precedes pre s h ∧ ∃ k, shim_key s = Some k ∧ helper_key h = Some k;
  inv_shims_nodup : NoDup pairs.*1;
  inv_helpers_nodup : NoDup pairs.*2;
  inv_shims : ∀ s k, s ∈ pre → shim_key s = Some k →
    s ∈ default [] (pending !! k) ∨ s ∈ pairs.*1;
  inv_unmatched : ∀ s h k, precedes pre s h → shim_key s = Some k →
    helper_key h = Some k → h ∉ pairs.*2 → s ∈ pairs.*1;
}.

Lemma shim_not_helper (ev : CaptureEvent) (k : FlagKey) :
  shim_key ev = Some k → helper_key ev = None.
Proof. unfold shim_key, helper_key. by destruct (e_kind ev). Qed.

Lemma precedes_snoc {A} (l : list A) (a b x : A) :
  precedes (l ++ [x]) a b ↔ precedes l a b ∨ (a ∈ l ∧ b = x).
Proof.
  unfold precedes. split.
  - intros (u & v & w & H). destruct w as [|z w _] using rev_ind.
    + rewrite app_comm_cons, app_assoc in H. apply app_inj_tail in H as [-> ->].
      right. set_solver.
    + left. exists u, v, w.
      rewrite !app_comm_cons, !app_assoc in H. apply app_inj_tail in H as [-> _].
      by rewrite <- app_assoc.
  - intros [(u & v & w & ->)|[Ha ->]].
    + exists u, v, (w ++ [x]). by simplify_list_eq.
    + apply list_elem_of_split in Ha as (u & v & ->).
      exists u, v, []. by simplify_list_eq.
Qed.

Lemma precedes_elem {A} (l : list A) (a b : A) : precedes l a b → a ∈ l ∧ b ∈ l.
Proof. intros (x & y & z & ->). set_solver. Qed.

(** Adding a snapshot. *)
Lemma pairing_shim pre pend pairs ev k :
  pairing_inv pre pend pairs → ev ∉ pre → shim_key ev = Some k →
  pairing_inv (pre ++ [ev]) (<[k := default [] (pend !! k) ++ [ev]]> pend) pairs.
Proof.
  intros [Hp Hnd Hpr Hn1 Hn2 Hs Hu] Hfresh Hk.
  assert (Hfr : ev ∉ pairs.*1).
  { intros ([a b] & -> & Hin)%list_elem_of_fmap. destruct (Hpr _ _ Hin) as [Hprec _].
    apply precedes_elem in Hprec. naive_solver. }
  assert (Hin : ∀ s, s ∈ default [] (pend !! k) → s ∈ pre ∧ shim_key s = Some k ∧ s ∉ pairs.*1).
  { intros s. destruct (pend !! k) eqn:E; simpl; [eauto|set_solver]. }
  split; [| | |done|done| |].
  - intros k' l s. destruct (decide (k = k')) as [<-|].
    + rewrite lookup_insert_eq. intros [= <-]. rewrite elem_of_app, list_elem_of_singleton.
      intros [Hx| ->]; [destruct (Hin _ Hx)|]; set_solver.
    + rewrite lookup_insert_ne by done. intros Hl Hx. destruct (Hp _ _ _ Hl Hx). set_solver.
  - intros k' l. destruct (decide (k = k')) as [<-|]; [|rewrite lookup_insert_ne by done; eauto].
    rewrite lookup_insert_eq. intros [= <-]. rewrite NoDup_app. split_and!.
    + destruct (pend !! k) eqn:E; simpl; [eauto|constructor].
    + intros x Hx ->%list_elem_of_singleton. naive_solver.
    + apply NoDup_singleton.
  - intros s h Hsh. destruct (Hpr _ _ Hsh) as [? ?]. rewrite precedes_snoc. auto.
  - intros s k'. rewrite elem_of_app, list_elem_of_singleton. intros [Hx| ->] Hk'.
    + destruct (decide (k = k')) as [<-|]; [rewrite lookup_insert_eq|rewrite lookup_insert_ne by done].
      * destruct (Hs _ _ Hx Hk'); set_solver.
      * auto.
    + assert (k' = k) as -> by congruence. rewrite lookup_insert_eq. set_solver.
  - intros s h k' [Hprec|[_ ->]]%precedes_snoc Hsk Hhk; [eauto|].
    by rewrite (shim_not_helper _ _ Hk) in Hhk.
Qed.

(** A flags-only change that finds a snapshot. *)
Lemma pairing_match pre pend pairs ev k s r :
  pairing_inv pre pend pairs → ev ∉ pre → helper_key ev = Some k →
  pend !! k = Some (r ++ [s]) →
  pairing_inv (pre ++ [ev]) (<[k := r]> pend) ((s, ev) :: pairs).
Proof.
  intros [Hp Hnd Hpr Hn1 Hn2 Hs Hu] Hfresh Hk Hl.
  destruct (Hp k _ s Hl ltac:(set_solver)) as (Hsp & Hsk & Hsn).
  pose proof (Hnd _ _ Hl) as Hrs. apply NoDup_app in Hrs as (Hr & Hrs & _).
  assert (Hfr : ev ∉ pairs.*2).
  { intros ([a b] & -> & Hin)%list_elem_of_fmap. destruct (Hpr _ _ Hin) as [Hprec _].
    apply precedes_elem in Hprec. naive_solver. }
  split; cbn [fmap list_fmap fst snd].
  - intros k' l x. destruct (decide (k = k')) as [<-|].
    + rewrite lookup_insert_eq. intros [= <-] Hx.
      destruct (Hp k _ x Hl ltac:(set_solver)) as (? & ? & ?).
      split_and!; [set_solver|done|]. rewrite not_elem_of_cons. split; [|done].
      intros ->. apply (Hrs s); set_solver.
    + rewrite lookup_insert_ne by done. intros Hl' Hx. destruct (Hp _ _ _ Hl' Hx) as (? & ? & ?).
      split_and!; [set_solver|done|]. rewrite not_elem_of_cons. split; [congruence|done].
  - intros k' l. destruct (decide (k = k')) as [<-|]; [|rewrite lookup_insert_ne by done; eauto].
    rewrite lookup_insert_eq. by intros [= <-].
  - intros a h. rewrite elem_of_cons, precedes_snoc. intros [[= -> ->]|Hin]; [eauto 6|].
    destruct (Hpr _ _ Hin). eauto.
  - by constructor.
  - by constructor.
  - intros x k'. rewrite elem_of_app, list_elem_of_singleton, elem_of_cons. intros [Hx| ->] Hk'.
    + destruct (Hs _ _ Hx Hk') as [Hd|]; [|auto]. destruct (decide (k = k')) as [<-|].
      * rewrite Hl in Hd. simpl in Hd. rewrite lookup_insert_eq. set_solver.
      * rewrite lookup_insert_ne by done. auto.
    + by rewrite (shim_not_helper _ _ Hk') in Hk.
  - intros x h k' [Hprec|[_ ->]]%precedes_snoc Hsk' Hhk; rewrite !elem_of_cons; [|tauto].
    intros Hnot. right. eapply Hu; [done..|]. tauto.
Qed.

(** Any other event. *)
Lemma pairing_skip pre pend pairs ev :
  pairing_inv pre pend pairs → shim_key ev = None →
  (∀ k, helper_key ev = Some k → default [] (pend !! k) = []) →
  pairing_inv (pre ++ [ev]) pend pairs.
Proof.
  intros [Hp Hnd Hpr Hn1 Hn2 Hs Hu] Hsk Hhk. split; try done.
  - intros k l s Hl Hx. destruct (Hp _ _ _ Hl Hx). set_solver.
  - intros s h Hin. destruct (Hpr _ _ Hin). rewrite precedes_snoc. auto.
  - intros s k. rewrite elem_of_app, list_elem_of_singleton. intros [Hx| ->]; [auto|congruence].
  - intros s h k [Hprec|[Hin ->]]%precedes_snoc Hsk' Hhk'; [eauto|]. intros _.
    destruct (Hs _ _ Hin Hsk') as [Hx|]; [|done]. rewrite (Hhk _ Hhk') in Hx. set_solver.
Qed.

Lemma ghost_inv (events : list CaptureEvent) :
  NoDup events → pairing_inv events (ghost events).1 (ghost events).2.
Proof.
  unfold ghost. induction events as [|ev evs IH] using rev_ind.
  { intros _. split; simpl; try set_solver.
    - constructor.
    - constructor.
    - intros s h k (x & y & z & H). by destruct x. }
  intros (Hn & Hfr & _)%NoDup_app. specialize (IH Hn).
  assert (ev ∉ evs) as Hfresh by set_solver. clear Hfr.
  rewrite foldl_app. cbn [foldl].
  destruct (foldl ghost_step _ evs) as [pend pairs]. unfold ghost_step. cbn [fst snd] in *.
  destruct (shim_key ev) as [k|] eqn:Es; [by apply pairing_shim|].
  destruct (helper_key ev) as [k|] eqn:Eh; [|apply pairing_skip; by rewrite ?Eh].
  destruct (pend !! k) as [l|] eqn:El.
  - destruct (vec_pop l) as [[s r]|] eqn:Ev; cbn [fst snd].
    + apply vec_pop_Some in Ev as ->. by eapply pairing_match.
    + apply pairing_skip; [done..|]. intros k' Hk'. assert (k' = k) as -> by congruence. rewrite El. simpl.
      by apply vec_pop_None.
  - apply pairing_skip; [done..|]. intros k' Hk'. assert (k' = k) as -> by congruence. simpl. by rewrite El.
Qed.

(** The double capture of one chflags is recognised without losing any:
    the shim snapshots the pass drops correspond one to one to flags-only
    metadata changes that happened after them on the same inode with the same
    old flags value, and a flags-only change is left without a partner only
    when every earlier snapshot of its key already has one. *)
Theorem paired_flags_one_to_one (events : list CaptureEvent) (Hu : unique_ids events) :
  ∃ pairs : list (CaptureEvent * CaptureEvent),
    paired_flags_shim_events events = list_to_set (e_id ∘ fst <$> pairs)
    ∧ NoDup pairs.*1 ∧ NoDup pairs.*2
    ∧ (∀ s h, (s, h) ∈ pairs → precedes events s h
         ∧ ∃ k, shim_key s = Some k ∧ helper_key h = Some k)
    ∧ (∀ s h k, precedes events s h → shim_key s = Some k → helper_key h = Some k →
         h ∉ pairs.*2 → s ∈ pairs.*1).
Proof.
  exists (ghost events).2.
  destruct (ghost_inv events) as [_ _ Hpr Hn1 Hn2 _ Hun].
  { by apply (NoDup_fmap_1 e_id). }
  unfold paired_flags_shim_events. rewrite ghost_proj. auto 10.
Qed.

Definition ex_meta (flags : N) : FileMetadata := mkMeta 420 0 0 0 0 ∅ None flags.

Definition ex_shim (id : N) (flags : N) : CaptureEvent :=
  mkEvent (mkEventId id) (mkCommandId 1 1) (mkTime id 0) false
    (CaptureEventKind.FilePreImage (mkInode 1 2) (path_of_string "/f") (mkHash [])
       (ex_meta flags) None FilePreImageSource.ShimFlagsPreMutation).

Definition ex_change (id : N) (before after : N) : CaptureEvent :=
  mkEvent (mkEventId id) (mkCommandId 1 1) (mkTime id 0) false
    (CaptureEventKind.MetadataChange (mkInode 1 2) (path_of_string "/f")
       (ex_meta before) (ex_meta after)).

Definition ex_events : list CaptureEvent :=
  [ex_shim 1 0; ex_change 2 0 1; ex_shim 3 1; ex_shim 4 0; ex_change 5 1 0].

Lemma paired_flags_one_to_one_witness :
  unique_ids ex_events
  ∧ paired_flags_shim_events ex_events = {[mkEventId 1; mkEventId 3]}
  ∧ ∃ pairs : list (CaptureEvent * CaptureEvent),
      paired_flags_shim_events ex_events = list_to_set (e_id ∘ fst <$> pairs)
      ∧ NoDup pairs.*1.
Proof.
  assert (unique_ids ex_events) as Hu.
  { unfold unique_ids. apply (bool_decide_unpack _). vm_compute. exact I. }
  split; [exact Hu|]. split; [vm_compute; reflexivity|].
  destruct (paired_flags_one_to_one ex_events Hu) as (pairs & H1 & H2 & _).
  exists pairs. split; [exact H1|exact H2].
Defined.

End FlagPairs.
