(* ===== verification/Network.v ===== *)
(** * Network tools

    [network.rs]: how each tool's state is restored and which invocations
    mutate it, and the dispatch of [network_diff.rs]. The per-tool
    synthesisers, which read JSON dumps through [serde_json], are the
    operations of a record. *)

From S2P Require Import Prelude Base Events.

Module Network.

Inductive RestoreMethod := FullReload | DiffApply | DiffApplyWithReset.

Definition restore_method (tool : NetworkTool) : RestoreMethod :=
  match tool with
  | NetworkTool.Iptables | NetworkTool.Ip6tables => FullReload
  | NetworkTool.Nft => FullReload
  | NetworkTool.Pfctl => FullReload
  | NetworkTool.Ufw => DiffApplyWithReset
  | NetworkTool.IpRoute | NetworkTool.IpAddr | NetworkTool.IpLink
  | NetworkTool.Route | NetworkTool.Ifconfig | NetworkTool.Networksetup => DiffApply
  end.

(** The synthesisers of [network_diff.rs]: state before, state after, the
    invocations that lead back. *)
Record NetSynth := mkNetSynth {
  synthesise_ip_route : bytes → bytes → list (list string);
  synthesise_ip_addr : bytes → bytes → list (list string);
  synthesise_ip_link : bytes → bytes → list (list string);
  synthesise_networksetup : bytes → bytes → list (list string);
  synthesise_route : bytes → bytes → list (list string);
  synthesise_ifconfig : bytes → bytes → list (list string);
  synthesise_ufw_inverse : bytes → bytes → list (list string);
}.

(** [network_diff.rs]'s dispatch. *)
Definition synthesise_diff_apply_inverse (syn : NetSynth) (tool : NetworkTool)
    (before_state after_state : bytes) : list (list string) :=
  match tool with
  | NetworkTool.IpRoute => synthesise_ip_route syn before_state after_state
  | NetworkTool.IpAddr => synthesise_ip_addr syn before_state after_state
  | NetworkTool.IpLink => synthesise_ip_link syn before_state after_state
  | NetworkTool.Networksetup => synthesise_networksetup syn before_state after_state
  | NetworkTool.Route => synthesise_route syn before_state after_state
  | NetworkTool.Ifconfig => synthesise_ifconfig syn before_state after_state
  | NetworkTool.Iptables | NetworkTool.Ip6tables | NetworkTool.Nft
  | NetworkTool.Ufw | NetworkTool.Pfctl => []
  end.

(** ** Verb classifiers *)

Definition contains (verbs : list string) (a : string) : bool :=
  existsb (λ v, bool_decide (v = a)) verbs.

Definition first_is_some_and (f : string → bool) (args : list string) : bool :=
  match args with
  | [] => false
  | v :: _ => f v
  end.

Definition IPTABLES_MUTATING : list string :=
  ["-A"; "--append"; "-I"; "--insert"; "-D"; "--delete"; "-R"; "--replace";
   "-F"; "--flush"; "-X"; "--delete-chain"; "-N"; "--new-chain"; "-E";
   "--rename-chain"; "-P"; "--policy"; "-Z"; "--zero"].

Definition is_iptables_mutating (args : list string) : bool :=
  existsb (contains IPTABLES_MUTATING) args.

Definition NFT_MUTATING : list string :=
  ["add"; "delete"; "replace"; "create"; "rename"; "flush"; "insert"; "reset"; "destroy"].

Definition is_nft_mutating (args : list string) : bool :=
  first_is_some_and (contains NFT_MUTATING) args.

Definition UFW_MUTATING : list string :=
  ["enable"; "disable"; "reset"; "default"; "allow"; "deny"; "limit"; "reject";
   "insert"; "delete"; "logging"; "reload"].

Definition is_ufw_mutating (args : list string) : bool :=
  first_is_some_and (contains UFW_MUTATING) args.

Definition PFCTL_MUTATING : list string := ["-f"; "-F"; "-d"; "-e"; "-O"; "-R"; "-T"].

Definition is_pfctl_mutating (args : list string) : bool :=
  existsb (contains PFCTL_MUTATING) args.

Definition IP_MUTATING : list string :=
  ["add"; "del"; "delete"; "change"; "replace"; "flush"; "set"; "up"; "down"].

Definition starts_with_dash (a : string) : bool :=
  match a with
  | String c _ => bool_decide (c = "-"%char)
  | EmptyString => false
  end.

Fixpoint skip_while (f : string → bool) (args : list string) : list string :=
  match args with
  | [] => []
  | a :: args' => if f a then skip_while f args' else args
  end.

Definition is_ip_mutating (args : list string) : bool :=
  match skip_while starts_with_dash args with
  | _obj :: v :: _ => contains IP_MUTATING v
  | _ => false
  end.

(** ** Lemmas *)

Lemma contains_spec (verbs : list string) (a : string) :
  contains verbs a = true ↔ a ∈ verbs.
Proof.
  unfold contains. rewrite existsb_elem. setoid_rewrite bool_decide_eq_true. naive_solver.
Qed.

(** Options before the object never change the verdict on an [ip] call. *)
Lemma is_ip_mutating_options (opts args : list string) :
  forallb starts_with_dash opts = true →
  is_ip_mutating (opts ++ args) = is_ip_mutating args.
Proof.
  unfold is_ip_mutating. induction opts as [|o opts IH]; [done|]. simpl.
  rewrite andb_true_iff. intros [-> Ho]. by apply IH.
Qed.

Example is_ip_mutating_ex : is_ip_mutating ["-6"; "addr"; "add"; "fe80::1/64"] = true.
Proof. reflexivity. Qed.

Example is_ip_mutating_show : is_ip_mutating ["-j"; "addr"; "show"] = false.
Proof. reflexivity. Qed.

End Network.
