(* ===== verification/Plan.v ===== *)
(** * The undo planner

    [plan.rs]: from the events of one command, a probe of the live file
    system and the store's blob presence to an [UndoPlan]. One definition per
    arm of [emit_for_event]; an emitter returns the nodes and warnings the
    code pushes. *)

From S2P Require Import Prelude Paths Base Events Inverse Refuse Cohort.
From S2P Require Import ShellRender Probe Classify FlagPairs Network.

Module Plan.
Import Classify.

Abbreviation Emitted := (list PlanNode * list PlanWarning)%type.

Definition emit1 (op : InverseOp) (conflict : option Conflict) : Emitted :=
  ([node op conflict], []).

Definition informational (t : InverseTier) (m : Msg) : PlanWarning :=
  PlanWarning.Informational t m.

(** ** Helpers *)

Definition is_flags_only_event (ev : CaptureEvent) : bool :=
  match e_kind ev with
  | CaptureEventKind.FilePreImage _ _ _ _ _ source => is_shim_flags source
  | CaptureEventKind.MetadataChange _ _ before after => only_flags_changed before after
  | _ => false
  end.

Definition event_path (ev : CaptureEvent) : option PathBuf :=
  match e_kind ev with
  | CaptureEventKind.FilePreImage _ path _ _ _ _ => Some path
  | CaptureEventKind.MetadataChange _ path _ _ => Some path
  | CaptureEventKind.FileAppendPreStash _ path _ => Some path
  | CaptureEventKind.TreeOp (TreeOp.Create _ path _ _)
  | CaptureEventKind.TreeOp (TreeOp.Unlink _ path _ _)
  | CaptureEventKind.TreeOp (TreeOp.Symlink _ path)
  | CaptureEventKind.TreeOp (TreeOp.SymlinkRemoved _ path) => Some path
  | _ => None
  end.

Definition no_longer_exists (path : PathBuf) : Conflict :=
  Conflict.Missing [PathDisplay path; Lit " no longer exists"].

Definition file_path_conflict (path : PathBuf) (expected_inode : InodeRef)
    (probe : StateProbe) : option Conflict :=
  match stat probe path with
  | None => Some (no_longer_exists path)
  | Some s =>
      if negb (bool_decide (s_inode s = expected_inode)) then
        Some (Conflict.Phantom
          [PathDisplay path; Lit " now points at inode "; InodeDisplay (s_inode s);
           Lit " (was "; InodeDisplay expected_inode; Lit ")"])
      else None
  end.

Definition engine_label (e : DbEngine) : string :=
  match e with
  | DbEngine.Postgres => "psql"
  | DbEngine.Mysql => "mysql"
  | DbEngine.Sqlite3 => "sqlite3"
  end.

(** [str::trim] on ASCII text. *)
Fixpoint trim_start (s : string) : string :=
  match s with
  | String c s' => if Ascii.is_space c then trim_start s' else s
  | EmptyString => ""
  end.

Fixpoint trim_end (s : string) : string :=
  match s with
  | EmptyString => ""
  | String c s' =>
      match trim_end s' with
      | EmptyString => if Ascii.is_space c then "" else String c ""
      | t => String c t
      end
  end.

Definition trim (s : string) : string := trim_end (trim_start s).

Definition native_delegation_for (manager : PackageManager)
    (repo_state_hint : option string) : option NativeDelegation :=
  match repo_state_hint with
  | None => None
  | Some hint =>
      let id := trim hint in
      if bool_decide (id = "") then None
      else match manager with
      | PackageManager.Apt => Some (mkNativeDelegation
          ["apt"; "history-rollback"; id] true
          (Some ["apt"; "history"; "list"]) (Some (id +:+ ":")))
      | PackageManager.Dnf => Some (mkNativeDelegation
          ["dnf"; "history"; "undo"; "-y"; id] true
          (Some ["dnf"; "history"; "list"; "--reverse"]) (Some (id +:+ " ")))
      | PackageManager.Dpkg | PackageManager.Pacman
      | PackageManager.Brew | PackageManager.Pkg => None
      end
  end.

(** ** Tree operations *)

Definition emit_create (path : PathBuf) (probe : StateProbe)
    (class : EventClassification) : list PlanNode :=
  if inb path (atomic_replace_paths class) then []
  else if inb path (rename_subsumed_creates class) then []
  else if inb path (spurious_creates_with_preimage class) then []
  else
    let conflict :=
      match stat probe path with
      | None => Some (Conflict.Missing
          [PathDisplay path; Lit " already gone; unlink will no-op"])
      | Some _ => None
      end in
    [node (InverseOp.Unlink path) conflict].

Definition emit_unlink (path : PathBuf) (kind : FileKind) (mode : N)
    (probe : StateProbe) (class : EventClassification) : list PlanNode :=
  if inb path (atomic_replace_paths class) then []
  else match hardlink_dead_to_source class !! path with
  | Some source =>
      let conflict := (λ _, Conflict.Phantom
        [PathDisplay path;
         Lit " exists now but didn't expect it to; hardlink restore aborted"])
        <$> stat probe path in
      [node (InverseOp.CreateHardlink source path) conflict]
  | None =>
      let conflict := (λ _, Conflict.Phantom
        [PathDisplay path; Lit " exists now but didn't expect it to"])
        <$> stat probe path in
      [node (InverseOp.RecreatePath path kind mode) conflict]
  end.

Definition emit_for_tree_op (op : TreeOp) (probe : StateProbe)
    (class : EventClassification) : list PlanNode :=
  match op with
  | TreeOp.Create _ path _ _ => emit_create path probe class
  | TreeOp.Unlink _ path kind mode => emit_unlink path kind mode probe class
  | TreeOp.Rename from to _ =>
      if inb to (atomic_replace_paths class) then []
      else [node (InverseOp.Rename to from) None]
  | TreeOp.Link _ target => [node (InverseOp.Unlink target) None]
  | TreeOp.Symlink _ path => [node (InverseOp.Unlink path) None]
  | TreeOp.SymlinkRemoved target path =>
      [node (InverseOp.CreateSymlink target path) None]
  end.

(** ** File events *)

(** The restore path of a flags inverse: through the surviving alias. *)
Definition flags_path (class : EventClassification) (path : PathBuf) : PathBuf :=
  default path (hardlink_dead_to_source class !! path).

Definition emit_restore_flags (inode : InodeRef) (path : PathBuf) (flags : N)
    (probe : StateProbe) (class : EventClassification) : list PlanNode :=
  let restore_path := flags_path class path in
  [node (InverseOp.RestoreFlags inode restore_path flags)
     (file_path_conflict restore_path inode probe)].

(** The conflict of a content restore, before the blob check. *)
Definition pre_image_conflict (inode : InodeRef) (path : PathBuf)
    (probe : StateProbe) (class : EventClassification) : option Conflict :=
  if inb path (atomic_replace_paths class) then
    match stat probe path with
    | Some _ => None
    | None => if parent_alive probe path then None else Some (no_longer_exists path)
    end
  else file_path_conflict path inode probe.

Definition blob_conflict (blob : BlobHash) (store : PlannerStore)
    (conflict : option Conflict) : option Conflict :=
  match conflict, blob_size_hint store blob with
  | None, None => Some (Conflict.Missing
      [Lit "blob "; BlobDisplay blob; Lit " no longer in store (GC'd or evicted)"])
  | _, _ => conflict
  end.

Definition post_image_conflict (path : PathBuf) (post_content_hash : option BlobHash)
    (probe : StateProbe) (conflict : option Conflict) : option Conflict :=
  match conflict, post_content_hash, content_hash probe path with
  | None, Some expected_post, Some current =>
      if negb (bool_decide (current = expected_post)) then
        Some (Conflict.Hard [PathDisplay path;
          Lit " has been modified since the original command; restore would overwrite the later edits"])
      else None
  | _, _, _ => conflict
  end.

Definition emit_file_pre_image (ev : CaptureEvent) (inode : InodeRef)
    (path : PathBuf) (blob : BlobHash) (meta : FileMetadata)
    (post_content_hash : option BlobHash) (source : FilePreImageSource)
    (probe : StateProbe) (store : PlannerStore) (class : EventClassification)
    : list PlanNode :=
  if is_shim_flags source then
    if inb (e_id ev) (paired_flags_shims class) then []
    else emit_restore_flags inode path (m_flags meta) probe class
  else if bool_decide (is_Some (hardlink_dead_to_source class !! path)) then []
  else
    let conflict := pre_image_conflict inode path probe class in
    let conflict := blob_conflict blob store conflict in
    let conflict := post_image_conflict path post_content_hash probe conflict in
    [node (InverseOp.RestoreContent inode path blob) conflict;
     node (InverseOp.RestoreMetadata inode path meta) conflict].

Definition emit_metadata_change (inode : InodeRef) (path : PathBuf)
    (before after : FileMetadata) (probe : StateProbe)
    (class : EventClassification) : list PlanNode :=
  let conflict := file_path_conflict path inode probe in
  if only_flags_changed before after then
    emit_restore_flags inode path (m_flags before) probe class
  else [node (InverseOp.RestoreMetadata inode path before) conflict].

Definition emit_append (inode : InodeRef) (path : PathBuf) (pre_size : N)
    (probe : StateProbe) : list PlanNode :=
  [node (InverseOp.FileExtend path pre_size) (file_path_conflict path inode probe)].

(** ** Shell and environment *)

Definition to_opt_diff (d : string * string * string) : OptDiff :=
  let '(name, pre, post) := d in mkOptDiff name pre post.

Definition to_alias_diff (d : string * option string * option string) : AliasDiff :=
  let '(name, pre, post) := d in mkAliasDiff name pre post.

Definition to_func_diff (d : string * option string * option string) : FuncDiff :=
  let '(name, pre, post) := d in mkFuncDiff name pre post.

Definition nil_b {A} (l : list A) : bool := match l with [] => true | _ => false end.

Definition emit_shell_state (pwd_before pwd_after : PathBuf)
    (opts : list (string * string * string))
    (aliases funcs : list (string * option string * option string))
    : list PlanNode :=
  let pwd_changed := negb (bool_decide (pwd_before = pwd_after)) in
  if negb pwd_changed && nil_b opts && nil_b aliases && nil_b funcs then []
  else
    let pwd_for_render := if pwd_changed then Some pwd_before else None in
    let opts_diff := to_opt_diff <$> opts in
    let aliases_diff := to_alias_diff <$> aliases in
    let funcs_diff := to_func_diff <$> funcs in
    [node (InverseOp.ShellStateRestore
       (if pwd_changed then Some pwd_before else None)
       opts_diff aliases_diff funcs_diff
       (Some (ShellRender.render_bash pwd_for_render opts_diff aliases_diff funcs_diff))
       (Some (ShellRender.render_zsh pwd_for_render opts_diff aliases_diff funcs_diff))
       (Some (ShellRender.render_fish pwd_for_render opts_diff aliases_diff funcs_diff)))
     None].

Definition emit_env_diff (added removed : gmap string string)
    (modified : gmap string (string * string)) : list PlanNode :=
  ((λ kv, node (InverseOp.UnsetEnv kv.1) None) <$> btree_iter added)
  ++ ((λ kv, node (InverseOp.SetEnv kv.1 kv.2) None) <$> btree_iter removed)
  ++ ((λ kv, node (InverseOp.SetEnv kv.1 kv.2.1) None) <$> btree_iter modified).

(** ** System tiers *)

Definition emit_package (manager : PackageManager) (op : PackageOpKind)
    (packages_before packages_after : gmap string string)
    (repo_state_hint : option string) : Emitted :=
  let delegation := native_delegation_for manager repo_state_hint in
  emit1 (InverseOp.PackageRollback manager op packages_before packages_after
           repo_state_hint delegation) None.

(** [{tool:?}]. *)
Definition network_tool_debug (tool : NetworkTool) : Piece :=
  DebugVariant (match tool with
    | NetworkTool.Iptables => "Iptables" | NetworkTool.Ip6tables => "Ip6tables"
    | NetworkTool.Nft => "Nft" | NetworkTool.Ufw => "Ufw"
    | NetworkTool.Pfctl => "Pfctl" | NetworkTool.IpRoute => "IpRoute"
    | NetworkTool.IpAddr => "IpAddr" | NetworkTool.IpLink => "IpLink"
    | NetworkTool.Route => "Route" | NetworkTool.Ifconfig => "Ifconfig"
    | NetworkTool.Networksetup => "Networksetup"
    end) [].

Definition emit_network (syn : Network.NetSynth) (tool : NetworkTool)
    (before_state after_state : bytes) (inverse_invocations : list (list string))
    : Emitted :=
  let '(invs, warns) :=
    match inverse_invocations with
    | _ :: _ => (inverse_invocations, [])
    | [] =>
        let invs :=
          match Network.restore_method tool with
          | Network.DiffApply =>
              Network.synthesise_diff_apply_inverse syn tool before_state after_state
          | Network.DiffApplyWithReset =>
              if bool_decide (tool = NetworkTool.Ufw)
              then Network.synthesise_ufw_inverse syn before_state after_state
              else []
          | Network.FullReload => []
          end in
        (invs,
         if nil_b invs then
           [informational InverseTier.Network
              [Lit "no DiffApply inverse synthesised for "; network_tool_debug tool;
               Lit "; review captured before/after states for manual rollback"]]
         else [])
    end in
  ([node (InverseOp.NetworkRollback tool before_state invs) None], warns).

Definition emit_systemd (scope : SystemdScope) (unit : string)
    (before after : ServiceState) : Emitted :=
  emit1 (InverseOp.SystemdRollback scope unit before after) None.

Definition emit_process (argv : list string) (cwd : PathBuf)
    (env_summary : gmap string string) : Emitted :=
  ([node (InverseOp.ProcessNote argv cwd env_summary
      [Lit "process lifecycle is informational — undo cannot resurrect"]) None],
   [informational InverseTier.Processes
      [Lit "process events cannot be mechanically undone"]]).

Definition rollback_hint_for (engine : DbEngine) (target : string)
    (statements : list string) (transaction_state : DbTxState) : RollbackHint :=
  match engine with
  | DbEngine.Postgres => RollbackHint.Postgres
      (bool_decide (transaction_state = DbTxState.Committed)) None statements
  | DbEngine.Mysql => RollbackHint.Mysql None statements
  | DbEngine.Sqlite3 => RollbackHint.Sqlite (path_of_string target) None
  end.

Definition emit_db (engine : DbEngine) (target : string) (statements : list string)
    (transaction_state : DbTxState) : Emitted :=
  let rollback_hint := rollback_hint_for engine target statements transaction_state in
  if bool_decide (transaction_state = DbTxState.RolledBack) then
    ([], [informational InverseTier.Database
       [Lit (engine_label engine); Lit " statements observed against `"; Lit target;
        Lit "` but engine rolled back"]])
  else
    ([node (InverseOp.DbNote engine target statements rollback_hint) None],
     [informational InverseTier.Database
       [Lit (engine_label engine); Lit " statements against `"; Lit target;
        Lit "` need manual rollback review"]]).

Definition emit_container (runtime : ContainerRuntime) (op : ContainerOp)
    (captured_config : bytes) (stash_image : option string)
    (stash_tarball : option BlobHash) : Emitted :=
  emit1 (InverseOp.ContainerRestore runtime op captured_config stash_image stash_tarball
    (match op with ContainerOp.Rm _ _ _ => true | _ => false end)) None.

Definition emit_kubectl (context : string) (namespace : option string)
    (op : KubectlOp) (captured_yaml : bytes) : Emitted :=
  emit1 (InverseOp.KubectlReverse context namespace op captured_yaml true) None.

Definition emit_terraform (workdir : PathBuf) (op : TerraformOp)
    (prior_state : bytes) : Emitted :=
  emit1 (InverseOp.TerraformReverse workdir op prior_state None true) None.

Definition emit_gh (op : GhOp) (captured_json : bytes) : Emitted :=
  emit1 (InverseOp.GhReverse op captured_json true) None.

Definition emit_capture_refused (class : string) (path : PathBuf) (detail : string)
    : Emitted :=
  emit1 (InverseOp.Refuse class
    [Lit "capture incomplete for "; PathDisplay path; Lit ": "; Lit detail]
    (Some [Lit "Re-run the command from a directory whose parent path exists; shit cannot reverse this path because the shim could not resolve an absolute path to attribute the captured pre-image to."]))
    None.

(** ** emit_for_event *)

Section Emit.
Context (syn : Network.NetSynth).

Definition emit_for_event (ev : CaptureEvent) (probe : StateProbe)
    (store : PlannerStore) (class : EventClassification) : Emitted :=
  match e_kind ev with
  | CaptureEventKind.FilePreImage inode path blob meta post source =>
      (emit_file_pre_image ev inode path blob meta post source probe store class, [])
  | CaptureEventKind.MetadataChange inode path before after =>
      (emit_metadata_change inode path before after probe class, [])
  | CaptureEventKind.FileAppendPreStash inode path pre_size =>
      (emit_append inode path pre_size probe, [])
  | CaptureEventKind.TreeOp op => (emit_for_tree_op op probe class, [])
  | CaptureEventKind.ShellStateDiff pwd_before pwd_after opts aliases funcs =>
      (emit_shell_state pwd_before pwd_after opts aliases funcs, [])
  | CaptureEventKind.EnvDiff added removed modified =>
      (emit_env_diff added removed modified, [])
  | CaptureEventKind.PackageOp manager op before after hint =>
      emit_package manager op before after hint
  | CaptureEventKind.NetworkOp tool before after invs =>
      emit_network syn tool before after invs
  | CaptureEventKind.SystemdOp scope unit before after =>
      emit_systemd scope unit before after
  | CaptureEventKind.ProcessOp _ _ argv cwd env_summary _ _ =>
      emit_process argv cwd env_summary
  | CaptureEventKind.DbOp engine target statements tx =>
      emit_db engine target statements tx
  | CaptureEventKind.ContainerOp runtime op config image tarball =>
      emit_container runtime op config image tarball
  | CaptureEventKind.KubectlOp context namespace op yaml =>
      emit_kubectl context namespace op yaml
  | CaptureEventKind.TerraformOp workdir op prior => emit_terraform workdir op prior
  | CaptureEventKind.GhOp op json => emit_gh op json
  | CaptureEventKind.CaptureRefused cls path detail =>
      emit_capture_refused cls path detail
  end.

(** The two event-level skips of the main loop. *)
Definition skipped (ev : CaptureEvent) (class : EventClassification) : bool :=
  match event_path ev with
  | Some p =>
      inb p (transient_paths class)
      || (inb p (hardlink_live_paths class) && negb (is_flags_only_event ev))
  | None => false
  end.

Definition emit_or_skip (probe : StateProbe) (store : PlannerStore)
    (class : EventClassification) (ev : CaptureEvent) : Emitted :=
  if skipped ev class then ([], []) else emit_for_event ev probe store class.

(** ** plan *)

Definition live_events (events : list CaptureEvent) : list CaptureEvent :=
  List.filter (λ e, negb (e_partial e)) events.

(** [live.sort_by_key(|e| Reverse((e.ts, e.id)))]. *)
Definition reverse_chronological (events : list CaptureEvent) : list CaptureEvent :=
  sort_by (λ a b, leb_of event_cmp b a) events.

Definition initial_warnings (command : CommandRecord) (events : list CaptureEvent)
    : list PlanWarning :=
  let partial_count := length (List.filter e_partial events) in
  (if bool_decide (0 < partial_count) then [PlanWarning.PartialEvents partial_count] else [])
  ++ match c_ended_at command with
     | None => [PlanWarning.UnclosedCommand]
     | Some _ => []
     end.

Context (ord : HashOrder InodeRef (gset PathBuf)).

Definition set_paired (class : EventClassification) (ids : gset EventId)
    : EventClassification :=
  mkClass (atomic_replace_paths class) (transient_paths class)
    (rename_subsumed_creates class) (spurious_creates_with_preimage class)
    (hardlink_live_paths class) (hardlink_dead_to_source class) ids.

Definition classify (live : list CaptureEvent) (probe : StateProbe)
    : EventClassification :=
  set_paired (classify_replace_paths ord live probe)
    (FlagPairs.paired_flags_shim_events (rev live)).

(** The refuse-list short circuit. *)
Definition refuse_plan (command : CommandRecord) : option UndoPlan :=
  match c_cmd_string command with
  | None => None
  | Some cmd_str =>
      match Refuse.match_command cmd_str with
      | None => None
      | Some entry => Some (mkPlan command
          [node (InverseOp.Refuse (Refuse.class entry) [Lit (Refuse.reason entry)]
             ((λ r, [Lit r]) <$> Refuse.remediation entry)) None] [])
      end
  end.

Definition plan (command : CommandRecord) (events : list CaptureEvent)
    (probe : StateProbe) (store : PlannerStore) : UndoPlan :=
  match refuse_plan command with
  | Some p => p
  | None =>
      let live := reverse_chronological (live_events events) in
      let class := classify live probe in
      let emitted := emit_or_skip probe store class <$> live in
      mkPlan command
        (Cohort.assign_cohorts (concat emitted.*1)).1
        (initial_warnings command events ++ concat emitted.*2)
  end.

End Emit.

End Plan.
