(* ===== verification/PlanFacts.v ===== *)
(** * Properties of the undo planner

    Where the nodes of a plan come from, and the theorems on [plan]: what it
    never deletes, when a content restore is free of conflict, that no
    captured pre-image is lost, and that the plan is a function of the set of
    events. *)

From S2P Require Import Prelude Paths Base Events Inverse Refuse Cohort.
From S2P Require Import Probe Classify FlagPairs Network Plan.

Module PlanFacts.
Import Classify Plan.

Section Facts.
Context (syn : Network.NetSynth) (ord : HashOrder InodeRef (gset PathBuf)).

(** The classification [plan] works with. *)
Definition plan_class (events : list CaptureEvent) (probe : StateProbe)
    : EventClassification :=
  classify ord (reverse_chronological (live_events events)) probe.

Lemma elem_of_live (events : list CaptureEvent) (ev : CaptureEvent) :
  ev ∈ reverse_chronological (live_events events) ↔ ev ∈ events ∧ e_partial ev = false.
Proof.
  unfold reverse_chronological, live_events.
  by rewrite elem_of_sort_by, elem_of_list_filter, negb_true_iff.
Qed.

(** Every node of an unrefused plan was emitted for a live, unskipped event. *)
Lemma plan_node_origin (command : CommandRecord) (events : list CaptureEvent)
    (probe : StateProbe) (store : PlannerStore) (n : PlanNode) :
  refuse_plan command = None →
  n ∈ p_nodes (plan syn ord command events probe store) →
  ∃ ev n', ev ∈ events ∧ e_partial ev = false
    ∧ skipped ev (plan_class events probe) = false
    ∧ n' ∈ (emit_for_event syn ev probe store (plan_class events probe)).1
    ∧ n_op n' = n_op n ∧ n_conflict n' = n_conflict n.
Proof.
  intros Hr Hn. unfold plan in Hn. rewrite Hr in Hn. cbn [p_nodes] in Hn.
  apply Cohort.elem_of_assign_cohorts in Hn as (n' & Hn' & Hop & Hc).
  apply list_elem_of_In, in_concat in Hn' as (l & Hl & Hn').
  apply list_elem_of_In in Hl, Hn'. apply list_elem_of_fmap in Hl as (em & -> & Hem).
  apply list_elem_of_fmap in Hem as (ev & -> & Hev). apply elem_of_live in Hev as [Hev Hp].
  unfold emit_or_skip in Hn'. fold (plan_class events probe) in Hn'.
  destruct (skipped ev (plan_class events probe)) eqn:Hs; [by apply elem_of_nil in Hn'|].
  exists ev, n'. auto 10.
Qed.

(** Conversely, what a live unskipped event emits is in the plan. *)
Lemma plan_node_intro (command : CommandRecord) (events : list CaptureEvent)
    (probe : StateProbe) (store : PlannerStore) (ev : CaptureEvent) (n' : PlanNode) :
  refuse_plan command = None →
  ev ∈ events → e_partial ev = false →
  skipped ev (plan_class events probe) = false →
  n' ∈ (emit_for_event syn ev probe store (plan_class events probe)).1 →
  ∃ n, n ∈ p_nodes (plan syn ord command events probe store)
    ∧ n_op n = n_op n' ∧ n_conflict n = n_conflict n'.
Proof.
  intros Hr Hev Hp Hs Hn'. unfold plan. rewrite Hr. cbn [p_nodes].
  set (emitted := concat _).
  assert (n' ∈ emitted) as Hin.
  { subst emitted. rewrite list_elem_of_In, in_concat.
    exists (emit_or_skip syn probe store (plan_class events probe) ev).1. split.
    - apply list_elem_of_In. rewrite <- list_fmap_compose. apply list_elem_of_fmap.
      exists ev. split; [done|]. by apply elem_of_live.
    - apply list_elem_of_In. unfold emit_or_skip. by rewrite Hs. }
  apply (list_elem_of_fmap_2 (λ n, (n_op n, n_conflict n))) in Hin.
  rewrite <- Cohort.assign_cohorts_ops in Hin.
  apply list_elem_of_fmap in Hin as (n & [= Ho Hc] & Hn). exists n. auto.
Qed.

(** ** Deletions *)

(** The event creates [p] as a link, which the planner always unlinks. *)
Definition ev_links (p : PathBuf) (ev : CaptureEvent) : Prop :=
  (∃ i, e_kind ev = CaptureEventKind.TreeOp (TreeOp.Link i p))
  ∨ (∃ t, e_kind ev = CaptureEventKind.TreeOp (TreeOp.Symlink t p)).

Lemma elem_of_emit_create (path : PathBuf) (probe : StateProbe)
    (class : EventClassification) (n : PlanNode) :
  n ∈ emit_create path probe class →
  n_op n = InverseOp.Unlink path ∧ path ∉ atomic_replace_paths class
  ∧ path ∉ rename_subsumed_creates class ∧ path ∉ spurious_creates_with_preimage class.
Proof.
  unfold emit_create. repeat case_bool_decide; rewrite ?elem_of_nil; try done.
  by intros ->%list_elem_of_singleton.
Qed.

Lemma elem_of_emit_unlink (path : PathBuf) (kind : FileKind) (mode : N) (probe : StateProbe)
    (class : EventClassification) (n : PlanNode) :
  n ∈ emit_unlink path kind mode probe class →
  path ∉ atomic_replace_paths class ∧
  (n_op n = InverseOp.RecreatePath path kind mode
   ∨ ∃ src, hardlink_dead_to_source class !! path = Some src
       ∧ n_op n = InverseOp.CreateHardlink src path).
Proof.
  unfold emit_unlink. case_bool_decide; rewrite ?elem_of_nil; try done.
  case_match; intros ->%list_elem_of_singleton; eauto 10.
Qed.

(** An event that is not a tree operation emits no tree-shaped inverse. *)
Lemma non_tree_ops (ev : CaptureEvent) (probe : StateProbe) (store : PlannerStore)
    (class : EventClassification) (n : PlanNode) :
  n ∈ (emit_for_event syn ev probe store class).1 →
  (∀ op, e_kind ev ≠ CaptureEventKind.TreeOp op) →
  match n_op n with
  | InverseOp.Unlink _ | InverseOp.RecreatePath _ _ _ | InverseOp.Rename _ _
  | InverseOp.CreateSymlink _ _ | InverseOp.CreateHardlink _ _ => False
  | _ => True
  end.
Proof.
  intros Hn Hk. unfold emit_for_event in Hn.
  destruct (e_kind ev); cbn [fst snd] in Hn; try (by destruct (Hk op));
  unfold emit_file_pre_image, emit_metadata_change, emit_restore_flags, emit_append,
    emit_shell_state, emit_env_diff, emit_package, emit_network, emit_systemd, emit_process,
    emit_db, emit_container, emit_terraform, emit_kubectl, emit_gh, emit_capture_refused,
    emit1 in Hn; cbn [fst snd] in Hn.
  all: repeat rewrite elem_of_app, ?list_elem_of_fmap in Hn.
  all: repeat match type of Hn with
    | context [match ?x with _ => _ end] => destruct x; cbn [fst snd] in Hn
    end.
  all: set_solver.
Qed.

(** An unlink inverse stems from a create or a link event. *)
Lemma unlink_origin (ev : CaptureEvent) (probe : StateProbe) (store : PlannerStore)
    (class : EventClassification) (n : PlanNode) (p : PathBuf) :
  n ∈ (emit_for_event syn ev probe store class).1 → n_op n = InverseOp.Unlink p →
  ev_links p ev ∨ (ev_creates p ev ∧ p ∉ atomic_replace_paths class
    ∧ p ∉ rename_subsumed_creates class ∧ p ∉ spurious_creates_with_preimage class).
Proof.
  intros Hn Hop. pose proof (non_tree_ops _ _ _ _ _ Hn) as Hnt. rewrite Hop in Hnt.
  unfold emit_for_event in Hn.
  destruct (e_kind ev) as [| | |op| | | | | | | | | | | |] eqn:Ek; try (by destruct Hnt).
  clear Hnt. cbn [fst emit_for_tree_op] in Hn. unfold ev_links, ev_creates. rewrite Ek.
  destruct op; cbn [emit_for_tree_op] in Hn.
  - apply elem_of_emit_create in Hn as (H1 & ?). right.
    assert (path = p) as -> by congruence. eauto 10.
  - apply elem_of_emit_unlink in Hn as (_ & [H|(src & _ & H)]); congruence.
  - case_bool_decide; rewrite ?elem_of_nil, ?list_elem_of_singleton in Hn; [done|by subst].
  - apply list_elem_of_singleton in Hn as ->. simplify_eq/=. eauto.
  - apply list_elem_of_singleton in Hn as ->. simplify_eq/=. eauto.
  - apply list_elem_of_singleton in Hn as ->. done.
Qed.
(** A created path with a pre-command snapshot is accounted for. *)
Lemma snapshotted_create (evs : list CaptureEvent) (probe : StateProbe) (p : PathBuf) :
  p ∈ creates (scan evs) → p ∈ pre_command_pre_images (scan evs) →
  p ∈ atomic_of (scan evs) probe ∨ p ∈ transient_of (scan evs) probe
  ∨ p ∈ select (spurious_create (scan evs) probe) (creates (scan evs)).
Proof.
  intros Hc Hs. pose proof (pre_command_sub evs p Hs) as Hi.
  destruct (replace_verdict (scan evs) probe p) eqn:Ev.
  - assert (p ∉ unlinks (scan evs)) as Hu.
    { unfold replace_verdict in Ev. repeat case_bool_decide; try done; simpl in Ev;
      repeat case_match; done. }
    destruct (exists_ probe p) eqn:Ex; class_simpl; tauto.
  - left. class_simpl. set_solver.
  - right; left. class_simpl. set_solver.
Qed.

Lemma plan_class_sets (events : list CaptureEvent) (probe : StateProbe) :
  let s := scan (reverse_chronological (live_events events)) in
  let class := plan_class events probe in
  atomic_replace_paths class = atomic_of s probe
  ∧ transient_paths class = transient_of s probe
  ∧ spurious_creates_with_preimage class = select (spurious_create s probe) (creates s)
  ∧ hardlink_dead_to_source class = (hardlinks ord s probe).2
  ∧ hardlink_live_paths class = (hardlinks ord s probe).1.
Proof.
  unfold plan_class, classify, classify_replace_paths. cbn zeta.
  by destruct (hardlinks ord _ probe).
Qed.

(** A refused plan restores nothing and deletes nothing. *)
Lemma refuse_plan_nodes (command : CommandRecord) (p : UndoPlan) (n : PlanNode) :
  refuse_plan command = Some p → n ∈ p_nodes p → tier (n_op n) = InverseTier.Refuse.
Proof.
  unfold refuse_plan. repeat case_match; try done. intros [= <-] ->%list_elem_of_singleton. done.
Qed.

(** C18. Undo does not delete a file that provably existed before the command:
    when some complete event carries a snapshot of [p] taken before the
    command ran, and no complete event says that the command made a symbolic
    or hard link at [p], the plan has no unlink of [p], whatever creates,
    renames and unlinks of [p] were observed around it. A link at [p] is
    unlinked whatever there was before. *)
Theorem plan_never_deletes_snapshotted (command : CommandRecord)
    (events : list CaptureEvent) (probe : StateProbe) (store : PlannerStore)
    (p : PathBuf) (n : PlanNode) :
  (∃ ev, ev ∈ events ∧ e_partial ev = false ∧ ev_snapshot p ev) →
  (∀ ev, ev ∈ events → e_partial ev = false → ¬ ev_links p ev) →
  n ∈ p_nodes (plan syn ord command events probe store) →
  n_op n ≠ InverseOp.Unlink p.
Proof.
  intros (es & Hes & Hps & Hsnap) Hnl Hn Hop.
  destruct (refuse_plan command) as [rp|] eqn:Hr.
  { unfold plan in Hn. rewrite Hr in Hn. apply (refuse_plan_nodes _ _ _ Hr) in Hn.
    by rewrite Hop in Hn. }
  apply plan_node_origin in Hn as (ev & n' & Hev & Hp & Hsk & Hn' & Ho & _); [|done].
  rewrite Hop in Ho. destruct (unlink_origin _ _ _ _ _ p Hn' Ho) as [Hl|(Hcr & Ha & _ & Hsp)];
    [by eapply Hnl|].
  destruct (plan_class_sets events probe) as (Ea & Et & Es & _).
  rewrite Ea in Ha. rewrite Es in Hsp.
  assert (p ∉ transient_paths (plan_class events probe)) as Ht.
  { destruct Hcr as (i & k & m & Hk). unfold skipped, event_path in Hsk. rewrite Hk in Hsk.
    apply orb_false_iff in Hsk as [Hsk _]. by apply bool_decide_eq_false in Hsk. }
  rewrite Et in Ht.
  edestruct (snapshotted_create (reverse_chronological (live_events events)) probe p)
    as [|[|]]; [..|done|done|done].
  - apply elem_of_creates. exists ev. by rewrite elem_of_live.
  - apply elem_of_pre_command. exists es. by rewrite elem_of_live.
Qed.

(** ** Content restores *)

Lemma pre_image_conflict_none (inode : InodeRef) (path : PathBuf) (probe : StateProbe)
    (class : EventClassification) :
  pre_image_conflict inode path probe class = None →
  (∃ s, stat probe path = Some s ∧
    (s_inode s = inode ∨ path ∈ atomic_replace_paths class))
  ∨ (stat probe path = None ∧ path ∈ atomic_replace_paths class
     ∧ parent_alive probe path = true).
Proof.
  unfold pre_image_conflict, file_path_conflict. repeat case_bool_decide; simpl;
    repeat case_match; try done; try case_bool_decide; simplify_eq/=; eauto.
Qed.

Lemma blob_conflict_none (blob : BlobHash) (store : PlannerStore) (c : option Conflict) :
  blob_conflict blob store c = None → c = None ∧ is_Some (blob_size_hint store blob).
Proof. unfold blob_conflict. repeat case_match; naive_solver. Qed.

Lemma post_image_conflict_none (path : PathBuf) (post : option BlobHash)
    (probe : StateProbe) (c : option Conflict) :
  post_image_conflict path post probe c = None →
  c = None ∧ ∀ h cur, post = Some h → content_hash probe path = Some cur → cur = h.
Proof.
  unfold post_image_conflict. destruct c; [done|]. destruct post as [h|]; [|done].
  destruct (content_hash probe path) as [cur|]; [|naive_solver].
  case_bool_decide; naive_solver.
Qed.

(** A content restore comes from a pre-image of its path and blob, and its
    conflict is the three checks of that event. *)
Lemma restore_origin (ev : CaptureEvent) (probe : StateProbe) (store : PlannerStore)
    (class : EventClassification) (n : PlanNode) inode p blob :
  n ∈ (emit_for_event syn ev probe store class).1 →
  n_op n = InverseOp.RestoreContent inode p blob →
  ∃ meta post src,
    e_kind ev = CaptureEventKind.FilePreImage inode p blob meta post src
    ∧ is_shim_flags src = false ∧ hardlink_dead_to_source class !! p = None
    ∧ n_conflict n = post_image_conflict p post probe
        (blob_conflict blob store (pre_image_conflict inode p probe class)).
Proof.
  intros Hn Hop. unfold emit_for_event in Hn.
  destruct (e_kind ev) as [i q b meta post src| | |op| | | | | | | | | | | |] eqn:Ek;
    cbn [fst snd] in Hn.
  { unfold emit_file_pre_image in Hn. destruct (is_shim_flags src) eqn:Esh.
    { case_bool_decide; unfold emit_restore_flags in Hn; set_solver. }
    case_bool_decide as Hd; [set_solver|].
    rewrite !elem_of_cons, elem_of_nil in Hn. destruct Hn as [->|[->|[]]]; simplify_eq/=.
    exists meta, post, src. split_and!; try done. by apply eq_None_not_Some. }
  3: { destruct op; cbn [emit_for_tree_op] in Hn.
    - apply elem_of_emit_create in Hn as (? & _). congruence.
    - apply elem_of_emit_unlink in Hn as (_ & [H|(? & _ & H)]); congruence.
    - case_bool_decide; set_solver.
    - set_solver.
    - set_solver.
    - set_solver. }
  all: exfalso; unfold emit_metadata_change, emit_restore_flags, emit_append,
    emit_shell_state, emit_env_diff, emit_package, emit_network, emit_systemd, emit_process,
    emit_db, emit_container, emit_terraform, emit_kubectl, emit_gh, emit_capture_refused,
    emit1 in Hn; cbn [fst snd] in Hn.
  all: repeat rewrite elem_of_app, ?list_elem_of_fmap in Hn.
  all: repeat match type of Hn with
    | context [match ?x with _ => _ end] => destruct x; cbn [fst snd] in Hn
    end.
  all: set_solver.
Qed.

(** A content restore the plan marks as free of conflict is justified: it
    comes from a complete pre-image event of that path and blob, the blob is
    still in the store, the file on disk is the captured inode or the path
    was atomically replaced and can be written (it exists or its parent
    does), and when the capture recorded the content the command left behind,
    the present content, if readable, is exactly that. *)
Theorem plan_restore_justified (command : CommandRecord) (events : list CaptureEvent)
    (probe : StateProbe) (store : PlannerStore) (n : PlanNode) inode p blob :
  n ∈ p_nodes (plan syn ord command events probe store) →
  n_op n = InverseOp.RestoreContent inode p blob → n_conflict n = None →
  is_Some (blob_size_hint store blob)
  ∧ ((∃ s, stat probe p = Some s
        ∧ (s_inode s = inode ∨ p ∈ atomic_replace_paths (plan_class events probe)))
     ∨ (stat probe p = None ∧ parent_alive probe p = true))
  ∧ ∃ ev meta post src, ev ∈ events ∧ e_partial ev = false
    ∧ e_kind ev = CaptureEventKind.FilePreImage inode p blob meta post src
    ∧ ∀ h cur, post = Some h → content_hash probe p = Some cur → cur = h.
Proof.
  intros Hn Hop Hc. destruct (refuse_plan command) as [rp|] eqn:Hr.
  { unfold plan in Hn. rewrite Hr in Hn. apply (refuse_plan_nodes _ _ _ Hr) in Hn.
    by rewrite Hop in Hn. }
  apply plan_node_origin in Hn as (ev & n' & Hev & Hp & _ & Hn' & Ho & Hcf); [|done].
  rewrite Hop in Ho. rewrite Hc in Hcf.
  apply (restore_origin _ _ _ _ _ inode p blob) in Hn' as (meta & post & src & Hk & _ & _ & Hn'); [|done].
  rewrite Hcf in Hn'. symmetry in Hn'.
  apply post_image_conflict_none in Hn' as [Hb Hpost].
  apply blob_conflict_none in Hb as [Hpre Hblob].
  apply pre_image_conflict_none in Hpre.
  split; [done|]. split; [|eauto 12]. naive_solver.
Qed.

(** No captured pre-image is lost: every complete content pre-image whose
    path is neither transient nor one name of a surviving hard-link group
    gets both its content restore and its metadata restore in the plan. *)
Theorem plan_restores_every_pre_image (command : CommandRecord)
    (events : list CaptureEvent) (probe : StateProbe) (store : PlannerStore)
    (ev : CaptureEvent) inode p blob meta post src :
  refuse_plan command = None →
  ev ∈ events → e_partial ev = false →
  e_kind ev = CaptureEventKind.FilePreImage inode p blob meta post src →
  is_shim_flags src = false →
  p ∉ transient_paths (plan_class events probe) →
  p ∉ hardlink_live_paths (plan_class events probe) →
  hardlink_dead_to_source (plan_class events probe) !! p = None →
  ∃ n1 n2, n1 ∈ p_nodes (plan syn ord command events probe store)
    ∧ n2 ∈ p_nodes (plan syn ord command events probe store)
    ∧ n_op n1 = InverseOp.RestoreContent inode p blob
    ∧ n_op n2 = InverseOp.RestoreMetadata inode p meta
    ∧ n_conflict n1 = n_conflict n2.
Proof.
  intros Hr Hev Hp Hk Hsh Ht Hl Hd.
  assert (skipped ev (plan_class events probe) = false) as Hsk.
  { unfold skipped, event_path. rewrite Hk.
    by rewrite !bool_decide_eq_false_2 by done. }
  pose (conflict := post_image_conflict p post probe
    (blob_conflict blob store (pre_image_conflict inode p probe (plan_class events probe)))).
  assert (Hem : (emit_for_event syn ev probe store (plan_class events probe)).1 =
    [node (InverseOp.RestoreContent inode p blob) conflict;
     node (InverseOp.RestoreMetadata inode p meta) conflict]).
  { unfold emit_for_event, emit_file_pre_image. rewrite Hk, Hsh, Hd. done. }
  edestruct (plan_node_intro command events probe store ev
    (node (InverseOp.RestoreContent inode p blob) conflict)) as (n1 & H1 & H2 & H3);
    [done..|rewrite Hem; left|].
  edestruct (plan_node_intro command events probe store ev
    (node (InverseOp.RestoreMetadata inode p meta) conflict)) as (n2 & G1 & G2 & G3);
    [done..|rewrite Hem; right; left|].
  exists n1, n2. split_and!; try done. by rewrite H3, G3.
Qed.

(** ** Atomic replacement *)

(** The operation rebuilds or moves away the directory entry [p]. *)
Definition moves_entry (op : InverseOp) (p : PathBuf) : Prop :=
  match op with
  | InverseOp.RecreatePath q _ _ => q = p
  | InverseOp.CreateHardlink _ q => q = p
  | InverseOp.Rename from _ => from = p
  | InverseOp.Unlink q => q = p
  | _ => False
  end.

Lemma tree_op_atomic (op : TreeOp) (probe : StateProbe) (class : EventClassification)
    (p : PathBuf) (n : PlanNode) :
  n ∈ emit_for_tree_op op probe class → p ∈ atomic_replace_paths class →
  moves_entry (n_op n) p →
  (∃ i, op = TreeOp.Link i p) ∨ (∃ t, op = TreeOp.Symlink t p).
Proof.
  intros Hn Ha Hm. destruct op; cbn [emit_for_tree_op] in Hn.
  - apply elem_of_emit_create in Hn as (Ho & Hna & _). rewrite Ho in Hm. simpl in Hm. by subst.
  - apply elem_of_emit_unlink in Hn as (Hna & [Ho|(src & _ & Ho)]);
      rewrite Ho in Hm; simpl in Hm; by subst.
  - case_bool_decide; [by apply elem_of_nil in Hn|].
    apply list_elem_of_singleton in Hn as ->. simpl in Hm. by subst.
  - apply list_elem_of_singleton in Hn as ->. simpl in Hm. subst. eauto.
  - apply list_elem_of_singleton in Hn as ->. simpl in Hm. subst. eauto.
  - by apply list_elem_of_singleton in Hn as ->.
Qed.

(** An atomically replaced path is undone by its pre-image alone: such a
    path is never also classified as transient, and unless an event made it a
    link, the plan holds no operation that recreates it, links it, renames it
    away or unlinks it, so nothing races the content restore. *)
Theorem plan_atomic_replace_exclusive (command : CommandRecord)
    (events : list CaptureEvent) (probe : StateProbe) (store : PlannerStore)
    (p : PathBuf) :
  p ∈ atomic_replace_paths (plan_class events probe) →
  p ∉ transient_paths (plan_class events probe)
  ∧ ((∀ ev, ev ∈ events → e_partial ev = false → ¬ ev_links p ev) →
     ∀ n, n ∈ p_nodes (plan syn ord command events probe store) →
       ¬ moves_entry (n_op n) p).
Proof.
  intros Ha. split.
  { destruct (plan_class_sets events probe) as (Ea & Et & _). rewrite Ea in Ha. rewrite Et.
    intros Ht. by eapply atomic_transient_disjoint. }
  intros Hnl n Hn Hm. destruct (refuse_plan command) as [rp|] eqn:Hr.
  { unfold plan in Hn. rewrite Hr in Hn. apply (refuse_plan_nodes _ _ _ Hr) in Hn.
    by destruct (n_op n). }
  apply plan_node_origin in Hn as (ev & n' & Hev & Hp & _ & Hn' & Ho & _); [|done].
  rewrite <- Ho in Hm. pose proof (non_tree_ops _ _ _ _ _ Hn') as Hnt.
  unfold emit_for_event in Hn'.
  destruct (e_kind ev) as [| | |op| | | | | | | | | | | |] eqn:Ek;
    try (specialize (Hnt ltac:(done)); by destruct (n_op n')).
  apply (Hnl ev Hev Hp). unfold ev_links. rewrite Ek.
  destruct (tree_op_atomic _ _ _ _ _ Hn' Ha Hm) as [[i ->]|[t ->]]; eauto.
Qed.

(** ** Refusal *)

(** A command that starts with a catalogued irreversible verb is refused
    whatever its arguments, the captured events and the state of the disk:
    the plan is the one refusal node with that entry's class, reason and
    remediation, and carries no partial inverse and no warning. *)
Theorem plan_refuses_catalogued (command : CommandRecord) (events : list CaptureEvent)
    (probe : StateProbe) (store : PlannerStore)
    (e : Refuse.RefuseEntry) (ws : list string) (args : string) :
  e ∈ Refuse.CATALOG → Refuse.WordPrefix ws ∈ Refuse.patterns e →
  c_cmd_string command = Some (Refuse.join_words ws +:+ String " " args) →
  plan syn ord command events probe store =
  mkPlan command
    [mkNode (InverseOp.Refuse (Refuse.class e) [Lit (Refuse.reason e)]
       ((λ r, [Lit r]) <$> Refuse.remediation e)) 0 None] [].
Proof.
  intros He Hp Hc. unfold plan, refuse_plan.
  by rewrite Hc, (Refuse.match_command_any_args e ws args He Hp).
Qed.

End Facts.

(** ** The plan as a function of the set of events *)

Lemma live_events_perm (evs evs' : list CaptureEvent) :
  unique_ids evs → evs ≡ₚ evs' →
  reverse_chronological (live_events evs) = reverse_chronological (live_events evs').
Proof.
  intros Hu Hp. unfold reverse_chronological, live_events. apply sort_by_perm_eq.
  - intros x y. destruct (event_leb_total x y); auto.
  - intros x y z Hxy Hyz. by eapply event_leb_trans.
  - intros x y. rewrite !elem_of_list_filter. intros [Hx _] [Hy _] H1 H2.
    by eapply event_leb_antisym.
  - by apply list_filter_perm.
Qed.

Lemma initial_warnings_perm (command : CommandRecord) (evs evs' : list CaptureEvent) :
  evs ≡ₚ evs' → initial_warnings command evs = initial_warnings command evs'.
Proof. intros Hp. unfold initial_warnings. by rewrite (length_filter_perm _ _ _ Hp). Qed.

Lemma classify_order (ord ord' : HashOrder InodeRef (gset PathBuf))
    (evs : list CaptureEvent) (probe : StateProbe) :
  groups_disjoint (scan evs) → classify ord evs probe = classify ord' evs probe.
Proof.
  intros Hd. unfold classify, classify_replace_paths.
  by rewrite (hardlinks_order ord ord' _ _ Hd).
Qed.

(** C24. The plan is a function of the set of captured events: events with
    distinct ids give the same plan in whatever order the store returns them
    and in whatever order the hash map of inode groups is iterated, as long
    as no name was unlinked under two different inodes. *)
Theorem plan_canonical (syn : Network.NetSynth)
    (ord ord' : HashOrder InodeRef (gset PathBuf)) (command : CommandRecord)
    (evs evs' : list CaptureEvent) (probe : StateProbe) (store : PlannerStore) :
  unique_ids evs → one_inode_per_name evs → evs ≡ₚ evs' →
  plan syn ord command evs probe store = plan syn ord' command evs' probe store.
Proof.
  intros Hu H1 Hp. unfold plan. destruct (refuse_plan command); [done|].
  rewrite <- (live_events_perm evs evs'), <- (initial_warnings_perm command evs evs') by done.
  rewrite (classify_order ord ord'); [done|]. apply one_inode_groups.
  intros e1 e2 i1 i2 p k1 m1 k2 m2. rewrite !elem_of_live. intros [He1 _] [He2 _]. by apply H1.
Qed.

(** ** Concrete commands *)

Definition no_synth : Network.NetSynth :=
  Network.mkNetSynth (λ _ _, []) (λ _ _, []) (λ _ _, []) (λ _ _, []) (λ _ _, [])
    (λ _ _, []) (λ _ _, []).

(** The groups in the opposite order of [map_order]. *)
Definition rev_order : HashOrder InodeRef (gset PathBuf).
Proof.
  refine {| hash_iter := λ m, reverse (map_to_list m) |}.
  intros m. by rewrite reverse_Permutation.
Defined.

Definition ex_cmd (s : string) : CommandRecord :=
  mkCommandRecord (mkCommandId 7 1) (Some s) (path_of_string "/w") 100 ShellKind.Bash
    (mkTime 1 0) (Some (mkTime 9 0)) (Some 0%Z) [].

Definition ex_meta (size : N) : FileMetadata := mkMeta 33188 0 0 size 0 ∅ None 0.

Definition ex_event (id : N) (k : CaptureEventKind) : CaptureEvent :=
  mkEvent (mkEventId id) (mkCommandId 7 1) (mkTime id 0) false k.

Definition ex_hash (n : N) : BlobHash := mkHash [n].

(** [sed -i] on [/w/f]: temporary file renamed over it, old inode unlinked. *)
Definition ex_replace : list CaptureEvent :=
  [ex_event 1 (CaptureEventKind.FilePreImage (mkInode 1 10) (path_of_string "/w/f")
     (ex_hash 1) (ex_meta 5) (Some (ex_hash 2)) FilePreImageSource.EsAuthPreMutation);
   ex_event 2 (CaptureEventKind.TreeOp (TreeOp.Create (mkInode 1 11) (path_of_string "/w/f")
     FileKind.Regular 33188));
   ex_event 3 (CaptureEventKind.TreeOp (TreeOp.Unlink (mkInode 1 10) (path_of_string "/w/f")
     FileKind.Regular 33188))].

Definition ex_probe : StateProbe := in_memory_probe
  {[path_of_string "/w/f" := (mkStat (mkInode 1 11) (ex_meta 6), Some (ex_hash 2))]}.

Definition ex_store : PlannerStore :=
  in_memory_store (put_blob store_new (ex_hash 1) 5).

Definition ex_plan : UndoPlan :=
  plan no_synth map_order (ex_cmd "sed -i s/a/b/ f") ex_replace ex_probe ex_store.

Example ex_plan_nodes :
  (λ n, (n_op n, n_cohort n, n_conflict n)) <$> p_nodes ex_plan =
  [(InverseOp.RestoreContent (mkInode 1 10) (path_of_string "/w/f") (ex_hash 1), 0%N, None);
   (InverseOp.RestoreMetadata (mkInode 1 10) (path_of_string "/w/f") (ex_meta 5), 1%N, None)].
Proof. vm_compute. reflexivity. Qed.

Lemma ex_replace_no_links (ev : CaptureEvent) :
  ev ∈ ex_replace → e_partial ev = false → ¬ ev_links (path_of_string "/w/f") ev.
Proof.
  intros Hev _. repeat (apply elem_of_cons in Hev as [->|Hev]; [intros [[? [=]]|[? [=]]]|]).
  by apply elem_of_nil in Hev.
Qed.

Lemma plan_never_deletes_snapshotted_witness :
  Forall (λ n, n_op n ≠ InverseOp.Unlink (path_of_string "/w/f")) (p_nodes ex_plan).
Proof.
  apply Forall_forall. intros n. apply (plan_never_deletes_snapshotted no_synth map_order).
  - exists (ex_event 1 (CaptureEventKind.FilePreImage (mkInode 1 10) (path_of_string "/w/f")
     (ex_hash 1) (ex_meta 5) (Some (ex_hash 2)) FilePreImageSource.EsAuthPreMutation)).
    split; [left|]. split; [done|]. do 5 eexists. split; reflexivity.
  - apply ex_replace_no_links.
Defined.

Lemma plan_restore_justified_witness :
  is_Some (blob_size_hint ex_store (ex_hash 1)).
Proof.
  apply (plan_restore_justified no_synth map_order (ex_cmd "sed -i s/a/b/ f") ex_replace
    ex_probe ex_store
    (mkNode (InverseOp.RestoreContent (mkInode 1 10) (path_of_string "/w/f") (ex_hash 1)) 0 None)
    (mkInode 1 10) (path_of_string "/w/f")).
  - apply list_elem_of_lookup. exists 0. vm_compute. reflexivity.
  - reflexivity.
  - reflexivity.
Defined.

Lemma plan_restores_every_pre_image_witness :
  ∃ n, n ∈ p_nodes ex_plan ∧
    n_op n = InverseOp.RestoreMetadata (mkInode 1 10) (path_of_string "/w/f") (ex_meta 5).
Proof.
  destruct (plan_restores_every_pre_image no_synth map_order (ex_cmd "sed -i s/a/b/ f")
    ex_replace ex_probe ex_store (hd (ex_event 0 (e_kind (ex_event 0
      (CaptureEventKind.GhOp (GhOp.IssueClose 1) [])))) ex_replace)
    (mkInode 1 10) (path_of_string "/w/f") (ex_hash 1) (ex_meta 5) (Some (ex_hash 2))
    FilePreImageSource.EsAuthPreMutation) as (n1 & n2 & _ & H2 & _ & H & _).
  - reflexivity.
  - left.
  - reflexivity.
  - reflexivity.
  - reflexivity.
  - apply (bool_decide_unpack _). vm_compute. exact I.
  - apply (bool_decide_unpack _). vm_compute. exact I.
  - vm_compute. reflexivity.
  - exists n2. split; [exact H2|exact H].
Defined.

Lemma plan_atomic_replace_exclusive_witness :
  Forall (λ n, ¬ moves_entry (n_op n) (path_of_string "/w/f")) (p_nodes ex_plan).
Proof.
  apply Forall_forall. apply (plan_atomic_replace_exclusive no_synth map_order (ex_cmd "sed -i s/a/b/ f")
    ex_replace ex_probe ex_store).
  - apply (bool_decide_unpack _). vm_compute. exact I.
  - apply ex_replace_no_links.
Defined.

Lemma plan_refuses_catalogued_witness :
  length (p_nodes (plan no_synth map_order (ex_cmd "git push --force") ex_replace
    ex_probe ex_store)) = 1.
Proof.
  rewrite (plan_refuses_catalogued no_synth map_order (ex_cmd "git push --force") ex_replace
    ex_probe ex_store (hd (Refuse.mkEntry "" [] "" None) Refuse.CATALOG) ["git"; "push"]
    "--force" ltac:(left) ltac:(left) eq_refl).
  reflexivity.
Defined.

Lemma plan_canonical_witness :
  ex_plan = plan no_synth rev_order (ex_cmd "sed -i s/a/b/ f") (reverse ex_replace)
    ex_probe ex_store.
Proof.
  apply (plan_canonical no_synth map_order rev_order).
  - unfold unique_ids. apply (bool_decide_unpack _). vm_compute. exact I.
  - intros e1 e2 i1 i2 p k1 m1 k2 m2 H1 H2 E1 E2.
    repeat (apply elem_of_cons in H1 as [->|H1]; [try discriminate E1|]);
      [|by apply elem_of_nil in H1].
    repeat (apply elem_of_cons in H2 as [->|H2]; [try discriminate E2|]);
      [|by apply elem_of_nil in H2].
    simpl in E1, E2. congruence.
  - by rewrite reverse_Permutation.
Defined.

(** [/w/p] unlinked under two inodes, each with a surviving alias. *)
Definition ex_two_groups : list CaptureEvent :=
  let un id ino p := ex_event id (CaptureEventKind.TreeOp
    (TreeOp.Unlink (mkInode 1 ino) (path_of_string p) FileKind.Regular 33188)) in
  [un 1 10 "/w/p"; un 2 10 "/w/a"; un 3 20 "/w/p"; un 4 20 "/w/b"]%N.

Definition ex_two_probe : StateProbe := in_memory_probe
  (<[path_of_string "/w/a" := (mkStat (mkInode 1 10) (ex_meta 6), None)]>
   {[path_of_string "/w/b" := (mkStat (mkInode 1 20) (ex_meta 6), None)]}).

(** Without that condition the plan is not determined: when one name was
    unlinked under two inodes that both survive under other names, the alias
    it is linked back to depends on the iteration order of the hash map. *)
Theorem plan_depends_on_hash_order :
  ∃ command events probe store,
    unique_ids events ∧
    n_op <$> p_nodes (plan no_synth map_order command events probe store) ≠
    n_op <$> p_nodes (plan no_synth rev_order command events probe store).
Proof.
  exists (ex_cmd "rm p"), ex_two_groups, ex_two_probe, ex_store. split.
  - unfold unique_ids. apply (bool_decide_unpack _). vm_compute. exact I.
  - vm_compute. discriminate.
Qed.

End PlanFacts.
