(* ===== verification/PlanForward.v ===== *)
(** * The redo planner

    [plan_forward.rs]: the forward direction of each captured event, in
    chronological order. *)

From S2P Require Import Prelude Paths Base Events Inverse Cohort.
From S2P Require Import ShellRender Probe FlagPairs Network Plan.

Module PlanForward.
Import Plan.

(** ** Conflicts *)

Definition file_conflict (path : PathBuf) (probe : StateProbe) : option Conflict :=
  match stat probe path with
  | None => Some (Conflict.Missing
      [PathDisplay path; Lit " no longer present at redo time"])
  | Some _ => None
  end.

Definition phantom_if_exists (path : PathBuf) (probe : StateProbe) : option Conflict :=
  match stat probe path with
  | Some _ => Some (Conflict.Phantom
      [PathDisplay path; Lit " already exists at redo time — re-create would clobber"])
  | None => None
  end.

Definition phantom_if_missing (path : PathBuf) (probe : StateProbe) : option Conflict :=
  match stat probe path with
  | None => Some (Conflict.Missing
      [PathDisplay path; Lit " missing at redo time — original target gone"])
  | Some _ => None
  end.

Definition emit_forward_for_tree_op (op : TreeOp) (probe : StateProbe) : list PlanNode :=
  match op with
  | TreeOp.Create _ path kind mode =>
      [node (InverseOp.RecreatePath path kind mode) (phantom_if_exists path probe)]
  | TreeOp.Unlink _ path _ _ =>
      [node (InverseOp.Unlink path) (phantom_if_missing path probe)]
  | TreeOp.Rename from to _ =>
      [node (InverseOp.Rename from to) (phantom_if_missing from probe)]
  | TreeOp.Link _ _ => []
  | TreeOp.Symlink target path =>
      [node (InverseOp.CreateSymlink target path) (phantom_if_exists path probe)]
  | TreeOp.SymlinkRemoved _ path =>
      [node (InverseOp.Unlink path) (phantom_if_missing path probe)]
  end.

(** ** Debug forms *)

Definition opt_string_debug (o : option string) : Piece :=
  match o with
  | Some s => DebugVariant "Some" [Lit s]
  | None => DebugVariant "None" []
  end.

Definition bool_debug (b : bool) : Piece := Lit (if b then "true" else "false").

Definition container_op_debug (op : ContainerOp) : Piece :=
  match op with
  | ContainerOp.Rm id name was_running =>
      DebugVariant "Rm" [Lit id; opt_string_debug name; bool_debug was_running]
  | ContainerOp.Rmi image digest =>
      DebugVariant "Rmi" [Lit image; opt_string_debug digest]
  | ContainerOp.VolumeRm name driver =>
      DebugVariant "VolumeRm" [Lit name; opt_string_debug driver]
  | ContainerOp.NetworkRm name => DebugVariant "NetworkRm" [Lit name]
  | ContainerOp.ComposeDown project services compose_file with_volumes =>
      DebugVariant "ComposeDown" [Lit project; DebugVariant "" (Lit <$> services);
        PathDebug compose_file; bool_debug with_volumes]
  | ContainerOp.Pull image resolved_id =>
      DebugVariant "Pull" [Lit image; opt_string_debug resolved_id]
  end.

Definition runtime_debug (r : ContainerRuntime) : Piece :=
  DebugVariant (match r with
    | ContainerRuntime.Docker => "Docker" | ContainerRuntime.Podman => "Podman" end) [].

Definition terraform_op_debug (op : TerraformOp) : Piece :=
  DebugVariant (match op with
    | TerraformOp.Apply => "Apply" | TerraformOp.Destroy => "Destroy"
    | TerraformOp.StateRm => "StateRm" | TerraformOp.Import => "Import" end) [].

Definition kubectl_op_debug (op : KubectlOp) : Piece :=
  match op with
  | KubectlOp.Delete kind name => DebugVariant "Delete" [Lit kind; Lit name]
  | KubectlOp.Apply kind name => DebugVariant "Apply" [Lit kind; Lit name]
  | KubectlOp.Scale kind name => DebugVariant "Scale" [Lit kind; Lit name]
  | KubectlOp.Rollout kind name => DebugVariant "Rollout" [Lit kind; Lit name]
  end.

Definition gh_op_debug (op : GhOp) : Piece :=
  match op with
  | GhOp.ReleaseDelete tag => DebugVariant "ReleaseDelete" [Lit tag]
  | GhOp.ReleaseDeleteAsset tag asset =>
      DebugVariant "ReleaseDeleteAsset" [Lit tag; Lit asset]
  | GhOp.IssueClose number => DebugVariant "IssueClose" [NumDisplay number]
  | GhOp.PrClose number => DebugVariant "PrClose" [NumDisplay number]
  end.

Definition engine_debug (e : DbEngine) : Piece :=
  DebugVariant (match e with
    | DbEngine.Postgres => "Postgres" | DbEngine.Mysql => "Mysql"
    | DbEngine.Sqlite3 => "Sqlite3" end) [].

(** ** Emitters *)

Definition warn (t : InverseTier) (m : Msg) : Emitted := ([], [informational t m]).

Definition forward_shim (ev : CaptureEvent) (path : PathBuf)
    (paired_flags_shims : gset EventId) : Emitted :=
  if bool_decide (e_id ev ∈ paired_flags_shims) then ([], [])
  else warn InverseTier.Files [Lit "cannot redo chflags on "; PathDisplay path;
    Lit " — shim capture records pre-flags only"].

Definition forward_metadata (inode : InodeRef) (path : PathBuf)
    (before after : FileMetadata) (probe : StateProbe) : Emitted :=
  if only_flags_changed before after then
    emit1 (InverseOp.RestoreFlags inode path (m_flags after)) (file_conflict path probe)
  else emit1 (InverseOp.RestoreMetadata inode path after) (file_conflict path probe).

(** Each diff entry with its two sides exchanged. *)
Definition flip_opt (d : string * string * string) : OptDiff :=
  let '(name, pre, post) := d in mkOptDiff name post pre.

Definition flip_alias (d : string * option string * option string) : AliasDiff :=
  let '(name, pre, post) := d in mkAliasDiff name post pre.

Definition flip_func (d : string * option string * option string) : FuncDiff :=
  let '(name, pre, post) := d in mkFuncDiff name post pre.

Definition forward_shell_state (pwd_before pwd_after : PathBuf)
    (opts : list (string * string * string))
    (aliases funcs : list (string * option string * option string)) : Emitted :=
  let pwd_changed := negb (bool_decide (pwd_before = pwd_after)) in
  if negb pwd_changed && nil_b opts && nil_b aliases && nil_b funcs then ([], [])
  else
    let pwd_for_render := if pwd_changed then Some pwd_after else None in
    let opts_inv := flip_opt <$> opts in
    let aliases_inv := flip_alias <$> aliases in
    let funcs_inv := flip_func <$> funcs in
    emit1 (InverseOp.ShellStateRestore
       (if pwd_changed then Some pwd_after else None)
       opts_inv aliases_inv funcs_inv
       (Some (ShellRender.render_bash pwd_for_render opts_inv aliases_inv funcs_inv))
       (Some (ShellRender.render_zsh pwd_for_render opts_inv aliases_inv funcs_inv))
       (Some (ShellRender.render_fish pwd_for_render opts_inv aliases_inv funcs_inv))) None.

Definition forward_env_diff (added removed : gmap string string)
    (modified : gmap string (string * string)) : list PlanNode :=
  ((λ kv, node (InverseOp.SetEnv kv.1 kv.2) None) <$> btree_iter added)
  ++ ((λ kv, node (InverseOp.UnsetEnv kv.1) None) <$> btree_iter removed)
  ++ ((λ kv, node (InverseOp.SetEnv kv.1 kv.2.2) None) <$> btree_iter modified).

(** Both branches of the source on [inverse_invocations] compute the same. *)
Definition forward_network (syn : Network.NetSynth) (tool : NetworkTool)
    (before_state after_state : bytes) (inverse_invocations : list (list string))
    : Emitted :=
  let forward_invocations :=
    match inverse_invocations with
    | [] => Network.synthesise_diff_apply_inverse syn tool after_state before_state
    | _ :: _ => Network.synthesise_diff_apply_inverse syn tool after_state before_state
    end in
  emit1 (InverseOp.NetworkRollback tool after_state forward_invocations) None.

Definition forward_process (argv : list string) (cwd : PathBuf)
    (env_summary : gmap string string) : Emitted :=
  ([node (InverseOp.ProcessNote argv cwd env_summary
      [Lit "process kill cannot be replayed; the original target's pid is no longer valid"]) None],
   [informational InverseTier.Processes [Lit "process events are informational on redo"]]).

Definition forward_db (engine : DbEngine) (target : string) (statements : list string)
    : Emitted :=
  ([node (InverseOp.DbNote engine target statements RollbackHint.None) None],
   [informational InverseTier.Database [Lit "DB statements against `"; Lit target;
      Lit "` need manual re-run via "; engine_debug engine;
      Lit "; `shit redo` does not execute SQL"]]).

Definition cloud_note : Piece :=
  Lit " captured; `shit redo` does not re-issue cloud destructive verbs (re-run the original command if intended)".

Section Forward.
Context (syn : Network.NetSynth).

Definition emit_forward_for_event (ev : CaptureEvent) (probe : StateProbe)
    (paired_flags_shims : gset EventId) : Emitted :=
  match e_kind ev with
  | CaptureEventKind.FilePreImage _ path _ _ _ source =>
      if is_shim_flags source then forward_shim ev path paired_flags_shims
      else warn InverseTier.Files [Lit "cannot redo file write to "; PathDisplay path;
        Lit " — capture tier records pre-content only"]
  | CaptureEventKind.MetadataChange inode path before after =>
      forward_metadata inode path before after probe
  | CaptureEventKind.FileAppendPreStash _ path _ =>
      warn InverseTier.Files [Lit "cannot redo append to "; PathDisplay path;
        Lit " — capture records pre-size only, not appended bytes"]
  | CaptureEventKind.TreeOp op => (emit_forward_for_tree_op op probe, [])
  | CaptureEventKind.ShellStateDiff pwd_before pwd_after opts aliases funcs =>
      forward_shell_state pwd_before pwd_after opts aliases funcs
  | CaptureEventKind.EnvDiff added removed modified =>
      (forward_env_diff added removed modified, [])
  | CaptureEventKind.PackageOp manager op before after _ =>
      emit1 (InverseOp.PackageRollback manager op after before None None) None
  | CaptureEventKind.NetworkOp tool before after invs =>
      forward_network syn tool before after invs
  | CaptureEventKind.SystemdOp scope unit before after =>
      emit1 (InverseOp.SystemdRollback scope unit after before) None
  | CaptureEventKind.ProcessOp _ _ argv cwd env_summary _ _ =>
      forward_process argv cwd env_summary
  | CaptureEventKind.DbOp engine target statements _ =>
      forward_db engine target statements
  | CaptureEventKind.ContainerOp runtime op _ _ _ =>
      warn InverseTier.Container [Lit "container op "; container_op_debug op; Lit " on ";
        runtime_debug runtime;
        Lit " captured; `shit redo` does not re-issue container destructive verbs (re-run the original command if intended)"]
  | CaptureEventKind.TerraformOp _ op _ =>
      warn InverseTier.Cloud [Lit "terraform op "; terraform_op_debug op; cloud_note]
  | CaptureEventKind.KubectlOp _ _ op _ =>
      warn InverseTier.Cloud [Lit "kubectl op "; kubectl_op_debug op; cloud_note]
  | CaptureEventKind.GhOp op _ =>
      warn InverseTier.Cloud [Lit "gh op "; gh_op_debug op; cloud_note]
  | CaptureEventKind.CaptureRefused _ path detail =>
      warn InverseTier.Files [Lit "capture for "; PathDisplay path; Lit " was incomplete (";
        Lit detail; Lit "); `shit redo` cannot re-apply"]
  end.

Definition plan_forward (command : CommandRecord) (events : list CaptureEvent)
    (probe : StateProbe) (store : PlannerStore) : UndoPlan :=
  let live := sort_events (live_events events) in
  let paired := FlagPairs.paired_flags_shim_events live in
  let emitted := (λ ev, emit_forward_for_event ev probe paired) <$> live in
  mkPlan command
    (Cohort.assign_cohorts (concat emitted.*1)).1
    (initial_warnings command events ++ concat emitted.*2).

End Forward.

(** ** Lemmas *)

Lemma sort_events_perm (evs evs' : list CaptureEvent) :
  unique_ids evs → evs ≡ₚ evs' →
  sort_events (live_events evs) = sort_events (live_events evs').
Proof.
  intros Hu Hp. unfold sort_events, live_events. apply sort_by_perm_eq.
  - apply event_leb_total.
  - apply event_leb_trans.
  - intros x y. rewrite !elem_of_list_filter. intros [Hx _] [Hy _].
    by apply (event_leb_antisym evs).
  - by apply list_filter_perm.
Qed.

(** The redo plan walks the events in the opposite order of the undo plan. *)
Lemma forward_order (evs : list CaptureEvent) :
  unique_ids evs →
  sort_events (live_events evs) = rev (reverse_chronological (live_events evs)).
Proof.
  intros Hu. apply (sorted_by_unique (leb_of event_cmp)).
  - intros x y. unfold sort_events, live_events. rewrite !elem_of_sort_by, !elem_of_list_filter.
    intros [Hx _] [Hy _]. by apply (event_leb_antisym evs).
  - unfold sort_events, reverse_chronological.
    rewrite <- Permutation_rev, !sort_by_perm. done.
  - apply sort_by_sorted; [apply event_leb_total|apply event_leb_trans].
  - unfold reverse_chronological.
    assert (H : sorted_by (λ a b, leb_of event_cmp b a)
      (sort_by (λ a b, leb_of event_cmp b a) (live_events evs))).
    { apply sort_by_sorted; intros x y *.
      - destruct (event_leb_total x y); auto.
      - intros H1 H2. by apply (event_leb_trans _ y). }
    induction H as [|x l Hl IH Hx]; simpl; [constructor|].
    apply StronglySorted_app_2; [|done|repeat constructor].
    intros a b Ha Hb. apply list_elem_of_singleton in Hb as ->.
    rewrite Forall_forall in Hx. apply Hx.
    apply list_elem_of_In, in_rev. by apply list_elem_of_In.
Qed.

(** The events come with distinct ids, oldest first. *)
Definition chronological (evs : list CaptureEvent) : Prop :=
  unique_ids evs ∧ sorted_by (leb_of event_cmp) evs.

Lemma live_complete (evs : list CaptureEvent) :
  Forall (λ e, e_partial e = false) evs → live_events evs = evs.
Proof. unfold live_events. induction 1 as [|e evs He _ IH]; simpl; [done|]. by rewrite He, IH. Qed.

Lemma forward_chronological (evs : list CaptureEvent) :
  chronological evs → sort_events evs = evs.
Proof. intros [_ Hs]. unfold sort_events. apply sort_by_id. done. Qed.

(** What the undo planner walks: the events in reverse. *)
Lemma reverse_order (evs : list CaptureEvent) :
  chronological evs → Forall (λ e, e_partial e = false) evs →
  reverse_chronological (live_events evs) = reverse evs.
Proof.
  intros [Hu Hs] Hp. pose proof (forward_order evs Hu) as H. rewrite live_complete in * by done.
  rewrite forward_chronological in H by done. rewrite H at 2.
  unfold reverse. by rewrite <- rev_alt, rev_involutive.
Qed.

End PlanForward.
