(* ===== verification/ForwardFacts.v ===== *)
(** * Properties of the redo planner

    What a redo plan never holds, that it accounts for every event, and that
    it is a function of the set of events. *)

From S2P Require Import Prelude Paths Base Events Inverse Cohort.
From S2P Require Import ShellRender Probe FlagPairs Network Plan PlanFacts PlanForward.

Module ForwardFacts.
Import Plan PlanFacts PlanForward.

(** Operations a redo plan may hold: everything but content restores, which
    need bytes the capture does not have, and operations on clouds,
    containers and descriptors. *)
Definition redoable (op : InverseOp) : bool :=
  match op with
  | InverseOp.RestoreContent _ _ _ | InverseOp.FileExtend _ _
  | InverseOp.CreateHardlink _ _ => false
  | _ =>
      match tier op with
      | InverseTier.Cloud | InverseTier.Container | InverseTier.Descriptor
      | InverseTier.Refuse => false
      | _ => true
      end
  end.

(** The events for which neither a node nor a warning is emitted. *)
Definition silent (paired : gset EventId) (ev : CaptureEvent) : Prop :=
  match e_kind ev with
  | CaptureEventKind.FilePreImage _ _ _ _ _ source =>
      is_shim_flags source = true ∧ e_id ev ∈ paired
  | CaptureEventKind.TreeOp (TreeOp.Link _ _) => True
  | CaptureEventKind.ShellStateDiff before after opts aliases funcs =>
      before = after ∧ opts = [] ∧ aliases = [] ∧ funcs = []
  | CaptureEventKind.EnvDiff added removed modified =>
      added = ∅ ∧ removed = ∅ ∧ modified = ∅
  | _ => False
  end.

Section Facts.
Context (syn : Network.NetSynth).

Lemma forward_redoable (ev : CaptureEvent) (probe : StateProbe) (paired : gset EventId)
    (n : PlanNode) :
  n ∈ (emit_forward_for_event syn ev probe paired).1 → redoable (n_op n) = true.
Proof.
  unfold emit_forward_for_event, forward_env_diff, forward_shell_state, forward_metadata,
    forward_shim, emit_forward_for_tree_op.
  repeat case_match; simpl; rewrite ?elem_of_app, ?elem_of_nil, ?list_elem_of_singleton;
    try done; try (by intros ->); try (by intros [->|[]%elem_of_nil]%elem_of_cons).
  intros [Hn|[Hn|Hn]]; apply list_elem_of_fmap in Hn as (? & -> & _); done.
Qed.

Lemma btree_iter_nil {A} (m : gmap string A) : btree_iter m = [] → m = ∅.
Proof.
  intros H. apply map_empty. intros k. apply eq_None_not_Some. intros [v Hv].
  apply elem_of_btree_iter in Hv. rewrite H in Hv. by apply elem_of_nil in Hv.
Qed.

Lemma nil_b_true {A} (l : list A) : nil_b l = true → l = [].
Proof. by destruct l. Qed.

Lemma forward_silent (ev : CaptureEvent) (probe : StateProbe) (paired : gset EventId) :
  emit_forward_for_event syn ev probe paired = ([], []) → silent paired ev.
Proof.
  unfold emit_forward_for_event, forward_env_diff, forward_shell_state, forward_metadata,
    forward_shim, emit_forward_for_tree_op, silent.
  repeat case_match; try done; intros Heq.
  - split; [done|]. by eapply bool_decide_eq_true_1.
  - injection Heq as Heq. apply app_eq_nil in Heq as [H1 [H2 H3]%app_eq_nil].
    apply fmap_nil_inv, btree_iter_nil in H1, H2, H3. done.
  - match goal with H : _ && _ = true |- _ =>
      rewrite !andb_true_iff, negb_involutive, bool_decide_eq_true in H;
      destruct H as [[[-> ?%nil_b_true] ?%nil_b_true] ?%nil_b_true] end.
    done.
Qed.

Lemma elem_of_forward_live (evs : list CaptureEvent) (ev : CaptureEvent) :
  ev ∈ sort_events (live_events evs) ↔ ev ∈ evs ∧ e_partial ev = false.
Proof.
  unfold sort_events, live_events.
  by rewrite elem_of_sort_by, elem_of_list_filter, negb_true_iff.
Qed.

Abbreviation paired evs := (FlagPairs.paired_flags_shim_events (sort_events (live_events evs))).

(** Redo never goes beyond what was captured: no step of a redo plan
    restores file content, truncates a file, makes a hard link or acts on a
    cloud, a container, a descriptor or a refusal; whatever the events. *)
Theorem plan_forward_redoable (command : CommandRecord) (evs : list CaptureEvent)
    (probe : StateProbe) (store : PlannerStore) (n : PlanNode) :
  n ∈ p_nodes (plan_forward syn command evs probe store) → redoable (n_op n) = true.
Proof.
  unfold plan_forward. cbn [p_nodes]. intros Hn.
  apply Cohort.elem_of_assign_cohorts in Hn as (n' & Hn' & <- & _).
  apply list_elem_of_In, in_concat in Hn' as (l & Hl & Hn').
  apply list_elem_of_In in Hl, Hn'. apply list_elem_of_fmap in Hl as (em & -> & Hem).
  apply list_elem_of_fmap in Hem as (ev & -> & _). by eapply forward_redoable.
Qed.

(** Redo loses no event in silence: every complete event either has one
    of its steps in the plan or a warning of its own, the only exceptions
    being a flags shim whose change another event already carries, diffs that
    are empty, and hard links. *)
Theorem plan_forward_accounts (command : CommandRecord) (evs : list CaptureEvent)
    (probe : StateProbe) (store : PlannerStore) (ev : CaptureEvent) :
  ev ∈ evs → e_partial ev = false → ¬ silent (paired evs) ev →
  let P := plan_forward syn command evs probe store in
  let em := emit_forward_for_event syn ev probe (paired evs) in
  (∃ n n', n ∈ p_nodes P ∧ n' ∈ em.1 ∧ n_op n = n_op n')
  ∨ (∃ w, w ∈ p_warnings P ∧ w ∈ em.2).
Proof.
  intros Hev Hp Hs P em.
  assert (em ∈ (λ ev, emit_forward_for_event syn ev probe (paired evs)) <$>
    sort_events (live_events evs)) as Hem.
  { apply list_elem_of_fmap. exists ev. split; [done|]. by apply elem_of_forward_live. }
  destruct em.1 as [|n' l] eqn:E1; [destruct em.2 as [|w l] eqn:E2|].
  - exfalso. apply Hs, (forward_silent _ probe). fold em. by rewrite (surjective_pairing em), E1, E2.
  - right. exists w. split; [|left]. unfold P, plan_forward. cbn [p_warnings].
    apply elem_of_app. right. apply list_elem_of_In, in_concat. exists em.2.
    rewrite <- !list_elem_of_In. split; [by apply list_elem_of_fmap_2|]. rewrite E2. left.
  - left. assert (n' ∈ concat ((λ ev, emit_forward_for_event syn ev probe (paired evs)) <$>
      sort_events (live_events evs)).*1) as Hin.
    { apply list_elem_of_In, in_concat. exists em.1. rewrite <- !list_elem_of_In.
      split; [by apply list_elem_of_fmap_2|]. rewrite E1. left. }
    apply (list_elem_of_fmap_2 (λ n, (n_op n, n_conflict n))) in Hin.
    rewrite <- Cohort.assign_cohorts_ops in Hin.
    apply list_elem_of_fmap in Hin as (n & [= Ho _] & Hn). exists n, n'.
    split_and!; [done|left|done].
Qed.

(** The redo plan is a function of the set of captured events: events
    with distinct ids give the same plan in whatever order they are listed. *)
Theorem plan_forward_canonical (command : CommandRecord) (evs evs' : list CaptureEvent)
    (probe : StateProbe) (store : PlannerStore) :
  unique_ids evs → evs ≡ₚ evs' →
  plan_forward syn command evs probe store = plan_forward syn command evs' probe store.
Proof.
  intros Hu Hp. unfold plan_forward.
  by rewrite (sort_events_perm evs evs'), (initial_warnings_perm command evs evs').
Qed.

(** A hard link is lost on redo without a word: the plan for a command
    that only made hard links has no step and no warning at all. *)
Theorem plan_forward_drops_hard_links (command : CommandRecord) (evs : list CaptureEvent)
    (probe : StateProbe) (store : PlannerStore) :
  c_ended_at command ≠ None →
  (∀ ev, ev ∈ evs → e_partial ev = false
     ∧ ∃ i p, e_kind ev = CaptureEventKind.TreeOp (TreeOp.Link i p)) →
  p_nodes (plan_forward syn command evs probe store) = []
  ∧ p_warnings (plan_forward syn command evs probe store) = [].
Proof.
  intros Hend Hall. unfold plan_forward. cbn [p_nodes p_warnings].
  set (paired := FlagPairs.paired_flags_shim_events _).
  assert (∀ l : list CaptureEvent, (∀ ev, ev ∈ l → ev ∈ evs) →
    concat ((λ ev, emit_forward_for_event syn ev probe paired) <$> l).*1 = []
    ∧ concat ((λ ev, emit_forward_for_event syn ev probe paired) <$> l).*2 = []) as H.
  { induction l as [|ev l IH]; intros Hl; [done|].
    destruct (Hall ev) as (_ & i & p & Hk); [apply Hl; left|].
    destruct IH as [IH1 IH2]; [intros e He; apply Hl; by right|].
    assert (emit_forward_for_event syn ev probe paired = ([], [])) as Hem
      by (unfold emit_forward_for_event; by rewrite Hk).
    rewrite !fmap_cons, Hem. by split. }
  destruct (H (sort_events (live_events evs))) as [-> ->].
  { intros ev [? _]%elem_of_forward_live. done. }
  split; [done|]. rewrite app_nil_r. unfold initial_warnings.
  destruct (c_ended_at command); [|done].
  assert (List.filter e_partial evs = []) as ->; [|done].
  assert (∀ l : list CaptureEvent, (∀ ev, ev ∈ l → ev ∈ evs) → List.filter e_partial l = [])
    as Hf; [|by apply Hf].
  induction l as [|ev l IH]; intros Hl; [done|]. simpl.
  destruct (Hall ev) as [-> _]; [apply Hl; left|]. apply IH. intros e He. apply Hl. by right.
Qed.

End Facts.

(** ** Concrete commands *)

Definition ex_ln : CaptureEvent :=
  ex_event 4 (CaptureEventKind.TreeOp (TreeOp.Link (mkInode 1 10) (path_of_string "/w/g"))).

Lemma plan_forward_redoable_witness :
  Forall (λ n, redoable (n_op n) = true)
    (p_nodes (plan_forward no_synth (ex_cmd "sed -i s/a/b/ f") ex_replace ex_probe ex_store)).
Proof. apply Forall_forall. intros n Hn. exact (plan_forward_redoable no_synth _ _ _ _ n Hn). Defined.

Example redo_replace_nodes :
  n_op <$> p_nodes (plan_forward no_synth (ex_cmd "sed -i s/a/b/ f") ex_replace ex_probe ex_store) =
  [InverseOp.RecreatePath (path_of_string "/w/f") FileKind.Regular 33188;
   InverseOp.Unlink (path_of_string "/w/f")].
Proof. vm_compute. reflexivity. Qed.

Lemma plan_forward_accounts_witness :
  (∃ n n', n ∈ p_nodes (plan_forward no_synth (ex_cmd "sed -i s/a/b/ f") ex_replace ex_probe
      ex_store) ∧ n' ∈ [] ∧ n_op n = n_op n')
  ∨ ∃ w, w ∈ p_warnings (plan_forward no_synth (ex_cmd "sed -i s/a/b/ f") ex_replace ex_probe
      ex_store) ∧ w ∈ [informational InverseTier.Files [Lit "cannot redo file write to ";
        PathDisplay (path_of_string "/w/f"); Lit " — capture tier records pre-content only"]].
Proof.
  refine (plan_forward_accounts no_synth (ex_cmd "sed -i s/a/b/ f") ex_replace ex_probe ex_store
    (hd ex_ln ex_replace) _ _ _).
  - left.
  - reflexivity.
  - intros [H _]. discriminate H.
Defined.

Lemma plan_forward_canonical_witness :
  plan_forward no_synth (ex_cmd "sed -i s/a/b/ f") ex_replace ex_probe ex_store =
  plan_forward no_synth (ex_cmd "sed -i s/a/b/ f") (reverse ex_replace) ex_probe ex_store.
Proof.
  apply (plan_forward_canonical no_synth).
  - unfold unique_ids. apply (bool_decide_unpack _). vm_compute. exact I.
  - by rewrite reverse_Permutation.
Defined.

Lemma plan_forward_drops_hard_links_witness :
  p_warnings (plan_forward no_synth (ex_cmd "ln f g") [ex_ln] ex_probe ex_store) = [].
Proof.
  refine (proj2 (plan_forward_drops_hard_links no_synth (ex_cmd "ln f g") [ex_ln] ex_probe ex_store
    _ _)).
  - discriminate.
  - intros ev ->%list_elem_of_singleton. split; [reflexivity|]. do 2 eexists. reflexivity.
Defined.

End ForwardFacts.
