(* ===== verification/Executor.v ===== *)
(** * The executor contract

    [executor.rs]: outcomes, records, reports and conflict policies, and the
    contract between the orchestrator and the per-tier executors. The world
    an executor mutates is a type parameter: an executor maps an operation
    and a world to an outcome and a world, and the live probe reads the
    world. *)

From S2P Require Import Prelude Paths Base Events Inverse Probe.

Module Executor.

Module ExecutionOutcome.
Inductive ExecutionOutcome :=
  | Applied
  | WouldApply
  | Skipped (reason : Msg)
  | Conflict (kind : Inverse.Conflict)
  | Failed (err : Msg).
End ExecutionOutcome.
Abbreviation ExecutionOutcome := ExecutionOutcome.ExecutionOutcome.

Definition is_inert (o : ExecutionOutcome) : bool :=
  match o with
  | ExecutionOutcome.WouldApply | ExecutionOutcome.Skipped _
  | ExecutionOutcome.Conflict _ => true
  | _ => false
  end.

Definition verb_past_tense (o : ExecutionOutcome) : string :=
  match o with
  | ExecutionOutcome.Applied => "applied"
  | ExecutionOutcome.WouldApply => "would apply"
  | ExecutionOutcome.Skipped _ => "skipped"
  | ExecutionOutcome.Conflict _ => "conflict"
  | ExecutionOutcome.Failed _ => "failed"
  end.

Module OutcomeKind.
Inductive OutcomeKind :=
  | Applied | WouldApply | Skipped | ConflictSoft | ConflictHard
  | ConflictMissing | ConflictPhantom | Failed.
End OutcomeKind.
Abbreviation OutcomeKind := OutcomeKind.OutcomeKind.

#[export] Instance OutcomeKind_eq_dec : EqDecision OutcomeKind.
Proof. solve_decision. Defined.

Definition from_outcome (o : ExecutionOutcome) : OutcomeKind :=
  match o with
  | ExecutionOutcome.Applied => OutcomeKind.Applied
  | ExecutionOutcome.WouldApply => OutcomeKind.WouldApply
  | ExecutionOutcome.Skipped _ => OutcomeKind.Skipped
  | ExecutionOutcome.Conflict (Conflict.Soft _) => OutcomeKind.ConflictSoft
  | ExecutionOutcome.Conflict (Conflict.Hard _) => OutcomeKind.ConflictHard
  | ExecutionOutcome.Conflict (Conflict.Missing _) => OutcomeKind.ConflictMissing
  | ExecutionOutcome.Conflict (Conflict.Phantom _) => OutcomeKind.ConflictPhantom
  | ExecutionOutcome.Failed _ => OutcomeKind.Failed
  end.

Record ExecutionRecord := mkRecord {
  r_op_index : nat;
  r_op : InverseOp;
  r_tier : InverseTier;
  r_outcome_kind : OutcomeKind;
  r_detail : option Msg;
}.

Module ConflictPolicy.
Inductive ConflictPolicy := Abort | Skip | Force.
End ConflictPolicy.
Abbreviation ConflictPolicy := ConflictPolicy.ConflictPolicy.

#[export] Instance ConflictPolicy_eq_dec : EqDecision ConflictPolicy.
Proof. solve_decision. Defined.

Record PlanSummary := mkSummary {
  ps_command_id : CommandId;
  ps_cmd_string : option string;
  ps_cwd : PathBuf;
  ps_node_count : nat;
}.

Definition from_plan (plan : UndoPlan) : PlanSummary :=
  mkSummary (c_command (p_command plan)) (c_cmd_string (p_command plan))
    (c_cwd (p_command plan)) (length (p_nodes plan)).

Record ExecutionReport := mkReport {
  plan_summary : PlanSummary;
  records : list ExecutionRecord;
  rep_dry_run : bool;
  rep_policy : ConflictPolicy;
}.

Definition fully_applied (r : ExecutionReport) : bool :=
  forallb (λ x, match r_outcome_kind x with
                | OutcomeKind.Applied | OutcomeKind.WouldApply => true
                | _ => false
                end) (records r).

Definition count_outcomes (r : ExecutionReport) (kind : OutcomeKind) : nat :=
  length (List.filter (λ x, bool_decide (r_outcome_kind x = kind)) (records r)).

(** The [InverseOpExecutor] and the live [StateProbe] over one world. *)
Record Runtime (W : Type) := mkRuntime {
  execute : InverseOp → bool → ConflictPolicy → W → ExecutionOutcome * W;
  probe : W → StateProbe;
}.
Arguments mkRuntime {W}.
Arguments execute {W}.
Arguments probe {W}.

(** ** Laws an executor may satisfy *)

(** A dry run leaves the world alone. *)
Class DryRunPure {W} (rt : Runtime W) : Prop :=
  dry_run_pure : ∀ op policy w, (execute rt op true policy w).2 = w.

End Executor.
