(* ===== verification/Env.v ===== *)
(** * Environment tracking

    [env.rs] (wire format, filter, diff) and [executors/env.rs] (the snippet
    an undo emits). [blake3] is a parameter. Texts are valid UTF-8, where
    [from_utf8_lossy] is the identity. *)

From S2P Require Import Prelude Paths Base Events Inverse ShellRender Probe Executor Plan PlanForward.

Module Env.
Import Executor.

(** ** Filter *)

Definition DEFAULT_IGNORE : list string :=
  ["_"; "OLDPWD"; "SHLVL"; "RANDOM"; "LINENO"; "PROMPT_COMMAND";
   "STARSHIP_SESSION_KEY"; "STARSHIP_SHELL"; "STARSHIP_START_TIME"; "PWD"; "SECONDS"].

Definition DEFAULT_IGNORE_PREFIXES : list string := ["STARSHIP_"].

Definition DEFAULT_REDACT_SUBSTRINGS : list string :=
  ["TOKEN"; "SECRET"; "PASSWORD"; "API_KEY"; "APIKEY"].

Record EnvFilter := mkEnvFilter {
  ignore : list string;
  ignore_prefixes : list string;
  redact_substrings : list string;
  track_all : bool;
}.

Definition default_filter : EnvFilter :=
  mkEnvFilter DEFAULT_IGNORE DEFAULT_IGNORE_PREFIXES DEFAULT_REDACT_SUBSTRINGS false.

Definition is_ignored (f : EnvFilter) (name : string) : bool :=
  if track_all f then false
  else if existsb (λ n, bool_decide (n = name)) (ignore f) then true
  else if existsb (λ p, String.prefix p name) (ignore_prefixes f) then true
  else false.

(** [to_ascii_uppercase]. *)
Definition ascii_upper (c : Ascii.ascii) : Ascii.ascii :=
  let n := Ascii.N_of_ascii c in
  if bool_decide (97 ≤ n)%N && bool_decide (n ≤ 122)%N
  then Ascii.ascii_of_N (n - 32) else c.

Fixpoint to_ascii_uppercase (s : string) : string :=
  match s with
  | EmptyString => ""
  | String c s' => String (ascii_upper c) (to_ascii_uppercase s')
  end.

(** [str::contains]. *)
Fixpoint str_contains (s sub : string) : bool :=
  String.prefix sub s ||
  match s with
  | EmptyString => false
  | String _ s' => str_contains s' sub
  end.

Definition is_redacted (f : EnvFilter) (name : string) : bool :=
  let upper := to_ascii_uppercase name in
  existsb (λ s, str_contains upper s) (redact_substrings f).

(** ** Wire format *)

Definition entry_string (kv : string * string) : string := kv.1 +:+ "=" +:+ kv.2.

Fixpoint join_nul (chunks : list string) : string :=
  match chunks with
  | [] => ""
  | [c] => c
  | c :: cs => c +:+ String "000" (join_nul cs)
  end.

Definition canonicalize (env : gmap string string) : string :=
  join_nul (entry_string <$> btree_iter env).

(** [block.split(|&b| b == 0)]. *)
Fixpoint split_nul (s : string) : list string :=
  match s with
  | EmptyString => [""]
  | String c s' =>
      if bool_decide (c = "000"%char) then "" :: split_nul s'
      else match split_nul s' with
           | [] => [String c ""]
           | w :: ws => String c w :: ws
           end
  end.

(** Split at the first [=]. *)
Fixpoint split_eq (s : string) : option (string * string) :=
  match s with
  | EmptyString => None
  | String c s' =>
      if bool_decide (c = "="%char) then Some ("", s')
      else prod_map (String c) id <$> split_eq s'
  end.

Definition parse_chunk (out : gmap string string) (chunk : string) : gmap string string :=
  if bool_decide (chunk = "") then out
  else match split_eq chunk with
  | Some (k, v) => <[k := v]> out
  | None => out
  end.

Definition parse_block (block : string) : gmap string string :=
  foldl parse_chunk ∅ (split_nul block).

(** ** Diff *)

Record EnvDiff := mkEnvDiff {
  added : gmap string string;
  removed : gmap string string;
  modified : gmap string (string * string);
}.

Section Diff.
Context (blake3 : string → list N).

Definition redact_value (value : string) : string :=
  "<redacted:" +:+ foldr (λ b s, hex_byte b +:+ s) "" (take 4 (blake3 value)) +:+ ">".

Definition project (f : EnvFilter) (name value : string) : string :=
  if is_redacted f name then redact_value value else value.

Definition post_step (pre : gmap string string) (f : EnvFilter)
    (acc : gmap string string * gmap string (string * string)) (kv : string * string) :=
  let '(name, value) := kv in
  if is_ignored f name then acc
  else match pre !! name with
  | None => (<[name := project f name value]> acc.1, acc.2)
  | Some prev =>
      if negb (bool_decide (prev = value))
      then (acc.1, <[name := (project f name prev, project f name value)]> acc.2)
      else acc
  end.

Definition pre_step (post : gmap string string) (f : EnvFilter)
    (acc : gmap string string) (kv : string * string) : gmap string string :=
  let '(name, value) := kv in
  if is_ignored f name then acc
  else match post !! name with
  | None => <[name := project f name value]> acc
  | Some _ => acc
  end.

Definition diff_env_maps (pre post : gmap string string) (f : EnvFilter) : EnvDiff :=
  let '(added, modified) := foldl (post_step pre f) (∅, ∅) (btree_iter post) in
  let removed := foldl (pre_step post f) ∅ (btree_iter pre) in
  mkEnvDiff added removed modified.

Definition diff_env_blocks (pre post : string) (f : EnvFilter) : EnvDiff :=
  diff_env_maps (parse_block pre) (parse_block post) f.
End Diff.

(** ** Executor *)

Definition REDACTED_PREFIX : string := "<redacted:".

Fixpoint quote_chars (s : string) : string :=
  match s with
  | EmptyString => ""
  | String c s' =>
      if bool_decide (c = "'"%char) then "'\''" +:+ quote_chars s'
      else String c (quote_chars s')
  end.

Definition posix_single_quote (value : string) : string :=
  String "'" (quote_chars value +:+ "'").

Definition is_ascii_alphabetic (c : Ascii.ascii) : bool :=
  let n := Ascii.N_of_ascii c in
  (bool_decide (65 ≤ n)%N && bool_decide (n ≤ 90)%N)
  || (bool_decide (97 ≤ n)%N && bool_decide (n ≤ 122)%N).

Definition is_ascii_alphanumeric (c : Ascii.ascii) : bool :=
  let n := Ascii.N_of_ascii c in
  is_ascii_alphabetic c || (bool_decide (48 ≤ n)%N && bool_decide (n ≤ 57)%N).

Fixpoint all_chars (f : Ascii.ascii → bool) (s : string) : bool :=
  match s with
  | EmptyString => true
  | String c s' => f c && all_chars f s'
  end.

Definition is_valid_name (name : string) : bool :=
  match name with
  | EmptyString => false
  | String first rest =>
      if negb (is_ascii_alphabetic first || bool_decide (first = "_"%char)) then false
      else all_chars (λ c, is_ascii_alphanumeric c || bool_decide (c = "_"%char)) rest
  end.

(** What [execute] decides before touching the sink: the line to append, or
    the failure on an invalid name; [None] for a non-env operation. *)
Inductive EnvLine := Line (l : string) | InvalidName (name : string) | NotEnv.

Definition env_line (op : InverseOp) : EnvLine :=
  match op with
  | InverseOp.SetEnv name value =>
      if negb (is_valid_name name) then InvalidName name
      else if String.prefix REDACTED_PREFIX value then
        Line ("unset " +:+ name +:+ "  # original value was redacted at capture")
      else Line ("export " +:+ name +:+ "=" +:+ posix_single_quote value)
  | InverseOp.UnsetEnv name =>
      if negb (is_valid_name name) then InvalidName name
      else Line ("unset " +:+ name)
  | _ => NotEnv
  end.

(** [StringSnippetSink::append_line]. *)
Definition append_line (b line : string) : string :=
  let b := if negb (bool_decide (b = "")) && negb (ShellRender.ends_with_nl b)
           then b +:+ ShellRender.nl else b in
  b +:+ line +:+ ShellRender.nl.

(** [EnvExecutor::execute] on the sink's buffer. *)
Definition env_execute (op : InverseOp) (dry_run : bool) (policy : ConflictPolicy)
    (buf : string) : ExecutionOutcome * string :=
  match env_line op with
  | InvalidName name =>
      (ExecutionOutcome.Failed [Lit "invalid env var name: "; DebugVariant name []], buf)
  | NotEnv => (ExecutionOutcome.Skipped [Lit "env executor reached non-env op"], buf)
  | Line line =>
      if dry_run then (ExecutionOutcome.WouldApply, buf)
      else (ExecutionOutcome.Applied, append_line buf line)
  end.

(** The env tier as a runtime: the world is the snippet; it has no files. *)
Definition env_runtime : Runtime string :=
  mkRuntime env_execute (λ _, mkProbe (λ _, None) (λ _, None)).

#[export] Instance env_runtime_dry : DryRunPure env_runtime.
Proof. intros op policy w. simpl. unfold env_execute. by destruct (env_line op). Qed.

(** The snippet the env nodes of a plan leave behind. *)
Definition emit_snippet (nodes : list PlanNode) : string :=
  foldl (λ buf n, (env_execute (n_op n) false ConflictPolicy.Abort buf).2) "" nodes.

End Env.
