(* ===== verification/EnvFacts.v ===== *)
(** * Properties of environment tracking

    The wire format round-trips, the diff is exact, the operations of the
    undo and redo plans of a diff lead back and forth, and quoted words are
    read back by the word rules of the shell. *)

From S2P Require Import Prelude Paths Base Events Inverse ShellRender Executor Plan PlanForward Env.

Module EnvFacts.
Import Env.

(** ** Wire format *)

Fixpoint has_char (c : Ascii.ascii) (s : string) : bool :=
  match s with
  | EmptyString => false
  | String d s' => bool_decide (d = c) || has_char c s'
  end.

(** What POSIX allows in an environment block. *)
Definition entry_ok (kv : string * string) : Prop :=
  has_char "000" kv.1 = false ∧ has_char "=" kv.1 = false ∧ has_char "000" kv.2 = false.

Lemma has_char_app (c : Ascii.ascii) (a b : string) :
  has_char c (a +:+ b) = has_char c a || has_char c b.
Proof.
  induction a as [|d a IH]; [done|]. rewrite string_cons_app. simpl.
  by rewrite IH, orb_assoc.
Qed.

Lemma split_nul_single (s : string) : has_char "000" s = false → split_nul s = [s].
Proof.
  induction s as [|c s IH]; [done|]. simpl. rewrite orb_false_iff. intros [-> Hs].
  by rewrite IH.
Qed.

Lemma split_nul_app (a b : string) :
  has_char "000" a = false → split_nul (a +:+ String "000" b) = a :: split_nul b.
Proof.
  induction a as [|c a IH]; intros Ha; [done|]. simpl in Ha.
  apply orb_false_iff in Ha as [Hc Ha]. rewrite string_cons_app. cbn [split_nul].
  by rewrite Hc, IH.
Qed.

Lemma split_nul_join (cs : list string) :
  cs ≠ [] → Forall (λ c, has_char "000" c = false) cs → split_nul (join_nul cs) = cs.
Proof.
  intros Hne H. induction H as [|c cs Hc Hcs IH]; [done|]. simpl.
  destruct cs as [|d cs]; [by apply split_nul_single|].
  rewrite split_nul_app by done. by rewrite IH.
Qed.

Lemma split_eq_entry (k v : string) :
  has_char "=" k = false → split_eq (k +:+ "=" +:+ v) = Some (k, v).
Proof.
  induction k as [|c k IH]; intros Hk; [done|]. simpl in Hk.
  apply orb_false_iff in Hk as [Hc Hk]. rewrite string_cons_app. cbn [split_eq].
  by rewrite Hc, IH.
Qed.

Lemma parse_chunk_entry (out : gmap string string) (kv : string * string) :
  has_char "=" kv.1 = false → parse_chunk out (entry_string kv) = <[kv.1 := kv.2]> out.
Proof.
  intros Hk. unfold parse_chunk, entry_string. rewrite split_eq_entry by done.
  rewrite bool_decide_eq_false_2; [done|]. by destruct (kv.1).
Qed.

Lemma parse_chunks (l : list (string * string)) (out : gmap string string) :
  Forall entry_ok l →
  foldl parse_chunk out (entry_string <$> l) = foldl (λ m kv, <[kv.1 := kv.2]> m) out l.
Proof.
  intros H. revert out. induction H as [|kv l [_ [Hk _]] Hl IH]; intros out; [done|].
  rewrite fmap_cons. cbn [foldl]. by rewrite parse_chunk_entry, IH.
Qed.

(** An environment block survives the wire: for every map whose names
    hold neither NUL nor [=] and whose values hold no NUL, parsing the
    canonical block gives the map back, so that pre- and post-command blocks
    are compared as the shell saw them. *)
Theorem parse_canonicalize (env : gmap string string) :
  (∀ k v, env !! k = Some v → entry_ok (k, v)) →
  parse_block (canonicalize env) = env.
Proof.
  intros Hok. unfold parse_block, canonicalize.
  assert (Forall entry_ok (btree_iter env)) as Hall.
  { apply Forall_forall. intros [k v] Hin. by apply Hok, elem_of_btree_iter. }
  destruct (btree_iter env) as [|kv l] eqn:E.
  { assert (env = ∅) as ->; [|done]. rewrite <- (list_to_map_btree_iter env), E. done. }
  rewrite split_nul_join; [|done|].
  - rewrite <- E in *. rewrite parse_chunks by done. apply map_eq. intros n.
    rewrite (foldl_btree_at_key _ (λ m, m !! n) n (λ v _, Some v)); simpl.
    + by destruct (env !! n).
    + intros acc k v Hk. by rewrite lookup_insert_ne.
    + intros acc v. by rewrite lookup_insert_eq.
  - apply Forall_fmap. eapply Forall_impl; [done|]. intros [k v] (H1 & _ & H3).
    unfold compose, entry_string. simpl. rewrite !has_char_app. simpl in *. by rewrite H1, H3.
Qed.

Definition ex_env : gmap string string := <["A" := "1"]> {["PATH" := "/bin:a=b"]}.

Lemma parse_canonicalize_witness : parse_block (canonicalize ex_env) = ex_env.
Proof.
  apply parse_canonicalize. unfold ex_env. intros k v.
  rewrite lookup_insert_Some, lookup_singleton_Some.
  intros [[<- <-]|[_ [<- <-]]]; repeat split; vm_compute; reflexivity.
Defined.

(** ** Diff *)

Section DiffFacts.
Context (blake3 : string → list N) (pre post : gmap string string) (f : EnvFilter).

Let d := diff_env_maps blake3 pre post f.

Lemma diff_added (n : string) :
  added d !! n =
  match post !! n with
  | Some v => if is_ignored f n then None
              else match pre !! n with
                   | None => Some (project blake3 f n v)
                   | Some _ => None
                   end
  | None => None
  end.
Proof.
  unfold d, diff_env_maps.
  destruct (foldl _ _ (btree_iter post)) as [a m] eqn:E. simpl.
  replace a with (foldl (post_step blake3 pre f) (∅, ∅) (btree_iter post)).1 by (by rewrite E).
  rewrite (foldl_btree_at_key _ (λ acc, acc.1 !! n) n (λ v x,
    if is_ignored f n then x else match pre !! n with
    | None => Some (project blake3 f n v) | Some _ => x end)).
  - simpl. rewrite lookup_empty. by destruct (post !! n).
  - intros acc k v Hk. unfold post_step. destruct (is_ignored f k); [done|].
    destruct (pre !! k); [by case_bool_decide|]. simpl. by rewrite lookup_insert_ne.
  - intros acc v. unfold post_step. destruct (is_ignored f n); [done|].
    destruct (pre !! n); [by case_bool_decide|]. simpl. by rewrite lookup_insert_eq.
Qed.

Lemma diff_modified (n : string) :
  modified d !! n =
  match post !! n with
  | Some v => if is_ignored f n then None
              else match pre !! n with
                   | None => None
                   | Some u => if bool_decide (u = v) then None
                       else Some (project blake3 f n u, project blake3 f n v)
                   end
  | None => None
  end.
Proof.
  unfold d, diff_env_maps.
  destruct (foldl _ _ (btree_iter post)) as [a m] eqn:E. simpl.
  replace m with (foldl (post_step blake3 pre f) (∅, ∅) (btree_iter post)).2 by (by rewrite E).
  rewrite (foldl_btree_at_key _ (λ acc, acc.2 !! n) n (λ v x,
    if is_ignored f n then x else match pre !! n with
    | None => x
    | Some u => if bool_decide (u = v) then x
        else Some (project blake3 f n u, project blake3 f n v) end)).
  - simpl. rewrite lookup_empty. by destruct (post !! n).
  - intros acc k v Hk. unfold post_step. destruct (is_ignored f k); [done|].
    destruct (pre !! k); [|done]. case_bool_decide; [done|]. simpl. by rewrite lookup_insert_ne.
  - intros acc v. unfold post_step. destruct (is_ignored f n); [done|].
    destruct (pre !! n); [|done]. case_bool_decide; [done|]. simpl. by rewrite lookup_insert_eq.
Qed.

Lemma diff_removed (n : string) :
  removed d !! n =
  match pre !! n with
  | Some v => if is_ignored f n then None
              else match post !! n with
                   | None => Some (project blake3 f n v)
                   | Some _ => None
                   end
  | None => None
  end.
Proof.
  unfold d, diff_env_maps. destruct (foldl _ _ (btree_iter post)) as [a m]. simpl.
  rewrite (foldl_btree_at_key _ (λ acc, acc !! n) n (λ v x,
    if is_ignored f n then x else match post !! n with
    | None => Some (project blake3 f n v) | Some _ => x end)).
  - rewrite lookup_empty. by destruct (pre !! n).
  - intros acc k v Hk. unfold pre_step. destruct (is_ignored f k); [done|].
    destruct (post !! k); [done|]. by rewrite lookup_insert_ne.
  - intros acc v. unfold pre_step. destruct (is_ignored f n); [done|].
    destruct (post !! n); [done|]. by rewrite lookup_insert_eq.
Qed.
End DiffFacts.

(** ** What an executed operation does to the environment *)

Definition env_effect (env : gmap string string) (op : InverseOp) : gmap string string :=
  match op with
  | InverseOp.SetEnv name value =>
      if is_valid_name name then
        if String.prefix REDACTED_PREFIX value then delete name env
        else <[name := value]> env
      else env
  | InverseOp.UnsetEnv name => if is_valid_name name then delete name env else env
  | _ => env
  end.

Definition env_effects (env : gmap string string) (nodes : list PlanNode)
    : gmap string string :=
  foldl (λ e n, env_effect e (n_op n)) env nodes.

Lemma env_effects_app env l k : env_effects env (l ++ k) = env_effects (env_effects env l) k.
Proof. apply foldl_app. Qed.

(** A value as the executor restores it. *)
Definition restored (v : string) : option string :=
  if String.prefix REDACTED_PREFIX v then None else Some v.

Lemma env_effects_set {V} (g : V → string) (m : gmap string V) env (n : string) :
  is_valid_name n = true →
  env_effects env ((λ kv, node (InverseOp.SetEnv kv.1 (g kv.2)) None) <$> btree_iter m) !! n =
  match m !! n with Some v => restored (g v) | None => env !! n end.
Proof.
  intros Hn. unfold env_effects. rewrite foldl_fmap.
  rewrite (foldl_btree_at_key _ (λ e : gmap string string, e !! n) n (λ v _, restored (g v))).
  - by destruct (m !! n).
  - intros acc k v Hk. simpl. repeat case_match; by rewrite ?lookup_delete_ne, ?lookup_insert_ne.
  - intros acc v. simpl. rewrite Hn. unfold restored. case_match.
    + apply lookup_delete_eq.
    + apply lookup_insert_eq.
Qed.

Lemma env_effects_unset {V} (m : gmap string V) env (n : string) :
  is_valid_name n = true →
  env_effects env ((λ kv, node (InverseOp.UnsetEnv kv.1) None) <$> btree_iter m) !! n =
  match m !! n with Some v => None | None => env !! n end.
Proof.
  intros Hn. unfold env_effects. rewrite foldl_fmap.
  rewrite (foldl_btree_at_key _ (λ e : gmap string string, e !! n) n (λ v _, None)).
  - by destruct (m !! n).
  - intros acc k v Hk. simpl. repeat case_match; by rewrite ?lookup_delete_ne.
  - intros acc v. simpl. rewrite Hn. apply lookup_delete_eq.
Qed.

(** The undo operations of a diff, at one variable, applied to what the command
    left: an ignored variable stays, another gets its value from before the
    command, unless that is redacted: then it is unset. *)
Theorem env_undo_at blake3 (pre post : gmap string string) (f : EnvFilter) (n : string) :
  let d := diff_env_maps blake3 pre post f in
  is_valid_name n = true →
  env_effects post (Plan.emit_env_diff (added d) (removed d) (modified d)) !! n =
  if is_ignored f n then post !! n
  else if bool_decide (pre !! n = post !! n) then post !! n
  else (pre !! n) ≫= (λ v, restored (project blake3 f n v)).
Proof.
  intros d Hn. unfold Plan.emit_env_diff. rewrite !env_effects_app.
  rewrite (env_effects_set fst), (env_effects_set id), env_effects_unset by done.
  rewrite (diff_added blake3 pre post f), (diff_removed blake3 pre post f),
    (diff_modified blake3 pre post f).
  destruct (is_ignored f n), (pre !! n) as [u|], (post !! n) as [v|]; simpl;
    try done; repeat case_bool_decide; simplify_eq/=; done.
Qed.

(** The redo operations of a diff, at one variable, applied to what was there
    before the command. *)
Theorem env_redo_at blake3 (pre post : gmap string string) (f : EnvFilter) (n : string) :
  let d := diff_env_maps blake3 pre post f in
  is_valid_name n = true →
  env_effects pre (PlanForward.forward_env_diff (added d) (removed d) (modified d)) !! n =
  if is_ignored f n then pre !! n
  else if bool_decide (pre !! n = post !! n) then pre !! n
  else (post !! n) ≫= (λ v, restored (project blake3 f n v)).
Proof.
  intros d Hn. unfold PlanForward.forward_env_diff. rewrite !env_effects_app.
  rewrite (env_effects_set snd), env_effects_unset, (env_effects_set id) by done.
  rewrite (diff_added blake3 pre post f), (diff_removed blake3 pre post f),
    (diff_modified blake3 pre post f).
  destruct (is_ignored f n), (pre !! n) as [u|], (post !! n) as [v|]; simpl;
    try done; repeat case_bool_decide; simplify_eq/=; done.
Qed.

(** ** Names and quoted values in a shell word *)

Definition name_char (c : Ascii.ascii) : bool :=
  is_ascii_alphanumeric c || bool_decide (c = "_"%char).

Lemma name_char_literal (c : Ascii.ascii) :
  name_char c = true →
  bool_decide (c = "'"%char) = false ∧ bool_decide (c = "\"%char) = false
  ∧ ShellRender.ends_word c = false ∧ ShellRender.expands c = false
  ∧ bool_decide (c = "="%char) = false.
Proof.
  destruct c as [[] [] [] [] [] [] [] []]; vm_compute; intros; repeat split; congruence.
Qed.

Lemma sh_word_name (name rest : string) :
  all_chars name_char name = true →
  ShellRender.sh_word ShellRender.Unquoted rest = Some ("", rest) →
  ShellRender.sh_word ShellRender.Unquoted (name +:+ rest) = Some (name, rest).
Proof.
  intros Hn Hr. induction name as [|c name IH]; [done|]. simpl in Hn.
  apply andb_true_iff in Hn as [Hc Hn].
  destruct (name_char_literal c Hc) as (H1 & H2 & H3 & H4 & _).
  rewrite string_cons_app. cbn [ShellRender.sh_word]. rewrite H1, H2, H3, H4, IH by done. done.
Qed.

Lemma posix_single_quote_eq (s : string) : posix_single_quote s = ShellRender.sh_quote s.
Proof.
  unfold posix_single_quote, ShellRender.sh_quote. rewrite string_cons_app.
  assert (quote_chars s = ShellRender.replace "'" "'\''" s) as ->; [|done].
  induction s as [|c s IH]; [done|]. cbn. by rewrite IH.
Qed.

End EnvFacts.
