(* ===== verification/Orchestrator.v ===== *)
(** * Plan execution

    [orchestrator.rs]: the sequential walk of a plan, the per-operation
    evaluator with its execute time precondition checks, and the
    cohort-parallel walk. The compiled [--paths] filter ([globset]) is a
    predicate. *)

From S2P Require Import Prelude Paths Base Events Inverse Cohort Probe Executor.

Module Orchestrator.
Import Executor.

(** ** orchestrator.rs *)

(** [groups.last_mut()] and the push. *)
Definition group_push (groups : list (N * list nat)) (i : nat) (c : N)
    : list (N * list nat) :=
  match rev groups with
  | (c', idx) :: r =>
      if bool_decide (c' = c) then rev r ++ [(c', idx ++ [i])]
      else groups ++ [(c, [i])]
  | [] => groups ++ [(c, [i])]
  end.

Fixpoint group_from (groups : list (N * list nat)) (i : nat) (nodes : list PlanNode)
    : list (N * list nat) :=
  match nodes with
  | [] => groups
  | n :: nodes' => group_from (group_push groups i (n_cohort n)) (S i) nodes'
  end.

Definition group_by_cohort (nodes : list PlanNode) : list (N * list nat) :=
  group_from [] 0 nodes.

Definition precondition_missing (p : PathBuf) (probe : StateProbe) : option Conflict :=
  if exists_ probe p then None
  else Some (Conflict.Missing [PathDebug p; Lit " no longer exists"]).

Definition precondition_recreate (path : PathBuf) (kind : FileKind) (probe : StateProbe)
    : option Conflict :=
  match stat probe path with
  | None => None
  | Some s =>
      if bool_decide (kind = FileKind.Directory)
         && bool_decide (FileKind_from_mode (m_mode (s_meta s)) = Some FileKind.Directory)
      then None
      else Some (Conflict.Phantom [PathDebug path; Lit " already exists; cannot recreate"])
  end.

Definition precondition_conflict (op : InverseOp) (probe : StateProbe) : option Conflict :=
  match op with
  | InverseOp.RestoreContent _ _ _ => None
  | InverseOp.RestoreMetadata _ path _
  | InverseOp.Unlink path
  | InverseOp.FileExtend path _ => precondition_missing path probe
  | InverseOp.RestoreFlags inode path _ =>
      match stat probe path with
      | None => Some (Conflict.Missing [PathDebug path; Lit " no longer exists"])
      | Some s =>
          if negb (bool_decide (s_inode s = inode)) then
            Some (Conflict.Phantom [PathDebug path; Lit " now refers to inode ";
              InodeDebug (s_inode s); Lit ", expected "; InodeDebug inode])
          else None
      end
  | InverseOp.RecreatePath path kind _ => precondition_recreate path kind probe
  | InverseOp.CreateSymlink _ path =>
      if exists_ probe path then
        Some (Conflict.Phantom [PathDebug path; Lit " already exists; cannot recreate"])
      else None
  | InverseOp.CreateHardlink source target =>
      if negb (exists_ probe source) then
        Some (Conflict.Missing [Lit "hardlink source "; PathDebug source;
          Lit " no longer exists; cannot link "; PathDebug target])
      else if exists_ probe target then
        Some (Conflict.Phantom [PathDebug target; Lit " already exists; cannot link"])
      else None
  | InverseOp.Rename from to =>
      if negb (exists_ probe from) then
        Some (Conflict.Missing [Lit "rename source "; PathDebug from; Lit " does not exist"])
      else if exists_ probe to then
        Some (Conflict.Phantom [Lit "rename target "; PathDebug to; Lit " already exists"])
      else None
  | _ => None
  end.

(** The first question a precondition puts to the probe, and the second of
    those that ask two. *)
Definition precondition_first (op : InverseOp) (probe : StateProbe) : option Conflict :=
  match op with
  | InverseOp.CreateHardlink source target =>
      if exists_ probe source then None
      else Some (Conflict.Missing [Lit "hardlink source "; PathDebug source;
             Lit " no longer exists; cannot link "; PathDebug target])
  | InverseOp.Rename from _ =>
      if exists_ probe from then None
      else Some (Conflict.Missing [Lit "rename source "; PathDebug from; Lit " does not exist"])
  | _ => precondition_conflict op probe
  end.

Definition precondition_second (op : InverseOp) (probe : StateProbe) : option Conflict :=
  match op with
  | InverseOp.CreateHardlink _ target =>
      if exists_ probe target then
        Some (Conflict.Phantom [PathDebug target; Lit " already exists; cannot link"])
      else None
  | InverseOp.Rename _ to =>
      if exists_ probe to then
        Some (Conflict.Phantom [Lit "rename target "; PathDebug to; Lit " already exists"])
      else None
  | _ => None
  end.

(** The record slots of the parallel walk. *)
Abbreviation Slots := (list (option ExecutionRecord)).

(** Where a thread of a cohort is: waiting for a permit, holding one, between
    the questions of its precondition, about to act on the answer, with its
    record at hand, past the abort flag, past its slot, and past the permit. *)
Module Worker.
Inductive Worker :=
  | Queued
  | Started
  | Asked
  | Decided (conflict : option Conflict)
  | Ran (record : ExecutionRecord)
  | Flagged (record : ExecutionRecord)
  | Stored
  | Left.
Definition left (th : Worker) : bool := match th with Left => true | _ => false end.
End Worker.

(** What the threads of a cohort share. *)
Record ParState (W : Type) := mkPar {
  workers : gmap nat Worker.Worker;
  records_slot : Slots;
  abort_flag : bool;
  semaphore : nat;
  shared_world : W;
}.
Arguments mkPar {W}.
Arguments workers {W}.
Arguments records_slot {W}.
Arguments abort_flag {W}.
Arguments semaphore {W}.
Arguments shared_world {W}.

Section Run.
Context {W : Type} (rt : Runtime W).
(** The compiled [--paths] filter. *)
Context (paths_filter : option (PathBuf → bool)).

Definition filtered_out (op : InverseOp) : bool :=
  match paths_filter with
  | None => false
  | Some is_match =>
      match primary_path op with
      | Some p => negb (is_match p)
      | None => false
      end
  end.

Definition filter_detail (op : InverseOp) : Msg :=
  [Lit "filtered out: ";
   match primary_path op with Some p => PathDisplay p | None => Lit "<no-path>" end;
   Lit " not matched by --paths"].

Definition refuse_detail (class : string) (reason : Msg) (remediation : option Msg) : Msg :=
  [Lit "refused ("; Lit class; Lit "): "] ++ reason
  ++ match remediation with Some rem => Lit ". Remediation: " :: rem | None => [] end.

(** The conflict [execute_one] acts on. *)
Definition effective_conflict (n : PlanNode) (w : W) : option Conflict :=
  match n_conflict n with
  | Some (Conflict.Hard d) => Some (Conflict.Hard d)
  | _ => precondition_conflict (n_op n) (probe rt w)
  end.

Definition outcome_detail (o : ExecutionOutcome) : option Msg :=
  match o with
  | ExecutionOutcome.Skipped reason => Some reason
  | ExecutionOutcome.Conflict kind => Some [conflict_debug kind]
  | ExecutionOutcome.Failed err => Some err
  | _ => None
  end.

(** The policy's answer to the conflict. *)
Definition act_on_conflict (conflict : option Conflict) (op : InverseOp) (dry_run : bool) (policy : ConflictPolicy)
    (w : W) : ExecutionOutcome * W :=
  match conflict, policy with
  | None, _ => execute rt op dry_run policy w
  | Some _, ConflictPolicy.Force => execute rt op dry_run policy w
  | Some c, ConflictPolicy.Skip =>
      (ExecutionOutcome.Skipped [Lit "conflict: "; conflict_debug c], w)
  | Some c, ConflictPolicy.Abort => (ExecutionOutcome.Conflict c, w)
  end.

Definition attempt (n : PlanNode) (dry_run : bool) (policy : ConflictPolicy) (w : W)
    : ExecutionOutcome * W :=
  act_on_conflict (effective_conflict n w) (n_op n) dry_run policy w.

Definition execute_one (op_index : nat) (n : PlanNode) (dry_run : bool)
    (policy : ConflictPolicy) (w : W) : ExecutionRecord * W :=
  let op := n_op n in
  let record kind detail := mkRecord op_index op (tier op) kind detail in
  if filtered_out op then
    (record OutcomeKind.Skipped (Some (filter_detail op)), w)
  else match op with
  | InverseOp.Refuse class reason remediation =>
      (record OutcomeKind.Skipped (Some (refuse_detail class reason remediation)), w)
  | _ =>
      let '(outcome, w') := attempt n dry_run policy w in
      (record (from_outcome outcome) (outcome_detail outcome), w')
  end.

(** The abort test of both walks. *)
Definition halts (policy : ConflictPolicy) (kind : OutcomeKind) : bool :=
  bool_decide (policy = ConflictPolicy.Abort)
  && match kind with
     | OutcomeKind.Failed | OutcomeKind.ConflictHard | OutcomeKind.ConflictPhantom => true
     | _ => false
     end.

Fixpoint run_from (op_index : nat) (nodes : list PlanNode) (dry_run : bool)
    (policy : ConflictPolicy) (w : W) : list ExecutionRecord * W :=
  match nodes with
  | [] => ([], w)
  | n :: nodes' =>
      let '(record, w') := execute_one op_index n dry_run policy w in
      if halts policy (r_outcome_kind record) then ([record], w')
      else
        let '(rest, w'') := run_from (S op_index) nodes' dry_run policy w' in
        (record :: rest, w'')
  end.

Definition run (plan : UndoPlan) (dry_run : bool) (policy : ConflictPolicy) (w : W)
    : ExecutionReport * W :=
  let '(recs, w') := run_from 0 (p_nodes plan) dry_run policy w in
  (mkReport (from_plan plan) recs dry_run policy, w').

(** *** run_parallel

    The threads of one cohort run until all are done, interleaved in any way.
    A question to the probe, an execution, and what is done under one lock are
    a step each. *)

(** A recorded drift is a conflict; otherwise the probe is asked. *)
Definition ask_first (n : PlanNode) (w : W) : Worker.Worker :=
  match n_conflict n with
  | Some (Conflict.Hard d) => Worker.Decided (Some (Conflict.Hard d))
  | _ =>
      match precondition_first (n_op n) (probe rt w) with
      | Some c => Worker.Decided (Some c)
      | None => Worker.Asked
      end
  end.

(** The next step of the thread of a node. A thread that finds no permit spins. *)
Definition worker_step (nodes : list PlanNode) (dry_run : bool) (policy : ConflictPolicy) (cap : nat)
    (st : ParState W) (i : nat) : ParState W :=
  let '(mkPar ths slots flag sem w) := st in
  let goto x := mkPar (<[i := x]> ths) in
  match ths !! i, nodes !! i with
  | Some th, Some n =>
      let op := n_op n in
      let record kind detail := mkRecord i op (tier op) kind detail in
      match th with
      | Worker.Queued =>
          if bool_decide (sem < cap) then goto Worker.Started slots flag (S sem) w else st
      | Worker.Started =>
          if filtered_out op then
            goto (Worker.Ran (record OutcomeKind.Skipped (Some (filter_detail op)))) slots flag sem w
          else match op with
          | InverseOp.Refuse class reason remediation =>
              goto (Worker.Ran (record OutcomeKind.Skipped (Some (refuse_detail class reason remediation))))
                slots flag sem w
          | _ => goto (ask_first n w) slots flag sem w
          end
      | Worker.Asked => goto (Worker.Decided (precondition_second op (probe rt w))) slots flag sem w
      | Worker.Decided conflict =>
          let '(outcome, w') := act_on_conflict conflict op dry_run policy w in
          goto (Worker.Ran (record (from_outcome outcome) (outcome_detail outcome))) slots flag sem w'
      | Worker.Ran r => goto (Worker.Flagged r) slots (flag || halts policy (r_outcome_kind r)) sem w
      | Worker.Flagged r => goto Worker.Stored (<[i := Some r]> slots) flag sem w
      | Worker.Stored => goto Worker.Left slots flag (Nat.pred sem) w
      | Worker.Left => st
      end
  | _, _ => st
  end.

Definition cohort_start (idx : list nat) (slots : Slots) (w : W) : ParState W :=
  mkPar (list_to_map ((λ i, (i, Worker.Queued)) <$> idx)) slots false 0 w.

(** Every thread of the scope has been joined. *)
Definition all_joined (st : ParState W) : Prop := map_Forall (λ _ th, Worker.left th = true) (workers st).
#[export] Instance all_joined_dec (st : ParState W) : Decision (all_joined st).
Proof. unfold all_joined. apply _. Defined.

Section Cohorts.
Context (nodes : list PlanNode) (dry_run : bool) (policy : ConflictPolicy) (max_parallel : nat).

(** A cohort, with its threads scheduled in the order of [schedule]. *)
Definition run_cohort (idx : list nat) (slots : Slots) (w : W) (schedule : list nat) : ParState W :=
  foldl (worker_step nodes dry_run policy (Nat.max max_parallel 1)) (cohort_start idx slots w) schedule.

Inductive par_groups : list (N * list nat) → Slots → W → Slots → W → Prop :=
  | par_done slots w : par_groups [] slots w slots w
  | par_halt c idx gs schedule slots w :
      let st := run_cohort idx slots w schedule in
      all_joined st → abort_flag st = true →
      par_groups ((c, idx) :: gs) slots w (records_slot st) (shared_world st)
  | par_next c idx gs schedule slots w slots' w' :
      let st := run_cohort idx slots w schedule in
      all_joined st → abort_flag st = false → par_groups gs (records_slot st) (shared_world st) slots' w' →
      par_groups ((c, idx) :: gs) slots w slots' w'.

End Cohorts.

(** [run_parallel] may return this report and leave this world. *)
Definition run_parallel (plan : UndoPlan) (dry_run : bool) (policy : ConflictPolicy) (max_parallel : nat)
    (w : W) (rep : ExecutionReport) (w' : W) : Prop :=
  ∃ slots, par_groups (p_nodes plan) dry_run policy max_parallel (group_by_cohort (p_nodes plan))
      (replicate (length (p_nodes plan)) None) w slots w'
    ∧ rep = mkReport (from_plan plan) (omap id slots) dry_run policy.

End Run.

End Orchestrator.
