(* ===== verification/OrchestratorFacts.v ===== *)
(** * Properties of plan execution

    Which steps a run may take, that the report is an exact account of a
    sequential and of a parallel run, and that a dry run changes nothing. *)

From stdpp Require Import relations.
From S2P Require Import Prelude Paths Base Events Inverse Cohort Probe Executor Env Orchestrator.

Module OrchestratorFacts.
Import Executor Orchestrator.

Section Facts.
Context {W : Type} (rt : Runtime W) (flt : option (PathBuf → bool)).

(** The three ways an operation is handled. *)
Lemma execute_one_cases (i : nat) (n : PlanNode) (dry_run : bool) (policy : ConflictPolicy)
    (w : W) :
  (∃ d, (filtered_out flt (n_op n) = true ∨ tier (n_op n) = InverseTier.Refuse)
     ∧ execute_one rt flt i n dry_run policy w
       = (mkRecord i (n_op n) (tier (n_op n)) OutcomeKind.Skipped (Some d), w))
  ∨ (filtered_out flt (n_op n) = false ∧ tier (n_op n) ≠ InverseTier.Refuse
     ∧ execute_one rt flt i n dry_run policy w
       = let '(o, w') := attempt rt n dry_run policy w in
         (mkRecord i (n_op n) (tier (n_op n)) (from_outcome o) (outcome_detail o), w')).
Proof.
  unfold execute_one. destruct (filtered_out flt (n_op n)) eqn:Ef; [left; eauto|].
  destruct (n_op n) eqn:E; try (right; split_and!; [done..|by rewrite <- E]).
  left. eexists. split; [by right|done].
Qed.

Lemma execute_one_record (i : nat) (n : PlanNode) (dry_run : bool) (policy : ConflictPolicy)
    (w : W) :
  r_op_index (execute_one rt flt i n dry_run policy w).1 = i
  ∧ r_op (execute_one rt flt i n dry_run policy w).1 = n_op n
  ∧ r_tier (execute_one rt flt i n dry_run policy w).1 = tier (n_op n).
Proof.
  destruct (execute_one_cases i n dry_run policy w) as [(d & _ & ->)|(_ & _ & ->)]; [done|].
  by destruct (attempt rt n dry_run policy w).
Qed.

(** ** Which steps a run may take *)

(** Executing one node of the plan that the filter keeps, that is no refusal,
    whose plan-time conflict is not [Hard] and whose precondition holds in
    the world it is executed in. *)
Definition allowed_step (nodes : list PlanNode) (dry_run : bool) (policy : ConflictPolicy)
    (w w' : W) : Prop :=
  ∃ n, n ∈ nodes ∧ filtered_out flt (n_op n) = false
    ∧ tier (n_op n) ≠ InverseTier.Refuse
    ∧ (∀ d, n_conflict n ≠ Some (Conflict.Hard d))
    ∧ precondition_conflict (n_op n) (probe rt w) = None
    ∧ w' = (execute rt (n_op n) dry_run policy w).2.

Lemma effective_conflict_none (n : PlanNode) (w : W) :
  effective_conflict rt n w = None →
  (∀ d, n_conflict n ≠ Some (Conflict.Hard d))
  ∧ precondition_conflict (n_op n) (probe rt w) = None.
Proof. unfold effective_conflict. by destruct (n_conflict n) as [[]|]. Qed.

Lemma execute_one_allowed (nodes : list PlanNode) (i : nat) (n : PlanNode) (dry_run : bool)
    (policy : ConflictPolicy) (w : W) :
  n ∈ nodes → policy ≠ ConflictPolicy.Force →
  rtc (allowed_step nodes dry_run policy) w (execute_one rt flt i n dry_run policy w).2.
Proof.
  intros Hn Hp.
  destruct (execute_one_cases i n dry_run policy w) as [(d & _ & ->)|(Hf & Ht & ->)]; [done|].
  unfold attempt, act_on_conflict. destruct (effective_conflict rt n w) eqn:Ec; [by destruct policy|].
  apply effective_conflict_none in Ec as [Hh Hc]. apply rtc_once. exists n.
  split_and!; try done. by destruct (execute rt (n_op n) dry_run policy w).
Qed.

Lemma run_from_allowed (all : list PlanNode) (k : nat) (nodes : list PlanNode)
    (dry_run : bool) (policy : ConflictPolicy) (w : W) :
  nodes ⊆ all → policy ≠ ConflictPolicy.Force →
  rtc (allowed_step all dry_run policy) w (run_from rt flt k nodes dry_run policy w).2.
Proof.
  intros Hsub Hp. revert k w. induction nodes as [|n nodes IH]; intros k w; [done|]. simpl.
  assert (n ∈ all) as Hn by set_solver.
  pose proof (execute_one_allowed all k n dry_run policy w Hn Hp) as H1.
  destruct (execute_one rt flt k n dry_run policy w) as [r w']. simpl in H1.
  destruct (halts policy (r_outcome_kind r)); [done|].
  assert (nodes ⊆ all) as Hs by set_solver. specialize (IH Hs (S k) w').
  destruct (run_from rt flt (S k) nodes dry_run policy w') as [rest w'']. simpl in *.
  by etrans.
Qed.

(** C23. Without [--force], undo changes the system only where it is entitled
    to: from the start to the end of a run the world moves only through
    executions of operations of the plan that pass the path filter, are no
    refusals, carry no recorded content drift, and whose existence and inode
    preconditions hold in the very world they run in. *)
Theorem run_steps_allowed (plan : UndoPlan) (dry_run : bool) (policy : ConflictPolicy) (w : W) :
  policy ≠ ConflictPolicy.Force →
  rtc (allowed_step (p_nodes plan) dry_run policy) w (run rt flt plan dry_run policy w).2.
Proof.
  intros Hp. unfold run.
  pose proof (run_from_allowed (p_nodes plan) 0 (p_nodes plan) dry_run policy w
    ltac:(set_solver) Hp) as H.
  by destruct (run_from rt flt 0 (p_nodes plan) dry_run policy w).
Qed.

(** ** The report *)

Lemma run_from_records (k : nat) (nodes : list PlanNode) (dry_run : bool)
    (policy : ConflictPolicy) (w : W) (i : nat) (r : ExecutionRecord) :
  (run_from rt flt k nodes dry_run policy w).1 !! i = Some r →
  ∃ n, nodes !! i = Some n ∧ r_op_index r = k + i ∧ r_op r = n_op n
    ∧ r_tier r = tier (n_op n).
Proof.
  revert k w i. induction nodes as [|n nodes IH]; intros k w i; [done|]. simpl.
  destruct (execute_one_record k n dry_run policy w) as (H1 & H2 & H3).
  destruct (execute_one rt flt k n dry_run policy w) as [r0 w']. simpl in *.
  destruct (halts policy (r_outcome_kind r0)).
  - destruct i; [|done]. intros [= <-]. exists n. split_and!; try done. lia.
  - specialize (IH (S k) w').
    destruct (run_from rt flt (S k) nodes dry_run policy w') as [rest w'']. simpl in *.
    destruct i as [|i]; [intros [= <-]; exists n; split_and!; try done; lia|].
    intros Hi. destruct (IH i Hi) as (m & ? & ? & ? & ?). exists m. split_and!; try done. lia.
Qed.

Lemma run_from_halting (k : nat) (nodes : list PlanNode) (dry_run : bool)
    (policy : ConflictPolicy) (w : W) :
  let recs := (run_from rt flt k nodes dry_run policy w).1 in
  (∀ i r, recs !! i = Some r → S i < length recs → halts policy (r_outcome_kind r) = false)
  ∧ (length recs = length nodes
     ∨ ∃ r, last recs = Some r ∧ halts policy (r_outcome_kind r) = true).
Proof.
  revert k w. induction nodes as [|n nodes IH]; intros k w; simpl.
  { split; [done|by left]. }
  destruct (execute_one rt flt k n dry_run policy w) as [r0 w'].
  destruct (halts policy (r_outcome_kind r0)) eqn:Eh; simpl.
  { split; [intros i r Hi; simpl; lia|right; eauto]. }
  specialize (IH (S k) w').
  destruct (run_from rt flt (S k) nodes dry_run policy w') as [rest w'']. simpl in *.
  destruct IH as [IH1 IH2]. split.
  - intros [|i] r Hi Hl; [by simplify_eq/=|]. apply (IH1 i r Hi). lia.
  - destruct IH2 as [->|(r & Hr & Hh)]; [by left|]. right. exists r. split; [|done].
    by destruct rest.
Qed.

Lemma halts_abort (policy : ConflictPolicy) (k : OutcomeKind) :
  halts policy k = true → policy = ConflictPolicy.Abort.
Proof. unfold halts. case_bool_decide; done. Qed.

(** C35. The report is an exact account of the run: its records are those of
    the first operations of the plan, in order and under their plan index,
    with the operation and tier they carry; no operation is attempted after
    one that must stop the run; and the report is shorter than the plan only
    when the policy is abort and the last record is a failure, a hard or a
    phantom conflict. *)
Theorem run_report_exact (plan : UndoPlan) (dry_run : bool) (policy : ConflictPolicy) (w : W) :
  let recs := records (run rt flt plan dry_run policy w).1 in
  (∀ i r, recs !! i = Some r → ∃ n, p_nodes plan !! i = Some n
     ∧ r_op_index r = i ∧ r_op r = n_op n ∧ r_tier r = tier (n_op n))
  ∧ (∀ i r, recs !! i = Some r → S i < length recs →
       halts policy (r_outcome_kind r) = false)
  ∧ (length recs = length (p_nodes plan)
     ∨ policy = ConflictPolicy.Abort ∧ length recs ≤ length (p_nodes plan)
       ∧ ∃ r, last recs = Some r ∧ halts policy (r_outcome_kind r) = true).
Proof.
  cbn zeta. unfold run.
  pose proof (run_from_records 0 (p_nodes plan) dry_run policy w) as H1.
  pose proof (run_from_halting 0 (p_nodes plan) dry_run policy w) as [H2 H3].
  destruct (run_from rt flt 0 (p_nodes plan) dry_run policy w) as [recs w'].
  cbn [fst records] in *. split_and!.
  - intros i r Hi. destruct (H1 i r Hi) as (n & ? & ? & ? & ?). eauto 10.
  - done.
  - destruct H3 as [H3|(r & Hr & Hh)]; [by left|]. right. split; [by eapply halts_abort|].
    split; [|eauto]. destruct (decide (length recs = 0)) as [?|Hz]; [lia|].
    destruct (lookup_lt_is_Some_2 recs (length recs - 1)) as [r' Hr']; [lia|].
    destruct (H1 _ _ Hr') as (n & Hn & _). apply lookup_lt_Some in Hn. lia.
Qed.

(** ** The parallel walk *)

(** Every filled slot holds the record of its own node. *)
Definition slots_ok (nodes : list PlanNode) (slots : Slots) : Prop :=
  length slots = length nodes
  ∧ ∀ i r, slots !! i = Some (Some r) → r_op_index r = i ∧ ∃ n, nodes !! i = Some n
      ∧ r_op r = n_op n ∧ r_tier r = tier (n_op n).

Definition filled (slots : Slots) (i : nat) : Prop := ∃ r, slots !! i = Some (Some r).

(** *** A thread left alone *)

Lemma precondition_questions (op : InverseOp) (p : StateProbe) :
  precondition_conflict op p =
  match precondition_first op p with Some c => Some c | None => precondition_second op p end.
Proof.
  destruct op; try (cbn; by repeat case_match); cbn; by repeat match goal with |- context [exists_ p ?x] => destruct (exists_ p x) end.
Qed.

Lemma ask_first_conflict (n : PlanNode) (w : W) :
  (ask_first rt n w = Worker.Asked ∧ precondition_second (n_op n) (probe rt w) = effective_conflict rt n w)
  ∨ ask_first rt n w = Worker.Decided (effective_conflict rt n w).
Proof.
  unfold ask_first, effective_conflict. rewrite precondition_questions.
  destruct (n_conflict n) as [[]|]; try (by right); destruct (precondition_first _ _); auto.
Qed.

(** With a permit free and no other thread in between, a thread does what the
    sequential walk does with its node. *)
Lemma worker_alone (nodes : list PlanNode) (dry_run : bool) (policy : ConflictPolicy) (cap : nat)
    ths slots flag sem w i n :
  ths !! i = Some Worker.Queued → nodes !! i = Some n → sem < cap →
  foldl (worker_step rt flt nodes dry_run policy cap) (mkPar ths slots flag sem w) (replicate 7 i)
  = let '(r, w') := execute_one rt flt i n dry_run policy w in
    mkPar (<[i := Worker.Left]> ths) (<[i := Some r]> slots) (flag || halts policy (r_outcome_kind r)) sem w'.
Proof.
  intros Hi Hn Hs. set (step := worker_step rt flt nodes dry_run policy cap).
  assert (Hput : ∀ th sl f s w0, step (mkPar (<[i := Worker.Ran th]> ths) sl f s w0) i
    = mkPar (<[i := Worker.Flagged th]> ths) sl (f || halts policy (r_outcome_kind th)) s w0).
  { intros. unfold step, worker_step. by rewrite lookup_insert_eq, Hn, insert_insert_eq. }
  assert (Hflg : ∀ th sl f s w0, step (mkPar (<[i := Worker.Flagged th]> ths) sl f s w0) i
    = mkPar (<[i := Worker.Stored]> ths) (<[i := Some th]> sl) f s w0).
  { intros. unfold step, worker_step. by rewrite lookup_insert_eq, Hn, insert_insert_eq. }
  assert (Hsto : ∀ sl f s w0, step (mkPar (<[i := Worker.Stored]> ths) sl f s w0) i
    = mkPar (<[i := Worker.Left]> ths) sl f (Nat.pred s) w0).
  { intros. unfold step, worker_step. by rewrite lookup_insert_eq, Hn, insert_insert_eq. }
  assert (Hleft : ∀ sl f s w0, step (mkPar (<[i := Worker.Left]> ths) sl f s w0) i = mkPar (<[i := Worker.Left]> ths) sl f s w0).
  { intros. unfold step, worker_step. by rewrite lookup_insert_eq, Hn. }
  assert (Hdec : ∀ c sl f s w0, step (mkPar (<[i := Worker.Decided c]> ths) sl f s w0) i
    = let '(o, w') := act_on_conflict rt c (n_op n) dry_run policy w0 in
      mkPar (<[i := Worker.Ran (mkRecord i (n_op n) (tier (n_op n)) (from_outcome o) (outcome_detail o))]> ths) sl f s w').
  { intros. unfold step, worker_step. rewrite lookup_insert_eq, Hn. destruct (act_on_conflict _ _ _ _ _ _).
    by rewrite insert_insert_eq. }
  assert (Hask : ∀ sl f s w0, step (mkPar (<[i := Worker.Asked]> ths) sl f s w0) i
    = mkPar (<[i := Worker.Decided (precondition_second (n_op n) (probe rt w0))]> ths) sl f s w0).
  { intros. unfold step, worker_step. by rewrite lookup_insert_eq, Hn, insert_insert_eq. }
  assert (Hq : step (mkPar ths slots flag sem w) i = mkPar (<[i := Worker.Started]> ths) slots flag (S sem) w).
  { unfold step, worker_step. by rewrite Hi, Hn, bool_decide_eq_true_2. }
  cbn [replicate foldl]. rewrite Hq.
  destruct (execute_one_cases i n dry_run policy w) as [(d & Hd & He)|(Hf & Hr & He)].
  - assert (step (mkPar (<[i := Worker.Started]> ths) slots flag (S sem) w) i
      = mkPar (<[i := Worker.Ran (mkRecord i (n_op n) (tier (n_op n)) OutcomeKind.Skipped (Some d))]> ths) slots flag (S sem) w) as ->.
    { unfold step, worker_step. rewrite lookup_insert_eq, Hn. unfold execute_one in He.
      destruct (filtered_out flt (n_op n)); [injection He as <-; by rewrite insert_insert_eq|].
      destruct Hd as [|Hd]; [done|]. destruct (n_op n); try done. injection He as <-. by rewrite insert_insert_eq. }
    by rewrite Hput, Hflg, Hsto, !Hleft, He.
  - assert (step (mkPar (<[i := Worker.Started]> ths) slots flag (S sem) w) i
      = mkPar (<[i := ask_first rt n w]> ths) slots flag (S sem) w) as ->.
    { unfold step, worker_step. rewrite lookup_insert_eq, Hn, Hf, insert_insert_eq. by destruct (n_op n). }
    rewrite He. unfold attempt. destruct (ask_first_conflict n w) as [[-> Hc]| ->].
    + rewrite Hask, Hc, Hdec. destruct (act_on_conflict _ _ _ _ _ _) as [o w']. by rewrite Hput, Hflg, Hsto.
    + rewrite Hdec. destruct (act_on_conflict _ _ _ _ _ _) as [o w']. by rewrite Hput, Hflg, Hsto, Hleft.
Qed.

(** The threads can always be scheduled to the end. *)
Lemma threads_complete (nodes : list PlanNode) (dry_run : bool) (policy : ConflictPolicy) (cap : nat) (l : list nat) : ∀ st,
  NoDup l → (∀ i, i ∈ l → i < length nodes ∧ workers st !! i = Some Worker.Queued) → semaphore st < cap →
  (∀ i th, workers st !! i = Some th → i ∈ l ∨ th = Worker.Left) →
  ∃ schedule, all_joined (foldl (worker_step rt flt nodes dry_run policy cap) st schedule).
Proof.
  induction l as [|i l IH]; intros [ths slots flag sem w] Hnd Hl Hs Hrest; cbn [workers semaphore] in *.
  { exists []. intros i th Hth. destruct (Hrest i th Hth) as [[]%elem_of_nil| ->]. done. }
  apply NoDup_cons in Hnd as [Hil Hnd]. destruct (Hl i) as [Hi Hq]; [left|].
  destruct (lookup_lt_is_Some_2 nodes i Hi) as [n Hn].
  pose proof (worker_alone nodes dry_run policy cap ths slots flag sem w i n Hq Hn Hs) as Ha.
  destruct (execute_one rt flt i n dry_run policy w) as [r w'].
  set (st := mkPar (<[i := Worker.Left]> ths) _ _ _ _) in Ha. destruct (IH st) as [schedule Hj]; [done| |done| |].
  - intros j Hj. destruct (Hl j) as [H1 H2]; [by right|]. split; [done|]. cbn [st workers].
    rewrite lookup_insert_ne; [done|]. by intros ->.
  - intros j th. cbn [st workers]. destruct (decide (i = j)) as [<-|Hne].
    + rewrite lookup_insert_eq. intros [= <-]. by right.
    + rewrite lookup_insert_ne by done. intros Hth. destruct (Hrest j th Hth) as [Hj|Hj]; [apply elem_of_cons in Hj as [->|Hj]; auto|by right]. done.
  - exists (replicate 7 i ++ schedule). by rewrite foldl_app, Ha.
Qed.

Lemma queued_lookup (idx : list nat) (i : nat) :
  (list_to_map ((λ i, (i, Worker.Queued)) <$> idx) : gmap nat Worker.Worker) !! i =
  if decide (i ∈ idx) then Some Worker.Queued else None.
Proof.
  induction idx as [|j l IH]; [done|]. rewrite fmap_cons. cbn [list_to_map foldr uncurry fst snd].
  destruct (decide (j = i)) as [<-|Hne].
  - rewrite lookup_insert_eq, decide_True by left. done.
  - rewrite lookup_insert_ne by done. rewrite IH. repeat case_decide; set_solver.
Qed.

Lemma groups_complete (nodes : list PlanNode) (dry_run : bool) (policy : ConflictPolicy) (max_parallel : nat)
    (gs : list (N * list nat)) : ∀ slots w,
  NoDup (concat gs.*2) → (∀ i, i ∈ concat gs.*2 → i < length nodes) →
  ∃ slots' w', par_groups rt flt nodes dry_run policy max_parallel gs slots w slots' w'.
Proof.
  induction gs as [|[c idx] gs IH]; intros slots w Hnd Hlt; [eexists _, _; constructor|].
  simpl in Hnd, Hlt. apply NoDup_app in Hnd as (Hnd & _ & Hgs).
  destruct (threads_complete nodes dry_run policy (Nat.max max_parallel 1) idx (cohort_start idx slots w)) as [schedule Hj].
  - done.
  - intros i Hi. split; [apply Hlt; set_solver|]. cbn [cohort_start workers]. by rewrite queued_lookup, decide_True.
  - cbn [cohort_start semaphore]. lia.
  - intros i th. cbn [cohort_start workers]. rewrite queued_lookup. case_decide; [by left|done].
  - fold (run_cohort rt flt nodes dry_run policy max_parallel idx slots w schedule) in Hj.
    destruct (abort_flag (run_cohort rt flt nodes dry_run policy max_parallel idx slots w schedule)) eqn:Ha.
    + eexists _, _. by apply par_halt.
    + destruct (IH (records_slot (run_cohort rt flt nodes dry_run policy max_parallel idx slots w schedule))
        (shared_world (run_cohort rt flt nodes dry_run policy max_parallel idx slots w schedule))) as (s' & w' & Hp); [done|set_solver|].
      exists s', w'. by eapply par_next.
Qed.

(** *** What the world went through

    The history of a cohort: which of its operations were executed, the newest
    first, and the worlds the system was in, the newest first. An operation is
    executed once, if the filter keeps it and it is no refusal and carries no
    recorded drift, and if each question of its precondition was answered in
    its favour in some world since the cohort began. *)
Inductive moves (nodes : list PlanNode) (dry_run : bool) (policy : ConflictPolicy) (idx : list nat) (w0 : W)
    : list nat → list W → Prop :=
  | moves_none : moves nodes dry_run policy idx w0 [] [w0]
  | moves_step done w past i n wa wb :
      moves nodes dry_run policy idx w0 done (w :: past) → i ∈ idx → i ∉ done → nodes !! i = Some n →
      filtered_out flt (n_op n) = false → tier (n_op n) ≠ InverseTier.Refuse →
      (∀ d, n_conflict n ≠ Some (Conflict.Hard d)) →
      wa ∈ w :: past → precondition_first (n_op n) (probe rt wa) = None →
      wb ∈ w :: past → precondition_second (n_op n) (probe rt wb) = None →
      moves nodes dry_run policy idx w0 (i :: done)
        ((execute rt (n_op n) dry_run policy w).2 :: w :: past).

(** Cohort after cohort, the last perhaps being the one that aborted. *)
Inductive cohorts_move (nodes : list PlanNode) (dry_run : bool) (policy : ConflictPolicy)
    : list (N * list nat) → W → W → Prop :=
  | cohorts_stop gs w : cohorts_move nodes dry_run policy gs w w
  | cohorts_next c idx gs done w w1 past w2 :
      moves nodes dry_run policy idx w done (w1 :: past) → cohorts_move nodes dry_run policy gs w1 w2 →
      cohorts_move nodes dry_run policy ((c, idx) :: gs) w w2.

(** *** The invariant of a cohort *)

Section Cohort.
Context (nodes : list PlanNode) (dry_run : bool) (policy : ConflictPolicy) (idx : list nat) (cap : nat).
Context (slots0 : Slots) (w0 : W).

Definition record_of (i : nat) (n : PlanNode) (r : ExecutionRecord) : Prop :=
  r_op_index r = i ∧ r_op r = n_op n ∧ r_tier r = tier (n_op n).

(** The operation may be executed, as far as the node tells. *)
Definition executable (n : PlanNode) : Prop :=
  filtered_out flt (n_op n) = false ∧ tier (n_op n) ≠ InverseTier.Refuse
  ∧ ∀ d, n_conflict n ≠ Some (Conflict.Hard d).

Definition asked_first (n : PlanNode) (worlds : list W) : Prop :=
  ∃ w, w ∈ worlds ∧ precondition_first (n_op n) (probe rt w) = None.
Definition asked_second (n : PlanNode) (worlds : list W) : Prop :=
  ∃ w, w ∈ worlds ∧ precondition_second (n_op n) (probe rt w) = None.

(** What is known of a thread by where it is. *)
Definition thread_ok (slots : Slots) (done : list nat) (worlds : list W) (i : nat) (n : PlanNode) (th : Worker.Worker)
    : Prop :=
  match th with
  | Worker.Queued | Worker.Started => i ∉ done
  | Worker.Asked => i ∉ done ∧ executable n ∧ asked_first n worlds
  | Worker.Decided None => i ∉ done ∧ executable n ∧ asked_first n worlds ∧ asked_second n worlds
  | Worker.Decided (Some _) => i ∉ done
  | Worker.Ran r | Worker.Flagged r => record_of i n r
  | Worker.Stored | Worker.Left => filled slots i
  end.

Record cohort_ok (st : ParState W) (done : list nat) (past : list W) : Prop := {
  co_slots : slots_ok nodes (records_slot st);
  co_kept j : filled slots0 j → filled (records_slot st) j;
  co_flag : policy ≠ ConflictPolicy.Abort → abort_flag st = false;
  co_threads i : i ∈ idx ↔ is_Some (workers st !! i);
  co_thread i th n :
    workers st !! i = Some th → nodes !! i = Some n →
    thread_ok (records_slot st) done (shared_world st :: past) i n th;
  co_moves : policy ≠ ConflictPolicy.Force → moves nodes dry_run policy idx w0 done (shared_world st :: past);
}.

Lemma thread_ok_mono slots slots' done done' worlds worlds' i n th :
  (filled slots i → filled slots' i) → (i ∉ done → i ∉ done') → worlds ⊆ worlds' →
  thread_ok slots done worlds i n th → thread_ok slots' done' worlds' i n th.
Proof.
  intros Hs Hd Hw. assert (asked_first n worlds → asked_first n worlds') by (intros (w & ? & ?); exists w; auto).
  assert (asked_second n worlds → asked_second n worlds') by (intros (w & ? & ?); exists w; auto).
  destruct th as [| | |[c|]|r|r| |]; simpl; naive_solver.
Qed.

(** A thread goes on, and the rest stays good. *)
Lemma cohort_goto st done past i n th th' slots' flag' sem' w' done' past' :
  cohort_ok st done past → workers st !! i = Some th → nodes !! i = Some n →
  slots_ok nodes slots' → (∀ j, filled (records_slot st) j → filled slots' j) →
  (policy ≠ ConflictPolicy.Abort → flag' = false) → (∀ j, j ≠ i → j ∉ done → j ∉ done') →
  shared_world st :: past ⊆ w' :: past' → thread_ok slots' done' (w' :: past') i n th' →
  (policy ≠ ConflictPolicy.Force → moves nodes dry_run policy idx w0 done' (w' :: past')) →
  cohort_ok (mkPar (<[i := th']> (workers st)) slots' flag' sem' w') done' past'.
Proof.
  intros [A B C D E F] Hi Hn Hs Hf Hfl Hd Hw Ht Hm. split; cbn [workers records_slot abort_flag shared_world]; [done|by intros; apply Hf, B|done| | |done].
  - intros j. rewrite D. destruct (decide (i = j)) as [<-|Hne].
    + rewrite lookup_insert_eq, Hi. by split; intros _; eexists.
    + by rewrite lookup_insert_ne.
  - intros j tj nj. destruct (decide (i = j)) as [<-|Hne].
    + rewrite lookup_insert_eq. intros [= <-] Hnj. rewrite Hn in Hnj. by injection Hnj as <-.
    + rewrite lookup_insert_ne by done. intros Htj Hnj. eapply thread_ok_mono; [apply Hf|apply Hd; congruence|exact Hw|by eapply E].
Qed.

(** The same, when neither the slots nor the world change. *)
Lemma cohort_goto_still st done past i n th th' sem' flag' :
  cohort_ok st done past → workers st !! i = Some th → nodes !! i = Some n →
  (policy ≠ ConflictPolicy.Abort → flag' = false) →
  thread_ok (records_slot st) done (shared_world st :: past) i n th' →
  cohort_ok (mkPar (<[i := th']> (workers st)) (records_slot st) flag' sem' (shared_world st)) done past.
Proof. intros Hok Hi Hn Hfl Ht. pose proof Hok as [A B C D E F]. by eapply cohort_goto. Qed.

Lemma slots_ok_record slots i n r :
  slots_ok nodes slots → nodes !! i = Some n → record_of i n r →
  slots_ok nodes (<[i := Some r]> slots) ∧ (∀ j, filled slots j → filled (<[i := Some r]> slots) j)
  ∧ filled (<[i := Some r]> slots) i.
Proof.
  intros [Hl Hs] Hn (H1 & H2 & H3). pose proof (lookup_lt_Some _ _ _ Hn) as Hi. split_and!.
  - split; [by rewrite length_insert|]. intros j r' Hj. destruct (decide (i = j)) as [<-|Hne].
    + rewrite list_lookup_insert_eq in Hj by lia. simplify_eq. eauto 10.
    + rewrite list_lookup_insert_ne in Hj by done. by apply Hs.
  - intros j [r' Hj]. destruct (decide (i = j)) as [<-|Hne].
    + exists r. by rewrite list_lookup_insert_eq by lia.
    + exists r'. by rewrite list_lookup_insert_ne.
  - exists r. by rewrite list_lookup_insert_eq by lia.
Qed.

(** The thread that has asked what it must ask acts. *)
Lemma decided_step st done past i n conflict :
  cohort_ok st done past → workers st !! i = Some (Worker.Decided conflict) → nodes !! i = Some n →
  let '(outcome, w') := act_on_conflict rt conflict (n_op n) dry_run policy (shared_world st) in
  ∃ done' past', cohort_ok (mkPar (<[i := Worker.Ran (mkRecord i (n_op n) (tier (n_op n)) (from_outcome outcome)
      (outcome_detail outcome))]> (workers st)) (records_slot st) (abort_flag st) (semaphore st) w') done' past'.
Proof.
  intros Hok Hi Hn. pose proof Hok as [A B C D E F]. pose proof (E _ _ _ Hi Hn) as Ht.
  destruct (act_on_conflict _ _ _ _ _ _) as [o w'] eqn:Ha.
  set (r := mkRecord _ _ _ _ _). assert (record_of i n r) as Hr by done.
  assert (w' = (execute rt (n_op n) dry_run policy (shared_world st)).2 ∨ w' = shared_world st) as Hw.
  { unfold act_on_conflict in Ha. destruct conflict; [destruct policy|]; rewrite ?Ha; naive_solver. }
  destruct (decide (policy = ConflictPolicy.Force)) as [Hp|Hp].
  { exists done, (shared_world st :: past). eapply cohort_goto; try done. set_solver. }
  destruct conflict as [c|]; simpl in Ht.
  { assert (w' = shared_world st) as -> by (unfold act_on_conflict in Ha; by destruct policy; simplify_eq).
    exists done, past. by eapply cohort_goto_still. }
  destruct Ht as (Hnd & (Hf1 & Hf2 & Hf3) & (wa & Hwa & Hqa) & (wb & Hwb & Hqb)).
  assert (w' = (execute rt (n_op n) dry_run policy (shared_world st)).2) as -> by (unfold act_on_conflict in Ha; by rewrite Ha).
  exists (i :: done), (shared_world st :: past). eapply cohort_goto; try done; [set_solver|set_solver|].
  intros _. apply (moves_step _ _ _ _ _ _ _ _ i n wa wb); try done; [by apply F|]. apply D. by eexists.
Qed.

Lemma ask_first_ok slots done i n w past :
  i ∉ done → filtered_out flt (n_op n) = false → tier (n_op n) ≠ InverseTier.Refuse →
  thread_ok slots done (w :: past) i n (ask_first rt n w).
Proof.
  intros Hd Hf Hr. unfold ask_first.
  destruct (n_conflict n) as [[]|] eqn:Hcf; try done;
    (destruct (precondition_first _ _) eqn:Hq; [done|]); (split_and!; [done|split_and!; [done|done|by rewrite Hcf]|]);
    exists w; by split; [left|].
Qed.

Lemma worker_step_ok st done past i :
  cohort_ok st done past → ∃ done' past', cohort_ok (worker_step rt flt nodes dry_run policy cap st i) done' past'.
Proof.
  intros Hok. pose proof Hok as [A B C D E F]. pose proof (decided_step st done past i) as Hdec.
  destruct st as [ths slots flag sem w]. unfold worker_step. cbn [workers records_slot abort_flag semaphore shared_world] in *.
  destruct (ths !! i) as [th|] eqn:Hi; [|eauto]. destruct (nodes !! i) as [n|] eqn:Hn; [|eauto].
  pose proof (E i th n Hi Hn) as Ht.
  assert (Hstill : ∀ th' sem' flag', (policy ≠ ConflictPolicy.Abort → flag' = false) →
    thread_ok slots done (w :: past) i n th' →
    ∃ done' past', cohort_ok (mkPar (<[i := th']> ths) slots flag' sem' w) done' past').
  { intros. exists done, past. by eapply (cohort_goto_still (mkPar ths slots flag sem w)). }
  destruct th as [| | |conflict|r|r| |]; simpl in Ht.
  - case_bool_decide; [by apply Hstill|eauto].
  - destruct (filtered_out flt (n_op n)) eqn:Hf; [by apply Hstill|].
    assert (tier (n_op n) ≠ InverseTier.Refuse →
      ∃ done' past', cohort_ok (mkPar (<[i := ask_first rt n w]> ths) slots flag sem w) done' past') as Hask.
    { intros Hr. apply Hstill; [done|]. by apply ask_first_ok. }
    destruct (n_op n) eqn:Hop; try (apply Hask; discriminate). apply Hstill; [done|]. by split_and!; rewrite ?Hop.
  - destruct Ht as (H1 & H2 & H3). apply Hstill; [done|]. destruct (precondition_second _ _) eqn:Hq; simpl; [done|].
    split_and!; try done. exists w. split; [left|done].
  - specialize (Hdec n conflict Hok eq_refl eq_refl). by destruct (act_on_conflict _ _ _ _ _ _).
  - apply Hstill; [|done]. intros Hp. rewrite C by done. simpl. destruct (halts policy _) eqn:Hh; [|done].
    by apply halts_abort in Hh.
  - destruct (slots_ok_record slots i n r A Hn Ht) as (S1 & S2 & S3). exists done, past.
    by eapply (cohort_goto (mkPar ths slots flag sem w)).
  - by apply Hstill.
  - eauto.
Qed.

Lemma cohort_start_ok : slots_ok nodes slots0 → cohort_ok (cohort_start idx slots0 w0) [] [].
Proof.
  intros Hs. split; cbn [cohort_start workers records_slot abort_flag shared_world]; try done.
  - intros i. rewrite queued_lookup. case_decide; [by split; [eexists|]|]. split; [done|]. by intros [? ?].
  - intros i th n. rewrite queued_lookup. case_decide; [|done]. intros [= <-] _. simpl. apply not_elem_of_nil.
  - intros _. constructor.
Qed.

Lemma run_cohort_ok schedule :
  slots_ok nodes slots0 →
  ∃ done past, cohort_ok (foldl (worker_step rt flt nodes dry_run policy cap) (cohort_start idx slots0 w0) schedule) done past.
Proof.
  intros Hs. assert (∀ st done past, cohort_ok st done past →
    ∃ done' past', cohort_ok (foldl (worker_step rt flt nodes dry_run policy cap) st schedule) done' past') as H.
  { induction schedule as [|i l IH]; intros st done past Hok; [eauto|]. simpl.
    destruct (worker_step_ok st done past i Hok) as (d1 & p1 & H1). by eapply IH. }
  eapply H, cohort_start_ok, Hs.
Qed.

End Cohort.

Lemma par_groups_ok (nodes : list PlanNode) (dry_run : bool) (policy : ConflictPolicy) (max_parallel : nat)
    gs slots w slots' w' :
  par_groups rt flt nodes dry_run policy max_parallel gs slots w slots' w' → slots_ok nodes slots →
  slots_ok nodes slots'
  ∧ (∀ j, filled slots j → filled slots' j)
  ∧ (policy ≠ ConflictPolicy.Abort →
     ∀ j, j ∈ concat gs.*2 → j < length nodes → filled slots' j)
  ∧ (policy ≠ ConflictPolicy.Force → cohorts_move nodes dry_run policy gs w w').
Proof.
  induction 1 as [slots w|c idx gs schedule slots w st Hj Ha|c idx gs schedule slots w slots' w' st Hj Ha Hgs IH]; intros Hs.
  { split_and!; try done; [|constructor]. intros _ j Hj. by apply not_elem_of_nil in Hj. }
  all: destruct (run_cohort_ok nodes dry_run policy idx (Nat.max max_parallel 1) slots w schedule Hs)
    as (done & past & [A B C D E F]); fold (run_cohort rt flt nodes dry_run policy max_parallel idx slots w schedule) in *;
    fold st in A, B, C, D, E, F.
  { split_and!; [done|done| |].
    - intros Hp. by rewrite C in Ha.
    - intros Hp. eapply cohorts_next; [by apply F|constructor]. }
  destruct (IH A) as (A1 & B1 & C1 & D1). split_and!; [done|by eauto| |].
  - intros Hp j Hin Hlt. simpl in Hin. apply elem_of_app in Hin as [Hin|Hin]; [|by apply C1].
    apply B1. apply D in Hin as [th Hth]. destruct (lookup_lt_is_Some_2 nodes j Hlt) as [n Hn].
    pose proof (E j th n Hth Hn) as Ht. pose proof (Hj j th Hth) as Hleft. by destruct th.
  - intros Hp. eapply cohorts_next; [by apply F|by apply D1].
Qed.

(** A plan of one cohort. *)
Lemma par_single (nodes : list PlanNode) (dry_run : bool) (policy : ConflictPolicy) (max_parallel : nat)
    c idx slots w schedule st :
  run_cohort rt flt nodes dry_run policy max_parallel idx slots w schedule = st →
  all_joined st → abort_flag st = false →
  par_groups rt flt nodes dry_run policy max_parallel [(c, idx)] slots w (records_slot st) (shared_world st).
Proof. intros <- Hj Hf. by eapply par_next; [..|constructor]. Qed.

Lemma par_done_eq (nodes : list PlanNode) (dry_run : bool) (policy : ConflictPolicy) (max_parallel : nat)
    slots w slots' w' :
  slots' = slots → w' = w → par_groups rt flt nodes dry_run policy max_parallel [] slots w slots' w'.
Proof. intros -> ->. constructor. Qed.

(** The groups are consecutive and cover the plan. *)
Lemma group_push_concat (gs : list (N * list nat)) (i : nat) (c : N) :
  concat (group_push gs i c).*2 = concat gs.*2 ++ [i].
Proof.
  unfold group_push. destruct gs as [|[c' idx] gs _] using rev_ind; [done|].
  rewrite rev_app_distr. simpl. case_bool_decide.
  - rewrite rev_involutive, !fmap_app, !concat_app. simpl. by rewrite !app_nil_r, !app_assoc.
  - rewrite !fmap_app, !concat_app. done.
Qed.

Lemma group_by_cohort_concat (nodes : list PlanNode) :
  concat (group_by_cohort nodes).*2 = List.seq 0 (length nodes).
Proof.
  unfold group_by_cohort.
  assert (∀ gs k, concat (group_from gs k nodes).*2 = concat gs.*2 ++ List.seq k (length nodes)) as H;
    [|apply H].
  induction nodes as [|n nodes IH]; intros gs k; simpl; [by rewrite app_nil_r|].
  by rewrite IH, group_push_concat, <- app_assoc.
Qed.

Lemma slots_sorted (slots : Slots) (k : nat) :
  (∀ i r, slots !! i = Some (Some r) → r_op_index r = k + i) →
  StronglySorted lt (r_op_index <$> omap id slots)
  ∧ Forall (λ j, k ≤ j) (r_op_index <$> omap id slots)
  ∧ ((∀ i, i < length slots → filled slots i) →
     r_op_index <$> omap id slots = List.seq k (length slots)).
Proof.
  revert k. induction slots as [|o slots IH]; intros k Hs.
  { simpl. split_and!; [constructor|constructor|done]. }
  destruct (IH (S k)) as (H1 & H2 & H3).
  { intros i r Hi. rewrite (Hs (S i) r Hi). lia. }
  assert (Forall (λ j, k ≤ j) (r_op_index <$> omap id slots)) as H2'.
  { eapply Forall_impl; [done|]. intros j. simpl. lia. }
  assert ((∀ i, i < length (o :: slots) → filled (o :: slots) i) →
    r_op_index <$> omap id slots = List.seq (S k) (length slots)) as H3'.
  { intros Hf. apply H3. intros i Hi. apply (Hf (S i)). simpl. lia. }
  destruct o as [r|]; simpl.
  - assert (r_op_index r = k) as -> by (rewrite (Hs 0 r eq_refl); lia). split_and!.
    + constructor; [done|]. eapply Forall_impl; [exact H2|]. intros j. simpl. lia.
    + constructor; [lia|done].
    + intros Hf. f_equal. by apply H3'.
  - split_and!; [done|done|]. intros Hf. destruct (Hf 0 ltac:(simpl; lia)) as [r Hr]. done.
Qed.

(** C37. However the threads of each cohort are interleaved, a parallel run is
    accounted for. A thread waits for one of the permits, asks the probe what
    the precondition of its operation needs, executes it, and records it;
    anything the other threads do may come between any two of these, an
    execution being one step. The records are in plan order, each under its
    plan index with the operation and tier of that node; unless the policy is
    abort no node is missing; and unless it is force, the world moves, cohort
    after cohort, only by executing operations of the cohort, each at most
    once, that the filter keeps, that are no refusals and carry no recorded
    drift, and for which the probe answered in their favour at some time since
    the cohort began. *)
Theorem run_parallel_accounts (plan : UndoPlan) (dry_run : bool) (policy : ConflictPolicy) (max_parallel : nat)
    (w : W) (rep : ExecutionReport) (w' : W) :
  run_parallel rt flt plan dry_run policy max_parallel w rep w' →
  StronglySorted lt (r_op_index <$> records rep)
  ∧ (∀ r, r ∈ records rep → ∃ n, p_nodes plan !! r_op_index r = Some n
       ∧ r_op r = n_op n ∧ r_tier r = tier (n_op n))
  ∧ (policy ≠ ConflictPolicy.Abort →
       r_op_index <$> records rep = List.seq 0 (length (p_nodes plan)))
  ∧ (policy ≠ ConflictPolicy.Force →
       cohorts_move (p_nodes plan) dry_run policy (group_by_cohort (p_nodes plan)) w w').
Proof.
  intros (slots & Hg & ->). cbn [records].
  apply par_groups_ok in Hg as ([Hl Hs] & _ & Hf & Hr).
  2: { split; [by rewrite length_replicate|]. intros i r Hi.
       apply lookup_replicate in Hi as [[=] _]. }
  rewrite group_by_cohort_concat in Hf.
  destruct (slots_sorted slots 0) as (H1 & _ & H3).
  { intros i r Hi. by destruct (Hs i r Hi). }
  split_and!; [done| | |done].
  - intros r Hr'. apply list_elem_of_omap in Hr' as (o & Ho & Heq). simpl in Heq. subst o.
    apply list_elem_of_lookup in Ho as [i Hi]. destruct (Hs i r Hi) as (-> & n & Hn). eauto.
  - intros Hp. rewrite H3, Hl; [done|]. intros i Hi. apply Hf; [done| |lia].
    apply elem_of_seq. lia.
Qed.

(** Every parallel run has a schedule that leads it to its report, whatever the
    number of permits. *)
Theorem run_parallel_completes (plan : UndoPlan) (dry_run : bool) (policy : ConflictPolicy) (max_parallel : nat) (w : W) :
  ∃ rep w', run_parallel rt flt plan dry_run policy max_parallel w rep w'.
Proof.
  destruct (groups_complete (p_nodes plan) dry_run policy max_parallel (group_by_cohort (p_nodes plan))
    (replicate (length (p_nodes plan)) None) w) as (slots & w' & Hp).
  - rewrite group_by_cohort_concat. apply NoDup_seq.
  - intros i. rewrite group_by_cohort_concat, elem_of_seq. lia.
  - by eexists _, w', slots.
Qed.

(** ** Dry runs *)

Lemma execute_one_dry `{!DryRunPure rt} (i : nat) (n : PlanNode) (policy : ConflictPolicy)
    (w : W) :
  (execute_one rt flt i n true policy w).2 = w.
Proof.
  destruct (execute_one_cases i n true policy w) as [(d & _ & ->)|(_ & _ & ->)]; [done|].
  unfold attempt, act_on_conflict. pose proof (dry_run_pure (n_op n) policy w).
  destruct (effective_conflict rt n w); [destruct policy; try done|];
    by destruct (execute rt (n_op n) true _ w).
Qed.

(** [--dry-run] is harmless: with an executor that mutates nothing when
    told not to, the whole run leaves the world exactly as it was, under
    every conflict policy, path filter and plan. *)
Theorem run_dry_run_pure `{!DryRunPure rt} (plan : UndoPlan) (policy : ConflictPolicy) (w : W) :
  (run rt flt plan true policy w).2 = w.
Proof.
  unfold run. generalize 0. intros k.
  assert ((run_from rt flt k (p_nodes plan) true policy w).2 = w) as H;
    [|by destruct (run_from rt flt k (p_nodes plan) true policy w)].
  revert k. induction (p_nodes plan) as [|n nodes IH]; intros k; [done|]. simpl.
  pose proof (execute_one_dry k n policy w) as Hd.
  destruct (execute_one rt flt k n true policy w) as [r w']. simpl in Hd. subst w'.
  destruct (halts policy (r_outcome_kind r)); [done|]. specialize (IH (S k)).
  by destruct (run_from rt flt (S k) nodes true policy w).
Qed.

(** ** The plan-time phantom conflict *)

(** A plan-time phantom conflict does not protect a file: although the
    planner marks the restore of a file that has been replaced since as a
    blocking conflict, the abort policy executes it, because only hard
    conflicts are honoured and a content restore has no precondition. *)
Theorem phantom_restore_is_executed (i : nat) (inode : InodeRef) (p : PathBuf)
    (blob : BlobHash) (cohort : N) (d : Msg) (dry_run : bool) (w : W) :
  let n := mkNode (InverseOp.RestoreContent inode p blob) cohort (Some (Conflict.Phantom d)) in
  is_blocking (Conflict.Phantom d) = true
  ∧ (filtered_out flt (n_op n) = false →
     (execute_one rt flt i n dry_run ConflictPolicy.Abort w).2
     = (execute rt (n_op n) dry_run ConflictPolicy.Abort w).2).
Proof.
  split; [done|]. intros Hf. unfold execute_one. rewrite Hf. simpl.
  unfold attempt, act_on_conflict. simpl. by destruct (execute rt _ dry_run _ w).
Qed.

End Facts.

(** ** A plan of two environment steps *)

Definition env_command : CommandRecord :=
  mkCommandRecord (mkCommandId 7 1) (Some "export A=2; unset B") (path_of_string "/w") 100
    ShellKind.Bash (mkTime 1 0) (Some (mkTime 9 0)) (Some 0%Z) [].

Definition env_plan : UndoPlan := mkPlan env_command
  [mkNode (InverseOp.SetEnv "B" "x") 0 None; mkNode (InverseOp.SetEnv "A" "1") 0 None] [].

Definition env_nl : string := String (Ascii.ascii_of_nat 10) "".

Lemma run_steps_allowed_witness :
  rtc (allowed_step Env.env_runtime None (p_nodes env_plan) false ConflictPolicy.Abort) ""
    ("export B='x'" ++ env_nl ++ "export A='1'" ++ env_nl)%string.
Proof.
  assert (E : (run Env.env_runtime None env_plan false ConflictPolicy.Abort "").2 =
    ("export B='x'" ++ env_nl ++ "export A='1'" ++ env_nl)%string) by (vm_compute; reflexivity).
  rewrite <- E. apply (run_steps_allowed Env.env_runtime None). discriminate.
Defined.

Lemma run_dry_run_pure_witness :
  (run Env.env_runtime None env_plan true ConflictPolicy.Force "").2 = ""
  ∧ (run Env.env_runtime None env_plan false ConflictPolicy.Force "").2 ≠ "".
Proof.
  split; [exact (@run_dry_run_pure _ Env.env_runtime None Env.env_runtime_dry _ _ _)|vm_compute; discriminate].
Defined.

(** Both threads ask, then the second executes first. *)
Definition env_schedule : list nat := [0; 1; 0; 1; 0; 1; 1; 0; 0; 1; 0; 1; 0; 1].

Definition env_parallel_report : ExecutionReport :=
  (run Env.env_runtime None env_plan false ConflictPolicy.Skip "").1.

Lemma run_parallel_accounts_witness :
  ∃ buf, run_parallel Env.env_runtime None env_plan false ConflictPolicy.Skip 2 ""
      env_parallel_report buf
    ∧ buf ≠ (run Env.env_runtime None env_plan false ConflictPolicy.Skip "").2
    ∧ r_op_index <$> records env_parallel_report = [0; 1].
Proof.
  assert (Hp : run_parallel Env.env_runtime None env_plan false ConflictPolicy.Skip 2 ""
    env_parallel_report ("export A='1'" ++ env_nl ++ "export B='x'" ++ env_nl)%string).
  { eexists. split.
    - apply (par_next _ _ _ _ _ _ 0%N [0; 1] [] env_schedule).
      + apply (bool_decide_unpack _). vm_compute. exact I.
      + vm_compute. reflexivity.
      + apply par_done_eq; vm_compute; reflexivity.
    - vm_compute. reflexivity. }
  exists ("export A='1'" ++ env_nl ++ "export B='x'" ++ env_nl)%string.
  split; [exact Hp|]. split; [vm_compute; discriminate|].
  exact (proj1 (proj2 (proj2 (run_parallel_accounts Env.env_runtime None env_plan false
    ConflictPolicy.Skip 2 "" env_parallel_report _ Hp))) ltac:(discriminate)).
Defined.

End OrchestratorFacts.
