(* ===== verification/Fs.v ===== *)
(** * The file system

    The part of [std::fs], [nix] and [libc] the file executor calls, on one
    in-memory POSIX file system: names map to inode numbers, inodes carry
    kind, permission bits, ownership, times, extended attributes, flags and
    content. Paths are resolved (no symbolic link among the ancestors, and the
    calls that follow a link are given other names), the caller may read and
    write, directory times are not tracked, and unlinked inodes stay in the
    table unreachable. *)

From S2P Require Import Prelude Paths Base Probe.

Module Fs.

Record Inode := mkIno {
  in_kind : FileKind;
  in_mode : N;  (** the twelve permission bits *)
  in_uid : N;
  in_gid : N;
  in_mtime : Z;
  in_xattrs : gmap string bytes;
  in_flags : N;
  in_data : bytes;
  in_target : string;
}.

Record FS := mkFS {
  names : gmap PathBuf N;
  inodes : gmap N Inode;
  next_ino : N;
  clock : Z;
  device : N;
  umask : N;
  euid : N;
  egid : N;
}.

Inductive Errno := ENOENT | EEXIST | ENOTDIR | EISDIR | ENOTEMPTY | EPERM | EINVAL.

#[export] Instance Errno_eq_dec : EqDecision Errno.
Proof. solve_decision. Defined.

Abbreviation Res A := (A + Errno)%type.

Definition errno_string (e : Errno) : string :=
  match e with
  | ENOENT => "No such file or directory (os error 2)"
  | EEXIST => "File exists (os error 17)"
  | ENOTDIR => "Not a directory (os error 20)"
  | EISDIR => "Is a directory (os error 21)"
  | ENOTEMPTY => "Directory not empty (os error 39)"
  | EPERM => "Operation not permitted (os error 1)"
  | EINVAL => "Invalid argument (os error 22)"
  end.

(** The [Display] of [nix]'s error type. *)
Definition nix_string (e : Errno) : string :=
  match e with
  | ENOENT => "ENOENT: No such file or directory"
  | EEXIST => "EEXIST: File exists"
  | ENOTDIR => "ENOTDIR: Not a directory"
  | EISDIR => "EISDIR: Is a directory"
  | ENOTEMPTY => "ENOTEMPTY: Directory not empty"
  | EPERM => "EPERM: Operation not permitted"
  | EINVAL => "EINVAL: Invalid argument"
  end.

(** ** Reading *)

Definition find (fs : FS) (p : PathBuf) : option (N * Inode) :=
  i ← names fs !! p; n ← inodes fs !! i; Some (i, n).

(** What a name shows: everything but the inode number. *)
Definition view (fs : FS) (p : PathBuf) : option Inode := snd <$> find fs p.

Definition is_dir (fs : FS) (p : PathBuf) : bool :=
  match view fs p with
  | Some n => bool_decide (in_kind n = FileKind.Directory)
  | None => false
  end.

Definition fs_exists (fs : FS) (p : PathBuf) : bool :=
  match view fs p with Some _ => true | None => false end.

Definition kind_bits (k : FileKind) : N :=
  match k with
  | FileKind.Regular => 0x8000 | FileKind.Directory => 0x4000
  | FileKind.Symlink => 0xA000 | FileKind.Fifo => 0x1000
  | FileKind.Socket => 0xC000 | FileKind.BlockDevice => 0x6000
  | FileKind.CharDevice => 0x2000
  end.

(** [LiveStateProbe::stat]: [lstat] without extended attributes. *)
Definition inode_meta (n : Inode) : FileMetadata :=
  mkMeta (N.lor (kind_bits (in_kind n)) (in_mode n)) (in_uid n) (in_gid n)
    (N.of_nat (length (in_data n))) (in_mtime n) ∅ None (in_flags n).

Definition live_probe (hash : bytes → BlobHash) (fs : FS) : StateProbe := {|
  stat p := (λ '(i, n), mkStat (mkInode (device fs) i) (inode_meta n)) <$> find fs p;
  content_hash p :=
    n ← view fs p;
    if bool_decide (in_kind n = FileKind.Regular) then Some (hash (in_data n)) else None;
|}.

(** ** Writing *)

Definition set_names (fs : FS) (m : gmap PathBuf N) : FS :=
  mkFS m (inodes fs) (next_ino fs) (clock fs) (device fs) (umask fs) (euid fs) (egid fs).

Definition set_inode (fs : FS) (i : N) (n : Inode) : FS :=
  mkFS (names fs) (<[i := n]> (inodes fs)) (next_ino fs) (clock fs) (device fs) (umask fs) (euid fs) (egid fs).

(** A new inode under a new name. *)
Definition add_file (fs : FS) (p : PathBuf) (n : Inode) : FS :=
  mkFS (<[p := next_ino fs]> (names fs)) (<[next_ino fs := n]> (inodes fs))
    (next_ino fs + 1)%N (clock fs) (device fs) (umask fs) (euid fs) (egid fs).

(** The directory a name is created in. *)
Definition check_parent (fs : FS) (p : PathBuf) : option Errno :=
  match parent p with
  | None => Some EISDIR
  | Some q =>
      match view fs q with
      | None => Some ENOENT
      | Some n => if bool_decide (in_kind n = FileKind.Directory) then None else Some ENOTDIR
      end
  end.

Definition has_children (fs : FS) (p : PathBuf) : bool :=
  existsb (λ q, starts_with q p && negb (bool_decide (q = p))) (map_to_list (names fs)).*1.

Definition masked_mode (fs : FS) (m : N) : N := N.ldiff m (umask fs).

Definition new_inode (fs : FS) (k : FileKind) (mode : N) (target : string) : Inode :=
  mkIno k mode (euid fs) (egid fs) (clock fs) ∅ 0 [] target.

(** [File::create]. *)
Definition create (fs : FS) (p : PathBuf) : Res FS :=
  match check_parent fs p with
  | Some e => inr e
  | None =>
      match find fs p with
      | Some (i, n) =>
          if bool_decide (in_kind n = FileKind.Directory) then inr EISDIR
          else inl (set_inode fs i (mkIno (in_kind n) (in_mode n) (in_uid n) (in_gid n)
                 (clock fs) (in_xattrs n) (in_flags n) [] (in_target n)))
      | None => inl (add_file fs p (new_inode fs FileKind.Regular (masked_mode fs 438) ""))
      end
  end.

(** [write_all] to the file just opened. *)
Definition write_all (fs : FS) (p : PathBuf) (data : bytes) : Res FS :=
  match find fs p with
  | None => inr ENOENT
  | Some (i, n) =>
      inl (set_inode fs i (mkIno (in_kind n) (in_mode n) (in_uid n) (in_gid n)
             (clock fs) (in_xattrs n) (in_flags n) data (in_target n)))
  end.

(** Replace the prefix [from] of every name below it by [to]. *)
Definition move_name (from to q : PathBuf) : PathBuf :=
  if starts_with q from then to ++ drop (length from) q else q.

Definition move_tree (m : gmap PathBuf N) (from to : PathBuf) : gmap PathBuf N :=
  list_to_map ((λ kv, (move_name from to kv.1, kv.2)) <$>
    List.filter (λ kv, negb (bool_decide (kv.1 = to))) (map_to_list m)).

(** [rename(2)]. *)
Definition rename (fs : FS) (from to : PathBuf) : Res FS :=
  match find fs from with
  | None => inr ENOENT
  | Some (i, n) =>
      match check_parent fs to with
      | Some e => inr e
      | None =>
          let from_dir := bool_decide (in_kind n = FileKind.Directory) in
          if from_dir && starts_with to from && negb (bool_decide (to = from)) then inr EINVAL
          else
            match find fs to with
            | Some (j, n') =>
                let to_dir := bool_decide (in_kind n' = FileKind.Directory) in
                if bool_decide (i = j) then inl fs
                else if from_dir && negb to_dir then inr ENOTDIR
                else if negb from_dir && to_dir then inr EISDIR
                else if to_dir && has_children fs to then inr ENOTEMPTY
                else inl (set_names fs (move_tree (names fs) from to))
            | None => inl (set_names fs (move_tree (names fs) from to))
            end
      end
  end.

Definition remove_file (fs : FS) (p : PathBuf) : Res FS :=
  match view fs p with
  | None => inr ENOENT
  | Some n =>
      if bool_decide (in_kind n = FileKind.Directory) then inr EISDIR
      else inl (set_names fs (delete p (names fs)))
  end.

Definition remove_dir (fs : FS) (p : PathBuf) : Res FS :=
  match view fs p with
  | None => inr ENOENT
  | Some n =>
      if negb (bool_decide (in_kind n = FileKind.Directory)) then inr ENOTDIR
      else if has_children fs p then inr ENOTEMPTY
      else inl (set_names fs (delete p (names fs)))
  end.

Definition remove_dir_all (fs : FS) (p : PathBuf) : Res FS :=
  match view fs p with
  | None => inr ENOENT
  | Some _ => inl (set_names fs (filter (λ kv, starts_with kv.1 p = false) (names fs)))
  end.

Definition create_dir (fs : FS) (p : PathBuf) : Res FS :=
  match view fs p with
  | Some _ => inr EEXIST
  | None =>
      match check_parent fs p with
      | Some e => inr e
      | None => inl (add_file fs p (new_inode fs FileKind.Directory (masked_mode fs 511) ""))
      end
  end.

(** [create_dir_all]: the directory, or its ancestors first when they are
    missing; ancestors made before an error stay. Each call on a parent takes
    a shorter path, so the path's length is enough fuel. *)
Fixpoint create_dirs (fuel : nat) (fs : FS) (p : PathBuf) : option Errno * FS :=
  match p with
  | [] => (None, fs)
  | _ =>
      match create_dir fs p, fuel, parent p with
      | inl fs', _, _ => (None, fs')
      | inr ENOENT, S fuel', Some q =>
          match create_dirs fuel' fs q with
          | (Some e, fs') => (Some e, fs')
          | (None, fs') =>
              match create_dir fs' p with
              | inl fs'' => (None, fs'')
              | inr e => if is_dir fs' p then (None, fs') else (Some e, fs')
              end
          end
      | inr e, _, _ => if is_dir fs p then (None, fs) else (Some e, fs)
      end
  end.

Definition create_dir_all (fs : FS) (p : PathBuf) : option Errno * FS :=
  create_dirs (length p) fs p.

Definition symlink (fs : FS) (target : string) (p : PathBuf) : Res FS :=
  match view fs p with
  | Some _ => inr EEXIST
  | None =>
      match check_parent fs p with
      | Some e => inr e
      | None => inl (add_file fs p (new_inode fs FileKind.Symlink 511 target))
      end
  end.

Definition hard_link (fs : FS) (source target : PathBuf) : Res FS :=
  match find fs source with
  | None => inr ENOENT
  | Some (i, n) =>
      match view fs target with
      | Some _ => inr EEXIST
      | None =>
          match check_parent fs target with
          | Some e => inr e
          | None =>
              if bool_decide (in_kind n = FileKind.Directory) then inr EPERM
              else inl (set_names fs (<[target := i]> (names fs)))
          end
      end
  end.

(** An attribute change through a name. *)
Definition update (fs : FS) (p : PathBuf) (f : Inode → Inode) : Res FS :=
  match find fs p with
  | None => inr ENOENT
  | Some (i, n) => inl (set_inode fs i (f n))
  end.

Definition set_permissions (fs : FS) (p : PathBuf) (mode : N) : Res FS :=
  update fs p (λ n, mkIno (in_kind n) mode (in_uid n) (in_gid n) (in_mtime n) (in_xattrs n)
    (in_flags n) (in_data n) (in_target n)).

(** [chown] clears the set-user-id and set-group-id bits of a regular file. *)
Definition strip_setid (n : Inode) : N :=
  if bool_decide (in_kind n = FileKind.Regular) then N.ldiff (in_mode n) 3072 else in_mode n.

Definition chown (fs : FS) (p : PathBuf) (uid gid : N) : Res FS :=
  update fs p (λ n, mkIno (in_kind n) (strip_setid n) uid gid (in_mtime n) (in_xattrs n)
    (in_flags n) (in_data n) (in_target n)).

Definition set_mtime (fs : FS) (p : PathBuf) (t : Z) : Res FS :=
  update fs p (λ n, mkIno (in_kind n) (in_mode n) (in_uid n) (in_gid n) t (in_xattrs n)
    (in_flags n) (in_data n) (in_target n)).

Definition set_xattrs (fs : FS) (p : PathBuf) (x : gmap string bytes) : Res FS :=
  update fs p (λ n, mkIno (in_kind n) (in_mode n) (in_uid n) (in_gid n) (in_mtime n) x
    (in_flags n) (in_data n) (in_target n)).

Definition chflags (fs : FS) (p : PathBuf) (flags : N) : Res FS :=
  update fs p (λ n, mkIno (in_kind n) (in_mode n) (in_uid n) (in_gid n) (in_mtime n)
    (in_xattrs n) flags (in_data n) (in_target n)).

(** [set_len]: truncate, or extend with zeros. *)
Definition set_len (fs : FS) (p : PathBuf) (len : nat) : Res FS :=
  update fs p (λ n, mkIno (in_kind n) (in_mode n) (in_uid n) (in_gid n) (clock fs)
    (in_xattrs n) (in_flags n)
    (take len (in_data n) ++ replicate (len - length (in_data n)) Byte.x00) (in_target n)).

End Fs.
