(* ===== verification/FileExec.v ===== *)
(** * The file-tier executor

    [executors/file.rs] and [executors/xattr.rs] on the in-memory file
    system. The blob reader, the privileged-operation router, whether the
    process may [chown], the temporary file's name and the operating system
    (the [cfg] of the build) are parameters. *)

From S2P Require Import Prelude Paths Base Events Inverse Probe Executor Fs.

Module FileExec.
Import Executor Fs.

Module PrivilegedOpOutcome.
Inductive PrivilegedOpOutcome :=
  | Applied | OutOfScope | PermissionDenied | NotFound | Failed (err : Msg).
End PrivilegedOpOutcome.
Abbreviation PrivilegedOpOutcome := PrivilegedOpOutcome.PrivilegedOpOutcome.

Record PrivilegedOpRouter := mkRouter {
  router_chown : PathBuf → N → N → bool → FS → PrivilegedOpOutcome * FS;
  router_mknod : PathBuf → N → N → FS → PrivilegedOpOutcome * FS;
}.

Definition NoOpPrivilegedOpRouter : PrivilegedOpRouter := mkRouter
  (λ _ _ _ _ fs, (PrivilegedOpOutcome.PermissionDenied, fs))
  (λ _ _ _ fs, (PrivilegedOpOutcome.PermissionDenied, fs)).

(** Every effectful helper returns [Result<(), String>] and the new state. *)
Abbreviation Out := (option Msg * FS)%type.

Definition ok (fs : FS) : Out := (None, fs).

(** [map_err] and [?]: on an error the state is the one before the call. *)
Definition and_then (fs : FS) (r : Res FS) (err : Errno → Msg) (k : FS → Out) : Out :=
  match r with
  | inl fs' => k fs'
  | inr e => (Some (err e), fs)
  end.

Definition io (e : Errno) : Piece := ErrDisplay (errno_string e).
Definition nix_io (e : Errno) : Piece := ErrDisplay (nix_string e).

(** The targets the sources are compiled for. *)
Inductive Os := Linux | FreeBSD | MacOS.

(** [st_flags] exists on macOS and FreeBSD. *)
Definition has_chflags (os : Os) : bool :=
  match os with Linux => false | FreeBSD | MacOS => true end.

(** [inode & 0o7777]. *)
Definition perm_bits (mode : N) : N := N.land mode 4095.

Section Exec.
Context (read_blob : BlobHash → bytes + Msg) (router : PrivilegedOpRouter).
Context (may_chown : FS → PathBuf → N → N → bool).
Context (tmp_name : string) (os : Os).

(** [parent.exists()], [create_dir_all]. *)
Definition ensure_parent (fs : FS) (parent : PathBuf) (k : FS → Out) : Out :=
  if fs_exists fs parent then k fs
  else match create_dir_all fs parent with
       | (None, fs') => k fs'
       | (Some e, fs') => (Some [Lit "mkdir -p "; PathDebug parent; Lit ": "; io e], fs')
       end.

Definition restore_content_inner (path : PathBuf) (blob : BlobHash) (fs : FS) : Out :=
  match read_blob blob with
  | inr e => (Some ([Lit "blob read for "; PathDebug path; Lit ": "] ++ e), fs)
  | inl data =>
      match parent path with
      | None => (Some [Lit "path "; PathDebug path;
                       Lit " has no parent dir; cannot place tmpfile"], fs)
      | Some parent =>
          ensure_parent fs parent (λ fs,
            let tmp_path := parent ++ [Normal tmp_name] in
            let written := match create fs tmp_path with
                           | inl fs' => write_all fs' tmp_path data
                           | inr e => inr e
                           end in
            match written with
            | inr e =>
                (Some [Lit "tmpfile write "; PathDebug tmp_path; Lit ": "; io e],
                 match remove_file fs tmp_path with inl fs' => fs' | inr _ => fs end)
            | inl fs1 =>
                match rename fs1 tmp_path path with
                | inl fs2 => ok fs2
                | inr e =>
                    (Some [Lit "rename "; PathDebug tmp_path; Lit " -> "; PathDebug path;
                           Lit ": "; io e],
                     match remove_file fs1 tmp_path with inl fs2 => fs2 | inr _ => fs1 end)
                end
            end)
      end
  end.

(** [restore_user_xattrs]: set what is missing or differs, delete orphans;
    names with an interior NUL are skipped. *)
Fixpoint no_nul (s : string) : bool :=
  match s with
  | EmptyString => true
  | String c s' => negb (bool_decide (c = "000"%char)) && no_nul s'
  end.

(** The attribute macOS stamps itself. *)
Definition should_skip_restore (name : string) : bool :=
  match os with MacOS => bool_decide (name = "com.apple.provenance") | _ => false end.

Definition xattr_set (current acc : gmap string bytes) (kv : string * bytes)
    : gmap string bytes :=
  if should_skip_restore kv.1 then acc
  else if bool_decide (current !! kv.1 = Some kv.2) then acc
  else if no_nul kv.1 then <[kv.1 := kv.2]> acc else acc.

Definition xattr_drop (target acc : gmap string bytes) (kv : string * bytes)
    : gmap string bytes :=
  if bool_decide (is_Some (target !! kv.1)) || should_skip_restore kv.1 then acc
  else if no_nul kv.1 then delete kv.1 acc else acc.

Definition converge_xattrs (current target : gmap string bytes) : gmap string bytes :=
  foldl (xattr_drop target) (foldl (xattr_set current) current (btree_iter target))
    (btree_iter current).

Definition restore_user_xattrs (path : PathBuf) (target : gmap string bytes) (fs : FS) : FS :=
  match view fs path with
  | None => fs
  | Some n =>
      match set_xattrs fs path (converge_xattrs (in_xattrs n) target) with
      | inl fs' => fs'
      | inr _ => fs
      end
  end.

Definition restore_flags_value (path : PathBuf) (target_flags : N) (fs : FS) : Out :=
  if has_chflags os then
    match view fs path with
    | None => (Some [Lit "lstat for chflags-probe "; PathDebug path; Lit ": "; io ENOENT], fs)
    | Some n =>
        if bool_decide (in_flags n = target_flags) then ok fs
        else and_then fs (chflags fs path target_flags)
               (λ e, [Lit "chflags "; PathDebug path; Lit " -> 0x"; NumHex target_flags;
                      Lit ": "; io e]) ok
    end
  else (Some [Lit "RestoreFlags is unsupported on this operating system"], fs).

(** [div_euclid] and [rem_euclid], the seconds clamped to [i64]. *)
Definition time_spec (t : Z) : Z :=
  let secs := (t / 1000000000)%Z in
  let nsecs := (t mod 1000000000)%Z in
  let secs_i64 :=
    if bool_decide (- 2 ^ 63 ≤ secs < 2 ^ 63)%Z then secs else (2 ^ 63 - 1)%Z in
  (secs_i64 * 1000000000 + nsecs)%Z.

Definition restore_mtime_only (path : PathBuf) (target : FileMetadata) (fs : FS) : Out :=
  if bool_decide (m_mtime_unix_nanos target = 0%Z) then ok fs
  else and_then fs (set_mtime fs path (time_spec (m_mtime_unix_nanos target)))
         (λ e, [Lit "utimensat "; PathDebug path; Lit ": "; nix_io e]) ok.

Inductive MetadataRestoreError :=
  | ChownNeedsPrivilege (uid gid : N)
  | Other (err : Msg).

Definition chmod_to (path : PathBuf) (mode : N) (fs : FS) (k : FS → Out) : Out :=
  and_then fs (set_permissions fs path (perm_bits mode))
    (λ e, [Lit "chmod "; PathDebug path; Lit " -> "; NumOctal (perm_bits mode);
           Lit ": "; io e]) k.

(** After [chown]: mode, extended attributes, flags, then mtime. *)
Definition restore_after_chown (path : PathBuf) (target : FileMetadata) (fs : FS) : Out :=
  chmod_to path (m_mode target) fs (λ fs,
    let fs := restore_user_xattrs path (m_xattrs target) fs in
    let fs := if has_chflags os then (restore_flags_value path (m_flags target) fs).2 else fs in
    restore_mtime_only path target fs).

Definition lift_other (o : Out) : option MetadataRestoreError * FS :=
  (Other <$> o.1, o.2).

Definition restore_metadata_inner (path : PathBuf) (target : FileMetadata) (fs : FS)
    : option MetadataRestoreError * FS :=
  if negb (fs_exists fs path) then
    (Some (Other [Lit "chown "; PathDebug path; Lit " -> uid="; NumDisplay (m_uid target);
       Lit " gid="; NumDisplay (m_gid target); Lit ": "; nix_io ENOENT]), fs)
  else if negb (may_chown fs path (m_uid target) (m_gid target)) then
    (Some (ChownNeedsPrivilege (m_uid target) (m_gid target)), fs)
  else
    match chown fs path (m_uid target) (m_gid target) with
    | inl fs' => lift_other (restore_after_chown path target fs')
    | inr e => (Some (Other [Lit "chown "; PathDebug path; Lit " -> uid=";
        NumDisplay (m_uid target); Lit " gid="; NumDisplay (m_gid target); Lit ": "; nix_io e]), fs)
    end.

(** [Ok(()) => Applied, Err(e) => Failed]. *)
Definition outcome (o : Out) : ExecutionOutcome * FS :=
  match o with
  | (None, fs) => (ExecutionOutcome.Applied, fs)
  | (Some e, fs) => (ExecutionOutcome.Failed e, fs)
  end.

Definition apply_restore_metadata (path : PathBuf) (target : FileMetadata) (fs : FS)
    : ExecutionOutcome * FS :=
  match restore_metadata_inner path target fs with
  | (None, fs') => (ExecutionOutcome.Applied, fs')
  | (Some (Other e), fs') => (ExecutionOutcome.Failed e, fs')
  | (Some (ChownNeedsPrivilege uid gid), fs') =>
      let pre := [Lit "chown "; PathDebug path; Lit " -> uid="; NumDisplay uid;
                  Lit " gid="; NumDisplay gid] in
      match router_chown router path uid gid false fs' with
      | (PrivilegedOpOutcome.Applied, fs'') =>
          outcome (chmod_to path (m_mode target) fs'' (restore_mtime_only path target))
      | (PrivilegedOpOutcome.OutOfScope, fs'') =>
          (ExecutionOutcome.Failed (pre ++ [Lit ": helper refused (out of session scope)"]), fs'')
      | (PrivilegedOpOutcome.PermissionDenied, fs'') =>
          (ExecutionOutcome.Failed (pre ++ [Lit ": EPERM (helper also lacks privilege)"]), fs'')
      | (PrivilegedOpOutcome.NotFound, fs'') =>
          (ExecutionOutcome.Failed [Lit "chown "; PathDebug path;
             Lit ": ENOENT (path vanished between capture and undo)"], fs'')
      | (PrivilegedOpOutcome.Failed err, fs'') =>
          (ExecutionOutcome.Failed ([Lit "chown "; PathDebug path; Lit " via helper: "] ++ err), fs'')
      end
  end.

Definition unlink_inner (path : PathBuf) (fs : FS) : Out :=
  match view fs path with
  | None => (Some [Lit "lstat "; PathDebug path; Lit ": "; io ENOENT], fs)
  | Some n =>
      if bool_decide (in_kind n = FileKind.Directory) then
        match remove_dir fs path with
        | inl fs' => ok fs'
        | inr ENOTEMPTY => and_then fs (remove_dir_all fs path)
            (λ e, [Lit "rmdir-recursive "; PathDebug path; Lit ": "; io e]) ok
        | inr e => (Some [Lit "rmdir "; PathDebug path; Lit ": "; io e], fs)
        end
      else and_then fs (remove_file fs path)
             (λ e, [Lit "unlink "; PathDebug path; Lit ": "; io e]) ok
  end.

(** The parent, when there is one, made to exist. *)
Definition with_parent (path : PathBuf) (fs : FS) (k : FS → Out) : Out :=
  match parent path with
  | None => k fs
  | Some p => ensure_parent fs p k
  end.

Definition kind_debug (k : FileKind) : Piece :=
  DebugVariant (match k with
    | FileKind.Regular => "Regular" | FileKind.Directory => "Directory"
    | FileKind.Symlink => "Symlink" | FileKind.Fifo => "Fifo" | FileKind.Socket => "Socket"
    | FileKind.BlockDevice => "BlockDevice" | FileKind.CharDevice => "CharDevice" end) [].

Definition recreate_path_inner (path : PathBuf) (kind : FileKind) (mode : N) (fs : FS) : Out :=
  with_parent path fs (λ fs,
    match kind with
    | FileKind.Regular =>
        and_then fs (create fs path) (λ e, [Lit "create "; PathDebug path; Lit ": "; io e])
          (λ fs, chmod_to path mode fs ok)
    | FileKind.Directory =>
        match create_dir fs path with
        | inl fs' => chmod_to path mode fs' ok
        | inr e =>
            if bool_decide (e = EEXIST) && is_dir fs path then chmod_to path mode fs ok
            else (Some [Lit "mkdir "; PathDebug path; Lit ": "; io e], fs)
        end
    | FileKind.Symlink =>
        (Some [Lit "RecreatePath for symlink at "; PathDebug path;
          Lit " is a planner bug — use InverseOp::CreateSymlink which carries the target"], fs)
    | other =>
        (Some [Lit "RecreatePath for kind "; kind_debug other; Lit " at "; PathDebug path;
          Lit ": needs mknod(2) with CAP_SYS_ADMIN — deferred to DR-15.2"], fs)
    end).

(** The [mknod] branch for FIFOs and sockets. *)
Definition recreate_special (path : PathBuf) (kind : FileKind) (mode : N) (fs : FS)
    : ExecutionOutcome * FS :=
  outcome (with_parent path fs (λ fs,
    let pre := [Lit "mknod "; PathDebug path; Lit " kind="; kind_debug kind] in
    match router_mknod router path mode 0 fs with
    | (PrivilegedOpOutcome.Applied, fs') => ok fs'
    | (PrivilegedOpOutcome.OutOfScope, fs') =>
        (Some (pre ++ [Lit ": helper refused (out of session scope)"]), fs')
    | (PrivilegedOpOutcome.PermissionDenied, fs') =>
        (Some (pre ++ [Lit ": EPERM (helper lacks CAP_MKNOD?)"]), fs')
    | (PrivilegedOpOutcome.NotFound, fs') => (Some (pre ++ [Lit ": parent path missing"]), fs')
    | (PrivilegedOpOutcome.Failed err, fs') => (Some (pre ++ [Lit ": "] ++ err), fs')
    end)).

Definition apply_recreate_path (path : PathBuf) (kind : FileKind) (mode : N) (fs : FS)
    : ExecutionOutcome * FS :=
  match kind with
  | FileKind.Fifo | FileKind.Socket => recreate_special path kind mode fs
  | _ => outcome (recreate_path_inner path kind mode fs)
  end.

Definition apply_file_extend (path : PathBuf) (truncate_to : N) (fs : FS)
    : ExecutionOutcome * FS :=
  match view fs path with
  | None => (ExecutionOutcome.Failed [Lit "FileExtend: stat "; PathDebug path; Lit ": "; io ENOENT], fs)
  | Some n =>
      let len := N.of_nat (length (in_data n)) in
      if bool_decide (len < truncate_to)%N then
        (ExecutionOutcome.Failed [Lit "FileExtend: current size "; NumDisplay len;
           Lit " < pre-append size "; NumDisplay truncate_to;
           Lit "; refusing to grow file with zeros (something else truncated the file since capture)"], fs)
      else if bool_decide (in_kind n = FileKind.Directory) then
        (ExecutionOutcome.Failed [Lit "FileExtend: open "; PathDebug path; Lit ": "; io EISDIR], fs)
      else outcome (and_then fs (set_len fs path (N.to_nat truncate_to))
             (λ e, [Lit "FileExtend: truncate "; PathDebug path; Lit " to ";
                    NumDisplay truncate_to; Lit ": "; io e]) ok)
  end.

Definition tier_debug (t : InverseTier) : Piece :=
  DebugVariant (match t with
    | InverseTier.Files => "Files" | InverseTier.Env => "Env"
    | InverseTier.Packages => "Packages" | InverseTier.Network => "Network"
    | InverseTier.Services => "Services" | InverseTier.Processes => "Processes"
    | InverseTier.Descriptor => "Descriptor" | InverseTier.Cloud => "Cloud"
    | InverseTier.Container => "Container" | InverseTier.ShellState => "ShellState"
    | InverseTier.Database => "Database" | InverseTier.Refuse => "Refuse" end) [].

Definition supports (op : InverseOp) : bool := bool_decide (tier op = InverseTier.Files).

Definition file_execute (op : InverseOp) (dry_run : bool) (policy : ConflictPolicy) (fs : FS)
    : ExecutionOutcome * FS :=
  if negb (supports op) then
    (ExecutionOutcome.Failed
       [Lit "FileExecutor cannot execute op of tier "; tier_debug (tier op)], fs)
  else if dry_run then (ExecutionOutcome.WouldApply, fs)
  else match op with
  | InverseOp.RestoreContent _ path blob => outcome (restore_content_inner path blob fs)
  | InverseOp.RestoreMetadata _ path target => apply_restore_metadata path target fs
  | InverseOp.RestoreFlags _ path flags => outcome (restore_flags_value path flags fs)
  | InverseOp.Unlink path => outcome (unlink_inner path fs)
  | InverseOp.RecreatePath path kind mode => apply_recreate_path path kind mode fs
  | InverseOp.Rename from to => outcome (and_then fs (rename fs from to)
      (λ e, [Lit "rename "; PathDebug from; Lit " -> "; PathDebug to; Lit ": "; io e]) ok)
  | InverseOp.CreateSymlink link_target path => outcome (and_then fs (symlink fs link_target path)
      (λ e, [Lit "symlink "; PathDebug path; Lit " -> "; StrDebug link_target; Lit ": "; io e]) ok)
  | InverseOp.CreateHardlink source target => outcome (and_then fs (hard_link fs source target)
      (λ e, [Lit "link "; PathDebug source; Lit " -> "; PathDebug target; Lit ": "; io e]) ok)
  | InverseOp.FileExtend path truncate_to => apply_file_extend path truncate_to fs
  | _ => (ExecutionOutcome.Failed
      [Lit "FileExecutor: unexpected variant after supports() said yes — bug?"], fs)
  end.

(** The file executor and the live probe over the file system. *)
Definition file_runtime (hash : bytes → BlobHash) : Runtime FS :=
  mkRuntime file_execute (live_probe hash).

#[export] Instance file_runtime_dry (hash : bytes → BlobHash) : DryRunPure (file_runtime hash).
Proof. intros op policy w. simpl. unfold file_execute. by destruct (supports op). Qed.

End Exec.

End FileExec.
