(* ===== verification/FileFacts.v ===== *)
(** * Properties of the file executor

    Well-formed file systems, the effect of each call on what names show, and
    that a content restore followed by a metadata restore leaves exactly the
    captured file. *)

From S2P Require Import Prelude Paths Base Events Inverse Probe Executor Fs FileExec.

Module FileFacts.
Import Executor Fs FileExec.

(** ** Well-formed file systems *)

(** Names point at inodes, inode numbers are below the counter, the root
    occurs only at the head of a name, and every name's parent is a directory. *)
Record wf (fs : FS) : Prop := {
  wf_names : ∀ p i, names fs !! p = Some i → is_Some (inodes fs !! i);
  wf_next : ∀ i, is_Some (inodes fs !! i) → (i < next_ino fs)%N;
  wf_shape : ∀ p, is_Some (names fs !! p) → RootDir ∉ tail p;
  wf_parent : ∀ p q, is_Some (names fs !! p) → parent p = Some q → is_dir fs q = true;
}.

Lemma find_Some (fs : FS) (p : PathBuf) (i : N) (n : Inode) :
  find fs p = Some (i, n) ↔ names fs !! p = Some i ∧ inodes fs !! i = Some n.
Proof.
  unfold find. destruct (names fs !! p) as [j|]; simpl; [|naive_solver].
  destruct (inodes fs !! j) eqn:E; simpl; naive_solver.
Qed.

Lemma view_find (fs : FS) (p : PathBuf) (n : Inode) :
  view fs p = Some n ↔ ∃ i, find fs p = Some (i, n).
Proof. unfold view. destruct (find fs p) as [[]|]; simpl; naive_solver. Qed.

Lemma find_None (fs : FS) (p : PathBuf) : wf fs → find fs p = None ↔ names fs !! p = None.
Proof.
  intros Hwf. unfold find. destruct (names fs !! p) as [i|] eqn:E; [|done]. simpl.
  destruct (wf_names _ Hwf _ _ E) as [n Hn]. by rewrite Hn.
Qed.

Lemma view_None (fs : FS) (p : PathBuf) : wf fs → view fs p = None ↔ names fs !! p = None.
Proof.
  intros Hwf. rewrite <- find_None by done. unfold view. by destruct (find fs p) as [[]|].
Qed.

Lemma view_names (fs : FS) (p : PathBuf) (n : Inode) : view fs p = Some n → is_Some (names fs !! p).
Proof. intros (i & Hi)%view_find. apply find_Some in Hi as [-> _]. eauto. Qed.

Lemma is_dir_view (fs : FS) (p : PathBuf) :
  is_dir fs p = true ↔ ∃ n, view fs p = Some n ∧ in_kind n = FileKind.Directory.
Proof.
  unfold is_dir. destruct (view fs p) as [n|]; [|naive_solver].
  rewrite bool_decide_eq_true. naive_solver.
Qed.

(** Everything below a name hangs off a directory. *)
Lemma below_is_dir (fs : FS) (p l : PathBuf) (c : Component) :
  wf fs → p ≠ [] → is_Some (names fs !! (p ++ c :: l)) → is_dir fs p = true.
Proof.
  intros Hwf Hp. destruct p as [|e p]; [done|]. clear Hp.
  revert c. induction l as [|d l IH] using rev_ind; intros c Hn;
    pose proof (wf_shape _ Hwf _ Hn) as Hs; simpl in Hs.
  - apply (wf_parent _ Hwf _ (e :: p) Hn). apply parent_app. set_solver.
  - apply (IH c). rewrite app_comm_cons, app_assoc in Hn.
    pose proof (parent_app ((e :: p) ++ c :: l) d ltac:(set_solver)) as Hpar.
    pose proof (wf_parent _ Hwf _ _ Hn Hpar) as Hd.
    apply is_dir_view in Hd as (n & Hd & _). by eapply view_names.
Qed.

(** A name that is not a directory has nothing below it. *)
Lemma nothing_below (fs : FS) (p q : PathBuf) :
  wf fs → p ≠ [] → is_dir fs p = false → is_Some (names fs !! q) →
  starts_with q p = true → q = p.
Proof.
  intros Hwf Hp Hd Hq [l ->]%starts_with_prefix.
  destruct l as [|c l]; [by rewrite app_nil_r|].
  pose proof (below_is_dir fs p l c Hwf Hp Hq). congruence.
Qed.

(** Unlinking a file keeps the tree well-formed and changes nothing else. *)
Lemma remove_file_spec (fs : FS) (p : PathBuf) (n : Inode) :
  wf fs → view fs p = Some n → in_kind n ≠ FileKind.Directory →
  remove_file fs p = inl (set_names fs (delete p (names fs)))
  ∧ wf (set_names fs (delete p (names fs)))
  ∧ view (set_names fs (delete p (names fs))) p = None
  ∧ ∀ q, q ≠ p → view (set_names fs (delete p (names fs))) q = view fs q.
Proof.
  intros Hwf Hv Hk. set (fs' := set_names fs (delete p (names fs))).
  assert (Hother : ∀ q, q ≠ p → view fs' q = view fs q).
  { intros q Hq. unfold view, find, fs'. simpl. by rewrite lookup_delete_ne. }
  split_and!.
  - unfold remove_file. rewrite Hv. by rewrite bool_decide_eq_false_2.
  - split; simpl.
    + intros q i Hq. apply lookup_delete_Some in Hq as [_ Hq]. by eapply wf_names.
    + apply (wf_next _ Hwf).
    + intros q [i Hq]. apply lookup_delete_Some in Hq as [_ Hq]. apply (wf_shape _ Hwf). eauto.
    + intros q r [i Hq] Hr. apply lookup_delete_Some in Hq as [_ Hq].
      pose proof (wf_parent _ Hwf q r ltac:(eauto) Hr) as Hd. unfold is_dir in *.
      destruct (decide (r = p)) as [->|Hrp]; [|by rewrite Hother].
      rewrite Hv in Hd. apply bool_decide_eq_true in Hd. done.
  - unfold view, find, fs'. simpl. by rewrite lookup_delete_eq.
  - done.
Qed.

(** ** Moving names *)

Lemma starts_with_app (p l : PathBuf) : starts_with (p ++ l) p = true.
Proof. apply starts_with_prefix. by exists l. Qed.

Lemma move_name_at (from to : PathBuf) : move_name from to from = to.
Proof.
  unfold move_name. rewrite <- (app_nil_r from) at 1. rewrite starts_with_app.
  rewrite drop_all. by rewrite app_nil_r.
Qed.

Lemma move_name_below (from to l : PathBuf) : move_name from to (from ++ l) = to ++ l.
Proof. unfold move_name. by rewrite starts_with_app, drop_app_length. Qed.

Lemma move_name_other (from to q : PathBuf) :
  starts_with q from = false → move_name from to q = q.
Proof. unfold move_name. by intros ->. Qed.

(** Moving a subtree to a place with nothing at or below it, other than the
    name it replaces. *)
Definition movable (m : gmap PathBuf N) (from to : PathBuf) : Prop :=
  (∀ q, is_Some (m !! q) → starts_with q to = true → q = to)
  ∧ starts_with to from = false ∧ starts_with from to = false.

Lemma move_name_inj (m : gmap PathBuf N) (from to a b : PathBuf) :
  movable m from to → is_Some (m !! a) → is_Some (m !! b) → a ≠ to → b ≠ to →
  move_name from to a = move_name from to b → a = b.
Proof.
  intros (Hto & H1 & H2) Ha Hb Hat Hbt Heq.
  destruct (starts_with a from) eqn:Ea, (starts_with b from) eqn:Eb.
  - apply starts_with_prefix in Ea as [l ->]. apply starts_with_prefix in Eb as [k ->].
    rewrite !move_name_below in Heq. by simplify_list_eq.
  - apply starts_with_prefix in Ea as [l ->]. rewrite move_name_below, move_name_other in Heq by done.
    subst b. exfalso. apply Hbt, Hto; [done|apply starts_with_app].
  - apply starts_with_prefix in Eb as [l ->]. rewrite move_name_below, move_name_other in Heq by done.
    subst a. exfalso. apply Hat, Hto; [done|apply starts_with_app].
  - by rewrite !move_name_other in Heq.
Qed.

Lemma move_tree_spec (m : gmap PathBuf N) (from to : PathBuf) (q : PathBuf) (i : N) :
  movable m from to →
  move_tree m from to !! q = Some i ↔
  ∃ a, a ≠ to ∧ m !! a = Some i ∧ q = move_name from to a.
Proof.
  intros Hm. unfold move_tree.
  set (l := List.filter _ (map_to_list m)).
  assert (Hl : ∀ a j, (a, j) ∈ l ↔ m !! a = Some j ∧ a ≠ to).
  { intros a j. subst l. rewrite elem_of_list_filter, elem_of_map_to_list. simpl.
    by rewrite negb_true_iff, bool_decide_eq_false. }
  assert (Hnd : NoDup l).
  { subst l. clear Hl. pose proof (NoDup_map_to_list m) as Hn. induction Hn as [|x k Hx Hk IH];
      simpl; [constructor|]. case_match; [|done]. constructor; [|done].
    rewrite elem_of_list_filter. tauto. }
  rewrite <- elem_of_list_to_map.
  - rewrite list_elem_of_fmap. split.
    + intros ([a j] & [= -> ->] & Hin). apply Hl in Hin as [? ?]. eauto.
    + intros (a & Ha & Hi & ->). exists (a, i). by rewrite Hl.
  - rewrite <- list_fmap_compose. apply NoDup_fmap_2_strong; [|done].
    intros [a j] [b k] Ha Hb Heq. apply Hl in Ha as [Ha Hat], Hb as [Hb Hbt].
    unfold compose in Heq. simpl in Heq.
    assert (a = b) as -> by (eapply move_name_inj; eauto). congruence.
Qed.

(** Renaming a name with nothing below it. *)
Lemma move_tree_leaf (m : gmap PathBuf N) (from to : PathBuf) (i : N) :
  movable m from to → m !! from = Some i →
  (∀ q, is_Some (m !! q) → starts_with q from = true → q = from) →
  move_tree m from to = <[to := i]> (delete from m).
Proof.
  intros Hm Hi Hleaf. apply map_eq. intros q. apply option_eq. intros j.
  rewrite move_tree_spec by done. split.
  - intros (a & Ha & Hj & ->). destruct (starts_with a from) eqn:Es.
    + apply Hleaf in Es; [|eauto]. subst a. rewrite move_name_at, lookup_insert_eq. congruence.
    + rewrite move_name_other by done. rewrite lookup_insert_ne by done.
      rewrite lookup_delete_ne; [done|]. intros <-.
      rewrite <- (app_nil_r from) in Es at 1. by rewrite starts_with_app in Es.
  - destruct (decide (q = to)) as [->|Hq].
    + rewrite lookup_insert_eq. intros [= <-]. exists from. split; [|by rewrite move_name_at].
      intros ->. destruct Hm as (_ & H & _). rewrite <- (app_nil_r to) in H at 1.
      by rewrite starts_with_app in H.
    + rewrite lookup_insert_ne by done. rewrite lookup_delete_Some. intros [Hne Hj].
      exists q. split; [done|]. split; [done|]. symmetry. apply move_name_other.
      destruct (starts_with q from) eqn:Es; [|done]. apply Hleaf in Es; [done|eauto].
Qed.

(** Moving a subtree away and back is the identity. *)
Lemma move_tree_back (m : gmap PathBuf N) (from to : PathBuf) :
  movable m from to → m !! to = None →
  move_tree (move_tree m from to) to from = m.
Proof.
  intros Hm Hto. pose proof Hm as (Hb & H1 & H2).
  assert (Hm' : movable (move_tree m from to) to from).
  { split_and!; [|done|done]. intros q [i Hi] Hq.
    apply move_tree_spec in Hi as (a & Ha & Hi & ->); [|done].
    destruct (starts_with a from) eqn:Es.
    - apply starts_with_prefix in Es as [l ->]. rewrite move_name_below in Hq.
      apply starts_with_prefix in Hq as [k Hk]. exfalso.
      assert (starts_with to from = true ∨ starts_with from to = true) as [|]; [|congruence..].
      rewrite !starts_with_prefix. destruct (prefix_weak_total from to (to ++ l)); [by exists k|by eexists|..]; auto.
    - rewrite move_name_other in Hq by done. congruence. }
  apply map_eq. intros q. apply option_eq. intros i.
  rewrite move_tree_spec by done. setoid_rewrite move_tree_spec; [|done]. split.
  - intros (b & Hb' & (a & Ha & Hi & ->) & ->). destruct (starts_with a from) eqn:Es.
    + apply starts_with_prefix in Es as [l ->]. by rewrite !move_name_below.
    + rewrite (move_name_other from to a) in * by done.
      destruct (starts_with a to) eqn:Et; [|by rewrite move_name_other].
      apply Hb in Et; [congruence|eauto].
  - intros Hi. exists (move_name from to q). destruct (starts_with q from) eqn:Es.
    + apply starts_with_prefix in Es as [l ->]. rewrite !move_name_below. split.
      { intros Heq. assert (starts_with from to = true); [|congruence].
        apply starts_with_prefix. by exists l. }
      split; [|done]. exists (from ++ l). rewrite move_name_below. split_and!; [|done|done].
      intros Heq. assert (starts_with to from = true); [|congruence].
      apply starts_with_prefix. by exists l.
    + rewrite move_name_other by done. split.
      { intros ->. rewrite <- (app_nil_r from) in Es at 1. by rewrite starts_with_app in Es. }
      split.
      * exists q. rewrite move_name_other by done. split_and!; [congruence|done|done].
      * symmetry. apply move_name_other. destruct (starts_with q to) eqn:Et; [|done].
        apply Hb in Et; [congruence|eauto].
Qed.

(** ** Effects on what names show *)

Lemma find_set_inode (fs : FS) (i : N) (n : Inode) (q : PathBuf) :
  find (set_inode fs i n) q =
  if bool_decide (names fs !! q = Some i) then Some (i, n) else find fs q.
Proof.
  unfold find, set_inode. simpl. destruct (names fs !! q) as [j|]; simpl; [|done].
  case_bool_decide as Hj.
  - simplify_eq. by rewrite lookup_insert_eq.
  - rewrite lookup_insert_ne; [done|congruence].
Qed.

Lemma find_add_file (fs : FS) (p : PathBuf) (n : Inode) (q : PathBuf) :
  wf fs →
  find (add_file fs p n) q = if bool_decide (q = p) then Some (next_ino fs, n) else find fs q.
Proof.
  intros Hwf. unfold find, add_file. simpl. case_bool_decide as Hq.
  - subst. rewrite lookup_insert_eq. simpl. by rewrite lookup_insert_eq.
  - rewrite lookup_insert_ne by done. destruct (names fs !! q) as [j|] eqn:E; [|done]. simpl.
    destruct (wf_names _ Hwf _ _ E) as [m Hm]. rewrite lookup_insert_ne; [done|].
    pose proof (wf_next _ Hwf j (ex_intro _ m Hm)). lia.
Qed.

(** A new file under a name in an existing directory, free or not a
    directory, keeps the tree well-formed. *)
Lemma wf_add_file (fs : FS) (p : PathBuf) (n : Inode) :
  wf fs → is_dir fs p = false → RootDir ∉ tail p →
  (∀ q, parent p = Some q → is_dir fs q = true) →
  wf (add_file fs p n).
Proof.
  intros Hwf Hn Hs Hp.
  assert (Hdir : ∀ q, is_dir fs q = true → is_dir (add_file fs p n) q = true).
  { intros q Hq. apply is_dir_view in Hq as (dn & Hv & Hk). apply is_dir_view. exists dn.
    split; [|done]. unfold view. rewrite find_add_file by done.
    rewrite bool_decide_eq_false_2; [done|]. intros ->.
    unfold is_dir in Hn. rewrite Hv in Hn. by apply bool_decide_eq_false in Hn. }
  split; simpl.
  - intros q i. rewrite !lookup_insert_Some. intros [[_ <-]|[_ Hq]].
    + rewrite lookup_insert_eq. eauto.
    + destruct (wf_names _ Hwf _ _ Hq) as [m Hm].
      pose proof (wf_next _ Hwf i (ex_intro _ m Hm)).
      rewrite lookup_insert_ne by lia. eauto.
  - intros i [m Hm]. apply lookup_insert_Some in Hm as [[<- _]|[_ Hm]]; [lia|].
    pose proof (wf_next _ Hwf i (ex_intro _ m Hm)). lia.
  - intros q [i Hq]. apply lookup_insert_Some in Hq as [[<- _]|[_ Hq]]; [done|].
    apply (wf_shape _ Hwf). eauto.
  - intros q r [i Hq] Hr. apply Hdir. apply lookup_insert_Some in Hq as [[<- _]|[_ Hq]]; [by apply Hp|].
    apply (wf_parent _ Hwf q r); eauto.
Qed.

Lemma update_find (fs : FS) (p : PathBuf) (f : Inode → Inode) (i : N) (n : Inode) :
  find fs p = Some (i, n) → update fs p f = inl (set_inode fs i (f n)).
Proof. unfold update. by intros ->. Qed.

(** [p] is the only name of inode [i]. *)
Definition sole_name (fs : FS) (p : PathBuf) (i : N) : Prop :=
  ∀ q, names fs !! q = Some i → q = p.

(** [fs'] differs from [fs] at most in what [p] shows. *)
Definition only_at (p : PathBuf) (fs fs' : FS) : Prop :=
  ∀ q, q ≠ p → find fs' q = find fs q.

Lemma only_at_trans (p : PathBuf) (a b c : FS) : only_at p a b → only_at p b c → only_at p a c.
Proof. intros H1 H2 q Hq. by rewrite H2, H1. Qed.

Lemma wf_set_inode (fs : FS) (p : PathBuf) (i : N) (n n' : Inode) :
  wf fs → find fs p = Some (i, n) → in_kind n' = in_kind n → wf (set_inode fs i n').
Proof.
  intros Hwf Hf Hk. apply find_Some in Hf as [Hnm Hi]. split; simpl.
  - intros q j Hj. destruct (decide (i = j)) as [->|]; [rewrite lookup_insert_eq; eauto|].
    rewrite lookup_insert_ne by done. by eapply wf_names.
  - intros j Hj. destruct (decide (i = j)) as [->|]; [by apply (wf_next _ Hwf); eauto|].
    rewrite lookup_insert_ne in Hj by done. by apply (wf_next _ Hwf).
  - apply (wf_shape _ Hwf).
  - intros q r Hq Hr. pose proof (wf_parent _ Hwf q r Hq Hr) as Hd.
    apply is_dir_view in Hd as (dn & Hv & Hdn). apply view_find in Hv as [j Hj].
    apply is_dir_view. unfold view. rewrite find_set_inode. case_bool_decide as Hc.
    + exists n'. split; [done|]. apply find_Some in Hj as [Hj1 Hj2]. congruence.
    + exists dn. by rewrite Hj.
Qed.

Lemma set_inode_sole (fs : FS) (p : PathBuf) (i : N) (n n' : Inode) :
  find fs p = Some (i, n) → sole_name fs p i →
  find (set_inode fs i n') p = Some (i, n') ∧ sole_name (set_inode fs i n') p i
  ∧ only_at p fs (set_inode fs i n').
Proof.
  intros Hf Hs. apply find_Some in Hf as [Hn _]. split_and!.
  - rewrite find_set_inode. by rewrite bool_decide_eq_true_2.
  - done.
  - intros q Hq. rewrite find_set_inode, bool_decide_eq_false_2; [done|]. intros H.
    by apply Hq, Hs.
Qed.

(** From [fs0] to [fs] only [p] may have changed: it is the only name of
    inode [i], which is now [n]. *)
Definition holds_at (fs0 : FS) (p : PathBuf) (i : N) (n : Inode) (fs : FS) : Prop :=
  find fs p = Some (i, n) ∧ sole_name fs p i ∧ only_at p fs0 fs ∧ (wf fs0 → wf fs).

Lemma holds_at_refl (fs : FS) (p : PathBuf) (i : N) (n : Inode) :
  find fs p = Some (i, n) → sole_name fs p i → holds_at fs p i n fs.
Proof. intros Hf Hs. by split_and!. Qed.

Lemma holds_at_view (fs0 fs : FS) (p : PathBuf) (i : N) (n : Inode) :
  holds_at fs0 p i n fs → view fs p = Some n.
Proof. intros (Hf & _). unfold view. by rewrite Hf. Qed.

Lemma holds_at_update (fs0 fs : FS) (p : PathBuf) (i : N) (n : Inode) (g : Inode → Inode) :
  holds_at fs0 p i n fs → in_kind (g n) = in_kind n →
  ∃ fs', update fs p g = inl fs' ∧ holds_at fs0 p i (g n) fs'.
Proof.
  intros (Hf & Hs & Ho & Hw) Hk. exists (set_inode fs i (g n)).
  split; [by apply update_find|]. destruct (set_inode_sole fs p i n (g n) Hf Hs) as (? & ? & ?).
  split_and!; [done|done|by eapply only_at_trans|]. intros Hwf. eapply wf_set_inode; eauto.
Qed.

(** ** Renames *)

Lemma rename_inv (fs fs1 : FS) (a b : PathBuf) :
  wf fs → a ≠ [] → b ≠ [] → names fs !! b = None → rename fs a b = inl fs1 →
  movable (names fs) a b ∧ fs1 = set_names fs (move_tree (names fs) a b).
Proof.
  intros Hwf Ha Hb Hnb. unfold rename. destruct (find fs a) as [[i n]|] eqn:Ef; [|done].
  destruct (check_parent fs b) eqn:Ecp; [done|].
  rewrite (proj2 (find_None fs b Hwf) Hnb).
  destruct (_ && _) eqn:Einv; [done|]. intros [= <-]. split; [|done].
  assert (Hnd : is_dir fs b = false).
  { unfold is_dir, view. by rewrite (proj2 (find_None fs b Hwf) Hnb). }
  pose proof Ef as [Hna Hia]%find_Some.
  split_and!.
  - intros q Hq Hs. by eapply nothing_below.
  - destruct (starts_with b a) eqn:Es; [|done]. exfalso.
    assert (b ≠ a) as Hba by congruence.
    destruct (decide (in_kind n = FileKind.Directory)) as [Hk|Hk].
    { rewrite (bool_decide_eq_true_2 _ Hk), (bool_decide_eq_false_2 _ Hba) in Einv.
      simpl in Einv. discriminate Einv. }
    clear Einv. assert (is_dir fs a = false) as Had.
    { unfold is_dir, view. rewrite Ef. simpl. by apply bool_decide_eq_false. }
    unfold check_parent in Ecp. destruct (parent b) as [q|] eqn:Ep; [|done].
    destruct (view fs q) as [qn|] eqn:Eq; [|done]. case_bool_decide as Hqd; [|done].
    destruct (parent_Some _ _ Ep) as [c ->].
    apply starts_with_prefix in Es as [l Hl].
    destruct l as [|x l _] using rev_ind; [rewrite app_nil_r in Hl; congruence|].
    rewrite app_assoc in Hl. apply app_inj_tail in Hl as [-> _].
    assert (a ++ l = a) as Heq.
    { eapply nothing_below; [done|done|done|by eapply view_names|apply starts_with_app]. }
    rewrite Heq in Eq. unfold is_dir in Had. rewrite Eq in Had.
    by apply bool_decide_eq_false in Had.
  - destruct (starts_with a b) eqn:Es; [|done]. exfalso.
    assert (a = b) as ->; [|congruence]. eapply nothing_below; eauto.
Qed.

Lemma move_tree_other (m : gmap PathBuf N) (a b q : PathBuf) :
  movable m a b → starts_with q a = false → starts_with q b = false →
  move_tree m a b !! q = m !! q.
Proof.
  intros Hm Ha Hb. apply option_eq. intros i. rewrite move_tree_spec by done. split.
  - intros (x & Hx & Hi & ->). destruct (starts_with x a) eqn:Es.
    + apply starts_with_prefix in Es as [l ->]. rewrite move_name_below in Hb.
      by rewrite starts_with_app in Hb.
    + by rewrite move_name_other.
  - intros Hi. exists q. rewrite move_name_other by done. split_and!; [|done|done].
    intros ->. rewrite <- (app_nil_r b) in Hb at 1. by rewrite starts_with_app in Hb.
Qed.

Lemma starts_with_self (p : PathBuf) : starts_with p p = true.
Proof. rewrite <- (app_nil_r p) at 1. apply starts_with_app. Qed.

(** The moved name, and only names below it, leave [a]. *)
Lemma move_tree_source (m : gmap PathBuf N) (a b : PathBuf) :
  movable m a b → move_tree m a b !! a = None.
Proof.
  intros Hm. apply eq_None_not_Some. intros [i Hi].
  apply move_tree_spec in Hi as (x & Hx & Hi & Heq); [|done]. destruct Hm as (_ & _ & Hab).
  destruct (starts_with x a) eqn:Es.
  - apply starts_with_prefix in Es as [l ->]. rewrite move_name_below in Heq.
    by rewrite Heq, starts_with_app in Hab.
  - rewrite move_name_other in Heq by done. subst. by rewrite starts_with_self in Es.
Qed.

Lemma move_tree_target (m : gmap PathBuf N) (a b : PathBuf) (i : N) :
  movable m a b → m !! a = Some i → move_tree m a b !! b = Some i.
Proof.
  intros Hm Hi. apply move_tree_spec; [done|]. exists a. rewrite move_name_at.
  split_and!; [|done|done]. intros ->. destruct Hm as (_ & H & _).
  by rewrite starts_with_self in H.
Qed.

Lemma parent_not_below (p q : PathBuf) : parent p = Some q → starts_with q p = false.
Proof.
  intros Hp. destruct (parent_Some _ _ Hp) as [c ->].
  destruct (starts_with q _) eqn:E; [|done]. apply starts_with_prefix in E as [l Hl].
  apply (f_equal length) in Hl. rewrite !length_app in Hl. simpl in Hl. lia.
Qed.

Lemma parent_below (p q b : PathBuf) :
  parent p = Some q → starts_with p b = false → starts_with q b = false.
Proof.
  intros Hp Hb. destruct (parent_Some _ _ Hp) as [c ->].
  destruct (starts_with q b) eqn:E; [|done]. apply starts_with_prefix in E as [l ->].
  by rewrite <- app_assoc, starts_with_app in Hb.
Qed.

(** Renaming back is accepted and gives the very same file system. *)
Lemma rename_back (fs : FS) (a b par : PathBuf) (i : N) :
  wf fs → parent a = Some par → movable (names fs) a b → names fs !! a = Some i →
  names fs !! b = None →
  let fs1 := set_names fs (move_tree (names fs) a b) in
  find fs1 a = None ∧ is_Some (find fs1 b) ∧ rename fs1 b a = inl fs.
Proof.
  intros Hwf Hp Hm Hi Hb fs1. pose proof Hm as (_ & Hba & Hab).
  destruct (wf_names _ Hwf _ _ Hi) as [n Hn].
  assert (Hfa : find fs1 a = None) by (unfold find, fs1; simpl; by rewrite move_tree_source).
  assert (Hfb : find fs1 b = Some (i, n)).
  { apply find_Some. split; [by apply move_tree_target|done]. }
  split_and!; [done|rewrite Hfb; eauto|]. unfold rename. rewrite Hfb, Hfa.
  assert (check_parent fs1 a = None) as ->.
  { unfold check_parent. rewrite Hp.
    pose proof (wf_parent _ Hwf a par ltac:(eauto) Hp) as (dn & Hd & Hk)%is_dir_view.
    assert (view fs1 par = view fs par) as ->.
    { unfold view, find, fs1. simpl. rewrite move_tree_other; [done|done| |].
      - by apply parent_not_below.
      - by eapply parent_below. }
    by rewrite Hd, bool_decide_eq_true_2. }
  rewrite Hab, andb_false_r. cbn [andb]. unfold fs1. cbn [names set_names].
  rewrite move_tree_back by done. by destruct fs.
Qed.

(** Renames keep the tree well-formed. *)

Lemma view_moved (fs : FS) (a b l : PathBuf) :
  movable (names fs) a b →
  find (set_names fs (move_tree (names fs) a b)) (b ++ l) = find fs (a ++ l).
Proof.
  intros Hm. unfold find. cbn [names inodes set_names]. f_equal. apply option_eq. intros i.
  rewrite move_tree_spec by done. pose proof Hm as (Hb & H1 & H2). split.
  - intros (x & Hx & Hi & Heq). destruct (starts_with x a) eqn:Es.
    + apply starts_with_prefix in Es as [k ->]. rewrite move_name_below in Heq.
      by simplify_list_eq.
    + rewrite move_name_other in Heq by done. subst x. exfalso. apply Hx, Hb; [eauto|].
      apply starts_with_app.
  - intros Hi. exists (a ++ l). rewrite move_name_below. split_and!; [|done|done].
    intros Heq. by rewrite <- Heq, starts_with_app in H1.
Qed.

Lemma view_unmoved (fs : FS) (a b q : PathBuf) :
  movable (names fs) a b → starts_with q a = false → starts_with q b = false →
  find (set_names fs (move_tree (names fs) a b)) q = find fs q.
Proof. intros Hm Ha Hb. unfold find. cbn [names inodes set_names]. by rewrite move_tree_other. Qed.

Lemma is_dir_find (fs fs' : FS) (p q : PathBuf) :
  find fs p = find fs' q → is_dir fs p = is_dir fs' q.
Proof. intros H. unfold is_dir, view. by rewrite H. Qed.

Lemma check_parent_None (fs : FS) (p q : PathBuf) :
  check_parent fs p = None → parent p = Some q → is_dir fs q = true.
Proof.
  unfold check_parent, is_dir. intros H Hq. rewrite Hq in H.
  destruct (view fs q); [|done]. by case_bool_decide.
Qed.

Lemma wf_rename (fs : FS) (a b : PathBuf) :
  wf fs → a ≠ [] → b ≠ [] → RootDir ∉ tail b → names fs !! b = None →
  check_parent fs b = None → movable (names fs) a b →
  wf (set_names fs (move_tree (names fs) a b)).
Proof.
  intros Hwf Ha Hbn Hs Hb Hcp Hm. pose proof Hm as (Hto & Hba & Hab).
  assert (Hcase : ∀ q, is_Some (move_tree (names fs) a b !! q) →
    (∃ l, q = b ++ l ∧ is_Some (names fs !! (a ++ l)))
    ∨ (is_Some (names fs !! q) ∧ starts_with q a = false ∧ starts_with q b = false)).
  { intros q [i Hi]. apply move_tree_spec in Hi as (x & Hx & Hi & ->); [|done].
    destruct (starts_with x a) eqn:Es.
    - apply starts_with_prefix in Es as [l ->]. rewrite move_name_below. left. eauto.
    - rewrite move_name_other by done. right. split_and!; [eauto|done|].
      destruct (starts_with x b) eqn:Et; [|done]. apply Hto in Et; [done|eauto]. }
  split.
  - intros q i Hq. simpl in *. apply move_tree_spec in Hq as (x & _ & Hi & _); [|done].
    by eapply wf_names.
  - apply (wf_next _ Hwf).
  - intros q Hq. destruct (Hcase q Hq) as [(l & -> & Hl)|[Hl _]]; [|by apply (wf_shape _ Hwf)].
    pose proof (wf_shape _ Hwf _ Hl) as Hsl. destruct a as [|c a]; [done|].
    destruct b as [|d b]; [done|]. simpl in *. set_solver.
  - intros q r Hq Hr. destruct (Hcase q Hq) as [(l & -> & Hl)|(Hl & H1 & H2)].
    + destruct l as [|c l _] using rev_ind.
      * rewrite app_nil_r in Hr. rewrite (is_dir_find _ fs r r).
        { by eapply check_parent_None. }
        apply view_unmoved; [done| |by apply parent_not_below].
        by eapply parent_below.
      * pose proof (wf_shape _ Hwf _ Hl) as Hsl. rewrite app_assoc in Hr, Hl.
        assert (c ≠ RootDir) as Hc.
        { destruct a as [|x a]; [done|]. simpl in Hsl. set_solver. }
        rewrite parent_app in Hr by done. injection Hr as <-.
        rewrite (is_dir_find _ fs (b ++ l) (a ++ l)) by (by apply view_moved).
        apply (wf_parent _ Hwf ((a ++ l) ++ [c])); [done|by apply parent_app].
    + rewrite (is_dir_find _ fs r r); [by eapply (wf_parent _ Hwf)|].
      apply view_unmoved; [done|by eapply parent_below|by eapply parent_below].
Qed.

(** ** Content *)

Section Restore.
Context (read_blob : BlobHash → bytes + Msg) (router : PrivilegedOpRouter).
Context (may_chown : FS → PathBuf → N → N → bool) (tmp_name : string) (os : Os).

(** Where the temporary file of a restore goes, and what makes it usable:
    the target sits in an existing directory, is not one itself, and the
    temporary name is free. *)
Definition restorable (fs : FS) (par : PathBuf) (name : string) : Prop :=
  wf fs ∧ par ≠ [] ∧ RootDir ∉ tail par ∧ is_dir fs par = true
  ∧ is_dir fs (par ++ [Normal name]) = false
  ∧ names fs !! (par ++ [Normal tmp_name]) = None ∧ name ≠ tmp_name.

Definition restored_file (fs : FS) (data : bytes) : Inode :=
  mkIno FileKind.Regular (masked_mode fs 438) (euid fs) (egid fs) (clock fs) ∅ 0 data "".

Lemma exists_of_dir (fs : FS) (p : PathBuf) : is_dir fs p = true → fs_exists fs p = true.
Proof. intros (n & Hn & _)%is_dir_view. unfold fs_exists. by rewrite Hn. Qed.

Lemma starts_with_sibling (par : PathBuf) (a b : string) :
  a ≠ b → starts_with (par ++ [Normal a]) (par ++ [Normal b]) = false.
Proof.
  intros Hab. destruct (starts_with _ _) eqn:E; [|done].
  apply starts_with_prefix in E as [k Hk]. simplify_list_eq.
Qed.

(** The tree after the temporary file was written. *)
Definition staged (fs : FS) (par : PathBuf) (data : bytes) : FS :=
  set_inode (add_file fs (par ++ [Normal tmp_name])
               (new_inode fs FileKind.Regular (masked_mode fs 438) ""))
    (next_ino fs) (restored_file fs data).

Lemma staged_find (fs : FS) (par : PathBuf) (data : bytes) (q : PathBuf) :
  wf fs →
  find (staged fs par data) q =
  if bool_decide (q = par ++ [Normal tmp_name])
  then Some (next_ino fs, restored_file fs data) else find fs q.
Proof.
  intros Hwf. unfold staged. rewrite find_set_inode, find_add_file by done.
  simpl. case_bool_decide as H1; case_bool_decide as H2; try done.
  - exfalso. rewrite lookup_insert_ne in H1 by done.
    destruct (wf_names _ Hwf _ _ H1) as [m Hm].
    pose proof (wf_next _ Hwf _ (ex_intro _ m Hm)). lia.
  - exfalso. subst. by rewrite lookup_insert_eq in H1.
Qed.

Lemma stage_content (fs : FS) (par : PathBuf) (name : string) (data : bytes) :
  restorable fs par name →
  match create fs (par ++ [Normal tmp_name]) with
  | inl fs' => write_all fs' (par ++ [Normal tmp_name]) data
  | inr e => inr e
  end = inl (staged fs par data).
Proof.
  intros (Hwf & Hpar & _ & Hd & _ & Htmp & _). unfold create, check_parent.
  rewrite parent_snoc. apply is_dir_view in Hd as (n & -> & ->).
  rewrite bool_decide_eq_true_2 by done.
  rewrite (proj2 (find_None fs _ Hwf) Htmp). unfold write_all.
  rewrite find_add_file by done. by rewrite bool_decide_eq_true_2.
Qed.

Lemma staged_movable (fs : FS) (par : PathBuf) (name : string) (data : bytes) :
  restorable fs par name →
  movable (names (staged fs par data)) (par ++ [Normal tmp_name]) (par ++ [Normal name])
  ∧ (∀ q, is_Some (names (staged fs par data) !! q) →
       starts_with q (par ++ [Normal tmp_name]) = true → q = par ++ [Normal tmp_name]).
Proof.
  intros (Hwf & Hpar & _ & Hd & Hnd & Htmp & Hne). simpl. split.
  - split_and!; [|by apply starts_with_sibling|by apply starts_with_sibling].
    intros q Hq Hs. destruct (decide (q = par ++ [Normal tmp_name])) as [->|Hqt].
    { rewrite starts_with_sibling in Hs by done. done. }
    rewrite lookup_insert_ne in Hq by done.
    eapply nothing_below; [done| |done|done|done]. by destruct par.
  - intros q Hq Hs. destruct (decide (q = par ++ [Normal tmp_name])) as [->|Hqt]; [done|].
    rewrite lookup_insert_ne in Hq by done.
    eapply nothing_below; [done| | |done|done]; [by destruct par|].
    unfold is_dir, view. by rewrite (proj2 (find_None fs _ Hwf) Htmp).
Qed.

(** Renaming the temporary file over the target leaves the tree as if the
    target had just been created with the restored content. *)
Lemma staged_rename (fs : FS) (par : PathBuf) (name : string) (data : bytes) :
  restorable fs par name →
  rename (staged fs par data) (par ++ [Normal tmp_name]) (par ++ [Normal name]) =
  inl (add_file fs (par ++ [Normal name]) (restored_file fs data)).
Proof.
  intros Hr. pose proof Hr as (Hwf & Hpar & _ & Hd & Hnd & Htmp & Hne).
  set (p := par ++ [Normal name]) in *. set (tmp := par ++ [Normal tmp_name]) in *.
  assert (Hpt : p ≠ tmp) by (intros Heq; unfold p, tmp in Heq; simplify_list_eq).
  destruct (staged_movable fs par name data Hr) as [Hmov Hleaf].
  pose proof (move_tree_leaf _ tmp p (next_ino fs) Hmov (lookup_insert_eq _ _ _) Hleaf) as Hmt.
  transitivity (inl (set_names (staged fs par data) (move_tree (names (staged fs par data)) tmp p))
    : Res FS).
  - unfold rename. rewrite staged_find, bool_decide_eq_true_2 by done.
    unfold check_parent, p at 1. rewrite parent_snoc.
    assert (view (staged fs par data) par = view fs par) as ->.
    { unfold view. rewrite staged_find, bool_decide_eq_false_2; [done| |done].
      intros Heq. apply (f_equal length) in Heq. rewrite length_app in Heq. simpl in Heq. lia. }
    apply is_dir_view in Hd as (dn & -> & ->). rewrite bool_decide_eq_true_2 by done. simpl.
    rewrite staged_find by done. fold tmp. rewrite (bool_decide_eq_false_2 (p = tmp)) by done.
    destruct (find fs p) as [[j n]|] eqn:Ef; [|done].
    assert (bool_decide (in_kind n = FileKind.Directory) = false) as ->.
    { unfold is_dir, view in Hnd. by rewrite Ef in Hnd. }
    rewrite bool_decide_eq_false_2; [done|]. intros <-.
    apply find_Some in Ef as [_ Hj]. pose proof (wf_next _ Hwf _ (ex_intro _ _ Hj)). lia.
  - rewrite Hmt. unfold staged, set_names, add_file. simpl.
    rewrite delete_insert_id by done. by rewrite insert_insert_eq.
Qed.

Lemma add_file_sole (fs : FS) (p : PathBuf) (n : Inode) :
  wf fs → sole_name (add_file fs p n) p (next_ino fs).
Proof.
  intros Hwf q Hq. simpl in Hq. apply lookup_insert_Some in Hq as [[<- _]|[_ Hi]]; [done|].
  destruct (wf_names _ Hwf _ _ Hi) as [m Hm]. pose proof (wf_next _ Hwf _ (ex_intro _ m Hm)). lia.
Qed.

Lemma restore_content_ok (fs : FS) (par : PathBuf) (name : string) (blob : BlobHash)
    (data : bytes) :
  restorable fs par name → read_blob blob = inl data →
  ∃ fs', restore_content_inner read_blob tmp_name (par ++ [Normal name]) blob fs = ok fs'
    ∧ holds_at fs (par ++ [Normal name]) (next_ino fs) (restored_file fs data) fs'.
Proof.
  intros Hr Hblob. pose proof Hr as (Hwf & Hpar & Hroot & Hd & Hnd & _).
  set (p := par ++ [Normal name]) in *. exists (add_file fs p (restored_file fs data)).
  unfold holds_at. split_and!.
  - unfold restore_content_inner. rewrite Hblob. unfold p at 1. rewrite parent_snoc.
    unfold ensure_parent. rewrite exists_of_dir by done. cbn zeta.
    rewrite (stage_content fs par name data Hr). unfold p. by rewrite staged_rename.
  - rewrite find_add_file by done. by rewrite bool_decide_eq_true_2.
  - by apply add_file_sole.
  - intros q Hq. rewrite find_add_file by done. by rewrite bool_decide_eq_false_2.
  - intros _. apply wf_add_file; [done|done| |].
    + unfold p. destruct par; [done|]. simpl in *. apply not_elem_of_app. split; [done|].
      intros [=]%list_elem_of_singleton.
    + intros q. unfold p. rewrite parent_snoc. by intros [= <-].
Qed.

(** ** Metadata *)

(** The names a restore writes: representable and not the system's own. *)
Definition writable_name (k : string) : bool := no_nul k && negb (should_skip_restore os k).

Lemma converge_xattrs_at (current target : gmap string bytes) (k : string) :
  converge_xattrs os current target !! k =
  if writable_name k then target !! k else current !! k.
Proof.
  unfold converge_xattrs, writable_name.
  rewrite (foldl_btree_at_key _ (λ m : gmap string bytes, m !! k) k
    (λ _ x, if bool_decide (is_Some (target !! k)) || should_skip_restore os k then x
            else if no_nul k then None else x)).
  - rewrite (foldl_btree_at_key _ (λ m : gmap string bytes, m !! k) k
      (λ v x, if should_skip_restore os k then x else if bool_decide (current !! k = Some v) then x
              else if no_nul k then Some v else x)).
    + destruct (target !! k) as [v|] eqn:Et;
        [rewrite (bool_decide_eq_true_2 (is_Some (Some v))) by eauto
        |rewrite (bool_decide_eq_false_2 (is_Some None)) by (by intros [? ?])];
        destruct (current !! k) as [u|]; destruct (no_nul k), (should_skip_restore os k);
        simpl; repeat case_bool_decide; congruence.
    + intros acc j v Hj. unfold xattr_set. simpl. repeat case_match; try done.
      by rewrite lookup_insert_ne.
    + intros acc v. unfold xattr_set. simpl. repeat (case_match; [done|]).
      case_match; [|done]. apply lookup_insert_eq.
  - intros acc j v Hj. unfold xattr_drop. simpl. repeat case_match; try done.
    by rewrite lookup_delete_ne.
  - intros acc v. unfold xattr_drop. simpl. case_match; [done|]. case_match; [|done].
    apply lookup_delete_eq.
Qed.

Definition names_ok (x : gmap string bytes) : Prop :=
  ∀ k, is_Some (x !! k) → writable_name k = true.

Lemma converge_xattrs_eq (current target : gmap string bytes) :
  names_ok current → names_ok target → converge_xattrs os current target = target.
Proof.
  intros Hc Ht. apply map_eq. intros k. rewrite converge_xattrs_at.
  destruct (writable_name k) eqn:Hk; [done|].
  assert (∀ x, names_ok x → x !! k = None) as Hx.
  { intros x Hok. apply eq_None_not_Some. intros H. apply Hok in H. congruence. }
  by rewrite (Hx current), (Hx target).
Qed.

Lemma time_spec_id (t : Z) :
  (- 2 ^ 63 * 1000000000 ≤ t < 2 ^ 63 * 1000000000)%Z → time_spec t = t.
Proof.
  intros Ht. unfold time_spec. rewrite bool_decide_eq_true_2.
  - pose proof (Z.div_mod t 1000000000). lia.
  - pose proof (Z.div_mod t 1000000000). pose proof (Z.mod_pos_bound t 1000000000). lia.
Qed.

(** The inode a metadata restore leaves. *)
Definition with_meta (n : Inode) (target : FileMetadata) : Inode :=
  mkIno (in_kind n) (perm_bits (m_mode target)) (m_uid target) (m_gid target)
    (if bool_decide (m_mtime_unix_nanos target = 0%Z) then in_mtime n
     else time_spec (m_mtime_unix_nanos target))
    (converge_xattrs os (in_xattrs n) (m_xattrs target))
    (if has_chflags os then m_flags target else in_flags n) (in_data n) (in_target n).

(** Owner, permission bits (set-id bits included), extended attributes, flags
    and time are all those of the target; nothing else changes. *)
Lemma restore_metadata_ok (fs : FS) (p : PathBuf) (i : N) (n : Inode) (target : FileMetadata) :
  find fs p = Some (i, n) → sole_name fs p i →
  may_chown fs p (m_uid target) (m_gid target) = true →
  ∃ fs', apply_restore_metadata router may_chown os p target fs = (ExecutionOutcome.Applied, fs')
    ∧ holds_at fs p i (with_meta n target) fs'.
Proof.
  intros Hf Hs Hmay. unfold apply_restore_metadata, restore_metadata_inner.
  pose proof (holds_at_refl fs p i n Hf Hs) as H0.
  assert (fs_exists fs p = true) as -> by (unfold fs_exists; by rewrite (holds_at_view _ _ _ _ _ H0)).
  rewrite Hmay. simpl negb. cbn iota. unfold chown.
  edestruct holds_at_update as (fs1 & -> & H1); [exact H0|done|]. cbn beta in H1.
  unfold restore_after_chown, chmod_to, and_then, set_permissions.
  edestruct holds_at_update as (fs2 & -> & H2); [exact H1|done|]. cbn in H2.
  unfold restore_user_xattrs. rewrite (holds_at_view _ _ _ _ _ H2). unfold set_xattrs.
  edestruct holds_at_update as (fs3 & -> & H3); [exact H2|done|]. cbn in H3.
  assert (∃ fs4, (if has_chflags os then (restore_flags_value os p (m_flags target) fs3).2 else fs3)
    = fs4 ∧ holds_at fs p i (mkIno (in_kind n) (perm_bits (m_mode target)) (m_uid target)
        (m_gid target) (in_mtime n) (converge_xattrs os (in_xattrs n) (m_xattrs target))
        (if has_chflags os then m_flags target else in_flags n) (in_data n) (in_target n)) fs4)
    as (fs4 & -> & H4).
  { destruct (has_chflags os) eqn:Eos; [|by exists fs3].
    unfold restore_flags_value. rewrite Eos, (holds_at_view _ _ _ _ _ H3). simpl.
    case_bool_decide as Hfl; [exists fs3; by rewrite Hfl in H3|].
    unfold and_then, chflags.
    edestruct holds_at_update as (fs4 & -> & H4); [exact H3|done|]. by exists fs4. }
  unfold restore_mtime_only, with_meta. case_bool_decide as Hm; [by exists fs4|].
  unfold and_then, set_mtime.
  edestruct holds_at_update as (fs5 & -> & H5); [exact H4|done|]. by exists fs5.
Qed.

End Restore.

End FileFacts.
