(* ===== verification/Undo.v ===== *)
(** * Undo, end to end

    The planner, the orchestrator and the file executor composed on the
    in-memory file system: restores of captured files, creations and
    directories here; edits, removals and moves in files of their own. *)

From S2P Require Import Prelude Paths Base Events Inverse Refuse Cohort.
From S2P Require Import Probe Classify FlagPairs Network Plan Executor Orchestrator OrchestratorFacts.
From S2P Require Import PlanFacts Fs FileExec FileFacts.

Module Undo.
Import Classify Plan Executor Orchestrator PlanFacts Fs FileExec FileFacts.

(** What the capture tier records of a regular file. *)
Definition captured_meta (n : Inode) : FileMetadata :=
  mkMeta (N.lor (kind_bits (in_kind n)) (in_mode n)) (in_uid n) (in_gid n)
    (N.of_nat (length (in_data n))) (in_mtime n) (in_xattrs n) None (in_flags n).

(** ** Plans and reports *)

Lemma nodes_of_ops (nodes : list PlanNode) (l : list (InverseOp * option Conflict)) :
  (λ n, (n_op n, n_conflict n)) <$> nodes = l →
  Forall2 (λ n x, n_op n = x.1 ∧ n_conflict n = x.2) nodes l.
Proof. intros <-. induction nodes; simpl; constructor; auto. Qed.

Definition all_applied (recs : list ExecutionRecord) : bool :=
  forallb (λ r, bool_decide (r_outcome_kind r = OutcomeKind.Applied)) recs.

Lemma all_applied_fully (plan : UndoPlan) (recs : list ExecutionRecord) :
  all_applied recs = true →
  fully_applied (mkReport (from_plan plan) recs false ConflictPolicy.Abort) = true.
Proof.
  unfold all_applied, fully_applied. cbn [records]. induction recs as [|r recs IH]; [done|].
  simpl. intros [->%bool_decide_eq_true Hr]%andb_true_iff. by apply IH.
Qed.

Section Undo.
Context (syn : Network.NetSynth) (ord : HashOrder InodeRef (gset PathBuf)).
Context (hash : bytes → BlobHash) (store : PlannerStore).
Context (read_blob : BlobHash → bytes + Msg) (router : PrivilegedOpRouter).
Context (may_chown : FS → PathBuf → N → N → bool) (tmp_name : string) (os : Os).

Let rt : Runtime FS := file_runtime read_blob router may_chown tmp_name os hash.

(** Plan against the live file system, then run without forcing. *)
Definition undo (command : CommandRecord) (events : list CaptureEvent) (fs : FS)
    : ExecutionReport * FS :=
  run rt None (plan syn ord command events (live_probe hash fs) store) false
    ConflictPolicy.Abort fs.

(** A regular file the capture records in full. *)
Definition capturable (n : Inode) : Prop :=
  in_kind n = FileKind.Regular ∧ (in_mode n < 4096)%N ∧ in_mtime n ≠ 0%Z
  ∧ (- 2 ^ 63 * 1000000000 ≤ in_mtime n < 2 ^ 63 * 1000000000)%Z
  ∧ names_ok os (in_xattrs n) ∧ in_target n = "" ∧ (has_chflags os = false → in_flags n = 0%N).

Lemma perm_bits_captured (m : N) : (m < 4096)%N → perm_bits (N.lor 0x8000 m) = m.
Proof.
  intros Hm. unfold perm_bits. rewrite N.land_lor_distr_l.
  change 4095%N with (N.ones 12). rewrite (N.land_ones m).
  change (N.land 0x8000 (N.ones 12)) with 0%N. rewrite N.lor_0_l. by apply N.mod_small.
Qed.

(** Restored content with the captured metadata is the file itself. *)
Lemma with_meta_captured (fs : FS) (n : Inode) :
  capturable n → with_meta os (restored_file fs (in_data n)) (captured_meta n) = n.
Proof.
  intros (Hk & Hm & Ht & Hts & Hx & Htg & Hfl). destruct n as [k m u g t x fl dt tg]. simpl in *. subst.
  unfold with_meta, restored_file, captured_meta. simpl.
  rewrite perm_bits_captured by done. rewrite bool_decide_eq_false_2 by done.
  rewrite time_spec_id by done.
  rewrite converge_xattrs_eq by (done || (intros k [v Hv]; by rewrite lookup_empty in Hv)).
  destruct (has_chflags os); [done|]. by rewrite Hfl.
Qed.

(** ** Running single operations *)

(** Only a hard plan-time conflict stops a step before its precondition. *)
Definition soft (c : option Conflict) : Prop := ∀ d, c ≠ Some (Conflict.Hard d).

Lemma soft_or_hard (c : option Conflict) : soft c ∨ ∃ d, c = Some (Conflict.Hard d).
Proof. destruct c as [[]|]; eauto; by left. Qed.

Lemma soft_None : soft None.
Proof. by intros d. Qed.

(** A file operation whose precondition holds, under the abort policy. *)
Lemma execute_one_file (i : nat) (op : InverseOp) (c : N) (cf : option Conflict) (fs : FS) :
  tier op = InverseTier.Files → soft cf → precondition_conflict op (live_probe hash fs) = None →
  execute_one rt None i (mkNode op c cf) false ConflictPolicy.Abort fs =
  let '(o, fs') := file_execute read_blob router may_chown tmp_name os op false
    ConflictPolicy.Abort fs in
  (mkRecord i op InverseTier.Files (from_outcome o) (outcome_detail o), fs').
Proof.
  intros Ht Hs Hp. unfold execute_one. cbn [n_op filtered_out].
  unfold attempt, act_on_conflict, effective_conflict. cbn [n_op n_conflict].
  change (probe rt fs) with (live_probe hash fs). rewrite Hp.
  assert (match cf with Some (Conflict.Hard d) => Some (Conflict.Hard d) | _ => None end = None)
    as -> by (destruct cf as [[]|]; try done; by destruct (Hs detail)).
  destruct op; try discriminate Ht; reflexivity.
Qed.

Lemma run_from_soft_step (i : nat) (op : InverseOp) (c : N) (cf : option Conflict)
    (nodes : list PlanNode) (fs fs' : FS) :
  tier op = InverseTier.Files → soft cf → precondition_conflict op (live_probe hash fs) = None →
  file_execute read_blob router may_chown tmp_name os op false ConflictPolicy.Abort fs
    = (ExecutionOutcome.Applied, fs') →
  run_from rt None i (mkNode op c cf :: nodes) false ConflictPolicy.Abort fs =
  let '(recs, fs'') := run_from rt None (S i) nodes false ConflictPolicy.Abort fs' in
  (mkRecord i op InverseTier.Files OutcomeKind.Applied None :: recs, fs'').
Proof.
  intros Ht Hs Hp He. cbn [run_from]. rewrite execute_one_file by done. by rewrite He.
Qed.

Lemma run_from_step (i : nat) (op : InverseOp) (c : N) (nodes : list PlanNode) (fs fs' : FS) :
  tier op = InverseTier.Files → precondition_conflict op (live_probe hash fs) = None →
  file_execute read_blob router may_chown tmp_name os op false ConflictPolicy.Abort fs
    = (ExecutionOutcome.Applied, fs') →
  run_from rt None i (mkNode op c None :: nodes) false ConflictPolicy.Abort fs =
  let '(recs, fs'') := run_from rt None (S i) nodes false ConflictPolicy.Abort fs' in
  (mkRecord i op InverseTier.Files OutcomeKind.Applied None :: recs, fs'').
Proof. intros Ht Hp He. by apply run_from_soft_step. Qed.

(** The two steps that bring a captured file back. *)
Lemma run_from_restore (i : nat) (n1 n2 : PlanNode) (nodes : list PlanNode) (fs : FS)
    (par : PathBuf) (name : string) (inode : InodeRef) (blob : BlobHash) (n : Inode) :
  let p := par ++ [Normal name] in
  n_op n1 = InverseOp.RestoreContent inode p blob → soft (n_conflict n1) →
  n_op n2 = InverseOp.RestoreMetadata inode p (captured_meta n) → soft (n_conflict n2) →
  restorable tmp_name fs par name → read_blob blob = inl (in_data n) → capturable n →
  (∀ fs, may_chown fs p (in_uid n) (in_gid n) = true) →
  ∃ recs fs', all_applied recs = true
    ∧ run_from rt None i (n1 :: n2 :: nodes) false ConflictPolicy.Abort fs =
      (let '(rest, fs'') := run_from rt None (S (S i)) nodes false ConflictPolicy.Abort fs' in
       (recs ++ rest, fs''))
    ∧ view fs' p = Some n ∧ only_at p fs fs' ∧ wf fs'.
Proof.
  intros p Ho1 Hc1 Ho2 Hc2 Hr Hb Hn Hmay.
  destruct n1 as [op1 c1 cf1], n2 as [op2 c2 cf2]. cbn [n_op n_conflict] in *. subst.
  destruct (restore_content_ok read_blob tmp_name fs par name blob (in_data n) Hr Hb)
    as (fs1 & He1 & Hf1 & Hs1 & Hd1 & Hw1). fold p in He1, Hf1, Hs1, Hd1.
  assert (wf fs) as Hwf by (by destruct Hr).
  destruct (restore_metadata_ok router may_chown os fs1 p (next_ino fs)
    (restored_file fs (in_data n)) (captured_meta n) Hf1 Hs1 (Hmay fs1))
    as (fs2 & He2 & Hf2 & _ & Hd2 & Hw2).
  exists [mkRecord i (InverseOp.RestoreContent inode p blob) InverseTier.Files
            OutcomeKind.Applied None;
          mkRecord (S i) (InverseOp.RestoreMetadata inode p (captured_meta n)) InverseTier.Files
            OutcomeKind.Applied None], fs2. split; [reflexivity|]. rewrite (run_from_soft_step i _ c1 cf1 _ fs fs1); [|done|done|done|].
  2: { transitivity (outcome (restore_content_inner read_blob tmp_name p blob fs));
       [reflexivity|by rewrite He1]. }
  rewrite (run_from_soft_step (S i) _ c2 cf2 _ fs1 fs2); [|done|done| |exact He2].
  2: { cbn. unfold precondition_missing, exists_. cbn [stat live_probe]. by rewrite Hf1. }
  split_and!; [by destruct (run_from _ _ _ _ _ _ _)| | |auto].
  - unfold view. rewrite Hf2. simpl. by rewrite with_meta_captured.
  - by eapply only_at_trans.
Qed.

(** ** Captured files

    A captured regular file: where it is, its inode and the blob of its
    content. *)

Record Captured := mkCaptured {
  cp_par : PathBuf;
  cp_name : string;
  cp_ino : N;
  cp_node : Inode;
  cp_blob : BlobHash;
}.

Definition cp_path (c : Captured) : PathBuf := cp_par c ++ [Normal (cp_name c)].

(** The blob of the file is stored, and its owner may be given back. *)
Definition recoverable (c : Captured) : Prop :=
  capturable (cp_node c) ∧ is_Some (blob_size_hint store (cp_blob c))
  ∧ read_blob (cp_blob c) = inl (in_data (cp_node c))
  ∧ ∀ fs, may_chown fs (cp_path c) (in_uid (cp_node c)) (in_gid (cp_node c)) = true.

(** The two operations that bring a file back, and their conflict. *)
Definition restore_ops (dev : N) (cf : Captured → option Conflict) (c : Captured)
    : list (InverseOp * option Conflict) :=
  [(InverseOp.RestoreContent (mkInode dev (cp_ino c)) (cp_path c) (cp_blob c), cf c);
   (InverseOp.RestoreMetadata (mkInode dev (cp_ino c)) (cp_path c) (captured_meta (cp_node c)), cf c)].

(** Restoring one file leaves the place of every other ready. *)
Lemma restorable_other (fs fs' : FS) (c c' : Captured) :
  restorable tmp_name fs (cp_par c) (cp_name c) →
  restorable tmp_name fs (cp_par c') (cp_name c') → cp_path c' ≠ cp_path c →
  wf fs' → only_at (cp_path c) fs fs' → restorable tmp_name fs' (cp_par c') (cp_name c').
Proof.
  intros (Hwf & _ & _ & _ & Hnd & _ & Hne) (_ & Hpar & Hroot & Hd & Hnd' & Htmp & Hne') Hneq Hwf' Ho.
  assert (Hdir : ∀ q, q ≠ cp_path c → is_dir fs' q = is_dir fs q).
  { intros q Hq. apply is_dir_find. by apply Ho. }
  split_and!; try done.
  - rewrite Hdir; [done|]. intros Heq. rewrite Heq in Hd. unfold cp_path in Hd. congruence.
  - by rewrite Hdir.
  - apply find_None; [done|]. rewrite Ho; [by apply find_None|].
    unfold cp_path. intros Heq. apply app_inj_tail in Heq as [_ Heq]. congruence.
Qed.

(** Running the restores of captured files, up to the first hard conflict:
    nothing but their paths changes, a path with a conflict never does, and
    without conflicts every file is back. *)
Lemma run_captured (dev : N) (cf : Captured → option Conflict) (cs : list Captured) :
  NoDup (cp_path <$> cs) → (∀ c, c ∈ cs → recoverable c) →
  ∀ (nodes : list PlanNode) (i : nat) (fs : FS),
  wf fs → (∀ c, c ∈ cs → restorable tmp_name fs (cp_par c) (cp_name c)) →
  Forall2 (λ n x, n_op n = x.1 ∧ n_conflict n = x.2) nodes (concat (restore_ops dev cf <$> cs)) →
  ∃ recs fs', run_from rt None i nodes false ConflictPolicy.Abort fs = (recs, fs')
    ∧ (∀ q, q ∉ cp_path <$> cs → find fs' q = find fs q)
    ∧ (∀ c, c ∈ cs → ¬ soft (cf c) → find fs' (cp_path c) = find fs (cp_path c))
    ∧ wf fs'
    ∧ ((∀ c, c ∈ cs → soft (cf c)) → all_applied recs = true
       ∧ ∀ c, c ∈ cs → view fs' (cp_path c) = Some (cp_node c)).
Proof.
  intros Hnd Hrec. induction cs as [|c cs IH]; intros nodes i fs Hwf Hready Hn.
  { inversion Hn. subst. exists [], fs. split_and!; try done.
    intros _. split; [done|]. intros c Hc. by apply not_elem_of_nil in Hc. }
  rewrite fmap_cons in Hn. apply NoDup_cons in Hnd as [Hnc Hnd].
  cbn [concat restore_ops app] in Hn.
  inversion Hn as [|n1 ? nodes1 ? [Ho1 Hc1] Hn1]. subst.
  inversion Hn1 as [|n2 ? nodes2 ? [Ho2 Hc2] Hn2]. subst. cbn [fst snd] in *.
  destruct (soft_or_hard (cf c)) as [Hno|[d Hd]].
  2: { eexists [_], fs. split; [|split_and!; try done].
       - cbn [run_from]. unfold execute_one, attempt, effective_conflict.
         rewrite Ho1, Hc1, Hd. reflexivity.
       - intros Hall. by destruct (Hall c ltac:(left) d). }
  destruct (Hrec c) as (Hcap & _ & Hrd & Hmay); [left|]. rewrite <- Hc1 in Hno. pose proof Hno as Hno2.
  rewrite Hc1, <- Hc2 in Hno2.
  destruct (run_from_restore i n1 n2 nodes2 fs (cp_par c) (cp_name c) (mkInode dev (cp_ino c))
    (cp_blob c) (cp_node c) Ho1 Hno Ho2 Hno2 (Hready c ltac:(left)) Hrd Hcap Hmay)
    as (recs1 & fs1 & Ha1 & Hrun1 & Hv1 & Hd1 & Hw1).
  assert (Hfresh : ∀ c', c' ∈ cs → cp_path c' ≠ cp_path c).
  { intros c' Hc' Heq. apply Hnc. rewrite <- Heq. by apply list_elem_of_fmap_2. }
  destruct (IH Hnd ltac:(intros; apply Hrec; by right) nodes2 (S (S i)) fs1 Hw1)
    as (recs2 & fs2 & Hrun2 & Hd2 & Hp2 & Hw2 & Hv2); [|done|].
  { intros c' Hc'. apply (restorable_other fs fs1 c c'); auto; apply Hready; [left|by right]. }
  exists (recs1 ++ recs2), fs2. rewrite Hrun1, Hrun2. split_and!; [done| | |done|].
  - intros q Hq. apply not_elem_of_cons in Hq as [Hq1 Hq2]. by rewrite Hd2, Hd1.
  - intros c' [->|Hc']%elem_of_cons Hcf'; [by rewrite <- Hc1 in Hcf'|]. rewrite Hp2 by done. apply Hd1. by apply Hfresh.
  - intros Hall. destruct Hv2 as [Ha2 Hv2]; [intros; apply Hall; by right|].
    split; [unfold all_applied in *; by rewrite forallb_app, Ha1|].
    intros c' [->|Hc']%elem_of_cons; [|by apply Hv2].
    unfold view. rewrite Hd2 by done. exact Hv1.
Qed.

(** ** Hard-link groups *)

Lemma size_subsingleton (X : gset PathBuf) : (∀ p q, p ∈ X → q ∈ X → p = q) → size X < 2.
Proof.
  intros H. destruct (set_choose_or_empty X) as [[p Hp]|HX].
  - assert (X = {[p]}) as -> by (apply set_eq; intros q; rewrite elem_of_singleton;
      split; [intros; by apply H|by intros ->]).
    rewrite size_singleton. lia.
  - apply leibniz_equiv in HX. subst X. rewrite size_empty. lia.
Qed.

Lemma hardlinks_small (s : Scan) (probe : StateProbe) :
  (∀ i X, paths_by_inode s !! i = Some X → size X < 2) →
  hardlinks ord s probe = (∅, ∅).
Proof.
  intros Hs. apply injective_projections; simpl.
  - apply set_eq. intros p. unfold hardlinks. rewrite hardlinks_live_spec.
    split; [|set_solver]. intros [?|(i & X & Hin & Hp)]; [done|].
    rewrite elem_of_hash_iter in Hin. unfold hardlink_group in Hp.
    rewrite bool_decide_eq_true_2 in Hp by (by eapply Hs). done.
  - apply map_eq. intros p. rewrite lookup_empty. apply eq_None_not_Some.
    intros [src Hp]. apply hardlinks_dead_sound in Hp as [?|(i & X & Hin & Hg & _)]; [done|].
    rewrite elem_of_hash_iter in Hin. unfold hardlink_group in Hg.
    rewrite bool_decide_eq_true_2 in Hg by (by eapply Hs). done.
Qed.

Lemma not_hardlink_dead (s : Scan) (p : PathBuf) :
  (∀ i X, paths_by_inode s !! i = Some X → size X < 2) → is_hardlink_dead s p = false.
Proof.
  intros Hs. unfold is_hardlink_dead. destruct (unlinks_with_inode s !! p) as [i|]; [|done].
  simpl. destruct (paths_by_inode s !! i) as [X|] eqn:E; [|done].
  apply bool_decide_eq_false. pose proof (Hs _ _ E). lia.
Qed.

(** ** Creations *)

Lemma plan_create (command : CommandRecord) (e1 : CaptureEvent) (fs : FS) (p : PathBuf)
    (inode : InodeRef) (k : FileKind) (m : N) :
  refuse_plan command = None →
  e_kind e1 = CaptureEventKind.TreeOp (TreeOp.Create inode p k m) → e_partial e1 = false →
  is_Some (find fs p) →
  ∃ c, p_nodes (plan syn ord command [e1] (live_probe hash fs) store) =
    [mkNode (InverseOp.Unlink p) c None].
Proof.
  intros Hrf H1 Hp1 [x Hf]. unfold plan. rewrite Hrf. cbn [p_nodes].
  assert (reverse_chronological (live_events [e1]) = [e1]) as ->.
  { unfold live_events, reverse_chronological. simpl. by rewrite Hp1. }
  assert (Hsc : scan [e1] = mkScan ({[p]} ∪ ∅) ∅ ∅ ∅ ∅ ∅ ∅).
  { unfold scan. cbn [foldl]. unfold scan_event. by rewrite H1. }
  assert (Hex : exists_ (live_probe hash fs) p = true).
  { unfold exists_. cbn [stat live_probe]. by rewrite Hf. }
  set (class := classify ord [e1] (live_probe hash fs)).
  assert (p ∉ atomic_replace_paths class ∧ p ∉ transient_paths class
    ∧ p ∉ rename_subsumed_creates class ∧ p ∉ spurious_creates_with_preimage class
    ∧ hardlink_live_paths class = ∅) as (Ha & Ht & Hr & Hs & Hl).
  { subst class. unfold classify, classify_replace_paths. rewrite Hsc.
    rewrite hardlinks_small by (intros j X; cbn [paths_by_inode]; by rewrite lookup_empty).
    cbn [set_paired atomic_replace_paths transient_paths rename_subsumed_creates
         spurious_creates_with_preimage hardlink_live_paths].
    split_and!; [| | | |done]; class_simpl; cbn; rewrite ?Hex; set_solver. }
  rewrite !fmap_cons, !fmap_nil. unfold emit_or_skip, skipped, event_path, emit_for_event.
  rewrite H1. unfold emit_for_tree_op, emit_create.
  rewrite (bool_decide_eq_false_2 _ Ha), (bool_decide_eq_false_2 _ Ht),
    (bool_decide_eq_false_2 _ Hr), (bool_decide_eq_false_2 _ Hs), Hl.
  rewrite bool_decide_eq_false_2 by set_solver. cbn [stat live_probe]. rewrite Hf.
  cbn. eauto.
Qed.

Lemma has_children_fresh (fs : FS) (p : PathBuf) (n : Inode) :
  wf fs → p ≠ [] → names fs !! p = None → has_children (add_file fs p n) p = false.
Proof.
  intros Hwf Hp Hn. unfold has_children. apply not_true_iff_false.
  rewrite existsb_exists. intros (q & Hq & Hb). apply list_elem_of_In in Hq.
  apply andb_true_iff in Hb as [Hs Hne]. apply negb_true_iff, bool_decide_eq_false in Hne.
  apply list_elem_of_fmap in Hq as ([r i] & -> & Hq). apply elem_of_map_to_list in Hq.
  simpl in *. rewrite lookup_insert_ne in Hq by done. apply Hne.
  eapply nothing_below; [done|done| |eauto|done].
  unfold is_dir, view. by rewrite (proj2 (find_None fs p Hwf) Hn).
Qed.

(** The executor removes a name just made, whatever its kind. *)
Lemma unlink_fresh (fs : FS) (p : PathBuf) (n : Inode) :
  wf fs → p ≠ [] → names fs !! p = None →
  unlink_inner p (add_file fs p n) = ok (set_names (add_file fs p n) (names fs)).
Proof.
  intros Hwf Hp Hn.
  assert (view (add_file fs p n) p = Some n) as Hv.
  { unfold view. rewrite find_add_file by done. by rewrite bool_decide_eq_true_2. }
  assert (delete p (names (add_file fs p n)) = names fs) as Hd.
  { simpl. by rewrite delete_insert_id. }
  unfold unlink_inner, remove_dir, remove_file. rewrite Hv, has_children_fresh by done.
  rewrite Hd. by case_bool_decide.
Qed.

(** Undo of a creation removes what was created and nothing else: after
    a command made a new file, directory or link at a free name, the undo
    applies its step and every name shows what it showed before. *)
Theorem undo_create_removes (command : CommandRecord) (e1 : CaptureEvent) (fs : FS)
    (p : PathBuf) (n : Inode) (inode : InodeRef) (k : FileKind) (m : N) :
  wf fs → p ≠ [] → names fs !! p = None →
  refuse_plan command = None →
  e_kind e1 = CaptureEventKind.TreeOp (TreeOp.Create inode p k m) → e_partial e1 = false →
  let fs1 := add_file fs p n in
  fully_applied (undo command [e1] fs1).1 = true
  ∧ ∀ q, find (undo command [e1] fs1).2 q = find fs q.
Proof.
  intros Hwf Hp Hn Hrf H1 Hp1 fs1.
  assert (Hf : find fs1 p = Some (next_ino fs, n)).
  { unfold fs1. rewrite find_add_file by done. by rewrite bool_decide_eq_true_2. }
  destruct (plan_create command e1 fs1 p inode k m Hrf H1 Hp1) as [c Hnodes]; [eauto|].
  unfold undo, run. rewrite Hnodes.
  rewrite (run_from_step 0 _ c [] fs1 (set_names fs1 (names fs))); [|done| |].
  - split; [done|]. intros q. cbn [run_from snd]. destruct (decide (q = p)) as [->|Hq].
    + unfold find at 1. simpl. rewrite Hn. simpl. symmetry. by apply find_None.
    + transitivity (find fs1 q).
      * unfold find, fs1. simpl. by rewrite lookup_insert_ne.
      * unfold fs1. rewrite find_add_file by done. by rewrite bool_decide_eq_false_2.
  - cbn. unfold precondition_missing, exists_. cbn [stat live_probe]. by rewrite Hf.
  - unfold file_execute, fs1. by rewrite unlink_fresh.
Qed.

(** The executor removes a directory with everything below it. *)
Lemma unlink_dir (fs : FS) (p : PathBuf) :
  is_dir fs p = true →
  ∃ fs', unlink_inner p fs = ok fs'
    ∧ ∀ q, find fs' q = if starts_with q p then None else find fs q.
Proof.
  intros (n & Hv & Hk)%is_dir_view. unfold unlink_inner, remove_dir. rewrite Hv, Hk.
  rewrite bool_decide_eq_true_2 by done. simpl negb. cbn iota.
  destruct (has_children fs p) eqn:Hc.
  - unfold remove_dir_all. rewrite Hv. simpl. eexists. split; [done|]. intros q.
    unfold find. simpl. destruct (starts_with q p) eqn:Es.
    + rewrite map_lookup_filter_None_2; [done|]. right. intros i _. simpl. congruence.
    + destruct (names fs !! q) as [i|] eqn:Eq; simpl.
      * by rewrite (map_lookup_filter_Some_2 _ _ _ _ Eq).
      * rewrite map_lookup_filter_None_2; [done|by left].
  - eexists. split; [done|]. intros q. unfold find. simpl.
    destruct (decide (q = p)) as [->|Hq].
    { by rewrite lookup_delete_eq, starts_with_self. }
    rewrite lookup_delete_ne by done. destruct (starts_with q p) eqn:Es; [|done].
    destruct (names fs !! q) as [i|] eqn:Eq; [|done]. exfalso.
    apply not_true_iff_false in Hc. apply Hc. apply existsb_exists. exists q. split.
    + apply list_elem_of_In, list_elem_of_fmap. exists (q, i).
      split; [done|]. by apply elem_of_map_to_list.
    + by rewrite Es, bool_decide_eq_false_2.
Qed.

(** Undo of a [mkdir] removes the whole directory, later work included:
    whatever lies below the directory at undo time, by whomever it was put
    there, goes without a conflict, the step counts as applied, and every
    name outside the directory is untouched. *)
Theorem undo_mkdir_removes_subtree (command : CommandRecord) (e1 : CaptureEvent) (fs : FS)
    (p : PathBuf) (inode : InodeRef) (m : N) :
  is_dir fs p = true →
  refuse_plan command = None →
  e_kind e1 = CaptureEventKind.TreeOp (TreeOp.Create inode p FileKind.Directory m) →
  e_partial e1 = false →
  fully_applied (undo command [e1] fs).1 = true
  ∧ ∀ q, view (undo command [e1] fs).2 q = if starts_with q p then None else view fs q.
Proof.
  intros Hd Hrf H1 Hp1. pose proof Hd as (n & (i & Hf)%view_find & _)%is_dir_view.
  destruct (plan_create command e1 fs p inode FileKind.Directory m Hrf H1 Hp1)
    as [c Hnodes]; [eauto|].
  destruct (unlink_dir fs p Hd) as (fs' & Hu & Hq).
  unfold undo, run. rewrite Hnodes. rewrite (run_from_step 0 _ c [] fs fs'); [|done| |].
  - split; [done|]. intros q. cbn [run_from snd]. unfold view. rewrite Hq.
    by destruct (starts_with q p).
  - cbn. unfold precondition_missing, exists_. cbn [stat live_probe]. by rewrite Hf.
  - unfold file_execute. by rewrite Hu.
Qed.

End Undo.

(** ** Concrete runs

    One directory [/w] with the file [/w/f], set-user-id, owned by user 7,
    with an extended attribute; the process runs as root. *)

Definition ex_dir : Inode := mkIno FileKind.Directory 493 0 0 5 ∅ 0 [] "".
Definition ex_file : Inode :=
  mkIno FileKind.Regular 2541 7 8 42 {["user.tag" := [Byte.x01]]} 0 [Byte.x61; Byte.x62] "".
Definition ex_root : FS := mkFS {[ [RootDir] := 1%N ]} {[ 1%N := ex_dir ]} 2 100 1 18 0 0.
Definition ex_w : FS := add_file ex_root (path_of_string "/w") ex_dir.
Definition ex_fs : FS := add_file ex_w (path_of_string "/w/f") ex_file.

Definition ex_digest (b : bytes) : BlobHash := mkHash (Byte.to_N <$> b).
Definition ex_read (h : BlobHash) : bytes + Msg := inl (in_data ex_file).
Definition ex_may (fs : FS) (p : PathBuf) (u g : N) : bool := true.

Abbreviation ex_undo cmd evs fs :=
  (undo no_synth map_order ex_digest ex_store ex_read NoOpPrivilegedOpRouter ex_may
     ".shit-tmp-1" Linux cmd evs fs).

Lemma ex_root_wf : wf ex_root.
Proof.
  split; simpl.
  - intros p i [_ <-]%lookup_singleton_Some. rewrite lookup_singleton_eq. eauto.
  - intros i [n [<- _]%lookup_singleton_Some]. lia.
  - intros p [i [<- _]%lookup_singleton_Some]. apply not_elem_of_nil.
  - by intros p q [i [<- _]%lookup_singleton_Some].
Qed.

Lemma ex_w_wf : wf ex_w.
Proof.
  apply wf_add_file; [apply ex_root_wf|vm_compute; reflexivity| |].
  - apply (bool_decide_unpack _). vm_compute. exact I.
  - intros q [= <-]. vm_compute. reflexivity.
Qed.

Lemma ex_fs_wf : wf ex_fs.
Proof.
  apply wf_add_file; [apply ex_w_wf|vm_compute; reflexivity| |].
  - apply (bool_decide_unpack _). vm_compute. exact I.
  - intros q [= <-]. vm_compute. reflexivity.
Qed.

Lemma ex_file_capturable : capturable Linux ex_file.
Proof.
  split_and!; try done. intros k [v Hv]. simpl in Hv.
  by apply lookup_singleton_Some in Hv as [<- _].
Qed.

Lemma ex_fs_sole : sole_name ex_fs (path_of_string "/w/f") 3.
Proof.
  intros q. simpl. rewrite !lookup_insert_Some, lookup_singleton_Some.
  intros [[<- _]|[_ [[_ ?]|[_ [_ ?]]]]]; [reflexivity|discriminate..].
Qed.

(** A second file [/w/g]. *)
Definition ex_other : Inode := mkIno FileKind.Regular 420 7 8 43 ∅ 0 [Byte.x7a] "".
Definition ex_two_fs : FS := add_file ex_fs (path_of_string "/w/g") ex_other.

Definition ex_rs : list Captured :=
  [mkCaptured (path_of_string "/w") "f" 3 ex_file (ex_hash 1);
   mkCaptured (path_of_string "/w") "g" 4 ex_other (ex_hash 2)].

Definition ex_two_store : PlannerStore :=
  in_memory_store (put_blob (put_blob store_new (ex_hash 1) 2) (ex_hash 2) 1).

Definition ex_two_read (h : BlobHash) : bytes + Msg :=
  inl (if bool_decide (h = ex_hash 2) then in_data ex_other else in_data ex_file).

Lemma ex_two_fs_wf : wf ex_two_fs.
Proof.
  apply wf_add_file; [apply ex_fs_wf|vm_compute; reflexivity| |].
  - apply (bool_decide_unpack _). vm_compute. exact I.
  - intros q [= <-]. vm_compute. reflexivity.
Qed.

Lemma ex_other_capturable : capturable Linux ex_other.
Proof. split_and!; try done. intros k [v Hv]. simpl in Hv. by rewrite lookup_empty in Hv. Qed.

Lemma ex_rs_recoverable (c : Captured) :
  c ∈ ex_rs → recoverable ex_two_store ex_two_read ex_may Linux c.
Proof.
  intros [->|[->|[]%elem_of_nil]%elem_of_cons]%elem_of_cons.
  - split; [apply ex_file_capturable|]. split_and!; try (vm_compute; reflexivity). vm_compute. eauto.
  - split; [apply ex_other_capturable|]. split_and!; try (vm_compute; reflexivity). vm_compute. eauto.
Qed.

Definition ex_mv : CaptureEvent :=
  ex_event 1 (CaptureEventKind.TreeOp (TreeOp.Rename (path_of_string "/w") (path_of_string "/v")
    (mkInode 1 2))).

(** [touch f] in the directory without it. *)
Lemma undo_create_removes_witness :
  view ex_fs (path_of_string "/w/f") = Some ex_file
  ∧ find (ex_undo (ex_cmd "touch f") [ex_event 1 (CaptureEventKind.TreeOp
      (TreeOp.Create (mkInode 1 3) (path_of_string "/w/f") FileKind.Regular 2541))] ex_fs).2
      (path_of_string "/w/f") = None.
Proof.
  split; [vm_compute; reflexivity|].
  transitivity (find ex_w (path_of_string "/w/f")); [|vm_compute; reflexivity].
  refine (proj2 (undo_create_removes no_synth map_order ex_digest ex_store ex_read
    NoOpPrivilegedOpRouter ex_may ".shit-tmp-1" Linux (ex_cmd "touch f") _ ex_w
    (path_of_string "/w/f") ex_file (mkInode 1 3) FileKind.Regular 2541
    ex_w_wf _ _ _ _ _) _);
    try (vm_compute; reflexivity); try (vm_compute; discriminate).
Defined.

(** [mkdir /w], then [/w/f] written by a later command. *)
Lemma undo_mkdir_removes_subtree_witness :
  view ex_fs (path_of_string "/w/f") = Some ex_file
  ∧ fully_applied (ex_undo (ex_cmd "mkdir /w") [ex_event 1 (CaptureEventKind.TreeOp
      (TreeOp.Create (mkInode 1 2) (path_of_string "/w") FileKind.Directory 493))] ex_fs).1 = true
  ∧ view (ex_undo (ex_cmd "mkdir /w") [ex_event 1 (CaptureEventKind.TreeOp
      (TreeOp.Create (mkInode 1 2) (path_of_string "/w") FileKind.Directory 493))] ex_fs).2
      (path_of_string "/w/f") = None.
Proof.
  split; [vm_compute; reflexivity|].
  destruct (undo_mkdir_removes_subtree no_synth map_order ex_digest ex_store ex_read
    NoOpPrivilegedOpRouter ex_may ".shit-tmp-1" Linux (ex_cmd "mkdir /w") (ex_event 1
      (CaptureEventKind.TreeOp (TreeOp.Create (mkInode 1 2) (path_of_string "/w")
        FileKind.Directory 493))) ex_fs (path_of_string "/w") (mkInode 1 2) 493) as [H1 H2];
    try (vm_compute; reflexivity).
  split; [exact H1|]. rewrite H2. vm_compute. reflexivity.
Defined.

(** ** Nested paths in one cohort *)

Definition ex_locked : Inode :=
  mkIno FileKind.Regular 384 7 8 42 {["user.tag" := [Byte.x01]]} 0 [Byte.x61; Byte.x62] "".

Definition ex_mv_chmod : list CaptureEvent :=
  [ex_mv; ex_event 2 (CaptureEventKind.MetadataChange (mkInode 1 3) (path_of_string "/v/f")
    (captured_meta ex_file) (captured_meta ex_locked))].

(** [mv w v && chmod 600 v/f]. *)
Definition ex_moved_locked : FS :=
  set_inode (set_names ex_fs (move_tree (names ex_fs) (path_of_string "/w") (path_of_string "/v")))
    3 ex_locked.

Definition ex_race_plan : UndoPlan :=
  plan no_synth map_order (ex_cmd "mv w v && chmod 600 v/f") ex_mv_chmod
    (live_probe ex_digest ex_moved_locked) ex_store.

Abbreviation ex_rt :=
  (file_runtime ex_read NoOpPrivilegedOpRouter ex_may ".shit-tmp-1" Linux ex_digest).

(** Both threads done, the rename first, with one permit. *)
Definition ex_race_schedule : list nat := replicate 7 1 ++ replicate 7 0.

Definition ex_race_end : ParState FS :=
  run_cohort ex_rt None (p_nodes ex_race_plan) false ConflictPolicy.Skip 1 [0; 1]
    (replicate (length (p_nodes ex_race_plan)) None) ex_moved_locked ex_race_schedule.

(** Operations of one cohort need not commute: undoing a move and a
    later [chmod] below the moved directory puts the metadata restore and the
    rename back in one cohort, because only equal paths and inodes count as
    shared. In plan order the undo is complete; when the rename runs first
    the restore misses its target and the file keeps the new mode. *)
Theorem cohort_siblings_race :
  let serial := run ex_rt None ex_race_plan false ConflictPolicy.Skip ex_moved_locked in
  fully_applied serial.1 = true
  ∧ view serial.2 (path_of_string "/w/f") = Some ex_file
  ∧ ∃ rep w, run_parallel ex_rt None ex_race_plan false ConflictPolicy.Skip 1
      ex_moved_locked rep w
    ∧ fully_applied rep = false ∧ view w (path_of_string "/w/f") = Some ex_locked.
Proof.
  split_and!; [vm_compute; reflexivity..|].
  exists (mkReport (from_plan ex_race_plan) (omap id (records_slot ex_race_end)) false ConflictPolicy.Skip),
    (shared_world ex_race_end).
  split_and!; [|vm_compute; reflexivity..].
  exists (records_slot ex_race_end). split; [|reflexivity].
  assert (group_by_cohort (p_nodes ex_race_plan) = [(0%N, [0; 1])]) as ->
    by (vm_compute; reflexivity).
  apply (OrchestratorFacts.par_single _ _ _ _ _ _ 0%N [0; 1] _ _ ex_race_schedule ex_race_end).
  - unfold ex_race_end. reflexivity.
  - apply (bool_decide_unpack _). vm_compute. exact I.
  - vm_compute. reflexivity.
Qed.

End Undo.
