(* ===== verification/Edits.v ===== *)
(** * In-place edits

    A command that overwrites any number of files in place, each captured
    first: undo brings the old files back, unless one was changed since. *)

From S2P Require Import Prelude Paths Base Events Inverse Refuse Cohort.
From S2P Require Import Probe Classify FlagPairs Network Plan PlanForward Executor Orchestrator.
From S2P Require Import PlanFacts Fs FileExec FileFacts Undo.

Module Edits.
Import Classify Plan PlanForward Executor Orchestrator PlanFacts Fs FileExec FileFacts Undo.

(** What the capture records of an edit: the file before it and, when it
    looked again afterwards, the hash of the content it left. *)
Definition edit_event (dev : N) (post : Captured → option BlobHash) (c : Captured) (e : CaptureEvent)
    : Prop :=
  e_partial e = false ∧ ∃ src, is_shim_flags src = false ∧
    e_kind e = CaptureEventKind.FilePreImage (mkInode dev (cp_ino c)) (cp_path c) (cp_blob c)
      (captured_meta (cp_node c)) (post c) src.

(** ** Classification *)

Section Scan.
Context (dev : N) (post : Captured → option BlobHash) (evs : list CaptureEvent).
Hypothesis Hev : Forall (λ e, ∃ c, edit_event dev post c e) evs.

Lemma edit_kind (e : CaptureEvent) :
  e ∈ evs → ∃ i p b m h s, e_kind e = CaptureEventKind.FilePreImage i p b m h s.
Proof. rewrite Forall_forall in Hev. intros (c & _ & s & _ & Hk)%Hev. eauto 10. Qed.

Lemma classify_edits (ord : HashOrder InodeRef (gset PathBuf)) (probe : StateProbe) :
  let class := classify ord evs probe in
  atomic_replace_paths class = ∅ ∧ transient_paths class = ∅
  ∧ hardlink_live_paths class = ∅ ∧ hardlink_dead_to_source class = ∅.
Proof.
  assert (Hc : creates (scan evs) = ∅).
  { apply set_eq. intros p. rewrite elem_of_creates. split; [|set_solver].
    intros (e & He%edit_kind & Hp). unfold ev_creates in Hp. destruct_ands. congruence. }
  assert (Hr : rename_destinations (scan evs) = ∅).
  { apply set_eq. intros p. rewrite elem_of_rename_destinations. split; [|set_solver].
    intros (e & He%edit_kind & Hp). unfold ev_renames_to in Hp. destruct_ands. congruence. }
  assert (Hu : unlinks (scan evs) = ∅).
  { apply set_eq. intros p. rewrite elem_of_unlinks. split; [|set_solver].
    intros (e & He%edit_kind & Hp). unfold ev_unlinks in Hp. destruct_ands. congruence. }
  cbn zeta. unfold classify, classify_replace_paths. rewrite hardlinks_small.
  - cbn [set_paired atomic_replace_paths transient_paths hardlink_live_paths
         hardlink_dead_to_source].
    split_and!; [| |done|done]; apply set_eq; intros q; class_simpl; rewrite Hc, Hr, ?Hu; set_solver.
  - intros i X HX. apply size_subsingleton. intros p q Hp.
    apply (elem_of_paths_by_inode _ _ _ _ HX) in Hp as (e & k & m & He%edit_kind & Hk).
    destruct_ands. congruence.
Qed.

End Scan.

Section Undo.
Context (syn : Network.NetSynth) (ord : HashOrder InodeRef (gset PathBuf)).
Context (hash : bytes → BlobHash) (store : PlannerStore).
Context (read_blob : BlobHash → bytes + Msg) (router : PrivilegedOpRouter).
Context (may_chown : FS → PathBuf → N → N → bool) (tmp_name : string) (os : Os).

Let rt : Runtime FS := file_runtime read_blob router may_chown tmp_name os hash.

(** The conflict of a file whose content is not what the command left. *)
Definition drift (fs : FS) (post : Captured → option BlobHash) (c : Captured) : option Conflict :=
  post_image_conflict (cp_path c) (post c) (live_probe hash fs) None.

(** The edited file still is the regular file with the captured inode. *)
Definition in_place (fs : FS) (c : Captured) (n : Inode) : Prop :=
  find fs (cp_path c) = Some (cp_ino c, n) ∧ in_kind n = FileKind.Regular.

Lemma drift_None (fs : FS) (post : Captured → option BlobHash) (c : Captured) (n : Inode) :
  in_place fs c n → drift fs post c = None ↔ ∀ h, post c = Some h → hash (in_data n) = h.
Proof.
  intros [Hf Hk]. unfold drift, post_image_conflict. cbn [content_hash live_probe].
  unfold view. rewrite Hf. simpl. rewrite bool_decide_eq_true_2 by done.
  destruct (post c) as [h|]; [|by split]. case_bool_decide; simpl; [split; [congruence|done]|].
  split; [done|]. intros Hh. by destruct (Hh h eq_refl).
Qed.

Lemma drift_hard (fs : FS) (post : Captured → option BlobHash) (c : Captured) :
  drift fs post c = None ∨ ∃ d, drift fs post c = Some (Conflict.Hard d).
Proof.
  unfold drift, post_image_conflict. destruct (post c); [|by left]. destruct (content_hash _ _); [|by left].
  destruct (negb _); eauto.
Qed.

(** The conflict the planner marks the restore of a captured file with. *)
Definition edit_conflict (dev : N) (fs : FS) (post : Captured → option BlobHash) (c : Captured)
    : option Conflict :=
  let probe := live_probe hash fs in
  post_image_conflict (cp_path c) (post c) probe
    (blob_conflict (cp_blob c) store (file_path_conflict (cp_path c) (mkInode dev (cp_ino c)) probe)).

Lemma edit_conflict_in_place (fs : FS) (post : Captured → option BlobHash) (c : Captured) (n : Inode) :
  in_place fs c n → is_Some (blob_size_hint store (cp_blob c)) →
  edit_conflict (device fs) fs post c = drift fs post c.
Proof.
  intros [Hf _] [sz Hb]. unfold edit_conflict, file_path_conflict. cbn [stat live_probe]. rewrite Hf. simpl.
  rewrite bool_decide_eq_true_2 by done. unfold blob_conflict. by rewrite Hb.
Qed.

(** The only hard conflict is a content that differs from what the command
    left, found under the captured inode. *)
Lemma edit_conflict_soft (dev : N) (fs : FS) (post : Captured → option BlobHash) (c : Captured) :
  (∀ n h, view fs (cp_path c) = Some n → post c = Some h → hash (in_data n) = h) →
  soft (edit_conflict dev fs post c).
Proof.
  intros Hsame d. unfold edit_conflict, post_image_conflict. cbn [content_hash live_probe].
  assert (soft (blob_conflict (cp_blob c) store
    (file_path_conflict (cp_path c) (mkInode dev (cp_ino c)) (live_probe hash fs)))) as Hs.
  { intros d'. unfold blob_conflict, file_path_conflict. cbn [stat live_probe].
    destruct (find fs (cp_path c)) as [[i n]|]; simpl; [|done]. case_bool_decide; simpl; [|done].
    by destruct (blob_size_hint _ _). }
  destruct (blob_conflict _ _ _); [apply Hs|]. destruct (post c) as [h|]; [|done].
  destruct (view fs (cp_path c)) as [n|]; [|done]. specialize (Hsame n h eq_refl eq_refl).
  simpl. destruct (bool_decide _); simpl; [|done]. rewrite bool_decide_eq_true_2 by done. done.
Qed.

Lemma plan_edits (command : CommandRecord) (evs : list CaptureEvent) (cs : list Captured)
    (post : Captured → option BlobHash) (dev : N) (fs : FS) :
  refuse_plan command = None → chronological evs → Forall2 (edit_event dev post) cs evs →
  Forall2 (λ n x, n_op n = x.1 ∧ n_conflict n = x.2)
    (p_nodes (plan syn ord command evs (live_probe hash fs) store))
    (concat (restore_ops dev (edit_conflict dev fs post) <$> reverse cs)).
Proof.
  intros Hrf Hc Hev. apply nodes_of_ops. unfold plan. rewrite Hrf. cbn [p_nodes].
  assert (Forall (λ e, e_partial e = false) evs).
  { clear Hc. induction Hev as [|c e ? ? [? _]]; constructor; auto. }
  rewrite reverse_order, Cohort.assign_cohorts_ops by done.
  assert (Hall : Forall (λ e, ∃ c, edit_event dev post c e) (reverse evs)).
  { apply Forall_reverse. clear -Hev. induction Hev; constructor; eauto. }
  destruct (classify_edits _ _ _ Hall ord (live_probe hash fs)) as (Ea & Et & El & Ed).
  set (class := classify ord (reverse evs) (live_probe hash fs)) in *. clearbody class.
  apply Forall2_reverse in Hev. clear Hall Hc H. revert Hev.
  generalize (reverse cs), (reverse evs). intros cs' evs' Hev.
  induction Hev as [|c e cs' evs' (_ & src & Hsh & Hk) _ IH]; [done|].
  assert ((emit_or_skip syn (live_probe hash fs) store class e).1 =
    [node (InverseOp.RestoreContent (mkInode dev (cp_ino c)) (cp_path c) (cp_blob c))
       (edit_conflict dev fs post c);
     node (InverseOp.RestoreMetadata (mkInode dev (cp_ino c)) (cp_path c)
       (captured_meta (cp_node c))) (edit_conflict dev fs post c)]) as Hem.
  { unfold emit_or_skip, skipped, event_path. rewrite Hk, Et, El.
    rewrite !bool_decide_eq_false_2 by set_solver. cbn [orb andb].
    unfold emit_for_event, emit_file_pre_image. rewrite Hk, Hsh, Ed, lookup_empty.
    rewrite bool_decide_eq_false_2 by (by intros [? ?]).
    unfold pre_image_conflict. by rewrite Ea, bool_decide_eq_false_2 by set_solver. }
  rewrite !fmap_cons, Hem. cbn [concat app]. rewrite !fmap_cons. cbn [restore_ops app].
  do 2 f_equal. apply IH.
Qed.

(** The edits to undo: distinct captured files, each still in place. *)
Definition undoable (fs : FS) (cs : list Captured) : Prop :=
  wf fs ∧ NoDup (cp_path <$> cs) ∧
  ∀ c, c ∈ cs → (∃ n, in_place fs c n) ∧ recoverable store read_blob may_chown os c
    ∧ restorable tmp_name fs (cp_par c) (cp_name c).

(** Running the undo of edits, whatever the file system shows at their paths. *)
Lemma run_any_edits (command : CommandRecord) (evs : list CaptureEvent) (cs : list Captured)
    (post : Captured → option BlobHash) (dev : N) (fs : FS) :
  wf fs → NoDup (cp_path <$> cs) →
  (∀ c, c ∈ cs → recoverable store read_blob may_chown os c
    ∧ restorable tmp_name fs (cp_par c) (cp_name c)) →
  refuse_plan command = None → chronological evs → Forall2 (edit_event dev post) cs evs →
  ∃ recs fs', undo syn ord hash store read_blob router may_chown tmp_name os command evs fs =
      (mkReport (from_plan (plan syn ord command evs (live_probe hash fs) store)) recs false
         ConflictPolicy.Abort, fs')
    ∧ (∀ q, q ∉ cp_path <$> cs → find fs' q = find fs q)
    ∧ (∀ c, c ∈ cs → ¬ soft (edit_conflict dev fs post c) → find fs' (cp_path c) = find fs (cp_path c))
    ∧ wf fs'
    ∧ ((∀ c, c ∈ cs → soft (edit_conflict dev fs post c)) → all_applied recs = true
       ∧ ∀ c, c ∈ cs → view fs' (cp_path c) = Some (cp_node c)).
Proof.
  intros Hwf Hnd Hall Hrf Hc Hev. unfold undo, run. fold rt.
  destruct (run_captured hash store read_blob router may_chown tmp_name os dev
    (edit_conflict dev fs post) (reverse cs)) with (nodes := p_nodes (plan syn ord command
    evs (live_probe hash fs) store)) (i := 0) (fs := fs) as (recs & fs2 & Hrun & Ho & Hp & Hw & Hv); auto.
  - by rewrite fmap_reverse, reverse_Permutation.
  - intros c Hc'. rewrite elem_of_reverse in Hc'. by destruct (Hall c Hc').
  - intros c Hc'. rewrite elem_of_reverse in Hc'. by destruct (Hall c Hc').
  - by apply plan_edits.
  - fold rt in Hrun. exists recs, fs2. rewrite Hrun. split_and!; [done| | |done|].
    + intros q Hq. apply Ho. by rewrite fmap_reverse, elem_of_reverse.
    + intros c Hc'. apply Hp. by rewrite elem_of_reverse.
    + intros Hno. destruct Hv as [Ha Hv].
      { intros c Hc'. rewrite elem_of_reverse in Hc'. auto. }
      split; [done|]. intros c Hc'. apply Hv. by rewrite elem_of_reverse.
Qed.

Lemma run_edits (command : CommandRecord) (evs : list CaptureEvent) (cs : list Captured)
    (post : Captured → option BlobHash) (fs : FS) :
  undoable fs cs → refuse_plan command = None → chronological evs →
  Forall2 (edit_event (device fs) post) cs evs →
  let res := undo syn ord hash store read_blob router may_chown tmp_name os command evs fs in
  (∀ q, q ∉ cp_path <$> cs → find res.2 q = find fs q)
  ∧ (∀ c, c ∈ cs → drift fs post c ≠ None → find res.2 (cp_path c) = find fs (cp_path c))
  ∧ ((∀ c, c ∈ cs → drift fs post c = None) → fully_applied res.1 = true
     ∧ ∀ c, c ∈ cs → view res.2 (cp_path c) = Some (cp_node c)).
Proof.
  intros (Hwf & Hnd & Hall) Hrf Hc Hev.
  assert (Hcf : ∀ c, c ∈ cs → edit_conflict (device fs) fs post c = drift fs post c).
  { intros c Hc'. destruct (Hall c Hc') as ([n Hn] & (_ & Hb & _) & _). by eapply edit_conflict_in_place. }
  destruct (run_any_edits command evs cs post (device fs) fs) as (recs & fs2 & -> & Ho & Hp & _ & Hv); auto.
  { intros c Hc'. by destruct (Hall c Hc') as (_ & ? & ?). }
  cbn [fst snd]. split_and!; [done| |].
  - intros c Hc' Hd. apply Hp; [done|]. rewrite Hcf by done.
    destruct (drift_hard fs post c) as [?|[d Hd']]; [done|]. intros Hs. by apply (Hs d).
  - intros Hno. destruct Hv as [Ha Hv]; [|by split; [apply all_applied_fully|]].
    intros c Hc'. rewrite Hcf, Hno by done. apply soft_None.
Qed.

(** Undo of in-place edits gives the old files back: when every edited
    file still has the content the command left (as far as the capture knows
    it), planning and running the
    undo applies every step, every edited path shows the captured content and
    metadata again, and no other name changes. *)
Theorem undo_edits_restores (command : CommandRecord) (evs : list CaptureEvent)
    (cs : list Captured) (post : Captured → option BlobHash) (fs : FS) :
  undoable fs cs → refuse_plan command = None → chronological evs →
  Forall2 (edit_event (device fs) post) cs evs →
  (∀ c n h, c ∈ cs → in_place fs c n → post c = Some h → hash (in_data n) = h) →
  let res := undo syn ord hash store read_blob router may_chown tmp_name os command evs fs in
  fully_applied res.1 = true
  ∧ (∀ c, c ∈ cs → view res.2 (cp_path c) = Some (cp_node c))
  ∧ (∀ q, q ∉ cp_path <$> cs → view res.2 q = view fs q).
Proof.
  intros Hu Hrf Hc Hev Hsame.
  destruct (run_edits command evs cs post fs Hu Hrf Hc Hev) as (Ho & _ & Hv).
  destruct Hv as [Ha Hv].
  - intros c Hc'. destruct Hu as (_ & _ & Hall). destruct (Hall c Hc') as [[n Hn] _].
    apply (drift_None fs post c n Hn). eauto.
  - split_and!; [done|done|]. intros q Hq. unfold view. by rewrite Ho.
Qed.

(** C16. Undo does not write over later edits made in place: whatever happened to
    the other files of a command since, a file that is still the same inode,
    of which the event records what the command left, and whose content is no
    longer that, shows after the undo exactly what it showed before it, and so
    does every name the command did not touch. A later edit that moved a new
    file over the name is not protected
    ([UndoExamples.UndoExamples.undo_overwrites_replaced_file]). *)
Theorem undo_edits_protects_later_work (command : CommandRecord) (evs : list CaptureEvent)
    (cs : list Captured) (post : Captured → option BlobHash) (fs : FS) (c : Captured) (n : Inode) (h : BlobHash) :
  undoable fs cs → refuse_plan command = None → chronological evs →
  Forall2 (edit_event (device fs) post) cs evs →
  c ∈ cs → in_place fs c n → post c = Some h → hash (in_data n) ≠ h →
  let res := undo syn ord hash store read_blob router may_chown tmp_name os command evs fs in
  view res.2 (cp_path c) = Some n ∧ ∀ q, q ∉ cp_path <$> cs → view res.2 q = view fs q.
Proof.
  intros Hu Hrf Hc Hev Hin Hpl Hh Hd.
  destruct (run_edits command evs cs post fs Hu Hrf Hc Hev) as (Ho & Hp & _).
  split.
  - unfold view. rewrite Hp; [|done|].
    + destruct Hpl as [Hf _]. by rewrite Hf.
    + intros Hno. apply Hd. by apply (proj1 (drift_None fs post c n Hpl) Hno).
  - intros q Hq. unfold view. by rewrite Ho.
Qed.

End Undo.

(** ** [sed -i] in place on two files *)

Definition ex_data (n : Inode) (data : bytes) : Inode :=
  mkIno (in_kind n) (in_mode n) (in_uid n) (in_gid n) 100 (in_xattrs n) (in_flags n) data
    (in_target n).

Definition ex_edited (f g : bytes) : FS :=
  set_inode (set_inode ex_two_fs 3 (ex_data ex_file f)) 4 (ex_data ex_other g).

Definition ex_post (c : Captured) : option BlobHash :=
  Some (ex_digest (if bool_decide (cp_ino c = 3%N) then [Byte.x63] else [Byte.x64])).

Definition ex_edit_events : list CaptureEvent :=
  imap (λ k c, ex_event (N.of_nat (S k)) (CaptureEventKind.FilePreImage (mkInode 1 (cp_ino c))
    (cp_path c) (cp_blob c) (captured_meta (cp_node c)) (ex_post c)
    FilePreImageSource.EsAuthPreMutation)) ex_rs.

Lemma ex_edited_wf (f g : bytes) : wf (ex_edited f g).
Proof.
  apply (wf_set_inode _ (path_of_string "/w/g") 4 ex_other); [|vm_compute; reflexivity|done].
  apply (wf_set_inode _ (path_of_string "/w/f") 3 ex_file); [|vm_compute; reflexivity|done].
  apply ex_two_fs_wf.
Qed.

Lemma ex_edited_undoable (f g : bytes) :
  undoable ex_two_store ex_two_read ex_may ".shit-tmp-1" Linux (ex_edited f g) ex_rs.
Proof.
  split_and!; [apply ex_edited_wf|apply (bool_decide_unpack _); vm_compute; exact I|].
  intros c Hc. pose proof (ex_rs_recoverable c Hc) as Hr.
  split; [|split; [done|split; [apply ex_edited_wf|split_and!]]];
    apply elem_of_cons in Hc as [->|[->|[]%elem_of_nil]%elem_of_cons];
    try (vm_compute; reflexivity); try discriminate;
    try (apply (bool_decide_unpack _); vm_compute; exact I).
  - eexists. split; [vm_compute; reflexivity|reflexivity].
  - eexists. split; [vm_compute; reflexivity|reflexivity].
Qed.

Lemma ex_edit_recorded (f g : bytes) :
  Forall2 (edit_event (device (ex_edited f g)) ex_post) ex_rs ex_edit_events.
Proof.
  repeat constructor; eexists; (split; [|reflexivity]); reflexivity.
Qed.

Lemma ex_edit_chronological : chronological ex_edit_events.
Proof.
  split; [unfold unique_ids; apply (bool_decide_unpack _); vm_compute; exact I|].
  repeat constructor.
Qed.

Abbreviation ex_undo_edits fs :=
  (undo no_synth map_order ex_digest ex_two_store ex_two_read NoOpPrivilegedOpRouter ex_may
     ".shit-tmp-1" Linux (ex_cmd "sed -i s/a/b/ f g") ex_edit_events fs).

Lemma undo_edits_restores_witness :
  view (ex_edited [Byte.x63] [Byte.x64]) (path_of_string "/w/f") ≠ Some ex_file
  ∧ view (ex_undo_edits (ex_edited [Byte.x63] [Byte.x64])).2 (path_of_string "/w/f") = Some ex_file.
Proof.
  split; [vm_compute; discriminate|].
  refine (proj1 (proj2 (undo_edits_restores no_synth map_order ex_digest ex_two_store ex_two_read
    NoOpPrivilegedOpRouter ex_may ".shit-tmp-1" Linux (ex_cmd "sed -i s/a/b/ f g") ex_edit_events
    ex_rs ex_post (ex_edited [Byte.x63] [Byte.x64]) (ex_edited_undoable _ _) _
    ex_edit_chronological (ex_edit_recorded _ _) _))
    (mkCaptured (path_of_string "/w") "f" 3 ex_file (ex_hash 1)) _).
  - vm_compute. reflexivity.
  - intros c n h [->|[->|[]%elem_of_nil]%elem_of_cons]%elem_of_cons [Hf _] [= <-];
      vm_compute in Hf; injection Hf as <-; reflexivity.
  - left.
Defined.

(** [g] is written again before the undo. *)
Lemma undo_edits_protects_later_work_witness :
  view (ex_undo_edits (ex_edited [Byte.x63] [Byte.x7a; Byte.x7a])).2 (path_of_string "/w/g")
  = Some (ex_data ex_other [Byte.x7a; Byte.x7a]).
Proof.
  refine (proj1 (undo_edits_protects_later_work no_synth map_order ex_digest ex_two_store ex_two_read
    NoOpPrivilegedOpRouter ex_may ".shit-tmp-1" Linux (ex_cmd "sed -i s/a/b/ f g") ex_edit_events
    ex_rs ex_post (ex_edited [Byte.x63] [Byte.x7a; Byte.x7a])
    (mkCaptured (path_of_string "/w") "g" 4 ex_other (ex_hash 2))
    (ex_data ex_other [Byte.x7a; Byte.x7a]) (ex_digest [Byte.x64]) (ex_edited_undoable _ _) _
    ex_edit_chronological (ex_edit_recorded _ _) _ _ _ _)).
  - vm_compute. reflexivity.
  - right. left.
  - split; [vm_compute; reflexivity|reflexivity].
  - reflexivity.
  - vm_compute. discriminate.
Defined.

End Edits.
