(* ===== verification/Removals.v ===== *)
(** * Removals

    A command that unlinks any number of regular files, each captured first:
    undo brings every one of them back and leaves the rest alone. *)

From S2P Require Import Prelude Paths Base Events Inverse Refuse Cohort.
From S2P Require Import Probe Classify FlagPairs Network Plan PlanForward Executor Orchestrator.
From S2P Require Import PlanFacts Fs FileExec FileFacts Undo.

Module Removals.
Import Classify Plan PlanForward Executor Orchestrator PlanFacts Fs FileExec FileFacts Undo.

Inductive removals (fs : FS) : list Captured → FS → Prop :=
  | removals_nil : removals fs [] fs
  | removals_snoc rs fs1 r fs2 :
      removals fs rs fs1 → remove_file fs1 (cp_path r) = inl fs2 →
      removals fs (rs ++ [r]) fs2.

Lemma removals_spec (fs fs' : FS) (rs : list Captured) :
  wf fs → removals fs rs fs' →
  wf fs' ∧ device fs' = device fs
  ∧ (∀ p, p ∈ cp_path <$> rs → names fs' !! p = None)
  ∧ (∀ q, q ∉ cp_path <$> rs → find fs' q = find fs q).
Proof.
  intros Hwf. induction 1 as [|rs fs1 r fs2 _ IH Hrm].
  { split_and!; try done. intros p Hp. by apply not_elem_of_nil in Hp. }
  destruct IH as (Hwf1 & Hd & Hg & Ho). unfold remove_file in Hrm.
  destruct (view fs1 (cp_path r)) as [n|] eqn:Hv; [|done].
  case_bool_decide as Hk; [done|]. injection Hrm as <-.
  destruct (remove_file_spec fs1 (cp_path r) n Hwf1 Hv Hk) as (_ & Hwf2 & _ & _).
  split_and!; [done|done| |].
  - intros p. rewrite fmap_app, elem_of_app. simpl. intros [Hp| ->%list_elem_of_singleton].
    + apply lookup_delete_None. right. by apply Hg.
    + apply lookup_delete_eq.
  - intros q. rewrite fmap_app, elem_of_app. simpl. intros Hq.
    rewrite <- Ho by tauto. unfold find. simpl. rewrite lookup_delete_ne; [done|].
    intros <-. apply Hq. right. by apply list_elem_of_singleton.
Qed.

(** What the capture records of the removals, oldest first: the content of
    each file, then its unlink. *)
Definition pre_event (dev : N) (r : Captured) (e : CaptureEvent) : Prop :=
  e_partial e = false ∧ ∃ src, is_shim_flags src = false ∧
    e_kind e = CaptureEventKind.FilePreImage (mkInode dev (cp_ino r)) (cp_path r) (cp_blob r)
      (captured_meta (cp_node r)) None src.

(** The inode of the unlink may be unknown, as in what the preload shim reports. *)
Definition unlink_event (dev : N) (r : Captured) (e : CaptureEvent) : Prop :=
  e_partial e = false ∧ ∃ i kind mode, (i = mkInode dev (cp_ino r) ∨ inode_known i = false)
    ∧ e_kind e = CaptureEventKind.TreeOp (TreeOp.Unlink i (cp_path r) kind mode).

Inductive removal_events (dev : N) : list Captured → list CaptureEvent → Prop :=
  | removal_events_nil : removal_events dev [] []
  | removal_events_snoc rs evs r e1 e2 :
      removal_events dev rs evs → pre_event dev r e1 → unlink_event dev r e2 →
      removal_events dev (rs ++ [r]) (evs ++ [e1; e2]).

Definition is_pre (e : CaptureEvent) : bool :=
  match e_kind e with CaptureEventKind.FilePreImage _ _ _ _ _ _ => true | _ => false end.

(** The same, whatever the order: one snapshot and an unlink of each file, and
    nothing else. *)
Record removal_journal (dev : N) (rs : list Captured) (evs : list CaptureEvent) : Prop := {
  rj_pre : Forall2 (pre_event dev) rs (List.filter is_pre evs);
  rj_unlink r : r ∈ rs → ∃ e, e ∈ evs ∧ unlink_event dev r e;
  rj_all e : e ∈ evs → ∃ r, r ∈ rs ∧ (pre_event dev r e ∨ unlink_event dev r e);
}.

Lemma pre_event_is_pre dev r e : pre_event dev r e → is_pre e = true.
Proof. intros (_ & src & _ & Hk). unfold is_pre. by rewrite Hk. Qed.

Lemma unlink_event_not_pre dev r e : unlink_event dev r e → is_pre e = false.
Proof. intros (_ & i & k & m & _ & Hk). unfold is_pre. by rewrite Hk. Qed.

Lemma removal_events_journal dev rs evs : removal_events dev rs evs → removal_journal dev rs evs.
Proof.
  induction 1 as [|rs evs r e1 e2 _ [IH1 IH2 IH3] H1 H2].
  { split; [constructor|by intros r ?%not_elem_of_nil..]. }
  split.
  - rewrite List.filter_app. cbn [List.filter]. rewrite (pre_event_is_pre _ _ _ H1), (unlink_event_not_pre _ _ _ H2).
    apply Forall2_app; [done|]. constructor; [done|constructor].
  - intros r'. rewrite elem_of_app, list_elem_of_singleton. intros [(e & He & Hu)%IH2| ->]; [exists e|exists e2]; set_solver.
  - intros e. rewrite elem_of_app. setoid_rewrite elem_of_app. setoid_rewrite list_elem_of_singleton.
    intros [(r' & ? & ?)%IH3|[->|[->|[]%elem_of_nil]%elem_of_cons]%elem_of_cons]; eauto 6.
Qed.

Lemma removal_journal_complete dev rs evs :
  removal_journal dev rs evs → Forall (λ e, e_partial e = false) evs.
Proof. intros [_ _ H]. apply Forall_forall. by intros e (r & _ & [[? _]|[? _]])%H. Qed.

Lemma removal_journal_pre dev rs evs (r : Captured) :
  removal_journal dev rs evs → r ∈ rs → ∃ e, e ∈ evs ∧ pre_event dev r e.
Proof.
  intros [H _ _] [k Hk]%list_elem_of_lookup. destruct (Forall2_lookup_l _ _ _ _ _ H Hk) as (e & He & Hp).
  exists e. split; [|done]. apply list_elem_of_lookup_2 in He. apply list_elem_of_In, filter_In in He as [He _].
  by apply list_elem_of_In.
Qed.

(** ** Classification *)

Lemma filter_perm {A} (p : A → bool) (l l' : list A) : l ≡ₚ l' → List.filter p l ≡ₚ List.filter p l'.
Proof.
  induction 1 as [|x l l' _ IH|x y l|l l' l'' _ IH1 _ IH2]; simpl; [done|by destruct (p x); rewrite IH| |by rewrite IH1].
  destruct (p x), (p y); auto using perm_swap.
Qed.

Lemma removal_journal_perm dev rs evs evs' :
  evs ≡ₚ evs' → removal_journal dev rs evs → ∃ rs', rs ≡ₚ rs' ∧ removal_journal dev rs' evs'.
Proof.
  intros Hp [H1 H2 H3]. apply Forall2_flip in H1.
  destruct (Permutation_Forall2 (filter_perm is_pre _ _ Hp) H1) as (rs' & Hrs & H1'). exists rs'. split; [done|].
  split; [by apply Forall2_flip in H1'|..].
  - intros r. rewrite <- Hrs. setoid_rewrite <- Hp. apply H2.
  - intros e. rewrite <- Hp. setoid_rewrite <- Hrs. apply H3.
Qed.

Section Scan.
Context (dev : N) (rs : list Captured) (evs : list CaptureEvent).
Hypothesis Hev : removal_journal dev rs evs.
Hypothesis Hino : NoDup (cp_ino <$> rs).

Lemma kinds (e : CaptureEvent) :
  e ∈ reverse evs → ∃ r, r ∈ rs ∧ (pre_event dev r e ∨ unlink_event dev r e).
Proof. rewrite elem_of_reverse. apply Hev. Qed.

Lemma scan_removals_creates : creates (scan (reverse evs)) = ∅.
Proof.
  apply set_eq. intros p. rewrite elem_of_creates. split; [|set_solver].
  intros (e & (r & _ & [(_ & ? & _ & Hk)|(_ & ? & ? & ? & _ & Hk)])%kinds & ? & ? & ? & Hc); congruence.
Qed.

Lemma scan_removals_renames : rename_destinations (scan (reverse evs)) = ∅.
Proof.
  apply set_eq. intros p. rewrite elem_of_rename_destinations. split; [|set_solver].
  intros (e & (r & _ & [(_ & ? & _ & Hk)|(_ & ? & ? & ? & _ & Hk)])%kinds & Hc);
    unfold ev_renames_to in Hc; destruct_ands; congruence.
Qed.

Lemma same_ino (r1 r2 : Captured) : r1 ∈ rs → r2 ∈ rs → cp_ino r1 = cp_ino r2 → r1 = r2.
Proof.
  clear Hev. intros H1 H2 Heq. apply list_elem_of_lookup in H1 as [i Hi], H2 as [j Hj].
  assert (i = j) as ->; [|congruence].
  eapply NoDup_lookup; [exact Hino|..]; rewrite list_lookup_fmap; [by rewrite Hi|].
  rewrite Hj. simpl. by rewrite Heq.
Qed.

Lemma scan_removals_groups (i : InodeRef) (X : gset PathBuf) :
  paths_by_inode (scan (reverse evs)) !! i = Some X → size X < 2.
Proof.
  intros HX. apply size_subsingleton. intros p q Hp Hq.
  pose proof (paths_by_inode_known _ _ _ HX) as Hkn.
  destruct (elem_of_paths_by_inode _ _ _ _ HX Hp) as (e1 & k1 & m1 & He1 & Hk1).
  destruct (elem_of_paths_by_inode _ _ _ _ HX Hq) as (e2 & k2 & m2 & He2 & Hk2).
  apply kinds in He1 as (r1 & Hr1 & [(_ & ? & _ & H1)|(_ & i1 & ? & ? & Hi1 & H1)]); [congruence|].
  apply kinds in He2 as (r2 & Hr2 & [(_ & ? & _ & H2)|(_ & i2 & ? & ? & Hi2 & H2)]); [congruence|].
  assert (r1 = r2) as -> by (apply same_ino; naive_solver congruence). congruence.
Qed.

Lemma classify_removals (ord : HashOrder InodeRef (gset PathBuf)) (probe : StateProbe) :
  let class := classify ord (reverse evs) probe in
  (∀ r, r ∈ rs → cp_path r ∈ atomic_replace_paths class ∧ cp_path r ∉ transient_paths class)
  ∧ hardlink_live_paths class = ∅ ∧ hardlink_dead_to_source class = ∅.
Proof.
  cbn zeta. unfold classify, classify_replace_paths.
  rewrite hardlinks_small by apply scan_removals_groups.
  cbn [set_paired atomic_replace_paths transient_paths hardlink_live_paths
       hardlink_dead_to_source]. split_and!; [|done|done]. intros r Hr.
  destruct (removal_journal_pre dev rs evs r Hev Hr) as (e1 & He1 & _ & src & Hsh & Hk1).
  destruct (rj_unlink _ _ _ Hev r Hr) as (e2 & He2 & _ & i & k & m & _ & Hk2).
  assert (cp_path r ∈ atomic_of (scan (reverse evs)) probe) as Ha.
  { class_simpl. right. rewrite scan_removals_creates, scan_removals_renames.
    rewrite not_hardlink_dead by apply scan_removals_groups.
    rewrite elem_of_unlinks, elem_of_pre_images. split_and!; [| |set_solver..|done].
    - exists e2. rewrite elem_of_reverse. split; [done|]. unfold ev_unlinks. eauto.
    - exists e1. rewrite elem_of_reverse. split; [done|]. unfold ev_pre_image. eauto 10. }
  split; [done|]. intros Ht. by eapply atomic_transient_disjoint.
Qed.

End Scan.

Section Undo.
Context (syn : Network.NetSynth) (ord : HashOrder InodeRef (gset PathBuf)).
Context (hash : bytes → BlobHash) (store : PlannerStore).
Context (read_blob : BlobHash → bytes + Msg) (router : PrivilegedOpRouter).
Context (may_chown : FS → PathBuf → N → N → bool) (tmp_name : string) (os : Os).

Let rt : Runtime FS := file_runtime read_blob router may_chown tmp_name os hash.

(** A captured file that is gone, in a directory that is not, is restored
    without conflict. *)
Lemma emit_removed (dev : N) (r : Captured) (e : CaptureEvent) (class : EventClassification)
    (fs : FS) :
  pre_event dev r e →
  cp_path r ∈ atomic_replace_paths class → cp_path r ∉ transient_paths class →
  hardlink_live_paths class = ∅ → hardlink_dead_to_source class = ∅ →
  find fs (cp_path r) = None → cp_par r ≠ [] → is_dir fs (cp_par r) = true →
  is_Some (blob_size_hint store (cp_blob r)) →
  (λ n, (n_op n, n_conflict n)) <$> (emit_or_skip syn (live_probe hash fs) store class e).1 =
  restore_ops dev (λ _, None) r.
Proof.
  intros (_ & src & Hsh & Hk) Ha Ht El Ed Hf Hpar Hd [sz Hb].
  unfold emit_or_skip, skipped, event_path. rewrite Hk, El.
  rewrite (bool_decide_eq_false_2 _ Ht), bool_decide_eq_false_2 by set_solver. cbn [orb andb].
  unfold emit_for_event, emit_file_pre_image. rewrite Hk, Hsh, Ed, lookup_empty.
  rewrite bool_decide_eq_false_2 by (by intros [? ?]).
  assert (pre_image_conflict (mkInode dev (cp_ino r)) (cp_path r) (live_probe hash fs) class = None)
    as ->.
  { unfold pre_image_conflict. rewrite bool_decide_eq_true_2 by done. simpl. rewrite Hf. simpl.
    unfold parent_alive, nonempty_parent. unfold cp_path. rewrite parent_snoc. unfold path_is_empty.
    rewrite bool_decide_eq_false_2 by done. unfold exists_. simpl.
    apply is_dir_view in Hd as (dn & (di & ->)%view_find & _). done. }
  unfold blob_conflict. by rewrite Hb.
Qed.

Lemma emit_unlinked (dev : N) (r : Captured) (e : CaptureEvent) (class : EventClassification)
    (probe : StateProbe) :
  unlink_event dev r e → cp_path r ∈ atomic_replace_paths class →
  (emit_or_skip syn probe store class e).1 = [].
Proof.
  intros (_ & i & k & m & _ & Hk) Ha. unfold emit_or_skip. destruct (skipped e class); [done|].
  unfold emit_for_event, emit_for_tree_op, emit_unlink. by rewrite Hk, bool_decide_eq_true_2.
Qed.

(** The snapshots come out as restores, the newest first; the unlinks add nothing. *)
Lemma emit_removals (dev : N) (all rs : list Captured) (evs : list CaptureEvent) (class : EventClassification) (fs : FS) :
  Forall2 (pre_event dev) rs (List.filter is_pre evs) →
  (∀ e, e ∈ evs → ∃ r, r ∈ all ∧ (pre_event dev r e ∨ unlink_event dev r e)) →
  (∀ r, r ∈ all → cp_path r ∈ atomic_replace_paths class) →
  (∀ r e, r ∈ rs → pre_event dev r e →
     (λ n, (n_op n, n_conflict n)) <$> (emit_or_skip syn (live_probe hash fs) store class e).1
     = restore_ops dev (λ _, None) r) →
  (λ n, (n_op n, n_conflict n))
    <$> concat (fst <$> (emit_or_skip syn (live_probe hash fs) store class <$> reverse evs))
  = concat (restore_ops dev (λ _, None) <$> reverse rs).
Proof.
  revert rs. induction evs as [|e evs IH] using rev_ind; intros rs Hpre Hall Hat Hem.
  { cbn in Hpre. by inversion_clear Hpre. }
  rewrite reverse_snoc. cbn [fmap list_fmap concat]. rewrite fmap_app. rewrite List.filter_app in Hpre. cbn [List.filter] in Hpre.
  destruct (is_pre e) eqn:Hp.
  - apply Forall2_app_inv_r in Hpre as (rs0 & l & Hpre & Hl & ->). inversion Hl as [|r ? ? ? He Hn]; subst.
    inversion Hn; subst. rewrite reverse_snoc. cbn [fmap list_fmap concat].
    rewrite (Hem r e) by (exact He || set_solver). f_equal. apply IH; [done|..]; intros; [apply Hall|apply Hat|apply Hem]; set_solver.
  - rewrite app_nil_r in Hpre. destruct (Hall e) as (r & Hr & [He|He]); [set_solver|by rewrite (pre_event_is_pre _ _ _ He) in Hp|].
    rewrite (emit_unlinked dev r e) by auto. apply IH; [done|..]; intros; [apply Hall|apply Hat|apply Hem]; set_solver.
Qed.

Lemma plan_removals (command : CommandRecord) (evs : list CaptureEvent) (rs : list Captured)
    (dev : N) (fs : FS) :
  refuse_plan command = None → chronological evs → removal_journal dev rs evs →
  NoDup (cp_ino <$> rs) →
  (∀ r, r ∈ rs → find fs (cp_path r) = None ∧ cp_par r ≠ [] ∧ is_dir fs (cp_par r) = true
     ∧ is_Some (blob_size_hint store (cp_blob r))) →
  Forall2 (λ n x, n_op n = x.1 ∧ n_conflict n = x.2)
    (p_nodes (plan syn ord command evs (live_probe hash fs) store))
    (concat (restore_ops dev (λ _, None) <$> reverse rs)).
Proof.
  intros Hrf Hc Hev Hino Hr. apply nodes_of_ops. unfold plan. rewrite Hrf. cbn [p_nodes].
  rewrite reverse_order by (done || by eapply removal_journal_complete).
  rewrite Cohort.assign_cohorts_ops.
  destruct (classify_removals dev rs evs Hev Hino ord (live_probe hash fs)) as (Hcl & El & Ed).
  eapply emit_removals; [apply Hev|apply Hev|by apply Hcl|]. intros r e Hin He.
  destruct (Hcl r Hin) as [Ha Ht]. destruct (Hr r Hin) as (Hf & Hp & Hd & Hb). by apply emit_removed.
Qed.

(** A regular file the command removed: in an existing directory, with no
    entry of the temporary name beside it. *)
Definition removable (fs : FS) (r : Captured) : Prop :=
  cp_par r ≠ [] ∧ RootDir ∉ tail (cp_par r) ∧ is_dir fs (cp_par r) = true
  ∧ find fs (cp_path r) = Some (cp_ino r, cp_node r)
  ∧ names fs !! (cp_par r ++ [Normal tmp_name]) = None ∧ cp_name r ≠ tmp_name.

Lemma removed_restorable (fs fs' : FS) (rs : list Captured) (r : Captured) :
  wf fs → removals fs rs fs' →
  (∀ r, r ∈ rs → removable fs r ∧ recoverable store read_blob may_chown os r) → r ∈ rs →
  restorable tmp_name fs' (cp_par r) (cp_name r).
Proof.
  intros Hwf Hrm Hall Hr. destruct (removals_spec fs fs' rs Hwf Hrm) as (Hwf' & _ & Hgone & Hother).
  destruct (Hall r Hr) as [(Hp & Hroot & Hd & _ & Htmp & Hne) _].
  assert (names fs' !! cp_path r = None) as Hg by (apply Hgone; by apply list_elem_of_fmap_2).
  split_and!; auto.
  - rewrite <- Hd. apply is_dir_find, Hother. intros (r' & Heq & Hr')%list_elem_of_fmap.
    destruct (Hall r' Hr') as [(_ & _ & _ & Hf & _) ((Hk & _) & _)].
    unfold is_dir, view in Hd. rewrite Heq, Hf in Hd. simpl in Hd.
    apply bool_decide_eq_true in Hd. congruence.
  - unfold is_dir, view. fold (cp_path r). by rewrite (proj2 (find_None fs' _ Hwf') Hg).
  - apply find_None; [done|]. rewrite Hother; [by apply find_None|].
    intros (r' & Heq & Hr')%list_elem_of_fmap. unfold cp_path in Heq.
    apply app_inj_tail in Heq as [_ [= Heq]].
    destruct (Hall r' Hr') as [(_ & _ & _ & _ & _ & Hne') _]. congruence.
Qed.

Lemma removed_unplanned (fs fs' : FS) (rs : list Captured) (r : Captured) :
  wf fs → removals fs rs fs' →
  (∀ r, r ∈ rs → removable fs r ∧ recoverable store read_blob may_chown os r) → r ∈ rs →
  find fs' (cp_path r) = None ∧ cp_par r ≠ [] ∧ is_dir fs' (cp_par r) = true
  ∧ is_Some (blob_size_hint store (cp_blob r)).
Proof.
  intros Hwf Hrm Hall Hr. destruct (removals_spec fs fs' rs Hwf Hrm) as (Hwf' & _ & Hgone & _).
  destruct (Hall r Hr) as [(Hp & _) (_ & Hb & _)].
  destruct (removed_restorable fs fs' rs r Hwf Hrm Hall Hr) as (_ & _ & _ & Hd & _). split_and!; auto.
  apply find_None; [done|]. apply Hgone. by apply list_elem_of_fmap_2.
Qed.

(** Undoing removals, in whatever order the journal has them. *)
Lemma run_any_removals (command : CommandRecord) (evs : list CaptureEvent)
    (rs rs' : list Captured) (fs fs' : FS) :
  wf fs → removals fs rs fs' →
  (∀ r, r ∈ rs → removable fs r ∧ recoverable store read_blob may_chown os r) →
  NoDup (cp_path <$> rs) → NoDup (cp_ino <$> rs) → rs ≡ₚ rs' →
  refuse_plan command = None → chronological evs → removal_journal (device fs) rs' evs →
  ∃ recs fs2, undo syn ord hash store read_blob router may_chown tmp_name os command evs fs' =
      (mkReport (from_plan (plan syn ord command evs (live_probe hash fs') store)) recs false
         ConflictPolicy.Abort, fs2)
    ∧ all_applied recs = true ∧ wf fs2 ∧ ∀ q, view fs2 q = view fs q.
Proof.
  intros Hwf Hrm Hall Hnp Hni Hpe Hrf Hc Hev.
  destruct (removals_spec fs fs' rs Hwf Hrm) as (Hwf' & _ & Hgone & Hother).
  assert (Hin : ∀ r, r ∈ reverse rs' → r ∈ rs) by (intros r; by rewrite elem_of_reverse, Hpe).
  unfold undo, run. fold rt.
  destruct (run_captured hash store read_blob router may_chown tmp_name os (device fs) (λ _, None) (reverse rs')) with (nodes := p_nodes (plan syn ord command evs
    (live_probe hash fs') store)) (i := 0) (fs := fs') as (recs & fs2 & Hrun & Ho & _ & Hw2 & Hv); auto.
  - by rewrite fmap_reverse, reverse_Permutation, <- Hpe.
  - intros r Hr. by destruct (Hall r (Hin r Hr)).
  - intros r Hr. by apply (removed_restorable fs fs' rs r Hwf Hrm Hall), Hin.
  - apply plan_removals; [done..|by rewrite <- Hpe|]. intros r Hr. rewrite <- Hpe in Hr.
    by apply (removed_unplanned fs fs' rs r).
  - fold rt in Hrun. exists recs, fs2. rewrite Hrun. destruct Hv as [Ha Hv]; [done|].
    split_and!; [done..|]. intros q.
    destruct (decide (q ∈ cp_path <$> rs)) as [(r & -> & Hr)%list_elem_of_fmap|Hq].
    + rewrite Hv by (by rewrite elem_of_reverse, <- Hpe). destruct (Hall r Hr) as [(_ & _ & _ & Hf & _) _].
      unfold view. by rewrite Hf.
    + unfold view. rewrite Ho, Hother; [done..|]. by rewrite fmap_reverse, elem_of_reverse, <- Hpe.
Qed.

(** Undo of [rm] gives the files back: after a command unlinked any
    number of regular files (distinct, not linked to one another) whose
    content was captured, planning the undo against the live file system and
    running it without forcing applies every step, and every name of the file
    system shows exactly what it showed before the command: content,
    permission bits with the set-id bits, owner, time and extended attributes
    of each removed file, and every other name untouched. *)
Theorem undo_rm_restores (command : CommandRecord) (evs : list CaptureEvent)
    (rs : list Captured) (fs fs' : FS) :
  wf fs → removals fs rs fs' →
  (∀ r, r ∈ rs → removable fs r ∧ recoverable store read_blob may_chown os r) →
  NoDup (cp_path <$> rs) → NoDup (cp_ino <$> rs) →
  refuse_plan command = None → chronological evs → removal_events (device fs) rs evs →
  let res := undo syn ord hash store read_blob router may_chown tmp_name os command evs fs' in
  fully_applied res.1 = true ∧ ∀ q, view res.2 q = view fs q.
Proof.
  intros Hwf Hrm Hall Hnp Hni Hrf Hc Hev%removal_events_journal.
  destruct (run_any_removals command evs rs rs fs fs') as (recs & fs2 & -> & Ha & _ & Hv); [done..|].
  split; [by apply all_applied_fully|done].
Qed.

End Undo.

(** ** [rm f g] *)

Definition ex_gone : FS :=
  set_names (set_names ex_two_fs (delete (path_of_string "/w/f") (names ex_two_fs)))
    (delete (path_of_string "/w/g") (delete (path_of_string "/w/f") (names ex_two_fs))).

Definition ex_rm_event (k : N) (r : Captured) : list CaptureEvent :=
  [ex_event k (CaptureEventKind.FilePreImage (mkInode 1 (cp_ino r)) (cp_path r) (cp_blob r)
     (captured_meta (cp_node r)) None FilePreImageSource.EsAuthPreMutation);
   ex_event (k + 1) (CaptureEventKind.TreeOp (TreeOp.Unlink (mkInode 1 (cp_ino r)) (cp_path r)
     FileKind.Regular 420))].

Definition ex_rm_events : list CaptureEvent :=
  concat (zip_with ex_rm_event [1; 3]%N ex_rs).

Lemma ex_removals : removals ex_two_fs ex_rs ex_gone.
Proof.
  apply (removals_snoc ex_two_fs (take 1 ex_rs)
    (set_names ex_two_fs (delete (path_of_string "/w/f") (names ex_two_fs)))
    (mkCaptured (path_of_string "/w") "g" 4 ex_other (ex_hash 2))); [|vm_compute; reflexivity].
  apply (removals_snoc ex_two_fs [] ex_two_fs
    (mkCaptured (path_of_string "/w") "f" 3 ex_file (ex_hash 1))); [constructor|].
  vm_compute. reflexivity.
Qed.

Lemma ex_rm_recorded : removal_events (device ex_two_fs) ex_rs ex_rm_events.
Proof.
  apply (removal_events_snoc 1 (take 1 ex_rs) (take 2 ex_rm_events)
    (mkCaptured (path_of_string "/w") "g" 4 ex_other (ex_hash 2))).
  - apply (removal_events_snoc 1 [] []
      (mkCaptured (path_of_string "/w") "f" 3 ex_file (ex_hash 1))); [constructor|..];
      (split; [reflexivity|]); repeat eexists; first [by left|reflexivity].
  - split; [reflexivity|]. repeat eexists; first [by left|reflexivity].
  - split; [reflexivity|]. repeat eexists; first [by left|reflexivity].
Qed.

Lemma ex_rs_ok (r : Captured) :
  r ∈ ex_rs → removable ".shit-tmp-1" ex_two_fs r ∧ recoverable ex_two_store ex_two_read ex_may Linux r.
Proof.
  intros [->|[->|[]%elem_of_nil]%elem_of_cons]%elem_of_cons.
  - split.
    + split_and!; try (vm_compute; reflexivity); try discriminate.
      apply (bool_decide_unpack _). vm_compute. exact I.
    + apply ex_rs_recoverable. left.
  - split.
    + split_and!; try (vm_compute; reflexivity); try discriminate.
      apply (bool_decide_unpack _). vm_compute. exact I.
    + apply ex_rs_recoverable. right. left.
Qed.

Lemma undo_rm_restores_witness :
  view ex_gone (path_of_string "/w/f") = None
  ∧ view (undo no_synth map_order ex_digest ex_two_store ex_two_read NoOpPrivilegedOpRouter ex_may
      ".shit-tmp-1" Linux (ex_cmd "rm f g") ex_rm_events ex_gone).2 (path_of_string "/w/f")
    = Some ex_file.
Proof.
  split; [vm_compute; reflexivity|].
  transitivity (view ex_two_fs (path_of_string "/w/f")); [|vm_compute; reflexivity].
  refine (proj2 (undo_rm_restores no_synth map_order ex_digest ex_two_store ex_two_read
    NoOpPrivilegedOpRouter ex_may ".shit-tmp-1" Linux (ex_cmd "rm f g") ex_rm_events ex_rs
    ex_two_fs ex_gone ex_two_fs_wf ex_removals ex_rs_ok _ _ _ _ ex_rm_recorded) _).
  - apply (bool_decide_unpack _). vm_compute. exact I.
  - apply (bool_decide_unpack _). vm_compute. exact I.
  - vm_compute. reflexivity.
  - split; [unfold unique_ids; apply (bool_decide_unpack _); vm_compute; exact I|].
    repeat constructor.
Defined.

End Removals.
