(* ===== verification/Moves.v ===== *)
(** * Sequences of moves

    A command that renames any number of files and directories, each to a
    name that is free at its turn: undo gives back the very same file system,
    and the redo plan is the renames again. *)

From S2P Require Import Prelude Paths Base Events Inverse Refuse Cohort.
From S2P Require Import Probe Classify FlagPairs Network Plan PlanForward Executor Orchestrator.
From S2P Require Import PlanFacts Fs FileExec FileFacts Undo.

Module Moves.
Import Classify Plan PlanForward Executor Orchestrator PlanFacts Fs FileExec FileFacts Undo.

(** ** Commands that only move *)

(** One rename to a free, well-shaped name. *)
Definition move_step (fs : FS) (m : PathBuf * PathBuf) (fs' : FS) : Prop :=
  is_Some (parent m.1) ∧ m.2 ≠ [] ∧ RootDir ∉ tail m.2 ∧ names fs !! m.2 = None
  ∧ rename fs m.1 m.2 = inl fs'.

Inductive moves (fs : FS) : list (PathBuf * PathBuf) → FS → Prop :=
  | moves_nil : moves fs [] fs
  | moves_snoc ms fs1 m fs2 :
      moves fs ms fs1 → move_step fs1 m fs2 → moves fs (ms ++ [m]) fs2.

Lemma parent_nonempty (p : PathBuf) : is_Some (parent p) → p ≠ [].
Proof. intros [q Hq] ->. discriminate Hq. Qed.

Lemma move_step_inv (fs fs' : FS) (a b : PathBuf) :
  wf fs → move_step fs (a, b) fs' →
  wf fs' ∧ is_Some (find fs a) ∧ find fs b = None
  ∧ find fs' a = None ∧ is_Some (find fs' b) ∧ rename fs' b a = inl fs.
Proof.
  intros Hwf (Hpa & Hbn & Hs & Hb & Hmv). cbn [fst snd] in *.
  pose proof (parent_nonempty _ Hpa) as Ha. destruct Hpa as [par Hpar].
  destruct (rename_inv fs fs' a b Hwf Ha Hbn Hb Hmv) as [Hm ->].
  assert (∃ i n, find fs a = Some (i, n)) as (i & n & Hfa).
  { unfold rename in Hmv. destruct (find fs a) as [[i n]|] eqn:E; [eauto|done]. }
  pose proof Hfa as [Hi _]%find_Some.
  assert (check_parent fs b = None) as Hcp.
  { unfold rename in Hmv. rewrite Hfa in Hmv. by destruct (check_parent fs b). }
  destruct (rename_back fs a b par i Hwf Hpar Hm Hi Hb) as (H1 & H2 & H3).
  split_and!; [by apply wf_rename|rewrite Hfa; eauto|by apply find_None|done|done|done].
Qed.

Lemma moves_wf (fs fs' : FS) ms : wf fs → moves fs ms fs' → wf fs'.
Proof.
  intros Hwf. induction 1 as [|ms fs1 [a b] fs2 _ IH Hst]; [done|].
  by destruct (move_step_inv fs1 fs2 a b IH Hst).
Qed.

(** The events of the moves, in order. *)
Definition move_event (m : PathBuf * PathBuf) (e : CaptureEvent) : Prop :=
  e_partial e = false ∧ ∃ inode, e_kind e = CaptureEventKind.TreeOp (TreeOp.Rename m.1 m.2 inode).

Section Moves.
Context (syn : Network.NetSynth) (ord : HashOrder InodeRef (gset PathBuf)).
Context (hash : bytes → BlobHash) (store : PlannerStore).
Context (read_blob : BlobHash → bytes + Msg) (router : PrivilegedOpRouter).
Context (may_chown : FS → PathBuf → N → N → bool) (tmp_name : string) (os : Os).

Let rt : Runtime FS := file_runtime read_blob router may_chown tmp_name os hash.

(** ** The plans *)

Lemma scan_moves (evs : list CaptureEvent) :
  Forall (λ e, ∃ m, move_event m e) evs → pre_images (scan evs) = ∅ ∧ unlinks (scan evs) = ∅.
Proof.
  intros Hall. rewrite Forall_forall in Hall. split; apply set_eq; intros p.
  - rewrite elem_of_pre_images. split; [|set_solver].
    intros (ev & (m & _ & i & Hk)%Hall & Hp). unfold ev_pre_image in Hp. destruct_ands. congruence.
  - rewrite elem_of_unlinks. split; [|set_solver].
    intros (ev & (m & _ & i & Hk)%Hall & Hp). unfold ev_unlinks in Hp. destruct_ands. congruence.
Qed.

Lemma atomic_moves (evs : list CaptureEvent) (probe : StateProbe) :
  Forall (λ e, ∃ m, move_event m e) evs →
  atomic_replace_paths (classify ord evs probe) = ∅.
Proof.
  intros [Hp Hu]%scan_moves. unfold classify, classify_replace_paths.
  destruct (hardlinks ord (scan evs) probe). cbn [set_paired atomic_replace_paths].
  apply set_eq. intros q. class_simpl. rewrite Hp, Hu. unfold replace_verdict. rewrite Hu.
  rewrite bool_decide_eq_false_2 by set_solver. simpl. set_solver.
Qed.

(** The undo plan: each rename back, the last first, without conflict. *)
Lemma plan_moves (command : CommandRecord) (evs : list CaptureEvent)
    (ms : list (PathBuf * PathBuf)) (probe : StateProbe) :
  refuse_plan command = None → chronological evs → Forall2 move_event ms evs →
  Forall2 (λ n x, n_op n = x.1 ∧ n_conflict n = x.2)
    (p_nodes (plan syn ord command evs probe store))
    ((λ m, (InverseOp.Rename m.2 m.1, None)) <$> reverse ms).
Proof.
  intros Hrf Hc Hev. apply nodes_of_ops. unfold plan. rewrite Hrf. cbn [p_nodes].
  assert (Forall (λ e, e_partial e = false) evs).
  { clear Hc. induction Hev as [|m e ? ? [? _]]; constructor; auto. }
  rewrite reverse_order, Cohort.assign_cohorts_ops by done.
  assert (Hall : Forall (λ e, ∃ m, move_event m e) (reverse evs)).
  { apply Forall_reverse. clear -Hev. induction Hev; constructor; eauto. }
  pose proof (atomic_moves (reverse evs) probe Hall) as Hat.
  set (class := classify ord (reverse evs) probe) in *.
  clearbody class. apply Forall2_reverse in Hev. clear Hall Hc.
  revert Hev. generalize (reverse ms), (reverse evs). intros ms' evs' Hev.
  induction Hev as [|m e ms' evs' [_ [i Hk]] _ IH]; [done|].
  assert (emit_or_skip syn probe store class e = ([node (InverseOp.Rename m.2 m.1) None], []))
    as Hem.
  { unfold emit_or_skip, skipped, event_path, emit_for_event. rewrite Hk.
    unfold emit_for_tree_op. by rewrite Hat, bool_decide_eq_false_2 by set_solver. }
  rewrite !fmap_cons, Hem. cbn [concat fst snd app]. rewrite fmap_cons. f_equal. apply IH.
Qed.

(** The redo plan: the renames again, in order, each marked when its source is
    missing. *)
Theorem plan_forward_moves (command : CommandRecord) (evs : list CaptureEvent)
    (ms : list (PathBuf * PathBuf)) (probe : StateProbe) :
  chronological evs → Forall2 move_event ms evs →
  Forall2 (λ n x, n_op n = x.1 ∧ n_conflict n = x.2)
    (p_nodes (plan_forward syn command evs probe store))
    ((λ m, (InverseOp.Rename m.1 m.2, phantom_if_missing m.1 probe)) <$> ms).
Proof.
  intros Hc Hev. apply nodes_of_ops. unfold plan_forward. cbn [p_nodes].
  assert (live_events evs = evs) as ->.
  { apply live_complete. clear Hc. induction Hev as [|m e ? ? [? _]]; constructor; auto. }
  rewrite forward_chronological by done. rewrite Cohort.assign_cohorts_ops.
  generalize (FlagPairs.paired_flags_shim_events evs). intros paired. clear Hc.
  induction Hev as [|m e ms' evs' [_ [i Hk]] _ IH]; [done|].
  assert (emit_forward_for_event syn e probe paired =
    ([node (InverseOp.Rename m.1 m.2) (phantom_if_missing m.1 probe)], [])) as Hem
    by (unfold emit_forward_for_event; by rewrite Hk).
  rewrite !fmap_cons, Hem. cbn [concat fst snd app].
  rewrite fmap_cons. f_equal. apply IH.
Qed.

(** ** The runs *)

(** One rename of a plan, executed where its source exists and its target
    does not. *)
Lemma run_from_rename (i : nat) (n : PlanNode) (nodes : list PlanNode) (a b : PathBuf)
    (fs fs' : FS) :
  n_op n = InverseOp.Rename a b → soft (n_conflict n) →
  is_Some (find fs a) → find fs b = None → rename fs a b = inl fs' →
  run_from rt None i (n :: nodes) false ConflictPolicy.Abort fs =
  let '(recs, fs'') := run_from rt None (S i) nodes false ConflictPolicy.Abort fs' in
  (mkRecord i (InverseOp.Rename a b) InverseTier.Files OutcomeKind.Applied None :: recs, fs'').
Proof.
  intros Ho Hc [x Ha] Hb Hr. destruct n as [op c cf]. cbn [n_op n_conflict] in *. subst op.
  apply run_from_soft_step; [done|done| |].
  - cbn. unfold exists_. cbn [stat live_probe]. by rewrite Ha, Hb.
  - unfold file_execute. by rewrite Hr.
Qed.

Lemma run_moves_back (fs fs' : FS) (ms : list (PathBuf * PathBuf)) (nodes : list PlanNode)
    (i : nat) :
  wf fs → moves fs ms fs' →
  Forall2 (λ n x, n_op n = x.1 ∧ n_conflict n = x.2) nodes
    ((λ m, (InverseOp.Rename m.2 m.1, None)) <$> reverse ms) →
  ∃ recs, run_from rt None i nodes false ConflictPolicy.Abort fs' = (recs, fs)
    ∧ all_applied recs = true.
Proof.
  intros Hwf Hmv. revert nodes i.
  induction Hmv as [|ms fs1 [a b] fs2 Hmv IH Hst]; intros nodes i Hn.
  { inversion Hn. subst. by exists []. }
  rewrite reverse_snoc, fmap_cons in Hn. inversion Hn as [|n x nodes' l [Ho Hc] Hn']. subst.
  cbn [fst snd] in Ho, Hc.
  pose proof (moves_wf fs fs1 ms Hwf Hmv) as Hwf1.
  destruct (move_step_inv fs1 fs2 a b Hwf1 Hst) as (_ & _ & _ & Hfa & Hfb & Hback).
  destruct (IH nodes' (S i) Hn') as (recs & Hrun & Happ).
  eexists (_ :: recs). rewrite (run_from_rename i n nodes' b a fs2 fs1); try done.
  - rewrite Hrun. split; [done|]. simpl. by rewrite Happ.
  - rewrite Hc. by intros d.
Qed.

(** C17. Undo of moves gives the very same file system back: after a command
    renamed any number of files and whole directories, each to a name free
    at its turn (a swap through a third name included), planning and running
    the undo applies every step, the last move first, and leaves exactly the
    names and inodes there were before the command. *)
Theorem undo_moves_restores (command : CommandRecord) (evs : list CaptureEvent)
    (ms : list (PathBuf * PathBuf)) (fs fs' : FS) :
  wf fs → moves fs ms fs' → refuse_plan command = None →
  chronological evs → Forall2 move_event ms evs →
  let res := undo syn ord hash store read_blob router may_chown tmp_name os command evs fs' in
  fully_applied res.1 = true ∧ res.2 = fs.
Proof.
  intros Hwf Hmv Hrf Hc Hev. unfold undo, run. fold rt.
  destruct (run_moves_back fs fs' ms _ 0 Hwf Hmv
    (plan_moves command evs ms (live_probe hash fs') Hrf Hc Hev)) as (recs & -> & Ha).
  split; [by apply all_applied_fully|done].
Qed.

End Moves.

(** ** A chain of moves *)

Definition ex_chain : list (PathBuf * PathBuf) :=
  [(path_of_string "/w/f", path_of_string "/w/t"); (path_of_string "/w", path_of_string "/v");
   (path_of_string "/v/t", path_of_string "/g")].

Definition ex_chain_events : list CaptureEvent :=
  imap (λ k m, ex_event (N.of_nat (S k)) (CaptureEventKind.TreeOp
    (TreeOp.Rename m.1 m.2 (mkInode 1 3)))) ex_chain.

Definition ex_moved (fs : FS) (m : PathBuf * PathBuf) : FS :=
  set_names fs (move_tree (names fs) m.1 m.2).

Definition ex_relocated : FS := foldl ex_moved ex_fs ex_chain.

Lemma ex_move_step (fs : FS) (m : PathBuf * PathBuf) :
  is_Some (parent m.1) → bool_decide (m.2 = []) = false →
  bool_decide (RootDir ∉ tail m.2) = true → names fs !! m.2 = None →
  rename fs m.1 m.2 = inl (ex_moved fs m) → move_step fs m (ex_moved fs m).
Proof.
  intros ? ?%bool_decide_eq_false ?%bool_decide_eq_true ? ?. by split_and!.
Qed.

Lemma ex_chain_moves : moves ex_fs ex_chain ex_relocated.
Proof.
  apply (moves_snoc ex_fs (take 2 ex_chain) (foldl ex_moved ex_fs (take 2 ex_chain))
    (path_of_string "/v/t", path_of_string "/g")).
  apply (moves_snoc ex_fs (take 1 ex_chain) (foldl ex_moved ex_fs (take 1 ex_chain))
    (path_of_string "/w", path_of_string "/v")).
  apply (moves_snoc ex_fs [] ex_fs (path_of_string "/w/f", path_of_string "/w/t")).
  { constructor. }
  all: apply ex_move_step; [eexists; reflexivity|vm_compute; reflexivity..].
Qed.

Lemma ex_chain_chronological : chronological ex_chain_events.
Proof.
  split.
  - unfold unique_ids. apply (bool_decide_unpack _). vm_compute. exact I.
  - repeat constructor.
Qed.

Lemma ex_chain_recorded : Forall2 move_event ex_chain ex_chain_events.
Proof. repeat constructor; eexists; reflexivity. Qed.

Lemma undo_moves_restores_witness :
  view ex_relocated (path_of_string "/g") = Some ex_file
  ∧ (ex_undo (ex_cmd "mv f t; mv w v; mv v/t g") ex_chain_events ex_relocated).2 = ex_fs.
Proof.
  split; [vm_compute; reflexivity|].
  refine (proj2 (undo_moves_restores no_synth map_order ex_digest ex_store ex_read
    NoOpPrivilegedOpRouter ex_may ".shit-tmp-1" Linux (ex_cmd "mv f t; mv w v; mv v/t g")
    ex_chain_events ex_chain ex_fs ex_relocated ex_fs_wf ex_chain_moves _
    ex_chain_chronological ex_chain_recorded)).
  vm_compute. reflexivity.
Defined.

End Moves.
