(* ===== verification/Frame.v ===== *)
(** * Wire frames

    [frame.rs] of [shit-proto]: a big-endian length, a version byte and a
    [postcard] payload, with the size caps of the two paths. The codec is a
    parameter; a panic of [expect] is [None]. *)

From Stdlib Require Import NArith.
From S2P Require Import Prelude Base.

Module Frame.

Definition WIRE_VERSION : N := 1.
Definition MAX_FRAME_SIZE : N := 256 * 1024.
Definition MAX_LARGE_FRAME_SIZE : N := 64 * 1024 * 1024.

(** [Vec<u8>]: each element below 256. *)
Abbreviation frame_bytes := (list N).

Definition is_bytes (l : frame_bytes) : Prop := Forall (λ b, (b < 256)%N) l.

Definition len {A} (l : list A) : N := N.of_nat (length l).

Inductive EncodeError (E : Type) :=
  | EncPostcard (e : E)
  | EncTooLarge (got : N).
Arguments EncPostcard {E} _.
Arguments EncTooLarge {E} _.

Inductive DecodeError (E : Type) :=
  | Truncated (got : N)
  | LengthMismatch (declared actual : N)
  | UnsupportedVersion (version : N)
  | DecPostcard (e : E)
  | DecTooLarge (got : N).
Arguments Truncated {E} _.
Arguments LengthMismatch {E} _ _.
Arguments UnsupportedVersion {E} _.
Arguments DecPostcard {E} _.
Arguments DecTooLarge {E} _.

(** [u32::try_from], [to_be_bytes] and [from_be_bytes]. *)
Definition u32_try_from (n : N) : option N := if bool_decide (n < 2 ^ 32)%N then Some n else None.

Definition to_be_bytes (n : N) : frame_bytes :=
  [n / 2 ^ 24 mod 256; n / 2 ^ 16 mod 256; n / 2 ^ 8 mod 256; n mod 256]%N.

Definition from_be_bytes (a b c d : N) : N := (a * 2 ^ 24 + b * 2 ^ 16 + c * 2 ^ 8 + d)%N.

Section Codec.
Context {T E : Type} (to_allocvec : T → frame_bytes + E) (from_bytes : frame_bytes → T + E).

Definition encode_frame_with_cap (msg : T) (cap : N) : option (frame_bytes + EncodeError E) :=
  match to_allocvec msg with
  | inr e => Some (inr (EncPostcard e))
  | inl payload =>
      let body_len := (1 + len payload)%N in
      let total_len := (4 + body_len)%N in
      if bool_decide (cap < total_len)%N then Some (inr (EncTooLarge total_len))
      else match u32_try_from body_len with
           | None => None
           | Some n => Some (inl (to_be_bytes n ++ [WIRE_VERSION] ++ payload))
           end
  end.

Definition encode_frame (msg : T) := encode_frame_with_cap msg MAX_FRAME_SIZE.
Definition encode_frame_large (msg : T) := encode_frame_with_cap msg MAX_LARGE_FRAME_SIZE.

Definition decode_frame_with_cap (buf : frame_bytes) (cap : N) : T + DecodeError E :=
  match buf with
  | b0 :: b1 :: b2 :: b3 :: version :: payload =>
      if bool_decide (cap < len buf)%N then inr (DecTooLarge (len buf))
      else
        let declared := from_be_bytes b0 b1 b2 b3 in
        let actual_body := (len buf - 4)%N in
        if negb (bool_decide (declared = actual_body)) then
          inr (LengthMismatch declared actual_body)
        else if negb (bool_decide (version = WIRE_VERSION)) then inr (UnsupportedVersion version)
        else match from_bytes payload with
             | inl msg => inl msg
             | inr e => inr (DecPostcard e)
             end
  | _ => inr (Truncated (len buf))
  end.

Definition decode_frame (buf : frame_bytes) := decode_frame_with_cap buf MAX_FRAME_SIZE.
Definition decode_frame_large (buf : frame_bytes) := decode_frame_with_cap buf MAX_LARGE_FRAME_SIZE.

(** ** Lemmas *)

Lemma be_roundtrip (n : N) : (n < 2 ^ 32)%N →
  from_be_bytes (n / 2 ^ 24 mod 256) (n / 2 ^ 16 mod 256) (n / 2 ^ 8 mod 256) (n mod 256) = n.
Proof.
  intros Hn. unfold from_be_bytes.
  pose proof (N.div_mod n (2 ^ 8)). pose proof (N.div_mod (n / 2 ^ 8) (2 ^ 8)).
  pose proof (N.div_mod (n / 2 ^ 16) (2 ^ 8)).
  assert (n / 2 ^ 16 = n / 2 ^ 8 / 2 ^ 8)%N by (by rewrite N.Div0.div_div).
  assert (n / 2 ^ 24 = n / 2 ^ 16 / 2 ^ 8)%N by (by rewrite N.Div0.div_div).
  assert (n / 2 ^ 24 < 256)%N by (apply N.Div0.div_lt_upper_bound; lia).
  rewrite (N.mod_small (n / 2 ^ 24)) by done. change 256%N with (2 ^ 8)%N in *. lia.
Qed.

Lemma be_injective (a b c d : N) :
  (a < 256)%N → (b < 256)%N → (c < 256)%N → (d < 256)%N →
  to_be_bytes (from_be_bytes a b c d) = [a; b; c; d].
Proof.
  intros Ha Hb Hc Hd. unfold to_be_bytes, from_be_bytes. repeat f_equal.
  - replace (a * 2 ^ 24 + b * 2 ^ 16 + c * 2 ^ 8 + d)%N
      with (b * 2 ^ 16 + c * 2 ^ 8 + d + a * 2 ^ 24)%N by lia.
    rewrite N.div_add by lia. rewrite (N.div_small (_ + _)) by lia. rewrite N.mod_small; lia.
  - replace (a * 2 ^ 24 + b * 2 ^ 16 + c * 2 ^ 8 + d)%N
      with (c * 2 ^ 8 + d + (a * 2 ^ 8 + b) * 2 ^ 16)%N by lia.
    rewrite N.div_add by lia. rewrite (N.div_small (_ + _)) by lia.
    rewrite N.add_0_l, N.add_comm, N.Div0.mod_add. apply N.mod_small. lia.
  - replace (a * 2 ^ 24 + b * 2 ^ 16 + c * 2 ^ 8 + d)%N
      with (d + (a * 2 ^ 16 + b * 2 ^ 8 + c) * 2 ^ 8)%N by lia.
    rewrite N.div_add by lia. rewrite (N.div_small d) by lia.
    replace (0 + (a * 2 ^ 16 + b * 2 ^ 8 + c))%N with (c + (a * 2 ^ 8 + b) * 256)%N by lia.
    rewrite N.Div0.mod_add. apply N.mod_small. lia.
  - replace (a * 2 ^ 24 + b * 2 ^ 16 + c * 2 ^ 8 + d)%N
      with (d + (a * 2 ^ 16 + b * 2 ^ 8 + c) * 256)%N by lia.
    rewrite N.Div0.mod_add. apply N.mod_small. lia.
Qed.

Lemma len_frame (n : N) (payload : frame_bytes) :
  len (to_be_bytes n ++ [WIRE_VERSION] ++ payload) = (5 + len payload)%N.
Proof. unfold len. simpl. lia. Qed.

(** What the two functions agree on: a complete frame around a payload. *)
Definition frame_of (payload : frame_bytes) : frame_bytes :=
  to_be_bytes (1 + len payload) ++ [WIRE_VERSION] ++ payload.

Lemma decode_frame_of (payload : frame_bytes) (cap : N) :
  (len (frame_of payload) ≤ cap)%N → (cap ≤ 2 ^ 32)%N →
  decode_frame_with_cap (frame_of payload) cap =
  match from_bytes payload with inl msg => inl msg | inr e => inr (DecPostcard e) end.
Proof.
  intros Hl Hc. unfold frame_of in *. rewrite len_frame in Hl.
  unfold decode_frame_with_cap, to_be_bytes at 1. cbn [app].
  change (to_be_bytes (1 + len payload) ++ WIRE_VERSION :: payload)
    with (to_be_bytes (1 + len payload) ++ [WIRE_VERSION] ++ payload).
  match goal with |- context [len ?b] =>
    replace (len b) with (5 + len payload)%N by (unfold len; simpl; lia) end.
  rewrite bool_decide_eq_false_2 by lia. rewrite be_roundtrip by lia.
  rewrite bool_decide_eq_true_2 by lia. done.
Qed.

(** Encoding is safe and complete for every cap up to 4 GiB, hence for
    both public functions: it never panics, a message whose frame fits the
    cap is framed, and one that does not is refused with its size. *)
Theorem encode_frame_total (msg : T) (payload : frame_bytes) (cap : N) :
  (cap ≤ 2 ^ 32)%N → to_allocvec msg = inl payload →
  encode_frame_with_cap msg cap =
  Some (if bool_decide (5 + len payload ≤ cap)%N then inl (frame_of payload)
        else inr (EncTooLarge (5 + len payload)%N)).
Proof.
  intros Hc Hp. unfold encode_frame_with_cap. rewrite Hp.
  replace (4 + (1 + len payload))%N with (5 + len payload)%N by lia.
  destruct (decide (5 + len payload ≤ cap)%N) as [Hle|Hgt].
  - rewrite bool_decide_eq_false_2, bool_decide_eq_true_2 by lia.
    unfold u32_try_from. by rewrite bool_decide_eq_true_2 by lia.
  - by rewrite bool_decide_eq_true_2, (bool_decide_eq_false_2 (5 + len payload ≤ cap)%N) by lia.
Qed.

(** A frame decodes to the message it was made from, under the same cap
    or any larger one, when the codec reads back what it writes. *)
Theorem frame_roundtrip (msg : T) (f : frame_bytes) (cap cap' : N) :
  (∀ m p, to_allocvec m = inl p → from_bytes p = inl m) →
  (cap ≤ cap')%N → (cap' ≤ 2 ^ 32)%N →
  encode_frame_with_cap msg cap = Some (inl f) → decode_frame_with_cap f cap' = inl msg.
Proof.
  intros Hrt Hcc Hc He. unfold encode_frame_with_cap in He.
  destruct (to_allocvec msg) as [payload|] eqn:Hp; [|done].
  case_bool_decide; [done|]. unfold u32_try_from in He. case_bool_decide; [|done].
  injection He as <-.
  transitivity (decode_frame_with_cap (frame_of payload) cap'); [done|]. rewrite decode_frame_of.
  - by rewrite (Hrt _ _ Hp).
  - unfold frame_of. rewrite len_frame. lia.
  - done.
Qed.

(** C40. Decoding accepts exactly the frames: a buffer of bytes is decoded to
    a message if and only if it is one whole frame within the cap around a
    payload of that message: no trailing bytes, no other version, no wrong
    length. *)
Theorem decode_frame_exact (buf : frame_bytes) (cap : N) (msg : T) :
  is_bytes buf → (cap ≤ 2 ^ 32)%N →
  decode_frame_with_cap buf cap = inl msg ↔
  ∃ payload, buf = frame_of payload ∧ (len buf ≤ cap)%N ∧ from_bytes payload = inl msg.
Proof.
  intros Hb Hc. split.
  - destruct buf as [|b0 [|b1 [|b2 [|b3 [|v payload]]]]]; try done. cbn [decode_frame_with_cap].
    case_bool_decide as Hl; [done|]. case_bool_decide as Hd; [|done].
    case_bool_decide as Hv; [|done]. simpl negb. cbn iota.
    destruct (from_bytes payload) as [m|] eqn:Hm; [|done]. intros [= ->].
    exists payload. split_and!; [|lia|done].
    unfold is_bytes in Hb. rewrite !Forall_cons in Hb. destruct Hb as (? & ? & ? & ? & _).
    unfold frame_of. replace (1 + len payload)%N with (from_be_bytes b0 b1 b2 b3).
    + by rewrite be_injective, Hv by done.
    + rewrite Hd. unfold len. simpl. lia.
  - intros (payload & -> & Hl & Hm). rewrite decode_frame_of by done. by rewrite Hm.
Qed.

End Codec.

(** ** A codec of bytes *)

Definition raw (p : frame_bytes) : frame_bytes + unit := inl p.

Lemma encode_frame_total_witness :
  encode_frame raw [7; 8]%N = Some (inl [0; 0; 0; 3; 1; 7; 8]%N).
Proof.
  unfold encode_frame. rewrite (encode_frame_total raw _ [7; 8]%N MAX_FRAME_SIZE);
    [vm_compute; reflexivity|vm_compute; discriminate|reflexivity].
Defined.

Lemma frame_roundtrip_witness :
  decode_frame_large raw [0; 0; 0; 3; 1; 7; 8]%N = inl [7; 8]%N.
Proof.
  apply (frame_roundtrip raw raw [7; 8]%N _ MAX_FRAME_SIZE MAX_LARGE_FRAME_SIZE).
  - intros m p [= ->]. reflexivity.
  - vm_compute. discriminate.
  - vm_compute. discriminate.
  - vm_compute. reflexivity.
Defined.

Lemma decode_frame_exact_witness :
  decode_frame raw [0; 0; 0; 2; 1; 7]%N = inl [7]%N.
Proof.
  apply (decode_frame_exact raw [0; 0; 0; 2; 1; 7]%N MAX_FRAME_SIZE [7]%N).
  - repeat constructor.
  - vm_compute. discriminate.
  - exists [7]%N. split_and!; [reflexivity|vm_compute; discriminate|reflexivity].
Defined.

End Frame.
