(* ===== verification/Redirect.v ===== *)
(** * Shell redirections

    [redirect.rs] of [shit-shell]: the destination files a command line will
    truncate or append, found by a quote-aware tokenizer and one pass over
    the tokens. Lines are ASCII. *)

From Stdlib Require Import Ascii.
From S2P Require Import Prelude.


Module Redirect.

Module RedirectOp.
Inductive RedirectOp := Truncate | Append | TeeTruncate | TeeAppend | DdOf.
End RedirectOp.
Abbreviation RedirectOp := RedirectOp.RedirectOp.

#[export] Instance RedirectOp_eq_dec : EqDecision RedirectOp.
Proof. solve_decision. Defined.

Record RedirectTarget := mkTarget { t_op : RedirectOp; t_path : string }.

#[export] Instance RedirectTarget_eq_dec : EqDecision RedirectTarget.
Proof. solve_decision. Defined.

(** ** The tokenizer *)

Definition is_whitespace (c : ascii) : bool :=
  let n := N_of_ascii c in bool_decide (9 ≤ n ≤ 13)%N || bool_decide (n = 32%N).

Definition squote : ascii := ascii_of_nat 39.
Definition dquote : ascii := ascii_of_nat 34.

Definition is_control (c : ascii) : bool :=
  bool_decide (c = "|"%char) || bool_decide (c = ";"%char) || bool_decide (c = "&"%char).

Record TokState := mkTok {
  out : list string;
  cur : string;
  in_single : bool;
  in_double : bool;
}.

(** [if !cur.is_empty() { out.push(take(&mut cur)) }]. *)
Definition flush (o : list string) (c : string) : list string :=
  match c with EmptyString => o | _ => o ++ [c] end.

Definition tok_step (s : TokState) (c : ascii) : TokState :=
  if bool_decide (c = squote) && negb (in_double s) then
    mkTok (out s) (cur s) (negb (in_single s)) (in_double s)
  else if bool_decide (c = dquote) && negb (in_single s) then
    mkTok (out s) (cur s) (in_single s) (negb (in_double s))
  else if is_whitespace c && negb (in_single s) && negb (in_double s) then
    mkTok (flush (out s) (cur s)) "" (in_single s) (in_double s)
  else if negb (in_single s) && negb (in_double s) && is_control c then
    mkTok (flush (out s) (cur s) ++ [String c ""]) "" (in_single s) (in_double s)
  else mkTok (out s) (cur s +:+ String c "") (in_single s) (in_double s).

Definition tok_run (s : TokState) (line : string) : TokState :=
  foldl tok_step s (String.list_ascii_of_string line).

Definition tokenize (line : string) : list string :=
  let s := tok_run (mkTok [] "" false false) line in flush (out s) (cur s).

(** ** Token classes *)

Fixpoint strip_prefix (lit s : string) : option string :=
  match lit, s with
  | EmptyString, _ => Some s
  | String a lit', String b s' => if bool_decide (a = b) then strip_prefix lit' s' else None
  | String _ _, EmptyString => None
  end.

Definition starts (s lit : string) : bool := bool_decide (is_Some (strip_prefix lit s)).

Definition is_pipe_or_control (tok : string) : bool :=
  bool_decide (tok ∈ ["|"; ";"; "&"; "&&"; "||"]).

Definition is_special_path (p : string) : bool :=
  bool_decide (p ∈ ["/dev/null"; "/dev/zero"; "/dev/random"; "/dev/urandom"; "/dev/stdout";
                    "/dev/stderr"; "/dev/stdin"])
  || starts p "/dev/tty" || starts p "/dev/pts/"
  || starts p "/proc/" || bool_decide (p = "/proc")
  || starts p "/sys/" || bool_decide (p = "/sys")
  || starts p "/dev/fd/".

Definition is_ascii_digit (c : ascii) : bool :=
  let n := N_of_ascii c in bool_decide (48 ≤ n ≤ 57)%N.

Definition is_fd_dup_target (p : string) : bool :=
  match p with
  | String c rest => bool_decide (c = "&"%char) && forallb is_ascii_digit (String.list_ascii_of_string rest)
  | EmptyString => false
  end.

Definition redirect_table : list (string * RedirectOp) :=
  [("&>>", RedirectOp.Append); ("&>", RedirectOp.Truncate); ("2>>", RedirectOp.Append);
   ("2>", RedirectOp.Truncate); (">>", RedirectOp.Append); (">|", RedirectOp.Truncate);
   (">", RedirectOp.Truncate)].

(** The first row that is the token, or a proper prefix of it. *)
Fixpoint classify_in (table : list (string * RedirectOp)) (tok : string)
    : option (RedirectOp * option string) :=
  match table with
  | [] => None
  | (lit, op) :: table' =>
      if bool_decide (tok = lit) then Some (op, None)
      else match strip_prefix lit tok with
           | Some (String c rest) => Some (op, Some (String c rest))
           | _ => classify_in table' tok
           end
  end.

Definition classify_redirect_token (tok : string) : option (RedirectOp * option string) :=
  classify_in redirect_table tok.

(** ** The pass *)

(** The arguments of [tee] up to the next pipe or control token. *)
Fixpoint tee_paths (op : RedirectOp) (toks : list string) : list RedirectTarget :=
  match toks with
  | [] => []
  | p :: toks' =>
      if is_pipe_or_control p then []
      else if starts p "-" then tee_paths op toks'
      else if is_special_path p then tee_paths op toks'
      else mkTarget op p :: tee_paths op toks'
  end.

Definition tee_targets (rest : list string) : list RedirectTarget :=
  match rest with
  | a :: rest' =>
      if bool_decide (a = "-a") || bool_decide (a = "--append")
      then tee_paths RedirectOp.TeeAppend rest' else tee_paths RedirectOp.TeeTruncate rest
  | [] => []
  end.

Definition redirect_target (op : RedirectOp) (path : string) : list RedirectTarget :=
  if negb (is_special_path path) && negb (is_fd_dup_target path) then [mkTarget op path] else [].

(** The [while] loop; [pending] is the operator that waits for its path, for
    which empty tokens are passed over. *)
Fixpoint parse_tokens (pending : option RedirectOp) (toks : list string) : list RedirectTarget :=
  match toks with
  | [] => []
  | tok :: rest =>
      match pending with
      | Some op =>
          match tok with
          | EmptyString => parse_tokens pending rest
          | _ => redirect_target op tok ++ parse_tokens None rest
          end
      | None =>
          match strip_prefix "of=" tok with
          | Some path =>
              (if negb (bool_decide (path = "")) && negb (is_special_path path)
               then [mkTarget RedirectOp.DdOf path] else []) ++ parse_tokens None rest
          | None =>
              if bool_decide (tok = "tee") then tee_targets rest ++ parse_tokens None rest
              else match classify_redirect_token tok with
                   | Some (op, Some p) => redirect_target op p ++ parse_tokens None rest
                   | Some (op, None) => parse_tokens (Some op) rest
                   | None => parse_tokens None rest
                   end
          end
      end
  end.

(** [targets.retain(|t| seen.insert(..))]. *)
Fixpoint retain_new (seen l : list RedirectTarget) : list RedirectTarget :=
  match l with
  | [] => []
  | t :: l' => if bool_decide (t ∈ seen) then retain_new seen l' else t :: retain_new (t :: seen) l'
  end.

Definition parse_redirects (line : string) : list RedirectTarget :=
  retain_new [] (parse_tokens None (tokenize line)).

Example parse_dd : parse_redirects "dd if=a of=b" = [mkTarget RedirectOp.DdOf "b"].
Proof. vm_compute. reflexivity. Qed.
Example parse_tee : parse_redirects "cmd |tee -a x y" =
  [mkTarget RedirectOp.TeeAppend "x"; mkTarget RedirectOp.TeeAppend "y"].
Proof. vm_compute. reflexivity. Qed.
Example parse_dup : parse_redirects "cmd 2>&1 >/dev/null" = [].
Proof. vm_compute. reflexivity. Qed.

(** ** Lemmas *)

Lemma retain_new_spec (l seen : list RedirectTarget) :
  NoDup (retain_new seen l)
  ∧ ∀ t, t ∈ retain_new seen l ↔ t ∈ l ∧ t ∉ seen.
Proof.
  revert seen. induction l as [|t l IH]; intros seen; simpl.
  { split; [constructor|]. intros t. rewrite !elem_of_nil. tauto. }
  case_bool_decide as Ht.
  - destruct (IH seen) as [H1 H2]. split; [done|]. intros t'. rewrite H2, elem_of_cons.
    naive_solver.
  - destruct (IH (t :: seen)) as [H1 H2]. split.
    + constructor; [|done]. rewrite H2, elem_of_cons. tauto.
    + intros t'. rewrite !elem_of_cons, H2, elem_of_cons. destruct (decide (t' = t)); naive_solver.
Qed.

Lemma tee_paths_safe (op : RedirectOp) (toks : list string) (t : RedirectTarget) :
  t ∈ tee_paths op toks → is_special_path (t_path t) = false.
Proof.
  induction toks as [|p toks IH]; simpl; [by intros ?%elem_of_nil|].
  repeat case_match; try done; [by intros ?%elem_of_nil|].
  intros [->|Hin]%elem_of_cons; auto.
Qed.

Lemma parse_tokens_safe (pending : option RedirectOp) (toks : list string) (t : RedirectTarget) :
  t ∈ parse_tokens pending toks → is_special_path (t_path t) = false.
Proof.
  assert (Hr : ∀ op p, t ∈ redirect_target op p → is_special_path (t_path t) = false).
  { intros op p. unfold redirect_target. destruct (is_special_path p) eqn:E; simpl;
      [by intros ?%elem_of_nil|]. case_match; [|by intros ?%elem_of_nil].
    by intros ->%list_elem_of_singleton. }
  revert pending. induction toks as [|tok toks IH]; intros pending; [by intros ?%elem_of_nil|].
  cbn [parse_tokens]. destruct pending as [op|].
  - destruct tok; [apply IH|]. rewrite elem_of_app. intros [Ht|Ht]; eauto.
  - destruct (strip_prefix "of=" tok) as [path|].
    + rewrite elem_of_app. intros [Ht|Ht]; [|by eapply IH]. revert Ht.
      destruct (is_special_path path) eqn:E; rewrite ?andb_false_r, ?andb_true_r;
        [by intros ?%elem_of_nil|]. case_match; [|by intros ?%elem_of_nil].
      by intros ->%list_elem_of_singleton.
    + case_bool_decide.
      * rewrite elem_of_app. intros [Ht|Ht]; [|by eapply IH]. unfold tee_targets in Ht.
        destruct toks; [by apply elem_of_nil in Ht|]. revert Ht. case_match; apply tee_paths_safe.
      * destruct (classify_redirect_token tok) as [[op [p|]]|]; [|by apply IH|by apply IH].
        rewrite elem_of_app. intros [Ht|Ht]; eauto.
Qed.

(** ** Command lines of words *)

Inductive Word := Plain (s : string) | Single (s : string).

Definition text (w : Word) : string := match w with Plain s | Single s => s end.

Definition render (w : Word) : string :=
  match w with
  | Plain s => s
  | Single s => String squote (s +:+ String squote "")
  end.

Definition plain_char (c : ascii) : bool :=
  negb (bool_decide (c = squote)) && negb (bool_decide (c = dquote))
  && negb (is_whitespace c) && negb (is_control c).

Definition all_chars (P : ascii → bool) (s : string) : bool :=
  forallb P (String.list_ascii_of_string s).

(** A plain word has no quote, blank or control character, a quoted one no
    single quote; neither is empty. *)
Definition word_ok (w : Word) : bool :=
  negb (bool_decide (text w = ""))
  && match w with
     | Plain s => all_chars plain_char s
     | Single s => all_chars (λ c, negb (bool_decide (c = squote))) s
     end.

Fixpoint line_of (ws : list Word) : string :=
  match ws with
  | [] => ""
  | [w] => render w
  | w :: ws' => render w +:+ " " +:+ line_of ws'
  end.

Lemma ascii_list_app (a b : string) :
  String.list_ascii_of_string (a +:+ b) =
  String.list_ascii_of_string a ++ String.list_ascii_of_string b.
Proof. induction a as [|c a IH]; [done|]. cbn. by rewrite <- IH. Qed.

Lemma tok_run_app (s : TokState) (a b : string) :
  tok_run s (a +:+ b) = tok_run (tok_run s a) b.
Proof. unfold tok_run. by rewrite ascii_list_app, foldl_app. Qed.

Lemma tok_run_cons (s : TokState) (c : ascii) (b : string) :
  tok_run s (String c b) = tok_run (tok_step s c) b.
Proof. done. Qed.

Lemma app_cons_assoc (a : string) (c : ascii) (b : string) :
  (a +:+ String c "") +:+ b = a +:+ String c b.
Proof.
  induction a as [|d a IH]; [done|].
  change (String d ((a +:+ String c "") +:+ b) = String d (a +:+ String c b)). by rewrite IH.
Qed.

Lemma tok_plain (o : list string) (c s : string) :
  all_chars plain_char s = true →
  tok_run (mkTok o c false false) s = mkTok o (c +:+ s) false false.
Proof.
  revert c. induction s as [|x s IH]; intros c Hs; [by rewrite string_app_nil_r|].
  cbn in Hs. apply andb_true_iff in Hs as [Hx Hs]. unfold plain_char in Hx.
  rewrite !andb_true_iff, !negb_true_iff in Hx. destruct Hx as [[[H1 H2] H3] H4].
  rewrite tok_run_cons. unfold tok_step. cbn [in_single in_double out cur].
  rewrite H1, H2, H3, H4. cbn [andb negb]. rewrite IH by done. by rewrite app_cons_assoc.
Qed.

Lemma tok_quoted (o : list string) (c s : string) :
  all_chars (λ c, negb (bool_decide (c = squote))) s = true →
  tok_run (mkTok o c true false) s = mkTok o (c +:+ s) true false.
Proof.
  revert c. induction s as [|x s IH]; intros c Hs; [by rewrite string_app_nil_r|].
  cbn in Hs. apply andb_true_iff in Hs as [Hx%negb_true_iff Hs].
  rewrite tok_run_cons. unfold tok_step. cbn [in_single in_double out cur].
  rewrite Hx. cbn [andb negb]. rewrite !andb_false_r. cbn [andb]. rewrite IH by done.
  by rewrite app_cons_assoc.
Qed.

Lemma tok_word (o : list string) (w : Word) :
  word_ok w = true →
  tok_run (mkTok o "" false false) (render w) = mkTok o (text w) false false.
Proof.
  unfold word_ok. intros [_ Hw]%andb_true_iff. destruct w as [s|s]; simpl.
  - by rewrite tok_plain.
  - rewrite tok_run_cons, tok_run_app. change (tok_step _ squote) with (mkTok o "" true false).
    by rewrite tok_quoted.
Qed.

Lemma flush_word (o : list string) (w : Word) : word_ok w = true → flush o (text w) = o ++ [text w].
Proof.
  unfold word_ok. intros [Hw%negb_true_iff%bool_decide_eq_false _]%andb_true_iff.
  by destruct (text w).
Qed.

(** A line of words leaves no quote open. *)
Lemma line_closed (ws : list Word) (o0 o : list string) (c : string) (s d : bool) :
  Forall (λ w, word_ok w = true) ws →
  tok_run (mkTok o0 "" false false) (line_of ws) = mkTok o c s d → s = false ∧ d = false.
Proof.
  revert o0. induction ws as [|w ws IH]; intros o0 Hall; [by intros [= _ _ <- <-]|].
  apply Forall_cons in Hall as [Hw Hall]. destruct ws as [|w' ws].
  - cbn [line_of]. rewrite tok_word by done. by intros [= _ _ <- <-].
  - change (line_of (w :: w' :: ws)) with (render w +:+ String " " (line_of (w' :: ws))).
    rewrite tok_run_app, tok_word, tok_run_cons by done.
    change (tok_step (mkTok o0 (text w) false false) " ")
      with (mkTok (flush o0 (text w)) "" false false).
    by apply IH.
Qed.

(** The tokenizer gives the words of a line back, quoted ones as they are. *)
Lemma tokenize_words (ws : list Word) :
  Forall (λ w, word_ok w = true) ws → tokenize (line_of ws) = text <$> ws.
Proof.
  assert (∀ o, Forall (λ w, word_ok w = true) ws →
    let s := tok_run (mkTok o "" false false) (line_of ws) in
    flush (out s) (cur s) = o ++ (text <$> ws)) as H; [cbv zeta|by apply (H [])].
  induction ws as [|w ws IH]; intros o Hall; [by rewrite app_nil_r|].
  apply Forall_cons in Hall as [Hw Hall]. destruct ws as [|w' ws].
  - cbn [line_of]. rewrite tok_word by done. cbn [out cur]. by rewrite flush_word.
  - change (line_of (w :: w' :: ws)) with (render w +:+ String " " (line_of (w' :: ws))).
    rewrite tok_run_app, tok_word, tok_run_cons by done.
    change (tok_step (mkTok o (text w) false false) " ")
      with (mkTok (flush o (text w)) "" false false).
    rewrite flush_word, IH by done. by rewrite <- app_assoc.
Qed.

(** A token that starts no destination. *)
Definition inert (tok : string) : bool :=
  bool_decide (strip_prefix "of=" tok = None) && negb (bool_decide (tok = "tee"))
  && bool_decide (classify_redirect_token tok = None).

Lemma parse_tokens_inert (pre toks : list string) :
  Forall (λ t, inert t = true) pre →
  parse_tokens None (pre ++ toks) = parse_tokens None toks.
Proof.
  induction 1 as [|t pre Ht _ IH]; [done|]. cbn [app parse_tokens].
  unfold inert in Ht. rewrite !andb_true_iff, negb_true_iff, !bool_decide_eq_true in Ht.
  destruct Ht as [[-> H2] ->]. by rewrite H2.
Qed.

Definition spaced_ops : list (string * RedirectOp) :=
  [(">", RedirectOp.Truncate); (">>", RedirectOp.Append); ("2>", RedirectOp.Truncate);
   ("2>>", RedirectOp.Append)].

(** C39. The destination of a redirection is found: in a line of words, plain
    or single-quoted (blanks, pipes and the like inside quotes included), none
    of them [tee], beginning with [of=] or beginning as a redirection does,
    that ends in a blank, [>], [>>], [2>] or [2>>], a blank and a destination
    that is no special file, the parser reports exactly that destination, with
    its operator and with the quotes removed. Other spellings are not covered,
    and [>|] is misread ([parse_clobber_misses]). *)
Theorem parse_finds_redirect (ws : list Word) (o : string) (op : RedirectOp) (w : Word) :
  Forall (λ w, word_ok w = true ∧ inert (text w) = true) ws →
  (o, op) ∈ spaced_ops → word_ok w = true →
  is_special_path (text w) = false → is_fd_dup_target (text w) = false →
  parse_redirects (line_of (ws ++ [Plain o; w])) = [mkTarget op (text w)].
Proof.
  intros Hws Ho Hw Hsp Hfd. unfold parse_redirects. rewrite tokenize_words.
  - rewrite fmap_app, parse_tokens_inert; [change (text <$> [Plain o; w]) with [o; text w]|].
    + assert (parse_tokens None [o; text w] = redirect_target op (text w)) as ->.
      { assert (text w ≠ "") as Hne.
        { unfold word_ok in Hw. apply andb_true_iff in Hw as [Hw _].
          by apply negb_true_iff, bool_decide_eq_false in Hw. }
        repeat (apply elem_of_cons in Ho as [[= -> ->]|Ho]); [..|by apply elem_of_nil in Ho];
          (destruct (text w); [done|]); apply app_nil_r. }
      unfold redirect_target. by rewrite Hsp, Hfd.
    + apply Forall_fmap. eapply Forall_impl; [exact Hws|]. by intros w' [_ ?].
  - apply Forall_app. split; [eapply Forall_impl; [exact Hws|]; by intros w' [? _]|].
    repeat constructor; [|done].
    repeat (apply elem_of_cons in Ho as [[= -> ->]|Ho]; [reflexivity|]). by apply elem_of_nil in Ho.
Qed.

(** Whatever the line, no destination is reported twice and none is a
    device, terminal, descriptor, [/proc] or [/sys] path. *)
Theorem parse_redirects_safe (line : string) :
  NoDup (parse_redirects line)
  ∧ Forall (λ t, is_special_path (t_path t) = false) (parse_redirects line).
Proof.
  unfold parse_redirects. destruct (retain_new_spec (parse_tokens None (tokenize line)) []) as [H1 H2].
  split; [done|]. apply Forall_forall. intros t [Ht _]%H2. by eapply parse_tokens_safe.
Qed.

(** The clobber form [>|] is misread: the tokenizer splits it at the
    pipe, so for every line of inert words the reported destination is the
    pipe itself and the real one is lost. *)
Theorem parse_clobber_misses (ws : list Word) (w : Word) :
  Forall (λ w, word_ok w = true ∧ inert (text w) = true) ws →
  word_ok w = true → inert (text w) = true →
  parse_redirects (line_of (ws ++ [Plain ">"]) +:+ String "|" (String " " (render w))) =
  [mkTarget RedirectOp.Truncate "|"].
Proof.
  intros Hws Hw Hi. unfold parse_redirects.
  assert (Hok : Forall (λ w, word_ok w = true) (ws ++ [Plain ">"])).
  { apply Forall_app. split; [eapply Forall_impl; [exact Hws|]; by intros w' [? _]|].
    by repeat constructor. }
  assert (tokenize (line_of (ws ++ [Plain ">"]) +:+ String "|" (String " " (render w))) =
    (text <$> ws) ++ [">"; "|"; text w]) as ->.
  { unfold tokenize. rewrite tok_run_app, !tok_run_cons.
    pose proof (tokenize_words _ Hok) as Ht. unfold tokenize in Ht.
    destruct (tok_run (mkTok [] "" false false) (line_of (ws ++ [Plain ">"]))) as [o c s d] eqn:E.
    assert (s = false ∧ d = false) as [-> ->].
    { by apply (line_closed (ws ++ [Plain ">"]) [] o c s d). }
    cbn [out cur] in Ht.
    change (tok_step (mkTok o c false false) "|") with (mkTok (flush o c ++ ["|"]) "" false false).
    change (tok_step (mkTok (flush o c ++ ["|"]) "" false false) " ")
      with (mkTok (flush o c ++ ["|"]) "" false false).
    rewrite tok_word by done. cbn [out cur]. rewrite flush_word by done.
    rewrite Ht, fmap_app. by rewrite <- !app_assoc. }
  rewrite parse_tokens_inert.
  - change (parse_tokens None [">"; "|"; text w])
      with (mkTarget RedirectOp.Truncate "|" :: parse_tokens None [text w]).
    pose proof (parse_tokens_inert [text w] [] ltac:(by constructor)) as Hn.
    cbn [app] in Hn. by rewrite Hn.
  - apply Forall_fmap. eapply Forall_impl; [exact Hws|]. by intros w' [_ ?].
Qed.

Lemma parse_finds_redirect_witness :
  parse_redirects "echo foo > 'my | file'" = [mkTarget RedirectOp.Truncate "my | file"].
Proof.
  apply (parse_finds_redirect [Plain "echo"; Plain "foo"] ">" RedirectOp.Truncate
           (Single "my | file"));
    [repeat constructor | unfold spaced_ops; set_solver | reflexivity | reflexivity | reflexivity].
Defined.

Lemma parse_clobber_misses_witness :
  parse_redirects "echo foo >| out.txt" = [mkTarget RedirectOp.Truncate "|"].
Proof.
  apply (parse_clobber_misses [Plain "echo"; Plain "foo"] (Plain "out.txt"));
    [repeat constructor | reflexivity | reflexivity].
Defined.

End Redirect.
