(* ===== verification/Runners.v ===== *)
(** * Running other programs

    What the executors of the package, service and network tiers share: a
    command is spawned with its arguments and its exit status decides; a list
    of invocations runs until one fails. The runners of the daemon ([ctl.rs])
    put [doas] or [sudo] in front where root is needed. Starting a program is
    an argument: it maps an argument vector and the state of the system to a
    status and a new state. [Services]: the state of units as the service
    managers print it ([services.rs]), and the executor that leads a unit back
    ([executors/services.rs]). *)

From S2P Require Import Prelude Paths Base Events Inverse Probe Network Plan Executor Orchestrator Redirect.

Module Runners.

(** The result of [Command::status]: the exit code ([None] for a signal), or
    that the program could not be started. *)
Inductive Exec := Exited (code : option N) | SpawnError (e : Msg).

Abbreviation Run T := (list string → T → (unit + Msg) * T).

Definition code_debug (code : option N) : Piece :=
  match code with
  | Some n => DebugVariant "Some" [NumDisplay n]
  | None => DebugVariant "None" []
  end.

Section Run.
Context {T : Type} (exec : list string → T → Exec * T) (is_file : string → bool).

(** [command.env("SHIT_DURING_UNDO", "1").status()]. *)
Definition run_command (cmd : string) (argv : list string) (t : T) : (unit + Msg) * T :=
  let '(r, t') := exec argv t in
  (match r with
   | SpawnError e => inr ([Lit "spawn "; Lit cmd; Lit ": "] ++ e)
   | Exited (Some 0%N) => inl tt
   | Exited code => inr [Lit cmd; Lit " exited "; code_debug code]
   end, t').

Definition system_run : Run T := λ argv t,
  match argv with
  | [] => (inr [Lit "empty argv"], t)
  | cmd :: _ => run_command cmd argv t
  end.

Definition escalators : list string := ["/usr/local/bin/doas"; "/usr/local/bin/sudo"; "/usr/bin/sudo"].

Definition privileged_run (needs_elevation : string → bool) : Run T := λ argv t,
  match argv with
  | [] => (inr [Lit "empty argv"], t)
  | cmd :: _ =>
      match (if needs_elevation cmd then List.find is_file escalators else None) with
      | Some e => run_command cmd (e :: argv) t
      | None => run_command cmd argv t
      end
  end.

(** [PrivilegedPkgRunner], [PrivilegedSvcRunner] and [PrivilegedNetRunner]. *)
Definition pkg_run : Run T := privileged_run (λ cmd, negb (bool_decide (cmd = "brew"))).
Definition svc_run : Run T := privileged_run (λ cmd, negb (bool_decide (cmd = "launchctl"))).
Definition net_run : Run T := privileged_run (λ _, true).

End Run.

(** ** With input, with output, in a directory *)

(** A program that gets bytes on its standard input. *)
Inductive Piped := PipedExit (code : option N) | PipedSpawn (e : Msg) | PipedWrite (e : Msg) | PipedWait (e : Msg).

(** A program whose standard output is read. *)
Inductive Captured := CapturedExit (code : option N) (stdout : bytes) | CapturedSpawn (e : Msg).

(** What the operating system does with a command: started as it is, with
    input, for its output, in a directory. *)
Record Programs (T : Type) := mkPrograms {
  px_exec : list string → T → Exec * T;
  px_piped : list string → bytes → T → Piped * T;
  px_output : list string → T → Captured * T;
  px_exec_in : PathBuf → list string → T → Exec * T;
}.
Arguments mkPrograms {T}.
Arguments px_exec {T}.
Arguments px_piped {T}.
Arguments px_output {T}.
Arguments px_exec_in {T}.

Section Programs.
Context {T : Type} (px : Programs T).

(** [run_with_stdin] of the daemon's runners. *)
Definition run_with_stdin (argv : list string) (stdin : bytes) (t : T) : (unit + Msg) * T :=
  match argv with
  | [] => (inr [Lit "empty argv"], t)
  | cmd :: _ =>
      let '(r, t') := px_piped px argv stdin t in
      (match r with
       | PipedSpawn e => inr ([Lit "spawn "; Lit cmd; Lit ": "] ++ e)
       | PipedWrite e => inr ([Lit "write stdin to "; Lit cmd; Lit ": "] ++ e)
       | PipedWait e => inr ([Lit "wait "; Lit cmd; Lit ": "] ++ e)
       | PipedExit (Some 0%N) => inl tt
       | PipedExit code => inr [Lit cmd; Lit " exited "; code_debug code]
       end, t')
  end.

(** [capture]. *)
Definition capture (argv : list string) (t : T) : (bytes + Msg) * T :=
  match argv with
  | [] => (inr [Lit "empty argv"], t)
  | cmd :: _ =>
      let '(r, t') := px_output px argv t in
      (match r with
       | CapturedSpawn e => inr ([Lit "spawn "; Lit cmd; Lit ": "] ++ e)
       | CapturedExit (Some 0%N) out => inl out
       | CapturedExit code _ => inr [Lit cmd; Lit " exited "; code_debug code]
       end, t')
  end.

Definition run_in (workdir : PathBuf) (argv : list string) (t : T) : (unit + Msg) * T :=
  system_run (px_exec_in px workdir) argv t.

End Programs.

(** [format!("{}: {e}", argv.first().unwrap_or("?"))]. *)
Definition argv_error (argv : list string) (e : Msg) : Msg :=
  [Lit (default "?" (head argv)); Lit ": "] ++ e.

(** The loop over the invocations; it stops at the first that fails. *)
Fixpoint run_all {T} (run : Run T) (invocations : list (list string)) (t : T) : (unit + Msg) * T :=
  match invocations with
  | [] => (inl tt, t)
  | argv :: rest =>
      match run argv t with
      | (inl _, t') => run_all run rest t'
      | (inr e, t') => (inr (argv_error argv e), t')
      end
  end.

Lemma run_all_app {T} (run : Run T) (l l' : list (list string)) (t t1 : T) :
  run_all run l t = (inl tt, t1) → run_all run (l ++ l') t = run_all run l' t1.
Proof.
  revert t. induction l as [|argv l IH]; intros t; simpl; [by intros [= ->]|].
  destruct (run argv t) as [[[]|e] t']; [apply IH|done].
Qed.

End Runners.

(** * Service managers

    [services.rs] (parsers of what [systemctl], [launchctl] and [service]
    print, verb classifiers) and [executors/services.rs] (the invocations that
    lead back, and the executor). Texts are ASCII. *)

Module Services.
Import Plan Executor Orchestrator Runners.

#[export] Instance ServiceState_eq_dec : EqDecision ServiceState.
Proof. solve_decision. Defined.

#[export] Instance SystemdScope_eq_dec : EqDecision SystemdScope.
Proof. solve_decision. Defined.

(** ** Verbs *)

Definition SYSTEMCTL_MUTATING_VERBS : list string :=
  ["start"; "stop"; "restart"; "reload"; "try-restart"; "reload-or-restart"; "enable"; "disable"; "mask";
   "unmask"; "kill"; "preset"; "set-property"; "edit"; "link"; "revert"; "isolate"; "daemon-reload"].

Definition LAUNCHCTL_MUTATING_VERBS : list string :=
  ["bootstrap"; "bootout"; "enable"; "disable"; "kickstart"; "kill"; "start"; "stop"; "reboot-user"; "load";
   "unload"].

Definition SERVICE_MUTATING_VERBS : list string :=
  ["start"; "stop"; "restart"; "reload"; "onestart"; "onestop"; "onerestart"; "forcestart"; "forcestop";
   "forcerestart"; "quietstart"; "quietstop"; "quietrestart"; "enable"; "disable"].

Definition is_systemctl_mutating : string → bool := Network.contains SYSTEMCTL_MUTATING_VERBS.
Definition is_launchctl_mutating : string → bool := Network.contains LAUNCHCTL_MUTATING_VERBS.
Definition is_service_mutating : string → bool := Network.contains SERVICE_MUTATING_VERBS.

(** ** Text *)

(** [str::lines]: at every newline, without a last empty line. *)
Fixpoint lines_raw (s : string) : list string :=
  match s with
  | EmptyString => []
  | String c rest =>
      if bool_decide (c = "010"%char) then "" :: lines_raw rest
      else match lines_raw rest with
           | [] => [String c ""]
           | l :: ls => String c l :: ls
           end
  end.

(** [str::lines] drops a carriage return before the newline, [trim] any other
    white space; the callers trim every line. *)
Definition lines (s : string) : list string := trim <$> lines_raw s.

(** [key=value] lines: what the loop over them keeps of one key (the last). *)
Definition key_value (key : string) (acc : option string) (line : string) : option string :=
  match split_once "="%char line with
  | Some (k, v) => if bool_decide (k = key) then Some v else acc
  | None => acc
  end.

Definition last_value (text key : string) : option string :=
  foldl (key_value key) None (lines text).

Definition opt_in (l : list string) (o : option string) : bool :=
  match o with Some s => Network.contains l s | None => false end.

(** ** Parsers *)

Definition parse_systemctl_show (text : string) : ServiceState :=
  let active_state := last_value text "ActiveState" in
  let unit_file_state := last_value text "UnitFileState" in
  let unit_file := default "disabled" unit_file_state in
  mkServiceState
    (opt_in ["active"; "activating"; "reloading"] active_state)
    (Network.contains ["enabled"; "enabled-runtime"; "alias"; "linked"; "linked-runtime"; "static"] unit_file)
    (Network.contains ["masked"; "masked-runtime"] unit_file)
    (match unit_file_state with Some s => negb (bool_decide (s = "not-found")) | None => false end)
    (trim text).

Definition parse_freebsd_service (text : string) : ServiceState :=
  let active_state := trim <$> last_value text "ActiveState" in
  let enabled_flag := trim <$> last_value text "EnabledFlag" in
  mkServiceState (opt_in ["running"] active_state) (opt_in ["YES"] enabled_flag) false
    (bool_decide (is_Some active_state) || bool_decide (is_Some enabled_flag)) (trim text).

(** [str::parse] to an integer type: a sign and decimal digits, within range. *)
Fixpoint digits (acc : Z) (s : string) : option Z :=
  match s with
  | EmptyString => Some acc
  | String c rest =>
      if Redirect.is_ascii_digit c
      then digits (10 * acc + (Z.of_N (Ascii.N_of_ascii c) - 48))%Z rest else None
  end.

Definition parse_int (lo hi : Z) (s : string) : option Z :=
  let value :=
    match s with
    | String "-" (String _ _ as rest) => Z.opp <$> digits 0 rest
    | String "+" (String _ _ as rest) => digits 0 rest
    | String "-" "" | String "+" "" | "" => None
    | _ => digits 0 s
    end in
  match value with
  | Some n => if bool_decide (lo ≤ n ≤ hi)%Z then Some n else None
  | None => None
  end.

Definition parse_i64 : string → option Z := parse_int (- 2 ^ 63) i64_max.

(** [trim_end_matches([';', ','])]. *)
Fixpoint trim_end_punct (s : string) : string :=
  match s with
  | EmptyString => ""
  | String c rest =>
      match trim_end_punct rest with
      | EmptyString => if bool_decide (c = ";"%char) || bool_decide (c = ","%char) then "" else String c ""
      | t => String c t
      end
  end.

Definition launchctl_active (rest : string) : bool :=
  if Redirect.starts rest "running" then true
  else if Redirect.starts rest "not running" || Redirect.starts rest "waiting" then false
  else match parse_i64 rest with Some n => bool_decide (0 < n)%Z | None => false end.

(** One line of [launchctl print]: what is known so far of [active],
    [enabled] and whether there was a line at all. *)
Definition launchctl_line (acc : bool * bool * bool) (line : string) : bool * bool * bool :=
  let '(active, enabled, found) := acc in
  if bool_decide (line = "") then acc
  else
    let active := match Redirect.strip_prefix "state =" line with
                  | Some rest => launchctl_active (trim rest)
                  | None => active
                  end in
    let enabled := match Redirect.strip_prefix "disabled =" line with
                   | Some rest => negb (Network.contains ["true"; "1"] (trim_end_punct (trim rest)))
                   | None => enabled
                   end in
    (active, enabled, true).

Definition parse_launchctl_print (text : string) : ServiceState :=
  let '(active, enabled, found) := foldl launchctl_line (false, true, false) (lines text) in
  if found then mkServiceState active enabled false true (trim text)
  else mkServiceState false false false false (trim text).

(** ** The way back *)

Definition service_argv (unit : string) (before after : ServiceState) : list (list string) :=
  let mk verb := ["/usr/sbin/service"; unit; verb] in
  (if bool_decide (enabled before = enabled after) then []
   else [mk (if enabled before then "enable" else "disable")])
  ++ (if bool_decide (active before = active after) then []
      else [mk (if active before then "start" else "stop")]).

Definition systemctl_argv (scope : SystemdScope) (unit : string) (before after : ServiceState)
    : list (list string) :=
  let prefix := match scope with SystemdScope.User => ["systemctl"; "--user"] | _ => ["systemctl"] end in
  let mk verb := prefix ++ [verb; unit] in
  let mask_differs := negb (bool_decide (masked before = masked after)) in
  (if mask_differs && negb (masked before) then [mk "unmask"] else [])
  ++ (if bool_decide (enabled before = enabled after) then []
      else [mk (if enabled before then "enable" else "disable")])
  ++ (if bool_decide (active before = active after) then []
      else [mk (if active before then "start" else "stop")])
  ++ (if mask_differs && masked before then [mk "mask"] else []).

(** [uid] is what [getuid] returns, as decimal digits. *)
Definition launchctl_argv (uid : string) (scope : SystemdScope) (unit : string) (before after : ServiceState)
    : list (list string) :=
  match (match scope with
         | SystemdScope.LaunchdSystem => Some "system"
         | SystemdScope.LaunchdGui => Some ("gui/" +:+ uid)
         | _ => None
         end) with
  | None => []
  | Some domain =>
      let mk verb := ["launchctl"; verb; domain +:+ "/" +:+ unit] in
      if bool_decide (present before = present after) then
        (if bool_decide (enabled before = enabled after) then []
         else [mk (if enabled before then "enable" else "disable")])
        ++ (if bool_decide (active before = active after) then []
            else [mk (if active before then "bootstrap" else "bootout")])
      else [mk (if present before then "bootstrap" else "bootout")]
  end.

Definition synthesize_argv (uid : string) (scope : SystemdScope) (unit : string) (before after : ServiceState)
    : list (list string) :=
  match scope with
  | SystemdScope.User | SystemdScope.System => systemctl_argv scope unit before after
  | SystemdScope.LaunchdGui | SystemdScope.LaunchdSystem => launchctl_argv uid scope unit before after
  | SystemdScope.RcBase => service_argv unit before after
  end.

Definition service_execute {T} (uid : string) (run : Run T) (op : InverseOp) (dry_run : bool)
    (_ : ConflictPolicy) (t : T) : ExecutionOutcome * T :=
  match op with
  | InverseOp.SystemdRollback scope unit before after =>
      match synthesize_argv uid scope unit before after with
      | [] => (ExecutionOutcome.Skipped [Lit "no-op diff (before == after)"], t)
      | invocations =>
          if dry_run then (ExecutionOutcome.WouldApply, t)
          else match run_all run invocations t with
               | (inl _, t') => (ExecutionOutcome.Applied, t')
               | (inr e, t') => (ExecutionOutcome.Failed e, t')
               end
      end
  | _ => (ExecutionOutcome.Skipped [Lit "service executor reached non-service op"], t)
  end.

Example parse_masked :
  let s := parse_systemctl_show ("ActiveState=inactive" +:+ String "010" "UnitFileState=masked") in
  (active s, enabled s, masked s, present s) = (false, false, true, true).
Proof. vm_compute. reflexivity. Qed.

Example parse_running :
  let s := parse_launchctl_print ("foo = {" +:+ String "010" ("  state = running" +:+ String "010" "  disabled = true;")) in
  (active s, enabled s, present s) = (true, false, true).
Proof. vm_compute. reflexivity. Qed.

End Services.
