(* ===== verification/Text.v ===== *)
(** * Text

    What the parsers of tool output use of the standard library: UTF-8
    decoding of bytes, strict and lossy, lines, words, and comparisons without
    regard to case. A string is its UTF-8 bytes; white space is the ASCII
    one. *)

From S2P Require Import Prelude Base Plan Env Redirect Runners.

Module Text.
Import Plan.

(** ** UTF-8 *)

Definition in_range (lo hi : N) (b : Byte.byte) : bool :=
  let n := Byte.to_N b in bool_decide (lo ≤ n)%N && bool_decide (n ≤ hi)%N.

Definition continuation : Byte.byte → bool := in_range 128 191.

(** How a sequence starts: its length and what the second byte may be. *)
Definition lead (b : Byte.byte) : option (nat * (Byte.byte → bool)) :=
  if in_range 0 127 b then Some (1, λ _, true)
  else if in_range 194 223 b then Some (2, continuation)
  else if in_range 224 224 b then Some (3, in_range 160 191)
  else if in_range 225 236 b then Some (3, continuation)
  else if in_range 237 237 b then Some (3, in_range 128 159)
  else if in_range 238 239 b then Some (3, continuation)
  else if in_range 240 240 b then Some (4, in_range 144 191)
  else if in_range 241 243 b then Some (4, continuation)
  else if in_range 244 244 b then Some (4, in_range 128 143)
  else None.

(** The bytes that fit the tests, from the front. *)
Fixpoint fitting (tests : list (Byte.byte → bool)) (b : bytes) : nat :=
  match tests, b with
  | f :: tests', x :: b' => if f x then S (fitting tests' b') else 0
  | _, _ => 0
  end.

(** The next sequence: its length if it is a character, the length of what is
    replaced if it is not. *)
Definition utf8_next (x : Byte.byte) (b : bytes) : nat + nat :=
  match lead x with
  | None => inr 1
  | Some (1, _) => inl 1
  | Some (n, second) =>
      let tests := take (n - 1) [second; continuation; continuation] in
      let k := fitting tests b in
      if bool_decide (k = n - 1) then inl n else inr (S k)
  end.

Fixpoint valid_utf8 (fuel : nat) (b : bytes) : bool :=
  match fuel, b with
  | _, [] => true
  | 0, _ => false
  | S fuel', x :: b' =>
      match utf8_next x b' with
      | inl n => valid_utf8 fuel' (drop n b)
      | inr _ => false
      end
  end.

(** [str::from_utf8]. *)
Definition from_utf8 (b : bytes) : option string :=
  if valid_utf8 (length b) b then Some (String.string_of_list_byte b) else None.

(** U+FFFD. *)
Definition replacement : bytes := [Byte.xef; Byte.xbf; Byte.xbd].

Fixpoint lossy (fuel : nat) (b : bytes) : bytes :=
  match fuel, b with
  | S fuel', x :: b' =>
      match utf8_next x b' with
      | inl n => take n b ++ lossy fuel' (drop n b)
      | inr n => replacement ++ lossy fuel' (drop n b)
      end
  | _, _ => []
  end.

(** [String::from_utf8_lossy]. *)
Definition from_utf8_lossy (b : bytes) : string := String.string_of_list_byte (lossy (length b) b).

(** ** Lines and words *)

Fixpoint strip_cr (s : string) : string :=
  match s with
  | EmptyString => ""
  | String c rest => if bool_decide (c = "013"%char ∧ rest = "") then "" else String c (strip_cr rest)
  end.

(** Whether the text ends in a newline. *)
Fixpoint ends_nl (s : string) : bool :=
  match s with
  | EmptyString => false
  | String c EmptyString => bool_decide (c = "010"%char)
  | String _ rest => ends_nl rest
  end.

Fixpoint strip_crs (final : bool) (ls : list string) : list string :=
  match ls with
  | [] => []
  | [l] => [if final then strip_cr l else l]
  | l :: ls' => strip_cr l :: strip_crs final ls'
  end.

(** [str::lines]: a carriage return goes with the newline after it, and only
    with one. *)
Definition str_lines (s : string) : list string := strip_crs (ends_nl s) (Services.lines_raw s).

(** [str::split_whitespace]. *)
Fixpoint words_from (s : string) (cur : string) : list string :=
  match s with
  | EmptyString => if bool_decide (cur = "") then [] else [cur]
  | String c rest =>
      if Ascii.is_space c
      then (if bool_decide (cur = "") then [] else [cur]) ++ words_from rest ""
      else words_from rest (cur +:+ String c "")
  end.
Definition split_whitespace (s : string) : list string := words_from s "".

Fixpoint join (sep : string) (ws : list string) : string :=
  match ws with
  | [] => ""
  | [w] => w
  | w :: ws' => w +:+ sep +:+ join sep ws'
  end.

(** [str::split_once] on a string. *)
Fixpoint split_once_str (sep s : string) : option (string * string) :=
  match Redirect.strip_prefix sep s with
  | Some rest => Some ("", rest)
  | None =>
      match s with
      | EmptyString => None
      | String c rest => (λ '(a, b), (String c a, b)) <$> split_once_str sep rest
      end
  end.

Fixpoint ends_with_char (c : Ascii.ascii) (s : string) : bool :=
  match s with
  | EmptyString => false
  | String x EmptyString => bool_decide (x = c)
  | String _ rest => ends_with_char c rest
  end.

(** [str::rfind] of one character: the text before its last occurrence, and after it. *)
Fixpoint rsplit_once (sep : Ascii.ascii) (s : string) : option (string * string) :=
  match s with
  | EmptyString => None
  | String c rest =>
      match rsplit_once sep rest with
      | Some (a, b) => Some (String c a, b)
      | None => if bool_decide (c = sep) then Some ("", rest) else None
      end
  end.

(** [str::split] on one character: one piece more than there are separators. *)
Fixpoint split_char (sep : Ascii.ascii) (s : string) : list string :=
  match s with
  | EmptyString => [""]
  | String c rest =>
      if bool_decide (c = sep) then "" :: split_char sep rest
      else match split_char sep rest with
           | w :: ws => String c w :: ws
           | [] => [String c ""]
           end
  end.

(** [parse] at an unsigned type: no sign but a plus. *)
Definition parse_uint (max : N) (s : string) : option N :=
  if Redirect.starts s "-" then None else Z.to_N <$> Services.parse_int 0 (Z.of_N max) s.

(** ** Case *)

Definition ascii_lower (c : Ascii.ascii) : Ascii.ascii :=
  let n := Ascii.N_of_ascii c in
  if bool_decide (65 ≤ n)%N && bool_decide (n ≤ 90)%N then Ascii.ascii_of_N (n + 32) else c.

Fixpoint to_ascii_lowercase (s : string) : string :=
  match s with
  | EmptyString => ""
  | String c rest => String (ascii_lower c) (to_ascii_lowercase rest)
  end.

Definition eq_ignore_ascii_case (a b : string) : bool :=
  bool_decide (to_ascii_lowercase a = to_ascii_lowercase b).

(** ** Facts *)

(** Decoding is exact where it succeeds, and the lossy one agrees with it. *)
Lemma fitting_length tests b : fitting tests b ≤ length b.
Proof. revert b. induction tests as [|f tests IH]; intros [|x b]; simpl; try lia. case_match; [|lia]. specialize (IH b). lia. Qed.

Lemma lossy_valid (fuel : nat) (b : bytes) : length b ≤ fuel → valid_utf8 fuel b = true → lossy fuel b = b.
Proof.
  revert b. induction fuel as [|fuel IH]; intros [|x b] Hl Hv; try done; simpl in *.
  destruct (utf8_next x b) as [n|n] eqn:Hn; [|done]. destruct n as [|n].
  { exfalso. revert Hn. unfold utf8_next. destruct (lead x) as [[[|[|k]] sec]|] eqn:Hx; try done.
    - intros _. revert Hx. unfold lead. repeat (case_match; [done|]). done.
    - cbv zeta. case_bool_decide; done. }
  simpl in *. rewrite IH by (done || (rewrite length_drop; lia)). f_equal. apply take_drop.
Qed.

Lemma from_utf8_lossy_valid (b : bytes) (s : string) : from_utf8 b = Some s → from_utf8_lossy b = s.
Proof.
  unfold from_utf8, from_utf8_lossy. destruct (valid_utf8 (length b) b) eqn:Hv; [|done]. intros [= <-].
  by rewrite lossy_valid.
Qed.

Example split_ex : split_whitespace "  a bc	d " = ["a"; "bc"; "d"].
Proof. reflexivity. Qed.

Example utf8_ex :
  from_utf8 [Byte.xc3; Byte.xa9] = Some (String.string_of_list_byte [Byte.xc3; Byte.xa9])
  ∧ from_utf8 [Byte.xc3; Byte.x28] = None
  ∧ from_utf8_lossy [Byte.xe2; Byte.x82; Byte.x28] = String.string_of_list_byte (replacement ++ [Byte.x28]).
Proof. vm_compute. done. Qed.

End Text.
