(* ===== verification/Redact.v ===== *)
(** * Redaction of SQL statements

    [db/redact.rs]: before a statement crosses the wire, the literals that
    follow [IDENTIFIED BY] or [PASSWORD] and the values of sensitive columns
    in [INSERT] and [UPDATE] are replaced by a marker with a short hash. Text
    is a list of characters; slices are prefixes and suffixes of it. [Sql]:
    splitting of scripts and classification of statements ([db/stmt.rs]), and
    the filter of the client wrapper that composes them. *)

From S2P Require Import Prelude Base Env.

Module Redact.

Abbreviation chars := (list Ascii.ascii).

Definition str (s : string) : chars := String.list_ascii_of_string s.
Definition unstr (l : chars) : string := String.string_of_list_ascii l.

(** ** Characters *)

Definition quote : Ascii.ascii := "039".
Definition dquote : Ascii.ascii := "034".

Definition between (lo hi : N) (c : Ascii.ascii) : bool :=
  let n := Ascii.N_of_ascii c in bool_decide (lo ≤ n)%N && bool_decide (n ≤ hi)%N.

Definition is_alphabetic (c : Ascii.ascii) : bool := between 65 90 c || between 97 122 c.
Definition is_ident (c : Ascii.ascii) : bool :=
  is_alphabetic c || between 48 57 c || bool_decide (c = "_"%char).

(** [char::is_ascii_whitespace], and what [str::trim] drops. *)
Definition is_ws (c : Ascii.ascii) : bool :=
  bool_decide (c ∈ [" "; "009"; "010"; "012"; "013"]%char).

Definition upper (l : chars) : chars := Env.ascii_upper <$> l.

Fixpoint drop_while (f : Ascii.ascii → bool) (l : chars) : chars :=
  match l with
  | c :: l' => if f c then drop_while f l' else l
  | [] => []
  end.

Fixpoint take_while (f : Ascii.ascii → bool) (l : chars) : chars :=
  match l with
  | c :: l' => if f c then c :: take_while f l' else []
  | [] => []
  end.

Definition trim_start (l : chars) : chars := drop_while Ascii.is_space l.
Definition trim (l : chars) : chars := reverse (trim_start (reverse (trim_start l))).

Definition skip_ws (l : chars) : chars := drop_while is_ws l.

(** The word and what follows it. *)
Definition read_word (l : chars) : chars * chars := (take_while is_ident l, drop_while is_ident l).

Fixpoint starts (p l : chars) : bool :=
  match p, l with
  | [], _ => true
  | a :: p', b :: l' => bool_decide (a = b) && starts p' l'
  | _ :: _, [] => false
  end.

Fixpoint contains (l sub : chars) : bool :=
  starts sub l || match l with [] => false | _ :: l' => contains l' sub end.

(** ** Quotes *)

Inductive Quote := Plain | Single | Double.

#[export] Instance Quote_eq_dec : EqDecision Quote.
Proof. solve_decision. Defined.

(** One step of the scan that every pass makes: inside quotes, or at a quote,
    the new state, what is consumed and the rest; [None] at a character
    outside quotes. A doubled single quote does not end a literal. *)
Definition quote_step (q : Quote) (c : Ascii.ascii) (rest : chars) : option (Quote * chars * chars) :=
  match q with
  | Single =>
      if bool_decide (c = quote) then
        match rest with
        | c' :: rest' =>
            if bool_decide (c' = quote) then Some (Single, [c; c'], rest') else Some (Plain, [c], rest)
        | [] => Some (Plain, [c], rest)
        end
      else Some (Single, [c], rest)
  | Double => Some (if bool_decide (c = dquote) then Plain else Double, [c], rest)
  | Plain =>
      if bool_decide (c = quote) then Some (Single, [c], rest)
      else if bool_decide (c = dquote) then Some (Double, [c], rest)
      else None
  end.

(** The characters, with whether they stand outside quotes. *)
Fixpoint annotate (fuel : nat) (q : Quote) (l : chars) : list (Ascii.ascii * bool) :=
  match fuel, l with
  | S fuel', c :: rest =>
      match quote_step q c rest with
      | Some (q', consumed, rest') => ((λ c, (c, false)) <$> consumed) ++ annotate fuel' q' rest'
      | None => (c, true) :: annotate fuel' q rest
      end
  | _, _ => []
  end.
Definition annotated (l : chars) : list (Ascii.ascii * bool) := annotate (length l) Plain l.

(** The text of a literal from its first quote on, and what follows. *)
Fixpoint literal_body (l : chars) : chars * chars :=
  match l with
  | [] => ([], [])
  | c :: rest =>
      if bool_decide (c = quote) then
        match rest with
        | c' :: rest' =>
            if bool_decide (c' = quote) then let '(b, a) := literal_body rest' in (quote :: b, a) else ([], rest)
        | [] => ([], rest)
        end
      else let '(b, a) := literal_body rest in (c :: b, a)
  end.
Definition read_single_quoted (l : chars) : chars * chars := literal_body (tail l).

Fixpoint find_plain (target : Ascii.ascii) (a : list (Ascii.ascii * bool)) : option nat :=
  match a with
  | [] => None
  | (c, plain) :: a' => if plain && bool_decide (c = target) then Some 0 else S <$> find_plain target a'
  end.
Definition find_unquoted (l : chars) (target : Ascii.ascii) : option nat := find_plain target (annotated l).

Fixpoint close_at (depth : Z) (a : list (Ascii.ascii * bool)) : option nat :=
  match a with
  | [] => None
  | (c, plain) :: a' =>
      if negb plain then S <$> close_at depth a'
      else if bool_decide (c = "("%char) then S <$> close_at (depth + 1) a'
      else if bool_decide (c = ")"%char) then
        if bool_decide (depth - 1 = 0)%Z then Some 0 else S <$> close_at (depth - 1) a'
      else S <$> close_at depth a'
  end.

(** From an open parenthesis: what is inside, and what follows the close. *)
Definition match_paren (l : chars) : option (chars * chars) :=
  (λ j, (take (j - 1) (tail l), drop (S j) l)) <$> close_at 0 (annotated l).

Definition flush_item (out : list chars) (buf : chars) : list chars :=
  let t := trim buf in if bool_decide (t = []) then out else out ++ [t].

Fixpoint split_commas (a : list (Ascii.ascii * bool)) (depth : Z) (buf : chars) (out : list chars) : list chars :=
  match a with
  | [] => flush_item out buf
  | (c, plain) :: a' =>
      if negb plain then split_commas a' depth (buf ++ [c]) out
      else if bool_decide (c = "("%char) then split_commas a' (depth + 1) (buf ++ [c]) out
      else if bool_decide (c = ")"%char) then split_commas a' (depth - 1) (buf ++ [c]) out
      else if bool_decide (c = ","%char) && bool_decide (depth = 0)%Z
      then split_commas a' depth [] (flush_item out buf)
      else split_commas a' depth (buf ++ [c]) out
  end.
Definition split_top_level_commas (l : chars) : list chars := split_commas (annotated l) 0 [] [].

(** ** Names and values *)

Definition last_char (l : chars) : option Ascii.ascii := head (reverse l).

Definition wrapped (a b : Ascii.ascii) (l : chars) : bool :=
  bool_decide (2 ≤ length l) && bool_decide (head l = Some a) && bool_decide (last_char l = Some b).

Definition inner (l : chars) : chars := take (length l - 2) (tail l).

Definition trim_identifier (name : chars) : chars :=
  let n := trim name in
  if wrapped dquote dquote n || wrapped "`" "`" n || wrapped "[" "]" n then inner n else n.

Definition is_sensitive_column (name : chars) : bool :=
  let u := upper (trim_identifier name) in
  existsb (λ sub, contains u (str sub)) (Env.redact_substrings Env.default_filter).

Definition is_redacted_marker (l : chars) : bool :=
  starts (str "<redacted:") l && bool_decide (last_char l = Some ">"%char).

(** [replace] of a doubled quote by one. *)
Fixpoint undouble (l : chars) : chars :=
  match l with
  | c :: ((c' :: rest) as tl) =>
      if bool_decide (c = quote) && bool_decide (c' = quote) then quote :: undouble rest else c :: undouble tl
  | _ => l
  end.

Definition strip_single_quotes (l : chars) : option chars :=
  if wrapped quote quote l then Some (undouble (inner l)) else None.
Definition strip_double_quotes (l : chars) : option chars :=
  if wrapped dquote dquote l then Some (inner l) else None.

Definition starts_with_keyword (l kw : chars) : bool :=
  starts kw (upper (take (length kw) l))
  && match drop (length kw) l with c :: _ => negb (is_ident c) | [] => true end.

Section Redact.
Context (blake3 : string → list N).

Definition redact_value (l : chars) : chars := str (Env.redact_value blake3 (unstr l)).

Definition redact_value_literal (value : chars) : chars :=
  let t := trim value in
  match strip_single_quotes t with
  | Some s => if is_redacted_marker s then value else [quote] ++ redact_value s ++ [quote]
  | None =>
      match strip_double_quotes t with
      | Some s => if is_redacted_marker s then value else [dquote] ++ redact_value s ++ [dquote]
      | None => value
      end
  end.

(** ** Keywords followed by a literal *)

Definition PHRASES : list (list string) := [["IDENTIFIED"; "BY"]; ["PASSWORD"]].
Definition MAX_GAP_TOKENS : nat := 6.

(** The next word of a phrase, with at most so many others before it and no
    quote on the way: what follows it. *)
Fixpoint find_needed (fuel : nat) (needed : string) (gap : nat) (probe : chars) : option chars :=
  match fuel, probe with
  | S fuel', c :: rest =>
      if bool_decide (MAX_GAP_TOKENS < gap) then None
      else if bool_decide (c = quote) || bool_decide (c = dquote) then None
      else if negb (is_alphabetic c) then find_needed fuel' needed gap (skip_ws rest)
      else let '(w, after) := read_word probe in
           if bool_decide (upper w = str needed) then Some after
           else find_needed fuel' needed (S gap) (skip_ws after)
  | _, _ => None
  end.

Fixpoint follow_phrase (words : list string) (cursor : chars) : option chars :=
  match words with
  | [] => Some cursor
  | w :: words' =>
      match find_needed (length cursor) w 0 (skip_ws cursor) with
      | Some cursor' => follow_phrase words' cursor'
      | None => None
      end
  end.

(** [chars\[i..j\]] where [chars\[j..\]] is [after]. *)
Definition span_to (l after : chars) : chars := take (length l - length after) l.

Definition matched_phrase (word : chars) : option (list string) :=
  List.find (λ p, match p with w :: _ => bool_decide (str w = upper word) | [] => false end) PHRASES.

Fixpoint keyword_pass (fuel : nat) (q : Quote) (l : chars) : chars :=
  match fuel, l with
  | S fuel', c :: rest =>
      match quote_step q c rest with
      | Some (q', consumed, rest') => consumed ++ keyword_pass fuel' q' rest'
      | None =>
          if is_alphabetic c then
            let '(word, word_end) := read_word l in
            match matched_phrase word ≫= λ p, follow_phrase (tail p) word_end with
            | Some cursor =>
                let probe := skip_ws cursor in
                if bool_decide (head probe = Some quote) then
                  let '(literal, after) := read_single_quoted probe in
                  span_to l probe ++ [quote]
                  ++ (if is_redacted_marker literal then literal else redact_value literal)
                  ++ [quote] ++ keyword_pass fuel' q after
                else span_to l cursor ++ keyword_pass fuel' q cursor
            | None => word ++ keyword_pass fuel' q word_end
            end
          else c :: keyword_pass fuel' q rest
      end
  | _, _ => []
  end.
Definition redact_keyword_then_literal (l : chars) : chars := keyword_pass (length l) Plain l.

(** ** [INSERT] *)

Fixpoint join (sep : chars) (ls : list chars) : chars :=
  match ls with
  | [] => []
  | [x] => x
  | x :: ls' => x ++ sep ++ join sep ls'
  end.

(** The values at sensitive positions. *)
Definition rewrite_values (columns values : list chars) : list chars :=
  zip_with (λ col v, if is_sensitive_column col then redact_value_literal v else v) columns values.

Fixpoint value_groups (fuel : nat) (columns : list chars) (l : chars) : chars :=
  match fuel, l with
  | S fuel', c :: rest =>
      if bool_decide (c = quote) then
        let '(lit, after) := read_single_quoted l in
        [quote] ++ lit ++ [quote] ++ value_groups fuel' columns after
      else if bool_decide (c = "("%char) then
        match match_paren l with
        | None => l
        | Some (group, after) =>
            let values := split_top_level_commas group in
            (if bool_decide (length values = length columns)
             then ["("%char] ++ join (str ", ") (rewrite_values columns values) ++ [")"%char]
             else span_to l after)
            ++ value_groups fuel' columns after
        end
      else c :: value_groups fuel' columns rest
  | _, _ => []
  end.

Definition redact_insert (l : chars) : chars :=
  if negb (starts_with_keyword (trim_start l) (str "INSERT")) then l
  else match find_unquoted l "(" with
       | None => l
       | Some open =>
           match match_paren (drop open l) with
           | None => l
           | Some (col_list, after) =>
               let columns := split_top_level_commas col_list in
               if existsb is_sensitive_column columns
               then span_to l after ++ value_groups (length after) columns after
               else l
           end
       end.

(** ** [UPDATE] *)

Fixpoint find_keyword (fuel : nat) (q : Quote) (kw : string) (l : chars) : option chars :=
  match fuel, l with
  | S fuel', c :: rest =>
      match quote_step q c rest with
      | Some (q', _, rest') => find_keyword fuel' q' kw rest'
      | None =>
          if is_alphabetic c then
            let '(w, after) := read_word l in
            if bool_decide (upper w = str kw) then Some l else find_keyword fuel' q kw after
          else find_keyword fuel' q kw rest
      end
  | _, _ => None
  end.

Definition TERMINATORS : list string := ["WHERE"; "RETURNING"; "ORDER"; "LIMIT"].

(** What starts at the word that ends the clause; nothing if none does. *)
Fixpoint clause_end (fuel : nat) (q : Quote) (depth : Z) (l : chars) : chars :=
  match fuel, l with
  | S fuel', c :: rest =>
      match quote_step q c rest with
      | Some (q', _, rest') => clause_end fuel' q' depth rest'
      | None =>
          if bool_decide (c = "("%char) then clause_end fuel' q (depth + 1) rest
          else if bool_decide (c = ")"%char) then clause_end fuel' q (depth - 1) rest
          else if bool_decide (depth = 0)%Z && is_alphabetic c then
            let '(w, after) := read_word l in
            if existsb (λ t, bool_decide (upper w = str t)) TERMINATORS then l
            else clause_end fuel' q depth after
          else clause_end fuel' q depth rest
      end
  | _, _ => []
  end.

(** One assignment, and whether its value was redacted. *)
Definition rewrite_assignment (assign : chars) : chars * bool :=
  match find_unquoted assign "=" with
  | Some eq_pos =>
      let lhs := trim (take eq_pos assign) in
      let rhs := drop (S eq_pos) assign in
      if is_sensitive_column lhs
      then (lhs ++ str " =" ++ span_to rhs (trim_start rhs) ++ redact_value_literal (trim rhs), true)
      else (assign, false)
  | None => (assign, false)
  end.

Definition redact_update (l : chars) : chars :=
  if negb (starts_with_keyword (trim_start l) (str "UPDATE")) then l
  else match find_keyword (length l) Plain "SET" l with
       | None => l
       | Some set =>
           let clause := drop 3 set in
           let after := clause_end (length clause) Plain 0 clause in
           let assignments := rewrite_assignment <$> split_top_level_commas (span_to clause after) in
           if existsb snd assignments
           then span_to l clause ++ span_to clause (skip_ws clause) ++ join (str ", ") assignments.*1 ++ after
           else l
       end.

Definition redact_statement (stmt : string) : string :=
  unstr (redact_update (redact_insert (redact_keyword_then_literal (str stmt)))).

End Redact.

End Redact.

(** * SQL statements

    [db/stmt.rs]: splitting a script into statements and telling those that
    only read from the others; and [filter_statements] of the helper, which
    keeps and redacts what goes to the daemon. *)

Module Sql.
Import Redact.

(** ** Classification *)

Module StatementKind.
Inductive StatementKind := ReadOnly | Mutating | Unknown.
End StatementKind.
Abbreviation StatementKind := StatementKind.StatementKind.

Definition is_mutating (k : StatementKind) : bool :=
  match k with StatementKind.Mutating | StatementKind.Unknown => true | StatementKind.ReadOnly => false end.

(** [str::find] of a string: what comes after its first occurrence. *)
Fixpoint after_first (sub l : chars) : option chars :=
  if starts sub l then Some (drop (length sub) l)
  else match l with [] => None | _ :: l' => after_first sub l' end.

Fixpoint strip_comments (fuel : nat) (rest : chars) : chars :=
  match fuel with
  | 0 => []
  | S fuel' =>
      if starts (str "--") rest then
        match after_first ["010"%char] (drop 2 rest) with
        | Some after => strip_comments fuel' (trim_start after)
        | None => []
        end
      else if starts (str "/*") rest then
        match after_first (str "*/") (drop 2 rest) with
        | Some after => strip_comments fuel' (trim_start after)
        | None => []
        end
      else rest
  end.
Definition strip_leading_comments_and_whitespace (l : chars) : chars :=
  strip_comments (S (length l)) (trim_start l).

Definition not_ident (c : option Ascii.ascii) : bool :=
  match c with Some c => negb (is_ident c) | None => true end.

(** [prev] is the character before. *)
Fixpoint has_word_from (fuel : nat) (target : chars) (prev : option Ascii.ascii) (l : chars) : bool :=
  match fuel, l with
  | S fuel', c :: rest =>
      if starts target l then
        let after := drop (length target) l in
        if not_ident prev && not_ident (head after) then true
        else has_word_from fuel' target (last_char target) after
      else has_word_from fuel' target (Some c) rest
  | _, _ => false
  end.
Definition has_word (haystack : chars) (needle : string) : bool :=
  has_word_from (length haystack) (str needle) None (upper haystack).

Fixpoint with_body (fuel : nat) (depth : Z) (l : chars) : StatementKind :=
  match fuel, l with
  | S fuel', c :: rest =>
      if bool_decide (c = "("%char) then with_body fuel' (depth + 1) rest
      else if bool_decide (c = ")"%char) then with_body fuel' (depth - 1) rest
      else if bool_decide (depth = 0)%Z && is_alphabetic c then
        let '(w, after) := read_word l in
        if bool_decide (upper w = str "SELECT") then StatementKind.ReadOnly
        else if existsb (λ k, bool_decide (upper w = str k)) ["INSERT"; "UPDATE"; "DELETE"; "MERGE"]
        then StatementKind.Mutating
        else with_body fuel' depth after
      else with_body fuel' depth rest
  | _, _ => StatementKind.Unknown
  end.
Definition classify_with_body (l : chars) : StatementKind := with_body (length l) 0 l.

Definition MUTATING : list string :=
  ["INSERT"; "UPDATE"; "DELETE"; "MERGE"; "REPLACE"; "UPSERT"; "TRUNCATE"; "CREATE"; "DROP"; "ALTER"; "RENAME";
   "GRANT"; "REVOKE"; "COMMENT"; "VACUUM"; "ANALYZE"; "REINDEX"; "CLUSTER"; "COPY"; "LOAD"; "IMPORT"; "EXPORT";
   "CALL"; "DO"; "BEGIN"; "COMMIT"; "ROLLBACK"; "SAVEPOINT"; "RELEASE"; "SET"; "RESET"; "PRAGMA"; "ATTACH";
   "DETACH"; "VACUUMING"; "USE"].

Definition is_one_of (w : chars) (ks : list string) : bool := existsb (λ k, bool_decide (w = str k)) ks.

Definition classify_statement (sql : chars) : StatementKind :=
  let trimmed := strip_leading_comments_and_whitespace sql in
  match trimmed with
  | [] => StatementKind.Unknown
  | _ =>
      let first := upper (take_while is_ident trimmed) in
      let rest := drop_while is_ident trimmed in
      let into := if has_word rest "INTO" then StatementKind.Mutating else StatementKind.ReadOnly in
      if is_one_of first ["SELECT"; "EXPLAIN"] then into
      else if is_one_of first ["SHOW"; "DESCRIBE"; "DESC"; "VALUES"; "TABLE"] then StatementKind.ReadOnly
      else if is_one_of first ["WITH"] then classify_with_body rest
      else if is_one_of first MUTATING then StatementKind.Mutating
      else StatementKind.Unknown
  end.

(** ** Splitting *)

(** Where the scan stands: outside, in a comment of either kind, in a
    dollar-quoted literal with its tag, in single or double quotes. *)
Inductive Mode := MPlain | MLine | MBlock | MDollar (tag : chars) | MSingle | MDouble.

Definition tag_start (c : Ascii.ascii) : bool := is_alphabetic c || bool_decide (c = "_"%char).

(** The tag up to the closing dollar, [ok] being what its next character may
    be. *)
Fixpoint tag_body (ok : Ascii.ascii → bool) (l : chars) : option chars :=
  match l with
  | [] => None
  | c :: rest =>
      if bool_decide (c = "$"%char) then Some []
      else if ok c then (λ t, c :: t) <$> tag_body is_ident rest else None
  end.

(** At a dollar: the tag and the length of the opener. *)
Definition read_dollar_open (l : chars) : option (chars * nat) :=
  (λ tag, (tag, S (S (length tag)))) <$> tag_body tag_start (tail l).

Definition match_dollar_tag (l tag : chars) : option nat :=
  if starts (["$"%char] ++ tag ++ ["$"%char]) l then Some (2 + length tag) else None.

Definition push_statement (out : list chars) (buf : chars) : list chars :=
  let stmt := trim buf in if bool_decide (stmt = []) then out else out ++ [stmt].

Fixpoint split_run (fuel : nat) (m : Mode) (l buf : chars) (out : list chars) : list chars :=
  match fuel, l with
  | S fuel', c :: rest =>
      let next := head rest in
      match m with
      | MLine => split_run fuel' (if bool_decide (c = "010"%char) then MPlain else MLine) rest (buf ++ [c]) out
      | MBlock =>
          if bool_decide (c = "*"%char) && bool_decide (next = Some "/"%char)
          then split_run fuel' MPlain (tail rest) (buf ++ [c; "/"%char]) out
          else split_run fuel' MBlock rest (buf ++ [c]) out
      | MDollar tag =>
          match (if bool_decide (c = "$"%char) then match_dollar_tag l tag else None) with
          | Some consumed => split_run fuel' MPlain (drop consumed l) (buf ++ take consumed l) out
          | None => split_run fuel' m rest (buf ++ [c]) out
          end
      | MSingle =>
          if bool_decide (c = quote) then
            if bool_decide (next = Some quote) then split_run fuel' MSingle (tail rest) (buf ++ [c; quote]) out
            else split_run fuel' MPlain rest (buf ++ [c]) out
          else split_run fuel' MSingle rest (buf ++ [c]) out
      | MDouble => split_run fuel' (if bool_decide (c = dquote) then MPlain else MDouble) rest (buf ++ [c]) out
      | MPlain =>
          match (if bool_decide (c = "$"%char) then read_dollar_open l else None) with
          | Some (tag, consumed) => split_run fuel' (MDollar tag) (drop consumed l) (buf ++ take consumed l) out
          | None =>
              if bool_decide (c = quote) then split_run fuel' MSingle rest (buf ++ [c]) out
              else if bool_decide (c = dquote) then split_run fuel' MDouble rest (buf ++ [c]) out
              else if bool_decide (c = "-"%char) && bool_decide (next = Some "-"%char)
              then split_run fuel' MLine rest (buf ++ [c]) out
              else if bool_decide (c = "/"%char) && bool_decide (next = Some "*"%char)
              then split_run fuel' MBlock (tail rest) (buf ++ [c; "*"%char]) out
              else if bool_decide (c = ";"%char) then split_run fuel' MPlain rest [] (push_statement out buf)
              else split_run fuel' MPlain rest (buf ++ [c]) out
          end
      end
  | _, _ => push_statement out buf
  end.
Definition split_statements (script : chars) : list chars := split_run (length script) MPlain script [] [].

(** ** What goes to the daemon *)

Definition filter_statements (blake3 : string → list N) (blob : chars) : list string :=
  if bool_decide (trim blob = []) then []
  else (λ s, redact_statement blake3 (unstr s))
         <$> List.filter (λ s, is_mutating (classify_statement s)) (split_statements blob).

End Sql.
