(* ===== verification/Packages.v ===== *)
(** * Package managers

    [executors/package.rs]: the invocations that reverse a package
    transaction, and the executor, which prefers the manager's own rollback
    when the plan carries one. *)

From S2P Require Import Prelude Paths Base Events Inverse Probe Network Plan Executor Env Orchestrator.
From S2P Require Import Redirect Runners.

Module Packages.
Import Plan Executor Orchestrator Runners.

#[export] Instance PackageManager_eq_dec : EqDecision PackageManager.
Proof. solve_decision. Defined.

(** Names with versions, in the order of a [BTreeMap]. *)
Abbreviation Pkgs := (gmap string string).

Section Diff.
Context (packages_before packages_after : Pkgs).

Definition installed : list string :=
  fst <$> List.filter (λ kv, negb (bool_decide (is_Some (packages_before !! kv.1)))) (btree_iter packages_after).

Definition removed : list (string * string) :=
  List.filter (λ kv, negb (bool_decide (is_Some (packages_after !! kv.1)))) (btree_iter packages_before).

Definition changed : list (string * string) :=
  List.filter (λ kv, match packages_after !! kv.1 with
                     | Some v_after => negb (bool_decide (v_after = kv.2))
                     | None => false
                     end) (btree_iter packages_before).
End Diff.

(** [if !installed.is_empty() { ... }]: one invocation for all of them. *)
Definition one_for_all (prefix : list string) (args : list string) : list (list string) :=
  match args with [] => [] | _ => [prefix ++ args] end.

Definition apt_argv (inst : list string) (rem ch : list (string * string)) : list (list string) :=
  one_for_all ["apt-get"; "remove"; "-y"] inst
  ++ one_for_all ["apt-get"; "install"; "-y"; "--allow-downgrades"]
       ((λ kv, kv.1 +:+ "=" +:+ kv.2) <$> rem ++ ch).

Definition pacman_argv (inst : list string) (rem ch : list (string * string)) : list (list string) :=
  one_for_all ["pacman"; "-R"; "--noconfirm"] inst
  ++ ((λ kv, ["pacman"; "-U"; "--noconfirm";
              "/var/cache/pacman/pkg/" +:+ kv.1 +:+ "-" +:+ kv.2 +:+ "-x86_64.pkg.tar.zst"]) <$> rem ++ ch).

Definition all_digits (s : string) : bool :=
  forallb Redirect.is_ascii_digit (String.list_ascii_of_string s).

Definition dnf_argv (inst : list string) (rem ch : list (string * string)) (history_id : option string)
    : list (list string) :=
  let per_package :=
    one_for_all ["dnf"; "remove"; "-y"] inst
    ++ one_for_all ["dnf"; "install"; "-y"] ((λ kv, kv.1 +:+ "-" +:+ kv.2) <$> rem ++ ch) in
  match history_id with
  | Some id =>
      if all_digits id && negb (bool_decide (id = "")) then [["dnf"; "history"; "undo"; "-y"; id]] else per_package
  | None => per_package
  end.

Definition brew_argv (inst : list string) (rem ch : list (string * string)) : list (list string) :=
  ((λ name, ["brew"; "uninstall"; name]) <$> inst)
  ++ ((λ kv : string * string, ["brew"; "install"; kv.1]) <$> rem ++ ch).

Definition pkg_argv (inst : list string) (rem ch : list (string * string)) : list (list string) :=
  one_for_all ["/usr/sbin/pkg"; "delete"; "-y"] inst
  ++ ((λ kv, ["/usr/sbin/pkg"; "install"; "-y"; kv.1 +:+ "-" +:+ kv.2]) <$> rem ++ ch).

Definition synthesize_argv (manager : PackageManager) (before after : Pkgs) (repo_state_hint : option string)
    : list (list string) :=
  let inst := installed before after in
  let rem := removed before after in
  let ch := changed before after in
  match inst, rem, ch with
  | [], [], [] => []
  | _, _, _ =>
      match manager with
      | PackageManager.Apt | PackageManager.Dpkg => apt_argv inst rem ch
      | PackageManager.Pacman => pacman_argv inst rem ch
      | PackageManager.Dnf => dnf_argv inst rem ch repo_state_hint
      | PackageManager.Brew => brew_argv inst rem ch
      | PackageManager.Pkg => pkg_argv inst rem ch
      end
  end.

Section Execute.
Context {T : Type} (run : Run T) (capture : list string → T → string + Msg).

(** The guard of a native rollback: [None] when it holds or there is none.
    The output is UTF-8, where [from_utf8_lossy] is the identity. *)
Definition guard_failure (d : NativeDelegation) (t : T) : option Msg :=
  match nd_guard_command d, nd_guard_match d with
  | Some (_ :: _ as guard_cmd), Some guard_substr =>
      match capture guard_cmd t with
      | inl stdout =>
          if Env.str_contains stdout guard_substr then None
          else Some [Lit "delegation guard mismatch: `"; Lit guard_substr; Lit "` not in `";
                     Lit (default "?" (head guard_cmd)); Lit "` output"]
      | inr e => Some (Lit "delegation guard: " :: e)
      end
  | _, _ => None
  end.

Definition package_execute (op : InverseOp) (dry_run : bool) (_ : ConflictPolicy) (t : T)
    : ExecutionOutcome * T :=
  match op with
  | InverseOp.PackageRollback manager _ before after hint (Some d) =>
      match guard_failure d t with
      | Some e => (ExecutionOutcome.Failed e, t)
      | None =>
          if dry_run then (ExecutionOutcome.WouldApply, t)
          else match run (nd_argv d) t with
               | (inl _, t') => (ExecutionOutcome.Applied, t')
               | (inr e, t') => (ExecutionOutcome.Failed (argv_error (nd_argv d) e), t')
               end
      end
  | InverseOp.PackageRollback manager _ before after hint None =>
      match synthesize_argv manager before after hint with
      | [] => (ExecutionOutcome.Skipped [Lit "no-op diff (packages_before == packages_after)"], t)
      | invocations =>
          if dry_run then (ExecutionOutcome.WouldApply, t)
          else match run_all run invocations t with
               | (inl _, t') => (ExecutionOutcome.Applied, t')
               | (inr e, t') => (ExecutionOutcome.Failed e, t')
               end
      end
  | _ => (ExecutionOutcome.Skipped [Lit "package executor reached non-package op"], t)
  end.

End Execute.

(** [PkgRunner::capture] as the trait provides it; the runner of the daemon
    does not override it. *)
Definition default_capture {T} (_ : list string) (_ : T) : string + Msg := inl "".

End Packages.
