(* ===== verification/Containers.v ===== *)
(** * JSON values and the container executor

    First [serde_json::Value] and the accessors the container and GitHub executors
    use. Parsing is an argument of the definitions that read captured bytes.
    An object is the list of its fields in the order of the keys, without
    repetition, which is how the map of the crate iterates. *)

From stdpp Require Import pretty.
From S2P Require Import Prelude Paths Base Events Inverse Executor Redirect Runners Text.

Module Json.

(** A number as it is displayed, with its value where it is a [u64]. *)
Inductive Json :=
  | JNull
  | JBool (b : bool)
  | JNum (display : string) (u64 : option N)
  | JStr (s : string)
  | JArr (l : list Json)
  | JObj (fields : list (string * Json)).

Definition get (key : string) (v : Json) : option Json :=
  match v with
  | JObj fields => snd <$> List.find (λ kv : string * Json, bool_decide (kv.1 = key)) fields
  | _ => None
  end.

Definition as_str (v : Json) : option string := match v with JStr s => Some s | _ => None end.
Definition as_bool (v : Json) : option bool := match v with JBool b => Some b | _ => None end.
Definition as_u64 (v : Json) : option N := match v with JNum _ n => n | _ => None end.
Definition as_array (v : Json) : option (list Json) := match v with JArr l => Some l | _ => None end.
Definition as_object (v : Json) : option (list (string * Json)) := match v with JObj f => Some f | _ => None end.

(** [.get(key).and_then(f)]. *)
Definition field {A} (f : Json → option A) (key : string) (v : Json) : option A :=
  match get key v with Some x => f x | None => None end.

(** [.get(key).cloned().unwrap_or(Value::Null)]. *)
Definition get_or_null (key : string) (v : Json) : Json := default JNull (get key v).

(** The only element of an array of one, as [inspect] prints it. *)
Definition unwrap_one (v : Json) : Json :=
  match v with
  | JArr l => default JNull (head l)
  | _ => v
  end.

Definition nonempty (s : option string) : option string :=
  match s with Some "" => None | _ => s end.

End Json.

(** * The container executor

    [executors/container.rs] of the planner with the runner of the daemon
    ([DaemonContainerRunner] of [ctl.rs]): a removed image, volume, network,
    container or composition is made again from what was captured. Tarballs
    come from the daemon's blob store; programs and the JSON parser are
    arguments. *)

Module Containers.
Import Executor Runners Text Json.

Definition runtime_bin (r : ContainerRuntime) : string :=
  match r with ContainerRuntime.Docker => "docker" | ContainerRuntime.Podman => "podman" end.

(** ** Synthesis of invocations *)

(** A flag with its value, where there is one. *)
Definition flag_opt (flag : string) (v : option string) : list string :=
  match v with Some s => [flag; s] | None => [] end.

(** One flag per string of an array. *)
Definition flag_each (flag : string) (l : option (list Json)) : list string :=
  mjoin ((λ v, flag_opt flag (as_str v)) <$> default [] l).

(** One flag with [key=value] per field that is a string. *)
Definition flag_fields (flag : string) (f : option (list (string * Json))) : list string :=
  mjoin ((λ kv : string * Json, flag_opt flag ((λ s, kv.1 +:+ "=" +:+ s) <$> as_str kv.2)) <$> default [] f).

Definition flag_if (flag : string) (b : option bool) : list string := if default false b then [flag] else [].

Definition is_hexdigit (c : Ascii.ascii) : bool :=
  let n := Ascii.N_of_ascii c in
  bool_decide (48 ≤ n ≤ 57)%N || bool_decide (65 ≤ n ≤ 70)%N || bool_decide (97 ≤ n ≤ 102)%N.

Definition looks_like_auto_hostname (hostname : string) (inspect : Json) : bool :=
  match field as_str "Id" inspect with
  | None => false
  | Some id =>
      bool_decide (String.length hostname = 12) && Redirect.starts id hostname
      && forallb is_hexdigit (String.list_ascii_of_string hostname)
  end.

Definition hostname_flag (config inspect : Json) : list string :=
  match nonempty (field as_str "Hostname" config) with
  | Some h => if looks_like_auto_hostname h inspect then [] else ["--hostname"; h]
  | None => []
  end.

Definition port_spec (host_ip host_port cport proto : string) : string :=
  if bool_decide (host_ip = "") then
    if bool_decide (host_port = "") then cport +:+ "/" +:+ proto
    else host_port +:+ ":" +:+ cport +:+ "/" +:+ proto
  else if bool_decide (host_port = "") then host_ip +:+ "::" +:+ cport +:+ "/" +:+ proto
  else host_ip +:+ ":" +:+ host_port +:+ ":" +:+ cport +:+ "/" +:+ proto.

Definition port_flags (kv : string * Json) : list string :=
  let '(cport, proto) := match split_once "/" kv.1 with Some p => p | None => (kv.1, "tcp") end in
  mjoin ((λ b, ["-p"; port_spec (default "" (field as_str "HostIp" b)) (default "" (field as_str "HostPort" b))
                        cport proto]) <$> default [] (as_array kv.2)).

Definition mount_flags (m : Json) : list string :=
  let typ := default "" (field as_str "Type" m) in
  let dst := default "" (field as_str "Destination" m) in
  let suffix := if default true (field as_bool "RW" m) then "" else ":ro" in
  let volume src :=
    if negb (bool_decide (src = "")) && negb (bool_decide (dst = ""))
    then ["-v"; src +:+ ":" +:+ dst +:+ suffix] else [] in
  if bool_decide (typ = "volume") then volume (default "" (field as_str "Name" m))
  else if bool_decide (typ = "bind") then volume (default "" (field as_str "Source" m))
  else if bool_decide (typ = "tmpfs") && negb (bool_decide (dst = "")) then ["--tmpfs"; dst]
  else [].

Definition restart_flag (host_config : Json) : list string :=
  match get "RestartPolicy" host_config with
  | None => []
  | Some rp =>
      let policy := default "" (field as_str "Name" rp) in
      if bool_decide (policy = "") || bool_decide (policy = "no") then []
      else
        let spec :=
          match field as_u64 "MaximumRetryCount" rp with
          | Some n => if bool_decide (policy = "on-failure") && bool_decide (0 < n)%N
                      then "on-failure:" +:+ pretty n else policy
          | None => policy
          end in
        ["--restart=" +:+ spec]
  end.

Definition network_flag (host_config : Json) : list string :=
  match nonempty (field as_str "NetworkMode" host_config) with
  | Some nm => if bool_decide (nm = "default") then [] else ["--network"; nm]
  | None => []
  end.

(** The entry point is one argument: its parts, with blanks between. *)
Definition entrypoint_flag (config : Json) : list string :=
  match omap as_str (default [] (field as_array "Entrypoint" config)) with
  | [] => []
  | parts => ["--entrypoint"; join " " parts]
  end.

Definition image_of (config : Json) (image_override : option string) : string :=
  match image_override with
  | Some i => i
  | None => default "" (nonempty (field as_str "Image" config))
  end.

Definition synthesize_container_run (bin name : string) (inspect : Json) (image_override : option string) : list string :=
  let config := get_or_null "Config" inspect in
  let host_config := get_or_null "HostConfig" inspect in
  [bin; "run"; "-d"; "--name"; name]
  ++ hostname_flag config inspect
  ++ flag_opt "-u" (nonempty (field as_str "User" config))
  ++ flag_opt "-w" (nonempty (field as_str "WorkingDir" config))
  ++ flag_each "-e" (field as_array "Env" config)
  ++ flag_fields "--label" (field as_object "Labels" config)
  ++ mjoin (port_flags <$> default [] (field as_object "PortBindings" host_config))
  ++ mjoin (mount_flags <$> default [] (field as_array "Mounts" inspect))
  ++ restart_flag host_config
  ++ network_flag host_config
  ++ flag_if "--privileged" (field as_bool "Privileged" host_config)
  ++ flag_if "--read-only" (field as_bool "ReadonlyRootfs" host_config)
  ++ flag_each "--cap-add" (field as_array "CapAdd" host_config)
  ++ flag_each "--cap-drop" (field as_array "CapDrop" host_config)
  ++ entrypoint_flag config
  ++ [image_of config image_override]
  ++ omap as_str (default [] (field as_array "Cmd" config)).

Definition ipam_flags (c : Json) : list string :=
  flag_opt "--subnet" (field as_str "Subnet" c) ++ flag_opt "--gateway" (field as_str "Gateway" c)
  ++ flag_opt "--ip-range" (field as_str "IPRange" c).

Definition synthesize_network_create (bin name : string) (inspect : Json) : list string :=
  [bin; "network"; "create"]
  ++ flag_opt "--driver" (nonempty (field as_str "Driver" inspect))
  ++ flag_if "--internal" (field as_bool "Internal" inspect)
  ++ mjoin (ipam_flags <$> default [] (match get "IPAM" inspect with
                                       | Some ipam => field as_array "Config" ipam | None => None end))
  ++ flag_fields "--label" (field as_object "Labels" inspect)
  ++ flag_fields "--opt" (field as_object "Options" inspect)
  ++ [name].

(** ** Execution *)

Section Execute.
Context {T : Type} (px : Programs T) (json_of : bytes → Json + Msg) (load_stash_tarball : BlobHash → option bytes).

(** Run, and the outcome with the label of the error. *)
Definition run_outcome (label : Msg) (r : (unit + Msg) * T) : ExecutionOutcome * T :=
  match r with
  | (inl _, t') => (ExecutionOutcome.Applied, t')
  | (inr e, t') => (ExecutionOutcome.Failed (label ++ [Lit ": "] ++ e), t')
  end.

Definition apply_pull (image : string) (resolved_id : option string) (dry_run : bool) (t : T) : ExecutionOutcome * T :=
  if dry_run then (ExecutionOutcome.WouldApply, t)
  else
    let note := [Lit " — informational; pull is idempotent. To remove, run `docker rmi "; Lit image; Lit "` manually."] in
    (ExecutionOutcome.Skipped
       (match resolved_id with
        | Some id => [Lit "docker pull "; Lit image; Lit " (resolved: "; Lit id; Lit ")"] ++ note
        | None => [Lit "docker pull "; Lit image] ++ note
        end), t).

Fixpoint trim_slashes (s : string) : string :=
  match s with
  | String "/" rest => trim_slashes rest
  | _ => s
  end.

Definition restored_name (id : string) (name : option string) (obj : Json) : string :=
  match name with
  | Some n => n
  | None =>
      match field as_str "Name" obj with
      | Some s => trim_slashes s
      | None => "shit-restored-" +:+ id
      end
  end.

Definition resolved_image (obj : Json) (stash_image : option string) : option string :=
  match nonempty stash_image with
  | Some s => Some s
  | None => nonempty (match get "Config" obj with Some c => field as_str "Image" c | None => None end)
  end.

(** The stash image has to be there still; nothing to check without one. *)
Definition stash_guard (bin : string) (stash_image : option string) (t : T) : (unit + (string * Msg)) * T :=
  match stash_image with
  | None => (inl tt, t)
  | Some stash =>
      match capture px [bin; "image"; "inspect"; stash] t with
      | (inl _, t') => (inl tt, t')
      | (inr e, t') => (inr (stash, e), t')
      end
  end.

Definition apply_rm (bin id : string) (name : option string) (was_running : bool) (captured_config : bytes)
    (stash_image : option string) (dry_run : bool) (t : T) : ExecutionOutcome * T :=
  match json_of captured_config with
  | inr e =>
      (ExecutionOutcome.Failed ([Lit bin; Lit " rm reverse: captured inspect JSON is invalid: "] ++ e
         ++ [Lit " (container `"; Lit (default id name); Lit "`, id `"; Lit id; Lit "`)"]), t)
  | inl inspect =>
      let obj := unwrap_one inspect in
      let rname := restored_name id name obj in
      if was_running && bool_decide (stash_image = None) then
        (ExecutionOutcome.Failed
           [Lit bin; Lit " rm reverse: container `"; Lit rname; Lit "` was running at capture but no stash image was recorded (capture path missed `";
            Lit bin; Lit " commit`). Restoring from the original image would lose any rootfs writes."], t)
      else match stash_guard bin stash_image t with
           | (inr (stash, e), t) =>
               (ExecutionOutcome.Failed ([Lit bin; Lit " rm reverse: stash image `"; Lit stash; Lit "` missing ("] ++ e
                  ++ [Lit "); cannot replay container `"; Lit rname; Lit "`"]), t)
           | (inl _, t) =>
               match resolved_image obj stash_image with
               | None =>
                   (ExecutionOutcome.Failed
                      [Lit bin; Lit " rm reverse: captured inspect JSON has no resolvable image for container `";
                       Lit rname; Lit "` (neither stash_image nor .Config.Image populated)"], t)
               | Some _ =>
                   if dry_run then (ExecutionOutcome.WouldApply, t)
                   else run_outcome [Lit bin; Lit " run (rm reverse)"]
                          (system_run (px_exec px) (synthesize_container_run bin rname obj stash_image) t)
               end
           end
  end.

(** The stashed tarball, or why there is none. *)
Definition tarball_of (bin verb what subject missed : string) (stash_tarball : option BlobHash) : bytes + Msg :=
  match stash_tarball with
  | None =>
      inr [Lit bin; Lit (" " +:+ verb +:+ " reverse: no stash tarball recorded for " +:+ what +:+ " `"); Lit subject;
           Lit ("` (capture path missed " +:+ missed +:+ ")")]
  | Some h =>
      match load_stash_tarball h with
      | Some b => inl b
      | None =>
          inr [Lit bin; Lit (" " +:+ verb +:+ " reverse: stash tarball for `"); Lit subject;
               Lit "` missing from store (GC'd past retention or manually removed)"]
      end
  end.

Definition apply_rmi (bin image : string) (stash_tarball : option BlobHash) (dry_run : bool) (t : T)
    : ExecutionOutcome * T :=
  match tarball_of bin "rmi" "image" image ("`" +:+ bin +:+ " save`") stash_tarball with
  | inr e => (ExecutionOutcome.Failed e, t)
  | inl tarball =>
      if dry_run then (ExecutionOutcome.WouldApply, t)
      else run_outcome [Lit bin; Lit " load"] (run_with_stdin px [bin; "load"] tarball t)
  end.

Definition volume_create_argv (bin name : string) (driver : option string) : list string :=
  [bin; "volume"; "create"] ++ flag_opt "--driver" driver ++ [name].

Definition volume_extract_argv (bin name : string) : list string :=
  [bin; "run"; "--rm"; "-i"; "-v"; name +:+ ":/data"; "busybox"; "tar"; "-C"; "/data"; "-xzf"; "-"].

Definition apply_volume_rm (bin name : string) (driver : option string) (stash_tarball : option BlobHash)
    (dry_run : bool) (t : T) : ExecutionOutcome * T :=
  match tarball_of bin "volume rm" "volume" name "the tar step" stash_tarball with
  | inr e => (ExecutionOutcome.Failed e, t)
  | inl tarball =>
      if dry_run then (ExecutionOutcome.WouldApply, t)
      else match system_run (px_exec px) (volume_create_argv bin name driver) t with
           | (inr e, t) => (ExecutionOutcome.Failed ([Lit bin; Lit " volume create: "] ++ e), t)
           | (inl _, t) =>
               run_outcome [Lit bin; Lit " volume extract"] (run_with_stdin px (volume_extract_argv bin name) tarball t)
           end
  end.

Definition apply_network_rm (bin name : string) (captured_config : bytes) (dry_run : bool) (t : T)
    : ExecutionOutcome * T :=
  match json_of captured_config with
  | inr e => (ExecutionOutcome.Failed ([Lit bin; Lit " network create: captured inspect JSON is invalid: "] ++ e), t)
  | inl inspect =>
      if dry_run then (ExecutionOutcome.WouldApply, t)
      else run_outcome [Lit bin; Lit " network create"]
             (system_run (px_exec px) (synthesize_network_create bin name (unwrap_one inspect)) t)
  end.

Definition apply_compose_down (bin project : string) (compose_file : PathBuf) (dry_run : bool) (t : T)
    : ExecutionOutcome * T :=
  if dry_run then (ExecutionOutcome.WouldApply, t)
  else run_outcome [Lit bin; Lit " compose up"]
         (system_run (px_exec px) [bin; "compose"; "-f"; path_string compose_file; "-p"; project; "up"; "-d"] t).

Definition container_execute (op : InverseOp) (dry_run : bool) (_ : ConflictPolicy) (t : T) : ExecutionOutcome * T :=
  match op with
  | InverseOp.ContainerRestore runtime cop captured_config stash_image stash_tarball _ =>
      let bin := runtime_bin runtime in
      match cop with
      | ContainerOp.Rm id name was_running => apply_rm bin id name was_running captured_config stash_image dry_run t
      | ContainerOp.Rmi image _ => apply_rmi bin image stash_tarball dry_run t
      | ContainerOp.VolumeRm name driver => apply_volume_rm bin name driver stash_tarball dry_run t
      | ContainerOp.NetworkRm name => apply_network_rm bin name captured_config dry_run t
      | ContainerOp.ComposeDown project _ compose_file _ => apply_compose_down bin project compose_file dry_run t
      | ContainerOp.Pull image resolved_id => apply_pull image resolved_id dry_run t
      end
  | _ => (ExecutionOutcome.Skipped [Lit "container executor reached non-container op"], t)
  end.

End Execute.

End Containers.
