(* ===== verification/Notes.v ===== *)
(** * The executors of cloud tools

    [executors/terraform.rs], [kubectl.rs], [gh.rs] and [aws.rs] of the
    planner with the runners of the daemon ([ctl.rs]). The daemon has no
    executor for [aws]: its operations are skipped there. Programs, the JSON
    parser and the writing of a temporary state file are arguments. [Notes]:
    the executors that give advice ([process.rs], [db.rs]) and the one of
    descriptors. *)

From stdpp Require Import pretty.
From S2P Require Import Prelude Paths Base Events Inverse Plan Executor Env Redirect Runners Text.
From S2P Require Import Containers.

Module Clouds.
Import Executor Runners Text Json.

Module ReversePlan.
Inductive ReversePlan :=
  | Run (argv : list string)
  | RunWithStdin (argv : list string) (stdin : bytes)
  | Informational (msg : Msg).
End ReversePlan.
Abbreviation ReversePlan := ReversePlan.ReversePlan.

Module AwsReversePlan.
Inductive AwsReversePlan := Run (argv : list string) | Informational (msg : Msg).
End AwsReversePlan.
Abbreviation AwsReversePlan := AwsReversePlan.AwsReversePlan.

Definition tool_outcome {T} (label : string) (r : (unit + Msg) * T) : ExecutionOutcome * T :=
  match r with
  | (inl _, t') => (ExecutionOutcome.Applied, t')
  | (inr e, t') => (ExecutionOutcome.Failed ([Lit label; Lit ": "] ++ e), t')
  end.

Section Execute.
Context {T : Type} (px : Programs T).

(** ** terraform *)

(** [stash_bytes]: a file with the bytes, below the directory or not. *)
Context (stash_state : bytes → PathBuf → T → (PathBuf + Msg) * T).

Definition apply_reverse_via_destroy (workdir : PathBuf) (t : T) : ExecutionOutcome * T :=
  tool_outcome "terraform destroy" (run_in px workdir ["terraform"; "destroy"; "-auto-approve"; "-no-color"] t).

Definition destroy_reverse_via_state_push (workdir : PathBuf) (prior_state : bytes) (t : T) : ExecutionOutcome * T :=
  if bool_decide (prior_state = []) then
    (ExecutionOutcome.Skipped
       [Lit "no prior state captured for terraform destroy reverse (was the destroy run outside a shit-hooked shell?)"], t)
  else
    match stash_state prior_state workdir t with
    | (inr e, t) => (ExecutionOutcome.Failed (Lit "stash state: " :: e), t)
    | (inl state_file, t) =>
        match run_in px workdir ["terraform"; "state"; "push"; path_string state_file] t with
        | (inr e, t) => (ExecutionOutcome.Failed (Lit "terraform state push: " :: e), t)
        | (inl _, t) =>
            tool_outcome "terraform apply (destroy-reverse recreate)"
              (run_in px workdir ["terraform"; "apply"; "-auto-approve"; "-no-color"] t)
        end
    end.

Definition terraform_execute (op : InverseOp) (dry_run : bool) (_ : ConflictPolicy) (t : T) : ExecutionOutcome * T :=
  match op with
  | InverseOp.TerraformReverse workdir tf_op prior_state _ _ =>
      let manual variant :=
        (ExecutionOutcome.Skipped
           [Lit "terraform "; DebugVariant variant []; Lit " undo requires manual state surgery; see `shit show` for the captured pre-state"], t) in
      match tf_op with
      | TerraformOp.StateRm => manual "StateRm"
      | TerraformOp.Import => manual "Import"
      | TerraformOp.Apply => if dry_run then (ExecutionOutcome.WouldApply, t) else apply_reverse_via_destroy workdir t
      | TerraformOp.Destroy =>
          if dry_run then (ExecutionOutcome.WouldApply, t) else destroy_reverse_via_state_push workdir prior_state t
      end
  | _ => (ExecutionOutcome.Skipped [Lit "terraform executor reached non-terraform op"], t)
  end.

(** ** kubectl *)

Definition reverse_argv : list string := ["kubectl"; "apply"; "-f"; "-"].

Definition kubectl_execute (op : InverseOp) (dry_run : bool) (_ : ConflictPolicy) (t : T) : ExecutionOutcome * T :=
  match op with
  | InverseOp.KubectlReverse context _ _ captured_yaml _ =>
      match capture px ["kubectl"; "config"; "current-context"] t with
      | (inr e, t) => (ExecutionOutcome.Failed (Lit "context check: " :: e), t)
      | (inl stdout, t) =>
          let live := Plan.trim (from_utf8_lossy stdout) in
          if negb (bool_decide (live = context)) then
            (ExecutionOutcome.Failed
               [Lit "kube-context drift: captured `"; Lit context; Lit "`, live `"; Lit live;
                Lit "` (use --allow-context-change to override)"], t)
          else if dry_run then (ExecutionOutcome.WouldApply, t)
          else tool_outcome "kubectl" (run_with_stdin px reverse_argv captured_yaml t)
      end
  | _ => (ExecutionOutcome.Skipped [Lit "kubectl executor reached non-kubectl op"], t)
  end.

(** ** gh *)

Context (json_of : bytes → Json + Msg).

Definition release_argv (tag title : string) (v : Json) : list string :=
  ["gh"; "release"; "create"; tag; "--title"; title; "--notes-file"; "-"]
  ++ (if default false (field as_bool "isDraft" v) then ["--draft"] else [])
  ++ (if default false (field as_bool "isPrerelease" v) then ["--prerelease"] else []).

Definition build_reverse (op : GhOp) (captured_json : bytes) : ReversePlan + Msg :=
  match op with
  | GhOp.ReleaseDelete tag =>
      match json_of captured_json with
      | inr e => inr (Lit "parse release JSON: " :: e)
      | inl v =>
          inl (ReversePlan.RunWithStdin (release_argv tag (default tag (field as_str "name" v)) v)
                 (String.list_byte_of_string (default "" (field as_str "body" v))))
      end
  | GhOp.ReleaseDeleteAsset tag asset =>
      inl (ReversePlan.Informational
             [Lit "asset `"; Lit asset; Lit "` was deleted from release `"; Lit tag;
              Lit "`; v1 does not auto-restore asset bytes. Re-upload manually with `gh release upload "; Lit tag; Lit " <local-path>`."])
  | GhOp.IssueClose number => inl (ReversePlan.Run ["gh"; "issue"; "reopen"; pretty number])
  | GhOp.PrClose number => inl (ReversePlan.Run ["gh"; "pr"; "reopen"; pretty number])
  end.

Definition gh_execute (op : InverseOp) (dry_run : bool) (_ : ConflictPolicy) (t : T) : ExecutionOutcome * T :=
  match op with
  | InverseOp.GhReverse gh_op captured_json _ =>
      match build_reverse gh_op captured_json with
      | inr e => (ExecutionOutcome.Skipped (Lit "gh reverse: " :: e), t)
      | inl plan =>
          if dry_run then (ExecutionOutcome.WouldApply, t)
          else match plan with
               | ReversePlan.Run argv => tool_outcome "gh" (system_run (px_exec px) argv t)
               | ReversePlan.RunWithStdin argv stdin => tool_outcome "gh" (run_with_stdin px argv stdin t)
               | ReversePlan.Informational msg => (ExecutionOutcome.Skipped msg, t)
               end
      end
  | _ => (ExecutionOutcome.Skipped [Lit "gh executor reached non-gh op"], t)
  end.

(** ** aws *)

Definition delete_object (bucket key : string) (version : option string) : list string :=
  ["aws"; "s3api"; "delete-object"; "--bucket"; bucket; "--key"; key]
  ++ match nonempty version with Some v => ["--version-id"; v] | None => [] end.

Definition aws_build_reverse (op : AwsOp) (state : gmap string string) : AwsReversePlan :=
  match op with
  | AwsOp.S3Cp bucket key => AwsReversePlan.Run (delete_object bucket key (state !! "version_id"))
  | AwsOp.S3Rm bucket key =>
      match nonempty (state !! "delete_marker_version_id") with
      | Some vid => AwsReversePlan.Run (delete_object bucket key (Some vid))
      | None =>
          AwsReversePlan.Informational
            [Lit "s3 rm of unversioned object `"; Lit bucket; Lit "/"; Lit key;
             Lit "`: cannot mechanically restore. If you need the bytes, run `aws s3 cp <local> s3://"; Lit bucket; Lit "/";
             Lit key; Lit "` from a backup."]
      end
  | AwsOp.Ec2Terminate instance_id =>
      AwsReversePlan.Informational
        [Lit "ec2 terminate of `"; Lit instance_id;
         Lit "` is irreversible. Captured descriptor in `shit show`; re-launch with `aws ec2 run-instances` using the captured image-id/instance-type/security-groups/etc."]
  | AwsOp.Ec2Stop instance_id => AwsReversePlan.Run ["aws"; "ec2"; "start-instances"; "--instance-ids"; instance_id]
  end.

Definition aws_execute (op : InverseOp) (dry_run : bool) (_ : ConflictPolicy) (t : T) : ExecutionOutcome * T :=
  match op with
  | InverseOp.AwsReverse _ aws_op captured_state _ _ =>
      if dry_run then (ExecutionOutcome.WouldApply, t)
      else match aws_build_reverse aws_op captured_state with
           | AwsReversePlan.Run argv => tool_outcome "aws" (system_run (px_exec px) argv t)
           | AwsReversePlan.Informational msg => (ExecutionOutcome.Skipped msg, t)
           end
  | _ => (ExecutionOutcome.Skipped [Lit "aws executor reached non-aws op"], t)
  end.

End Execute.

End Clouds.

(** * The executors that only advise, and the descriptor executor

    [executors/process.rs]: a killed process is not started again; the
    executor collects suggestions, rendered as shell text. [executors/db.rs]:
    notes on database statements, likewise. [executors/descriptor.rs]: the
    reverse command of a descriptor, its variables filled from the captured
    state, behind a guard. The daemon runs none of the three: it skips their
    operations. *)

Module Notes.
Import Executor Runners Text.

(** ** Units that manage a process *)

Record UnitRef := mkUnit { u_scope : SystemdScope; u_unit : string }.

Definition SUFFIXES : list string := [".service"; ".socket"; ".timer"; ".path"; ".mount"; ".target"; ".slice"].

Fixpoint strip_suffix (suf s : string) : option string :=
  if bool_decide (s = suf) then Some ""
  else match s with
       | EmptyString => None
       | String c rest => String c <$> strip_suffix suf rest
       end.

(** The first suffix that is there is cut off. *)
Fixpoint strip_first (sufs : list string) (s : string) : string :=
  match sufs with
  | [] => s
  | suf :: rest => match strip_suffix suf s with Some b => b | None => strip_first rest s end
  end.

Definition unit_to_process_key (unit : string) : option string :=
  if bool_decide (unit = "") then None
  else
    let base := strip_first SUFFIXES unit in
    let base := match split_once "@" base with Some (tmpl, _) => tmpl | None => base end in
    let base := match rsplit_once "." base with Some (_, last) => last | None => base end in
    if bool_decide (base = "") then None else Some base.

(** [DaemonCrossRef]: later events overwrite earlier ones. *)
Definition cross_ref_step (out : gmap string UnitRef) (ev : CaptureEvent) : gmap string UnitRef :=
  match e_kind ev with
  | CaptureEventKind.SystemdOp scope unit _ _ =>
      match unit_to_process_key unit with
      | Some key => <[key := mkUnit scope unit]> out
      | None => out
      end
  | _ => out
  end.
Definition from_events (evs : list CaptureEvent) : gmap string UnitRef := foldl cross_ref_step ∅ evs.

(** ** Restart suggestions *)

Module RestartHint.
Inductive RestartHint :=
  | SystemdUnit (scope : SystemdScope) (unit : string)
  | LaunchdUnit (scope : SystemdScope) (unit : string)
  | RawArgv.
End RestartHint.
Abbreviation RestartHint := RestartHint.RestartHint.

Record RestartSuggestion := mkSuggestion {
  rs_original_argv : list string; rs_cwd : PathBuf; rs_env_summary : gmap string string; rs_message : Msg;
  rs_hint : RestartHint;
}.

(** [Path::file_name]. *)
Definition file_name (p : PathBuf) : option string :=
  match last p with Some (Normal s) => Some s | _ => None end.

Definition process_key (argv : list string) : string :=
  match argv with
  | [] => ""
  | first :: _ => default first (file_name (path_of_string first))
  end.

Definition synthesize (cross_ref : gmap string UnitRef) (argv : list string) (cwd : PathBuf)
    (env_summary : gmap string string) (message : Msg) : RestartSuggestion :=
  let hint :=
    match cross_ref !! process_key argv with
    | Some u =>
        match u_scope u with
        | SystemdScope.LaunchdGui | SystemdScope.LaunchdSystem => RestartHint.LaunchdUnit (u_scope u) (u_unit u)
        | SystemdScope.User | SystemdScope.System => RestartHint.SystemdUnit (u_scope u) (u_unit u)
        | SystemdScope.RcBase => RestartHint.RawArgv
        end
    | None => RestartHint.RawArgv
    end in
  mkSuggestion argv cwd env_summary message hint.

(** The sink is the list of suggestions so far. *)
Definition process_execute (cross_ref : gmap string UnitRef) (op : InverseOp) (dry_run : bool) (_ : ConflictPolicy)
    (sink : list RestartSuggestion) : ExecutionOutcome * list RestartSuggestion :=
  match op with
  | InverseOp.ProcessNote argv cwd env_summary message =>
      if bool_decide (argv = []) then
        (ExecutionOutcome.Skipped [Lit "process note has empty argv; nothing to suggest"], sink)
      else if dry_run then (ExecutionOutcome.WouldApply, sink)
      else (ExecutionOutcome.Applied, sink ++ [synthesize cross_ref argv cwd env_summary message])
  | _ => (ExecutionOutcome.Skipped [Lit "process executor reached non-process op"], sink)
  end.

(** ** Rendering *)

Definition export_part (kv : string * string) : string :=
  if Redirect.starts kv.2 "<redacted:" then ""
  else " && export " +:+ kv.1 +:+ "=" +:+ Env.posix_single_quote kv.2.

Definition render_raw_argv (s : RestartSuggestion) : string :=
  "cd " +:+ Env.posix_single_quote (path_string (rs_cwd s))
  +:+ foldr (λ kv acc, export_part kv +:+ acc) "" (btree_iter (rs_env_summary s))
  +:+ " && " +:+ join " " (Env.posix_single_quote <$> rs_original_argv s).

(** [uid] is what [getuid] returns, as decimal digits. *)
Definition render_snippet (uid : string) (s : RestartSuggestion) : string :=
  match rs_hint s with
  | RestartHint.SystemdUnit scope unit =>
      (match scope with SystemdScope.User => "systemctl --user" | _ => "systemctl" end) +:+ " restart " +:+ unit
  | RestartHint.LaunchdUnit scope unit =>
      match scope with
      | SystemdScope.LaunchdSystem => "launchctl kickstart -k system/" +:+ unit
      | SystemdScope.LaunchdGui => "launchctl kickstart -k gui/" +:+ uid +:+ "/" +:+ unit
      | _ => "launchctl kickstart -k " +:+ unit
      end
  | RestartHint.RawArgv => render_raw_argv s
  end.

(** ** Database notes *)

Record DbSuggestion := mkDbSuggestion {
  ds_engine : DbEngine; ds_target : string; ds_statements : list string; ds_hint : RollbackHint;
}.

Module DbExecOutcome.
Inductive DbExecOutcome := Suggestion (s : DbSuggestion) | DelegateFileRestore (path : PathBuf) (blob : BlobHash).
End DbExecOutcome.
Abbreviation DbExecOutcome := DbExecOutcome.DbExecOutcome.

Definition decide (engine : DbEngine) (target : string) (statements : list string) (hint : RollbackHint) : DbExecOutcome :=
  match engine, hint with
  | DbEngine.Sqlite3, RollbackHint.Sqlite path (Some blob) => DbExecOutcome.DelegateFileRestore path blob
  | _, _ => DbExecOutcome.Suggestion (mkDbSuggestion engine target statements hint)
  end.

Definition db_execute (op : InverseOp) (dry_run : bool) (_ : ConflictPolicy) (sink : list DbSuggestion)
    : ExecutionOutcome * list DbSuggestion :=
  match op with
  | InverseOp.DbNote engine target statements hint =>
      match decide engine target statements hint with
      | DbExecOutcome.Suggestion s =>
          if dry_run then (ExecutionOutcome.WouldApply, sink) else (ExecutionOutcome.Applied, sink ++ [s])
      | DbExecOutcome.DelegateFileRestore path _ =>
          (ExecutionOutcome.Skipped
             [Lit "sqlite hint carried a blob but no corresponding RestoreContent was emitted by the planner; expected for ";
              PathDisplay path; Lit " (DR-58)"], sink)
      end
  | _ => (ExecutionOutcome.Skipped [Lit "db executor reached non-db op"], sink)
  end.

(** ** Descriptors *)

Definition var_char (c : Ascii.ascii) : bool := Env.is_ascii_alphanumeric c || bool_decide (c = "_"%char).

Definition is_var_name (s : string) : bool :=
  match s with
  | EmptyString => false
  | String c _ =>
      (Env.is_ascii_alphabetic c || bool_decide (c = "_"%char)) && forallb var_char (String.list_ascii_of_string s)
  end.

(** Each [{{name}}] is replaced by its value, which has to be there and not
    empty; the values themselves are not scanned. *)
Fixpoint interpolate_from (fuel : nat) (tok rest : string) (state : gmap string string) : string + Msg :=
  match fuel with
  | O => inl rest
  | S fuel' =>
      match split_once_str "{{" rest with
      | None => inl rest
      | Some (before, after) =>
          match split_once_str "}}" after with
          | None => inr [Lit "unterminated template in `"; Lit tok; Lit "`"]
          | Some (name, rest') =>
              if negb (is_var_name name) then inr [Lit "malformed variable name `"; Lit name; Lit "`"]
              else match state !! name with
                   | None => inr [Lit "missing variable `"; Lit name; Lit "`"]
                   | Some "" => inr [Lit "empty value for variable `"; Lit name; Lit "`"]
                   | Some value =>
                       match interpolate_from fuel' tok rest' state with
                       | inl out => inl (before +:+ value +:+ out)
                       | inr e => inr e
                       end
                   end
          end
      end
  end.
Definition interpolate_token (tok : string) (state : gmap string string) : string + Msg :=
  interpolate_from (String.length tok) tok tok state.

Fixpoint interpolate_argv (argv : list string) (state : gmap string string) : list string + Msg :=
  match argv with
  | [] => inl []
  | tok :: rest =>
      match interpolate_token tok state with
      | inr e => inr e
      | inl s => match interpolate_argv rest state with inl l => inl (s :: l) | inr e => inr e end
      end
  end.

Section Descriptor.
Context {T : Type} (px : Programs T).

(** [capture_guard]: the error of a guard that fails says so. *)
Definition capture_guard (argv : list string) (t : T) : (bytes + Msg) * T :=
  match argv with
  | [] => (inr [Lit "empty argv"], t)
  | cmd :: _ =>
      let '(r, t') := px_output px argv t in
      (match r with
       | CapturedSpawn e => inr ([Lit "spawn "; Lit cmd; Lit ": "] ++ e)
       | CapturedExit (Some 0%N) out => inl out
       | CapturedExit code _ => inr [Lit "guard "; Lit cmd; Lit " exited "; code_debug code]
       end, t')
  end.

Definition run_guard (guard : DescriptorGuardOp) (state : gmap string string) (t : T) : (unit + Msg) * T :=
  match interpolate_token (dg_expected_substring guard) state with
  | inr e => (inr e, t)
  | inl expected =>
      match capture_guard (dg_command guard) t with
      | (inr e, t) => (inr e, t)
      | (inl stdout, t) =>
          let out := from_utf8_lossy stdout in
          if Env.str_contains out expected then (inl tt, t)
          else (inr [Lit "guard mismatch: expected substring `"; Lit expected; Lit "` not found in `"; Lit (Plan.trim out);
                     Lit "`"], t)
      end
  end.

(** [run_privileged] of the system's runner is [run]. *)
Definition descriptor_execute (op : InverseOp) (dry_run : bool) (_ : ConflictPolicy) (t : T) : ExecutionOutcome * T :=
  match op with
  | InverseOp.DescriptorReverse _ _ captured_state reverse_argv _ _ guard =>
      match interpolate_argv reverse_argv captured_state with
      | inr e => (ExecutionOutcome.Skipped (Lit "descriptor interpolate: " :: e), t)
      | inl argv =>
          match List.find (λ tok, Env.str_contains tok "{{") argv with
          | Some tok =>
              (ExecutionOutcome.Skipped
                 [Lit "unresolved `{{var}}` in reverse argv after interpolation: `"; Lit tok; Lit "`"], t)
          | None =>
              match (match guard with Some g => run_guard g captured_state t | None => (inl tt, t) end) with
              | (inr e, t) => (ExecutionOutcome.Failed (Lit "guard: " :: e), t)
              | (inl _, t) =>
                  if dry_run then (ExecutionOutcome.WouldApply, t)
                  else match system_run (px_exec px) argv t with
                       | (inl _, t) => (ExecutionOutcome.Applied, t)
                       | (inr e, t) => (ExecutionOutcome.Failed e, t)
                       end
              end
          end
      end
  | _ => (ExecutionOutcome.Skipped [Lit "descriptor executor reached non-descriptor op"], t)
  end.

End Descriptor.

End Notes.
