(* ===== verification/Desc.v ===== *)
(** * Descriptors of native undo verbs

    The crate [shit-desc]: the schema of a descriptor with its lint
    ([schema.rs]), extraction of values from the output of a snapshot command
    ([parse.rs]), matching of argument vectors ([matcher.rs]), interpolation
    ([interpolate.rs]), and the loader with its dispatch ([dispatch.rs]).
    Reading TOML and JSON text is an argument; the directories the loader
    walks are given as trees. Strings are byte strings.

    The score of a match is kept in hundredths. The program adds [f32]s: as
    long as an argument vector has fewer than 2^16 tokens the quarters are
    exact and the hundredth is above the rounding error, so that scores compare
    as here. *)

From S2P Require Import Prelude Paths Base Events Inverse Executor Env Redirect Runners Text Containers.
From S2P Require Import Notes.

Module Desc.
Import Text Json.

(** ** schema.rs *)

Definition MAX_SUPPORTED_VERSION : N := 1.

Module DescriptorAuthority.
Inductive DescriptorAuthority := Builtin | User | ThirdParty (slug : string).
End DescriptorAuthority.
Abbreviation DescriptorAuthority := DescriptorAuthority.DescriptorAuthority.

#[export] Instance DescriptorAuthority_eq_dec : EqDecision DescriptorAuthority.
Proof. solve_decision. Defined.

Definition authority_display (a : DescriptorAuthority) : string :=
  match a with
  | DescriptorAuthority.Builtin => "builtin"
  | DescriptorAuthority.User => "user"
  | DescriptorAuthority.ThirdParty slug => "third-party:" +:+ slug
  end.

Definition deserialize_third_party (raw : string) : string + Msg :=
  match Redirect.strip_prefix "third-party:" raw with
  | None => inr [Lit "authority must be `builtin` | `user` | `third-party:<slug>`, got `"; Lit raw; Lit "`"]
  | Some "" => inr [Lit "third-party authority needs a slug"]
  | Some rest => inl rest
  end.

(** The derived [Deserialize]: the two names, and the untagged variant. *)
Definition authority_of_string (raw : string) : DescriptorAuthority + Msg :=
  if bool_decide (raw = "builtin") then inl DescriptorAuthority.Builtin
  else if bool_decide (raw = "user") then inl DescriptorAuthority.User
  else match deserialize_third_party raw with
       | inl slug => inl (DescriptorAuthority.ThirdParty slug)
       | inr e => inr e
       end.

Record DescriptorHead := mkHead {
  hd_version : N; hd_name : string; hd_description : string; hd_authority : DescriptorAuthority;
}.

Record DescriptorMatch := mkMatch {
  dm_argv : list string; dm_exclude_argv : list (list string); dm_exit_codes : list Z;
}.

Module ParseKind.
Inductive ParseKind := Raw | Lines | Json | Toml.
End ParseKind.
Abbreviation ParseKind := ParseKind.ParseKind.

Record DescriptorSnapshot := mkSnapshot {
  sn_command : list string; sn_parse : ParseKind; sn_extract : gmap string string;
}.

Record DescriptorSnapshotPair := mkPair { sp_pre : DescriptorSnapshot; sp_post : option DescriptorSnapshot }.

Record DescriptorGuard := mkGuard { gd_command : list string; gd_expected_substring : string }.

Record DescriptorReverse := mkReverse {
  rv_requires_confirmation : bool; rv_command : list string; rv_privileged : bool; rv_guard : option DescriptorGuard;
}.

Record Descriptor := mkDescriptor {
  ds_descriptor : DescriptorHead; ds_match : DescriptorMatch; ds_snapshot : DescriptorSnapshotPair;
  ds_reverse : DescriptorReverse;
}.

Module LintError.
Inductive LintError :=
  | UnsupportedVersion (actual supported : N)
  | BadName (name : string)
  | BadDescription (chars : nat)
  | EmptyArgv
  | GlobInArgvZero (token : string)
  | BadDoubleStar (argv : list string)
  | EmptySnapshotCommand (phase : string)
  | EmptyReverseCommand
  | UnsafeSnapshotBinary (phase token : string)
  | UnsafeReverseBinary (token : string)
  | UnresolvedReverseVar (var : string)
  | UnresolvedGuardVar (var : string)
  | BadExtractorPath (phase path : string)
  | NoExtractors (phase : string)
  | PrivilegedNeedsBuiltin (authority : string)
  | NoConfirmNeedsBuiltin (authority : string)
  | BadRawExtractor (path : string)
  | BadLinesExtractor (path : string).
End LintError.
Abbreviation LintError := LintError.LintError.

Module SchemaError.
Inductive SchemaError := Toml (e : Msg) | Lint (e : LintError).
End SchemaError.
Abbreviation SchemaError := SchemaError.SchemaError.

Definition is_lower (c : Ascii.ascii) : bool :=
  let n := Ascii.N_of_ascii c in bool_decide (97 ≤ n ≤ 122)%N.

Definition is_valid_slug (s : string) : bool :=
  match s with
  | EmptyString => false
  | String first _ =>
      bool_decide (String.length s ≤ 64) && (is_lower first || Redirect.is_ascii_digit first)
      && forallb (λ c, is_lower c || Redirect.is_ascii_digit c || bool_decide (c = "-"%char))
           (String.list_ascii_of_string s)
  end.

(** [chars().count()] of valid UTF-8: the bytes that do not continue a character. *)
Definition char_count (s : string) : nat :=
  length (List.filter (λ b, negb (continuation b)) (String.list_byte_of_string s)).

(** [**] only at the end. *)
Fixpoint double_star_ok (seen : bool) (argv : list string) : bool :=
  match argv with
  | [] => true
  | tok :: rest =>
      if bool_decide (tok = "**") then
        if seen || negb (bool_decide (rest = [])) then false else double_star_ok true rest
      else double_star_ok seen rest
  end.

Definition check_match_argv (argv : list string) : option LintError :=
  match argv with
  | [] => Some LintError.EmptyArgv
  | tok :: _ =>
      if bool_decide (tok = "*") || bool_decide (tok = "**") then Some (LintError.GlobInArgvZero tok)
      else if double_star_ok false argv then None else Some (LintError.BadDoubleStar argv)
  end.

Definition SHELL_META : list Ascii.ascii :=
  [";"; "&"; "|"; "$"; "`"; "<"; ">"; "("; ")"; Ascii.ascii_of_N 10]%char.

Definition is_safe_binary_token (s : string) : bool :=
  negb (bool_decide (s = "")) && negb (Env.str_contains s "..")
  && forallb (λ c, negb (bool_decide (c ∈ SHELL_META))) (String.list_ascii_of_string s).

Definition check_snapshot_section (phase : string) (snap : DescriptorSnapshot) : option LintError :=
  match sn_command snap with
  | [] => Some (LintError.EmptySnapshotCommand phase)
  | bin :: _ =>
      if negb (is_safe_binary_token bin) then Some (LintError.UnsafeSnapshotBinary phase bin)
      else if bool_decide (sn_extract snap = ∅) then Some (LintError.NoExtractors phase)
      else None
  end.

(** [[N]] or [.lines[N]]: what is between the brackets. *)
Definition bracketed (s : string) : option string :=
  let body := default s (Redirect.strip_prefix ".lines" s) in
  match Redirect.strip_prefix "[" body with
  | Some t => Notes.strip_suffix "]" t
  | None => None
  end.

Definition is_lines_path (s : string) : bool :=
  match bracketed s with
  | None => false
  | Some inside =>
      forallb Redirect.is_ascii_digit (String.list_ascii_of_string inside) && negb (bool_decide (inside = ""))
  end.

Fixpoint span_while (p : Ascii.ascii → bool) (s : string) : string * string :=
  match s with
  | EmptyString => ("", "")
  | String c rest =>
      if p c then let '(a, b) := span_while p rest in (String c a, b) else ("", s)
  end.

Definition name_start (c : Ascii.ascii) : bool := Env.is_ascii_alphabetic c || bool_decide (c = "_"%char).

(** The loop over the bytes; it stops within as many rounds as there are. *)
Fixpoint structured_from (fuel : nat) (s : string) : bool :=
  match s, fuel with
  | EmptyString, _ => true
  | String c rest, S fuel' =>
      if bool_decide (c = "."%char) then
        match rest with
        | EmptyString => false
        | String a _ => name_start a && structured_from fuel' (span_while Notes.var_char rest).2
        end
      else if bool_decide (c = "["%char) then
        let '(digits, after) := span_while Redirect.is_ascii_digit rest in
        match after with
        | String "]" after' => negb (bool_decide (digits = "")) && structured_from fuel' after'
        | _ => false
        end
      else false
  | String _ _, O => false
  end.

Definition is_structured_path (s : string) : bool :=
  negb (bool_decide (s = "")) && negb (bool_decide (s = ".raw")) && structured_from (String.length s) s.

Definition check_extractor_path (phase : string) (parse : ParseKind) (path : string) : option LintError :=
  match parse with
  | ParseKind.Raw => if bool_decide (path = ".raw") then None else Some (LintError.BadRawExtractor path)
  | ParseKind.Lines => if is_lines_path path then None else Some (LintError.BadLinesExtractor path)
  | ParseKind.Json | ParseKind.Toml =>
      if is_structured_path path then None else Some (LintError.BadExtractorPath phase path)
  end.

Definition first_of {E} (l : list (option E)) : option E := head (omap id l).

Definition check_extractor_paths (phase : string) (parse : ParseKind) (extract : gmap string string) : option LintError :=
  first_of ((λ kv, check_extractor_path phase parse kv.2) <$> btree_iter extract).

Fixpoint vars_from (fuel : nat) (rest : string) : list string :=
  match fuel with
  | O => []
  | S fuel' =>
      match split_once_str "{{" rest with
      | None => []
      | Some (_, after) =>
          match split_once_str "}}" after with
          | None => []
          | Some (name, rest') => (if Notes.is_var_name name then [name] else []) ++ vars_from fuel' rest'
          end
      end
  end.
Definition interpolation_vars (s : string) : list string := vars_from (String.length s) s.

Definition unresolved (extracted : gset string) (err : string → LintError) (tok : string) : option LintError :=
  first_of ((λ var, if bool_decide (var ∈ extracted) then None else Some (err var)) <$> interpolation_vars tok).

Definition extracted_keys (p : DescriptorSnapshotPair) : gset string :=
  dom (sn_extract (sp_pre p))
  ∪ match sp_post p with Some post => dom (sn_extract post) | None => ∅ end.

Definition check_guard (extracted : gset string) (g : DescriptorGuard) : option LintError :=
  first_of
    [unresolved extracted LintError.UnresolvedGuardVar (gd_expected_substring g);
     match gd_command g with
     | [] => Some LintError.EmptyReverseCommand
     | bin :: _ => if is_safe_binary_token bin then None else Some (LintError.UnsafeReverseBinary bin)
     end].

(** The rules in their order; the first that fails is reported. *)
Definition lint_error (d : Descriptor) : option LintError :=
  let head := ds_descriptor d in
  let pair := ds_snapshot d in
  let rev := ds_reverse d in
  let extracted := extracted_keys pair in
  let authority := authority_display (hd_authority head) in
  let is_builtin := bool_decide (hd_authority head = DescriptorAuthority.Builtin) in
  let dlen := char_count (hd_description head) in
  first_of (
    [if bool_decide (MAX_SUPPORTED_VERSION < hd_version head)%N
     then Some (LintError.UnsupportedVersion (hd_version head) MAX_SUPPORTED_VERSION) else None;
     if is_valid_slug (hd_name head) then None else Some (LintError.BadName (hd_name head));
     if bool_decide (1 ≤ dlen ≤ 200) then None else Some (LintError.BadDescription dlen);
     check_match_argv (dm_argv (ds_match d))]
    ++ (check_match_argv <$> dm_exclude_argv (ds_match d))
    ++ [check_snapshot_section "pre" (sp_pre pair);
        match sp_post pair with Some post => check_snapshot_section "post" post | None => None end;
        match rv_command rev with
        | [] => Some LintError.EmptyReverseCommand
        | bin :: _ => if is_safe_binary_token bin then None else Some (LintError.UnsafeReverseBinary bin)
        end;
        if bool_decide (extracted = ∅) then Some (LintError.NoExtractors "pre") else None]
    ++ (unresolved extracted LintError.UnresolvedReverseVar <$> rv_command rev)
    ++ [match rv_guard rev with Some g => check_guard extracted g | None => None end;
        check_extractor_paths "pre" (sn_parse (sp_pre pair)) (sn_extract (sp_pre pair));
        match sp_post pair with
        | Some post => check_extractor_paths "post" (sn_parse post) (sn_extract post) | None => None end;
        if rv_privileged rev && negb is_builtin then Some (LintError.PrivilegedNeedsBuiltin authority) else None;
        if negb (rv_requires_confirmation rev) && negb is_builtin
        then Some (LintError.NoConfirmNeedsBuiltin authority) else None]).

Definition lint (d : Descriptor) : unit + LintError :=
  match lint_error d with Some e => inr e | None => inl tt end.

Definition from_toml (toml_of : string → Descriptor + Msg) (s : string) : Descriptor + SchemaError :=
  match toml_of s with
  | inr e => inr (SchemaError.Toml e)
  | inl d => match lint d with inl _ => inl d | inr e => inr (SchemaError.Lint e) end
  end.

(** ** parse.rs *)

(** [toml::Value]; numbers and dates as they are displayed. *)
Inductive Toml :=
  | TStr (s : string)
  | TInt (display : string)
  | TFloat (display : string)
  | TBool (b : bool)
  | TDatetime (display : string)
  | TArr (l : list Toml)
  | TTable (fields : list (string * Toml)).

Module ParseError.
Inductive ParseError :=
  | Json (e : Msg)
  | Toml (e : Msg)
  | NotFound (path : string)
  | NonScalar (path : string)
  | BadPath (path detail : string)
  | RawWithStructured (kind : ParseKind)
  | LinesIndexWithStructured (kind : ParseKind).
End ParseError.
Abbreviation ParseError := ParseError.ParseError.

Module Segment.
Inductive Segment := Field (name : string) | Index (i : N).
End Segment.
Abbreviation Segment := Segment.Segment.

(** [usize] has 64 bits. *)
Definition parse_usize (s : string) : option N := parse_uint (2 ^ 64 - 1) s.

Definition parse_lines_path (path : string) : N + ParseError :=
  match bracketed path with
  | None => inr (ParseError.BadPath path "expected `[N]` or `.lines[N]`")
  | Some inside =>
      if bool_decide (inside = "") then inr (ParseError.BadPath path "empty index")
      else match parse_usize inside with
           | Some n => inl n
           | None => inr (ParseError.BadPath path "non-numeric line index")
           end
  end.

Definition cons_segment (seg : Segment) (r : list Segment + ParseError) : list Segment + ParseError :=
  match r with inl l => inl (seg :: l) | inr e => inr e end.

Fixpoint segments_from (fuel : nat) (path s : string) : list Segment + ParseError :=
  match s, fuel with
  | EmptyString, _ => inl []
  | String c rest, S fuel' =>
      if bool_decide (c = "."%char) then
        match rest with
        | EmptyString => inr (ParseError.BadPath path "trailing dot")
        | String a _ =>
            if negb (name_start a)
            then inr (ParseError.BadPath path "field name must start with letter or underscore")
            else
              let '(name, after) := span_while Notes.var_char rest in
              cons_segment (Segment.Field name) (segments_from fuel' path after)
        end
      else if bool_decide (c = "["%char) then
        let '(digits, after) := span_while Redirect.is_ascii_digit rest in
        match after with
        | String "]" after' =>
            if bool_decide (digits = "") then inr (ParseError.BadPath path "malformed index")
            else match parse_usize digits with
                 | None => inr (ParseError.BadPath path "non-numeric index")
                 | Some idx => cons_segment (Segment.Index idx) (segments_from fuel' path after')
                 end
        | _ => inr (ParseError.BadPath path "malformed index")
        end
      else inr (ParseError.BadPath path "unexpected character in path")
  | String _ _, O => inl []
  end.

Definition parse_structured_path (path : string) : list Segment + ParseError :=
  if bool_decide (path = "") then inr (ParseError.BadPath path "empty path")
  else if bool_decide (path = ".raw") then inr (ParseError.RawWithStructured ParseKind.Json)
  else segments_from (String.length path) path path.

Definition json_step (v : Json) (seg : Segment) : option Json :=
  match seg with
  | Segment.Field name => get name v
  | Segment.Index i => match as_array v with Some l => l !! N.to_nat i | None => None end
  end.

Definition toml_step (v : Toml) (seg : Segment) : option Toml :=
  match seg, v with
  | Segment.Field name, TTable fields => snd <$> List.find (λ kv : string * Toml, bool_decide (kv.1 = name)) fields
  | Segment.Index i, TArr l => l !! N.to_nat i
  | _, _ => None
  end.

Definition bool_display (b : bool) : string := if b then "true" else "false".

Definition json_scalar (v : Json) : option string :=
  match v with
  | JStr s => Some s
  | JNum display _ => Some display
  | JBool b => Some (bool_display b)
  | _ => None
  end.

Definition toml_scalar (v : Toml) : option string :=
  match v with
  | TStr s => Some s
  | TInt display | TFloat display => Some display
  | TBool b => Some (bool_display b)
  | _ => None
  end.

(** [walk_json] and [walk_toml]. *)
Definition walk_value {V} (step : V → Segment → option V) (scalar : V → option string) (root : V) (path : string)
    : string + ParseError :=
  match parse_structured_path path with
  | inr e => inr e
  | inl segments =>
      match foldl (λ cur seg, match cur with Some v => step v seg | None => None end) (Some root) segments with
      | None => inr (ParseError.NotFound path)
      | Some v => match scalar v with Some s => inl s | None => inr (ParseError.NonScalar path) end
      end
  end.

(** The keys in order; the first path that fails ends it. *)
Fixpoint extract_keys (f : string → string + ParseError) (keys : list (string * string)) (out : gmap string string)
    : gmap string string + ParseError :=
  match keys with
  | [] => inl out
  | (key, path) :: rest =>
      match f path with
      | inl v => extract_keys f rest (<[key := v]> out)
      | inr e => inr e
      end
  end.

Fixpoint trim_newlines (s : string) : string :=
  match s with
  | EmptyString => ""
  | String c rest =>
      let t := trim_newlines rest in
      if bool_decide (t = "") && bool_decide (c = Ascii.ascii_of_N 10) then "" else String c t
  end.

(** The lines, without the empty piece after a final newline. *)
Definition output_lines (s : string) : list string :=
  let lines := split_char (Ascii.ascii_of_N 10) s in
  if bool_decide (last lines = Some "") then removelast lines else lines.

Section Extract.
Context (json_of : string → Json + Msg) (toml_of : string → Toml + Msg).

Definition extract_all (kind : ParseKind) (stdout : bytes) (extracts : gmap string string)
    : gmap string string + ParseError :=
  match from_utf8 stdout with
  | None => inr (ParseError.BadPath "" "non-utf8 stdout")
  | Some text =>
      let run f := extract_keys f (btree_iter extracts) ∅ in
      match kind with
      | ParseKind.Raw =>
          run (λ path, if bool_decide (path = ".raw") then inl (trim_newlines text)
                       else inr (ParseError.BadPath path "raw parse accepts only `.raw`"))
      | ParseKind.Lines =>
          run (λ path,
            match parse_lines_path path with
            | inr e => inr e
            | inl idx =>
                match output_lines text !! N.to_nat idx with
                | Some v => inl v
                | None => inr (ParseError.NotFound path)
                end
            end)
      | ParseKind.Json =>
          match json_of text with
          | inr e => inr (ParseError.Json e)
          | inl v => run (walk_value json_step json_scalar v)
          end
      | ParseKind.Toml =>
          match toml_of text with
          | inr e => inr (ParseError.Toml e)
          | inl v => run (walk_value toml_step toml_scalar v)
          end
      end
  end.

End Extract.

(** ** matcher.rs *)

Record MatchOutcome := mkOutcome { matched : bool; score : N }.

Definition NO : MatchOutcome := mkOutcome false 0.
Definition yes (s : N) : MatchOutcome := mkOutcome true s.

(** In hundredths. *)
Fixpoint match_inner (pattern argv : list string) (score : N) : MatchOutcome :=
  match pattern with
  | [] => if bool_decide (argv = []) then yes score else NO
  | tok :: pattern' =>
      if bool_decide (tok = "**") then
        yes (score + if bool_decide (argv = []) then 1 else 25 * N.of_nat (length argv))
      else match argv with
           | [] => NO
           | a :: argv' =>
               if bool_decide (tok = "*") then match_inner pattern' argv' (score + 50)
               else if bool_decide (tok = a) then match_inner pattern' argv' (score + 100)
               else NO
           end
  end.

Definition match_pattern (pattern argv : list string) : MatchOutcome :=
  if bool_decide (argv = []) || bool_decide (pattern = []) then NO else match_inner pattern argv 0.

Definition match_descriptor (dm : DescriptorMatch) (argv : list string) : MatchOutcome :=
  if existsb (λ excl, matched (match_pattern excl argv)) (dm_exclude_argv dm) then NO
  else match_pattern (dm_argv dm) argv.

(** ** interpolate.rs *)

Module InterpolateError.
Inductive InterpolateError :=
  | MissingVariable (name : string)
  | EmptyVariable (name : string)
  | Unterminated (tok : string)
  | BadName (name : string).
End InterpolateError.
Abbreviation InterpolateError := InterpolateError.InterpolateError.

Fixpoint token_from (fuel : nat) (tok rest : string) (state : gmap string string) : string + InterpolateError :=
  match fuel with
  | O => inl rest
  | S fuel' =>
      match split_once_str "{{" rest with
      | None => inl rest
      | Some (before, after) =>
          match split_once_str "}}" after with
          | None => inr (InterpolateError.Unterminated tok)
          | Some (name, rest') =>
              if negb (Notes.is_var_name name) then inr (InterpolateError.BadName name)
              else match state !! name with
                   | None => inr (InterpolateError.MissingVariable name)
                   | Some "" => inr (InterpolateError.EmptyVariable name)
                   | Some value =>
                       match token_from fuel' tok rest' state with
                       | inl out => inl (before +:+ value +:+ out)
                       | inr e => inr e
                       end
                   end
          end
      end
  end.
Definition interpolate_token (tok : string) (state : gmap string string) : string + InterpolateError :=
  token_from (String.length tok) tok tok state.

Fixpoint interpolate_argv (argv : list string) (state : gmap string string) : list string + InterpolateError :=
  match argv with
  | [] => inl []
  | tok :: rest =>
      match interpolate_token tok state with
      | inr e => inr e
      | inl s => match interpolate_argv rest state with inl l => inl (s :: l) | inr e => inr e end
      end
  end.

(** ** dispatch.rs *)

Record LoadedDescriptor := mkLoaded { ld_descriptor : Descriptor; ld_source : PathBuf }.

Module LoadError.
Inductive LoadError :=
  | Io (path : PathBuf) (e : Msg)
  | Schema (path : PathBuf) (e : SchemaError)
  | DuplicateName (name authority : string) (first second : PathBuf).
End LoadError.
Abbreviation LoadError := LoadError.LoadError.

(** What a directory shows: that it cannot be listed, or its entries in the
    order of the listing: one that cannot be read, one whose type cannot be
    told, a directory, or anything else with its text. *)
Inductive Dir :=
  | Unreadable (e : Msg)
  | Listing (entries : list Entry)
with Entry :=
  | BadEntry (e : Msg)
  | Untyped (path : PathBuf) (e : Msg)
  | SubDir (path : PathBuf) (d : Dir)
  | Plain (path : PathBuf) (text : string + Msg).

Abbreviation Bucket := (gmap string LoadedDescriptor).
Abbreviation Loader := (gmap string Bucket).

(** [Path::extension]. *)
Definition extension (p : PathBuf) : option string :=
  match Notes.file_name p with
  | None => None
  | Some name =>
      match rsplit_once "." name with
      | Some ("", _) | None => None
      | Some (_, ext) => Some ext
      end
  end.

Definition authority_matches (actual expected : DescriptorAuthority) : bool :=
  match actual, expected with
  | DescriptorAuthority.Builtin, DescriptorAuthority.Builtin => true
  | DescriptorAuthority.User, DescriptorAuthority.User => true
  | DescriptorAuthority.ThirdParty a, DescriptorAuthority.ThirdParty b => bool_decide (a = b)
  | _, _ => false
  end.

Section Load.
Context (toml_of : string → Descriptor + Msg).

(** A file that is not a directory. The mismatch of authorities is reported as
    a bad name with a longer text. *)
Definition load_file (path : PathBuf) (text : string + Msg) (expected : DescriptorAuthority) (bucket : Bucket)
    : Bucket + LoadError :=
  if negb (bool_decide (extension path = Some "toml")) then inl bucket
  else match text with
       | inr e => inr (LoadError.Io path e)
       | inl text =>
           match from_toml toml_of text with
           | inr e => inr (LoadError.Schema path e)
           | inl d =>
               let name := hd_name (ds_descriptor d) in
               if negb (authority_matches (hd_authority (ds_descriptor d)) expected)
               then inr (LoadError.Schema path (SchemaError.Lint (LintError.BadName
                      (name +:+ " (file declares authority `" +:+ authority_display (hd_authority (ds_descriptor d))
                       +:+ "`, directory expects `" +:+ authority_display expected +:+ "`)"))))
               else match bucket !! name with
                    | Some existing =>
                        inr (LoadError.DuplicateName name (authority_display expected) (ld_source existing) path)
                    | None => inl (<[name := mkLoaded d path]> bucket)
                    end
           end
       end.

Fixpoint walk_dir (root : PathBuf) (dir : Dir) (expected : DescriptorAuthority) (bucket : Bucket) : Bucket + LoadError :=
  match dir with
  | Unreadable e => inr (LoadError.Io root e)
  | Listing entries =>
      (fix go (l : list Entry) (bucket : Bucket) : Bucket + LoadError :=
         match l with
         | [] => inl bucket
         | entry :: rest =>
             match walk_entry root entry expected bucket with
             | inl bucket' => go rest bucket'
             | inr e => inr e
             end
         end) entries bucket
  end
with walk_entry (root : PathBuf) (entry : Entry) (expected : DescriptorAuthority) (bucket : Bucket)
    : Bucket + LoadError :=
  match entry with
  | BadEntry e => inr (LoadError.Io root e)
  | Untyped path e => inr (LoadError.Io path e)
  | SubDir path d => walk_dir path d expected bucket
  | Plain path text => load_file path text expected bucket
  end.

(** A root that does not exist is passed over. *)
Fixpoint from_roots_with (roots : list (DescriptorAuthority * (PathBuf * option Dir))) (loader : Loader)
    : Loader + LoadError :=
  match roots with
  | [] => inl loader
  | (_, (_, None)) :: rest => from_roots_with rest loader
  | (auth, (path, Some dir)) :: rest =>
      let key := authority_display auth in
      match walk_dir path dir auth (default ∅ (loader !! key)) with
      | inl bucket => from_roots_with rest (<[key := bucket]> loader)
      | inr e => inr e
      end
  end.
Definition from_roots (roots : list (DescriptorAuthority * (PathBuf * option Dir))) : Loader + LoadError :=
  from_roots_with roots ∅.

End Load.

Definition loader_len (l : Loader) : nat := foldr (λ kv n, size kv.2 + n) 0 (btree_iter l).

Definition loader_iter (l : Loader) : list (string * LoadedDescriptor) :=
  mjoin ((λ kv : string * Bucket, (λ nd : string * LoadedDescriptor, (kv.1, nd.2)) <$> btree_iter kv.2) <$> btree_iter l).

Definition authority_rank (auth : string) : N :=
  if bool_decide (auth = "user") then 0 else if bool_decide (auth = "builtin") then 1 else 2.

Abbreviation Candidate := (N * N * LoadedDescriptor)%type.

Definition better (c prev : Candidate) : bool :=
  bool_decide (prev.1.1 < c.1.1)%N || (bool_decide (c.1.1 = prev.1.1) && bool_decide (c.1.2 < prev.1.2)%N).

Definition dispatch_step (argv : list string) (best : option Candidate) (al : string * LoadedDescriptor)
    : option Candidate :=
  let out := match_descriptor (ds_match (ld_descriptor al.2)) argv in
  if negb (matched out) then best
  else
    let candidate := (score out, authority_rank al.1, al.2) in
    match best with
    | None => Some candidate
    | Some prev => if better candidate prev then Some candidate else Some prev
    end.

Definition dispatch (l : Loader) (argv : list string) : option LoadedDescriptor :=
  snd <$> foldl (dispatch_step argv) None (loader_iter l).

Definition in_bucket (l : Loader) (auth name : string) : option LoadedDescriptor :=
  match l !! auth with Some bucket => bucket !! name | None => None end.

Definition loader_get (l : Loader) (name : string) : option LoadedDescriptor :=
  let others := List.filter (λ kv : string * Bucket, negb (bool_decide (kv.1 = "user" ∨ kv.1 = "builtin"))) (btree_iter l) in
  head (omap id ([in_bucket l "user" name; in_bucket l "builtin" name] ++ ((λ kv, kv.2 !! name) <$> others))).

(** ** descriptors test, of the command line *)

Definition synthetic (keys : list string) (state : gmap string string) : gmap string string :=
  foldl (λ st key, <[key := "<TEST:" +:+ key +:+ ">"]> st) state keys.

Definition synthetic_state (p : DescriptorSnapshotPair) : gmap string string :=
  let pre := synthetic (fst <$> btree_iter (sn_extract (sp_pre p))) ∅ in
  match sp_post p with
  | Some post => synthetic (fst <$> btree_iter (sn_extract post)) pre
  | None => pre
  end.

End Desc.
