(* ===== verification/NetworkDiff.v ===== *)
(** * Leading network state back, and the network executor

    [network_diff.rs]: from what a tool printed before and after a command,
    the invocations that undo the change. Reading JSON is an argument. *)

From stdpp Require Import pretty.
From S2P Require Import Prelude Paths Base Events Inverse Probe Network Plan Executor Env Orchestrator.
From S2P Require Import Redirect Runners Text.

Module NetworkDiff.
Import Plan Text.

(** ** [ip route] *)

Record IpRouteRow := mkRoute {
  ro_dst : string; ro_gateway : option string; ro_dev : option string; ro_table : option string;
  ro_scope : option string; ro_protocol : option string; ro_metric : option N; ro_prefsrc : option string;
}.

Definition RouteId : Type := string * string * string * N.

Definition route_identity (r : IpRouteRow) : RouteId :=
  (ro_dst r, default "" (ro_dev r), default "main" (ro_table r), default 0%N (ro_metric r)).

(** [if let Some(v) = field { push(word); push(v) }]. *)
Definition opt_arg (word : string) (v : option string) : list string :=
  match v with Some s => [word; s] | None => [] end.

(** With the action in its place. *)
Definition route_argv (action : string) (r : IpRouteRow) : list string :=
  ["ip"; "route"; action; ro_dst r] ++ opt_arg "via" (ro_gateway r) ++ opt_arg "dev" (ro_dev r)
  ++ opt_arg "scope" (ro_scope r) ++ opt_arg "proto" (ro_protocol r)
  ++ opt_arg "metric" (pretty <$> ro_metric r) ++ opt_arg "src" (ro_prefsrc r)
  ++ match ro_table r with
     | Some t => if bool_decide (t = "main") then [] else ["table"; t]
     | None => []
     end.

(** What of [l] has no counterpart in [l']. *)
Definition missing {A K} `{EqDecision K} (id : A → K) (l l' : list A) : list A :=
  List.filter (λ r, negb (existsb (λ p, bool_decide (id p = id r)) l')) l.

Definition route_inverse (pre post : list IpRouteRow) : list (list string) :=
  (route_argv "del" <$> missing route_identity post pre)
  ++ (route_argv "add" <$> missing route_identity pre post).

(** ** [ip addr] *)

Record IpAddrInfo := mkAddr {
  ad_family : string; ad_local : string; ad_prefixlen : N; ad_scope : option string; ad_broadcast : option string;
}.
Record IpAddrIface := mkIface { if_name : string; if_addrs : list IpAddrInfo }.

Definition addr_identity (a : IpAddrInfo) : string * string * N := (ad_family a, ad_local a, ad_prefixlen a).

Definition addr_argv (action ifname : string) (a : IpAddrInfo) : list string :=
  ["ip"; "addr"; action; ad_local a +:+ "/" +:+ pretty (ad_prefixlen a); "dev"; ifname]
  ++ opt_arg "broadcast" (ad_broadcast a) ++ opt_arg "scope" (ad_scope a).

(** [iter().map(|i| (name, i)).collect()]: a later row of a name wins. *)
Definition by_ifname (l : list IpAddrIface) : gmap string IpAddrIface :=
  foldl (λ m i, <[if_name i := i]> m) ∅ l.

Definition addrs_of (m : gmap string IpAddrIface) (ifname : string) : list IpAddrInfo :=
  match m !! ifname with Some i => if_addrs i | None => [] end.

Definition addr_diff (ord : HashOrder string IpAddrIface) (action : string) (m m' : gmap string IpAddrIface)
    : list (list string) :=
  concat ((λ kv, addr_argv action kv.1 <$> missing addr_identity (if_addrs kv.2) (addrs_of m' kv.1)) <$> hash_iter m).

Definition addr_inverse (ord ord' : HashOrder string IpAddrIface) (pre post : list IpAddrIface) : list (list string) :=
  addr_diff ord "del" (by_ifname post) (by_ifname pre) ++ addr_diff ord' "add" (by_ifname pre) (by_ifname post).

(** ** [ip link] *)

Record IpLinkRow := mkLink {
  li_ifname : string; li_operstate : option string; li_mtu : option N; li_address : option string;
}.

Definition operstate_inverse (ifname : string) (pre post : option string) : list (list string) :=
  match pre, post with
  | Some s, Some s' =>
      if bool_decide (s = s') then []
      else
        let norm := Env.to_ascii_uppercase s in
        if bool_decide (norm = "UP") then [["ip"; "link"; "set"; ifname; "up"]]
        else if bool_decide (norm = "DOWN") then [["ip"; "link"; "set"; ifname; "down"]]
        else []
  | _, _ => []
  end.

Definition mtu_inverse (ifname : string) (pre post : option N) : list (list string) :=
  match pre, post with
  | Some m, Some m' => if bool_decide (m = m') then [] else [["ip"; "link"; "set"; ifname; "mtu"; pretty m]]
  | _, _ => []
  end.

Definition link_inverse (pre post : list IpLinkRow) : list (list string) :=
  concat ((λ post_row,
    match List.find (λ p, bool_decide (li_ifname p = li_ifname post_row)) pre with
    | None => []
    | Some pre_row =>
        operstate_inverse (li_ifname post_row) (li_operstate pre_row) (li_operstate post_row)
        ++ mtu_inverse (li_ifname post_row) (li_mtu pre_row) (li_mtu post_row)
    end) <$> post).

(** [let Ok(pre) = ... else return]: nothing where a dump does not decode. *)
Definition decoded {A} (decode : bytes → option (list A)) (f : list A → list A → list (list string))
    (before after : bytes) : list (list string) :=
  match decode before, decode after with
  | Some pre, Some post => f pre post
  | _, _ => []
  end.

(** ** [ufw] *)

Definition UFW_RESET_THRESHOLD : nat := 10.

(** [!idx\[1..\].trim().chars().all(..)]. *)
Definition is_index (idx : string) : bool :=
  match idx with
  | String _ rest => forallb Redirect.is_ascii_digit (String.list_ascii_of_string (trim rest))
  | EmptyString => true
  end.

Definition ufw_tokens (s : string) : list string :=
  List.filter (λ t, negb (bool_decide (t = "(v6)"))) (split_whitespace s).

(** One line of the numbered list: the body of its rule, in canonical
    spacing. *)
Definition ufw_line (line : string) : option string :=
  let trimmed := trim_start line in
  if negb (String.prefix "[" trimmed) then None
  else match split_once "]"%char trimmed with
       | None => None
       | Some (idx, rest) =>
           if negb (is_index idx) then None
           else if bool_decide (trim rest = "") then None
           else let normalized := join " " (ufw_tokens (trim rest)) in
                if bool_decide (normalized = "") then None else Some normalized
       end.

Definition ufw_push (rules : list string) (line : string) : list string :=
  match ufw_line line with
  | Some r => if bool_decide (r ∈ rules) then rules else rules ++ [r]
  | None => rules
  end.

Definition nl : string := String "010" "".

Definition parse_ufw_rules (blob : bytes) : list string :=
  match from_utf8 blob with
  | None => []
  | Some s =>
      let numbered := match split_once_str (nl +:+ "---" +:+ nl) s with Some (_, n) => n | None => s end in
      foldl ufw_push [] (str_lines numbered)
  end.

Record UfwParts := mkUfw {
  uf_to : list string; uf_action : option string; uf_direction : option string; uf_from : list string;
}.

Definition ufw_token (p : UfwParts) (tok : string) : UfwParts :=
  match uf_action p with
  | None =>
      if bool_decide (tok ∈ ["ALLOW"; "DENY"; "REJECT"; "LIMIT"])
      then mkUfw (uf_to p) (Some (to_ascii_lowercase tok)) (uf_direction p) (uf_from p)
      else mkUfw (uf_to p ++ [tok]) None (uf_direction p) (uf_from p)
  | Some _ =>
      if bool_decide (uf_direction p = None) && bool_decide (tok ∈ ["IN"; "OUT"; "FWD"])
      then mkUfw (uf_to p) (uf_action p) (Some (to_ascii_lowercase tok)) (uf_from p)
      else mkUfw (uf_to p) (uf_action p) (uf_direction p) (uf_from p ++ [tok])
  end.

Definition has_space (s : string) : bool := Env.str_contains s " ".

Definition canonicalize_ufw_rule (rule : string) : list string :=
  let tokens := ufw_tokens rule in
  let p := foldl ufw_token (mkUfw [] None None []) tokens in
  match uf_action p with
  | None => tokens
  | Some act =>
      let dir_is_default := match uf_direction p with None => true | Some d => bool_decide (d = "in") end in
      let from_joined := join " " (uf_from p) in
      let from_is_default := eq_ignore_ascii_case from_joined "Anywhere" || bool_decide (from_joined = "") in
      let verbose :=
        [act] ++ match uf_direction p with Some d => [d] | None => [] end
        ++ (if from_is_default then [] else ["from"; from_joined])
        ++ (if nil_b (uf_to p) then [] else ["to"; "any"; "port"] ++ uf_to p) in
      match uf_to p with
      | [to] =>
          if dir_is_default && from_is_default && negb (has_space to)
             && negb (eq_ignore_ascii_case to "Anywhere")
          then [act; to] else verbose
      | _ => verbose
      end
  end.

Definition rule_to_delete_argv (rule : string) : list string := ["ufw"; "delete"] ++ canonicalize_ufw_rule rule.
Definition rule_to_add_argv (rule : string) : list string := ["ufw"] ++ canonicalize_ufw_rule rule.

(** [BTreeSet::difference]: in the order of the strings, each once. *)
Definition set_difference (a b : list string) : list string :=
  (btree_iter (list_to_map ((λ s, (s, ())) <$> List.filter (λ s, negb (bool_decide (s ∈ b))) a) : gmap string ())).*1.

Definition ufw_inverse (before_rules after_rules : list string) : list (list string) :=
  let added := set_difference after_rules before_rules in
  let removed := set_difference before_rules after_rules in
  if nil_b added && nil_b removed then []
  else if bool_decide (UFW_RESET_THRESHOLD < length added + length removed)
  then ["ufw"; "--force"; "reset"] :: (rule_to_add_argv <$> before_rules)
  else (rule_to_delete_argv <$> added) ++ (rule_to_add_argv <$> removed).

Definition synthesise_ufw_inverse (before after : bytes) : list (list string) :=
  ufw_inverse (parse_ufw_rules before) (parse_ufw_rules after).

(** ** [networksetup] *)

Record NetworksetupHeader := mkHeader { nh_verb : string; nh_scope : string; nh_body : list string }.

(** The header lines at the front; the rest is the body. *)
Fixpoint header_lines (ls : list string) (verb scope : option string) : NetworksetupHeader :=
  match ls with
  | [] => mkHeader (default "setdnsservers" verb) (default "" scope) []
  | line :: rest =>
      match Redirect.strip_prefix "# verb=" line with
      | Some v => header_lines rest (Some v) scope
      | None =>
          match Redirect.strip_prefix "# scope=" line with
          | Some s => header_lines rest verb (Some s)
          | None => mkHeader (default "setdnsservers" verb) (default "" scope) ls
          end
      end
  end.

Definition parse_networksetup_header (b : bytes) : option NetworksetupHeader :=
  (λ text, header_lines (str_lines text) None None) <$> from_utf8 b.

Definition parse_dns_body (body : list string) : list string :=
  List.filter (λ l, negb (bool_decide (l = ""))
                    && negb (String.prefix "There aren't any DNS Servers set" l)) (trim <$> body).

Definition networksetup_dns (pre : NetworksetupHeader) (after : bytes) : list (list string) :=
  if bool_decide (nh_scope pre = "") then []
  else
    let pre_servers := parse_dns_body (nh_body pre) in
    let same := match parse_networksetup_header after with
                | Some post => bool_decide (parse_dns_body (nh_body post) = pre_servers)
                | None => false
                end in
    if same then []
    else [["networksetup"; "-setdnsservers"; nh_scope pre]
          ++ match pre_servers with [] => ["empty"] | _ => pre_servers end].

Inductive GetinfoConfig := Dhcp | Manual (ip mask router : string) | Unsupported.

Record Getinfo := mkGetinfo { gi_ip : string; gi_mask : string; gi_router : string }.

Definition getinfo_line (g : Getinfo) (line : string) : Getinfo :=
  let line := trim line in
  match Redirect.strip_prefix "IP address: " line with
  | Some rest => mkGetinfo (trim rest) (gi_mask g) (gi_router g)
  | None =>
      match Redirect.strip_prefix "Subnet mask: " line with
      | Some rest => mkGetinfo (gi_ip g) (trim rest) (gi_router g)
      | None =>
          match Redirect.strip_prefix "Router: " line with
          | Some rest => mkGetinfo (gi_ip g) (gi_mask g) (trim rest)
          | None => g
          end
      end
  end.

Definition first_nonblank (body : list string) : option string :=
  List.find (λ l, negb (bool_decide (l = ""))) (trim <$> body).

Definition parse_getinfo_body (body : list string) : GetinfoConfig :=
  match first_nonblank body with
  | None => Unsupported
  | Some first =>
      if bool_decide (first = "DHCP Configuration") then Dhcp
      else if bool_decide (first = "Manual Configuration") then
        let g := foldl getinfo_line (mkGetinfo "" "" "") body in
        if bool_decide (gi_ip g = "none") || bool_decide (gi_mask g = "none") then Unsupported
        else Manual (gi_ip g) (gi_mask g) (gi_router g)
      else Unsupported
  end.

Definition networksetup_ipv4 (pre : NetworksetupHeader) : list (list string) :=
  if bool_decide (nh_scope pre = "") then []
  else match parse_getinfo_body (nh_body pre) with
       | Dhcp => [["networksetup"; "-setdhcp"; nh_scope pre]]
       | Manual ip mask router =>
           [["networksetup"; "-setmanual"; nh_scope pre; ip; mask; if bool_decide (router = "") then "none" else router]]
       | Unsupported => []
       end.

Definition networksetup_location (pre : NetworksetupHeader) (after : bytes) : list (list string) :=
  match first_nonblank (nh_body pre) with
  | None => []
  | Some pre_location =>
      let same := match parse_networksetup_header after ≫= λ post, first_nonblank (nh_body post) with
                  | Some l => bool_decide (l = pre_location)
                  | None => false
                  end in
      if same then [] else [["networksetup"; "-switchtolocation"; pre_location]]
  end.

Definition synthesise_networksetup (before after : bytes) : list (list string) :=
  match parse_networksetup_header before with
  | None => []
  | Some pre =>
      let crossed := match parse_networksetup_header after with
                     | Some post => negb (bool_decide (nh_verb post = nh_verb pre))
                                    || negb (bool_decide (nh_scope post = nh_scope pre))
                     | None => false
                     end in
      if crossed then []
      else if bool_decide (nh_verb pre = "setdnsservers") then networksetup_dns pre after
      else if bool_decide (nh_verb pre = "setmanual") || bool_decide (nh_verb pre = "setdhcp")
      then networksetup_ipv4 pre
      else if bool_decide (nh_verb pre = "switchtolocation") then networksetup_location pre after
      else []
  end.

(** ** [route] *)

Record RouteRow := mkRouteRow { rr_destination : string; rr_gateway : string; rr_iface : string }.

Definition row_identity (r : RouteRow) : string * string := (rr_destination r, rr_iface r).

Definition netstat_line (st : bool * list RouteRow) (line : string) : bool * list RouteRow :=
  let '(in_table, out) := st in
  let trimmed := trim line in
  if bool_decide (trimmed = "") then st
  else if bool_decide (trimmed = "Routing tables") || ends_with_char ":"%char trimmed then st
  else if String.prefix "Destination" trimmed then (true, out)
  else if negb in_table then st
  else match split_whitespace trimmed with
       | dst :: gw :: rest => (in_table, out ++ [mkRouteRow dst gw (default "" (rest !! 1))])
       | _ => st
       end.

Definition parse_netstat_routes (blob : bytes) : list RouteRow :=
  (foldl netstat_line (false, []) (str_lines (from_utf8_lossy blob))).2.

Definition route_is_diff_candidate (r : RouteRow) : bool :=
  negb (String.prefix "link#" (rr_gateway r)) && negb (String.prefix "127." (rr_destination r))
  && negb (bool_decide (rr_destination r = "default")).

Definition row_inverse (pre post : list RouteRow) : list (list string) :=
  ((λ r, ["route"; "delete"; "-net"; rr_destination r])
     <$> missing row_identity (List.filter route_is_diff_candidate post) pre)
  ++ ((λ r, ["route"; "add"; "-net"; rr_destination r; rr_gateway r])
     <$> missing row_identity (List.filter route_is_diff_candidate pre) post).

Definition synthesise_route (before after : bytes) : list (list string) :=
  row_inverse (parse_netstat_routes before) (parse_netstat_routes after).

(** ** [ifconfig] *)

Record IfconfigInet := mkInet { in_addr : string; in_netmask : string }.
Record IfconfigIface := mkIfc { ic_name : string; ic_is_up : bool; ic_inets : list IfconfigInet }.

Fixpoint netmask_of (toks : list string) : string :=
  match toks with
  | [] => ""
  | t :: rest =>
      if bool_decide (t = "netmask") then match rest with n :: _ => n | [] => "" end
      else netmask_of rest
  end.

Definition starts_with_space (s : string) : bool :=
  match s with String c _ => Ascii.is_space c | EmptyString => false end.

(** [out.last_mut()]. *)
Fixpoint push_inet (out : list IfconfigIface) (i : IfconfigInet) : list IfconfigIface :=
  match out with
  | [] => []
  | [x] => [mkIfc (ic_name x) (ic_is_up x) (ic_inets x ++ [i])]
  | x :: out' => x :: push_inet out' i
  end.

Definition ifconfig_inet_line (out : list IfconfigIface) (line : string) : list IfconfigIface :=
  match Redirect.strip_prefix "inet " (trim_start line) with
  | None => out
  | Some rest =>
      match split_whitespace rest with
      | [] => out
      | addr :: toks => push_inet out (mkInet addr (netmask_of toks))
      end
  end.

Definition ifconfig_line (out : list IfconfigIface) (line : string) : list IfconfigIface :=
  match (if starts_with_space line then None else split_once ":"%char line) with
  | Some (name, _) =>
      out ++ [mkIfc name (Env.str_contains line "<UP," || Env.str_contains line ",UP,"
                          || Env.str_contains line ",UP>") []]
  | None => ifconfig_inet_line out line
  end.

Definition parse_ifconfig (blob : bytes) : list IfconfigIface :=
  foldl ifconfig_line [] (str_lines (from_utf8_lossy blob)).

Definition inet_argv (name : string) (i : IfconfigInet) : list string :=
  ["ifconfig"; name; "alias"; in_addr i]
  ++ (if bool_decide (in_netmask i = "") then [] else ["netmask"; in_netmask i]).

Definition ifconfig_inverse (pre post : list IfconfigIface) : list (list string) :=
  concat ((λ post_if,
    match List.find (λ i, bool_decide (ic_name i = ic_name post_if)) pre with
    | None => []
    | Some pre_if =>
        (if bool_decide (ic_is_up pre_if = ic_is_up post_if) then []
         else [["ifconfig"; ic_name post_if; if ic_is_up pre_if then "up" else "down"]])
        ++ ((λ i, ["ifconfig"; ic_name post_if; "-alias"; in_addr i])
              <$> missing in_addr (ic_inets post_if) (ic_inets pre_if))
        ++ (inet_argv (ic_name post_if) <$> missing in_addr (ic_inets pre_if) (ic_inets post_if))
    end) <$> post).

Definition synthesise_ifconfig (before after : bytes) : list (list string) :=
  ifconfig_inverse (parse_ifconfig before) (parse_ifconfig after).

(** ** The synthesisers of the planner *)

(** [serde_json::from_slice] at the three row types. *)
Record NetJson := mkJson {
  json_routes : bytes → option (list IpRouteRow);
  json_ifaces : bytes → option (list IpAddrIface);
  json_links : bytes → option (list IpLinkRow);
}.

Definition network_diff (json : NetJson) (ord ord' : HashOrder string IpAddrIface) : Network.NetSynth :=
  Network.mkNetSynth (decoded (json_routes json) route_inverse)
    (decoded (json_ifaces json) (addr_inverse ord ord'))
    (decoded (json_links json) link_inverse)
    synthesise_networksetup synthesise_route synthesise_ifconfig synthesise_ufw_inverse.

End NetworkDiff.

(** * The network executor

    [executors/network.rs]: tools whose whole state reloads from a dump, and
    tools whose state is led back by the invocations of the plan. *)

Module NetworkExec.
Import Network Plan Executor Orchestrator Runners.

Definition full_reload_argv (tool : NetworkTool) (p : string) : list string :=
  match tool with
  | NetworkTool.Iptables => ["iptables-restore"; p]
  | NetworkTool.Ip6tables => ["ip6tables-restore"; p]
  | NetworkTool.Nft => ["nft"; "-f"; p]
  | NetworkTool.Pfctl => ["/sbin/pfctl"; "-f"; p]
  | NetworkTool.Ufw | NetworkTool.IpRoute | NetworkTool.IpAddr | NetworkTool.IpLink | NetworkTool.Route
  | NetworkTool.Ifconfig | NetworkTool.Networksetup => ["false"; "wrong-restore-path"]
  end.

(** [starts_with]. *)
Fixpoint bytes_prefix (p b : bytes) : bool :=
  match p, b with
  | [], _ => true
  | x :: p', y :: b' => bool_decide (x = y) && bytes_prefix p' b'
  | _ :: _, [] => false
  end.

(** ["flush ruleset\n"]. *)
Definition flush_prefix : bytes :=
  [Byte.x66; Byte.x6c; Byte.x75; Byte.x73; Byte.x68; Byte.x20; Byte.x72; Byte.x75; Byte.x6c; Byte.x65;
   Byte.x73; Byte.x65; Byte.x74; Byte.x0a].

Definition with_nft_flush_prefix (dump : bytes) : bytes :=
  if bytes_prefix flush_prefix dump then dump else flush_prefix ++ dump.

Section Execute.
(** [stash] writes a temporary file and returns its path. *)
Context {T : Type} (run : Run T) (stash : bytes → T → (string + Msg) * T).

Definition full_reload (tool : NetworkTool) (before_state : bytes) (dry_run : bool) (t : T)
    : ExecutionOutcome * T :=
  match before_state with
  | [] => (ExecutionOutcome.Skipped [Lit "no captured before_state to restore from"], t)
  | _ =>
      if dry_run then (ExecutionOutcome.WouldApply, t)
      else match stash before_state t with
           | (inr e, t') => (ExecutionOutcome.Failed e, t')
           | (inl tmp, t') =>
               match run (full_reload_argv tool tmp) t' with
               | (inl _, t'') => (ExecutionOutcome.Applied, t'')
               | (inr e, t'') => (ExecutionOutcome.Failed e, t'')
               end
           end
  end.

Definition diff_apply (inverse_invocations : list (list string)) (dry_run : bool) (t : T)
    : ExecutionOutcome * T :=
  match inverse_invocations with
  | [] => (ExecutionOutcome.Skipped [Lit "no inverse invocations to replay"], t)
  | _ =>
      if dry_run then (ExecutionOutcome.WouldApply, t)
      else match run_all run inverse_invocations t with
           | (inl _, t') => (ExecutionOutcome.Applied, t')
           | (inr e, t') => (ExecutionOutcome.Failed e, t')
           end
  end.

Definition network_execute (op : InverseOp) (dry_run : bool) (_ : ConflictPolicy) (t : T)
    : ExecutionOutcome * T :=
  match op with
  | InverseOp.NetworkRollback tool before_state inverse_invocations =>
      match restore_method tool with
      | FullReload => full_reload tool before_state dry_run t
      | DiffApply | DiffApplyWithReset => diff_apply inverse_invocations dry_run t
      end
  | _ => (ExecutionOutcome.Skipped [Lit "network executor reached non-network op"], t)
  end.

End Execute.

End NetworkExec.
