(* ===== verification/SystemFacts.v ===== *)
(** * Undoing service and package changes

    What [systemctl] promises of a unit, as an interface, and that the
    invocations of the executor lead a unit back to the state that was shown
    before the command. *)

From S2P Require Import Prelude Paths Base Events Inverse Probe Network Plan Executor Env Orchestrator.
From S2P Require Import Redirect Runners Packages.

Module ServiceFacts.
Import Plan Executor Orchestrator Runners Services.

(** ** What systemctl manages *)

(** A unit: running, linked into a target, and linked to [/dev/null]. *)
Record UnitState := mkUnit { us_active : bool; us_links : bool; us_masked : bool }.

Definition systemd_scope (scope : SystemdScope) : bool :=
  match scope with SystemdScope.User | SystemdScope.System => true | _ => false end.

Definition systemctl (scope : SystemdScope) (verb unit : string) : list string :=
  match scope with SystemdScope.User => ["systemctl"; "--user"] | _ => ["systemctl"] end ++ [verb; unit].

(** What a verb does to a unit; [None] where it refuses: a masked unit is
    neither started nor enabled nor disabled. *)
Definition verb_effect (verb : string) (u : UnitState) : option UnitState :=
  if bool_decide (verb = "unmask") then Some (mkUnit (us_active u) (us_links u) false)
  else if bool_decide (verb = "mask") then Some (mkUnit (us_active u) (us_links u) true)
  else if bool_decide (verb = "stop") then Some (mkUnit false (us_links u) (us_masked u))
  else if us_masked u then None
  else if bool_decide (verb = "start") then Some (mkUnit true (us_links u) false)
  else if bool_decide (verb = "enable") then Some (mkUnit (us_active u) true false)
  else if bool_decide (verb = "disable") then Some (mkUnit (us_active u) false false)
  else None.

(** The interface: an accepted verb exits with status zero and has its effect
    on the unit. [installable] units have an [Install] section; the others
    cannot be enabled or disabled. *)
Class Systemctl {T : Type} (run : Run T) (unit_at : T → SystemdScope → string → UnitState)
    (installable : string → Prop) := {
  systemctl_effect : ∀ scope verb unit t u',
    systemd_scope scope = true →
    (verb = "enable" ∨ verb = "disable" → installable unit) →
    verb_effect verb (unit_at t scope unit) = Some u' →
    ∃ t', run (systemctl scope verb unit) t = (inl tt, t') ∧ unit_at t' scope unit = u';
}.

(** What [systemctl show] says of a unit: a masked one is not enabled. *)
Definition shows (u : UnitState) (s : ServiceState) : Prop :=
  active s = us_active u ∧ enabled s = us_links u && negb (us_masked u) ∧ masked s = us_masked u.

(** The parser agrees: it never reads a unit as both masked and enabled. *)
Lemma parse_masked_not_enabled (text : string) :
  let s := parse_systemctl_show text in masked s = true → enabled s = false.
Proof.
  cbn [parse_systemctl_show masked enabled]. generalize (default "disabled" (last_value text "UnitFileState")).
  intros u. unfold Network.contains. simpl. intros H.
  repeat case_bool_decide; subst; done.
Qed.

Lemma parse_shows (text : string) : ∃ u, shows u (parse_systemctl_show text).
Proof.
  pose proof (parse_masked_not_enabled text) as H. cbn zeta in H. revert H.
  generalize (parse_systemctl_show text) as s. intros s H.
  exists (mkUnit (active s) (enabled s) (masked s)). split_and!; [done| |done]. simpl.
  destruct (masked s); [by rewrite H|by rewrite andb_true_r].
Qed.

(** ** Leading back *)

Section Restore.
Context {T : Type} (run : Run T) (unit_at : T → SystemdScope → string → UnitState) (installable : string → Prop).
Context `{!Systemctl run unit_at installable}.
Context (scope : SystemdScope) (unit : string) (before after : ServiceState).
Hypothesis Hscope : systemd_scope scope = true.
Hypothesis Hinst : enabled before ≠ enabled after → installable unit.

(** The unit goes from [u] to [u'] by an invocation or by none. *)
Definition leads (l : list (list string)) (u u' : UnitState) : Prop :=
  ∀ t, unit_at t scope unit = u → ∃ t', run_all run l t = (inl tt, t') ∧ unit_at t' scope unit = u'.

Lemma leads_nil u : leads [] u u.
Proof. intros t Ht. by exists t. Qed.

Lemma leads_app l l' u u1 u2 : leads l u u1 → leads l' u1 u2 → leads (l ++ l') u u2.
Proof.
  intros H H' t Ht. destruct (H t Ht) as (t1 & Hr & Ht1). destruct (H' t1 Ht1) as (t2 & Hr2 & Ht2).
  exists t2. by rewrite (run_all_app _ _ _ _ _ Hr).
Qed.

Lemma leads_verb verb u u' :
  (verb = "enable" ∨ verb = "disable" → installable unit) → verb_effect verb u = Some u' →
  leads [systemctl scope verb unit] u u'.
Proof.
  intros Hi He t <-. destruct (systemctl_effect scope verb unit t u' Hscope Hi He) as (t' & Hr & Ht').
  exists t'. simpl. by rewrite Hr.
Qed.

(** A change of the mask leaves the links alone, and what is masked on both
    sides of the command was not started in between. *)
Definition plain_change (u : UnitState) : Prop :=
  (masked before = false → masked after = true → enabled before = false → us_links u = false)
  ∧ (masked before = true → masked after = true → active before = true → active after = true).

Lemma systemctl_leads_back (u : UnitState) :
  shows u after → (masked before = true → enabled before = false) → plain_change u →
  ∃ u', leads (systemctl_argv scope unit before after) u u' ∧ shows u' before.
Proof.
  intros (Ha & He & Hm) Hb [Hl Hs]. unfold systemctl_argv.
  change (λ verb, (match scope with SystemdScope.User => ["systemctl"; "--user"] | _ => ["systemctl"] end)
    ++ [verb; unit]) with (λ verb, systemctl scope verb unit).
  destruct u as [ua ul um], before as [ba be bm bp br], after as [aa ae am ap ar]; simpl in *; subst aa ae am.
  exists (mkUnit ba (if bool_decide (be = ul && negb um) then ul else be) bm). split.
  - apply leads_app with (mkUnit ua ul (um && bm)); [|apply leads_app with
      (mkUnit ua (if bool_decide (be = ul && negb um) then ul else be) (um && bm)); [|apply leads_app with
      (mkUnit ba (if bool_decide (be = ul && negb um) then ul else be) (um && bm))]].
    + destruct um, bm; simpl; try apply leads_nil. apply leads_verb; [by intros [? | ?]|done].
    + case_bool_decide as Heq; [apply leads_nil|].
      destruct be; apply leads_verb; try (intros _; by apply Hinst); destruct um, bm, ul; simpl in *;
        try done; by specialize (Hb eq_refl).
    + case_bool_decide as Heq; [rewrite Heq; apply leads_nil|].
      destruct ba; apply leads_verb; try (by intros [? | ?]); destruct um, bm; simpl in *; try done.
      destruct ua; [done|]. by specialize (Hs eq_refl eq_refl eq_refl).
    + destruct um, bm; simpl; try apply leads_nil. apply leads_verb; [by intros [? | ?]|done].
  - split_and!; [done| |done]. simpl. case_bool_decide as Heq; destruct um, bm, ul, be; simpl in *; try done;
      try (by specialize (Hb eq_refl)); by specialize (Hl eq_refl eq_refl eq_refl).
Qed.

End Restore.

End ServiceFacts.

(** * Undoing package transactions

    What a package manager promises of the two kinds of invocation the
    executor emits, as an interface, and that the executor takes the set of
    installed packages back to what it was. *)

Module PackageFacts.
Import Plan Executor Orchestrator Runners Packages.

(** ** Invocations *)

(** Those that remove the packages named. *)
Definition removes (manager : PackageManager) (argv : list string) (names : list string) : Prop :=
  argv = match manager with
         | PackageManager.Apt | PackageManager.Dpkg => ["apt-get"; "remove"; "-y"]
         | PackageManager.Pacman => ["pacman"; "-R"; "--noconfirm"]
         | PackageManager.Dnf => ["dnf"; "remove"; "-y"]
         | PackageManager.Brew => ["brew"; "uninstall"]
         | PackageManager.Pkg => ["/usr/sbin/pkg"; "delete"; "-y"]
         end ++ names.

(** Those that install packages at given versions; [brew] has none. *)
Definition installs (manager : PackageManager) (argv : list string) (specs : list (string * string)) : Prop :=
  match manager with
  | PackageManager.Apt | PackageManager.Dpkg =>
      argv = ["apt-get"; "install"; "-y"; "--allow-downgrades"] ++ ((λ kv, kv.1 +:+ "=" +:+ kv.2) <$> specs)
  | PackageManager.Dnf => argv = ["dnf"; "install"; "-y"] ++ ((λ kv, kv.1 +:+ "-" +:+ kv.2) <$> specs)
  | PackageManager.Pacman =>
      ∃ kv, specs = [kv] ∧ argv = ["pacman"; "-U"; "--noconfirm";
        "/var/cache/pacman/pkg/" +:+ kv.1 +:+ "-" +:+ kv.2 +:+ "-x86_64.pkg.tar.zst"]
  | PackageManager.Pkg =>
      ∃ kv, specs = [kv] ∧ argv = ["/usr/sbin/pkg"; "install"; "-y"; kv.1 +:+ "-" +:+ kv.2]
  | PackageManager.Brew => False
  end.

(** The interface. [offered] are the versions the manager can still get,
    [closed] the sets of packages in which all dependencies are met: an
    invocation that asks for offered versions and leads to such a set exits
    with status zero and does just that. *)
Class PackageSystem {T : Type} (manager : PackageManager) (run : Run T) (inst : T → Pkgs)
    (offered : string → string → Prop) (closed : Pkgs → Prop) := {
  system_removes : ∀ argv names t,
    removes manager argv names → (∀ n, n ∈ names → is_Some (inst t !! n)) →
    closed (foldr delete (inst t) names) →
    ∃ t', run argv t = (inl tt, t') ∧ inst t' = foldr delete (inst t) names;
  system_installs : ∀ argv specs t,
    installs manager argv specs → (∀ n v, (n, v) ∈ specs → offered n v) →
    closed (list_to_map specs ∪ inst t) →
    ∃ t', run argv t = (inl tt, t') ∧ inst t' = list_to_map specs ∪ inst t;
}.

(** ** The difference of two sets *)

Section Diff.
Context (before after : Pkgs).

Lemma elem_of_installed (n : string) : n ∈ installed before after ↔ before !! n = None ∧ is_Some (after !! n).
Proof.
  unfold installed. rewrite list_elem_of_fmap. split.
  - intros ([k v] & -> & Hin). rewrite elem_of_list_filter in Hin. destruct Hin as [Hin Hb].
    rewrite negb_true_iff, bool_decide_eq_false, <- eq_None_not_Some in Hb.
    apply elem_of_btree_iter in Hin. simpl in *. by rewrite Hin.
  - intros [Hb [v Hv]]. exists (n, v). split; [done|]. rewrite elem_of_list_filter.
    split; [by apply elem_of_btree_iter|]. simpl. rewrite Hb. done.
Qed.

(** What is put back: removed packages and those with another version. *)
Definition restored : list (string * string) := removed before after ++ changed before after.

Lemma elem_of_restored (n v : string) :
  (n, v) ∈ restored ↔ before !! n = Some v ∧ after !! n ≠ Some v.
Proof.
  unfold restored, removed, changed. rewrite elem_of_app, !elem_of_list_filter, !elem_of_btree_iter. simpl.
  destruct (after !! n) as [v'|]; simpl.
  - rewrite negb_true_iff, bool_decide_eq_false. naive_solver.
  - naive_solver.
Qed.

Lemma filter_keys_NoDup (P : string * string → bool) (m : Pkgs) : NoDup (List.filter P (btree_iter m)).*1.
Proof.
  pose proof (NoDup_btree_iter_keys m) as Hn. induction (btree_iter m) as [|[k v] l IH]; [done|]. simpl in *.
  apply NoDup_cons in Hn as [Hk Hn]. destruct (P (k, v)); [|by apply IH]. simpl. constructor; [|by apply IH].
  intros ([k' v'] & Heq & Hin)%list_elem_of_fmap. rewrite elem_of_list_filter in Hin. simpl in Heq.
  apply Hk. rewrite Heq. apply (list_elem_of_fmap_2 fst l (k', v')), Hin.
Qed.

Lemma restored_NoDup : NoDup restored.*1.
Proof.
  unfold restored. rewrite fmap_app. apply NoDup_app. split_and!; [apply filter_keys_NoDup| |apply filter_keys_NoDup].
  intros n ([n1 v1] & -> & H1)%list_elem_of_fmap ([n2 v2] & Heq & H2)%list_elem_of_fmap. simpl in *. subst n2.
  unfold removed, changed in *. rewrite elem_of_list_filter in H1, H2. simpl in *.
  destruct (after !! n1); naive_solver.
Qed.

(** What is left once the new packages are gone. *)
Definition kept : Pkgs := foldr delete after (installed before after).

Lemma lookup_kept (n : string) : kept !! n = match before !! n with Some _ => after !! n | None => None end.
Proof.
  unfold kept. pose proof (elem_of_installed n) as Hn.
  destruct (decide (n ∈ installed before after)) as [Hin|Hout].
  - rewrite lookup_foldr_delete by done. by destruct Hn as [[-> _] _].
  - rewrite lookup_foldr_delete_not_elem_of by done. destruct (before !! n) eqn:Hb; [done|].
    destruct (after !! n) eqn:Ha; [|done]. destruct Hout. apply Hn. by split; [|eexists].
Qed.

Lemma restored_union : list_to_map restored ∪ kept = before.
Proof.
  apply map_eq. intros n. rewrite lookup_union.
  destruct ((list_to_map restored : Pkgs) !! n) as [v|] eqn:Hr.
  - apply elem_of_list_to_map_2, elem_of_restored in Hr as [-> _]. by rewrite union_Some_l.
  - rewrite (left_id_L None _), lookup_kept. destruct (before !! n) as [v|] eqn:Hb; [|done].
    destruct (decide (after !! n = Some v)) as [->|Hne]; [done|].
    assert ((n, v) ∈ restored) as Hin by by apply elem_of_restored.
    apply not_elem_of_list_to_map_2 in Hr. destruct Hr. by apply (list_elem_of_fmap_2 fst) in Hin.
Qed.

Lemma nothing_to_do : installed before after = [] → restored = [] → before = after.
Proof.
  intros Hi Hr. apply map_eq. intros n. pose proof (elem_of_installed n) as Hin. rewrite Hi in Hin.
  destruct (before !! n) as [v|] eqn:Hb.
  - destruct (decide (after !! n = Some v)) as [->|Hne]; [done|].
    assert ((n, v) ∈ restored) as H by by apply elem_of_restored. rewrite Hr in H. by apply elem_of_nil in H.
  - destruct (after !! n) eqn:Ha; [|done]. destruct Hin as [_ Hin]. destruct (not_elem_of_nil n). by apply Hin; split; [|eexists].
Qed.

End Diff.

(** ** The executor *)

Section Undo.
Context {T : Type} (manager : PackageManager) (run : Run T) (inst : T → Pkgs).
Context (offered : string → string → Prop) (closed : Pkgs → Prop).
Context `{!PackageSystem manager run inst offered closed}.
Context (before after : Pkgs).
Hypothesis Hoffered : ∀ n v, before !! n = Some v → after !! n ≠ Some v → offered n v.

(** Whether the manager is asked for everything at once. *)
Definition at_once : bool :=
  match manager with PackageManager.Apt | PackageManager.Dpkg | PackageManager.Dnf => true | _ => false end.

(** The sets on the way: the packages both have, then the old versions put
    back, all together or one after the other. *)
Definition stage (k : nat) : Pkgs := list_to_map (take k (restored before after)) ∪ kept before after.

Definition stages_closed : Prop :=
  ∀ k, k ≤ length (restored before after) →
    (at_once = true → k = 0 ∨ k = length (restored before after)) → closed (stage k).

Lemma removes_installed (prefix : list string) (t : T) :
  (∀ names, removes manager (prefix ++ names) names) → inst t = after → closed (kept before after) →
  ∃ t', run_all run (one_for_all prefix (installed before after)) t = (inl tt, t')
    ∧ inst t' = kept before after.
Proof.
  intros Hr Ht Hc. destruct (installed before after) as [|n l] eqn:Hi.
  { exists t. split; [done|]. unfold kept. by rewrite Hi, Ht. }
  destruct (system_removes (prefix ++ n :: l) (n :: l) t) as (t' & Hrun & Ht').
  - apply Hr.
  - intros n' Hn'. rewrite Ht. rewrite <- Hi in Hn'. by apply elem_of_installed in Hn' as [_ ?].
  - rewrite Ht, <- Hi. exact Hc.
  - exists t'. rewrite <- Hi in Ht'. rewrite Ht in Ht'. split; [|exact Ht']. simpl.
    change (prefix ++ n :: l) with (prefix ++ n :: l) in Hrun. by rewrite Hrun.
Qed.

Lemma restored_offered (specs : list (string * string)) :
  (∀ kv, kv ∈ specs → kv ∈ restored before after) → ∀ n v, (n, v) ∈ specs → offered n v.
Proof. intros Hs n v Hin. apply Hs, elem_of_restored in Hin as [Hb Ha]. by apply Hoffered. Qed.

Lemma installs_at_once (prefix : list string) (show : string * string → string) (t : T) :
  (∀ specs, installs manager (prefix ++ (show <$> specs)) specs) →
  inst t = kept before after → closed before →
  ∃ t', run_all run (one_for_all prefix (show <$> restored before after)) t = (inl tt, t') ∧ inst t' = before.
Proof.
  intros Hi Ht Hc. pose proof (restored_union before after) as Hu.
  destruct (restored before after) as [|kv l] eqn:Hr.
  { exists t. split; [done|]. rewrite Ht. simpl in Hu. by rewrite (left_id_L ∅ _) in Hu. }
  destruct (system_installs (prefix ++ (show <$> kv :: l)) (kv :: l) t) as (t' & Hrun & Ht').
  - apply Hi.
  - apply restored_offered. intros x. by rewrite Hr.
  - by rewrite Ht, Hu.
  - exists t'. rewrite Ht, Hu in Ht'. split; [|done]. simpl in *. by rewrite Hrun.
Qed.

Lemma stage_next (l1 l2 : list (string * string)) (n v : string) :
  restored before after = l1 ++ (n, v) :: l2 →
  stage (S (length l1)) = list_to_map [(n, v)] ∪ stage (length l1).
Proof.
  intros Hl. pose proof (restored_NoDup before after) as Hnd. unfold stage. rewrite Hl in Hnd |- *.
  rewrite !take_app_ge, Nat.sub_diag by lia. replace (S (length l1) - length l1) with 1 by lia. simpl.
  rewrite take_0, app_nil_r, list_to_map_snoc.
  - by rewrite <- !insert_union_l, (left_id_L ∅ _).
  - rewrite fmap_app, NoDup_app in Hnd. destruct Hnd as (_ & Hd & _). intros Hin. apply (Hd n Hin). left.
Qed.

Lemma installs_each (f : string * string → list string) (t : T) :
  (∀ kv, installs manager (f kv) [kv]) → inst t = kept before after →
  (∀ k, k ≤ length (restored before after) → closed (stage k)) →
  ∃ t', run_all run (f <$> restored before after) t = (inl tt, t') ∧ inst t' = before.
Proof.
  intros Hi Ht Hc. assert (∀ l1 l2 t, restored before after = l1 ++ l2 → inst t = stage (length l1) →
    ∃ t', run_all run (f <$> l2) t = (inl tt, t') ∧ inst t' = stage (length (restored before after))) as Hgo.
  { intros l1 l2. revert l1. induction l2 as [|[n v] l2 IH]; intros l1 t1 Hl Ht1.
    { exists t1. split; [done|]. by rewrite Hl, app_nil_r. }
    pose proof (stage_next l1 l2 n v Hl) as Hst. rewrite <- Ht1 in Hst.
    destruct (system_installs (f (n, v)) [(n, v)] t1) as (t2 & Hrun & Ht2).
    - apply Hi.
    - apply restored_offered. intros kv [->|[]%elem_of_nil]%elem_of_cons. rewrite Hl. set_solver.
    - rewrite <- Hst. apply Hc. rewrite Hl, length_app. simpl. lia.
    - destruct (IH (l1 ++ [(n, v)]) t2) as (t3 & Hrun3 & Ht3).
      + by rewrite <- app_assoc.
      + rewrite Ht2, <- Hst, length_app. simpl. f_equal. lia.
      + exists t3. split; [|done]. simpl. by rewrite Hrun. }
  destruct (Hgo [] (restored before after) t) as (t' & Hrun & Ht'); [done| |].
  - rewrite Ht. unfold stage. rewrite take_0. simpl. by rewrite (left_id_L ∅ _).
  - exists t'. split; [done|]. rewrite Ht'. unfold stage. by rewrite firstn_all, restored_union.
Qed.

Lemma stage_first : stage 0 = kept before after.
Proof. unfold stage. rewrite take_0. simpl. by rewrite (left_id_L ∅ _). Qed.

Lemma stage_last : stage (length (restored before after)) = before.
Proof. unfold stage. by rewrite firstn_all, restored_union. Qed.

Definition per_package (hint : option string) : Prop :=
  manager ≠ PackageManager.Brew
  ∧ (manager = PackageManager.Dnf → ∀ id, hint = Some id → all_digits id = false ∨ id = "").

Definition manager_argv (hint : option string) : list (list string) :=
  let inst := installed before after in
  let rem := removed before after in
  let ch := changed before after in
  match manager with
  | PackageManager.Apt | PackageManager.Dpkg => apt_argv inst rem ch
  | PackageManager.Pacman => pacman_argv inst rem ch
  | PackageManager.Dnf => dnf_argv inst rem ch hint
  | PackageManager.Brew => brew_argv inst rem ch
  | PackageManager.Pkg => pkg_argv inst rem ch
  end.

(** Without a history identifier [dnf] is asked package by package. *)
Lemma dnf_argv_per_package inst' rem ch hint :
  manager = PackageManager.Dnf → per_package hint → dnf_argv inst' rem ch hint = dnf_argv inst' rem ch None.
Proof.
  intros Hm [_ Hd]. destruct hint as [id|]; [|done]. simpl.
  destruct (Hd Hm id eq_refl) as [->| ->]; [done|]. by rewrite andb_false_r.
Qed.

Lemma once_restores (p q : list string) (show : string * string → string) (t : T) :
  (∀ names, removes manager (p ++ names) names) →
  (∀ specs, installs manager (q ++ (show <$> specs)) specs) →
  at_once = true → inst t = after → stages_closed →
  ∃ t', run_all run (one_for_all p (installed before after)
      ++ one_for_all q (show <$> restored before after)) t = (inl tt, t') ∧ inst t' = before.
Proof.
  intros Hr Hi _ Ht Hc. destruct (removes_installed p t Hr Ht) as (t1 & Hr1 & Ht1).
  { rewrite <- stage_first. apply Hc; [lia|by left]. }
  destruct (installs_at_once q show t1 Hi Ht1) as (t2 & Hr2 & Ht2).
  { rewrite <- stage_last. apply Hc; [lia|by right]. }
  exists t2. by rewrite (run_all_app _ _ _ _ _ Hr1).
Qed.

Lemma each_restores (p : list string) (f : string * string → list string) (t : T) :
  (∀ names, removes manager (p ++ names) names) → (∀ kv, installs manager (f kv) [kv]) →
  at_once = false → inst t = after → stages_closed →
  ∃ t', run_all run (one_for_all p (installed before after) ++ (f <$> restored before after)) t = (inl tt, t')
    ∧ inst t' = before.
Proof.
  intros Hr Hi Ha Ht Hc. assert (∀ k, k ≤ length (restored before after) → closed (stage k)) as Hall.
  { intros k Hk. apply Hc; [done|]. by rewrite Ha. }
  destruct (removes_installed p t Hr Ht) as (t1 & Hr1 & Ht1); [rewrite <- stage_first; apply Hall; lia|].
  destruct (installs_each f t1 Hi Ht1 Hall) as (t2 & Hr2 & Ht2).
  exists t2. by rewrite (run_all_app _ _ _ _ _ Hr1).
Qed.

Lemma manager_argv_restores hint (t : T) :
  per_package hint → inst t = after → stages_closed →
  ∃ t', run_all run (manager_argv hint) t = (inl tt, t') ∧ inst t' = before.
Proof.
  intros Hp Ht Hc. pose proof (dnf_argv_per_package (installed before after) (removed before after)
    (changed before after) hint) as Hdnf.
  pose proof once_restores as Ho. pose proof each_restores as He. unfold manager_argv, at_once, per_package in *.
  destruct manager eqn:Hm; [apply Ho..| |rewrite Hdnf by done; apply Ho|by destruct Hp|]; try done.
  - apply He; try done. intros kv. by exists kv.
  - apply He; try done. intros kv. by exists kv.
Qed.

Lemma one_for_all_nil (p args : list string) : one_for_all p args = [] → args = [].
Proof. by destruct args. Qed.

(** Something to do means something is run. *)
Lemma manager_argv_nil hint :
  manager_argv hint = [] → installed before after = [] ∧ restored before after = [].
Proof.
  unfold manager_argv, apt_argv, pacman_argv, dnf_argv, brew_argv, pkg_argv. fold (restored before after).
  destruct manager; [| | |destruct hint; [case_match; [done|]|]| |];
    intros [H1 H2]%app_nil; (first [apply one_for_all_nil in H1|apply fmap_nil_inv in H1]);
    try apply one_for_all_nil in H2; apply fmap_nil_inv in H2; done.
Qed.

Lemma synthesize_argv_eq hint :
  synthesize_argv manager before after hint =
  if bool_decide (before = after) then [] else manager_argv hint.
Proof.
  assert (∀ m : Pkgs, installed m m = [] ∧ removed m m = [] ∧ changed m m = []) as Hself.
  { intros m. split_and!; apply elem_of_nil_inv.
    - intros n Hn. apply elem_of_installed in Hn as [-> [? ?]]. done.
    - intros [n v] Hn. assert ((n, v) ∈ restored m m) as H by (apply elem_of_app; by left).
      by apply elem_of_restored in H as [H ?].
    - intros [n v] Hn. assert ((n, v) ∈ restored m m) as H by (apply elem_of_app; by right).
      by apply elem_of_restored in H as [H ?]. }
  unfold synthesize_argv, manager_argv. case_bool_decide as Heq.
  - rewrite Heq. by destruct (Hself after) as (-> & -> & ->).
  - pose proof (nothing_to_do before after) as Hn. unfold restored in Hn.
    destruct (installed before after), (removed before after), (changed before after); try done.
    by destruct Heq; apply Hn.
Qed.

(** The executor, without a rollback of the manager's own. *)
Lemma package_execute_restores capture op hint policy (t : T) :
  per_package hint → inst t = after → stages_closed →
  ∃ t', package_execute run capture (InverseOp.PackageRollback manager op before after hint None) false policy t
      = (if bool_decide (before = after)
         then ExecutionOutcome.Skipped [Lit "no-op diff (packages_before == packages_after)"]
         else ExecutionOutcome.Applied, t')
    ∧ inst t' = before.
Proof.
  intros Hp Ht Hc. unfold package_execute. rewrite synthesize_argv_eq. case_bool_decide as Heq.
  { exists t. by rewrite Ht. }
  destruct (manager_argv_restores hint t Hp Ht Hc) as (t' & Hr & Ht').
  exists t'. split; [|done]. pose proof (manager_argv_nil hint) as Hnil.
  destruct (manager_argv hint) as [|argv l]; [|by rewrite Hr].
  destruct Hnil as [H1 H2]; [done|]. destruct Heq. by apply nothing_to_do.
Qed.

End Undo.

(** ** Where the promise ends *)

(** A transaction the manager can roll back itself is never rolled back: the
    runner of the daemon gives the guard no output to look at, so the guard
    never finds the transaction, and the undo fails before anything runs. *)
Theorem native_rollback_always_refused {T} (run : Run T) manager op before after hint d dry_run policy (t : T) :
  native_delegation_for manager hint = Some d →
  ∃ e, package_execute run default_capture (InverseOp.PackageRollback manager op before after hint (Some d))
    dry_run policy t = (ExecutionOutcome.Failed e, t).
Proof.
  unfold native_delegation_for. destruct hint as [hint|]; [|done].
  case_bool_decide as Hid; [done|].
  destruct (trim hint) as [|c id] eqn:Hh; [done|]. destruct manager; intros [= <-]; simpl; eauto.
Qed.

(** [brew] is not told versions: whatever version of a removed package was
    there, it is asked for the name alone. *)
Theorem brew_forgets_version (n v : string) hint :
  synthesize_argv PackageManager.Brew {[n := v]} ∅ hint = [["brew"; "install"; n]].
Proof.
  assert (btree_iter ({[n := v]} : Pkgs) = [(n, v)]) as Hb by (unfold btree_iter; by rewrite map_to_list_singleton).
  unfold synthesize_argv, installed, removed, changed. rewrite Hb. simpl. by rewrite lookup_empty.
Qed.

End PackageFacts.
