(* ===== verification/NetworkFacts.v ===== *)
(** * Undoing network changes

    Routes, addresses and firewall rules are tables of rows. What a tool
    promises of adding and removing one row, as an interface; that the
    invocations [network_diff.rs] derives from two dumps take the table back;
    and the changes for which they do not. *)

From S2P Require Import Prelude Base Events Network Plan Redirect Runners Text NetworkDiff.

Module NetworkFacts.
Import Plan Runners NetworkDiff.

(** ** Rows and their keys *)

Section Rows.
Context {A K : Type} `{Countable K} (key : A → K).
Implicit Types (m : gmap K A) (l : list A).

Definition well_keyed m : Prop := ∀ k r, m !! k = Some r → key r = k.

Definition add_rows l m : gmap K A := foldl (λ m r, <[key r := r]> m) m l.
Definition del_rows l m : gmap K A := foldl (λ m r, delete (key r) m) m l.

(** The rows a dump shows. *)
Definition rows l : gmap K A := add_rows l ∅.

Lemma lookup_del_rows l m k : del_rows l m !! k = if bool_decide (k ∈ key <$> l) then None else m !! k.
Proof.
  revert m. induction l as [|r l IH]; intros m; [done|]. cbn [del_rows foldl]. fold (del_rows l (delete (key r) m)).
  rewrite IH, fmap_cons. repeat case_bool_decide; try set_solver.
  - destruct (decide (k = key r)) as [->|]; [by rewrite lookup_delete_eq|set_solver].
  - rewrite lookup_delete_ne; [done|]. set_solver.
Qed.

Lemma lookup_add_rows l m k :
  NoDup (key <$> l) → (∀ r, r ∈ l → key r = k → add_rows l m !! k = Some r)
    ∧ (k ∉ key <$> l → add_rows l m !! k = m !! k).
Proof.
  revert m. induction l as [|r l IH]; intros m Hn; [split; [set_solver|done]|].
  rewrite fmap_cons in *. apply NoDup_cons in Hn as [Hr Hn]. destruct (IH (<[key r := r]> m) Hn) as [H1 H2].
  cbn [add_rows foldl]. fold (add_rows l (<[key r := r]> m)). split.
  - intros r' [->|Hin]%elem_of_cons Hk; [|by apply H1]. rewrite H2 by by rewrite <- Hk.
    rewrite Hk. by rewrite lookup_insert_eq.
  - intros Hk. rewrite H2 by set_solver. rewrite lookup_insert_ne; [done|set_solver].
Qed.

Lemma rows_well_keyed l : NoDup (key <$> l) → well_keyed (rows l).
Proof.
  intros Hn k r Hk. destruct (lookup_add_rows l ∅ k Hn) as [Hin Hout].
  destruct (decide (k ∈ key <$> l)) as [Hkl|Hkl].
  - apply list_elem_of_fmap in Hkl as (r' & -> & Hr'). unfold rows in Hk. rewrite (Hin r') in Hk by done.
    by injection Hk as ->.
  - unfold rows in Hk. by rewrite Hout, lookup_empty in Hk.
Qed.

Lemma lookup_rows l r : NoDup (key <$> l) → (rows l !! key r = Some r ↔ r ∈ l).
Proof.
  intros Hn. destruct (lookup_add_rows l ∅ (key r) Hn) as [Hin Hout]. fold (rows l) in *. split.
  - intros Hr. destruct (decide (key r ∈ key <$> l)) as [Hkl|Hkl].
    + apply list_elem_of_fmap in Hkl as (r' & Heq & Hr'). rewrite (Hin r') in Hr by done. by injection Hr as ->.
    + by rewrite Hout, lookup_empty in Hr.
  - intros Hr. by apply Hin.
Qed.

Lemma lookup_rows_None l k : NoDup (key <$> l) → (rows l !! k = None ↔ k ∉ key <$> l).
Proof.
  intros Hn. destruct (lookup_add_rows l ∅ k Hn) as [Hin Hout]. fold (rows l) in *. split.
  - intros Hk (r & -> & Hr)%list_elem_of_fmap. by rewrite (Hin r) in Hk.
  - intros Hk. by rewrite Hout, lookup_empty.
Qed.

Lemma elem_of_missing l l' r : r ∈ missing key l l' ↔ r ∈ l ∧ key r ∉ key <$> l'.
Proof.
  unfold missing. rewrite elem_of_list_filter, negb_true_iff, <- not_true_iff_false, existsb_elem.
  setoid_rewrite bool_decide_eq_true. rewrite list_elem_of_fmap. naive_solver.
Qed.

Lemma missing_NoDup l l' : NoDup (key <$> l) → NoDup (key <$> missing key l l').
Proof.
  unfold missing. induction l as [|r l IH]; [done|]. rewrite fmap_cons. intros [Hr Hn]%NoDup_cons. simpl.
  case_match; [|by apply IH]. rewrite fmap_cons. constructor; [|by apply IH].
  intros (r' & Heq & Hin)%list_elem_of_fmap. apply elem_of_list_filter in Hin as [Hin _].
  apply Hr. rewrite Heq. by apply list_elem_of_fmap_2.
Qed.

(** Rows with the same key are the same row. *)
Definition unchanged_rows (pre post : list A) : Prop :=
  ∀ r r', r ∈ pre → r' ∈ post → key r = key r' → r = r'.

(** The rows both dumps have. *)
Definition common (pre post : list A) : gmap K A := del_rows (missing key post pre) (rows post).

End Rows.

(** ** Tables *)

(** The interface. A row has a key; [good] rows are those the syntax of the
    tool can express, [fits] says that a row can be added to a table (its
    gateway is reachable, say). *)
Class TableTool {T A K : Type} `{Countable K} (run : Run T) (key : A → K) (add del : A → list string)
    (table : T → gmap K A) (good : A → Prop) (fits : gmap K A → A → Prop) := {
  tool_adds : ∀ t r, good r → table t !! key r = None → fits (table t) r →
    ∃ t', run (add r) t = (inl tt, t') ∧ table t' = <[key r := r]> (table t);
  tool_dels : ∀ t r, good r → table t !! key r = Some r →
    ∃ t', run (del r) t = (inl tt, t') ∧ table t' = delete (key r) (table t);
}.

Section Table.
Context {T A K : Type} `{Countable K} (run : Run T) (key : A → K) (add del : A → list string).
Context (table : T → gmap K A) (good : A → Prop) (fits : gmap K A → A → Prop).
Context `{!TableTool run key add del table good fits}.
Implicit Types (m : gmap K A) (l : list A).

Lemma dels_run l (t : T) :
  NoDup (key <$> l) → (∀ r, r ∈ l → good r ∧ table t !! key r = Some r) →
  ∃ t', run_all run (del <$> l) t = (inl tt, t') ∧ table t' = del_rows key l (table t).
Proof.
  revert t. induction l as [|r l IH]; intros t Hn Hl; [by exists t|].
  rewrite fmap_cons in Hn. apply NoDup_cons in Hn as [Hr Hn]. destruct (Hl r) as [Hg Ht]; [left|].
  destruct (tool_dels t r Hg Ht) as (t1 & Hrun & Ht1). destruct (IH t1 Hn) as (t2 & Hrun2 & Ht2).
  - intros r' Hin. destruct (Hl r') as [Hg' Ht']; [by right|]. split; [done|].
    rewrite Ht1, lookup_delete_ne; [done|]. intros Heq. apply Hr. rewrite Heq. by apply list_elem_of_fmap_2.
  - exists t2. simpl. by rewrite Hrun, Ht2, Ht1.
Qed.

(** Every row on the list fits once those before it are there. *)
Definition all_fit l m : Prop := ∀ l1 r l2, l = l1 ++ r :: l2 → fits (add_rows key l1 m) r.

Lemma adds_run l (t : T) :
  NoDup (key <$> l) → (∀ r, r ∈ l → good r ∧ table t !! key r = None) → all_fit l (table t) →
  ∃ t', run_all run (add <$> l) t = (inl tt, t') ∧ table t' = add_rows key l (table t).
Proof.
  revert t. induction l as [|r l IH]; intros t Hn Hl Hf; [by exists t|].
  rewrite fmap_cons in Hn. apply NoDup_cons in Hn as [Hr Hn]. destruct (Hl r) as [Hg Ht]; [left|].
  destruct (tool_adds t r Hg Ht) as (t1 & Hrun & Ht1); [by apply (Hf [] r l)|].
  destruct (IH t1 Hn) as (t2 & Hrun2 & Ht2).
  - intros r' Hin. destruct (Hl r') as [Hg' Ht']; [by right|]. split; [done|].
    rewrite Ht1, lookup_insert_ne; [done|]. intros Heq. apply Hr. rewrite Heq. by apply list_elem_of_fmap_2.
  - intros l1 r' l2 ->. rewrite Ht1. by apply (Hf (r :: l1) r' l2).
  - exists t2. simpl. by rewrite Hrun, Ht2, Ht1.
Qed.

(** Two dumps, [m0] before and [m1] after, in which rows key of one key are the
    same row; [dels] are the rows key only the second has and [adds] those only
    the first has. *)
Lemma table_leads_back m0 m1 (dels adds : list A) (t : T) :
  well_keyed key m0 → well_keyed key m1 →
  (∀ k r r', m0 !! k = Some r → m1 !! k = Some r' → r = r') →
  (∀ r, r ∈ dels ↔ m1 !! key r = Some r ∧ m0 !! key r = None) → NoDup (key <$> dels) →
  (∀ r, r ∈ adds ↔ m0 !! key r = Some r ∧ m1 !! key r = None) → NoDup (key <$> adds) →
  (∀ r, r ∈ dels ++ adds → good r) → all_fit adds (del_rows key dels m1) → table t = m1 →
  ∃ t', run_all run ((del <$> dels) ++ (add <$> adds)) t = (inl tt, t') ∧ table t' = m0.
Proof.
  intros Hw0 Hw1 Hsame Hd Hdn Ha Han Hg Hf Ht.
  destruct (dels_run dels t Hdn) as (t1 & Hr1 & Ht1).
  { intros r Hr. split; [apply Hg, elem_of_app; by left|]. rewrite Ht. by apply Hd. }
  rewrite Ht in Ht1. assert (∀ k, table t1 !! k = match m0 !! k with Some _ => m1 !! k | None => None end) as Hl1.
  { intros k. rewrite Ht1, lookup_del_rows. case_bool_decide as Hk.
    - apply list_elem_of_fmap in Hk as (r & -> & [_ ->]%Hd). done.
    - destruct (m0 !! k) eqn:H0; [done|]. destruct (m1 !! k) as [r|] eqn:H1; [|done]. destruct Hk.
      rewrite <- (Hw1 k r H1). apply list_elem_of_fmap_2, Hd. by rewrite (Hw1 k r H1). }
  destruct (adds_run adds t1 Han) as (t2 & Hr2 & Ht2).
  { intros r Hr. split; [apply Hg, elem_of_app; by right|]. apply Ha in Hr as [H0 H1]. by rewrite Hl1, H0. }
  { by rewrite Ht1. }
  exists t2. rewrite (run_all_app _ _ _ _ _ Hr1). split; [done|]. rewrite Ht2. apply map_eq. intros k.
  destruct (lookup_add_rows key adds (table t1) k Han) as [Hin Hout].
  destruct (decide (k ∈ key <$> adds)) as [Hk|Hk].
  - apply list_elem_of_fmap in Hk as (r & -> & Hr). rewrite (Hin r Hr eq_refl). symmetry. by apply Ha.
  - rewrite Hout, Hl1 by done. destruct (m0 !! k) as [r|] eqn:H0; [|done].
    destruct (m1 !! k) as [r'|] eqn:H1; [by rewrite (Hsame k r r')|]. destruct Hk.
    rewrite <- (Hw0 k r H0). apply list_elem_of_fmap_2, Ha. by rewrite (Hw0 k r H0).
Qed.

Lemma diff_leads_back (pre post : list A) (t : T) :
  NoDup (key <$> pre) → NoDup (key <$> post) → unchanged_rows key pre post →
  (∀ r, r ∈ pre ++ post → good r) → all_fit (missing key pre post) (common key pre post) →
  table t = rows key post →
  ∃ t', run_all run ((del <$> missing key post pre) ++ (add <$> missing key pre post)) t = (inl tt, t')
    ∧ table t' = rows key pre.
Proof.
  intros Hn0 Hn1 Hu Hg Hf Ht. apply (table_leads_back (rows key pre) (rows key post)); try done.
  - by apply rows_well_keyed.
  - by apply rows_well_keyed.
  - intros k r r' H0 H1. pose proof (rows_well_keyed key _ Hn0 k r H0) as <-.
    pose proof (rows_well_keyed key _ Hn1 _ r' H1) as Hk. rewrite <- Hk in H1.
    apply lookup_rows in H0, H1; [|done..]. by apply Hu.
  - intros r. rewrite elem_of_missing, lookup_rows, lookup_rows_None; done.
  - by apply missing_NoDup.
  - intros r. rewrite elem_of_missing, lookup_rows, lookup_rows_None; done.
  - by apply missing_NoDup.
  - intros r [Hr|Hr]%elem_of_app; apply elem_of_missing in Hr as [Hr _]; apply Hg, elem_of_app; [by right|by left].
Qed.

End Table.

(** ** Routes *)

(** What [ip route] promises of [good] routes, written the way it shows them
    (so not with the main table by name); [fits] is what the kernel asks of a
    new route. *)
Abbreviation RouteTool run routes good fits :=
  (TableTool run route_identity (route_argv "add") (route_argv "del") routes good fits).

Lemma route_inverse_restores {T} (run : Run T) (routes : T → gmap RouteId IpRouteRow)
    (good : IpRouteRow → Prop) (fits : gmap RouteId IpRouteRow → IpRouteRow → Prop) `{!RouteTool run routes good fits}
    (pre post : list IpRouteRow) (t : T) :
  NoDup (route_identity <$> pre) → NoDup (route_identity <$> post) → unchanged_rows route_identity pre post →
  Forall good (pre ++ post) →
  all_fit route_identity fits (missing route_identity pre post) (common route_identity pre post) →
  routes t = rows route_identity post →
  ∃ t', run_all run (route_inverse pre post) t = (inl tt, t') ∧ routes t' = rows route_identity pre.
Proof. rewrite Forall_forall. intros Hn0 Hn1 Hu Hg Hf Ht. by eapply diff_leads_back. Qed.

(** A route that changed under its key (another gateway or source) is led back
    by no invocation. *)
Theorem route_change_not_undone (pre post : list IpRouteRow) (r r' : IpRouteRow) :
  r ∈ pre → r' ∈ post → route_identity r = route_identity r' →
  r ∉ missing route_identity pre post ∧ r' ∉ missing route_identity post pre.
Proof.
  intros Hr Hr' Hk. rewrite !elem_of_missing. split; intros [_ H]; apply H; [rewrite Hk|rewrite <- Hk];
    by apply list_elem_of_fmap_2.
Qed.

(** ** Addresses *)

(** Addresses with their interface. *)
Definition addr_key (p : string * IpAddrInfo) : string * (string * string * N) := (p.1, addr_identity p.2).
Definition addr_cmd (action : string) (p : string * IpAddrInfo) : list string := addr_argv action p.1 p.2.

Definition flat (ord : HashOrder string IpAddrIface) (m : gmap string IpAddrIface) : list (string * IpAddrInfo) :=
  concat ((λ kv, (kv.1,.) <$> if_addrs kv.2) <$> hash_iter m).

Lemma elem_of_flat ord m n a : (n, a) ∈ flat ord m ↔ a ∈ addrs_of m n.
Proof.
  unfold flat, addrs_of. rewrite list_elem_of_In, in_concat. setoid_rewrite <- list_elem_of_In. split.
  - intros (l & ([n' i] & -> & Hm)%list_elem_of_fmap & Hin). apply list_elem_of_fmap in Hin as (a' & [= -> ->] & Ha).
    apply elem_of_hash_iter in Hm. by rewrite Hm.
  - destruct (m !! n) as [i|] eqn:Hm; [|by intros []%elem_of_nil]. intros Ha.
    exists ((n,.) <$> if_addrs i). split; [|by apply list_elem_of_fmap_2].
    apply list_elem_of_fmap. exists (n, i). split; [done|]. by apply elem_of_hash_iter.
Qed.

(** What the loops over the two maps emit is the difference of the flat
    lists, in the order of the first. *)
Lemma addr_diff_flat ord ord' action m m' :
  addr_diff ord action m m' = addr_cmd action <$> missing addr_key (flat ord m) (flat ord' m').
Proof.
  unfold addr_diff, flat at 1. induction (hash_iter m) as [|[n i] l IH]; [done|]. rewrite !fmap_cons. cbn [concat].
  rewrite IH. unfold missing. rewrite List.filter_app, fmap_app. f_equal. clear IH. cbn [fst snd].
  induction (if_addrs i) as [|a as' IH]; [done|]. rewrite fmap_cons. cbn [List.filter].
  assert (existsb (λ p, bool_decide (addr_identity p = addr_identity a)) (addrs_of m' n)
    = existsb (λ p, bool_decide (addr_key p = addr_key (n, a))) (flat ord' m')) as ->.
  { apply eq_bool_prop_intro. rewrite !Is_true_true, !existsb_elem. split.
    - intros (a' & Ha & Hid%bool_decide_eq_true). exists (n, a'). split; [by apply elem_of_flat|].
      apply bool_decide_eq_true. unfold addr_key. simpl. by rewrite Hid.
    - intros ([n' a'] & Ha & [= -> Hid]%bool_decide_eq_true). exists a'. split; [by apply elem_of_flat in Ha|].
      apply bool_decide_eq_true. unfold addr_identity. congruence. }
  case_match; [by rewrite fmap_cons, IH|done].
Qed.

Section Addr.
Context {T : Type} (run : Run T) (addrs : T → gmap (string * (string * string * N)) (string * IpAddrInfo)).
Context (good : string * IpAddrInfo → Prop).
Context `{!TableTool run addr_key (addr_cmd "add") (addr_cmd "del") addrs good (λ _ _, True)}.
Context (ord ord' : HashOrder string IpAddrIface).

(** Undo of address changes, for any order in which the two hash maps are
    walked: addresses that did not change under their key are back. *)
Lemma addr_inverse_restores (pre post : list IpAddrIface) (t : T) :
  let l0 := flat ord' (by_ifname pre) in
  let l1 := flat ord (by_ifname post) in
  NoDup (addr_key <$> l0) → NoDup (addr_key <$> l1) → unchanged_rows addr_key l0 l1 →
  (∀ r, r ∈ l0 ++ l1 → good r) → addrs t = rows addr_key l1 →
  ∃ t', run_all run (addr_inverse ord ord' pre post) t = (inl tt, t') ∧ addrs t' = rows addr_key l0.
Proof.
  intros l0 l1 Hn0 Hn1 Hu Hg Ht. unfold addr_inverse.
  rewrite (addr_diff_flat ord ord'), (addr_diff_flat ord' ord). by eapply diff_leads_back.
Qed.

End Addr.

(** ** Firewall rules of [ufw] *)

Section Ufw.
Context {T : Type} (run : Run T) (rules : T → gmap string string) (good : string → Prop).
Context `{!TableTool run (λ r, r) rule_to_add_argv rule_to_delete_argv rules good (λ _ _, True)}.

(** [ufw --force reset] leaves no rule. *)
Hypothesis ufw_reset : ∀ t, ∃ t', run ["ufw"; "--force"; "reset"] t = (inl tt, t') ∧ rules t' = ∅.

Lemma decidable_not_not (P : Prop) `{!Decision P} : ¬ ¬ P ↔ P.
Proof. split; [apply dec_stable|tauto]. Qed.

Lemma elem_of_set_difference (a b : list string) (s : string) : s ∈ set_difference a b ↔ s ∈ a ∧ s ∉ b.
Proof.
  unfold set_difference. rewrite list_elem_of_fmap.
  transitivity (is_Some ((list_to_map ((λ s, (s, ())) <$> List.filter (λ s, negb (bool_decide (s ∈ b))) a)
    : gmap string ()) !! s)).
  - split; [intros ([s' u] & -> & H%elem_of_btree_iter); eauto|].
    intros [u Hu]. exists (s, u). split; [done|]. by apply elem_of_btree_iter.
  - rewrite <- not_eq_None_Some, <- not_elem_of_list_to_map, decidable_not_not by apply _.
    rewrite <- list_fmap_compose, (list_fmap_ext _ id) by done. rewrite list_fmap_id, elem_of_list_filter.
    rewrite negb_true_iff, bool_decide_eq_false. done.
Qed.

Lemma set_difference_NoDup (a b : list string) : NoDup (set_difference a b).
Proof. apply NoDup_btree_iter_keys. Qed.

Lemma map_id_rules (l : list string) : (λ r : string, r) <$> l = l.
Proof. apply list_fmap_id. Qed.

(** By deletes and additions, or by a reset where the change is large: the
    rules of the first dump, no others. *)
Lemma ufw_inverse_restores (before after : list string) (t : T) :
  NoDup before → NoDup after → (∀ r, r ∈ before ++ after → good r) → rules t = rows (λ r, r) after →
  ∃ t', run_all run (ufw_inverse before after) t = (inl tt, t') ∧ rules t' = rows (λ r, r) before.
Proof.
  intros Hn0 Hn1 Hg Ht. unfold ufw_inverse.
  assert (∃ t', run_all run ((rule_to_delete_argv <$> set_difference after before)
    ++ (rule_to_add_argv <$> set_difference before after)) t = (inl tt, t') ∧ rules t' = rows (λ r, r) before) as Hd.
  { rewrite <- map_id_rules in Hn0, Hn1.
    eapply (table_leads_back run (λ r, r)) with (m0 := rows (λ r, r) before) (m1 := rows (λ r, r) after); try done.
    - by apply rows_well_keyed.
    - by apply rows_well_keyed.
    - intros k r r' H0%(rows_well_keyed _ _ Hn0) H1%(rows_well_keyed _ _ Hn1). simpl in *. congruence.
    - intros r. rewrite elem_of_set_difference, (lookup_rows (λ r, r)), (lookup_rows_None (λ r, r)), map_id_rules; done.
    - rewrite map_id_rules. apply set_difference_NoDup.
    - intros r. rewrite elem_of_set_difference, (lookup_rows (λ r, r)), (lookup_rows_None (λ r, r)), map_id_rules; done.
    - rewrite map_id_rules. apply set_difference_NoDup.
    - intros r [Hr|Hr]%elem_of_app; apply elem_of_set_difference in Hr as [Hr _]; apply Hg, elem_of_app;
        [by right|by left]. }
  destruct (nil_b (set_difference after before) && nil_b (set_difference before after)) eqn:Hnil.
  { apply andb_true_iff in Hnil as [E1 E2]. destruct (set_difference after before), (set_difference before after); done. }
  case_bool_decide; [|done]. destruct (ufw_reset t) as (t1 & Hr1 & Ht1).
  destruct (adds_run run (λ r, r) rule_to_add_argv rule_to_delete_argv rules good (λ _ _, True) before t1)
    as (t2 & Hr2 & Ht2); [by rewrite map_id_rules| |done|].
  - intros r Hr. split; [apply Hg, elem_of_app; by left|]. by rewrite Ht1, lookup_empty.
  - exists t2. simpl. rewrite Hr1, Hr2. by rewrite Ht2, Ht1.
Qed.

End Ufw.

(** ** Texts that are misread *)

Definition text (s : string) : bytes := String.list_byte_of_string s.

(** An interface whose only flag is [UP] is read as down. *)
Theorem ifconfig_lone_up_missed :
  parse_ifconfig (text "gif0: flags=1<UP> mtu 1280") = [mkIfc "gif0" false []]
  ∧ parse_ifconfig (text "gif0: flags=41<UP,RUNNING> mtu 1280") = [mkIfc "gif0" true []].
Proof. split; vm_compute; reflexivity. Qed.

(** A rule for any destination is put back with a port named Anywhere. *)
Theorem ufw_anywhere_misrendered :
  rule_to_add_argv "Anywhere ALLOW IN 10.0.0.1" =
  ["ufw"; "allow"; "in"; "from"; "10.0.0.1"; "to"; "any"; "port"; "Anywhere"].
Proof. vm_compute. reflexivity. Qed.

End NetworkFacts.
