(* ===== verification/SqlFacts.v ===== *)
(** * What redaction hides

    An [INSERT] written with any column names and any literals comes out with
    the values of its sensitive columns replaced, everything else unchanged:
    what is journaled depends on a secret through its short hash only. *)

From S2P Require Import Prelude Base Env Redact.

Module RedactFacts.
Import Redact.

(** ** Scanning *)

Abbreviation ann q l := (annotate (length l) q l).
Abbreviation marked b l := ((λ c : Ascii.ascii, (c, b)) <$> l).

Lemma quote_step_rest q c rest q' consumed rest' :
  quote_step q c rest = Some (q', consumed, rest') →
  c :: rest = consumed ++ rest' ∧ length rest' ≤ length rest.
Proof.
  unfold quote_step. repeat case_match; intros; simplify_eq/=; split; try done; lia.
Qed.

Lemma annotate_fuel (fuel : nat) : ∀ q l, length l ≤ fuel → annotate fuel q l = ann q l.
Proof.
  assert (∀ n q l, length l ≤ n → ∀ fuel, length l ≤ fuel → annotate fuel q l = annotate n q l) as H.
  { intros n. induction n as [|n IH]; intros q [|c l] Hn [|f] Hf; simpl in *; try done; try lia.
    destruct (quote_step q c l) as [[[q' cons] rest']|] eqn:Hs.
    - apply quote_step_rest in Hs as [_ Hl]. rewrite (IH q' rest') by lia. done.
    - by rewrite (IH q l) by lia. }
  intros q l Hl. by apply H.
Qed.

Lemma ann_cons q c rest :
  ann q (c :: rest) =
  match quote_step q c rest with
  | Some (q', consumed, rest') => marked false consumed ++ ann q' rest'
  | None => (c, true) :: ann q rest
  end.
Proof.
  simpl. destruct (quote_step q c rest) as [[[q' cons] rest']|] eqn:Hs; [|done].
  apply quote_step_rest in Hs as [_ Hl]. by rewrite annotate_fuel.
Qed.

Definition nonquote (c : Ascii.ascii) : Prop := c ≠ quote ∧ c ≠ dquote.

Lemma quote_step_plain c rest : nonquote c → quote_step Plain c rest = None.
Proof. intros [H1 H2]. simpl. by rewrite !bool_decide_eq_false_2. Qed.

Lemma ann_plain (w rest : chars) :
  Forall nonquote w → ann Plain (w ++ rest) = marked true w ++ ann Plain rest.
Proof.
  induction 1 as [|c w Hc _ IH]; [done|]. change ((c :: w) ++ rest) with (c :: (w ++ rest)).
  rewrite ann_cons, quote_step_plain by done. rewrite fmap_cons. simpl. f_equal. exact IH.
Qed.

(** Literals. *)
Definition escape (s : chars) : chars :=
  concat ((λ c, if bool_decide (c = quote) then [quote; quote] else [c]) <$> s).
Definition literal (s : chars) : chars := [quote] ++ escape s ++ [quote].

Lemma escape_cons c s :
  escape (c :: s) = (if bool_decide (c = quote) then [quote; quote] else [c]) ++ escape s.
Proof. done. Qed.

Lemma ann_single (s rest : chars) :
  head rest ≠ Some quote →
  ann Single (escape s ++ quote :: rest) = marked false (escape s ++ [quote]) ++ ann Plain rest.
Proof.
  intros Hr. induction s as [|c s IH].
  - change (escape [] ++ quote :: rest) with (quote :: rest). rewrite ann_cons. simpl.
    destruct rest as [|c' rest]; [done|]. rewrite bool_decide_eq_false_2; [done|]. intros ->. by apply Hr.
  - rewrite escape_cons. case_bool_decide as Hc.
    + change (([quote; quote] ++ escape s) ++ quote :: rest) with (quote :: quote :: (escape s ++ quote :: rest)).
      rewrite ann_cons. cbn [quote_step]. rewrite !bool_decide_eq_true_2 by done. rewrite IH. done.
    + change (([c] ++ escape s) ++ quote :: rest) with (c :: (escape s ++ quote :: rest)).
      rewrite ann_cons. cbn [quote_step]. rewrite bool_decide_eq_false_2 by done. rewrite IH. done.
Qed.

Lemma ann_literal (s rest : chars) :
  head rest ≠ Some quote → ann Plain (literal s ++ rest) = marked false (literal s) ++ ann Plain rest.
Proof.
  intros Hr. unfold literal. rewrite <- !app_assoc. cbn [app]. rewrite ann_cons.
  cbn [quote_step]. rewrite bool_decide_eq_true_2 by done. rewrite ann_single by done. done.
Qed.

(** ** Values *)

(** What a statement puts in a column: a literal, or a word such as a number
    or [NULL]. *)
Inductive Value := VLit (s : chars) | VRaw (w : chars).

Definition word (w : chars) : Prop := w ≠ [] ∧ Forall (λ c, is_ident c = true) w.
Definition wf_value (v : Value) : Prop := match v with VLit _ => True | VRaw w => word w end.

Definition render (v : Value) : chars := match v with VLit s => literal s | VRaw w => w end.
Definition mark (v : Value) : list (Ascii.ascii * bool) :=
  match v with VLit s => marked false (literal s) | VRaw w => marked true w end.

(** [v1, ..., vn]. *)
Definition render_row (vs : list Value) : chars := join (str ", ") (render <$> vs).
Fixpoint mark_row (vs : list Value) : list (Ascii.ascii * bool) :=
  match vs with
  | [] => []
  | [v] => mark v
  | v :: vs' => mark v ++ marked true (str ", ") ++ mark_row vs'
  end.

Lemma ident_plain c : is_ident c = true → nonquote c ∧ c ≠ "("%char ∧ c ≠ ")"%char ∧ c ≠ ","%char.
Proof.
  intros Hc. unfold nonquote.
  assert (∀ c', is_ident c' = false → c ≠ c') as Hne by (intros c' H ->; congruence).
  split_and!; apply Hne; reflexivity.
Qed.

Lemma word_nonquote w : Forall (λ c, is_ident c = true) w → Forall nonquote w.
Proof. intros Hw. eapply Forall_impl; [exact Hw|]. intros c Hc. by apply ident_plain. Qed.

Lemma ann_value v rest :
  wf_value v → head rest ≠ Some quote → ann Plain (render v ++ rest) = mark v ++ ann Plain rest.
Proof.
  destruct v as [s|w]; simpl; [intros _; apply ann_literal|]. intros [_ Hw] _. by apply ann_plain, word_nonquote.
Qed.

Lemma ann_row vs rest :
  Forall wf_value vs → head rest ≠ Some quote → ann Plain (render_row vs ++ rest) = mark_row vs ++ ann Plain rest.
Proof.
  intros Hw Hr. induction Hw as [|v vs Hv Hw IH]; [done|]. unfold render_row in *. rewrite fmap_cons.
  destruct vs as [|v' vs].
  - by apply ann_value.
  - cbn [join mark_row fmap list_fmap] in *. rewrite <- !app_assoc. rewrite ann_value by done. f_equal.
    rewrite ann_plain by (repeat constructor; discriminate). f_equal. by rewrite IH.
Qed.


(** ** Groups *)

(** Nothing in a row closes or opens a parenthesis or separates items. *)
Definition inert (p : Ascii.ascii * bool) : Prop :=
  p.2 = true → p.1 ≠ "("%char ∧ p.1 ≠ ")"%char.

Lemma mark_inert v : wf_value v → Forall inert (mark v).
Proof.
  destruct v as [s|w]; cbn [mark wf_value].
  - intros _. by apply Forall_fmap, Forall_true.
  - intros [_ Hw]. apply Forall_fmap. eapply Forall_impl; [exact Hw|]. intros c Hc _. apply ident_plain in Hc. naive_solver.
Qed.

Lemma mark_row_inert vs : Forall wf_value vs → Forall inert (mark_row vs).
Proof.
  induction 1 as [|v vs Hv Hw IH]; [constructor|]. cbn [mark_row]. destruct vs as [|v' vs]; [by apply mark_inert|].
  apply Forall_app. split; [by apply mark_inert|]. apply Forall_app. split; [|done].
  repeat constructor; discriminate.
Qed.

Lemma close_at_inert depth (A B : list (Ascii.ascii * bool)) :
  Forall inert A → close_at depth (A ++ B) = Nat.add (length A) <$> close_at depth B.
Proof.
  intros HA. induction HA as [|[c p] A Hc _ IH]; [simpl; by destruct (close_at depth B)|].
  cbn [app close_at length]. rewrite IH. destruct p; cbn [negb].
  - destruct Hc as [H1 H2]; [done|]. simpl in *. rewrite !bool_decide_eq_false_2 by done.
    by destruct (close_at depth B).
  - by destruct (close_at depth B).
Qed.

Lemma mark_row_length vs : length (mark_row vs) = length (render_row vs).
Proof.
  unfold render_row. induction vs as [|v vs IH]; [done|]. cbn [mark_row join fmap list_fmap].
  assert (length (mark v) = length (render v)) as Hv by (destruct v; simpl; by rewrite ?length_fmap).
  destruct vs as [|v' vs]; [done|]. rewrite !length_app. cbn [fmap list_fmap] in *. rewrite IH. rewrite !length_app, Hv, length_fmap. lia.
Qed.

Lemma match_paren_row vs rest :
  Forall wf_value vs →
  match_paren ("("%char :: render_row vs ++ ")"%char :: rest) = Some (render_row vs, rest).
Proof.
  intros Hw. unfold match_paren, annotated. rewrite ann_cons, quote_step_plain by by split.
  rewrite ann_row by done. cbn [close_at negb]. rewrite bool_decide_eq_true_2 by done.
  rewrite close_at_inert by by apply mark_row_inert. rewrite ann_cons, quote_step_plain by by split.
  cbn [close_at negb]. rewrite bool_decide_eq_false_2, bool_decide_eq_true_2, bool_decide_eq_true_2 by done.
  cbn [fmap option_fmap option_map tail]. rewrite mark_row_length. f_equal. f_equal.
  - replace (S (length (render_row vs) + 0) - 1) with (length (render_row vs)) by lia. by rewrite take_app_length.
  - cbn [drop]. rewrite cons_middle, app_assoc, drop_app_length'; [done|]. rewrite length_app. simpl. lia.
Qed.

(** ** Items *)

Lemma trim_ends (l : chars) c1 c2 :
  head l = Some c1 → last_char l = Some c2 → Ascii.is_space c1 = false → Ascii.is_space c2 = false → trim l = l.
Proof.
  intros H1 H2 Hs1 Hs2. unfold trim, trim_start, last_char in *. destruct l as [|x l]; [done|].
  injection H1 as ->. cbn [drop_while]. rewrite Hs1. destruct (reverse (c1 :: l)) as [|y r] eqn:Hr; [done|].
  injection H2 as ->. cbn [drop_while]. rewrite Hs2, <- Hr. apply reverse_involutive.
Qed.

Lemma ident_not_space c : is_ident c = true → Ascii.is_space c = false.
Proof. destruct c as [[] [] [] [] [] [] [] []]; vm_compute; congruence. Qed.

Lemma last_char_snoc l c : last_char (l ++ [c]) = Some c.
Proof. unfold last_char. by rewrite reverse_snoc. Qed.

Lemma trim_value v : wf_value v → trim (render v) = render v ∧ render v ≠ [].
Proof.
  destruct v as [s|w]; simpl.
  - intros _. split; [|done]. apply (trim_ends _ quote quote); try done.
    unfold literal. rewrite app_assoc. apply last_char_snoc.
  - intros [Hne Hw]. split; [|done]. destruct (exists_last Hne) as (w' & c2 & ->). destruct (w' ++ [c2]) as [|c1 l] eqn:Hl; [done|].
    apply (trim_ends _ c1 c2); try done.
    + rewrite <- Hl. apply last_char_snoc.
    + apply ident_not_space. by inversion Hw.
    + apply ident_not_space. rewrite <- Hl in Hw. apply Forall_app in Hw as [_ Hw]. by inversion Hw.
Qed.

Lemma marked_fst (b : bool) (l : chars) : (marked b l).*1 = l.
Proof. rewrite <- list_fmap_compose. apply list_fmap_id. Qed.

(** The characters of a value join the buffer. *)
Lemma split_value v B buf out :
  wf_value v → split_commas (mark v ++ B) 0 buf out = split_commas B 0 (buf ++ render v) out.
Proof.
  intros Hv. assert (∀ A B buf, Forall (λ p : Ascii.ascii * bool, p.2 = true → is_ident p.1 = true) A →
    split_commas (A ++ B) 0 buf out = split_commas B 0 (buf ++ A.*1) out) as Hgo.
  { intros A. induction A as [|[c p] A IH]; intros B' buf' HA; [by rewrite app_nil_r|].
    inversion HA as [|? ? Hc HA']; subst. cbn [app split_commas]. destruct p; cbn [negb].
    - destruct (ident_plain c) as (_ & H1 & H2 & H3); [by apply Hc|].
      rewrite !(bool_decide_eq_false_2 (c = _)) by done. simpl. rewrite IH by done. by rewrite <- app_assoc.
    - rewrite IH by done. by rewrite <- app_assoc. }
  rewrite Hgo.
  - f_equal. f_equal. destruct v; apply marked_fst.
  - destruct v as [s|w]; apply Forall_fmap; [by apply Forall_true|]. destruct Hv as [_ Hw].
    eapply Forall_impl; [exact Hw|]. by intros c Hc _.
Qed.

Lemma flush_value buf v out :
  wf_value v → buf = [] ∨ buf = [" "%char] → flush_item out (buf ++ render v) = out ++ [render v].
Proof.
  intros Hv Hb. destruct (trim_value v Hv) as [Ht Hne]. unfold flush_item.
  assert (trim (buf ++ render v) = render v) as -> by (destruct Hb as [-> | ->]; [done|exact Ht]).
  by rewrite bool_decide_eq_false_2.
Qed.

Lemma split_row vs out buf :
  Forall wf_value vs → vs ≠ [] → buf = [] ∨ buf = [" "%char] →
  split_commas (mark_row vs) 0 buf out = out ++ (render <$> vs).
Proof.
  intros Hw. revert out buf. induction Hw as [|v vs Hv Hw IH]; intros out buf Hne Hb; [done|].
  cbn [mark_row]. destruct vs as [|v' vs].
  - rewrite <- (app_nil_r (mark v)), split_value by done. cbn [split_commas]. by apply flush_value.
  - rewrite split_value by done. cbn [fmap list_fmap str String.list_ascii_of_string app split_commas negb].
    rewrite !bool_decide_eq_false_2, bool_decide_eq_true_2, bool_decide_eq_true_2 by done. cbn [andb].
    rewrite flush_value by done. rewrite !bool_decide_eq_false_2 by done. cbn [andb app].
    rewrite IH by (done || by right). by rewrite <- app_assoc.
Qed.

Lemma split_rendered vs :
  Forall wf_value vs → vs ≠ [] → split_top_level_commas (render_row vs) = render <$> vs.
Proof.
  intros Hw Hne. unfold split_top_level_commas, annotated. rewrite <- (app_nil_r (render_row vs)).
  rewrite ann_row by done. simpl. rewrite app_nil_r. apply split_row; [done|done|by left].
Qed.

(** ** Values of sensitive columns *)

Lemma undouble_escape (s : chars) : undouble (escape s) = s.
Proof.
  induction s as [|c s IH]; [done|]. rewrite escape_cons. case_bool_decide as Hc.
  - subst c. cbn [app undouble]. rewrite !bool_decide_eq_true_2 by done. cbn [andb]. by rewrite IH.
  - cbn [app undouble]. destruct (escape s) as [|c' l] eqn:He.
    + destruct s as [|x s]; [done|]. rewrite escape_cons in He. by case_bool_decide.
    + rewrite bool_decide_eq_false_2 by done. cbn [andb]. by rewrite IH.
Qed.

Lemma strip_literal (s : chars) : strip_single_quotes (literal s) = Some s.
Proof.
  unfold strip_single_quotes. assert (wrapped quote quote (literal s) = true) as ->.
  { unfold wrapped, literal. rewrite (app_assoc [quote]), last_char_snoc. rewrite !length_app. simpl.
    rewrite !bool_decide_eq_true_2 by (done || lia). done. }
  f_equal. unfold inner, literal. cbn [app tail length]. rewrite length_app. cbn [length].
  replace (S (length (escape s) + 1) - 2) with (length (escape s)) by lia.
  rewrite take_app_length. apply undouble_escape.
Qed.

Lemma unwrapped_word a b w : word w → is_ident a = false → wrapped a b w = false.
Proof.
  intros [Hne Hw] Ha. unfold wrapped. destruct w as [|c w]; [done|]. inversion Hw as [|? ? Hc _]; subst.
  rewrite (bool_decide_eq_false_2 (head _ = _)); [by rewrite andb_false_r|]. intros [= ->]. congruence.
Qed.

Section Insert.
Context (blake3 : string → list N).

(** What is journaled for a value of a sensitive column. *)
Definition hidden (v : Value) : chars :=
  match v with
  | VLit s => if is_redacted_marker s then literal s else [quote] ++ redact_value blake3 s ++ [quote]
  | VRaw w => w
  end.

Lemma redact_rendered v : wf_value v → redact_value_literal blake3 (render v) = hidden v.
Proof.
  intros Hv. unfold redact_value_literal. destruct (trim_value v Hv) as [-> _]. destruct v as [s|w]; cbn [render hidden].
  - by rewrite strip_literal.
  - unfold strip_single_quotes, strip_double_quotes. by rewrite !unwrapped_word.
Qed.

(** A row under its columns. *)
Definition hide_row (cols : list chars) (vs : list Value) : list chars :=
  zip_with (λ col v, if is_sensitive_column col then hidden v else render v) cols vs.

Lemma rewrite_rendered cols vs :
  Forall wf_value vs → rewrite_values blake3 cols (render <$> vs) = hide_row cols vs.
Proof.
  unfold rewrite_values, hide_row. intros Hw. revert cols. induction Hw as [|v vs Hv _ IH]; intros [|c cols]; try done.
  rewrite fmap_cons. cbn [zip_with]. rewrite IH. f_equal. destruct (is_sensitive_column c); [by apply redact_rendered|done].
Qed.

(** ** The tuples *)

Definition parens (l : chars) : chars := ["("%char] ++ l ++ [")"%char].

Definition tuples (rows : list (list Value)) : chars := join (str ", ") ((λ vs, parens (render_row vs)) <$> rows).
Definition hidden_tuples (cols : list chars) (rows : list (list Value)) : chars :=
  join (str ", ") ((λ vs, parens (join (str ", ") (hide_row cols vs))) <$> rows).

Lemma groups_plain fuel cols (w rest : chars) :
  Forall (λ c, c ≠ quote ∧ c ≠ "("%char) w → length w ≤ fuel →
  value_groups blake3 fuel cols (w ++ rest) = w ++ value_groups blake3 (fuel - length w) cols rest.
Proof.
  intros Hw. revert fuel. induction Hw as [|c w [H1 H2] _ IH]; intros fuel Hf; [simpl; by rewrite Nat.sub_0_r|].
  destruct fuel as [|fuel]; simpl in *; [lia|]. rewrite !bool_decide_eq_false_2 by done. rewrite IH by lia. done.
Qed.

Lemma groups_row fuel cols vs (rest : chars) :
  Forall wf_value vs → vs ≠ [] → length vs = length cols →
  value_groups blake3 (S fuel) cols (parens (render_row vs) ++ rest)
  = parens (join (str ", ") (hide_row cols vs)) ++ value_groups blake3 fuel cols rest.
Proof.
  intros Hw Hne Hl. unfold parens at 1. rewrite <- !app_assoc. cbn [app value_groups].
  rewrite bool_decide_eq_false_2, bool_decide_eq_true_2 by done. rewrite match_paren_row by done.
  rewrite split_rendered by done. rewrite length_fmap, bool_decide_eq_true_2 by done.
  rewrite rewrite_rendered by done. unfold parens. rewrite <- !app_assoc. cbn [app]. by rewrite <- app_assoc.
Qed.

Lemma outside_groups (w : chars) :
  forallb (λ c, negb (bool_decide (c = quote)) && negb (bool_decide (c = "("%char))) w = true →
  Forall (λ c, c ≠ quote ∧ c ≠ "("%char) w.
Proof.
  induction w as [|c w IH]; [by constructor|]. simpl. rewrite !andb_true_iff, !negb_true_iff, !bool_decide_eq_false.
  intros [[? ?] ?]. constructor; [done|by apply IH].
Qed.

Definition wf_rows (cols : list chars) (rows : list (list Value)) : Prop :=
  Forall (λ vs, Forall wf_value vs ∧ length vs = length cols) rows.

Lemma groups_tuples fuel cols rows :
  cols ≠ [] → wf_rows cols rows → length (tuples rows) ≤ fuel →
  value_groups blake3 fuel cols (tuples rows) = hidden_tuples cols rows.
Proof.
  intros Hc Hw. revert fuel. induction Hw as [|vs rows [Hv Hl] Hw IH]; intros fuel Hf; [by destruct fuel|].
  assert (vs ≠ []) as Hne by (intros ->; by destruct cols).
  unfold tuples, hidden_tuples in *. rewrite !fmap_cons in *. destruct rows as [|vs' rows].
  - cbn [join fmap list_fmap] in *. destruct fuel as [|fuel]; [simpl in Hf; lia|].
    rewrite <- (app_nil_r (parens (render_row vs))), groups_row by done. destruct fuel; by rewrite app_nil_r.
  - cbn [join fmap list_fmap] in *. destruct fuel as [|fuel]; [simpl in Hf; lia|].
    rewrite groups_row by done. f_equal. rewrite !length_app in Hf. simpl in Hf.
    rewrite groups_plain by ((by apply outside_groups) || (simpl; lia)). f_equal. apply IH. simpl. lia.
Qed.

Lemma span_to_app (a b : chars) : span_to (a ++ b) b = a.
Proof.
  unfold span_to. rewrite length_app. replace (length a + length b - length b) with (length a) by lia.
  apply take_app_length.
Qed.

(** ** The statement *)

Definition insert_head (table : chars) (cols : list chars) : chars :=
  str "INSERT INTO " ++ table ++ str " " ++ parens (join (str ", ") cols) ++ str " VALUES ".

Definition insert_stmt (table : chars) (cols : list chars) (rows : list (list Value)) : chars :=
  insert_head table cols ++ tuples rows.
Definition insert_hidden (table : chars) (cols : list chars) (rows : list (list Value)) : chars :=
  insert_head table cols ++ hidden_tuples cols rows.

Lemma find_plain_word (w : chars) (A : list (Ascii.ascii * bool)) c :
  Forall (λ x, x ≠ c) w → find_plain c (marked true w ++ (c, true) :: A) = Some (length w).
Proof.
  induction 1 as [|x w Hx _ IH]; [cbn; by rewrite bool_decide_eq_true_2|]. rewrite fmap_cons. cbn [app find_plain andb].
  rewrite bool_decide_eq_false_2 by done. by rewrite IH.
Qed.

Lemma hide_row_plain cols vs :
  length vs = length cols → existsb is_sensitive_column cols = false → hide_row cols vs = render <$> vs.
Proof.
  unfold hide_row. revert vs. induction cols as [|c cols IH]; intros [|v vs] Hl Hs; try done.
  simpl in *. apply orb_false_iff in Hs as [-> Hs]. f_equal. apply IH; [lia|done].
Qed.

Lemma redact_insert_stmt table cols rows :
  word table → cols ≠ [] → Forall word cols → wf_rows cols rows →
  redact_insert blake3 (insert_stmt table cols rows) = insert_hidden table cols rows.
Proof.
  intros [_ Ht] Hc Hcols Hw. unfold redact_insert. cbn [negb].
  assert (cols = render <$> (VRaw <$> cols)) as Hr by by rewrite <- list_fmap_compose, list_fmap_id.
  assert (Forall wf_value (VRaw <$> cols)) as Hwc by by apply Forall_fmap.
  set (rest := str " VALUES " ++ tuples rows).
  assert (insert_stmt table cols rows = (str "INSERT INTO " ++ table ++ str " ")
    ++ "("%char :: render_row (VRaw <$> cols) ++ ")"%char :: rest) as Hstmt.
  { unfold insert_stmt, insert_head, parens, rest, render_row. rewrite <- Hr. by rewrite <- !app_assoc. }
  assert (starts_with_keyword (trim_start (insert_stmt table cols rows)) (str "INSERT") = true) as -> by done.
  cbn [negb]. assert (find_unquoted (insert_stmt table cols rows) "(" = Some (length (str "INSERT INTO " ++ table ++ str " "))) as ->.
  { unfold find_unquoted, annotated. rewrite Hstmt, ann_plain.
    - rewrite ann_cons, quote_step_plain by done. apply find_plain_word.
      apply Forall_app. split; [repeat constructor; discriminate|]. apply Forall_app. split; [|repeat constructor; discriminate].
      eapply Forall_impl; [exact Ht|]. intros c Hc'. apply ident_plain in Hc'. naive_solver.
    - apply Forall_app. split; [repeat constructor; discriminate|]. apply Forall_app.
      split; [by apply word_nonquote|repeat constructor; discriminate]. }
  rewrite Hstmt, drop_app_length, match_paren_row by done.
  rewrite split_rendered by (done || by destruct cols). rewrite <- Hr.
  destruct (existsb is_sensitive_column cols) eqn:Hs.
  - assert (value_groups blake3 (length rest) cols rest = str " VALUES " ++ hidden_tuples cols rows) as ->.
    { unfold rest. rewrite groups_plain by ((by apply outside_groups) || (simpl; lia)).
      f_equal. apply groups_tuples; [done|done|]. simpl. lia. }
    rewrite <- Hstmt. assert (insert_stmt table cols rows
      = (str "INSERT INTO " ++ table ++ str " " ++ parens (join (str ", ") cols)) ++ rest) as ->
      by (unfold insert_stmt, insert_head, rest; by rewrite <- !app_assoc).
    rewrite span_to_app. unfold insert_hidden, insert_head. by rewrite <- !app_assoc.
  - rewrite <- Hstmt. unfold insert_stmt, insert_hidden. f_equal. unfold tuples, hidden_tuples. f_equal.
    apply list_fmap_ext. intros k vs Hk. unfold render_row. f_equal. f_equal.
    symmetry. apply hide_row_plain; [|done]. eapply Forall_lookup_1 in Hw; [|exact Hk]. by apply Hw.
Qed.

End Insert.

(** ** The keyword pass leaves it alone *)

(** Whether a literal stands right behind a word; [pend] is whether the last
    character outside quotes, white space apart, belongs to a word. *)
Fixpoint bare (pend : bool) (A : list (Ascii.ascii * bool)) : bool :=
  match A with
  | [] => false
  | (c, true) :: A' => bare (is_ident c || (is_ws c && pend)) A'
  | (c, false) :: A' => (bool_decide (c = quote) && pend) || bare false A'
  end.

Lemma bare_mono A : bare true A = false → bare false A = false.
Proof.
  induction A as [|[c []] A IH]; [done| |]; simpl.
  - rewrite andb_true_r, andb_false_r, orb_false_r. destruct (is_ident c); [done|]. simpl.
    destruct (is_ws c); [apply IH|done].
  - rewrite andb_true_r, andb_false_r. intros [_ H]%orb_false_iff. by rewrite H.
Qed.

Lemma bare_any pend A : bare pend A = false → bare false A = false.
Proof. destruct pend; [apply bare_mono|done]. Qed.

Lemma bare_quoted (l : chars) A : bare false (marked false l ++ A) = bare false A.
Proof. induction l as [|c l IH]; [done|]. rewrite fmap_cons. cbn [app bare]. by rewrite andb_false_r, IH. Qed.

(** The state after text outside quotes. *)
Definition pend_after (pend : bool) (w : chars) : bool := foldl (λ p c, is_ident c || (is_ws c && p)) pend w.

Lemma bare_plain pend (w : chars) A : bare pend (marked true w ++ A) = bare (pend_after pend w) A.
Proof. revert pend. induction w as [|c w IH]; intros pend; [done|]. rewrite fmap_cons. cbn [app bare]. by rewrite IH. Qed.

Lemma drop_while_split f (l : chars) :
  ∃ p, l = p ++ drop_while f l ∧ Forall (λ c, f c = true) p.
Proof.
  induction l as [|c l (p & Hl & Hp)]; [by exists []|]. simpl. destruct (f c) eqn:Hc; [|by exists []].
  exists (c :: p). split; [by rewrite Hl at 1|by constructor].
Qed.

Lemma take_drop_while f (l : chars) : l = take_while f l ++ drop_while f l.
Proof. induction l as [|c l IH]; [done|]. simpl. destruct (f c); [|done]. simpl. by rewrite <- IH. Qed.

Lemma take_while_all f (l : chars) : Forall (λ c, f c = true) (take_while f l).
Proof. induction l as [|c l IH]; [constructor|]. simpl. destruct (f c) eqn:Hc; constructor; done. Qed.

Lemma ws_nonquote c : is_ws c = true → nonquote c.
Proof. intros Hc. split; intros ->; by vm_compute in Hc. Qed.

(** A stretch outside quotes that ends with a word. *)
Definition worded (p : chars) : Prop := Forall nonquote p ∧ ∃ p' c, p = p' ++ [c] ∧ is_ident c = true.

Lemma worded_app (p p' : chars) : Forall nonquote p → worded p' → worded (p ++ p').
Proof.
  intros Hp [Hp' (q & c & -> & Hc)]. split; [by apply Forall_app|]. exists (p ++ q), c. by rewrite app_assoc.
Qed.

Lemma read_word_worded c (l w after : chars) :
  is_alphabetic c = true → read_word (c :: l) = (w, after) → c :: l = w ++ after ∧ worded w.
Proof.
  unfold read_word. intros Hc H. apply (inj2 pair) in H as [<- <-].
  split; [apply take_drop_while|]. split; [apply word_nonquote, take_while_all|].
  assert (is_ident c = true) as Hi by (unfold is_ident; by rewrite Hc).
  pose proof (take_while_all is_ident (c :: l)) as Hall. simpl in *. rewrite Hi in *.
  destruct (@exists_last _ (c :: take_while is_ident l)) as (p & x & Heq); [done|]. exists p, x. split; [done|].
  rewrite Heq in Hall. apply Forall_app in Hall as [_ Hall]. by inversion Hall.
Qed.

Lemma find_needed_worded fuel needed gap (probe after : chars) :
  find_needed fuel needed gap probe = Some after → ∃ p, probe = p ++ after ∧ worded p.
Proof.
  revert gap probe. induction fuel as [|fuel IH]; intros gap [|c l]; try done. cbn [find_needed].
  case_bool_decide; [done|]. destruct (bool_decide (c = quote) || bool_decide (c = dquote)) eqn:Hq; [done|].
  apply orb_false_iff in Hq as [H1%bool_decide_eq_false H2%bool_decide_eq_false].
  destruct (is_alphabetic c) eqn:Hc; cbn [negb].
  - destruct (read_word (c :: l)) as [w rest] eqn:Hw. apply read_word_worded in Hw as [-> Hww]; [|done].
    case_bool_decide; [intros [= <-]; by exists w|]. intros (p & Hp & Hpw)%IH.
    destruct (drop_while_split is_ws rest) as (s & Hs & Hsw). unfold skip_ws in Hp. rewrite Hp in Hs.
    exists (w ++ s ++ p). split; [by rewrite Hs, <- !app_assoc|]. apply worded_app; [apply Hww|].
    apply worded_app; [|done]. eapply Forall_impl; [exact Hsw|apply ws_nonquote].
  - intros (p & Hp & Hpw)%IH. destruct (drop_while_split is_ws l) as (s & Hs & Hsw).
    unfold skip_ws in Hp. rewrite Hp in Hs. exists (c :: s ++ p). split; [rewrite Hs; simpl; by rewrite <- app_assoc|].
    apply (worded_app (c :: s)); [|done]. constructor; [done|]. eapply Forall_impl; [exact Hsw|apply ws_nonquote].
Qed.

Lemma follow_phrase_worded words (p cursor cursor' : chars) :
  worded p → follow_phrase words cursor = Some cursor' → ∃ p', p ++ cursor = p' ++ cursor' ∧ worded p'.
Proof.
  revert p cursor. induction words as [|w words IH]; intros p cursor Hp; simpl; [intros [= <-]; by exists p|].
  destruct (find_needed _ _ _ _) as [after|] eqn:Hf; [|done]. apply find_needed_worded in Hf as (p1 & Hp1 & Hw1).
  destruct (drop_while_split is_ws cursor) as (s & Hs & Hsw). unfold skip_ws in Hp1. rewrite Hp1 in Hs.
  intros H. destruct (IH (p ++ s ++ p1) after) as (p' & Hp' & Hw'); [|done|].
  - apply worded_app; [apply Hp|]. apply worded_app; [|done]. eapply Forall_impl; [exact Hsw|apply ws_nonquote].
  - exists p'. split; [|done]. rewrite <- Hp', Hs, <- !app_assoc. done.
Qed.

Lemma pend_worded pend (p : chars) : worded p → pend_after pend p = true.
Proof. intros [_ (q & c & -> & Hc)]. unfold pend_after. rewrite foldl_app. simpl. by rewrite Hc. Qed.

Lemma bare_ws (l : chars) : bare true (ann Plain l) = false → head (skip_ws l) ≠ Some quote.
Proof.
  destruct (drop_while_split is_ws l) as (s & Hs & Hsw). fold (skip_ws l) in Hs.
  assert (ann Plain l = ann Plain (s ++ skip_ws l)) as -> by by rewrite <- Hs.
  rewrite ann_plain by (eapply Forall_impl; [exact Hsw|apply ws_nonquote]). rewrite bare_plain.
  assert (pend_after true s = true) as ->.
  { clear Hs. induction Hsw as [|c s Hc _ IH]; [done|]. simpl. rewrite Hc. simpl. by rewrite orb_true_r. }
  destruct (skip_ws l) as [|c l']; [done|]. intros Hb [= ->]. rewrite ann_cons in Hb. simpl in Hb. done.
Qed.

Lemma keyword_pass_id blake3 fuel q (l : chars) pend :
  length l ≤ fuel → bare pend (ann q l) = false → keyword_pass blake3 fuel q l = l.
Proof.
  intros Hf Hb%bare_any. revert q l Hf Hb. induction fuel as [|fuel IH]; intros q [|c l] Hf Hb; try done; [simpl in Hf; lia|].
  cbn [keyword_pass]. rewrite ann_cons in Hb. destruct (quote_step q c l) as [[[q' cons] rest]|] eqn:Hs.
  - apply quote_step_rest in Hs as [-> Hl]. simpl in Hf. rewrite bare_quoted in Hb. by rewrite IH by (done || lia).
  - assert (q = Plain) as -> by (unfold quote_step in Hs; destruct q; repeat case_match; done).
    destruct (is_alphabetic c) eqn:Hc.
    + destruct (read_word (c :: l)) as [w after] eqn:Hw. apply read_word_worded in Hw as [Hl Hww]; [|done].
      assert (bare false (ann Plain (c :: l)) = false) as Hall by by rewrite ann_cons, Hs.
      assert (∀ p rest, c :: l = p ++ rest → worded p → bare true (ann Plain rest) = false) as Hrest.
      { intros p rest Hp Hpw. rewrite Hp, ann_plain, bare_plain, pend_worded in Hall by (done || apply Hpw). done. }
      assert (∀ p rest, c :: l = p ++ rest → worded p → keyword_pass blake3 fuel Plain rest = rest) as Hgo.
      { intros p rest Hp Hpw. apply IH; [|by apply bare_mono, (Hrest p)]. destruct Hpw as [_ (p' & x & -> & _)].
        apply (f_equal length) in Hp. rewrite !length_app in Hp. simpl in *. lia. }
      destruct (matched_phrase w ≫= _) as [cursor|] eqn:Hm; [|rewrite (Hgo w after) by done; done].
      destruct (matched_phrase w) as [ph|]; [|done]. simpl in Hm.
      destruct (follow_phrase_worded _ w after cursor Hww Hm) as (p & Hp & Hpw). rewrite <- Hl in Hp.
      rewrite bool_decide_eq_false_2 by (apply bare_ws; by apply (Hrest p)).
      rewrite (Hgo p cursor) by done. rewrite Hp, span_to_app. done.
    + f_equal. apply IH; [simpl in Hf; lia|]. simpl in Hb. by apply bare_any in Hb.
Qed.

(** ** An [INSERT] through all passes *)

Lemma bare_value v A :
  wf_value v → bare false A = false → bare true A = false → bare false (mark v ++ A) = false.
Proof.
  destruct v as [s|w]; cbn [mark]; intros _ H0 H1; [by rewrite bare_quoted|].
  rewrite bare_plain. by destruct (pend_after false w).
Qed.

Lemma bare_row vs A :
  Forall wf_value vs → bare false A = false → bare true A = false → bare false (mark_row vs ++ A) = false.
Proof.
  intros Hw H0 H1. induction Hw as [|v vs Hv Hw IH]; [done|]. cbn [mark_row]. destruct vs as [|v' vs]; [by apply bare_value|].
  rewrite <- !app_assoc. apply bare_value; [done|..]; rewrite bare_plain; exact IH.
Qed.

Lemma ann_tuples_bare cols rows pend :
  wf_rows cols rows → bare pend (ann Plain (tuples rows)) = false.
Proof.
  unfold tuples. intros Hw. revert pend. induction Hw as [|vs rows [Hv _] Hw IH]; intros pend; [done|].
  rewrite fmap_cons. assert (∀ rest, (∀ pend, bare pend (ann Plain rest) = false) →
    ∀ pend, bare pend (ann Plain (parens (render_row vs) ++ rest)) = false) as Hgo.
  { intros rest Hr pend'. unfold parens. rewrite <- !app_assoc. cbn [app].
    rewrite ann_cons, quote_step_plain by done. rewrite ann_row by done. rewrite ann_cons, quote_step_plain by done.
    cbn [bare]. change (is_ident "(" || is_ws "(" && pend') with false. apply bare_row; [done|..]; apply Hr. }
  destruct rows as [|vs' rows].
  - cbn [join fmap list_fmap]. rewrite <- (app_nil_r (parens _)). by apply Hgo.
  - cbn [join fmap list_fmap] in *. apply Hgo. intros pend'. rewrite ann_plain by (repeat constructor; discriminate).
    rewrite bare_plain. apply IH.
Qed.

Lemma join_nonquote (cols : list chars) : Forall word cols → Forall nonquote (join (str ", ") cols).
Proof.
  induction 1 as [|c cols [_ Hc] Hw IH]; [constructor|]. cbn [join]. destruct cols; [by apply word_nonquote|].
  apply Forall_app. split; [by apply word_nonquote|]. apply Forall_app. split; [repeat constructor; discriminate|done].
Qed.

Lemma head_nonquote table cols : word table → Forall word cols → Forall nonquote (insert_head table cols).
Proof.
  intros [_ Ht] Hc. unfold insert_head, parens. repeat apply Forall_app_2.
  all: try (by apply word_nonquote); try (by apply join_nonquote); repeat constructor; discriminate.
Qed.

(** Rows that agree outside the sensitive columns, and in those hold literals
    with the same marker. *)
Definition alike (blake3 : string → list N) (col : chars) (v v' : Value) : Prop :=
  if is_sensitive_column col then
    ∃ s s', v = VLit s ∧ v' = VLit s' ∧ is_redacted_marker s = false ∧ is_redacted_marker s' = false
      ∧ redact_value blake3 s = redact_value blake3 s'
  else v = v'.

Section Statement.
Context (blake3 : string → list N).

Lemma redact_statement_insert table cols rows :
  word table → cols ≠ [] → Forall word cols → wf_rows cols rows →
  redact_statement blake3 (unstr (insert_stmt table cols rows)) = unstr (insert_hidden blake3 table cols rows).
Proof.
  intros Ht Hc Hcols Hw. unfold redact_statement. f_equal. unfold str at 1, unstr.
  rewrite String.list_ascii_of_string_of_list_ascii. unfold redact_keyword_then_literal.
  rewrite (keyword_pass_id _ _ _ _ false); [|done|].
  - rewrite redact_insert_stmt by done. unfold redact_update.
    by assert (starts_with_keyword (trim_start (insert_hidden blake3 table cols rows)) (str "UPDATE") = false) as -> by done.
  - unfold insert_stmt. rewrite ann_plain by by apply head_nonquote. rewrite bare_plain. by eapply ann_tuples_bare.
Qed.

Lemma hide_row_alike cols vs vs' :
  length vs = length cols → length vs' = length cols →
  (∀ i col v v', cols !! i = Some col → vs !! i = Some v → vs' !! i = Some v' → alike blake3 col v v') →
  hide_row blake3 cols vs = hide_row blake3 cols vs'.
Proof.
  unfold hide_row. revert vs vs'. induction cols as [|c cols IH]; intros [|v vs] [|v' vs'] Hl Hl' Ha; try done.
  cbn [zip_with]. f_equal; [|apply IH; simpl in *; [lia|lia|intros i; apply (Ha (S i))]].
  pose proof (Ha 0 c v v' eq_refl eq_refl eq_refl) as H. unfold alike in H.
  destruct (is_sensitive_column c); [|by rewrite H]. destruct H as (s & s' & -> & -> & H1 & H2 & H3).
  cbn [hidden]. by rewrite H1, H2, H3.
Qed.

(** Redaction of an [INSERT]. For any table, any columns and any rows of
    values (literals with any text, quotes doubled, or plain words), what
    leaves the wrapper is the statement with every literal of a sensitive
    column replaced by its marker and everything else as it was. Two
    statements that differ only in those literals are journaled alike when
    their markers agree: nothing of a secret but its short hash gets out. *)
Theorem insert_secrets_hidden table cols rows :
  word table → cols ≠ [] → Forall word cols → wf_rows cols rows →
  redact_statement blake3 (unstr (insert_stmt table cols rows)) = unstr (insert_hidden blake3 table cols rows)
  ∧ ∀ rows', wf_rows cols rows' → length rows' = length rows →
      (∀ k i vs vs' col v v', rows !! k = Some vs → rows' !! k = Some vs' → cols !! i = Some col →
         vs !! i = Some v → vs' !! i = Some v' → alike blake3 col v v') →
      redact_statement blake3 (unstr (insert_stmt table cols rows))
      = redact_statement blake3 (unstr (insert_stmt table cols rows')).
Proof.
  intros Ht Hc Hcols Hw. split; [by apply redact_statement_insert|]. intros rows' Hw' Hl Ha.
  rewrite !redact_statement_insert by done. f_equal. unfold insert_hidden, hidden_tuples. f_equal. f_equal.
  apply list_eq_Forall2, Forall2_fmap, Forall2_same_length_lookup. split; [done|]. intros k vs vs' Hk Hk'.
  f_equal. f_equal. pose proof (Forall_lookup_1 _ _ _ _ Hw Hk) as [_ H1].
  pose proof (Forall_lookup_1 _ _ _ _ Hw' Hk') as [_ H2]. apply hide_row_alike; [done|done|].
  intros i col v v' H3 H4 H5. by eapply Ha.
Qed.

End Statement.

(** ** What is not hidden *)

(** Behind a comment, in [REPLACE], or in the form with [SET], a secret of a
    sensitive column goes out as it is. *)
Theorem redaction_misses blake3 :
  Forall (λ stmt, redact_statement blake3 stmt = stmt)
    ["/* seed */ INSERT INTO users (password) VALUES ('hunter2')";
     "REPLACE INTO users (password) VALUES ('hunter2')";
     "INSERT INTO users SET password = 'hunter2'"].
Proof. repeat constructor. Qed.

(** The text of a statement can change beyond its secrets: an escaped quote
    outside the tuples is unescaped, and the space before [WHERE] is lost. *)
Theorem redaction_breaks_text blake3 :
  redact_statement blake3 "INSERT INTO t (token) SELECT 'it''s' FROM u" = "INSERT INTO t (token) SELECT 'it's' FROM u"
  ∧ redact_statement blake3 "UPDATE t SET token = x, n = 1 WHERE id = 2" = "UPDATE t SET token = x, n = 1WHERE id = 2".
Proof. split; vm_compute; reflexivity. Qed.

Definition rx_hash (s : string) : list N := [1; 2; 3; 4]%N.

Lemma insert_secrets_hidden_witness :
  redact_statement rx_hash "INSERT INTO users (name, api_key) VALUES ('o''neil', 'hunter2'), ('b', NULL)"
  = "INSERT INTO users (name, api_key) VALUES ('o''neil', '<redacted:01020304>'), ('b', NULL)".
Proof.
  destruct (insert_secrets_hidden rx_hash (str "users") [str "name"; str "api_key"]
    [[VLit (str "o'neil"); VLit (str "hunter2")]; [VLit (str "b"); VRaw (str "NULL")]]) as [H _].
  - split; [discriminate|repeat constructor].
  - discriminate.
  - repeat constructor; discriminate.
  - repeat constructor; discriminate.
  - exact H.
Defined.

End RedactFacts.

(** * Scripts of statements

    A script is split where its statements end, whatever its literals hold;
    and a script of [INSERT]s leaves the wrapper with every secret hidden. *)

Module SqlFacts.
Import Redact RedactFacts Sql.

(** ** Text that does not end a statement *)

(** The scan passes over [x] and is outside quotes and comments again. *)
Definition passes (x : chars) (before : chars → Prop) : Prop :=
  ∀ fuel rest buf out, length (x ++ rest) ≤ fuel → before rest →
  ∃ fuel', length rest ≤ fuel' ∧ split_run fuel MPlain (x ++ rest) buf out = split_run fuel' MPlain rest (buf ++ x) out.

(** Before anything, and before anything but a quote. *)
Abbreviation passes_any x := (passes x (λ _, True)).
Abbreviation passes_unquoted x := (passes x (λ rest, head rest ≠ Some quote)).

Definition harmless (c : Ascii.ascii) : Prop :=
  c ∉ [quote; dquote; "$"%char; "-"%char; "/"%char; ";"%char].

Lemma passes_nil before : passes [] before.
Proof. intros fuel rest buf out Hf _. exists fuel. by rewrite app_nil_r. Qed.

Lemma passes_plain (w : chars) : Forall harmless w → passes_any w.
Proof.
  induction 1 as [|c w Hc _ IH]; [apply passes_nil|]. intros fuel rest buf out Hf _.
  destruct fuel as [|fuel]; [simpl in Hf; lia|]. unfold harmless in Hc. rewrite !not_elem_of_cons in Hc.
  destruct Hc as (H1 & H2 & H3 & H4 & H5 & H6 & _). cbn [app split_run].
  rewrite !(bool_decide_eq_false_2 (c = _)) by done. cbn [andb].
  destruct (IH fuel rest (buf ++ [c]) out) as (f' & Hl & ->); [simpl in *; lia|done|].
  exists f'. split; [done|]. by rewrite <- app_assoc.
Qed.

Lemma passes_app (x y : chars) before :
  passes_any x → passes y before → passes (x ++ y) before.
Proof.
  intros Hx Hy fuel rest buf out Hf Hb. rewrite <- app_assoc in *.
  destruct (Hx fuel (y ++ rest) buf out Hf I) as (f1 & Hf1 & ->).
  destruct (Hy f1 rest (buf ++ x) out Hf1 Hb) as (f2 & Hf2 & ->). exists f2. split; [done|]. by rewrite <- app_assoc.
Qed.

Lemma passes_then (x y : chars) :
  passes_unquoted x → passes_any y → y ≠ [] → head y ≠ Some quote → passes_any (x ++ y).
Proof.
  intros Hx Hy Hne Hq fuel rest buf out Hf _. rewrite <- app_assoc in *.
  destruct (Hx fuel (y ++ rest) buf out Hf) as (f1 & Hf1 & ->); [by destruct y|].
  destruct (Hy f1 rest (buf ++ x) out Hf1 I) as (f2 & Hf2 & ->). exists f2. split; [done|]. by rewrite <- app_assoc.
Qed.

Lemma passes_weaken (x : chars) : passes_any x → passes_unquoted x.
Proof. intros Hx fuel rest buf out Hf _. by apply Hx. Qed.

Lemma passes_literal (s : chars) : passes_unquoted (literal s).
Proof.
  assert (∀ fuel rest buf out, length (escape s ++ quote :: rest) ≤ fuel → head rest ≠ Some quote →
    ∃ fuel', length rest ≤ fuel' ∧ split_run fuel MSingle (escape s ++ quote :: rest) buf out
      = split_run fuel' MPlain rest (buf ++ escape s ++ [quote]) out) as Hgo.
  { induction s as [|c s IH]; intros fuel rest buf out Hf Hq.
    - destruct fuel as [|fuel]; [simpl in Hf; lia|]. exists fuel. split; [simpl in Hf; lia|].
      cbn [escape fmap list_fmap concat app split_run]. rewrite bool_decide_eq_true_2 by done.
      by rewrite bool_decide_eq_false_2.
    - rewrite escape_cons in *. case_bool_decide as Hc; (destruct fuel as [|fuel]; [simpl in Hf; lia|]).
      + cbn [app split_run head tail]. rewrite !bool_decide_eq_true_2 by done.
        destruct (IH fuel rest (buf ++ [quote; quote]) out) as (f' & Hl & ->); [simpl in *; lia|done|].
        exists f'. split; [done|]. by rewrite <- !app_assoc.
      + cbn [app split_run]. rewrite bool_decide_eq_false_2 by done.
        destruct (IH fuel rest (buf ++ [c]) out) as (f' & Hl & ->); [simpl in *; lia|done|].
        exists f'. split; [done|]. by rewrite <- !app_assoc. }
  intros fuel rest buf out Hf Hq. unfold literal in *. rewrite <- !app_assoc in *. cbn [app] in *.
  destruct fuel as [|fuel]; [simpl in Hf; lia|]. cbn [split_run].
  rewrite bool_decide_eq_false_2, bool_decide_eq_true_2 by done.
  destruct (Hgo fuel rest (buf ++ [quote]) out) as (f' & Hl & ->); [simpl in *; lia|done|].
  exists f'. split; [done|]. by rewrite <- app_assoc.
Qed.

(** ** Statements *)

Lemma harmless_ident (w : chars) : Forall (λ c, is_ident c = true) w → Forall harmless w.
Proof.
  intros Hw. eapply Forall_impl; [exact Hw|]. intros c Hc. unfold harmless.
  assert (∀ c', is_ident c' = false → c ≠ c') as Hne by (intros c' H ->; congruence).
  rewrite !not_elem_of_cons. split_and!; try (by apply Hne). apply not_elem_of_nil.
Qed.

Lemma passes_str (s : string) :
  forallb (λ c, negb (bool_decide (c ∈ [quote; dquote; "$"%char; "-"%char; "/"%char; ";"%char]))) (str s) = true →
  passes_any (str s).
Proof.
  intros H. apply passes_plain, Forall_forall. intros c Hc. rewrite forallb_forall in H.
  apply list_elem_of_In, H in Hc. apply negb_true_iff, bool_decide_eq_false in Hc. exact Hc.
Qed.

Lemma passes_value v : wf_value v → passes_unquoted (render v).
Proof.
  destruct v as [s|w]; simpl; [intros _; apply passes_literal|]. intros [_ Hw].
  by apply passes_weaken, passes_plain, harmless_ident.
Qed.

Lemma passes_row vs : Forall wf_value vs → passes_unquoted (render_row vs).
Proof.
  unfold render_row. induction 1 as [|v vs Hv Hw IH]; [apply passes_nil|]. rewrite fmap_cons. destruct vs as [|v' vs].
  - by apply passes_value.
  - cbn [join fmap list_fmap] in *. rewrite app_assoc. apply passes_app; [|exact IH].
    apply passes_then; [by apply passes_value|by apply passes_str|done|done].
Qed.

Lemma passes_parens vs : Forall wf_value vs → passes_any (parens (render_row vs)).
Proof.
  intros Hw. unfold parens. apply passes_app; [by apply (passes_str "(")|].
  apply passes_then; [by apply passes_row|by apply (passes_str ")")|done|done].
Qed.

Lemma passes_tuples cols rows : wf_rows cols rows → passes_any (tuples rows).
Proof.
  unfold tuples. induction 1 as [|vs rows [Hv _] Hw IH]; [apply passes_nil|]. rewrite fmap_cons. destruct rows as [|vs' rows].
  - by apply passes_parens.
  - cbn [join fmap list_fmap] in *. apply passes_app; [by apply passes_parens|].
    apply passes_app; [by apply passes_str|exact IH].
Qed.

Record Insert := mkInsert { in_table : chars; in_cols : list chars; in_rows : list (list Value) }.

Definition insert_text (i : Insert) : chars := insert_stmt (in_table i) (in_cols i) (in_rows i).
Definition wf_insert (i : Insert) : Prop :=
  word (in_table i) ∧ in_cols i ≠ [] ∧ Forall word (in_cols i) ∧ in_rows i ≠ [] ∧ wf_rows (in_cols i) (in_rows i).

Lemma passes_insert i : wf_insert i → passes_any (insert_text i).
Proof.
  intros ([_ Ht] & Hc & Hcols & _ & Hw). unfold insert_text, insert_stmt, insert_head. rewrite <- !app_assoc.
  apply passes_app; [by apply passes_str|]. apply passes_app; [by apply passes_plain, harmless_ident|].
  apply passes_app; [by apply passes_str|]. apply passes_app.
  - assert (in_cols i = render <$> (VRaw <$> in_cols i)) as -> by by rewrite <- list_fmap_compose, list_fmap_id.
    apply passes_parens. by apply Forall_fmap.
  - apply passes_app; [by apply passes_str|]. by eapply passes_tuples.
Qed.

Lemma last_char_app (a b : chars) c : last_char b = Some c → last_char (a ++ b) = Some c.
Proof. unfold last_char. rewrite reverse_app. by destruct (reverse b). Qed.

Lemma tuples_last rows : rows ≠ [] → last_char (tuples rows) = Some ")"%char.
Proof.
  unfold tuples. induction rows as [|vs rows IH]; [done|]. intros _. rewrite fmap_cons. destruct rows as [|vs' rows].
  - cbn [join fmap list_fmap]. unfold parens. rewrite app_assoc. apply last_char_snoc.
  - cbn [join fmap list_fmap] in *. apply last_char_app, last_char_app, IH. done.
Qed.

Lemma trim_insert i : wf_insert i → trim (insert_text i) = insert_text i.
Proof.
  intros (_ & _ & _ & Hne & _). apply (trim_ends _ "I"%char ")"%char); try done.
  unfold insert_text, insert_stmt. by apply last_char_app, tuples_last.
Qed.

(** ** Scripts *)

Definition newline : Ascii.ascii := "010".

(** One statement per line, each with its semicolon. *)
Fixpoint script (stmts : list chars) : chars :=
  match stmts with
  | [] => []
  | x :: stmts' => x ++ [";"%char; newline] ++ script stmts'
  end.

Lemma push_trimmed out (x : chars) buf :
  trim x = x → x ≠ [] → buf = [] ∨ buf = [newline] → push_statement out (buf ++ x) = out ++ [x].
Proof.
  intros Ht Hne Hb. unfold push_statement.
  assert (trim (buf ++ x) = x) as -> by (destruct Hb as [-> | ->]; exact Ht). by rewrite bool_decide_eq_false_2.
Qed.

Lemma split_script stmts fuel buf out :
  Forall (λ x, passes_any x ∧ trim x = x ∧ x ≠ []) stmts → buf = [] ∨ buf = [newline] →
  length (script stmts) ≤ fuel → split_run fuel MPlain (script stmts) buf out = out ++ stmts.
Proof.
  intros Hs. revert fuel buf out. induction Hs as [|x stmts (Hx & Ht & Hne) Hs IH]; intros fuel buf out Hb Hf.
  - rewrite app_nil_r. destruct Hb as [-> | ->]; by destruct fuel.
  - cbn [script] in *. destruct (Hx fuel ([";"%char; newline] ++ script stmts) buf out Hf I) as (f' & Hl & ->).
    destruct f' as [|[|f']]; [simpl in Hl; lia|simpl in Hl; lia|].
    change (split_run (S (S f')) MPlain _ ?b ?o) with (split_run f' MPlain (script stmts) [newline] (push_statement o b)).
    rewrite push_trimmed by done.
    etrans; [apply IH; [by right|simpl in Hl |- *; lia]|]. by rewrite <- app_assoc.
Qed.

(** A script of complete statements splits into them, in order, whatever
    their literals hold. *)
Lemma split_statements_script stmts :
  Forall (λ x, passes_any x ∧ trim x = x ∧ x ≠ []) stmts → split_statements (script stmts) = stmts.
Proof. intros Hs. unfold split_statements. by rewrite split_script by (done || by left). Qed.

Lemma trim_leading (c : Ascii.ascii) (x : chars) : Ascii.is_space c = false → trim (c :: x) ≠ [].
Proof.
  intros Hc Hx. unfold trim, trim_start in Hx. cbn [drop_while] in Hx. rewrite Hc in Hx.
  apply (f_equal reverse) in Hx. rewrite reverse_involutive, reverse_cons in Hx. generalize dependent Hx.
  generalize (reverse x). intros r. induction r as [|z r IH]; simpl; [by rewrite Hc|by case_match].
Qed.

Section Secrets.
Context (blake3 : string → list N).

Definition hidden_text (i : Insert) : string := unstr (insert_hidden blake3 (in_table i) (in_cols i) (in_rows i)).

(** A script of [INSERT]s on its way to the daemon. Whatever tables, columns
    and literals it has, the wrapper ships one statement per [INSERT], in
    order, in which every literal of a sensitive column is its marker and the
    rest is the text that was run; a semicolon or quote inside a literal
    neither splits nor ends anything. *)
Lemma filter_script (l : list Insert) :
  Forall wf_insert l → filter_statements blake3 (script (insert_text <$> l)) = hidden_text <$> l.
Proof.
  intros Hw. unfold filter_statements. destruct l as [|i l]; [done|]. rewrite bool_decide_eq_false_2 by by apply trim_leading.
  assert (split_statements (script (insert_text <$> i :: l)) = insert_text <$> i :: l) as ->.
  { apply split_statements_script, Forall_fmap. eapply Forall_impl; [exact Hw|]. intros j Hj.
    split_and!; [by apply passes_insert|by apply trim_insert|done]. }
  assert (List.filter (λ s, is_mutating (classify_statement s)) (insert_text <$> i :: l) = insert_text <$> i :: l) as ->.
  { clear Hw. generalize (i :: l). intros l'. induction l' as [|j l' IH]; [done|]. rewrite fmap_cons. cbn [List.filter].
    assert (classify_statement (insert_text j) = StatementKind.Mutating) as -> by done. cbn [is_mutating]. by rewrite IH. }
  rewrite <- list_fmap_compose. apply list_fmap_ext. intros k j Hk. simpl. unfold insert_text, hidden_text.
  destruct (Forall_lookup_1 _ _ _ _ Hw Hk) as (Ht & Hc & Hcols & _ & Hr). by apply redact_statement_insert.
Qed.

End Secrets.

End SqlFacts.
