(* ===== verification/Tables.v ===== *)
(** * Tables of the persistent store

    The schema of [shit-store] ([migrations/*.sql] as [schema.rs] applies
    them): one record per row, one map per table keyed by its primary key,
    and the parts of SQL the statements of the crate use. Integer columns
    hold the [i64] the code binds; a [u64] above [i64::MAX] is stored as a
    negative number. Statements fail only through constraints and integer
    overflow; input and output errors of the database are not modelled. *)

From S2P Require Import Prelude Paths Base Events.

(** ** Casts at the boundary *)

(** [v as i64] of a [u64]. *)
Definition to_i64 (n : N) : Z := u64_as_i64 (Z.of_N n).

(** [v as u64] of an [i64]. *)
Definition of_i64 (z : Z) : N := Z.to_N (i64_as_u64 z).

(** [v.max(0) as u64]. *)
Definition of_i64_clamped (z : Z) : N := Z.to_N (Z.max z 0).

(** [v as u32] of an [i64]. *)
Definition i64_as_u32 (z : Z) : N := Z.to_N (z mod 2 ^ 32).

Definition u64_fits (n : N) : Prop := (n < 2 ^ 64)%N.

Lemma is_u64_of_N (n : N) : u64_fits n → is_u64 (Z.of_N n).
Proof. unfold u64_fits, is_u64. lia. Qed.

Lemma of_to_i64 (n : N) : u64_fits n → of_i64 (to_i64 n) = n.
Proof.
  intros Hn. unfold of_i64, to_i64. rewrite u64_i64_roundtrip by by apply is_u64_of_N. lia.
Qed.

Lemma to_i64_small (n : N) : (n < 2 ^ 63)%N → to_i64 n = Z.of_N n.
Proof. intros Hn. unfold to_i64. apply u64_as_i64_small. lia. Qed.

Lemma to_i64_inj (m n : N) : u64_fits m → u64_fits n → to_i64 m = to_i64 n → m = n.
Proof. intros Hm Hn H. by rewrite <- (of_to_i64 m), <- (of_to_i64 n), H. Qed.

Lemma of_i64_clamped_small (n : N) : (n < 2 ^ 63)%N → of_i64_clamped (to_i64 n) = n.
Proof. intros Hn. rewrite to_i64_small by done. unfold of_i64_clamped. lia. Qed.

#[export] Hint Resolve of_to_i64 to_i64_small is_u64_of_N : shit.

(** ** Errors *)

Module SqlError.
Inductive SqlError :=
  | ForeignKey
  (** [SQLITE_FULL]: the row identifiers are used up. *)
  | Full
  (** [SUM] left the range of [i64]. *)
  | IntegerOverflow.
End SqlError.
Abbreviation SqlError := SqlError.SqlError.

Module IndexError.
Inductive IndexError :=
  | Sql (e : SqlError)
  | Encode.
End IndexError.
Abbreviation IndexError := IndexError.IndexError.

(** [Result<A, IndexError>]; an error leaves the database as it was. *)
Abbreviation IndexResult A := (A + IndexError)%type.

(** ** Rows *)

Record SessionRow := mkSessionRow {
  ss_shell_kind : string;
  ss_parent_pid : Z;
  ss_tty : option string;
  ss_opened_logical : Z;
  ss_opened_wall_nanos : Z;
  ss_closed_logical : option Z;
  ss_closed_wall_nanos : option Z;
}.

Record CommandRow := mkCommandRow {
  cr_cmd_string : option string;
  cr_cwd : PathBuf;
  cr_pid : Z;
  cr_shell_kind : string;
  cr_started_logical : Z;
  cr_started_wall_nanos : Z;
  cr_ended_logical : option Z;
  cr_ended_wall_nanos : option Z;
  cr_exit_code : option Z;
  cr_importance : Z;
}.

(** [payload] is what [postcard] made of the event. *)
Record EventRow {P : Type} := mkEventRow {
  er_id : Z;
  er_command : CommandId;
  er_ts_logical : Z;
  er_ts_wall_nanos : Z;
  er_partial : Z;
  er_discriminant : string;
  er_dev : option Z;
  er_inode : option Z;
  er_path : option PathBuf;
  er_blob_hash : option BlobHash;
  er_post_content_hash : option BlobHash;
  er_payload : P;
}.
Arguments EventRow : clear implicits.
Arguments mkEventRow {P}.

Record BlobRow := mkBlobRow {
  br_size : Z;
  br_compressed : Z;
  br_refcount : Z;
  br_created_logical : Z;
}.

(** A row of [paths] under its key [(path, valid_from_logical)]. *)
Record PathRow := mkPathRow {
  pr_dev : Z;
  pr_inode : Z;
  pr_valid_to_logical : option Z;
}.

Record PinRow := mkPinRow {
  pn_name : option string;
  pn_pinned_logical : Z;
  pn_expires_logical : option Z;
}.

(** A row of [holds] under its key [(session, seq, owner_pid)]. *)
Record HoldRow := mkHoldRow {
  hr_owner_user : string;
  hr_taken_logical : Z;
  hr_expires_logical : option Z;
  hr_note : option string;
}.

Record BookmarkRow := mkBookmarkRow {
  bm_created_logical : Z;
  bm_note : option string;
}.

Record LargeObjectRow := mkLargeObjectRow {
  lo_total_size : Z;
  lo_chunk_count : Z;
  lo_materialized : Z;
  lo_created_logical : Z;
}.

(** A row of [chunks] under its key [(blob_hash, idx)]. *)
Record ChunkRow := mkChunkRow {
  ck_offset : Z;
  ck_length : Z;
  ck_hash : BlobHash;
  ck_materialized : Z;
}.

Record StashRow := mkStashRow {
  st_kind : Z;
  st_runtime : string;
  st_name : string;
  st_size_bytes : Z;
  st_created_unix_secs : Z;
  st_session : option Uuid;
  st_seq : option Z;
  st_note : option string;
}.

(** ** The database *)

Record Db {P : Type} := mkDb {
  sessions : gmap Uuid SessionRow;
  commands : gmap CommandId CommandRow;
  (** In order of their row identifiers. *)
  events : list (EventRow P);
  (** [sqlite_sequence]: the largest identifier ever given to an event. *)
  events_seq : Z;
  blobs : gmap BlobHash BlobRow;
  paths : gmap (PathBuf * Z) PathRow;
  pins : gmap CommandId PinRow;
  holds : gmap (CommandId * N) HoldRow;
  bookmarks : gmap CommandId BookmarkRow;
  large_objects : gmap BlobHash LargeObjectRow;
  chunks : gmap (BlobHash * N) ChunkRow;
  container_stashes : gmap BlobHash StashRow;
}.
Arguments Db : clear implicits.
Arguments mkDb {P}.

Definition empty_db {P : Type} : Db P := mkDb ∅ ∅ [] 0 ∅ ∅ ∅ ∅ ∅ ∅ ∅ ∅.

Definition set_sessions {P : Type} (m : gmap Uuid SessionRow) (db : Db P) : Db P :=
  mkDb m (commands db) (events db) (events_seq db) (blobs db) (paths db) (pins db) (holds db)
    (bookmarks db) (large_objects db) (chunks db) (container_stashes db).
Definition set_commands {P : Type} (m : gmap CommandId CommandRow) (db : Db P) : Db P :=
  mkDb (sessions db) m (events db) (events_seq db) (blobs db) (paths db) (pins db) (holds db)
    (bookmarks db) (large_objects db) (chunks db) (container_stashes db).
Definition set_events {P : Type} (l : list (EventRow P)) (db : Db P) : Db P :=
  mkDb (sessions db) (commands db) l (events_seq db) (blobs db) (paths db) (pins db) (holds db)
    (bookmarks db) (large_objects db) (chunks db) (container_stashes db).
Definition set_events_seq {P : Type} (z : Z) (db : Db P) : Db P :=
  mkDb (sessions db) (commands db) (events db) z (blobs db) (paths db) (pins db) (holds db)
    (bookmarks db) (large_objects db) (chunks db) (container_stashes db).
Definition set_blobs {P : Type} (m : gmap BlobHash BlobRow) (db : Db P) : Db P :=
  mkDb (sessions db) (commands db) (events db) (events_seq db) m (paths db) (pins db) (holds db)
    (bookmarks db) (large_objects db) (chunks db) (container_stashes db).
Definition set_paths {P : Type} (m : gmap (PathBuf * Z) PathRow) (db : Db P) : Db P :=
  mkDb (sessions db) (commands db) (events db) (events_seq db) (blobs db) m (pins db) (holds db)
    (bookmarks db) (large_objects db) (chunks db) (container_stashes db).
Definition set_pins {P : Type} (m : gmap CommandId PinRow) (db : Db P) : Db P :=
  mkDb (sessions db) (commands db) (events db) (events_seq db) (blobs db) (paths db) m (holds db)
    (bookmarks db) (large_objects db) (chunks db) (container_stashes db).
Definition set_holds {P : Type} (m : gmap (CommandId * N) HoldRow) (db : Db P) : Db P :=
  mkDb (sessions db) (commands db) (events db) (events_seq db) (blobs db) (paths db) (pins db) m
    (bookmarks db) (large_objects db) (chunks db) (container_stashes db).
Definition set_bookmarks {P : Type} (m : gmap CommandId BookmarkRow) (db : Db P) : Db P :=
  mkDb (sessions db) (commands db) (events db) (events_seq db) (blobs db) (paths db) (pins db)
    (holds db) m (large_objects db) (chunks db) (container_stashes db).
Definition set_large_objects {P : Type} (m : gmap BlobHash LargeObjectRow) (db : Db P) : Db P :=
  mkDb (sessions db) (commands db) (events db) (events_seq db) (blobs db) (paths db) (pins db)
    (holds db) (bookmarks db) m (chunks db) (container_stashes db).
Definition set_chunks {P : Type} (m : gmap (BlobHash * N) ChunkRow) (db : Db P) : Db P :=
  mkDb (sessions db) (commands db) (events db) (events_seq db) (blobs db) (paths db) (pins db)
    (holds db) (bookmarks db) (large_objects db) m (container_stashes db).
Definition set_container_stashes {P : Type} (m : gmap BlobHash StashRow) (db : Db P) : Db P :=
  mkDb (sessions db) (commands db) (events db) (events_seq db) (blobs db) (paths db) (pins db)
    (holds db) (bookmarks db) (large_objects db) (chunks db) m.

(** ** Queries *)

(** Rows of a table in the order the engine happens to visit them: SQL fixes
    none, so every query over a keyed table goes through a [HashOrder]. *)
Definition scan_table {K V} `{Countable K} (ord : HashOrder K V) (m : gmap K V) : list (K * V) :=
  hash_iter m.

(** [LIMIT n]; a negative limit is none. *)
Definition sql_limit {A} (n : Z) (l : list A) : list A :=
  if bool_decide (n < 0)%Z then l else take (Z.to_nat n) l.

(** [SUM] over [i64] fails when it leaves the type; [COALESCE(.., 0)] covers
    the empty table. *)
Definition sql_sum (l : list Z) : IndexResult Z :=
  let s := foldr Z.add 0%Z l in
  if bool_decide (- 2 ^ 63 ≤ s < 2 ^ 63)%Z then inl s
  else inr (IndexError.Sql SqlError.IntegerOverflow).

(** [Option<i64>] columns are compared with [=]: [NULL] equals nothing. *)
Definition col_eq {A} `{EqDecision A} (c : option A) (v : A) : bool := bool_decide (c = Some v).

Lemma sql_limit_incl {A} (n : Z) (l : list A) (x : A) : x ∈ sql_limit n l → x ∈ l.
Proof. unfold sql_limit. case_bool_decide; [done|]. apply subseteq_take. Qed.
