(* ===== verification/Index.v ===== *)
(** * The index

    [index.rs] of [shit-store]: the journal of events, commands, blob
    reference counts, path history and pins on the tables of [Tables], and
    the implementation of the planner's store interface. A transaction is a
    function to a new database or an error that keeps the old one. *)

From S2P Require Import Prelude Paths Base Events Probe Tables.

Module Index.

(** [postcard] on [CaptureEvent]. *)
Class Postcard (P : Type) := {
  to_allocvec : CaptureEvent → option P;
  from_bytes : P → option CaptureEvent;
}.

Class PostcardLaws (P : Type) `{!Postcard P} : Prop := {
  from_to_bytes : ∀ e p, to_allocvec e = Some p → from_bytes p = Some e;
}.

(** ** Sessions and commands *)

Section Ops.
Context {P : Type}.
Implicit Types db : Db P.

Definition put_session db (sess : Uuid) (shell_kind : string) (parent_pid : N)
    (tty : option string) (opened : TimePoint) : Db P :=
  set_sessions
    (<[sess :=
       match sessions db !! sess with
       | None => mkSessionRow shell_kind (Z.of_N parent_pid) tty (to_i64 (logical opened))
                   (to_i64 (wallclock_unix_nanos opened)) None None
       | Some r => mkSessionRow shell_kind (ss_parent_pid r) (ss_tty r) (ss_opened_logical r)
                     (ss_opened_wall_nanos r) (ss_closed_logical r) (ss_closed_wall_nanos r)
       end]> (sessions db)) db.

Definition close_session db (sess : Uuid) (closed : TimePoint) : Db P :=
  set_sessions
    (alter (λ r, mkSessionRow (ss_shell_kind r) (ss_parent_pid r) (ss_tty r)
       (ss_opened_logical r) (ss_opened_wall_nanos r) (Some (to_i64 (logical closed)))
       (Some (to_i64 (wallclock_unix_nanos closed)))) sess (sessions db)) db.

(** [ShellKind::as_str] and [ShellKind::from_str]. *)
Definition shell_as_str (k : ShellKind) : string :=
  match k with
  | ShellKind.Bash => "bash"
  | ShellKind.Zsh => "zsh"
  | ShellKind.Fish => "fish"
  | ShellKind.Unknown => "unknown"
  end.

Definition shell_from_str (s : string) : option ShellKind :=
  if bool_decide (s = "bash") then Some ShellKind.Bash
  else if bool_decide (s = "zsh") then Some ShellKind.Zsh
  else if bool_decide (s = "fish") then Some ShellKind.Fish
  else if bool_decide (s = "unknown") then Some ShellKind.Unknown
  else None.

(** [COALESCE(a, b)]. *)
Definition coalesce {A} (a b : option A) : option A :=
  match a with Some _ => a | None => b end.

Definition put_command db (cmd : CommandRecord) : Db P :=
  let ended_logical := (λ t, to_i64 (logical t)) <$> c_ended_at cmd in
  let ended_wall := (λ t, to_i64 (wallclock_unix_nanos t)) <$> c_ended_at cmd in
  set_commands
    (<[c_command cmd :=
       match commands db !! c_command cmd with
       | None => mkCommandRow (c_cmd_string cmd) (c_cwd cmd) (Z.of_N (c_pid cmd))
                   (shell_as_str (c_shell_kind cmd)) (to_i64 (logical (c_started_at cmd)))
                   (to_i64 (wallclock_unix_nanos (c_started_at cmd)))
                   ended_logical ended_wall (c_exit_code cmd) 0
       | Some r => mkCommandRow (coalesce (c_cmd_string cmd) (cr_cmd_string r)) (cr_cwd r)
                     (cr_pid r) (cr_shell_kind r) (cr_started_logical r)
                     (cr_started_wall_nanos r) ended_logical ended_wall (c_exit_code cmd)
                     (cr_importance r)
       end]> (commands db)) db.

Definition command_exists db (id : CommandId) : bool := bool_decide (is_Some (commands db !! id)).

(** ** Denormalized columns *)

Record Denormalized := mkDenorm {
  dn_discriminant : string;
  dn_dev : option Z;
  dn_inode : option Z;
  dn_path : option PathBuf;
  dn_blob_hash : option BlobHash;
  dn_post_content_hash : option BlobHash;
}.

Definition i64_dev (i : InodeRef) : option Z := Some (to_i64 (i_dev i)).
Definition i64_ino (i : InodeRef) : option Z := Some (to_i64 (i_ino i)).

Definition denorm_plain (disc : string) : Denormalized := mkDenorm disc None None None None None.

Definition denorm_tree (op : TreeOp) : Denormalized :=
  match op with
  | TreeOp.Create i p _ _ => mkDenorm "TreeOpCreate" (i64_dev i) (i64_ino i) (Some p) None None
  | TreeOp.Unlink i p _ _ => mkDenorm "TreeOpUnlink" (i64_dev i) (i64_ino i) (Some p) None None
  | TreeOp.Rename _ to i => mkDenorm "TreeOpRename" (i64_dev i) (i64_ino i) (Some to) None None
  | TreeOp.Link i p => mkDenorm "TreeOpLink" (i64_dev i) (i64_ino i) (Some p) None None
  | TreeOp.Symlink _ p => mkDenorm "TreeOpSymlink" None None (Some p) None None
  | TreeOp.SymlinkRemoved _ p => mkDenorm "TreeOpSymlinkRemoved" None None (Some p) None None
  end.

Definition denormalize (kind : CaptureEventKind) : Denormalized :=
  match kind with
  | CaptureEventKind.FilePreImage i p blob _ post _ =>
      mkDenorm "FilePreImage" (i64_dev i) (i64_ino i) (Some p) (Some blob) post
  | CaptureEventKind.MetadataChange i p _ _ =>
      mkDenorm "MetadataChange" (i64_dev i) (i64_ino i) (Some p) None None
  | CaptureEventKind.FileAppendPreStash i p _ =>
      mkDenorm "FileAppendPreStash" (i64_dev i) (i64_ino i) (Some p) None None
  | CaptureEventKind.TreeOp op => denorm_tree op
  | CaptureEventKind.EnvDiff _ _ _ => denorm_plain "EnvDiff"
  | CaptureEventKind.ShellStateDiff _ _ _ _ _ => denorm_plain "ShellStateDiff"
  | CaptureEventKind.PackageOp _ _ _ _ _ => denorm_plain "PackageOp"
  | CaptureEventKind.NetworkOp _ _ _ _ => denorm_plain "NetworkOp"
  | CaptureEventKind.SystemdOp _ _ _ _ => denorm_plain "SystemdOp"
  | CaptureEventKind.ProcessOp _ _ _ _ _ _ _ => denorm_plain "ProcessOp"
  | CaptureEventKind.DbOp _ _ _ _ => denorm_plain "DbOp"
  | CaptureEventKind.ContainerOp _ _ _ _ stash_tarball =>
      mkDenorm "ContainerOp" None None None stash_tarball None
  | CaptureEventKind.TerraformOp _ _ _ => denorm_plain "TerraformOp"
  | CaptureEventKind.KubectlOp _ _ _ _ => denorm_plain "KubectlOp"
  | CaptureEventKind.GhOp _ _ => denorm_plain "GhOp"
  | CaptureEventKind.CaptureRefused _ p _ => mkDenorm "CaptureRefused" None None (Some p) None None
  end.

(** The blob an event keeps alive. *)
Definition event_blob (kind : CaptureEventKind) : option BlobHash := dn_blob_hash (denormalize kind).

(** ** Path history *)

(** [INSERT .. ON CONFLICT(path, valid_from_logical) DO NOTHING]. *)
Definition open_path (p : PathBuf) (dev ino : Z) (ts : Z) (m : gmap (PathBuf * Z) PathRow)
    : gmap (PathBuf * Z) PathRow :=
  match m !! (p, ts) with
  | Some _ => m
  | None => <[(p, ts) := mkPathRow dev ino None]> m
  end.

(** [UPDATE paths SET valid_to = ts WHERE path = p AND valid_to IS NULL]. *)
Definition close_path (p : PathBuf) (ts : Z) (m : gmap (PathBuf * Z) PathRow)
    : gmap (PathBuf * Z) PathRow :=
  map_imap (λ k r,
    Some (if bool_decide (k.1 = p) && bool_decide (pr_valid_to_logical r = None)
          then mkPathRow (pr_dev r) (pr_inode r) (Some ts) else r)) m.

Definition path_history (op : TreeOp) (ts : Z) (m : gmap (PathBuf * Z) PathRow)
    : gmap (PathBuf * Z) PathRow :=
  match op with
  | TreeOp.Create i p _ _ => open_path p (to_i64 (i_dev i)) (to_i64 (i_ino i)) ts m
  | TreeOp.Unlink _ p _ _ => close_path p ts m
  | TreeOp.Rename from to i =>
      open_path to (to_i64 (i_dev i)) (to_i64 (i_ino i)) ts (close_path from ts m)
  | TreeOp.Link i p => open_path p (to_i64 (i_dev i)) (to_i64 (i_ino i)) ts m
  | TreeOp.Symlink _ p => open_path p 0 0 ts m
  | TreeOp.SymlinkRemoved _ p => close_path p ts m
  end.

Definition update_path_history db (kind : CaptureEventKind) (ts : TimePoint) : Db P :=
  match kind with
  | CaptureEventKind.TreeOp op => set_paths (path_history op (to_i64 (logical ts)) (paths db)) db
  | _ => db
  end.

(** What [path] referred to at [at_]. *)
Definition resolve_path_at db (path : PathBuf) (at_ : TimePoint) : option InodeRef :=
  let t := to_i64 (logical at_) in
  let rows := List.filter (λ kr, bool_decide (kr.1.1 = path) && bool_decide (kr.1.2 ≤ t)%Z
    && match pr_valid_to_logical kr.2 with None => true | Some v => bool_decide (t < v)%Z end)
    (map_to_list (paths db)) in
  match sort_by (λ a b, bool_decide (b.1.2 ≤ a.1.2)%Z) rows with
  | [] => None
  | (_, r) :: _ => Some (mkInode (of_i64 (pr_dev r)) (of_i64 (pr_inode r)))
  end.

(** ** Blobs and their reference counts *)

Definition set_refcount (f : Z → Z) (r : BlobRow) : BlobRow :=
  mkBlobRow (br_size r) (br_compressed r) (f (br_refcount r)) (br_created_logical r).

(** [UPDATE blobs SET refcount = refcount + 1 WHERE hash = ?1]. *)
Definition bump (h : BlobHash) db : Db P :=
  set_blobs (alter (set_refcount (λ n, n + 1)%Z) h (blobs db)) db.

(** [UPDATE blobs SET refcount = MAX(refcount - 1, 0) WHERE hash = ?1]. *)
Definition unref (h : BlobHash) db : Db P :=
  set_blobs (alter (set_refcount (λ n, Z.max (n - 1) 0)%Z) h (blobs db)) db.

Definition put_blob_record db (hash : BlobHash) (size : N) (compressed : bool) (created : TimePoint)
    : Db P :=
  match blobs db !! hash with
  | Some _ => db
  | None => set_blobs (<[hash := mkBlobRow (to_i64 size) (if compressed then 1 else 0)%Z 0
                                   (to_i64 (logical created))]> (blobs db)) db
  end.

(** ** Events *)

(** The [INSERT]: the foreign key, then the next [AUTOINCREMENT] id. *)
Definition insert_event db (ev : CaptureEvent) (payload : P) : IndexResult (Db P * Z) :=
  if negb (command_exists db (e_command ev)) then inr (IndexError.Sql SqlError.ForeignKey)
  else if bool_decide (i64_max ≤ events_seq db)%Z then inr (IndexError.Sql SqlError.Full)
  else
    let id := (events_seq db + 1)%Z in
    let dn := denormalize (e_kind ev) in
    inl (set_events (events db ++
           [mkEventRow id (e_command ev) (to_i64 (logical (e_ts ev)))
              (to_i64 (wallclock_unix_nanos (e_ts ev))) (if e_partial ev then 1 else 0)%Z
              (dn_discriminant dn) (dn_dev dn) (dn_inode dn) (dn_path dn) (dn_blob_hash dn)
              (dn_post_content_hash dn) payload])
         (set_events_seq id db), id).

Definition bump_opt (h : option BlobHash) db : Db P :=
  match h with Some h => bump h db | None => db end.

Context `{!Postcard P}.

Definition put_event db (ev : CaptureEvent) : IndexResult (Db P * EventId) :=
  match to_allocvec ev with
  | None => inr IndexError.Encode
  | Some payload =>
      match insert_event db ev payload with
      | inr e => inr e
      | inl (db1, id) =>
          inl (update_path_history (bump_opt (event_blob (e_kind ev)) db1) (e_kind ev) (e_ts ev),
               mkEventId (of_i64 id))
      end
  end.

(** The loop inside the transaction of [put_event_batch]. *)
Fixpoint put_event_loop db (evs : list CaptureEvent) (ids : list EventId)
    : IndexResult (Db P * list EventId) :=
  match evs with
  | [] => inl (db, ids)
  | ev :: evs' =>
      match put_event db ev with
      | inr e => inr e
      | inl (db', id) => put_event_loop db' evs' (ids ++ [id])
      end
  end.

Definition put_event_batch db (evs : list CaptureEvent) : IndexResult (Db P * list EventId) :=
  match evs with
  | [] => inl (db, [])
  | _ => put_event_loop db evs []
  end.

(** ** Removal *)

Definition of_command (id : CommandId) (r : EventRow P) : bool := bool_decide (er_command r = id).

Definition command_hashes db (id : CommandId) : list BlobHash :=
  omap er_blob_hash (List.filter (of_command id) (events db)).

Definition delete_events (id : CommandId) db : Db P :=
  set_events (List.filter (λ r, negb (of_command id r)) (events db)) db.

Definition unref_all (hs : list BlobHash) db : Db P := foldl (λ db h, unref h db) db hs.

(** Some hold names the command. *)
Definition held db (id : CommandId) : bool :=
  existsb (λ kr, bool_decide (kr.1.1 = id)) (map_to_list (holds db)).

(** [DELETE FROM commands]: rows of [events] and [holds] refer to it. *)
Definition delete_command (id : CommandId) db : IndexResult (Db P) :=
  if command_exists db id && (existsb (of_command id) (events db) || held db id)
  then inr (IndexError.Sql SqlError.ForeignKey)
  else inl (set_commands (delete id (commands db)) db).

(** The number of events and command rows removed. *)
Definition drop_command db (id : CommandId) : IndexResult (Db P * nat) :=
  let db1 := delete_events id (unref_all (command_hashes db id) db) in
  let removed := length (List.filter (of_command id) (events db))
                 + (if command_exists db id then 1 else 0) in
  match delete_command id db1 with
  | inr e => inr e
  | inl db2 => inl (db2, removed)
  end.

Section Queries.
Context (blob_ord : HashOrder BlobHash BlobRow) (cmd_ord : HashOrder CommandId CommandRow)
        (pin_ord : HashOrder CommandId PinRow).

Definition unreferenced_blobs db : list BlobHash :=
  (List.filter (λ kr, bool_decide (br_refcount kr.2 = 0%Z)) (scan_table blob_ord (blobs db))).*1.

Definition total_blob_size db : IndexResult N :=
  match sql_sum (br_size <$> (scan_table blob_ord (blobs db)).*2) with
  | inl n => inl (of_i64 n)
  | inr e => inr e
  end.

Definition list_pins db : list (CommandId * option string * N * option N) :=
  (λ kr, (mkCommandId (session kr.1) (of_i64_clamped (to_i64 (seq kr.1))), pn_name kr.2,
          of_i64_clamped (pn_pinned_logical kr.2), of_i64_clamped <$> pn_expires_logical kr.2))
  <$> sort_by (λ a b, bool_decide (pn_pinned_logical b.2 ≤ pn_pinned_logical a.2)%Z)
        (scan_table pin_ord (pins db)).

(** A row of [commands] as the record the code builds from it. *)
Definition row_to_record (id : CommandId) (r : CommandRow) : CommandRecord :=
  mkCommandRecord id (cr_cmd_string r) (cr_cwd r) (i64_as_u32 (cr_pid r))
    (default ShellKind.Unknown (shell_from_str (cr_shell_kind r)))
    (mkTime (of_i64 (cr_started_logical r)) (of_i64 (cr_started_wall_nanos r)))
    (match cr_ended_logical r, cr_ended_wall_nanos r with
     | Some l, Some w => Some (mkTime (of_i64 l) (of_i64 w))
     | _, _ => None
     end)
    (cr_exit_code r) [].

(** [ORDER BY ended_wall_nanos DESC, seq DESC] on the rows that have ended. *)
Definition recent_leb (a b : CommandId * CommandRow) : bool :=
  let ea := default 0%Z (cr_ended_wall_nanos a.2) in
  let eb := default 0%Z (cr_ended_wall_nanos b.2) in
  bool_decide (eb < ea)%Z
  || (bool_decide (ea = eb) && bool_decide (to_i64 (seq b.1) ≤ to_i64 (seq a.1))%Z).

Definition list_recent_commands db (limit : N) : list CommandRecord :=
  (λ kr, row_to_record kr.1 kr.2) <$>
  sql_limit (Z.of_N limit)
    (sort_by recent_leb
       (List.filter (λ kr, bool_decide (is_Some (cr_ended_wall_nanos kr.2)))
          (scan_table cmd_ord (commands db)))).

End Queries.

Definition drop_blob_record db (hash : BlobHash) : Db P * bool :=
  match blobs db !! hash with
  | Some r => if bool_decide (br_refcount r = 0%Z)
              then (set_blobs (delete hash (blobs db)) db, true) else (db, false)
  | None => (db, false)
  end.

(** ** Pins and counts *)

Definition pin_command db (id : CommandId) (name : option string) (pinned_logical : N)
    (expires_logical : option N) : Db P :=
  set_pins (<[id := mkPinRow name (to_i64 pinned_logical) (to_i64 <$> expires_logical)]> (pins db)) db.

Definition pin_count db : N := N.of_nat (size (pins db)).
Definition blob_count db : N := N.of_nat (size (blobs db)).
Definition command_count db : N := N.of_nat (size (commands db)).

(** ** The planner's view *)

Definition decode_event_row (r : EventRow P) : option CaptureEvent :=
  match from_bytes (er_payload r) with
  | None => None
  | Some ev => Some (mkEvent (mkEventId (of_i64 (er_id r))) (e_command ev) (e_ts ev)
                       (e_partial ev) (e_kind ev))
  end.

(** [ORDER BY ts_logical, id] and [ORDER BY seq, ts_logical, id]. *)
Definition ts_id_leb (a b : EventRow P) : bool :=
  bool_decide (er_ts_logical a < er_ts_logical b)%Z
  || (bool_decide (er_ts_logical a = er_ts_logical b) && bool_decide (er_id a ≤ er_id b)%Z).

Definition row_seq (r : EventRow P) : Z := to_i64 (seq (er_command r)).

Definition seq_ts_id_leb (a b : EventRow P) : bool :=
  bool_decide (row_seq a < row_seq b)%Z || (bool_decide (row_seq a = row_seq b) && ts_id_leb a b).

(** [collect_events]: the rows that decode. *)
Definition collect_events (leb : EventRow P → EventRow P → bool) (where_ : EventRow P → bool) db
    : list CaptureEvent :=
  omap decode_event_row (sort_by leb (List.filter where_ (events db))).

Definition path_where (db : Db P) (path : PathBuf) (at_ : TimePoint) (r : EventRow P) : bool :=
  bool_decide (er_ts_logical r ≤ to_i64 (logical at_))%Z
  && (col_eq (er_path r) path
      || match resolve_path_at db path at_ with
         | Some i => col_eq (er_dev r) (to_i64 (i_dev i)) && col_eq (er_inode r) (to_i64 (i_ino i))
         | None => false
         end).

Definition command_by_id db (id : CommandId) : option CommandRecord :=
  row_to_record id <$> commands db !! id.

(** [SELECT MAX(seq)], on the signed column. *)
Definition max_seq db (sess : Uuid) : option Z :=
  foldr (λ c acc, if bool_decide (session c = sess)
                  then Some (match acc with Some m => Z.max (to_i64 (seq c)) m | None => to_i64 (seq c) end)
                  else acc) None (map_to_list (commands db)).*1.

Definition index_store db : PlannerStore := {|
  events_for_command c := collect_events ts_id_leb (of_command c) db;
  events_for_session sess r :=
    collect_events seq_ts_id_leb (λ e, bool_decide (session (er_command e) = sess)
      && bool_decide (to_i64 (sr_start r) ≤ row_seq e)%Z
      && bool_decide (row_seq e < to_i64 (sr_end r))%Z) db;
  events_touching_inode i since :=
    collect_events ts_id_leb (λ e, col_eq (er_dev e) (to_i64 (i_dev i))
      && col_eq (er_inode e) (to_i64 (i_ino i))
      && bool_decide (to_i64 (logical since) ≤ er_ts_logical e)%Z) db;
  events_touching_path path at_ := collect_events ts_id_leb (path_where db path at_) db;
  latest_command_for_session sess :=
    match max_seq db sess with
    | Some m => command_by_id db (mkCommandId sess (of_i64 m))
    | None => None
    end;
  Probe.command_by_id := command_by_id db;
  event_by_id id :=
    List.find (λ e, bool_decide (er_id e = to_i64 (event_id id))) (events db) ≫= decode_event_row;
  blob_size_hint h := (λ r, of_i64 (br_size r)) <$> blobs db !! h;
|}.

End Ops.

End Index.
