(* ===== verification/Blobs.v ===== *)
(** * The blob store

    [blob.rs] of [shit-store]: content-addressed files with a one-byte
    compression flag. The directory of blobs is a map from the hash a file is
    named after to its raw bytes; the hash function and [zstd] are
    parameters. *)

From S2P Require Import Prelude Paths Base Tables.

Module Blobs.

Definition COMPRESS_MIN_BYTES : nat := 4096.
Definition FLAG_RAW : Byte.byte := Byte.x00.
Definition FLAG_ZSTD : Byte.byte := Byte.x01.

Module BlobError.
Inductive BlobError :=
  | Io
  | Malformed (h : BlobHash)
  | UnknownFlag (h : BlobHash) (flag : Byte.byte).
End BlobError.
Abbreviation BlobError := BlobError.BlobError.

Record BlobStat := mkBlobStat { stored_bytes : N; compressed : bool }.

Abbreviation BlobFiles := (gmap BlobHash bytes).

(** blake3, and the two directions of [zstd]. *)
Class BlobCodec := {
  hash_bytes : bytes → BlobHash;
  zstd_encode : bytes → option bytes;
  zstd_decode : bytes → option bytes;
}.

Class BlobCodecLaws `{!BlobCodec} : Prop := {
  zstd_roundtrip : ∀ b z, zstd_encode b = Some z → zstd_decode z = Some b;
}.

(** ** The sharded name of a blob *)

(** [root/blobs/aa/bb/hex], below the root. *)
Definition path_for (h : BlobHash) : list string :=
  let hex := to_hex h in
  ["blobs"; String.substring 0 2 hex; String.substring 2 2 hex; hex].

(** ** Operations *)

Section Ops.
Context `{!BlobCodec}.

Definition stat (fs : BlobFiles) (h : BlobHash) : option BlobStat + BlobError :=
  match fs !! h with
  | None => inl None
  | Some [] => inr BlobError.Io
  | Some (flag :: _ as raw) =>
      if bool_decide (flag = FLAG_RAW) then inl (Some (mkBlobStat (N.of_nat (length raw)) false))
      else if bool_decide (flag = FLAG_ZSTD) then inl (Some (mkBlobStat (N.of_nat (length raw)) true))
      else inr (BlobError.UnknownFlag h flag)
  end.

(** The bytes [write_atomic] renames into place. *)
Definition write_atomic (b : bytes) (compress : bool) : option bytes :=
  if compress then cons FLAG_ZSTD <$> zstd_encode b else Some (FLAG_RAW :: b).

Definition put (fs : BlobFiles) (b : bytes) : (BlobFiles * (BlobHash * BlobStat)) + BlobError :=
  let h := hash_bytes b in
  match fs !! h with
  | Some _ =>
      match stat fs h with
      | inl (Some st) => inl (fs, (h, st))
      | inl None => inr BlobError.Io
      | inr e => inr e
      end
  | None =>
      let compress := bool_decide (COMPRESS_MIN_BYTES ≤ length b) in
      match write_atomic b compress with
      | None => inr BlobError.Io
      | Some raw => inl (<[h := raw]> fs, (h, mkBlobStat (N.of_nat (length raw)) compress))
      end
  end.

(** [read_to_end], then [put]. *)
Definition put_stream (fs : BlobFiles) (stream : bytes) := put fs stream.

(** What a blob file says. *)
Definition decode_file (h : BlobHash) (raw : bytes) : bytes + BlobError :=
  match raw with
  | [] => inr (BlobError.Malformed h)
  | flag :: payload =>
      if bool_decide (flag = FLAG_RAW) then inl payload
      else if bool_decide (flag = FLAG_ZSTD) then
        match zstd_decode payload with Some b => inl b | None => inr BlobError.Io end
      else inr (BlobError.UnknownFlag h flag)
  end.

Definition get (fs : BlobFiles) (h : BlobHash) : bytes + BlobError :=
  match fs !! h with
  | None => inr BlobError.Io
  | Some raw => decode_file h raw
  end.

Definition contains (fs : BlobFiles) (h : BlobHash) : bool := bool_decide (is_Some (fs !! h)).

(** [remove_ok] says whether the system lets the file be removed. *)
Definition blob_delete (remove_ok : BlobHash → bool) (fs : BlobFiles) (h : BlobHash)
    : BlobFiles * (unit + BlobError) :=
  match fs !! h with
  | None => (fs, inl ())
  | Some _ => if remove_ok h then (delete h fs, inl ()) else (fs, inr BlobError.Io)
  end.

(** ** Content addressing *)

(** Every file decodes to bytes of the hash it is named after. *)
Definition files_ok (fs : BlobFiles) : Prop :=
  ∀ h raw, fs !! h = Some raw → ∃ b, decode_file h raw = inl b ∧ hash_bytes b = h.

Lemma write_atomic_decodes `{!BlobCodecLaws} (b raw : bytes) (c : bool) (h : BlobHash) :
  write_atomic b c = Some raw → decode_file h raw = inl b.
Proof.
  unfold write_atomic. destruct c.
  - destruct (zstd_encode b) as [z|] eqn:E; [|done]. intros [= <-]. simpl.
    by rewrite (zstd_roundtrip _ _ E).
  - by intros [= <-].
Qed.

(** A decodable file has a status. *)
Lemma decode_stat (fs : BlobFiles) (h : BlobHash) (raw b : bytes) :
  fs !! h = Some raw → decode_file h raw = inl b → ∃ st, stat fs h = inl (Some st).
Proof.
  intros Hr. unfold stat, decode_file. rewrite Hr. destruct raw as [|f p]; [done|].
  repeat case_bool_decide; eauto; done.
Qed.

Lemma put_spec `{!BlobCodecLaws} (fs fs' : BlobFiles) (b : bytes) (h : BlobHash) (st : BlobStat) :
  files_ok fs → put fs b = inl (fs', (h, st)) →
  h = hash_bytes b ∧ files_ok fs' ∧ is_Some (fs' !! h)
  ∧ fs ⊆ fs' ∧ (∀ h', h' ≠ h → fs' !! h' = fs !! h').
Proof.
  intros Hok. unfold put. destruct (fs !! hash_bytes b) as [raw|] eqn:Hf.
  - destruct (stat fs (hash_bytes b)) as [[s|]|]; [|done..]. intros [= <- <- <-].
    split_and!; [done|done|by eexists|done|done].
  - destruct (write_atomic _ _) as [raw|] eqn:Hw; [|done]. intros [= <- <- <-].
    split_and!; [done| |by rewrite lookup_insert_eq| |].
    + intros h' raw'. destruct (decide (h' = hash_bytes b)) as [->|Hne].
      * rewrite lookup_insert_eq. intros [= <-]. exists b. split; [|done].
        by eapply write_atomic_decodes.
      * rewrite lookup_insert_ne by done. apply Hok.
    + by apply insert_subseteq.
    + intros h' Hne. by rewrite lookup_insert_ne.
Qed.

(** On a well-formed store [put] fails only when compression does. *)
Lemma put_total (fs : BlobFiles) (b : bytes) :
  files_ok fs → is_Some (zstd_encode b) →
  ∃ fs' h st, put fs b = inl (fs', (h, st)).
Proof.
  intros Hok [z Hz]. unfold put. destruct (fs !! hash_bytes b) as [raw|] eqn:Hf.
  - destruct (Hok _ _ Hf) as (b' & Hd & _).
    destruct (decode_stat _ _ _ _ Hf Hd) as [st ->]. eauto.
  - unfold write_atomic. rewrite Hz. case_bool_decide; simpl; eauto.
Qed.

(** What was put comes back, unless two contents collide. *)
Lemma put_get `{!BlobCodecLaws} (fs fs' : BlobFiles) (b : bytes) (h : BlobHash) (st : BlobStat) :
  files_ok fs → (∀ b', hash_bytes b' = hash_bytes b → b' = b) →
  put fs b = inl (fs', (h, st)) → get fs' h = inl b.
Proof.
  intros Hok Hcol Hp. destruct (put_spec _ _ _ _ _ Hok Hp) as (-> & Hok' & [raw Hr] & _).
  unfold get. rewrite Hr. destruct (Hok' _ _ Hr) as (b' & Hd & Hh). by rewrite Hd, (Hcol _ Hh).
Qed.

Lemma blob_delete_ok (remove_ok : BlobHash → bool) (fs : BlobFiles) (h : BlobHash) :
  files_ok fs → files_ok (blob_delete remove_ok fs h).1.
Proof.
  intros Hok. unfold blob_delete. repeat case_match; try done. simpl.
  intros h' raw [_ Hr]%lookup_delete_Some. by apply Hok.
Qed.

Lemma blob_delete_other (remove_ok : BlobHash → bool) (fs : BlobFiles) (h h' : BlobHash) :
  h' ≠ h → (blob_delete remove_ok fs h).1 !! h' = fs !! h'.
Proof. intros Hne. unfold blob_delete. repeat case_match; simpl; by rewrite ?lookup_delete_ne. Qed.

End Ops.

End Blobs.
