(* ===== verification/LargeObjects.v ===== *)
(** * Large objects

    [caibx.rs] and [large_objects.rs] of [shit-store]: the index that cuts a
    large file into chunks, its validation and encoding, the chunks a partial
    read needs, and the two tables in which the store keeps the index and which
    chunks it has. The [postcard] codec is an interface. [u64] additions wrap,
    as the release profile compiles them. *)

From S2P Require Import Prelude Paths Base Events Tables.

(** ** caibx.rs *)

Module Caibx.

Record ChunkRef := mkChunk { offset : N; length : N; hash : BlobHash }.

#[export] Instance ChunkRef_eq_dec : EqDecision ChunkRef.
Proof. solve_decision. Defined.

Definition chunk_end (c : ChunkRef) : N := (offset c + length c) mod 2 ^ 64.

Definition MAGIC : list N := [0x73; 0x68; 0x69; 0x74]%N.
Definition VERSION : N := 1.

Record ChunkIndex := mkIndex {
  magic : list N; version : N; parent_hash : BlobHash; total_size : N; chunks : list ChunkRef;
}.

Module CaibxError.
Inductive CaibxError :=
  | Encode
  | BadMagic (m : list N)
  | BadVersion (actual supported : N)
  | NonContiguous (idx : nat) (prev_end next_offset : N)
  | SizeMismatch (chunked total : N)
  | EmptyIndex (total : N).
End CaibxError.
Abbreviation CaibxError := CaibxError.CaibxError.

(** The loop of [validate]: where the chunks end. *)
Fixpoint check_chunks (i : nat) (cursor : N) (cs : list ChunkRef) : N + CaibxError :=
  match cs with
  | [] => inl cursor
  | c :: cs' =>
      if negb (bool_decide (offset c = cursor)) then inr (CaibxError.NonContiguous i cursor (offset c))
      else check_chunks (S i) (chunk_end c) cs'
  end.

Definition validate (idx : ChunkIndex) : unit + CaibxError :=
  if negb (bool_decide (magic idx = MAGIC)) then inr (CaibxError.BadMagic (magic idx))
  else if negb (bool_decide (version idx = VERSION)) then inr (CaibxError.BadVersion (version idx) VERSION)
  else match chunks idx with
       | [] => if negb (bool_decide (total_size idx = 0%N)) then inr (CaibxError.EmptyIndex (total_size idx)) else inl ()
       | cs =>
           match check_chunks 0 0 cs with
           | inr e => inr e
           | inl cursor =>
               if negb (bool_decide (cursor = total_size idx)) then inr (CaibxError.SizeMismatch cursor (total_size idx))
               else inl ()
           end
       end.

Definition validated (idx : ChunkIndex) : ChunkIndex + CaibxError :=
  match validate idx with inl () => inl idx | inr e => inr e end.

Definition with_total_size (parent : BlobHash) (total : N) (cs : list ChunkRef) : ChunkIndex + CaibxError :=
  validated (mkIndex MAGIC VERSION parent total cs).

Definition sum_lengths (cs : list ChunkRef) : N := foldl (λ n c, (n + length c) mod 2 ^ 64)%N 0%N cs.

Definition new (parent : BlobHash) (cs : list ChunkRef) : ChunkIndex + CaibxError :=
  with_total_size parent (sum_lengths cs) cs.

(** [postcard] on [ChunkIndex]. *)
Class CaibxCodec (B : Type) := {
  to_allocvec : ChunkIndex → option B;
  from_bytes : B → option ChunkIndex;
}.

Class CaibxCodecLaws (B : Type) `{!CaibxCodec B} : Prop := {
  from_to_bytes : ∀ idx b, to_allocvec idx = Some b → from_bytes b = Some idx;
}.

Definition encode {B} `{!CaibxCodec B} (idx : ChunkIndex) : B + CaibxError :=
  match to_allocvec idx with Some b => inl b | None => inr CaibxError.Encode end.

Definition decode {B} `{!CaibxCodec B} (b : B) : ChunkIndex + CaibxError :=
  match from_bytes b with Some idx => validated idx | None => inr CaibxError.Encode end.

(** The scan of [chunks_for_range], up to its [break]. *)
Fixpoint scan_range (i first last : nat) (start end_ : N) (cs : list ChunkRef) : nat * nat :=
  match cs with
  | [] => (first, last)
  | c :: cs' =>
      if bool_decide (chunk_end c ≤ start)%N then scan_range (S i) first last start end_ cs'
      else if bool_decide (end_ ≤ offset c)%N then (first, last)
      else scan_range (S i) (first `min` i) (last `max` i) start end_ cs'
  end.

Definition chunks_for_range (idx : ChunkIndex) (start len : N) : nat * nat :=
  let cs := chunks idx in
  if bool_decide (len = 0%N) || bool_decide (cs = []) then (0, 0)
  else
    let '(first, last) := scan_range 0 (List.length cs) 0 start ((start + len) mod 2 ^ 64) cs in
    if bool_decide (first = List.length cs) then (0, 0) else (first, S last).

(** ** Valid indexes *)

(** The chunks lie one after the other from [o] to [e], and no end wraps. *)
Fixpoint tiles (o : N) (cs : list ChunkRef) (e : N) : Prop :=
  match cs with
  | [] => o = e
  | c :: cs' => offset c = o ∧ (o + length c < 2 ^ 64)%N ∧ tiles (o + length c) cs' e
  end.

Definition lengths (cs : list ChunkRef) : N := foldr (λ c n, length c + n)%N 0%N cs.

Lemma tiles_lengths cs : ∀ o e, tiles o cs e → e = (o + lengths cs)%N.
Proof.
  induction cs as [|c cs IH]; intros o e; simpl; [intros <-; lia|]. intros (_ & _ & H). apply IH in H. lia.
Qed.

Lemma tiles_app cs1 cs2 : ∀ o e, tiles o (cs1 ++ cs2) e ↔ ∃ m, tiles o cs1 m ∧ tiles m cs2 e.
Proof. induction cs1 as [|c cs1 IH]; intros o e; simpl; [naive_solver|]. rewrite IH. naive_solver. Qed.

Lemma check_chunks_tiles cs : ∀ i o, (o + lengths cs < 2 ^ 64)%N →
  (∀ e, check_chunks i o cs = inl e ↔ tiles o cs e).
Proof.
  induction cs as [|c cs IH]; intros i o Hs e; simpl; [split; [by intros [= ->]|by intros ->]|]. simpl in Hs.
  case_bool_decide as Ho; simpl; [|split; [done|by intros [? _]]].
  unfold chunk_end. rewrite Ho, N.mod_small by lia. rewrite IH by lia. split; [|by intros (_ & _ & ?)].
  intros Ht. split_and!; [done|lia|done].
Qed.

(** An index is accepted exactly when it is of this format and its chunks lie one
    after the other from the start of the file to its end. *)
Theorem validate_exact (idx : ChunkIndex) :
  (lengths (chunks idx) < 2 ^ 64)%N →
  validate idx = inl () ↔ magic idx = MAGIC ∧ version idx = VERSION ∧ tiles 0 (chunks idx) (total_size idx).
Proof.
  intros Hs. unfold validate. case_bool_decide as Hm; cbn [negb]; [|naive_solver].
  case_bool_decide as Hv; cbn [negb]; [|naive_solver].
  destruct (chunks idx) as [|c cs] eqn:Hc.
  { case_bool_decide as Ht; cbn [negb]; [naive_solver|]. split; [done|]. intros (_ & _ & H). congruence. }
  pose proof (check_chunks_tiles (c :: cs) 0 0 ltac:(lia)) as Hk.
  destruct (check_chunks 0 0 (c :: cs)) as [cur|e].
  - pose proof (proj1 (Hk cur) eq_refl) as Ht. case_bool_decide as He; cbn [negb]; [rewrite He in Ht; split; [by intros _|done]|].
    split; [done|]. intros (_ & _ & Ht'). apply Hk in Ht'. congruence.
  - split; [done|]. intros (_ & _ & Ht). apply Hk in Ht. done.
Qed.

Lemma validate_format (idx : ChunkIndex) :
  validate idx = inl () → idx = mkIndex MAGIC VERSION (parent_hash idx) (total_size idx) (chunks idx).
Proof.
  unfold validate. case_bool_decide as Hm; [|done]. case_bool_decide as Hv; [|done]. intros _.
  destruct idx. cbn in *. by subst.
Qed.

Lemma new_total (parent : BlobHash) (cs : list ChunkRef) : (lengths cs < 2 ^ 64)%N → sum_lengths cs = lengths cs.
Proof.
  unfold sum_lengths. intros Hl.
  assert (∀ n, (n + lengths cs < 2 ^ 64)%N → foldl (λ n c, (n + length c) mod 2 ^ 64)%N n cs = (n + lengths cs)%N) as Hg.
  { clear Hl. induction cs as [|c cs IH]; intros n Hn; simpl in *; [lia|]. rewrite N.mod_small by lia. rewrite IH; lia. }
  rewrite Hg; lia.
Qed.

(** ** Round trip *)

(** What was written comes back, and whatever is read is an index that passes
    validation. *)
Theorem decode_encode {B} `{!CaibxCodec B} `{!CaibxCodecLaws B} (idx : ChunkIndex) (b : B) :
  validate idx = inl () → encode idx = inl b → decode b = inl idx.
Proof.
  unfold encode, decode, validated. destruct (to_allocvec idx) as [b'|] eqn:He; [|done]. intros Hv [= <-].
  by rewrite (from_to_bytes _ _ He), Hv.
Qed.

Theorem decode_valid {B} `{!CaibxCodec B} (b : B) (idx : ChunkIndex) : decode b = inl idx → validate idx = inl ().
Proof.
  unfold decode, validated. destruct (from_bytes b) as [i|]; [|done]. destruct (validate i) as [[]|] eqn:Hv; [|done].
  by intros [= <-].
Qed.

(** ** Partial reads *)

(** The chunks before the range, and those that meet it. *)
Fixpoint before (start : N) (cs : list ChunkRef) : nat :=
  match cs with
  | [] => 0
  | c :: cs' => if bool_decide (chunk_end c ≤ start)%N then S (before start cs') else 0
  end.

Fixpoint meeting (end_ : N) (cs : list ChunkRef) : nat :=
  match cs with
  | [] => 0
  | c :: cs' => if bool_decide (end_ ≤ offset c)%N then 0 else S (meeting end_ cs')
  end.

Lemma tiles_end c o cs e : tiles o (c :: cs) e → chunk_end c = (o + length c)%N.
Proof. intros (Ho & Hl & _). unfold chunk_end. rewrite Ho. by apply N.mod_small. Qed.

(** Inside the range, and past the chunks before it. *)
Lemma scan_meeting start end_ cs : ∀ o e i first last,
  tiles o cs e → (start < o ∨ ∃ c cs', cs = c :: cs' ∧ start < o + length c ∨ cs = [])%N → last ≤ i →
  scan_range i first last start end_ cs
  = match meeting end_ cs with O => (first, last) | S n => (first `min` i, i + n) end.
Proof.
  induction cs as [|c cs IH]; intros o e i first last Ht Hs Hl; [done|]. pose proof (tiles_end _ _ _ _ Ht) as He.
  cbn [scan_range meeting]. destruct Ht as (Ho & Hw & Ht).
  rewrite bool_decide_eq_false_2 by (rewrite He; destruct Hs as [?|(? & ? & [[[= <- <-] ?]|?])]; (lia || done)).
  case_bool_decide as Hend; [done|].
  rewrite (IH (o + length c)%N e) by (done || lia || (left; destruct Hs as [?|(? & ? & [[[= <- <-] ?]|?])]; (lia || done))).
  destruct (meeting end_ cs) as [|n]; [f_equal; lia|]. f_equal; lia.
Qed.

Lemma scan_before start end_ cs : ∀ o e i first last,
  tiles o cs e → last ≤ i →
  scan_range i first last start end_ cs
  = match meeting end_ (drop (before start cs) cs) with
    | O => (first, last)
    | S n => (first `min` (i + before start cs), i + before start cs + n)
    end.
Proof.
  induction cs as [|c cs IH]; intros o e i first last Ht Hl; [done|]. pose proof (tiles_end _ _ _ _ Ht) as He.
  cbn [before]. case_bool_decide as Hb.
  - cbn [scan_range]. rewrite bool_decide_eq_true_2 by done. destruct Ht as (_ & _ & Ht).
    rewrite (IH _ _ _ _ _ Ht) by lia. cbn [drop]. by rewrite <- !Nat.add_succ_comm.
  - rewrite (scan_meeting start end_ (c :: cs) o e); [by rewrite Nat.add_0_r|done| |done].
    right. exists c, cs. left. split; [done|]. rewrite He in Hb. lia.
Qed.

(** The bytes of a chunk of [b]. *)
Definition slice (b : bytes) (c : ChunkRef) : bytes := take (N.to_nat (length c)) (drop (N.to_nat (offset c)) b).

Definition slices (b : bytes) (cs : list ChunkRef) : bytes := concat (slice b <$> cs).

Lemma tiles_slices b cs : ∀ o e,
  tiles o cs e → slices b cs = take (N.to_nat (lengths cs)) (drop (N.to_nat o) b).
Proof.
  induction cs as [|c cs IH]; intros o e; [done|]. intros (Ho & _ & Ht). unfold slices in *. cbn [fmap list_fmap concat lengths foldr].
  rewrite (IH _ _ Ht). unfold slice. rewrite Ho. change (foldr _ 0%N cs) with (lengths cs).
  rewrite !N2Nat.inj_add, <- take_take_drop, drop_drop. reflexivity.
Qed.

Lemma before_tiles start cs : ∀ o e,
  tiles o cs e → (o ≤ start)%N →
  ∃ m, tiles o (take (before start cs) cs) m ∧ tiles m (drop (before start cs) cs) e ∧ (m ≤ start)%N.
Proof.
  induction cs as [|c cs IH]; intros o e Ht Ho; [by exists o|]. pose proof (tiles_end _ _ _ _ Ht) as He.
  cbn [before]. case_bool_decide as Hb; [|by exists o]. destruct Ht as (Hoc & Hw & Ht).
  destruct (IH _ _ Ht ltac:(lia)) as (m & H1 & H2 & H3). exists m. by split_and!.
Qed.

Lemma meeting_tiles end_ cs : ∀ m e,
  tiles m cs e → (end_ ≤ e)%N →
  ∃ m', tiles m (take (meeting end_ cs) cs) m' ∧ (end_ ≤ m')%N.
Proof.
  induction cs as [|c cs IH]; intros m e Ht He; [simpl in Ht; subst; by exists e|].
  cbn [meeting]. destruct Ht as (Hoc & Hw & Ht). case_bool_decide as Hb; [exists m; split; [done|lia]|].
  destruct (IH _ _ Ht He) as (m' & H1 & H2). exists m'. by split_and!.
Qed.

Lemma length_before start cs : before start cs ≤ List.length cs.
Proof. induction cs as [|c cs IH]; simpl; [done|]. case_bool_decide; lia. Qed.

Lemma length_meeting end_ cs : meeting end_ cs ≤ List.length cs.
Proof. induction cs as [|c cs IH]; simpl; [done|]. case_bool_decide; lia. Qed.

(** A partial read needs no other chunks than those named: cut out of the bytes
    of these chunks, the range is the range of the file. *)
Theorem range_read_exact (idx : ChunkIndex) (b : bytes) (start len : N) :
  (lengths (chunks idx) < 2 ^ 64)%N → validate idx = inl () → N.of_nat (List.length b) = total_size idx →
  (start + len ≤ total_size idx)%N →
  let '(f, l) := chunks_for_range idx start len in
  f ≤ l ≤ List.length (chunks idx)
  ∧ take (N.to_nat len) (drop (N.to_nat start) b)
    = take (N.to_nat len) (drop (N.to_nat (start - lengths (take f (chunks idx))))
        (slices b (drop f (take l (chunks idx))))).
Proof.
  intros Hs (_ & _ & Ht)%validate_exact Hb Hr; [|done]. pose proof (tiles_lengths _ _ _ Ht) as Htot.
  unfold chunks_for_range. set (cs := chunks idx) in *.
  case_bool_decide as Hl; cbn [orb]; [subst len; split; [lia|done]|].
  case_bool_decide as Hne; [rewrite Hne in Htot; simpl in Htot; lia|].
  rewrite N.mod_small by lia. rewrite (scan_before start (start + len) cs 0 (total_size idx) 0 _ 0 Ht) by lia.
  destruct (before_tiles start cs 0 _ Ht ltac:(lia)) as (m & T1 & T2 & Hm).
  destruct (meeting_tiles (start + len) (drop (before start cs) cs) m _ T2 Hr) as (m' & T3 & Hm').
  pose proof (length_before start cs) as Hlb. set (p := before start cs) in *.
  destruct (meeting (start + len) (drop p cs)) as [|n] eqn:Hn; [simpl in T3; lia|].
  pose proof (length_meeting (start + len) (drop p cs)) as Hlm. rewrite Hn, length_drop in Hlm.
  rewrite bool_decide_eq_false_2 by lia. rewrite Nat.min_r, Nat.add_0_l by lia. split; [lia|].
  apply tiles_lengths in T1. rewrite N.add_0_l in T1. rewrite <- T1.
  replace (drop p (take (S (p + n)) cs)) with (take (S n) (drop p cs)) by (rewrite take_drop_commute; f_equal; f_equal; lia).
  rewrite (tiles_slices b _ _ _ T3). apply tiles_lengths in T3.
  rewrite skipn_firstn_comm, drop_drop, take_take.
  replace (N.to_nat m + N.to_nat (start - m)) with (N.to_nat start) by lia. f_equal. lia.
Qed.

End Caibx.

(** ** large_objects.rs *)

Module LargeObjects.
Import Caibx.

Module LargeObjectError.
Inductive LargeObjectError :=
  | ChunkNotFound (h : BlobHash) (idx : N)
  | NotFound (h : BlobHash)
  (** A stored index that does not pass validation. *)
  | Conversion (e : CaibxError).
End LargeObjectError.
Abbreviation LargeObjectError := LargeObjectError.LargeObjectError.

Record LargeObjectStat := mkStat {
  st_hash : BlobHash; st_total_size : N; st_chunk_count : N; st_materialized : bool; st_created_logical : N;
}.

Record ChunkStat := mkChunkStat {
  cs_idx : N; cs_offset : N; cs_length : N; cs_hash : BlobHash; cs_materialized : bool;
}.

Section Ops.
Context {P : Type}.
Implicit Types db : Db P.

(** [i64::from(b)]. *)
Definition flag_bit (b : bool) : Z := if b then 1 else 0.

(** [INSERT .. ON CONFLICT DO NOTHING] of the object. *)
Definition put_object (idx : ChunkIndex) (created_logical : N) (materialized_chunks : list N) db : Db P :=
  let chunk_count := (N.of_nat (List.length (chunks idx)) mod 2 ^ 32)%N in
  let all_materialized :=
    bool_decide (N.of_nat (List.length materialized_chunks) mod 2 ^ 32 = chunk_count)%N && bool_decide (0 < chunk_count)%N in
  match large_objects db !! parent_hash idx with
  | Some _ => db
  | None =>
      set_large_objects (<[parent_hash idx := mkLargeObjectRow (to_i64 (total_size idx)) (Z.of_N chunk_count)
        (flag_bit all_materialized) (to_i64 created_logical)]> (large_objects db)) db
  end.

(** The same of one chunk. *)
Definition put_chunk (h : BlobHash) (materialized_chunks : list N) (i : nat) (c : ChunkRef) db : Db P :=
  let idx := (N.of_nat i mod 2 ^ 32)%N in
  match Tables.chunks db !! (h, idx) with
  | Some _ => db
  | None =>
      set_chunks (<[(h, idx) := mkChunkRow (to_i64 (offset c)) (Z.of_N (length c)) (hash c)
        (flag_bit (bool_decide (idx ∈ materialized_chunks)))]> (Tables.chunks db)) db
  end.

(** The statements of [insert_with_conn], each committed on its own. *)
Definition insert_statements (idx : ChunkIndex) (created_logical : N) (materialized_chunks : list N)
    : list (Db P → Db P) :=
  put_object idx created_logical materialized_chunks
  :: imap (put_chunk (parent_hash idx) materialized_chunks) (chunks idx).

Definition execute_all db (l : list (Db P → Db P)) : Db P := foldl (λ db f, f db) db l.

Definition insert db (idx : ChunkIndex) (created_logical : N) (materialized_chunks : list N) : Db P :=
  execute_all db (insert_statements idx created_logical materialized_chunks).

(** The chunks of an object, [ORDER BY idx ASC]. *)
Definition chunk_rows db (h : BlobHash) : list (N * ChunkRow) :=
  sort_by (λ a b, bool_decide (a.1 ≤ b.1)%N)
    (omap (λ kr : BlobHash * N * ChunkRow, if bool_decide (kr.1.1 = h) then Some (kr.1.2, kr.2) else None)
       (map_to_list (Tables.chunks db))).

Definition row_to_ref (r : ChunkRow) : ChunkRef := mkChunk (of_i64 (ck_offset r)) (i64_as_u32 (ck_length r)) (ck_hash r).

Definition lookup db (h : BlobHash) : option ChunkIndex + LargeObjectError :=
  match large_objects db !! h with
  | None => inl None
  | Some row =>
      match with_total_size h (of_i64 (lo_total_size row)) ((λ ir, row_to_ref ir.2) <$> chunk_rows db h) with
      | inl idx => inl (Some idx)
      | inr e => inr (LargeObjectError.Conversion e)
      end
  end.

Definition stat db (h : BlobHash) : option LargeObjectStat :=
  (λ row, mkStat h (of_i64 (lo_total_size row)) (i64_as_u32 (lo_chunk_count row))
     (negb (bool_decide (lo_materialized row = 0%Z))) (of_i64 (lo_created_logical row)))
  <$> large_objects db !! h.

Definition is_unmaterialized (ir : N * ChunkRow) : bool := bool_decide (ck_materialized ir.2 = 0%Z).

Definition mark_chunk_materialized db (h : BlobHash) (chunk_idx : N) : Db P + LargeObjectError :=
  match Tables.chunks db !! (h, chunk_idx) with
  | None => inr (LargeObjectError.ChunkNotFound h chunk_idx)
  | Some r =>
      let db := set_chunks (<[(h, chunk_idx) := mkChunkRow (ck_offset r) (ck_length r) (ck_hash r) 1]> (Tables.chunks db)) db in
      if bool_decide (List.filter is_unmaterialized (chunk_rows db h) = []) then
        inl (set_large_objects (alter (λ row, mkLargeObjectRow (lo_total_size row) (lo_chunk_count row) 1
               (lo_created_logical row)) h (large_objects db)) db)
      else inl db
  end.

Definition unmaterialized_chunks db (h : BlobHash) : list ChunkStat :=
  (λ ir, let c := row_to_ref ir.2 in mkChunkStat (i64_as_u32 (Z.of_N ir.1)) (offset c) (length c) (hash c) false)
  <$> List.filter is_unmaterialized (chunk_rows db h).

(** ** The rows of an object *)

Lemma elem_of_chunk_rows db h i r : (i, r) ∈ chunk_rows db h ↔ Tables.chunks db !! (h, i) = Some r.
Proof.
  unfold chunk_rows. rewrite elem_of_sort_by, list_elem_of_omap. split.
  - intros ([[h' i'] r'] & Hin & Hx). cbn in Hx. case_bool_decide; [|done]. injection Hx as -> ->. subst h'.
    by apply elem_of_map_to_list in Hin.
  - intros Hl. exists ((h, i), r). split; [by apply elem_of_map_to_list|]. cbn. by rewrite bool_decide_eq_true_2.
Qed.

Lemma chunk_list_nodup db h :
  NoDup (omap (λ kr : BlobHash * N * ChunkRow, if bool_decide (kr.1.1 = h) then Some (kr.1.2, kr.2) else None)
    (map_to_list (Tables.chunks db))).
Proof.
  pose proof (NoDup_map_to_list (Tables.chunks db)) as Hn. induction Hn as [|[[h' i] r] l Hx Hn IH]; [constructor|].
  cbn. case_bool_decide as He; [|done]. constructor; [|done]. subst h'.
  rewrite list_elem_of_omap. intros ([[h' i'] r'] & Hin & Hx'). cbn in Hx'. case_bool_decide; [|done].
  injection Hx' as -> ->. by subst.
Qed.

(** The rows in the order of their numbers are the rows. *)
Lemma chunk_rows_eq db h (l : list (N * ChunkRow)) :
  (∀ i r, Tables.chunks db !! (h, i) = Some r ↔ (i, r) ∈ l) → NoDup l →
  sorted_by (λ a b : N * ChunkRow, bool_decide (a.1 ≤ b.1)%N) l → chunk_rows db h = l.
Proof.
  intros Hl Hn Hs. rewrite <- (sort_by_id _ l Hs) at 1. unfold chunk_rows. apply sort_by_perm_eq.
  - intros a b. destruct (bool_decide_reflect (a.1 ≤ b.1)%N); [by left|]. right. apply bool_decide_eq_true_2. lia.
  - intros a b c. rewrite !bool_decide_eq_true. lia.
  - intros [i r] [j s] H1 H2 H3 H4. pose proof (elem_of_chunk_rows db h i r) as E1.
    pose proof (elem_of_chunk_rows db h j s) as E2. unfold chunk_rows in E1, E2. rewrite elem_of_sort_by in E1, E2.
    apply bool_decide_eq_true in H3, H4. cbn in *. assert (i = j) as -> by lia. f_equal.
    apply E1 in H1. apply E2 in H2. congruence.
  - apply NoDup_Permutation; [apply chunk_list_nodup|done|]. intros [i r]. rewrite <- Hl, <- elem_of_chunk_rows.
    unfold chunk_rows. by rewrite elem_of_sort_by.
Qed.

(** ** What an insertion leaves *)

Definition row_of (mats : list N) (i : N) (c : ChunkRef) : ChunkRow :=
  mkChunkRow (to_i64 (offset c)) (Z.of_N (length c)) (hash c) (flag_bit (bool_decide (i ∈ mats))).

Lemma put_chunks_spec h mats cs : ∀ (k : nat) db,
  (N.of_nat (k + List.length cs) ≤ 2 ^ 32)%N →
  let db' := execute_all db (imap (λ i, put_chunk h mats (k + i)) cs) in
  large_objects db' = large_objects db
  ∧ ∀ h' i, Tables.chunks db' !! (h', i) =
      match Tables.chunks db !! (h', i) with
      | Some r => Some r
      | None => if bool_decide (h' = h ∧ (N.of_nat k ≤ i)%N) then row_of mats i <$> cs !! (N.to_nat i - k) else None
      end.
Proof.
  induction cs as [|c cs IH]; intros k db Hk; cbn zeta.
  { split; [done|]. intros h' i. cbn. destruct (Tables.chunks db !! (h', i)); [done|]. by case_bool_decide. }
  rewrite imap_cons. cbn [execute_all foldl].
  assert (imap ((λ i, put_chunk h mats (k + i)) ∘ S) cs = imap (λ i, put_chunk h mats (S k + i)) cs) as ->.
  { apply imap_ext. intros i x _. cbn. by rewrite Nat.add_succ_r. }
  destruct (IH (S k) (put_chunk h mats (k + 0) c db)) as [Hlo Hch]; [simpl in *; lia|]. cbn zeta in Hlo, Hch.
  change (foldl (λ db f, f db) ?d ?l) with (execute_all d l). rewrite Nat.add_0_r in *.
  split; [rewrite Hlo; unfold put_chunk; by case_match|]. intros h' i. rewrite Hch. clear Hch Hlo.
  assert (N.of_nat k mod 2 ^ 32 = N.of_nat k)%N as Hmod by (apply N.mod_small; simpl in Hk; lia).
  unfold put_chunk. rewrite Hmod. destruct (decide (h' = h ∧ i = N.of_nat k)) as [[-> ->]|Hne].
  - destruct (Tables.chunks db !! (h, N.of_nat k)) as [r|] eqn:Hr; [by rewrite Hr|]. cbn. rewrite lookup_insert_eq.
    rewrite (bool_decide_eq_true_2 (h = h ∧ _)) by (split; [done|lia]). by replace (N.to_nat (N.of_nat k) - k) with 0 by lia.
  - assert (Tables.chunks (match Tables.chunks db !! (h, N.of_nat k) with
      | Some _ => db
      | None => set_chunks (<[(h, N.of_nat k) := mkChunkRow (to_i64 (offset c)) (Z.of_N (length c)) (hash c)
          (flag_bit (bool_decide (N.of_nat k ∈ mats)))]> (Tables.chunks db)) db end) !! (h', i) = Tables.chunks db !! (h', i)) as ->.
    { case_match; [done|]. cbn. rewrite lookup_insert_ne; [done|]. intros Heq. injection Heq as E1 E2. by apply Hne. }
    destruct (Tables.chunks db !! (h', i)); [done|].
    case_bool_decide as H1; case_bool_decide as H2; try done.
    + destruct H1 as [-> H1]. by replace (N.to_nat i - k) with (S (N.to_nat i - S k)) by lia.
    + exfalso. apply H2. destruct H1. split; [done|lia].
    + exfalso. destruct H2 as [-> H2]. assert (i ≠ N.of_nat k) by naive_solver. apply H1. split; [done|lia].
Qed.

(** The object is new, and nothing is left of another of its hash. *)
Definition absent db (h : BlobHash) : Prop := large_objects db !! h = None ∧ ∀ i, Tables.chunks db !! (h, i) = None.

Lemma insert_lookups db idx created mats :
  (N.of_nat (List.length (chunks idx)) ≤ 2 ^ 32)%N →
  let db' := insert db idx created mats in
  large_objects db' = large_objects (put_object idx created mats db)
  ∧ ∀ h i, Tables.chunks db' !! (h, i) =
      match Tables.chunks db !! (h, i) with
      | Some r => Some r
      | None => if bool_decide (h = parent_hash idx) then row_of mats i <$> chunks idx !! N.to_nat i else None
      end.
Proof.
  intros Hn. cbn zeta. unfold insert, insert_statements. cbn [execute_all foldl].
  change (foldl (λ db f, f db) ?d ?l) with (execute_all d l).
  destruct (put_chunks_spec (parent_hash idx) mats (chunks idx) 0 (put_object idx created mats db) ltac:(simpl; lia)) as [H1 H2].
  split; [exact H1|]. intros h i. etransitivity; [apply H2|].
  assert (Tables.chunks (put_object idx created mats db) = Tables.chunks db) as -> by (unfold put_object; by case_match).
  destruct (Tables.chunks db !! (h, i)); [done|]. rewrite Nat.sub_0_r.
  case_bool_decide as A; case_bool_decide as B; (done || (exfalso; destruct A; (done || lia)) || (exfalso; apply A; split; [done|lia])).
Qed.

(** The rows of a list of chunks, numbered from [k]. *)
Definition numbered (mats : list N) (k : nat) (cs : list ChunkRef) : list (N * ChunkRow) :=
  imap (λ i c, (N.of_nat (k + i), row_of mats (N.of_nat (k + i)) c)) cs.

Lemma numbered_cons mats k c cs :
  numbered mats k (c :: cs) = (N.of_nat k, row_of mats (N.of_nat k) c) :: numbered mats (S k) cs.
Proof.
  unfold numbered. rewrite imap_cons, Nat.add_0_r. f_equal. apply imap_ext. intros i x _. cbn. by rewrite Nat.add_succ_r.
Qed.

Lemma elem_of_numbered mats k cs i r :
  (i, r) ∈ numbered mats k cs ↔ (N.of_nat k ≤ i)%N ∧ row_of mats i <$> cs !! (N.to_nat i - k) = Some r.
Proof.
  unfold numbered. rewrite list_elem_of_lookup. setoid_rewrite list_lookup_imap_Some. split.
  - intros (j & c & Hc & [= -> ->]). split; [lia|]. replace (N.to_nat (N.of_nat (k + j)) - k) with j by lia. by rewrite Hc.
  - intros [Hk Hr]. apply fmap_Some in Hr as (c & Hc & ->). exists (N.to_nat i - k), c. split; [done|].
    by replace (N.of_nat (k + (N.to_nat i - k))) with i by lia.
Qed.

Lemma numbered_sorted mats cs : ∀ k,
  NoDup (numbered mats k cs) ∧ sorted_by (λ a b : N * ChunkRow, bool_decide (a.1 ≤ b.1)%N) (numbered mats k cs).
Proof.
  induction cs as [|c cs IH]; intros k; [split; constructor|]. rewrite numbered_cons. destruct (IH (S k)) as [H1 H2].
  assert (∀ i r, (i, r) ∈ numbered mats (S k) cs → (N.of_nat (S k) ≤ i)%N) as Hge by (by intros i r [? _]%elem_of_numbered).
  split; constructor; try done.
  - intros Hin%Hge. lia.
  - rewrite Forall_forall. intros [i r] Hi%Hge. apply bool_decide_eq_true_2. cbn. lia.
Qed.

Definition chunk_fits (c : ChunkRef) : Prop := u64_fits (offset c) ∧ (length c < 2 ^ 32)%N.

Lemma row_to_ref_of mats i c : chunk_fits c → row_to_ref (row_of mats i c) = c.
Proof.
  intros [Ho Hl]. destruct c as [o l h]. unfold row_to_ref, row_of, i64_as_u32. cbn in *.
  rewrite of_to_i64 by done. f_equal. rewrite Z.mod_small by lia. lia.
Qed.

(** What was stored is found: an index of an object not seen before comes back
    as it was. *)
Theorem insert_lookup db (idx : ChunkIndex) created mats :
  absent db (parent_hash idx) → validate idx = inl () → u64_fits (total_size idx) → Forall chunk_fits (chunks idx) →
  (N.of_nat (List.length (chunks idx)) ≤ 2 ^ 32)%N →
  lookup (insert db idx created mats) (parent_hash idx) = inl (Some idx).
Proof.
  intros [Hlo Hch] Hv Ht Hf Hn. destruct (insert_lookups db idx created mats Hn) as [Elo Ech]. unfold lookup.
  rewrite Elo. unfold put_object. rewrite Hlo. cbn [large_objects set_large_objects]. rewrite lookup_insert_eq.
  destruct (numbered_sorted mats (chunks idx) 0) as [N1 N2].
  rewrite (chunk_rows_eq _ _ (numbered mats 0 (chunks idx))); [|intros i r|done|done].
  - cbn [lo_total_size]. rewrite of_to_i64 by done.
    assert ((λ ir : N * ChunkRow, row_to_ref ir.2) <$> numbered mats 0 (chunks idx) = chunks idx) as ->.
    { unfold numbered. rewrite fmap_imap. apply list_eq. intros i. rewrite list_lookup_imap. cbn.
      destruct (chunks idx !! i) as [c|] eqn:Hc; [|done]. cbn. f_equal. apply row_to_ref_of.
      rewrite Forall_forall in Hf. apply Hf. by eapply list_elem_of_lookup_2. }
    unfold with_total_size. rewrite <- (validate_format idx Hv). unfold validated. by rewrite Hv.
  - rewrite Ech, Hch, bool_decide_eq_true_2 by done. rewrite elem_of_numbered, Nat.sub_0_r. split; [intros ?; split; [lia|done]|by intros [_ ?]].
Qed.

(** ** The flag of an object *)

Inductive LoOp :=
  | Insert (idx : ChunkIndex) (created_logical : N) (materialized_chunks : list N)
  | Mark (h : BlobHash) (chunk_idx : N).

Definition lo_step db (op : LoOp) : Db P :=
  match op with
  | Insert idx created mats => insert db idx created mats
  | Mark h i => match mark_chunk_materialized db h i with inl db' => db' | inr _ => db end
  end.

Section Runs.
(** How many chunks each object is cut into. *)
Context (cut : BlobHash → nat).

(** The chunks said to be there are chunks of the object, each named once. *)
Definition lo_ok (op : LoOp) : Prop :=
  match op with
  | Insert idx _ mats =>
      List.length (chunks idx) = cut (parent_hash idx) ∧ (N.of_nat (cut (parent_hash idx)) < 2 ^ 32)%N
      ∧ NoDup mats ∧ ∀ i, i ∈ mats → (i < N.of_nat (cut (parent_hash idx)))%N
  | Mark _ _ => True
  end.

(** An object has all its chunks, and its flag is set exactly when they are all
    there. *)
Record lo_inv db : Prop := {
  li_chunks h i : is_Some (Tables.chunks db !! (h, i)) ↔
    is_Some (large_objects db !! h) ∧ (i < N.of_nat (cut h))%N;
  li_flag h row : large_objects db !! h = Some row →
    lo_materialized row ≠ 0%Z ↔ 0 < cut h ∧ ∀ i r, Tables.chunks db !! (h, i) = Some r → ck_materialized r ≠ 0%Z;
}.

Definition below (n : nat) : list N := N.of_nat <$> List.seq 0 n.

Lemma elem_of_below n i : i ∈ below n ↔ (i < N.of_nat n)%N.
Proof.
  unfold below. rewrite list_elem_of_fmap. setoid_rewrite elem_of_seq. split; [intros (j & -> & ?); lia|].
  intros Hi. exists (N.to_nat i). split; lia.
Qed.

(** Named once each, they are all of the chunks when there are as many. *)
Lemma all_named (mats : list N) (n : nat) :
  NoDup mats → (∀ i, i ∈ mats → (i < N.of_nat n)%N) →
  List.length mats ≤ n ∧ (List.length mats = n ↔ ∀ i, (i < N.of_nat n)%N → i ∈ mats).
Proof.
  intros Hn Hm. assert (List.length (below n) = n) as Hl by (unfold below; by rewrite length_fmap, length_seq).
  assert (NoDup (below n)) as Hna by (apply (NoDup_fmap_2 _), NoDup_seq).
  assert (mats ⊆+ below n) as Hsub by (apply NoDup_submseteq; [done|]; intros i Hi; by apply elem_of_below, Hm).
  pose proof (submseteq_length _ _ Hsub) as Hle. split; [lia|]. split.
  - intros Hlen i Hi. rewrite (submseteq_length_Permutation mats (below n) Hsub) by lia. by apply elem_of_below.
  - intros Ha. assert (below n ⊆+ mats) as Hsub' by (apply NoDup_submseteq; [done|]; intros i Hi; by apply Ha, elem_of_below).
    apply submseteq_length in Hsub'. lia.
Qed.

Lemma flag_ne b : flag_bit b ≠ 0%Z ↔ b = true.
Proof. by destruct b. Qed.

(** A repeated insertion changes nothing. *)
Lemma insert_again_inv db idx created mats :
  lo_ok (Insert idx created mats) → lo_inv db → is_Some (large_objects db !! parent_hash idx) →
  lo_inv (insert db idx created mats).
Proof.
  intros (Hlen & Hcut & _) [Hc Hf] [row0 Hrow]. destruct (insert_lookups db idx created mats ltac:(lia)) as [Elo Ech].
  unfold put_object in Elo. rewrite Hrow in Elo.
  assert (∀ h i, Tables.chunks (insert db idx created mats) !! (h, i) = Tables.chunks db !! (h, i)) as E2.
  { intros h i. rewrite Ech. destruct (Tables.chunks db !! (h, i)) eqn:Hx; [done|].
    case_bool_decide as Hh; [|done]. subst h. destruct (chunks idx !! N.to_nat i) eqn:Hi; [|done].
    apply lookup_lt_Some in Hi. assert (is_Some (Tables.chunks db !! (parent_hash idx, i))) as [? Hs]
      by (apply Hc; rewrite Hrow; split; [by eexists|lia]). congruence. }
  split; intros *; rewrite Elo; [rewrite E2; apply Hc|]. intros Hr. setoid_rewrite E2. by apply Hf.
Qed.

Lemma inv_absent db h : lo_inv db → large_objects db !! h = None → absent db h.
Proof.
  intros [Hc _] Hn. split; [done|]. intros i. destruct (Tables.chunks db !! (h, i)) eqn:Hx; [|done].
  assert (is_Some (large_objects db !! h)) as [? ?]; [|congruence]. apply (Hc h i). by eexists.
Qed.

(** The flag an insertion sets. *)
Lemma fresh_flag (mats : list N) (cs : list ChunkRef) :
  (N.of_nat (List.length cs) < 2 ^ 32)%N → NoDup mats → (∀ i, i ∈ mats → (i < N.of_nat (List.length cs))%N) →
  let count := (N.of_nat (List.length cs) mod 2 ^ 32)%N in
  flag_bit (bool_decide (N.of_nat (List.length mats) mod 2 ^ 32 = count)%N && bool_decide (0 < count)%N) ≠ 0%Z
  ↔ 0 < List.length cs ∧ ∀ i r, row_of mats i <$> cs !! N.to_nat i = Some r → ck_materialized r ≠ 0%Z.
Proof.
  intros Hlt Hnd Hm. cbn zeta. destruct (all_named mats _ Hnd Hm) as [Hle Hall].
  rewrite flag_ne, andb_true_iff, !bool_decide_eq_true, !N.mod_small by lia. split.
  - intros [H1 H2]. split; [lia|]. intros i r (c & Hi & ->)%fmap_Some. cbn. apply flag_ne, bool_decide_eq_true_2.
    apply Hall; [lia|]. apply lookup_lt_Some in Hi. lia.
  - intros [H1 H2]. split; [|lia]. f_equal. apply Hall. intros i Hi.
    destruct (lookup_lt_is_Some_2 cs (N.to_nat i)) as [c Hci]; [lia|].
    specialize (H2 i (row_of mats i c)). rewrite Hci in H2. specialize (H2 eq_refl). cbn in H2.
    by apply flag_ne, bool_decide_eq_true in H2.
Qed.

Lemma insert_inv db idx created mats : lo_ok (Insert idx created mats) → lo_inv db → lo_inv (insert db idx created mats).
Proof.
  intros Hok Hi. destruct (large_objects db !! parent_hash idx) as [row0|] eqn:Hrow; [by apply insert_again_inv; rewrite ?Hrow|].
  destruct (inv_absent _ _ Hi Hrow) as [_ Hno]. destruct Hok as (Hlen & Hcut & Hnd & Hm), Hi as [Hc Hf].
  destruct (insert_lookups db idx created mats ltac:(lia)) as [Elo Ech].
  assert (Hother : ∀ h i, h ≠ parent_hash idx → Tables.chunks (insert db idx created mats) !! (h, i) = Tables.chunks db !! (h, i)).
  { intros h i Hh. rewrite Ech, bool_decide_eq_false_2 by done. by destruct (Tables.chunks db !! (h, i)). }
  assert (Hmine : ∀ i, Tables.chunks (insert db idx created mats) !! (parent_hash idx, i)
    = row_of mats i <$> chunks idx !! N.to_nat i) by (intros i; rewrite Ech, Hno; by rewrite bool_decide_eq_true_2).
  unfold put_object in Elo. rewrite Hrow in Elo. cbn [large_objects set_large_objects] in Elo.
  split; intros h; destruct (decide (h = parent_hash idx)) as [->|Hne].
  - intros i. rewrite Hmine, Elo, lookup_insert_eq, fmap_is_Some, lookup_lt_is_Some, Hlen.
    split; [intros ?; split; [by eexists|lia]|intros [_ ?]; lia].
  - intros i. rewrite Hother, Elo, lookup_insert_ne by done. apply Hc.
  - intros row. rewrite Elo, lookup_insert_eq. intros [= <-]. cbn [lo_materialized].
    rewrite <- Hlen in *. rewrite fresh_flag by done. by setoid_rewrite Hmine.
  - intros row. rewrite Elo, lookup_insert_ne by done. intros Hr. rewrite (Hf h row Hr).
    split; intros [H1 H2]; (split; [done|]); intros i r Hl; apply (H2 i r); by rewrite Hother in *.
Qed.

Lemma no_unmaterialized db h :
  List.filter is_unmaterialized (chunk_rows db h) = []
  ↔ ∀ i r, Tables.chunks db !! (h, i) = Some r → ck_materialized r ≠ 0%Z.
Proof.
  split.
  - intros Hf i r Hr Hz. assert ((i, r) ∈ List.filter is_unmaterialized (chunk_rows db h)) as Hin.
    { apply list_elem_of_In, filter_In. split; [by apply list_elem_of_In, elem_of_chunk_rows|]. by apply bool_decide_eq_true_2. }
    rewrite Hf in Hin. by apply not_elem_of_nil in Hin.
  - intros Ha. destruct (List.filter _ _) as [|[i r] l] eqn:Hf; [done|].
    assert ((i, r) ∈ List.filter is_unmaterialized (chunk_rows db h)) as Hin by (rewrite Hf; left).
    apply list_elem_of_In, filter_In in Hin as [Hin Hz]. apply list_elem_of_In, elem_of_chunk_rows in Hin.
    apply bool_decide_eq_true in Hz. exfalso. by apply (Ha i r).
Qed.

Lemma mark_inv db h i : lo_inv db → lo_inv (lo_step db (Mark h i)).
Proof.
  intros [Hc Hf]. cbn [lo_step]. unfold mark_chunk_materialized. destruct (Tables.chunks db !! (h, i)) as [r|] eqn:Hr; [|by split].
  set (r' := mkChunkRow (ck_offset r) (ck_length r) (ck_hash r) 1). set (db1 := set_chunks _ db).
  assert (Hsome : ∀ h' j, is_Some (Tables.chunks db1 !! (h', j)) ↔ is_Some (Tables.chunks db !! (h', j))).
  { intros h' j. cbn. rewrite lookup_insert_is_Some. split; [|destruct (decide ((h, i) = (h', j))); auto].
    intros [[= <- <-]|[_ ?]]; [rewrite Hr; by eexists|done]. }
  assert (0 < cut h) as Hpos by (destruct (proj1 (Hc h i) ltac:(rewrite Hr; by eexists)) as [_ ?]; lia).
  assert (Hold : ∀ h' row, large_objects db !! h' = Some row → (h' ≠ h ∨ lo_materialized row ≠ 0%Z) →
    lo_materialized row ≠ 0%Z ↔ 0 < cut h' ∧ ∀ j x, Tables.chunks db1 !! (h', j) = Some x → ck_materialized x ≠ 0%Z).
  { intros h' row Hrow Hor. rewrite (Hf h' row Hrow). cbn. split; intros [H1 H2]; (split; [done|]); intros j x.
    - intros [[[= <- <-] <-]|[_ Hx]]%lookup_insert_Some; [done|by apply (H2 j)].
    - intros Hx. destruct (decide ((h, i) = (h', j))) as [[= <- <-]|Hne]; [|apply (H2 j); by rewrite lookup_insert_ne].
      destruct Hor as [?|Hm]; [done|]. by apply (Hf h row Hrow) in Hm as [_ Hm]; apply (Hm i). }
  case_bool_decide as Hall; split; cbn [large_objects set_large_objects]; intros h'.
  - intros j. change (Tables.chunks (set_large_objects _ db1)) with (Tables.chunks db1). rewrite Hsome, Hc.
    destruct (decide (h = h')) as [<-|Hne]; [by rewrite lookup_alter_eq, fmap_is_Some|by rewrite lookup_alter_ne].
  - intros row. change (Tables.chunks (set_large_objects _ db1)) with (Tables.chunks db1).
    destruct (decide (h = h')) as [<-|Hne]; [|rewrite lookup_alter_ne by done; intros ?; by apply Hold; auto].
    rewrite lookup_alter_eq. intros (row0 & _ & ->)%fmap_Some. cbn [lo_materialized]. split; [|done]. intros _.
    split; [done|]. by apply no_unmaterialized.
  - intros j. rewrite Hsome. apply Hc.
  - intros row Hrow. destruct (decide (h' = h)) as [->|Hne]; [|by apply Hold; auto].
    destruct (decide (lo_materialized row = 0%Z)) as [Hz|Hnz]; [|by apply Hold; auto].
    rewrite Hz. split; [done|]. intros [_ H2]. exfalso. apply Hall. by apply no_unmaterialized.
Qed.

(** C20. The flag of a large object tells the truth. After any sequence of
    insertions and marks in which every object is cut the same way each time
    and an insertion names each chunk that is there once, an object is said to
    be complete exactly when it has chunks and no chunk of it is missing. *)
Theorem large_object_flag_exact db (ops : list LoOp) (h : BlobHash) (st : LargeObjectStat) :
  large_objects db = ∅ → Tables.chunks db = ∅ → Forall lo_ok ops →
  stat (foldl lo_step db ops) h = Some st →
  st_materialized st = true ↔ 0 < cut h ∧ unmaterialized_chunks (foldl lo_step db ops) h = [].
Proof.
  intros Hlo Hch Hok. assert (lo_inv (foldl lo_step db ops)) as Hi.
  { assert (lo_inv db) as Hi by (split; [intros h' i; rewrite Hlo, Hch, !lookup_empty; split; [by intros [? ?]|by intros [[? ?] _]]
      |intros h' row; by rewrite Hlo, lookup_empty]).
    clear Hlo Hch. revert db Hi. induction Hok as [|op ops Ho _ IH]; intros db Hi; [done|]. apply IH.
    destruct op; [by apply insert_inv|by apply mark_inv]. }
  unfold stat. intros (row & Hrow & ->)%fmap_Some. cbn [st_materialized]. rewrite negb_true_iff, bool_decide_eq_false.
  rewrite (li_flag _ Hi h row Hrow), <- no_unmaterialized. unfold unmaterialized_chunks.
  destruct (List.filter _ _); naive_solver.
Qed.

End Runs.

End Ops.

(** ** Evaluated *)

Definition lx_hash (n : N) : BlobHash := mkHash [n].
Definition lx_index : ChunkIndex :=
  mkIndex MAGIC VERSION (lx_hash 9) 30 [mkChunk 0 10 (lx_hash 1); mkChunk 10 15 (lx_hash 2); mkChunk 25 5 (lx_hash 3)].
Definition lx_bytes : bytes := repeat Byte.x61 10 ++ repeat Byte.x62 15 ++ repeat Byte.x63 5.

Lemma range_read_exact_witness :
  chunks_for_range lx_index 12 14 = (1, 3)
  ∧ take 14 (drop 12 lx_bytes) = take 14 (drop 2 (slices lx_bytes (drop 1 (take 3 (chunks lx_index))))).
Proof.
  split; [vm_compute; reflexivity|].
  pose proof (range_read_exact lx_index lx_bytes 12 14 ltac:(vm_compute; reflexivity) ltac:(vm_compute; reflexivity)
    ltac:(vm_compute; reflexivity) ltac:(vm_compute; discriminate)) as H.
  change (chunks_for_range lx_index 12 14) with (1, 3) in H. exact (proj2 H).
Defined.

(** The chunks arrive one by one. *)
Definition lx_ops : list LoOp := [Insert lx_index 7 [1%N]; Mark (lx_hash 9) 0; Mark (lx_hash 9) 2].

Lemma large_object_flag_exact_witness :
  ∃ st, stat (foldl lo_step (empty_db : Db unit) lx_ops) (lx_hash 9) = Some st
    ∧ (st_materialized st = true ↔ 0 < 3 ∧ unmaterialized_chunks (foldl lo_step (empty_db : Db unit) lx_ops) (lx_hash 9) = []).
Proof.
  eexists. split; [vm_compute; reflexivity|].
  apply (large_object_flag_exact (λ _, 3) (empty_db : Db unit) lx_ops (lx_hash 9)).
  - reflexivity.
  - reflexivity.
  - repeat constructor; try (vm_compute; reflexivity); [apply not_elem_of_nil|].
    intros i [->|[]%elem_of_nil]%elem_of_cons. vm_compute. reflexivity.
  - vm_compute. reflexivity.
Defined.

(** An insertion that names a chunk twice marks the object complete while one
    chunk is missing. *)
Theorem repeated_chunk_counts :
  let db := insert (empty_db : Db unit) lx_index 7 [0; 1; 1]%N in
  st_materialized <$> stat db (lx_hash 9) = Some true ∧ cs_idx <$> unmaterialized_chunks db (lx_hash 9) = [2%N].
Proof. split; vm_compute; reflexivity. Qed.

(** An insertion cut short after its first statement and repeated with every
    chunk there leaves an object said to be incomplete of which nothing is
    missing. *)
Theorem interrupted_insert_incomplete :
  let db0 := execute_all (empty_db : Db unit) (take 1 (insert_statements lx_index 7 [])) in
  let db := insert db0 lx_index 7 [0; 1; 2]%N in
  st_materialized <$> stat db (lx_hash 9) = Some false ∧ unmaterialized_chunks db (lx_hash 9) = [].
Proof. split; vm_compute; reflexivity. Qed.

End LargeObjects.
