(* ===== verification/Retention.v ===== *)
(** * What keeps a command

    [holds.rs], [bookmarks.rs], [importance.rs] and [container_stash.rs] of
    [shit-store]: the tables that protect, remember, rank and age what the
    journal holds. The wall clock of [container_stash.rs] is an argument. *)

From S2P Require Import Prelude Paths Base Events Tables Index.

(** ** holds.rs *)

Module Holds.

Record Hold := mkHold {
  h_command : CommandId;
  h_owner_pid : N;
  h_owner_user : string;
  h_taken_logical : N;
  h_expires_logical : option N;
  h_note : option string;
}.

Section Ops.
Context {P : Type}.
Implicit Types db : Db P.

Definition create db (command : CommandId) (owner_pid : N) (owner_user : string)
    (taken_logical : N) (expires_logical : option N) (note : option string)
    : IndexResult (Db P) :=
  if Index.command_exists db command then
    inl (set_holds (<[(command, owner_pid) :=
      mkHoldRow owner_user (to_i64 taken_logical) (to_i64 <$> expires_logical) note]> (holds db)) db)
  else inr (IndexError.Sql SqlError.ForeignKey).

Definition renew db (command : CommandId) (owner_pid : N) (taken_logical : N)
    (expires_logical : option N) : Db P * bool :=
  (set_holds (alter (λ r, mkHoldRow (hr_owner_user r) (to_i64 taken_logical)
     (to_i64 <$> expires_logical) (hr_note r)) (command, owner_pid) (holds db)) db,
   bool_decide (is_Some (holds db !! (command, owner_pid)))).

Definition release db (command : CommandId) (owner_pid : N) : Db P * bool :=
  (set_holds (delete (command, owner_pid) (holds db)) db,
   bool_decide (is_Some (holds db !! (command, owner_pid)))).

(** [expires_logical IS NOT NULL AND expires_logical < ?1]. *)
Definition expired (now : N) (r : HoldRow) : bool :=
  match hr_expires_logical r with
  | Some v => bool_decide (v < to_i64 now)%Z
  | None => false
  end.

Definition sweep_expired db (now_logical : N) : Db P * nat :=
  (set_holds (filter (λ kr, expired now_logical kr.2 = false) (holds db)) db,
   length (List.filter (λ kr, expired now_logical kr.2) (map_to_list (holds db)))).

Definition row_to_hold (k : CommandId * N) (r : HoldRow) : Hold :=
  mkHold (mkCommandId (session k.1) (of_i64_clamped (to_i64 (seq k.1)))) k.2 (hr_owner_user r)
    (of_i64_clamped (hr_taken_logical r)) (of_i64_clamped <$> hr_expires_logical r) (hr_note r).

Definition list_active_for_user (ord : HashOrder (CommandId * N) HoldRow) db (owner_user : string)
    : list Hold :=
  (λ kr, row_to_hold kr.1 kr.2) <$>
  sort_by (λ a b, bool_decide (hr_taken_logical b.2 ≤ hr_taken_logical a.2)%Z)
    (List.filter (λ kr, bool_decide (hr_owner_user kr.2 = owner_user)) (scan_table ord (holds db))).

Definition is_held db (command : CommandId) : bool := Index.held db command.

End Ops.
End Holds.

(** ** bookmarks.rs *)

Module Bookmarks.

Record Bookmark := mkBookmark {
  b_command : CommandId;
  b_created_logical : N;
  b_note : option string;
}.

Section Ops.
Context {P : Type}.
Implicit Types db : Db P.

Definition bookmark_create db (command : CommandId) (created_logical : N) (note : option string)
    : Db P :=
  set_bookmarks (<[command := mkBookmarkRow (to_i64 created_logical) note]> (bookmarks db)) db.

Definition bookmark_remove db (command : CommandId) : Db P * bool :=
  (set_bookmarks (delete command (bookmarks db)) db,
   bool_decide (is_Some (bookmarks db !! command))).

Definition bookmark_list (ord : HashOrder CommandId BookmarkRow) db : list Bookmark :=
  (λ kr, mkBookmark (mkCommandId (session kr.1) (of_i64_clamped (to_i64 (seq kr.1))))
           (of_i64_clamped (bm_created_logical kr.2)) (bm_note kr.2)) <$>
  sort_by (λ a b, bool_decide (bm_created_logical b.2 ≤ bm_created_logical a.2)%Z)
    (scan_table ord (bookmarks db)).

End Ops.
End Bookmarks.

(** ** importance.rs *)

Module Importance.

Record ImportanceConfig := mkImportanceConfig {
  file_count_threshold : N;
  bump_per_signal : N;
  sensitive_path_prefixes : list string;
}.

Definition default_config : ImportanceConfig :=
  mkImportanceConfig 10 20 ["/etc/"; "~/.ssh/"; "~/.gnupg/"; "~/Library/Keychains/"].

(** [touched_paths] as the strings [to_string_lossy] gives. *)
Record ScoreInputs := mkScoreInputs { file_count : N; touched_paths : list string }.

Definition path_is_sensitive (path : string) (prefixes : list string) : bool :=
  existsb (λ prefix, String.prefix prefix path) prefixes.

Definition u32_saturating_add (a b : N) : N := N.min (a + b) (2 ^ 32 - 1).

Definition score_command (inputs : ScoreInputs) (config : ImportanceConfig) : N :=
  let score := 0%N in
  let score := if bool_decide (file_count_threshold config ≤ file_count inputs)%N
               then u32_saturating_add score (bump_per_signal config) else score in
  let score := if existsb (λ p, path_is_sensitive p (sensitive_path_prefixes config))
                    (touched_paths inputs)
               then u32_saturating_add score (bump_per_signal config) else score in
  N.min score 255.

Section Ops.
Context {P : Type}.
Implicit Types db : Db P.

Definition with_importance (f : Z → Z) (r : CommandRow) : CommandRow :=
  mkCommandRow (cr_cmd_string r) (cr_cwd r) (cr_pid r) (cr_shell_kind r) (cr_started_logical r)
    (cr_started_wall_nanos r) (cr_ended_logical r) (cr_ended_wall_nanos r) (cr_exit_code r)
    (f (cr_importance r)).

Definition bump_for_undo db (id : CommandId) (bump : N) : Db P :=
  set_commands (alter (with_importance (λ i, Z.min (i + Z.of_N bump) 255)) id (commands db)) db.

Definition set_importance db (id : CommandId) (importance : N) : Db P :=
  set_commands (alter (with_importance (λ _, Z.of_N importance)) id (commands db)) db.

End Ops.

End Importance.

(** ** container_stash.rs *)

Module Stash.

Definition CONTAINER_STASH_RETENTION_SECS : N := 24 * 60 * 60.

Module StashKind.
Inductive StashKind := ImageSave | VolumeTar.
End StashKind.
Abbreviation StashKind := StashKind.StashKind.

Definition as_wire (k : StashKind) : Z :=
  match k with StashKind.ImageSave => 0 | StashKind.VolumeTar => 1 end.

Definition from_wire (v : Z) : option StashKind :=
  if bool_decide (v = 0%Z) then Some StashKind.ImageSave
  else if bool_decide (v = 1%Z) then Some StashKind.VolumeTar
  else None.

Record ContainerStash := mkContainerStash {
  cs_blob_hash : BlobHash;
  cs_kind : StashKind;
  cs_runtime : string;
  cs_name : string;
  cs_size_bytes : N;
  cs_created_unix_secs : N;
  cs_command : option CommandId;
  cs_note : option string;
}.

Record RegisterRequest := mkRegister {
  rq_blob_hash : BlobHash;
  rq_kind : StashKind;
  rq_runtime : string;
  rq_name : string;
  rq_size_bytes : N;
  rq_command : option CommandId;
  rq_note : option string;
}.

Section Ops.
Context {P : Type}.
Implicit Types db : Db P.

(** [now] is [SystemTime::now] in seconds. *)
Definition register db (now : N) (req : RegisterRequest) : Db P :=
  let sess := session <$> rq_command req in
  let sq := (λ c, to_i64 (seq c)) <$> rq_command req in
  set_container_stashes
    (<[rq_blob_hash req :=
       match container_stashes db !! rq_blob_hash req with
       | None => mkStashRow (as_wire (rq_kind req)) (rq_runtime req) (rq_name req)
                   (to_i64 (rq_size_bytes req)) (to_i64 now) sess sq (rq_note req)
       | Some r => mkStashRow (st_kind r) (st_runtime r) (st_name r) (st_size_bytes r)
                     (st_created_unix_secs r) (Index.coalesce sess (st_session r))
                     (Index.coalesce sq (st_seq r)) (Index.coalesce (rq_note req) (st_note r))
       end]> (container_stashes db)) db.

Definition row_to_stash (h : BlobHash) (r : StashRow) : ContainerStash :=
  mkContainerStash h (default StashKind.ImageSave (from_wire (st_kind r))) (st_runtime r)
    (st_name r) (of_i64_clamped (st_size_bytes r)) (of_i64_clamped (st_created_unix_secs r))
    (match st_session r, st_seq r with
     | Some s, Some q => Some (mkCommandId s (of_i64_clamped q))
     | _, _ => None
     end) (st_note r).

Definition stash_get db (h : BlobHash) : option ContainerStash :=
  row_to_stash h <$> container_stashes db !! h.

Definition stash_list (ord : HashOrder BlobHash StashRow) db : list ContainerStash :=
  (λ kr, row_to_stash kr.1 kr.2) <$>
  sort_by (λ a b, bool_decide (st_created_unix_secs b.2 ≤ st_created_unix_secs a.2)%Z)
    (scan_table ord (container_stashes db)).

Definition list_for_command (ord : HashOrder BlobHash StashRow) db (cmd : CommandId)
    : list ContainerStash :=
  (λ kr, row_to_stash kr.1 kr.2) <$>
  sort_by (λ a b, bool_decide (st_created_unix_secs a.2 ≤ st_created_unix_secs b.2)%Z)
    (List.filter (λ kr, col_eq (st_session kr.2) (session cmd)
       && col_eq (st_seq kr.2) (to_i64 (seq cmd))) (scan_table ord (container_stashes db))).

Definition stash_remove db (h : BlobHash) : Db P * bool :=
  (set_container_stashes (delete h (container_stashes db)) db,
   bool_decide (is_Some (container_stashes db !! h))).

Definition stale (cutoff : Z) (r : StashRow) : bool := bool_decide (st_created_unix_secs r < cutoff)%Z.

Definition prune_older_than (ord : HashOrder BlobHash StashRow) db (now older_than_secs : N)
    : Db P * list BlobHash :=
  let cutoff := to_i64 (now - older_than_secs) in
  let hashes := (List.filter (λ kr, stale cutoff kr.2) (scan_table ord (container_stashes db))).*1 in
  match hashes with
  | [] => (db, [])
  | _ => (set_container_stashes (filter (λ kr, stale cutoff kr.2 = false) (container_stashes db)) db,
          hashes)
  end.

(** [unwrap_or(0)]: a sum out of range counts as nothing. *)
Definition total_size_bytes (ord : HashOrder BlobHash StashRow) db : N :=
  match sql_sum (st_size_bytes <$> (scan_table ord (container_stashes db)).*2) with
  | inl n => of_i64_clamped n
  | inr _ => 0
  end.

End Ops.
End Stash.
