(* ===== verification/Gc.v ===== *)
(** * Garbage collection

    [refcount.rs] and [gc.rs] of [shit-store]. A pass is a sequence of
    transactions on the index and of file removals; an error or a
    cancellation keeps what the earlier steps did. Arithmetic on [u64] wraps,
    as the release profile compiles it. Whether [VACUUM] runs depends on page
    counts of the engine and changes no row; it is an argument. *)

From S2P Require Import Prelude Paths Base Events Tables Index Blobs.

(** ** refcount.rs *)

Module Refcount.

Record ReapBatch := mkReapBatch {
  rb_commands_dropped : nat;
  rb_events_dropped : nat;
  rb_refs_decremented : nat;
}.

Definition default_batch : ReapBatch := mkReapBatch 0 0 0.

Definition merge (a b : ReapBatch) : ReapBatch :=
  mkReapBatch (rb_commands_dropped a + rb_commands_dropped b)
    (rb_events_dropped a + rb_events_dropped b) (rb_refs_decremented a + rb_refs_decremented b).

Section Reap.
Context {P : Type}.
Implicit Types db : Db P.

Definition pinned db (id : CommandId) : bool := bool_decide (is_Some (pins db !! id)).

(** The body of the loop over [ids]. *)
Definition reap_one db (id : CommandId) : IndexResult (Db P * ReapBatch) :=
  if pinned db id then inl (db, default_batch)
  else if Index.held db id then inl (db, default_batch)
  else
    let hashes := Index.command_hashes db id in
    let db1 := Index.delete_events id (Index.unref_all hashes db) in
    match Index.delete_command id db1 with
    | inr e => inr e
    | inl db2 =>
        inl (db2, mkReapBatch (if Index.command_exists db id then 1 else 0)
                    (length (List.filter (Index.of_command id) (events db))) (length hashes))
    end.

Fixpoint reap_loop db (ids : list CommandId) (summary : ReapBatch) : IndexResult (Db P * ReapBatch) :=
  match ids with
  | [] => inl (db, summary)
  | id :: ids' =>
      match reap_one db id with
      | inr e => inr e
      | inl (db', s) => reap_loop db' ids' (merge summary s)
      end
  end.

(** One transaction. *)
Definition reap_commands db (ids : list CommandId) : IndexResult (Db P * ReapBatch) :=
  match ids with
  | [] => inl (db, default_batch)
  | _ => reap_loop db ids default_batch
  end.

End Reap.
End Refcount.

(** ** gc.rs *)

Module Gc.

Module GcError.
Inductive GcError := Index (e : IndexError) | Cancelled.
End GcError.
Abbreviation GcError := GcError.GcError.

Record GcConfig := mkGcConfig {
  age_threshold_logical : N;
  size_cap_bytes : option N;
  batch_size : N;
}.

Definition default_gc_config : GcConfig :=
  mkGcConfig 604800000 (Some (5 * 1024 * 1024 * 1024))%N 100.

Record GcReport := mkGcReport {
  commands_dropped : nat;
  events_dropped : nat;
  blobs_swept : nat;
  bytes_reclaimed : N;
  paths_compacted : nat;
  vacuumed : bool;
  aggressive_mode_used : bool;
}.

Definition default_report : GcReport := mkGcReport 0 0 0 0 0 false false.

Definition size_threshold_breached (size_now : N) (cap : option N) : bool :=
  match cap with Some c => bool_decide (c < size_now)%N | None => false end.

(** [u64] multiplication. *)
Definition u64_mul (a b : N) : N := (a * b) mod 2 ^ 64.

(** ** check_size_cap *)

Module SizeCapStatus.
Inductive SizeCapStatus := Ok | Approaching | HardFail.
End SizeCapStatus.
Abbreviation SizeCapStatus := SizeCapStatus.SizeCapStatus.

Definition check_size_cap (current_size : N) (cap_bytes last_aggressive_freed_to : option N)
    : SizeCapStatus :=
  match cap_bytes with
  | None => SizeCapStatus.Ok
  | Some cap =>
      if bool_decide (current_size ≤ u64_mul cap 9 / 10)%N then SizeCapStatus.Ok
      else if bool_decide (cap < current_size)%N
              && match last_aggressive_freed_to with
                 | Some after => bool_decide (cap < after)%N
                 | None => false
                 end
      then SizeCapStatus.HardFail
      else SizeCapStatus.Approaching
  end.

(** ** The cutoff of a pass *)

(** Whether the pass is aggressive, and the age below which commands go. *)
Definition effective_cutoff (config : GcConfig) (size_now now_logical : N) : bool * N :=
  let aggressive := size_threshold_breached size_now (size_cap_bytes config) in
  let cutoff := if aggressive then u64_MAX else (now_logical - age_threshold_logical config)%N in
  match size_cap_bytes config with
  | Some cap =>
      if negb aggressive && bool_decide (u64_mul cap 9 ≤ u64_mul size_now 10)%N
      then (true, u64_MAX) else (aggressive, cutoff)
  | None => (aggressive, cutoff)
  end.

(** [age_cutoff_logical.min(i64::MAX as u64) as i64]. *)
Definition cutoff_signed (age_cutoff_logical : N) : Z :=
  to_i64 (N.min age_cutoff_logical (Z.to_N i64_max)).

(** ** The phases *)

Section Pass.
Context {P : Type}.
Implicit Types db : Db P.
Context (cmd_ord : HashOrder CommandId CommandRow) (blob_ord : HashOrder BlobHash BlobRow).

Definition eligible db (cutoff : Z) (kr : CommandId * CommandRow) : bool :=
  negb (Refcount.pinned db kr.1) && negb (Index.held db kr.1)
  && bool_decide (cr_started_logical kr.2 < cutoff)%Z.

(** [ORDER BY c.importance ASC, c.started_logical ASC]. *)
Definition expiry_leb (a b : CommandId * CommandRow) : bool :=
  bool_decide (cr_importance a.2 < cr_importance b.2)%Z
  || (bool_decide (cr_importance a.2 = cr_importance b.2)
      && bool_decide (cr_started_logical a.2 ≤ cr_started_logical b.2)%Z).

Definition mark_expired_batch db (age_cutoff_logical limit : N) : list CommandId :=
  (λ kr, mkCommandId (session kr.1) (of_i64 (to_i64 (seq kr.1)))) <$>
  sql_limit (to_i64 limit)
    (sort_by expiry_leb
       (List.filter (eligible db (cutoff_signed age_cutoff_logical))
          (scan_table cmd_ord (commands db)))).

Definition blob_size_for db (hash : BlobHash) : option N :=
  (λ r, of_i64_clamped (br_size r)) <$> blobs db !! hash.

(** [valid_to_logical IS NOT NULL AND valid_to_logical < ?1]. *)
Definition compactable (cutoff : Z) (r : PathRow) : bool :=
  match pr_valid_to_logical r with Some v => bool_decide (v < cutoff)%Z | None => false end.

Definition compact_paths db (age_cutoff_logical : N) : Db P * nat :=
  let cutoff := cutoff_signed age_cutoff_logical in
  (set_paths (filter (λ kr, compactable cutoff kr.2 = false) (paths db)) db,
   length (List.filter (λ kr, compactable cutoff kr.2) (map_to_list (paths db)))).

(** ** State of a pass *)

(** The index, the blob files, the report so far and how often the [cancel]
    flag was read. *)
Record Pass := mkPass {
  g_db : Db P;
  g_files : Blobs.BlobFiles;
  g_report : GcReport;
  g_checks : nat;
}.

(** [Ok], an early return with an error, or fuel exhausted ([None]). *)
Abbreviation Step A := (option (Pass * (A + GcError)))%type.

(** [cancel n]: the [n]-th read of the flag returns true. *)
Context (cancel : nat → bool) (remove_ok : BlobHash → bool) (vacuum : Db P → bool).

(** [if cancel.load(..) { return Err(Cancelled) }], then [k]. *)
Definition unless_cancelled {A} (s : Pass) (k : Pass → Step A) : Step A :=
  let s' := mkPass (g_db s) (g_files s) (g_report s) (S (g_checks s)) in
  if cancel (g_checks s) then Some (s', inr GcError.Cancelled) else k s'.

Definition add_reaped (r : GcReport) (b : Refcount.ReapBatch) : GcReport :=
  mkGcReport (commands_dropped r + Refcount.rb_commands_dropped b)
    (events_dropped r + Refcount.rb_events_dropped b) (blobs_swept r) (bytes_reclaimed r)
    (paths_compacted r) (vacuumed r) (aggressive_mode_used r).

Definition add_swept (r : GcReport) (size : N) : GcReport :=
  mkGcReport (commands_dropped r) (events_dropped r) (S (blobs_swept r))
    ((bytes_reclaimed r + size) mod 2 ^ 64)%N (paths_compacted r) (vacuumed r)
    (aggressive_mode_used r).

(** Phases 1 and 2. *)
Fixpoint mark_loop (fuel : nat) (cutoff limit : N) (s : Pass) : Step unit :=
  match fuel with
  | O => None
  | S fuel' =>
      unless_cancelled s (λ s,
        match mark_expired_batch (g_db s) cutoff limit with
        | [] => Some (s, inl ())
        | batch =>
            match Refcount.reap_commands (g_db s) batch with
            | inr e => Some (s, inr (GcError.Index e))
            | inl (db', summary) =>
                let s' := mkPass db' (g_files s) (add_reaped (g_report s) summary) (g_checks s) in
                if bool_decide (Refcount.rb_commands_dropped summary = 0)
                then Some (s', inl ())
                else mark_loop fuel' cutoff limit s'
            end
        end)
  end.

(** Remove the file, then the row if its count is still zero. *)
Definition sweep_one (s : Pass) (hash : BlobHash) : Pass :=
  let size := default 0%N (blob_size_for (g_db s) hash) in
  let files := (Blobs.blob_delete remove_ok (g_files s) hash).1 in
  let '(db', dropped) := Index.drop_blob_record (g_db s) hash in
  mkPass db' files (if dropped then add_swept (g_report s) size else g_report s) (g_checks s).

(** Phase 3. *)
Fixpoint sweep_loop (to_sweep : list BlobHash) (s : Pass) : Step unit :=
  match to_sweep with
  | [] => Some (s, inl ())
  | hash :: rest => unless_cancelled s (λ s, sweep_loop rest (sweep_one s hash))
  end.

(** Phases 4 and 5. *)
Definition finish (cutoff : N) (s : Pass) : Step GcReport :=
  unless_cancelled s (λ s,
    let '(db', n) := compact_paths (g_db s) cutoff in
    let r := g_report s in
    let s' := mkPass db' (g_files s)
      (mkGcReport (commands_dropped r) (events_dropped r) (blobs_swept r) (bytes_reclaimed r) n
         (vacuumed r) (aggressive_mode_used r)) (g_checks s) in
    unless_cancelled s' (λ s,
      let r := g_report s in
      let r' := if vacuum (g_db s) then
        mkGcReport (commands_dropped r) (events_dropped r) (blobs_swept r) (bytes_reclaimed r)
          (paths_compacted r) true (aggressive_mode_used r) else r in
      Some (mkPass (g_db s) (g_files s) r' (g_checks s), inl r'))).

(** [?]: go on unless the step failed. *)
Definition and_then {A B} (m : Step A) (k : Pass → A → Step B) : Step B :=
  match m with
  | None => None
  | Some (s, inr e) => Some (s, inr e)
  | Some (s, inl a) => k s a
  end.

(** The number of commands bounds the rounds of the first loop: a round that
    drops none ends it. *)
Definition run_pass db (files : Blobs.BlobFiles) (config : GcConfig) (now_logical : N)
    : Step GcReport :=
  let s0 := mkPass db files default_report 0 in
  match Index.total_blob_size blob_ord db with
  | inr e => Some (s0, inr (GcError.Index e))
  | inl size_now =>
      let '(aggressive, cutoff) := effective_cutoff config size_now now_logical in
      let s1 := mkPass db files (mkGcReport 0 0 0 0 0 false aggressive) 0 in
      and_then (mark_loop (S (size (commands db))) cutoff (batch_size config) s1) (λ s _,
        unless_cancelled s (λ s,
          and_then (sweep_loop (Index.unreferenced_blobs blob_ord (g_db s)) s) (λ s _,
            finish cutoff s)))
  end.

End Pass.
Arguments Pass : clear implicits.

End Gc.
