(* ===== verification/StoreFacts.v ===== *)
(** * Invariants of the store

    The journal is well formed (identifiers increase, rows decode and agree
    with their columns, foreign keys hold) after any sequence of operations,
    and the reference counts are exact as long as a blob is recorded before
    an event refers to it. *)

From S2P Require Import Prelude Paths Base Events Probe Tables Index Blobs Retention Gc.

Module StoreFacts.
Import Index Refcount.

(** ** The invariant *)

Section Inv.
Context {P : Type} `{!Postcard P}.
Implicit Types db : Db P.

(** A row says what its payload says. *)
Definition row_faithful (r : EventRow P) : Prop :=
  ∃ ev, from_bytes (er_payload r) = Some ev
    ∧ er_command r = e_command ev
    ∧ er_ts_logical r = to_i64 (logical (e_ts ev))
    ∧ er_dev r = dn_dev (denormalize (e_kind ev))
    ∧ er_inode r = dn_inode (denormalize (e_kind ev))
    ∧ er_path r = dn_path (denormalize (e_kind ev))
    ∧ er_blob_hash r = event_blob (e_kind ev).

Record journal_ok (cmds : gmap CommandId CommandRow) (evs : list (EventRow P)) (last : Z) : Prop := {
  jo_last : (0 ≤ last ≤ i64_max)%Z;
  jo_sorted : StronglySorted Z.lt (er_id <$> evs);
  jo_ids : ∀ r, r ∈ evs → (0 < er_id r ≤ last)%Z;
  jo_command : ∀ r, r ∈ evs → is_Some (cmds !! er_command r);
  jo_rows : ∀ r, r ∈ evs → row_faithful r;
}.

Definition holds_ok (cmds : gmap CommandId CommandRow) (hs : gmap (CommandId * N) HoldRow) : Prop :=
  ∀ c pid r, hs !! (c, pid) = Some r → is_Some (cmds !! c).

(** Keys are values of their Rust type. *)
Definition keys_ok (cmds : gmap CommandId CommandRow) : Prop :=
  ∀ c, is_Some (cmds !! c) → u64_fits (seq c).

Record db_ok db : Prop := {
  ok_journal : journal_ok (commands db) (events db) (events_seq db);
  ok_holds : holds_ok (commands db) (holds db);
  ok_keys : keys_ok (commands db);
}.

(** ** Reference counts *)

Definition refers (h : BlobHash) (r : EventRow P) : bool := col_eq (er_blob_hash r) h.

Definition ref_count (h : BlobHash) (evs : list (EventRow P)) : Z :=
  Z.of_nat (length (List.filter (refers h) evs)).

(** The count of a recorded blob is the number of events that refer to it. *)
Definition refs_exact (evs : list (EventRow P)) (bs : gmap BlobHash BlobRow) : Prop :=
  ∀ h r, bs !! h = Some r → br_refcount r = ref_count h evs.

(** Every blob an event refers to is recorded. *)
Definition refs_covered (evs : list (EventRow P)) (bs : gmap BlobHash BlobRow) : Prop :=
  ∀ h r, r ∈ evs → er_blob_hash r = Some h → is_Some (bs !! h).

Definition refs_ok db : Prop :=
  refs_exact (events db) (blobs db) ∧ refs_covered (events db) (blobs db).

(** The same of one blob. *)
Definition ref_ok (h : BlobHash) db : Prop :=
  (∀ r, blobs db !! h = Some r → br_refcount r = ref_count h (events db))
  ∧ (∀ r, r ∈ events db → er_blob_hash r = Some h → is_Some (blobs db !! h)).

Lemma refs_ok_each db : refs_ok db ↔ ∀ h, ref_ok h db.
Proof.
  split; [by intros [Hex Hcov] h; split; [apply Hex|apply Hcov]|]. intros Hr. split; intros h; apply (Hr h).
Qed.

(** A change that keeps the counts of each blob keeps them all. *)
Lemma refs_ok_of_each db db' : (∀ h, ref_ok h db → ref_ok h db') → refs_ok db → refs_ok db'.
Proof. rewrite !refs_ok_each. auto. Qed.

Lemma ref_count_app (h : BlobHash) (l k : list (EventRow P)) :
  ref_count h (l ++ k) = (ref_count h l + ref_count h k)%Z.
Proof. unfold ref_count. rewrite List.filter_app, length_app. lia. Qed.

Lemma ref_count_zero (h : BlobHash) (l : list (EventRow P)) :
  ref_count h l = 0%Z ↔ ∀ r, r ∈ l → er_blob_hash r ≠ Some h.
Proof.
  unfold ref_count. split.
  - intros H0 r Hr Hh. assert (r ∈ List.filter (refers h) l) as Hin.
    { rewrite elem_of_list_filter. split; [done|]. unfold refers, col_eq. by case_bool_decide. }
    destruct (List.filter _ l); [by apply elem_of_nil in Hin|]. simpl in H0. lia.
  - intros Hn. destruct (List.filter (refers h) l) as [|r l'] eqn:E; [done|].
    assert (r ∈ List.filter (refers h) l) as Hin by (rewrite E; left).
    rewrite elem_of_list_filter in Hin. destruct Hin as [Hr Hh]. unfold refers, col_eq in Hh.
    case_bool_decide as Hq; [|done]. by destruct (Hn r Hr).
Qed.

(** ** Removing the events of a command *)

Definition occurrences (h : BlobHash) (hs : list BlobHash) : Z :=
  Z.of_nat (length (List.filter (λ x, bool_decide (x = h)) hs)).

Lemma unref_all_lookup (hs : list BlobHash) db (h : BlobHash) (r : BlobRow) :
  blobs (unref_all hs db) !! h = Some r →
  ∃ r0, blobs db !! h = Some r0
    ∧ ((0 ≤ br_refcount r0)%Z → br_refcount r = Z.max (br_refcount r0 - occurrences h hs) 0)
    ∧ br_size r = br_size r0.
Proof.
  revert db. induction hs as [|x hs IH]; intros db; simpl.
  { intros Hr. exists r. split_and!; [done| |done]. unfold occurrences. simpl. lia. }
  intros (r1 & H1 & Hc & Hs)%IH. unfold unref in H1. simpl in H1.
  destruct (decide (x = h)) as [->|Hne].
  - rewrite lookup_alter_eq in H1. destruct (blobs db !! h) as [r0|]; [|done].
    injection H1 as <-. exists r0. split_and!; [done| |done]. simpl in *.
    unfold occurrences in *. simpl. rewrite bool_decide_eq_true_2 by done. simpl. lia.
  - rewrite lookup_alter_ne in H1 by done. exists r1. split_and!; [done| |done].
    unfold occurrences in *. simpl. by rewrite bool_decide_eq_false_2 by done.
Qed.

Lemma unref_all_dom (hs : list BlobHash) db (h : BlobHash) :
  is_Some (blobs (unref_all hs db) !! h) ↔ is_Some (blobs db !! h).
Proof.
  revert db. induction hs as [|x hs IH]; intros db; [done|]. simpl. rewrite IH. simpl.
  apply lookup_alter_is_Some.
Qed.

Lemma unref_all_rest (hs : list BlobHash) db : unref_all hs db = set_blobs (blobs (unref_all hs db)) db.
Proof.
  revert db. induction hs as [|x hs IH]; intros db; simpl; [by destruct db|].
  rewrite IH. by destruct db.
Qed.

Lemma command_hashes_occ (h : BlobHash) (id : CommandId) db :
  occurrences h (command_hashes db id) = ref_count h (List.filter (of_command id) (events db)).
Proof.
  unfold occurrences, ref_count, command_hashes.
  induction (List.filter (of_command id) (events db)) as [|r l IH]; [done|]. simpl.
  unfold refers at 1, col_eq. destruct (er_blob_hash r) as [x|] eqn:E; simpl.
  - case_bool_decide as Hx; case_bool_decide as Hy; simpl;
      first [congruence|exact IH|rewrite !Nat2Z.inj_succ; f_equal; exact IH].
  - done.
Qed.

Lemma ref_count_split (h : BlobHash) (id : CommandId) (l : list (EventRow P)) :
  ref_count h l = (ref_count h (List.filter (of_command id) l)
                   + ref_count h (List.filter (λ r, negb (of_command id r)) l))%Z.
Proof.
  unfold ref_count. induction l as [|r l IH]; [done|]. simpl.
  destruct (of_command id r); simpl; destruct (refers h r); simpl; lia.
Qed.

Lemma ref_count_nonneg (h : BlobHash) (l : list (EventRow P)) : (0 ≤ ref_count h l)%Z.
Proof. unfold ref_count. lia. Qed.

(** The database after the events of [id] are gone and their references
    dropped. *)
Definition forget_events (id : CommandId) db : Db P :=
  delete_events id (unref_all (command_hashes db id) db).

Lemma forget_events_ref (id : CommandId) db (h : BlobHash) : ref_ok h db → ref_ok h (forget_events id db).
Proof.
  intros [Hex Hcov]. split.
  - intros r Hr. unfold forget_events, delete_events in *. simpl in Hr.
    destruct (unref_all_lookup _ _ _ _ Hr) as (r0 & H0 & Hc & _).
    rewrite unref_all_rest. simpl. rewrite Hc by (rewrite (Hex _ H0); apply ref_count_nonneg).
    rewrite command_hashes_occ, (Hex _ H0), (ref_count_split h id (events db)).
    pose proof (ref_count_nonneg h (List.filter (λ r1, negb (of_command id r1)) (events db))). lia.
  - intros r Hr Hh. unfold forget_events, delete_events in *. simpl in *.
    rewrite unref_all_rest in Hr. simpl in Hr. rewrite elem_of_list_filter in Hr. destruct Hr as [Hr _].
    apply unref_all_dom. by eapply Hcov.
Qed.

Lemma forget_events_rest (id : CommandId) db :
  events (forget_events id db) = List.filter (λ r, negb (of_command id r)) (events db)
  ∧ commands (forget_events id db) = commands db
  ∧ events_seq (forget_events id db) = events_seq db
  ∧ holds (forget_events id db) = holds db
  ∧ pins (forget_events id db) = pins db
  ∧ paths (forget_events id db) = paths db.
Proof.
  unfold forget_events, delete_events. simpl. rewrite unref_all_rest. by split_and!.
Qed.

(** ** Reaping *)

(** A pin or a hold spares a command. *)
Definition spared db (id : CommandId) : bool := pinned db id || held db id.

(** The database without the command [id]. *)
Definition without_command (id : CommandId) db : Db P :=
  set_commands (delete id (commands db)) (forget_events id db).

Lemma held_spec db (id : CommandId) :
  held db id = true ↔ ∃ pid r, holds db !! (id, pid) = Some r.
Proof.
  unfold held. rewrite existsb_elem. split.
  - intros ([[c pid] r] & Hin & Hc). rewrite elem_of_map_to_list in Hin.
    simpl in Hc. case_bool_decide; [|done]. subst. eauto.
  - intros (pid & r & Hr). exists ((id, pid), r). rewrite elem_of_map_to_list. split; [done|].
    simpl. by case_bool_decide.
Qed.

Lemma forget_events_none (id : CommandId) db : existsb (of_command id) (events (forget_events id db)) = false.
Proof.
  rewrite (proj1 (forget_events_rest id db)).
  destruct (existsb _ _) eqn:E; [|done]. apply existsb_elem in E as (r & Hr & Hc).
  rewrite elem_of_list_filter, negb_true_iff in Hr. destruct Hr. congruence.
Qed.

(** Reaping one command never fails: the pins and holds checked first are
    the only rows that could refer to it once its events are gone. *)
Lemma reap_one_eq db (id : CommandId) :
  reap_one db id = inl (if spared db id then (db, default_batch) else
    (without_command id db,
     mkReapBatch (if command_exists db id then 1 else 0)
       (length (List.filter (of_command id) (events db))) (length (command_hashes db id)))).
Proof.
  unfold reap_one, spared. destruct (pinned db id) eqn:Hp; [done|]. simpl.
  destruct (held db id) eqn:Hh; [done|].
  change (delete_events id (unref_all (command_hashes db id) db)) with (forget_events id db).
  unfold delete_command. rewrite forget_events_none.
  destruct (forget_events_rest id db) as (_ & Hc & _ & Hhs & _).
  assert (held (forget_events id db) id = false) as -> by (unfold held; by rewrite Hhs).
  rewrite andb_false_r. unfold without_command. by rewrite Hc.
Qed.

Lemma without_command_rest (id : CommandId) db :
  events (without_command id db) = List.filter (λ r, negb (of_command id r)) (events db)
  ∧ commands (without_command id db) = delete id (commands db)
  ∧ events_seq (without_command id db) = events_seq db
  ∧ holds (without_command id db) = holds db.
Proof. destruct (forget_events_rest id db) as (He & _ & Hs & Hh & _). by split_and!. Qed.

Lemma without_command_ref (id : CommandId) db (h : BlobHash) : ref_ok h db → ref_ok h (without_command id db).
Proof. apply forget_events_ref. Qed.

Lemma without_command_refs (id : CommandId) db : refs_ok db → refs_ok (without_command id db).
Proof. apply refs_ok_of_each. intros h. apply without_command_ref. Qed.

Definition doomed db (ids : list CommandId) (c : CommandId) : bool :=
  bool_decide (c ∈ ids) && negb (spared db c).

(** What is left after the commands of [ids] are reaped. *)
Record reaped db (ids : list CommandId) db' (n : nat) : Prop := {
  rp_commands : ∀ c, commands db' !! c = if doomed db ids c then None else commands db !! c;
  rp_events : events db' = List.filter (λ r, negb (doomed db ids (er_command r))) (events db);
  rp_seq : events_seq db' = events_seq db;
  rp_pins : pins db' = pins db;
  rp_holds : holds db' = holds db;
  rp_paths : paths db' = paths db;
  rp_blobs : ∀ h, is_Some (blobs db' !! h) ↔ is_Some (blobs db !! h);
  rp_sizes : ∀ h r, blobs db' !! h = Some r → ∃ r0, blobs db !! h = Some r0 ∧ br_size r = br_size r0;
  rp_ref : ∀ h, ref_ok h db → ref_ok h db';
  rp_count : n + size (commands db') = size (commands db);
}.

Lemma rp_refs db db' (ids : list CommandId) (n : nat) : reaped db ids db' n → refs_ok db → refs_ok db'.
Proof. intros Hr. apply refs_ok_of_each, Hr. Qed.

Lemma reaped_spared db db' (ids : list CommandId) (n : nat) (c : CommandId) :
  reaped db ids db' n → spared db' c = spared db c.
Proof. intros [? ? ? Hp Hh]. unfold spared, pinned, held. by rewrite Hp, Hh. Qed.

Lemma list_filter_all {A} (f : A → bool) (l : list A) :
  (∀ x, x ∈ l → f x = true) → List.filter f l = l.
Proof.
  induction l as [|x l IH]; intros Hf; [done|]. simpl. rewrite Hf by left.
  f_equal. apply IH. intros y Hy. apply Hf. by right.
Qed.

Lemma list_filter_none {A} (f : A → bool) (l : list A) :
  (∀ x, x ∈ l → f x = false) → List.filter f l = [].
Proof.
  induction l as [|x l IH]; intros Hf; [done|]. simpl. rewrite (Hf x) by left.
  apply IH. intros y Hy. apply Hf. by right.
Qed.

Lemma list_filter_comp {A} (f g : A → bool) (l : list A) :
  List.filter f (List.filter g l) = List.filter (λ x, g x && f x) l.
Proof. induction l as [|x l IH]; [done|]. simpl. destruct (g x); simpl; [case_match; congruence|done]. Qed.

Lemma list_filter_ext {A} (f g : A → bool) (l : list A) :
  (∀ x, x ∈ l → f x = g x) → List.filter f l = List.filter g l.
Proof.
  induction l as [|x l IH]; intros Hf; [done|]. simpl. rewrite (Hf x) by left.
  rewrite IH; [done|]. intros y Hy. apply Hf. by right.
Qed.

Lemma reaped_nil db : reaped db [] db 0.
Proof.
  split; try done.
  - symmetry. apply list_filter_all. intros r _. unfold doomed.
    by rewrite bool_decide_eq_false_2 by set_solver.
  - eauto.
Qed.

Lemma reaped_one db (id : CommandId) :
  spared db id = false →
  reaped db [id] (without_command id db) (if command_exists db id then 1 else 0).
Proof.
  intros Hsp. destruct (forget_events_rest id db) as (He & Hc & Hs & Hh & Hp & Hpa).
  assert (Hd : ∀ c, doomed db [id] c = bool_decide (c = id)).
  { intros c. unfold doomed. destruct (decide (c = id)) as [->|Hne].
    - rewrite Hsp. by rewrite !bool_decide_eq_true_2 by set_solver.
    - by rewrite !bool_decide_eq_false_2 by set_solver. }
  split; try done.
  - intros c. rewrite Hd. case_bool_decide as Hx; [subst; apply lookup_delete_eq|].
    by rewrite <- (lookup_delete_ne (commands db) id c) by done.
  - change (events (without_command id db)) with (events (forget_events id db)).
    rewrite He. apply list_filter_ext. intros r _. by rewrite Hd.
  - intros h. apply unref_all_dom.
  - intros h r Hr. destruct (unref_all_lookup _ _ _ _ Hr) as (r0 & ? & _ & ?). eauto.
  - intros h. apply without_command_ref.
  - simpl. unfold command_exists. case_bool_decide as Hx.
    + destruct Hx as [r Hr]. rewrite map_size_delete, Hr.
      assert (size (commands db) ≠ 0) by (rewrite map_size_non_empty_iff; by intros E; rewrite E in Hr).
      lia.
    + rewrite delete_id; [done|]. by rewrite eq_None_not_Some.
Qed.

Lemma reaped_trans db db1 db2 (id : CommandId) (ids : list CommandId) (n m : nat) :
  reaped db [id] db1 n → reaped db1 ids db2 m → reaped db (id :: ids) db2 (n + m).
Proof.
  intros H1 H2.
  assert (Hd : ∀ c, doomed db (id :: ids) c = doomed db [id] c || doomed db1 ids c).
  { intros c. unfold doomed. rewrite (reaped_spared db db1 [id] n c H1). destruct (spared db c);
      rewrite ?andb_false_r, ?andb_true_r; [done|]. simpl.
    destruct (decide (c = id)) as [->|Hne].
    - by rewrite !bool_decide_eq_true_2 by set_solver.
    - rewrite (bool_decide_eq_false_2 (c ∈ [id])) by set_solver. simpl.
      apply bool_decide_ext. rewrite elem_of_cons. naive_solver. }
  destruct H1, H2. split; try congruence.
  - intros c. rewrite rp_commands1, rp_commands0, Hd. by destruct (doomed db [id] c), (doomed db1 ids c).
  - rewrite rp_events1, rp_events0, list_filter_comp. apply list_filter_ext. intros r _.
    rewrite Hd. by destruct (doomed db [id] (er_command r)), (doomed db1 ids (er_command r)).
  - intros h. by rewrite rp_blobs1, rp_blobs0.
  - intros h r Hr. destruct (rp_sizes1 _ _ Hr) as (r1 & Hr1 & E1).
    destruct (rp_sizes0 _ _ Hr1) as (r0 & Hr0 & E0). exists r0. split; [done|congruence].
  - auto.
  - lia.
Qed.

Lemma reaped_skip db (id : CommandId) : spared db id = true → reaped db [id] db 0.
Proof.
  intros Hsp. pose proof (reaped_nil db) as []. split; try done.
  - intros c. unfold doomed. destruct (decide (c = id)) as [->|Hne].
    + by rewrite Hsp, andb_false_r.
    + by rewrite bool_decide_eq_false_2 by set_solver.
  - symmetry. apply list_filter_all. intros r _. unfold doomed.
    destruct (decide (er_command r = id)) as [->|Hne].
    + by rewrite Hsp, andb_false_r.
    + by rewrite bool_decide_eq_false_2 by set_solver.
Qed.

Lemma reap_loop_spec (ids : list CommandId) db (acc : ReapBatch) :
  ∃ db' s n, reap_loop db ids acc = inl (db', s)
    ∧ rb_commands_dropped s = rb_commands_dropped acc + n ∧ reaped db ids db' n.
Proof.
  revert db acc. induction ids as [|id ids IH]; intros db acc.
  { exists db, acc, 0. split_and!; [done|lia|apply reaped_nil]. }
  simpl. rewrite reap_one_eq. destruct (spared db id) eqn:Hsp.
  - destruct (IH db (merge acc default_batch)) as (db' & s & n & -> & Hn & Hr).
    exists db', s, n. split_and!; [done|simpl in Hn; lia|].
    apply (reaped_trans db db db' id ids 0 n); [by apply reaped_skip|done].
  - edestruct IH as (db' & s & n & -> & Hn & Hr).
    eexists db', s, _. split; [done|]. split; [|by eapply reaped_trans; [apply reaped_one|]].
    simpl in Hn. rewrite Hn. lia.
Qed.

(** A reap transaction never fails, removes exactly the unspared commands of
    the list with their events, and keeps the counts exact. *)
Lemma reap_commands_spec db (ids : list CommandId) :
  ∃ db' s, reap_commands db ids = inl (db', s) ∧ reaped db ids db' (rb_commands_dropped s).
Proof.
  unfold reap_commands. destruct ids as [|id ids].
  { exists db, default_batch. split; [done|apply reaped_nil]. }
  destruct (reap_loop_spec (id :: ids) db default_batch) as (db' & s & n & -> & Hn & Hr).
  exists db', s. split; [done|]. by rewrite Hn.
Qed.

(** ** Preservation *)

Lemma sorted_filter_ids (f : EventRow P → bool) (l : list (EventRow P)) :
  StronglySorted Z.lt (er_id <$> l) → StronglySorted Z.lt (er_id <$> List.filter f l).
Proof.
  induction l as [|r l IH]; [done|]. rewrite fmap_cons. intros Hs.
  apply StronglySorted_inv in Hs as [Hs Hf]. simpl. destruct (f r); [|auto].
  rewrite fmap_cons. constructor; [auto|]. rewrite Forall_forall in Hf |- *.
  intros x (y & -> & Hy)%list_elem_of_fmap. rewrite elem_of_list_filter in Hy. destruct Hy as [Hy _].
  apply Hf. apply list_elem_of_fmap. eauto.
Qed.

Lemma sorted_snoc (l : list Z) (z : Z) :
  StronglySorted Z.lt l → (∀ x, x ∈ l → (x < z)%Z) → StronglySorted Z.lt (l ++ [z]).
Proof.
  induction 1 as [|x l Hl IH Hx]; intros Hz; [repeat constructor|]. simpl. constructor.
  - apply IH. intros y Hy. apply Hz. by right.
  - apply Forall_app. split; [done|]. constructor; [|constructor]. apply Hz. left.
Qed.

Lemma reaped_ok db db' (ids : list CommandId) (n : nat) : reaped db ids db' n → db_ok db → db_ok db'.
Proof.
  intros [Hc He Hs _ Hh _ _ _ _] [[Hl Hso Hid Hcm Hrow] Hho Hk]. split; [split| |].
  - by rewrite Hs.
  - rewrite He. by apply sorted_filter_ids.
  - rewrite He, Hs. intros r. rewrite elem_of_list_filter. intros [Hr _]. by apply Hid.
  - rewrite He. intros r. rewrite elem_of_list_filter, negb_true_iff. intros [Hr Hd].
    rewrite Hc, Hd. by apply Hcm.
  - rewrite He. intros r. rewrite elem_of_list_filter. intros [Hr _]. by apply Hrow.
  - intros c pid r. rewrite Hh, Hc. intros Hr. unfold doomed, spared.
    assert (held db c = true) as -> by (apply held_spec; eauto).
    rewrite orb_true_r, andb_false_r. by eapply Hho.
  - intros c. rewrite Hc. destruct (doomed db ids c); [by intros [? ?]|apply Hk].
Qed.

(** The row [put_event] appends. *)
Definition event_row (id : Z) (ev : CaptureEvent) (payload : P) : EventRow P :=
  let dn := denormalize (e_kind ev) in
  mkEventRow id (e_command ev) (to_i64 (logical (e_ts ev)))
    (to_i64 (wallclock_unix_nanos (e_ts ev))) (if e_partial ev then 1 else 0)%Z
    (dn_discriminant dn) (dn_dev dn) (dn_inode dn) (dn_path dn) (dn_blob_hash dn)
    (dn_post_content_hash dn) payload.

Record put_event_effect db (ev : CaptureEvent) db' (id : EventId) : Prop := {
  pe_payload : ∃ payload, to_allocvec ev = Some payload
    ∧ events db' = events db ++ [event_row (events_seq db + 1) ev payload];
  pe_id : id = mkEventId (of_i64 (events_seq db + 1));
  pe_room : (events_seq db < i64_max)%Z;
  pe_seq : events_seq db' = (events_seq db + 1)%Z;
  pe_command : is_Some (commands db !! e_command ev);
  pe_commands : commands db' = commands db;
  pe_holds : holds db' = holds db;
  pe_pins : pins db' = pins db;
  pe_blobs : blobs db' = blobs (bump_opt (event_blob (e_kind ev)) db);
}.

Lemma update_path_history_rest db (kind : CaptureEventKind) (ts : TimePoint) :
  update_path_history db kind ts = set_paths (paths (update_path_history db kind ts)) db.
Proof. destruct kind; by destruct db. Qed.

Lemma bump_opt_rest (o : option BlobHash) db : bump_opt o db = set_blobs (blobs (bump_opt o db)) db.
Proof. destruct o; by destruct db. Qed.

Lemma put_event_inv db db' (ev : CaptureEvent) (id : EventId) :
  put_event db ev = inl (db', id) → put_event_effect db ev db' id.
Proof.
  unfold put_event. destruct (to_allocvec ev) as [payload|] eqn:Hp; [|done].
  unfold insert_event, command_exists. case_bool_decide as Hc; [|done]. simpl negb. cbn iota.
  case_bool_decide as Hm; [done|]. intros [= <- <-].
  rewrite update_path_history_rest, bump_opt_rest. split; simpl; try done; [|lia|].
  - by exists payload.
  - by destruct (event_blob (e_kind ev)).
Qed.

Lemma put_event_ok `{!PostcardLaws P} db db' (ev : CaptureEvent) (id : EventId) :
  put_event db ev = inl (db', id) → db_ok db → db_ok db'.
Proof.
  intros [(payload & Hp & He) _ Hroom Hseq Hcmd Hc Hh _ _]%put_event_inv
    [[Hl Hso Hid Hcm Hrow] Hho Hk].
  split; [split| |].
  - rewrite Hseq. lia.
  - rewrite He, fmap_app. apply sorted_snoc; [done|].
    intros x (r & -> & Hr)%list_elem_of_fmap. destruct (Hid r Hr). simpl. lia.
  - rewrite He, Hseq. intros r. rewrite elem_of_app, list_elem_of_singleton.
    intros [Hr| ->]; [destruct (Hid r Hr); lia|]. simpl. lia.
  - rewrite He, Hc. intros r. rewrite elem_of_app, list_elem_of_singleton.
    intros [Hr| ->]; [by apply Hcm|done].
  - rewrite He. intros r. rewrite elem_of_app, list_elem_of_singleton.
    intros [Hr| ->]; [by apply Hrow|]. exists ev. split; [by apply from_to_bytes|done].
  - intros c pid r. rewrite Hh, Hc. apply Hho.
  - by rewrite Hc.
Qed.

(** The blob of an event is recorded. *)
Definition recorded db (ev : CaptureEvent) : Prop :=
  ∀ h, event_blob (e_kind ev) = Some h → is_Some (blobs db !! h).

Lemma bump_opt_dom db (o : option BlobHash) (h : BlobHash) :
  is_Some (blobs (bump_opt o db) !! h) ↔ is_Some (blobs db !! h).
Proof. destruct o as [x|]; [|done]. apply lookup_alter_is_Some. Qed.

Lemma put_event_ref db db' (ev : CaptureEvent) (id : EventId) (h : BlobHash) :
  put_event db ev = inl (db', id) → (event_blob (e_kind ev) = Some h → is_Some (blobs db !! h)) →
  ref_ok h db → ref_ok h db'.
Proof.
  intros [(payload & Hp & He) _ _ _ _ _ _ _ Hb]%put_event_inv Hrec [Hex Hcov].
  split.
  - intros r. rewrite He, Hb, ref_count_app. unfold ref_count at 2, refers, col_eq. simpl.
    fold (event_blob (e_kind ev)). destruct (event_blob (e_kind ev)) as [x|] eqn:Hx; simpl.
    + destruct (decide (x = h)) as [->|Hne].
      * rewrite lookup_alter_eq. destruct (blobs db !! h) as [r0|] eqn:H0; [|done].
        intros [= <-]. simpl. rewrite bool_decide_eq_true_2 by done. simpl.
        by rewrite (Hex r0 eq_refl).
      * rewrite lookup_alter_ne by done. intros Hr. rewrite bool_decide_eq_false_2 by congruence.
        simpl. rewrite (Hex _ Hr). lia.
    + intros Hr. rewrite (Hex _ Hr). lia.
  - intros r. rewrite He, Hb, elem_of_app, list_elem_of_singleton, bump_opt_dom.
    intros [Hr| ->] Hh; [by eapply Hcov|]. by apply Hrec.
Qed.

Lemma put_event_refs db db' (ev : CaptureEvent) (id : EventId) :
  put_event db ev = inl (db', id) → recorded db ev → refs_ok db → refs_ok db'.
Proof. intros Hp Hrec. apply refs_ok_of_each. intros h. eapply put_event_ref; [done|apply Hrec]. Qed.

Lemma put_event_loop_inv (I : Db P → Prop) (Q : CaptureEvent → Prop) :
  (∀ db ev db' id, I db → Q ev → put_event db ev = inl (db', id) → I db') →
  ∀ evs db ids db' ids', I db → Forall Q evs → put_event_loop db evs ids = inl (db', ids') → I db'.
Proof.
  intros Hstep evs. induction evs as [|ev evs IH]; intros db ids db' ids' HI HQ; simpl.
  { by intros [= <- _]. }
  apply Forall_cons in HQ as [Hq HQ]. destruct (put_event db ev) as [[db1 id]|] eqn:E; [|done].
  apply IH; [|done]. by eapply Hstep.
Qed.

Lemma put_event_batch_inv (I : Db P → Prop) (Q : CaptureEvent → Prop) db db' evs ids :
  (∀ db ev db' id, I db → Q ev → put_event db ev = inl (db', id) → I db') →
  I db → Forall Q evs → put_event_batch db evs = inl (db', ids) → I db'.
Proof.
  intros Hstep HI HQ. unfold put_event_batch. destruct evs; [by intros [= <- _]|].
  by eapply put_event_loop_inv.
Qed.

End Inv.

End StoreFacts.
