(* ===== verification/StoreRuns.v ===== *)
(** * Runs of the store

    Every operation of [shit-store] that changes the index, as one type of
    steps, and the invariants over all of its runs. *)

From S2P Require Import Prelude Paths Base Events Probe Tables Index Blobs Retention Gc StoreFacts.

Module StoreRuns.
Import Index Refcount StoreFacts.

Inductive Op :=
  | PutSession (sess : Uuid) (shell_kind : string) (parent_pid : N) (tty : option string)
      (opened : TimePoint)
  | CloseSession (sess : Uuid) (closed : TimePoint)
  | PutCommand (cmd : CommandRecord)
  | PutEvent (ev : CaptureEvent)
  | PutEventBatch (evs : list CaptureEvent)
  | UpdatePathHistory (kind : CaptureEventKind) (ts : TimePoint)
  | PutBlobRecord (h : BlobHash) (size : N) (compressed : bool) (created : TimePoint)
  | DropCommand (id : CommandId)
  | ReapCommands (ids : list CommandId)
  | DropBlobRecord (h : BlobHash)
  | CompactPaths (cutoff : N)
  | PinCommand (id : CommandId) (name : option string) (pinned : N) (expires : option N)
  | HoldCreate (c : CommandId) (pid : N) (user : string) (taken : N) (expires : option N)
      (note : option string)
  | HoldRenew (c : CommandId) (pid taken : N) (expires : option N)
  | HoldRelease (c : CommandId) (pid : N)
  | HoldSweep (now : N)
  | BookmarkCreate (c : CommandId) (created : N) (note : option string)
  | BookmarkRemove (c : CommandId)
  | BumpForUndo (c : CommandId) (bump : N)
  | SetImportance (c : CommandId) (importance : N)
  | StashRegister (now : N) (req : Stash.RegisterRequest)
  | StashRemove (h : BlobHash)
  | StashPrune (now older_than : N).

Section Runs.
Context {P : Type} `{!Postcard P} `{!PostcardLaws P}.
Context (stash_ord : HashOrder BlobHash StashRow).
Implicit Types db : Db P.

(** A failed operation keeps the database. *)
Definition or_keep {A} db (r : IndexResult (Db P * A)) : Db P :=
  match r with inl (db', _) => db' | inr _ => db end.

Definition apply_op db (o : Op) : Db P :=
  match o with
  | PutSession s k p t ts => put_session db s k p t ts
  | CloseSession s ts => close_session db s ts
  | PutCommand cmd => put_command db cmd
  | PutEvent ev => or_keep db (put_event db ev)
  | PutEventBatch evs => or_keep db (put_event_batch db evs)
  | UpdatePathHistory k ts => update_path_history db k ts
  | PutBlobRecord h n c ts => put_blob_record db h n c ts
  | DropCommand id => or_keep db (drop_command db id)
  | ReapCommands ids => or_keep db (reap_commands db ids)
  | DropBlobRecord h => (drop_blob_record db h).1
  | CompactPaths cutoff => (Gc.compact_paths db cutoff).1
  | PinCommand id name p e => pin_command db id name p e
  | HoldCreate c p u t e n => match Holds.create db c p u t e n with inl db' => db' | inr _ => db end
  | HoldRenew c p t e => (Holds.renew db c p t e).1
  | HoldRelease c p => (Holds.release db c p).1
  | HoldSweep now => (Holds.sweep_expired db now).1
  | BookmarkCreate c t n => Bookmarks.bookmark_create db c t n
  | BookmarkRemove c => (Bookmarks.bookmark_remove db c).1
  | BumpForUndo c b => Importance.bump_for_undo db c b
  | SetImportance c i => Importance.set_importance db c i
  | StashRegister now req => Stash.register db now req
  | StashRemove h => (Stash.stash_remove db h).1
  | StashPrune now older => (Stash.prune_older_than stash_ord db now older).1
  end.

(** The arguments are values of their Rust types, where a key is made. *)
Definition op_fits (o : Op) : Prop :=
  match o with PutCommand cmd => u64_fits (seq (c_command cmd)) | _ => True end.

(** A blob is recorded before an event refers to it. *)
Definition records_first db (o : Op) : Prop :=
  match o with
  | PutEvent ev => recorded db ev
  | PutEventBatch evs => Forall (recorded db) evs
  | _ => True
  end.

(** The databases a run reaches, with or without that discipline. *)
Inductive reachable (disciplined : bool) : Db P → Prop :=
  | reach_init : reachable disciplined empty_db
  | reach_step db o :
      reachable disciplined db → op_fits o → (disciplined = true → records_first db o) →
      reachable disciplined (apply_op db o).

(** ** Each operation keeps the invariant *)

Lemma commands_insert_ok db (c : CommandId) (r : CommandRow) :
  u64_fits (seq c) → db_ok db → db_ok (set_commands (<[c := r]> (commands db)) db).
Proof.
  intros Hf [[Hl Hso Hid Hcm Hrow] Hho Hk].
  assert (∀ x, is_Some (commands db !! x) → is_Some (<[c := r]> (commands db) !! x)).
  { intros x Hx. rewrite lookup_insert_is_Some'. by right. }
  split; [split|..]; simpl; try done.
  - eauto.
  - intros x pid h Hh. eauto.
  - intros x. rewrite lookup_insert_is_Some'. intros [<-|Hx]; [done|by apply Hk].
Qed.

Lemma commands_alter_ok db (c : CommandId) (f : CommandRow → CommandRow) :
  db_ok db → db_ok (set_commands (alter f c (commands db)) db).
Proof.
  intros [[Hl Hso Hid Hcm Hrow] Hho Hk].
  split; [split|..]; simpl; try done.
  - intros r Hr. rewrite lookup_alter_is_Some. by apply Hcm.
  - intros x pid h Hh. rewrite lookup_alter_is_Some. by eapply Hho.
  - intros x. rewrite lookup_alter_is_Some. apply Hk.
Qed.

Lemma holds_subset_ok db (hs : gmap (CommandId * N) HoldRow) :
  (∀ k r, hs !! k = Some r → is_Some (holds db !! k)) → db_ok db → db_ok (set_holds hs db).
Proof.
  intros Hsub [Hj Hho Hk]. split; [done| |done]. intros c pid r Hr.
  destruct (Hsub _ _ Hr) as [r' Hr']. by eapply Hho.
Qed.

Lemma drop_command_reaped db db' (id : CommandId) (n : nat) :
  drop_command db id = inl (db', n) →
  db' = without_command id db ∧ (command_exists db id = true → held db id = false).
Proof.
  unfold drop_command. change (delete_events id (unref_all (command_hashes db id) db))
    with (forget_events id db).
  unfold delete_command. rewrite forget_events_none.
  destruct (forget_events_rest id db) as (_ & Hc & _ & Hh & _).
  unfold command_exists, held. rewrite Hc, Hh. unfold without_command.
  simpl orb. case_bool_decide; simpl; [|intros [= <- _]; split; [done|by intros ?]].
  destruct (existsb _ _); [done|]. intros [= <- _]. done.
Qed.

(** Dropping a command that exists is reaping it without the pin check. *)
Lemma without_command_ok db (id : CommandId) :
  (command_exists db id = true → held db id = false) → db_ok db → db_ok (without_command id db).
Proof.
  intros Hn [[Hl Hso Hid Hcm Hrow] Hho Hk].
  destruct (without_command_rest id db) as (He & Hc & Hs & Hh).
  split; [split|..]; rewrite ?He, ?Hc, ?Hs, ?Hh; try done.
  - by apply sorted_filter_ids.
  - intros r. rewrite elem_of_list_filter. intros [Hr _]. by apply Hid.
  - intros r. rewrite elem_of_list_filter, negb_true_iff. unfold of_command.
    rewrite bool_decide_eq_false. intros [Hr Ho]. rewrite lookup_delete_ne by done. by apply Hcm.
  - intros r. rewrite elem_of_list_filter. intros [Hr _]. by apply Hrow.
  - intros c pid r Hr. destruct (decide (c = id)) as [->|Hne].
    + assert (held db id = true) as Ht by (apply held_spec; eauto).
      pose proof (Hho _ _ _ Hr) as Hs'. unfold command_exists in Hn.
      rewrite bool_decide_eq_true_2 in Hn by done. rewrite Hn in Ht by done. done.
    + rewrite lookup_delete_ne by done. by eapply Hho.
  - intros c [r Hr]. apply lookup_delete_Some in Hr as [_ Hr]. apply Hk. by eexists.
Qed.

Lemma apply_op_ok db (o : Op) : op_fits o → db_ok db → db_ok (apply_op db o).
Proof.
  intros Hf Hok. pose proof Hok as [Hj Hho Hk]. destruct o; simpl; try done.
  - by apply commands_insert_ok.
  - destruct (put_event db ev) as [[db' id]|] eqn:E; [|done]. by eapply put_event_ok.
  - destruct (put_event_batch db evs) as [[db' ids]|] eqn:E; [|done]. simpl.
    eapply (put_event_batch_inv db_ok (λ _, True)); [|done|by apply Forall_true|done].
    intros ? ? ? ? ? _ ?. by eapply put_event_ok.
  - by rewrite update_path_history_rest.
  - unfold put_blob_record. by destruct (blobs db !! h).
  - destruct (drop_command db id) as [[db' n]|] eqn:E; [|done]. simpl.
    destruct (drop_command_reaped _ _ _ _ E) as [-> Hn]. by apply without_command_ok.
  - destruct (reap_commands_spec db ids) as (db' & s & -> & Hr). by eapply reaped_ok.
  - unfold drop_blob_record. destruct (blobs db !! h); [|done]. by case_bool_decide.
  - unfold Holds.create, command_exists. case_bool_decide as Hc; [|done].
    split; [done| |done]. intros x p r. simpl. rewrite lookup_insert_Some.
    intros [[[= -> ->] _]|[_ Hr]]; [done|by eapply Hho].
  - apply holds_subset_ok; [|done]. intros k r Hr%mk_is_Some.
    by rewrite lookup_alter_is_Some in Hr.
  - apply holds_subset_ok; [|done]. intros k r [_ Hr]%lookup_delete_Some. by eexists.
  - apply holds_subset_ok; [|done]. intros k r [Hr _]%map_lookup_filter_Some. by eexists.
  - by apply commands_alter_ok.
  - by apply commands_alter_ok.
  - unfold Stash.prune_older_than. by case_match.
Qed.

(** ** Each disciplined operation keeps the counts exact *)

Lemma put_blob_record_ref db (h h' : BlobHash) (n : N) (c : bool) (ts : TimePoint) :
  ref_ok h' db → ref_ok h' (put_blob_record db h n c ts).
Proof.
  intros [Hex Hcov]. unfold put_blob_record. destruct (blobs db !! h) as [r0|] eqn:H0; [done|].
  split; simpl.
  - intros r. rewrite lookup_insert_Some. intros [[<- <-]|[_ Hr]]; [|by apply Hex].
    simpl. symmetry. apply ref_count_zero. intros e He Hh.
    destruct (Hcov _ He Hh) as [? ?]. congruence.
  - intros e He Hh. rewrite lookup_insert_is_Some'. right. by eapply Hcov.
Qed.

Lemma put_blob_record_refs db (h : BlobHash) (n : N) (c : bool) (ts : TimePoint) :
  refs_ok db → refs_ok (put_blob_record db h n c ts).
Proof. apply refs_ok_of_each. intros h'. apply put_blob_record_ref. Qed.

Lemma drop_blob_record_ref db (h h' : BlobHash) : ref_ok h' db → ref_ok h' (drop_blob_record db h).1.
Proof.
  intros [Hex Hcov]. unfold drop_blob_record. destruct (blobs db !! h) as [r0|] eqn:H0; [|done].
  case_bool_decide as Hz; [|done]. split; simpl.
  - intros r [_ Hr]%lookup_delete_Some. by apply Hex.
  - intros e He Hh. destruct (decide (h' = h)) as [->|Hne].
    + rewrite (Hex _ H0) in Hz. rewrite ref_count_zero in Hz. by destruct (Hz e He).
    + rewrite lookup_delete_ne by done. by eapply Hcov.
Qed.

Lemma drop_blob_record_refs db (h : BlobHash) : refs_ok db → refs_ok (drop_blob_record db h).1.
Proof. apply refs_ok_of_each. intros h'. apply drop_blob_record_ref. Qed.

Lemma recorded_mono db db' (ev : CaptureEvent) :
  (∀ h, is_Some (blobs db !! h) → is_Some (blobs db' !! h)) → recorded db ev → recorded db' ev.
Proof. intros Hsub Hr h Hh. by apply Hsub, Hr. Qed.

Lemma put_event_dom db db' (ev : CaptureEvent) (id : EventId) (h : BlobHash) :
  put_event db ev = inl (db', id) → is_Some (blobs db' !! h) ↔ is_Some (blobs db !! h).
Proof. intros [_ _ _ _ _ _ _ _ ->]%put_event_inv. apply bump_opt_dom. Qed.

Lemma put_event_batch_refs db db' (evs : list CaptureEvent) ids :
  put_event_batch db evs = inl (db', ids) → Forall (recorded db) evs → refs_ok db → refs_ok db'.
Proof.
  intros Hb Hrec Hr.
  eapply (put_event_batch_inv (λ d, refs_ok d ∧ ∀ h, is_Some (blobs db !! h) → is_Some (blobs d !! h))
            (recorded db)) in Hb; [apply Hb| |done|done].
  intros d ev d' id [Hd Hs] Hq Hp. split.
  - eapply put_event_refs; [done| |done]. by eapply recorded_mono.
  - intros h Hh. rewrite (put_event_dom _ _ _ _ _ Hp). auto.
Qed.

Lemma apply_op_refs db (o : Op) : records_first db o → refs_ok db → refs_ok (apply_op db o).
Proof.
  intros Hf Hok. destruct o; simpl; try done.
  - destruct (put_event db ev) as [[db' id]|] eqn:E; [|done]. by eapply put_event_refs.
  - destruct (put_event_batch db evs) as [[db' ids]|] eqn:E; [|done]. by eapply put_event_batch_refs.
  - by rewrite update_path_history_rest.
  - by apply put_blob_record_refs.
  - destruct (drop_command db id) as [[db' n]|] eqn:E; [|done]. simpl.
    destruct (drop_command_reaped _ _ _ _ E) as [-> Hn]. by apply without_command_refs.
  - destruct (reap_commands_spec db ids) as (db' & s & -> & Hr). by apply (rp_refs _ _ _ _ Hr).
  - by apply drop_blob_record_refs.
  - unfold Holds.create. by destruct (command_exists db c).
  - unfold Stash.prune_older_than. by case_match.
Qed.

Lemma empty_ok : db_ok (empty_db : Db P).
Proof.
  split; [split|..]; simpl.
  - unfold i64_max. lia.
  - constructor.
  - by intros r ?%elem_of_nil.
  - by intros r ?%elem_of_nil.
  - by intros r ?%elem_of_nil.
  - done.
  - by intros c [? ?].
Qed.

Lemma empty_refs : refs_ok (empty_db : Db P).
Proof. split; [done|]. by intros h r ?%elem_of_nil. Qed.

(** C28. In every state the index reaches, whatever operations ran and in
    whatever order, and with every failed operation rolled back: event
    identifiers strictly increase, each event row decodes and its columns
    repeat its payload, and every event and hold belongs to a recorded
    command. *)
Theorem index_invariant (d : bool) db : reachable d db → db_ok db.
Proof. induction 1 as [|db o _ IH Hf _]; [apply empty_ok|by apply apply_op_ok]. Qed.

(** C29. If blobs are recorded before events refer to them, the reference
    count of every blob is the number of journal rows that refer to it and
    every referenced blob is recorded, after any sequence of operations. *)
Theorem refcounts_exact db : reachable true db → refs_ok db.
Proof. induction 1 as [|db o _ IH _ Hf]; [apply empty_refs|by apply apply_op_refs; [apply Hf|]]. Qed.

End Runs.

End StoreRuns.
