(* ===== verification/GcFacts.v ===== *)
(** * Facts on garbage collection

    A pass ends, whatever it is given; however it ends (complete, cancelled
    or failed) it removed only expired, unprotected commands and blobs nothing
    refers to; a complete pass leaves neither behind. *)

From S2P Require Import Prelude Paths Base Events Probe Tables Index Blobs Gc StoreFacts StoreRuns.

Module GcFacts.
Import Index Refcount StoreFacts StoreRuns Gc.

Section Facts.
Context {P : Type} `{!Postcard P}.
Context (cmd_ord : HashOrder CommandId CommandRow) (blob_ord : HashOrder BlobHash BlobRow).
Context (cancel : nat → bool) (remove_ok : BlobHash → bool) (vacuum : Db P → bool).
Implicit Types db : Db P.

(** ** What a pass may do *)

Record collected (cutoff : N) db (fs : Blobs.BlobFiles) db' (fs' : Blobs.BlobFiles) : Prop := {
  co_commands : ∀ c, commands db' !! c = commands db !! c
    ∨ (commands db' !! c = None
       ∧ ∃ r, commands db !! c = Some r ∧ eligible db (cutoff_signed cutoff) (c, r) = true);
  co_events : ∀ c, is_Some (commands db' !! c) →
    List.filter (of_command c) (events db') = List.filter (of_command c) (events db);
  co_pins : pins db' = pins db;
  co_holds : holds db' = holds db;
  co_ok : db_ok db → db_ok db';
  co_ref : ∀ h, ref_ok h db → ref_ok h db';
  co_blobs : ∀ h r', blobs db' !! h = Some r' →
    ∃ r, blobs db !! h = Some r ∧ br_size r' = br_size r;
  co_files : ∀ h, is_Some (blobs db' !! h) → fs' !! h = fs !! h;
  co_sub : fs' ⊆ fs;
}.

Lemma co_refs (cutoff : N) db fs db' fs' : collected cutoff db fs db' fs' → refs_ok db → refs_ok db'.
Proof. intros Hc. apply refs_ok_of_each, Hc. Qed.

Lemma collected_refl (cutoff : N) db fs : collected cutoff db fs db fs.
Proof. split; try done; [by left|eauto]. Qed.

Lemma eligible_ext db db' (cutoff : Z) (kr : CommandId * CommandRow) :
  pins db' = pins db → holds db' = holds db → eligible db' cutoff kr = eligible db cutoff kr.
Proof. intros Hp Hh. unfold eligible, pinned, held. by rewrite Hp, Hh. Qed.

Lemma collected_trans (cutoff : N) db0 fs0 db1 fs1 db2 fs2 :
  collected cutoff db0 fs0 db1 fs1 → collected cutoff db1 fs1 db2 fs2 →
  collected cutoff db0 fs0 db2 fs2.
Proof.
  intros [C1 E1 P1 H1 O1 R1 B1 F1 S1] [C2 E2 P2 H2 O2 R2 B2 F2 S2]. split; try congruence; auto.
  - intros c. destruct (C2 c) as [->|[HN (r & Hr & He)]]; [apply C1|].
    right. split; [done|]. rewrite (eligible_ext db0) in He by done.
    destruct (C1 c) as [<-|[HN' _]]; [eauto|congruence].
  - intros c Hc. rewrite E2 by done. apply E1. destruct (C2 c) as [<-|[HN _]]; [done|].
    destruct Hc. congruence.
  - intros h r Hr. destruct (B2 _ _ Hr) as (r1 & Hr1 & E). destruct (B1 _ _ Hr1) as (r0 & ? & ?).
    exists r0. split; [done|congruence].
  - intros h Hh. rewrite F2 by done. apply F1. destruct Hh as [r Hr].
    destruct (B2 _ _ Hr) as (r1 & ? & _). by eexists.
  - by etransitivity.
Qed.

(** ** Reaping a batch *)

Lemma elem_of_batch db (cutoff limit : N) (c : CommandId) :
  keys_ok (commands db) → c ∈ mark_expired_batch cmd_ord db cutoff limit →
  ∃ r, commands db !! c = Some r ∧ eligible db (cutoff_signed cutoff) (c, r) = true.
Proof.
  intros Hk. unfold mark_expired_batch. intros ([c' r] & -> & Hin)%list_elem_of_fmap.
  apply sql_limit_incl in Hin. rewrite elem_of_sort_by, elem_of_list_filter in Hin.
  destruct Hin as [Hin He]. unfold scan_table in Hin. rewrite elem_of_hash_iter in Hin. simpl.
  rewrite of_to_i64 by (apply Hk; by eexists). exists r. by destruct c'.
Qed.

Lemma eligible_spared db (cutoff : Z) (c : CommandId) (r : CommandRow) :
  eligible db cutoff (c, r) = true → spared db c = false.
Proof.
  unfold eligible, spared. simpl. rewrite !andb_true_iff, !negb_true_iff. by intros [[-> ->] _].
Qed.

Lemma reaped_events db db' (ids : list CommandId) (n : nat) (c : CommandId) :
  reaped db ids db' n → doomed db ids c = false →
  List.filter (of_command c) (events db') = List.filter (of_command c) (events db).
Proof.
  intros [_ He _] Hd. rewrite He, list_filter_comp. apply list_filter_ext. intros r _.
  unfold of_command. case_bool_decide as Hc; [|by rewrite andb_false_r]. by rewrite Hc, Hd.
Qed.

Lemma reap_collected db db' fs (cutoff limit : N) (n : nat) :
  keys_ok (commands db) →
  reaped db (mark_expired_batch cmd_ord db cutoff limit) db' n → collected cutoff db fs db' fs.
Proof.
  intros Hk Hr. pose proof Hr as [Hc He Hs Hp Hh _ Hb Hz Hrf _]. split; try done.
  - intros c. rewrite Hc. destruct (doomed _ _ c) eqn:Hd; [|by left]. right. split; [done|].
    unfold doomed in Hd. apply andb_true_iff in Hd as [Hd _]. case_bool_decide as Hin; [|done].
    by eapply elem_of_batch.
  - intros c. rewrite Hc. destruct (doomed _ _ c) eqn:Hd; [by intros [? ?]|]. intros _.
    by eapply reaped_events.
  - intros Hok. by eapply reaped_ok.
Qed.

(** The first command of a batch exists and is dropped. *)
Lemma reap_progress db db' (cutoff limit : N) (c : CommandId) (cs : list CommandId) (n : nat) :
  keys_ok (commands db) → mark_expired_batch cmd_ord db cutoff limit = c :: cs →
  reaped db (c :: cs) db' n → 0 < n.
Proof.
  intros Hk Hb [Hc _ _ _ _ _ _ _ _ Hn].
  destruct (elem_of_batch db cutoff limit c Hk) as (r & Hr & He); [rewrite Hb; left|].
  assert (commands db' !! c = None) as Hnone.
  { rewrite Hc. unfold doomed. rewrite (eligible_spared _ _ _ _ He).
    by rewrite bool_decide_eq_true_2 by left. }
  destruct n as [|n]; [|lia]. exfalso.
  assert (commands db' ⊆ commands db) as Hsub.
  { apply map_subseteq_spec. intros x rx. rewrite Hc. by destruct (doomed _ _ x). }
  assert (commands db' = commands db) as E.
  { apply map_subseteq_size_eq; [done|]. simpl in Hn. lia. }
  rewrite E in Hnone. congruence.
Qed.

(** ** The first loop *)

Lemma mark_loop_total (fuel : nat) (cutoff limit : N) (s : Pass P) :
  size (commands (g_db s)) < fuel → is_Some (mark_loop cmd_ord cancel fuel cutoff limit s).
Proof.
  revert s. induction fuel as [|fuel IH]; intros s Hf; [lia|].
  cbn [mark_loop]. unfold unless_cancelled.
  destruct (cancel _); [by eexists|]. cbn [g_db g_files g_report g_checks].
  destruct (mark_expired_batch cmd_ord (g_db s) cutoff limit) as [|c cs]; [by eexists|].
  destruct (reap_commands_spec (g_db s) (c :: cs)) as (db' & b & -> & Hr).
  case_bool_decide as Hz; [by eexists|]. apply IH. simpl. destruct Hr as [_ _ _ _ _ _ _ _ _ Hn]. lia.
Qed.

(** However the loop ends, only eligible commands went; when it ends
    normally none is left. *)
Lemma mark_loop_spec (fuel : nat) (cutoff limit : N) (s s' : Pass P) (res : unit + GcError) :
  db_ok (g_db s) → mark_loop cmd_ord cancel fuel cutoff limit s = Some (s', res) →
  collected cutoff (g_db s) (g_files s) (g_db s') (g_files s')
  ∧ (res = inl () → mark_expired_batch cmd_ord (g_db s') cutoff limit = []).
Proof.
  revert s. induction fuel as [|fuel IH]; intros s Hok; [done|].
  cbn [mark_loop]. unfold unless_cancelled.
  destruct (cancel _); [intros [= <- <-]; split; [apply collected_refl|done]|].
  cbn [g_db g_files g_report g_checks].
  destruct (mark_expired_batch cmd_ord (g_db s) cutoff limit) as [|c cs] eqn:Hb.
  { intros [= <- <-]. split; [apply collected_refl|done]. }
  destruct (reap_commands_spec (g_db s) (c :: cs)) as (db' & b & -> & Hr).
  pose proof (reap_progress _ _ _ _ _ _ _ (ok_keys _ Hok) Hb Hr) as Hp.
  rewrite <- Hb in Hr. pose proof (reap_collected _ _ (g_files s) _ _ _ (ok_keys _ Hok) Hr) as Hcol.
  rewrite bool_decide_eq_false_2 by lia. intros Hl.
  apply IH in Hl as [Hl1 Hl2]; [|by apply Hcol]. split; [|done]. by eapply collected_trans.
Qed.

(** ** The sweep *)

(** A blob whose recorded count is zero. *)
Definition unreferenced db (h : BlobHash) : Prop :=
  ∃ r, blobs db !! h = Some r ∧ br_refcount r = 0%Z.

Lemma elem_of_unreferenced db (h : BlobHash) :
  h ∈ unreferenced_blobs blob_ord db ↔ unreferenced db h.
Proof.
  unfold unreferenced_blobs, scan_table, unreferenced. rewrite list_elem_of_fmap. split.
  - intros ([h' r] & -> & Hin). rewrite elem_of_list_filter, elem_of_hash_iter in Hin.
    destruct Hin as [Hin Hz]. simpl in *. case_bool_decide; [eauto|done].
  - intros (r & Hr & Hz). exists (h, r). split; [done|].
    rewrite elem_of_list_filter, elem_of_hash_iter. split; [done|]. simpl. by case_bool_decide.
Qed.

Lemma NoDup_unreferenced db : NoDup (unreferenced_blobs blob_ord db).
Proof.
  unfold unreferenced_blobs, scan_table. pose proof (hash_iter_perm (blobs db)) as Hp.
  apply (list_filter_perm (λ kr, bool_decide (br_refcount kr.2 = 0%Z))) in Hp.
  rewrite Hp. assert (NoDup (map_to_list (blobs db)).*1) as Hn by apply NoDup_fst_map_to_list.
  clear Hp.
  induction (map_to_list (blobs db)) as [|[k r] l IH]; [constructor|].
  rewrite fmap_cons, NoDup_cons in Hn. destruct Hn as [Hk Hn]. simpl in *.
  case_match; [|auto]. rewrite fmap_cons, NoDup_cons. split; [|auto].
  intros ([k' r'] & Hk' & Hin)%list_elem_of_fmap. simpl in Hk'. subst k'. apply Hk.
  rewrite elem_of_list_filter in Hin. destruct Hin as [Hin _]. apply list_elem_of_fmap.
  by exists (k, r').
Qed.

Lemma sweep_one_spec (s : Pass P) (h : BlobHash) :
  unreferenced (g_db s) h →
  g_db (sweep_one remove_ok s h) = set_blobs (delete h (blobs (g_db s))) (g_db s)
  ∧ g_files (sweep_one remove_ok s h) = (Blobs.blob_delete remove_ok (g_files s) h).1.
Proof.
  intros (r & Hr & Hz). unfold sweep_one, drop_blob_record. rewrite Hr.
  by rewrite bool_decide_eq_true_2 by done.
Qed.

Lemma blob_delete_sub (fs : Blobs.BlobFiles) (h : BlobHash) :
  (Blobs.blob_delete remove_ok fs h).1 ⊆ fs.
Proof. unfold Blobs.blob_delete. repeat case_match; simpl; try done. apply delete_subseteq. Qed.

Lemma sweep_one_collected (cutoff : N) (s : Pass P) (h : BlobHash) :
  unreferenced (g_db s) h →
  collected cutoff (g_db s) (g_files s) (g_db (sweep_one remove_ok s h))
    (g_files (sweep_one remove_ok s h)).
Proof.
  intros Hu. destruct (sweep_one_spec s h Hu) as [-> ->]. destruct Hu as (r & Hr & Hz).
  split; simpl; try done.
  - by left.
  - intros Hok. by destruct Hok.
  - intros h' Href. pose proof (drop_blob_record_ref (g_db s) h h' Href) as Hd.
    unfold drop_blob_record in Hd. rewrite Hr, bool_decide_eq_true_2 in Hd by done. done.
  - intros h' r' [_ Hr']%lookup_delete_Some. eauto.
  - intros h' [r' Hr']. apply lookup_delete_Some in Hr' as [Hne _].
    by rewrite Blobs.blob_delete_other.
  - apply blob_delete_sub.
Qed.

Lemma sweep_loop_total (hs : list BlobHash) (s : Pass P) :
  is_Some (sweep_loop cancel remove_ok hs s).
Proof.
  revert s. induction hs as [|h hs IH]; intros s; simpl; [by eexists|].
  unfold unless_cancelled. destruct (cancel _); [by eexists|apply IH].
Qed.

Lemma sweep_loop_spec (cutoff : N) (hs : list BlobHash) (s s' : Pass P) (res : unit + GcError) :
  NoDup hs → (∀ h, h ∈ hs → unreferenced (g_db s) h) →
  sweep_loop cancel remove_ok hs s = Some (s', res) →
  collected cutoff (g_db s) (g_files s) (g_db s') (g_files s')
  ∧ commands (g_db s') = commands (g_db s) ∧ events (g_db s') = events (g_db s)
  ∧ (res = inl () → ∀ h, h ∈ hs → blobs (g_db s') !! h = None).
Proof.
  revert s. induction hs as [|h hs IH]; intros s Hnd Hu; simpl.
  { intros [= <- <-]. split_and!; [apply collected_refl|done..|by intros _ h ?%elem_of_nil]. }
  unfold unless_cancelled. destruct (cancel _).
  { intros [= <- <-]. split_and!; [apply collected_refl|done..]. }
  apply NoDup_cons in Hnd as [Hh Hnd]. set (s1 := mkPass (g_db s) _ _ _). intros Hl.
  assert (Hu1 : unreferenced (g_db s1) h) by (apply Hu; left).
  destruct (sweep_one_spec s1 h Hu1) as [Hd _].
  apply IH in Hl as (Hc & Hcm & Hev & Hdone); [|done|].
  - rewrite Hd in Hcm, Hev. split_and!; [|done|done|].
    + eapply collected_trans; [|exact Hc]. exact (sweep_one_collected cutoff s1 h Hu1).
    + intros Hres h' [->|Hin]%elem_of_cons; [|by apply Hdone].
      apply eq_None_not_Some. intros [r Hr]. destruct Hc as [_ _ _ _ _ _ Hb _ _].
      destruct (Hb _ _ Hr) as (r' & Hr' & _). rewrite Hd in Hr'. simpl in Hr'.
      by rewrite lookup_delete_eq in Hr'.
  - intros h' Hin. rewrite Hd. destruct (Hu h') as (r & Hr & Hz); [by right|].
    exists r. simpl. rewrite lookup_delete_ne; [done|]. by intros ->.
Qed.

(** ** The whole pass *)

Abbreviation pass := (run_pass cmd_ord blob_ord cancel remove_ok vacuum).

(** The cutoff a pass works with, when the sizes of the blobs add up. *)
Definition pass_cutoff db (config : GcConfig) (now : N) : option N :=
  match total_blob_size blob_ord db with
  | inl size_now => Some (effective_cutoff config size_now now).2
  | inr _ => None
  end.

Lemma finish_spec (cutoff : N) (s s' : Pass P) (res : GcReport + GcError) :
  finish cancel vacuum cutoff s = Some (s', res) →
  collected cutoff (g_db s) (g_files s) (g_db s') (g_files s')
  ∧ commands (g_db s') = commands (g_db s) ∧ events (g_db s') = events (g_db s)
  ∧ blobs (g_db s') = blobs (g_db s).
Proof.
  unfold finish, unless_cancelled, compact_paths. simpl.
  repeat (destruct (cancel _); [intros [= <- <-]; simpl; split_and!; try done|]).
  - apply collected_refl.
  - split; simpl; try done; [by left|by intros []|eauto].
  - intros [= <- <-]. simpl. split_and!; try done. split; simpl; try done; [by left|by intros []|eauto].
Qed.

Lemma finish_total (cutoff : N) (s : Pass P) : is_Some (finish cancel vacuum cutoff s).
Proof.
  unfold finish, unless_cancelled, compact_paths. simpl.
  repeat (destruct (cancel _); [by eexists|]). by eexists.
Qed.

(** However a pass ends. *)
Lemma pass_spec db files (config : GcConfig) (now : N) (s : Pass P) (res : GcReport + GcError) :
  db_ok db → pass db files config now = Some (s, res) →
  match pass_cutoff db config now with
  | None => g_db s = db ∧ g_files s = files ∧ ∃ e, res = inr e
  | Some cutoff =>
      collected cutoff db files (g_db s) (g_files s)
      ∧ ∀ report, res = inl report →
          mark_expired_batch cmd_ord (g_db s) cutoff (batch_size config) = []
          ∧ (refs_ok db → ∀ h, ¬ unreferenced (g_db s) h)
  end.
Proof.
  intros Hok. unfold run_pass, pass_cutoff.
  destruct (total_blob_size blob_ord db) as [size_now|e];
    [|intros [= <- <-]; split_and!; [done..|eauto]].
  destruct (effective_cutoff config size_now now) as [aggressive cutoff].
  cbv beta iota zeta. cbn [snd].
  set (s1 := mkPass db files _ 0).
  destruct (mark_loop _ _ _ _ _ s1) as [[s2 r2]|] eqn:Hm; [|done].
  apply mark_loop_spec in Hm as [Hc1 Hnone]; [|done]. change (g_db s1) with db in Hc1.
  change (g_files s1) with files in Hc1. unfold and_then at 1.
  destruct r2 as [[]|e]; [|intros [= <- <-]; by split].
  unfold unless_cancelled. destruct (cancel _); [intros [= <- <-]; by split|].
  set (s2' := mkPass (g_db s2) _ _ _).
  destruct (sweep_loop_total (unreferenced_blobs blob_ord (g_db s2')) s2') as [[s3 r3] Hs].
  rewrite Hs. unfold and_then.
  apply (sweep_loop_spec cutoff) in Hs as (Hc2 & Hcm & Hev & Hgone);
    [|apply NoDup_unreferenced|intros h; apply elem_of_unreferenced].
  assert (collected cutoff db files (g_db s3) (g_files s3)) as Hc3 by by eapply collected_trans.
  destruct r3 as [[]|e]; [|intros [= <- <-]; by split].
  intros (Hc4 & Hcm' & Hev' & Hb')%finish_spec. split; [by eapply collected_trans|].
  intros report _. split.
  - rewrite <- (Hnone eq_refl). unfold mark_expired_batch. rewrite Hcm', Hcm.
    do 3 f_equal. apply list_filter_ext. intros kr _. apply eligible_ext.
    + by rewrite (co_pins _ _ _ _ _ Hc4), (co_pins _ _ _ _ _ Hc2).
    + by rewrite (co_holds _ _ _ _ _ Hc4), (co_holds _ _ _ _ _ Hc2).
  - intros Hrefs h (r & Hr & Hz). rewrite Hb' in Hr.
    destruct (co_blobs _ _ _ _ _ Hc2 _ _ Hr) as (r0 & Hr0 & _).
    assert (unreferenced (g_db s2) h) as Hu.
    { exists r0. split; [done|]. destruct (co_refs _ _ _ _ _ Hc1 Hrefs) as [Hx _].
      destruct (co_refs _ _ _ _ _ Hc3 Hrefs) as [Hy _].
      change (events (g_db s2')) with (events (g_db s2)) in Hev.
      rewrite (Hx _ _ Hr0), <- Hev, <- (Hy _ _ Hr). done. }
    rewrite <- elem_of_unreferenced in Hu. rewrite (Hgone eq_refl _ Hu) in Hr. done.
Qed.

(** C30. A collection pass ends on every index, with every configuration and
    whenever it is cancelled; the loop over expired commands never runs more
    rounds than there are commands. *)
Theorem gc_pass_terminates db files (config : GcConfig) (now : N) :
  is_Some (pass db files config now).
Proof.
  unfold run_pass. destruct (total_blob_size blob_ord db) as [size_now|e]; [|by eexists].
  destruct (effective_cutoff config size_now now) as [aggressive cutoff].
  cbv beta iota zeta. cbn [snd].
  set (s1 := mkPass db files _ 0).
  destruct (mark_loop_total (S (size (commands db))) cutoff (batch_size config) s1) as [[s2 r2] Hm].
  { simpl. lia. }
  rewrite Hm. unfold and_then at 1. destruct r2 as [[]|e]; [|by eexists].
  unfold unless_cancelled. destruct (cancel _); [by eexists|].
  set (s2' := mkPass (g_db s2) _ _ _).
  destruct (sweep_loop_total (unreferenced_blobs blob_ord (g_db s2')) s2') as [[s3 r3] Hs].
  rewrite Hs. unfold and_then.
  destruct r3 as [[]|e]; [apply finish_total|by eexists].
Qed.

(** The command and everything undo needs of it are as before: its record, its
    events, and each blob of them whose references are counted exactly. *)
Record intact db (fs : Blobs.BlobFiles) db' (fs' : Blobs.BlobFiles) (c : CommandId) : Prop := {
  in_command : commands db' !! c = commands db !! c;
  in_events : List.filter (of_command c) (events db') = List.filter (of_command c) (events db);
  in_blobs : ∀ e h, e ∈ List.filter (of_command c) (events db) → er_blob_hash e = Some h → ref_ok h db →
    br_size <$> blobs db' !! h = br_size <$> blobs db !! h ∧ fs' !! h = fs !! h;
}.

Lemma collected_intact (cutoff : N) db fs db' fs' (c : CommandId) :
  collected cutoff db fs db' fs' → is_Some (commands db' !! c) → intact db fs db' fs' c.
Proof.
  intros Hcol Hc. pose proof (co_events _ _ _ _ _ Hcol c Hc) as He. split; [|done|].
  - destruct (co_commands _ _ _ _ _ Hcol c) as [->|[HN _]]; [done|]. rewrite HN in Hc. by destruct Hc.
  - intros e h Hin Hh Href. pose proof (co_ref _ _ _ _ _ Hcol h Href) as [_ Hcov].
    assert (is_Some (blobs db' !! h)) as [r' Hr'].
    { rewrite <- He, elem_of_list_filter in Hin. destruct Hin as [Hin _]. by eapply Hcov. }
    split; [|apply (co_files _ _ _ _ _ Hcol); by eexists].
    destruct (co_blobs _ _ _ _ _ Hcol _ _ Hr') as (r & Hr & Hs). rewrite Hr', Hr. simpl. by rewrite Hs.
Qed.

Lemma pass_intact db files (config : GcConfig) (now : N) (s : Pass P) (res : GcReport + GcError)
    (c : CommandId) :
  db_ok db → pass db files config now = Some (s, res) →
  is_Some (commands (g_db s) !! c) → intact db files (g_db s) (g_files s) c.
Proof.
  intros Hok Hp Hc. pose proof (pass_spec _ _ _ _ _ _ Hok Hp) as Hs.
  destruct (pass_cutoff db config now) as [cutoff|].
  - destruct Hs as [Hcol _]. by eapply collected_intact.
  - destruct Hs as (-> & -> & _). by split.
Qed.

(** C26. A collection pass never touches what it must keep, however it ends
    (completed, cancelled at any check, or failed): pinned and held commands
    and commands not older than the cutoff survive with all their events; a
    blob whose reference count is exact keeps an exact count, and its record
    and its file as long as an event refers to it; and the index invariant
    holds again. *)
Theorem gc_pass_safe db files (config : GcConfig) (now : N) (s : Pass P) (res : GcReport + GcError) :
  db_ok db → pass db files config now = Some (s, res) →
  db_ok (g_db s)
  ∧ (∀ h, ref_ok h db → ref_ok h (g_db s)
       ∧ ∀ e, e ∈ events (g_db s) → er_blob_hash e = Some h →
           is_Some (blobs (g_db s) !! h) ∧ g_files s !! h = files !! h)
  ∧ (∀ c r, commands db !! c = Some r →
       spared db c = true
       ∨ (∀ cutoff, pass_cutoff db config now = Some cutoff →
            (cutoff_signed cutoff ≤ cr_started_logical r)%Z) →
       commands (g_db s) !! c = Some r ∧ intact db files (g_db s) (g_files s) c).
Proof.
  intros Hok Hp. pose proof (pass_spec _ _ _ _ _ _ Hok Hp) as Hs.
  assert (Hi : ∀ c, is_Some (commands (g_db s) !! c) → intact db files (g_db s) (g_files s) c).
  { intros c. by eapply pass_intact. }
  destruct (pass_cutoff db config now) as [cutoff|].
  - destruct Hs as [Hcol _]. split_and!; [by apply Hcol| |].
    + intros h Href. pose proof (co_ref _ _ _ _ _ Hcol h Href) as Hr'. split; [done|].
      intros e He Hh. destruct Hr' as [_ Hcov]. split; [by eapply Hcov|].
      apply (co_files _ _ _ _ _ Hcol). by eapply Hcov.
    + intros c r Hr Hkeep. assert (commands (g_db s) !! c = Some r) as Hc; [|split; [done|]].
      * destruct (co_commands _ _ _ _ _ Hcol c) as [->|[_ (r' & Hrr & He)]]; [done|].
        replace r' with r in He by congruence. exfalso. destruct Hkeep as [Hsp|Hage].
        { rewrite (eligible_spared _ _ _ _ He) in Hsp. done. }
        specialize (Hage _ eq_refl). unfold eligible in He. rewrite !andb_true_iff in He.
        destruct He as [_ He]. simpl in He. case_bool_decide; [lia|done].
      * apply Hi. by eexists.
  - destruct Hs as (Hd & Hf & _). rewrite Hd, Hf in *. split_and!; [done| |].
    + intros h Href. split; [done|]. intros e He Hh. split; [|done]. destruct Href as [_ Hcov]. by eapply Hcov.
    + intros c r Hr _. split; [done|]. apply Hi. by eexists.
Qed.

Lemma sql_limit_nil {A} (n : Z) (l : list A) : n ≠ 0%Z → sql_limit n l = [] → l = [].
Proof.
  unfold sql_limit. intros Hn. case_bool_decide; [done|].
  destruct (Z.to_nat n) eqn:E; [lia|]. by destruct l.
Qed.

(** C31. A pass that completes leaves nothing to collect: every command still
    there is protected or younger than the cutoff, and every blob still
    recorded is referred to by an event of the journal. *)
Theorem gc_pass_complete db files (config : GcConfig) (now cutoff : N) (s : Pass P)
    (report : GcReport) :
  db_ok db → refs_ok db → (0 < batch_size config < 2 ^ 64)%N →
  pass_cutoff db config now = Some cutoff → pass db files config now = Some (s, inl report) →
  (∀ c r, commands (g_db s) !! c = Some r →
     spared (g_db s) c = true ∨ (cutoff_signed cutoff ≤ cr_started_logical r)%Z)
  ∧ (∀ h, is_Some (blobs (g_db s) !! h) →
       ∃ e, e ∈ events (g_db s) ∧ er_blob_hash e = Some h).
Proof.
  intros Hok Hrefs Hb Hcut Hp. pose proof (pass_spec _ _ _ _ _ _ Hok Hp) as Hs. rewrite Hcut in Hs.
  destruct Hs as [Hcol Hdone]. destruct (Hdone _ eq_refl) as [Hnone Hunref]. split.
  - intros c r Hr. destruct (eligible (g_db s) (cutoff_signed cutoff) (c, r)) eqn:He.
    + exfalso. unfold mark_expired_batch in Hnone. apply fmap_nil_inv in Hnone.
      apply sql_limit_nil in Hnone.
      * apply (elem_of_nil (c, r)). rewrite <- Hnone, elem_of_sort_by, elem_of_list_filter.
        unfold scan_table. by rewrite elem_of_hash_iter.
      * intros Hz. apply (to_i64_inj _ 0) in Hz; [lia|apply Hb|done].
    + unfold eligible in He. simpl in He. unfold spared.
      rewrite !andb_false_iff, !negb_false_iff, bool_decide_eq_false in He.
      destruct He as [[->| ->]|He]; [by left|left; apply orb_true_r|right; lia].
  - intros h [r Hr]. destruct (co_refs _ _ _ _ _ Hcol Hrefs) as [Hex _].
    destruct (decide (br_refcount r = 0%Z)) as [Hz|Hnz]; [by destruct (Hunref Hrefs h); exists r|].
    rewrite (Hex _ _ Hr) in Hnz. unfold ref_count in Hnz.
    destruct (List.filter (refers h) (events (g_db s))) as [|e l] eqn:E; [done|].
    assert (e ∈ List.filter (refers h) (events (g_db s))) as Hin by (rewrite E; left).
    rewrite elem_of_list_filter in Hin. destruct Hin as [Hin Hh]. exists e. split; [done|].
    unfold refers, col_eq in Hh. by case_bool_decide.
Qed.

End Facts.

End GcFacts.
