(* ===== verification/StorePlan.v ===== *)
(** * The store under the planner

    The persistent index implements the store the planner is verified
    against: it simulates the in-memory journal step by step, answers the
    planner's queries alike and so yields the same undo plans, before and
    after garbage collection. *)

From S2P Require Import Prelude Paths Base Events Inverse Probe Network Classify Plan PlanFacts Tables Index.
From S2P Require Import Blobs Gc StoreFacts StoreRuns GcFacts.

Module StorePlan.
Import Index StoreFacts StoreRuns GcFacts.

Section Refine.
Context {P : Type} `{!Postcard P} `{!PostcardLaws P}.
Implicit Types db : Db P.

(** ** The abstraction *)

Definition journal db : list CaptureEvent := omap decode_event_row (events db).

Definition abstract_store db : InMemoryStore :=
  mkInMemoryStore (journal db) (map_imap (λ c r, Some (row_to_record c r)) (commands db))
    ((λ r, of_i64 (br_size r)) <$> blobs db).

(** The event with the identifier of its row. *)
Definition with_id (id : EventId) (ev : CaptureEvent) : CaptureEvent :=
  mkEvent id (e_command ev) (e_ts ev) (e_partial ev) (e_kind ev).

Lemma decode_faithful (r : EventRow P) :
  row_faithful r →
  ∃ ev, decode_event_row r = Some (with_id (mkEventId (of_i64 (er_id r))) ev)
    ∧ e_command ev = er_command r ∧ event_blob (e_kind ev) = er_blob_hash r
    ∧ er_ts_logical r = to_i64 (logical (e_ts ev)).
Proof.
  intros (ev & Hd & Hc & Ht & _ & _ & _ & Hb). exists ev. unfold decode_event_row. rewrite Hd. done.
Qed.

(** Decoding commutes with selecting by what a row shares with its event. *)
Lemma omap_filter_rows (p : EventRow P → bool) (q : CaptureEvent → bool) (l : list (EventRow P)) :
  (∀ r, r ∈ l → row_faithful r) →
  (∀ r ev, r ∈ l → e_command ev = er_command r → p r = q ev) →
  omap decode_event_row (List.filter p l) = List.filter q (omap decode_event_row l).
Proof.
  induction l as [|r l IH]; intros Hf Hpq; [done|]. simpl.
  destruct (decode_faithful r) as (ev & Hd & Hc & _); [apply Hf; left|].
  assert (omap decode_event_row (List.filter p l) = List.filter q (omap decode_event_row l)) as IH'.
  { apply IH; [intros x Hx; apply Hf; by right|intros x e Hx; apply Hpq; by right]. }
  set (e := with_id (mkEventId (of_i64 (er_id r))) ev) in *.
  rewrite Hd. simpl. rewrite (Hpq r e); [|left|done].
  destruct (q e); simpl; [rewrite Hd; by f_equal|done].
Qed.

(** ** Identifiers *)

Lemma of_i64_inj (x y : Z) : (0 ≤ x ≤ i64_max)%Z → (0 ≤ y ≤ i64_max)%Z → of_i64 x = of_i64 y → x = y.
Proof.
  unfold of_i64, i64_as_u64, wrap_u64, i64_max. intros Hx Hy.
  rewrite !Z.mod_small by lia. lia.
Qed.

Lemma journal_unique db : db_ok db → unique_ids (journal db).
Proof.
  intros [[Hl Hso Hid _ Hrow] _ _]. unfold unique_ids, journal.
  revert Hso Hid Hrow. induction (events db) as [|r l IH]; intros Hso Hid Hrow; [constructor|].
  rewrite fmap_cons in Hso. apply StronglySorted_inv in Hso as [Hso Hlt].
  destruct (decode_faithful r) as (ev & Hev & _); [apply Hrow; left|].
  assert (omap decode_event_row (r :: l) =
    with_id (mkEventId (of_i64 (er_id r))) ev :: omap decode_event_row l) as ->
    by (simpl; by rewrite Hev).
  rewrite fmap_cons, NoDup_cons. split.
  - intros (e & He & Hin)%list_elem_of_fmap. apply list_elem_of_omap in Hin as (r' & Hr' & Hd).
    destruct (decode_faithful r') as (ev' & Hd' & _); [apply Hrow; by right|].
    rewrite Hd in Hd'. injection Hd' as ->. simpl in He. injection He as He.
    apply of_i64_inj in He.
    + rewrite Forall_forall in Hlt. specialize (Hlt (er_id r')).
      assert (er_id r < er_id r')%Z; [|lia]. apply Hlt. apply list_elem_of_fmap. eauto.
    + destruct (Hid r); [left|]. lia.
    + destruct (Hid r'); [by right|]. lia.
  - apply IH; [done|intros x Hx; apply Hid; by right|intros x Hx; apply Hrow; by right].
Qed.

(** ** Queries *)

Lemma events_for_command_eq db (c : CommandId) :
  events_for_command (index_store db) c =
  omap decode_event_row (sort_by ts_id_leb (List.filter (of_command c) (events db))).
Proof. done. Qed.

Lemma events_for_command_perm db (c : CommandId) :
  db_ok db →
  events_for_command (index_store db) c ≡ₚ
  events_for_command (in_memory_store (abstract_store db)) c.
Proof.
  intros Hok. rewrite events_for_command_eq.
  change (events_for_command (in_memory_store (abstract_store db)) c)
    with (sort_by (leb_of event_cmp)
      (List.filter (λ e, bool_decide (e_command e = c)) (omap decode_event_row (events db)))).
  rewrite !sort_by_perm.
  rewrite (omap_filter_rows _ (λ e, bool_decide (e_command e = c))); [done|apply Hok|].
  intros r ev _ E. unfold of_command. by rewrite E.
Qed.

Lemma abstract_command db (c : CommandId) :
  ms_commands (abstract_store db) !! c = row_to_record c <$> commands db !! c.
Proof. simpl. rewrite map_lookup_imap. by destruct (commands db !! c). Qed.

Lemma to_i64_mono (m n : N) : (m < 2 ^ 63)%N → (n < 2 ^ 63)%N → (to_i64 m ≤ to_i64 n)%Z ↔ (m ≤ n)%N.
Proof. intros Hm Hn. rewrite !to_i64_small by done. lia. Qed.

Lemma max_fold_spec (sess : Uuid) (l : list CommandId) :
  match foldr (λ c acc, if bool_decide (session c = sess)
                  then Some (match acc with Some m => Z.max (to_i64 (seq c)) m | None => to_i64 (seq c) end)
                  else acc) None l with
  | Some m => (∃ c, c ∈ l ∧ session c = sess ∧ to_i64 (seq c) = m)
      ∧ ∀ c, c ∈ l → session c = sess → (to_i64 (seq c) ≤ m)%Z
  | None => ∀ c, c ∈ l → session c ≠ sess
  end.
Proof.
  induction l as [|x l IH]; [by intros c ?%elem_of_nil|].
  cbn [foldr]. case_bool_decide as Hs; revert IH; destruct (foldr _ None l) as [m|]; intros IH.
  - destruct IH as [(c & Hc & Hsc & Hm) Hmax]. split.
    + destruct (Z.max_spec (to_i64 (seq x)) m) as [[_ ->]|[_ ->]].
      * exists c. split_and!; [by right|done|done].
      * exists x. split_and!; [left|done|done].
    + intros d [->|Hd]%elem_of_cons Hsd; [lia|]. specialize (Hmax d Hd Hsd). lia.
  - split; [exists x; split_and!; [left|done|done]|].
    intros d [->|Hd]%elem_of_cons Hsd; [lia|]. by destruct (IH d Hd).
  - destruct IH as [(c & Hc & Hsc & Hm) Hmax]. split; [exists c; split_and!; [by right|done|done]|].
    intros d [->|Hd]%elem_of_cons Hsd; [done|]. by apply Hmax.
  - intros d [->|Hd]%elem_of_cons; [done|]. by apply IH.
Qed.

Lemma elem_of_keys {K V} `{Countable K} (m : gmap K V) (k : K) :
  k ∈ (map_to_list m).*1 ↔ is_Some (m !! k).
Proof.
  rewrite list_elem_of_fmap. split.
  - intros ([k' r] & -> & Hr). rewrite elem_of_map_to_list in Hr. by eexists.
  - intros [r Hr]. exists (k, r). by rewrite elem_of_map_to_list.
Qed.

Lemma max_seq_spec db (sess : Uuid) :
  match max_seq db sess with
  | Some m => (∃ c, is_Some (commands db !! c) ∧ session c = sess ∧ to_i64 (seq c) = m)
      ∧ ∀ c, is_Some (commands db !! c) → session c = sess → (to_i64 (seq c) ≤ m)%Z
  | None => ∀ c, is_Some (commands db !! c) → session c ≠ sess
  end.
Proof.
  pose proof (max_fold_spec sess (map_to_list (commands db)).*1) as Hm. unfold max_seq.
  destruct (foldr _ None _) as [m|]; [destruct Hm as [(c & Hc & H1 & H2) Hmax]; split|].
  - exists c. by rewrite elem_of_keys in Hc.
  - intros d. rewrite <- elem_of_keys. apply Hmax.
  - intros d. rewrite <- elem_of_keys. apply Hm.
Qed.

(** Sequence numbers below [i64::MAX]; the shells count from one. *)
Definition small_seqs db : Prop := ∀ c, is_Some (commands db !! c) → (seq c < 2 ^ 63)%N.

Lemma latest_command_eq db (sess : Uuid) :
  small_seqs db →
  latest_command_for_session (index_store db) sess =
  latest_command_for_session (in_memory_store (abstract_store db)) sess.
Proof.
  intros Hs. cbn [latest_command_for_session index_store in_memory_store].
  set (vals := List.filter _ _).
  assert (Hv : ∀ r, r ∈ vals ↔ ms_commands (abstract_store db) !! c_command r = Some r
                            ∧ session (c_command r) = sess).
  { intros r. unfold vals. rewrite elem_of_list_filter, elem_of_command_values, bool_decide_eq_true.
    split; [|intros [? ?]; split; [by eexists|done]]. intros [(k & Hk) Hse]. split; [|done].
    pose proof Hk as Hk'. rewrite abstract_command in Hk. destruct (commands db !! k); [|done].
    injection Hk as <-. done. }
  pose proof (max_seq_spec db sess) as Hm. destruct (max_seq db sess) as [m|].
  - destruct Hm as [(c & [row Hc] & Hse & <-) Hmax].
    destruct (max_by_seq vals) as [best|] eqn:Hb.
    + apply max_by_seq_spec in Hb as [Hin Hbest]. apply Hv in Hin as [Hbl Hbs].
      rewrite abstract_command in Hbl. destruct (commands db !! c_command best) as [rb|] eqn:Erb; [|done].
      injection Hbl as Hbl. assert (row_to_record c row ∈ vals) as Hcin.
      { apply Hv. split; [|done]. change (c_command (row_to_record c row)) with c. by rewrite abstract_command, Hc. }
      specialize (Hbest _ Hcin). simpl in Hbest.
      assert (is_Some (commands db !! c_command best)) as Hbd by by eexists.
      specialize (Hmax _ Hbd Hbs). apply to_i64_mono in Hmax; [|by apply Hs|apply Hs; by eexists].
      assert (c_command best = c) as E.
      { destruct (c_command best) as [s1 q1], c as [s2 q2]. simpl in *. f_equal; [congruence|lia]. }
      rewrite of_to_i64 by (unfold u64_fits; pose proof (Hs c (mk_is_Some _ _ Hc)); lia).
      rewrite <- Hse. replace (mkCommandId (session c) (seq c)) with c by by destruct c.
      unfold command_by_id. rewrite <- E, Erb. simpl. by rewrite Hbl.
    + exfalso. assert (row_to_record c row ∈ vals) as Hcin.
      { apply Hv. split; [|done]. change (c_command (row_to_record c row)) with c. by rewrite abstract_command, Hc. }
      by apply max_by_seq_none in Hb as ->; apply elem_of_nil in Hcin.
  - symmetry. destruct (max_by_seq vals) as [best|] eqn:Hb; [|done].
    apply max_by_seq_spec in Hb as [[Hbl Hbs]%Hv _]. rewrite abstract_command in Hbl.
    destruct (commands db !! c_command best) eqn:E; [|done]. by destruct (Hm (c_command best)).
Qed.

Lemma events_for_session_perm db (sess : Uuid) (r : SeqRange) :
  db_ok db → small_seqs db → (sr_start r < 2 ^ 63)%N → (sr_end r < 2 ^ 63)%N →
  events_for_session (index_store db) sess r ≡ₚ
  events_for_session (in_memory_store (abstract_store db)) sess r.
Proof.
  intros Hok Hs H1 H2. cbn [events_for_session index_store in_memory_store abstract_store ms_events].
  unfold collect_events, sort_session, journal. rewrite !sort_by_perm.
  erewrite omap_filter_rows; [done|apply Hok|]. intros row ev Hrow E. unfold row_seq. rewrite E.
  rewrite <- andb_assoc. f_equal. unfold SeqRange_contains.
  assert (seq (er_command row) < 2 ^ 63)%N by (apply Hs, Hok, Hrow).
  f_equal; apply bool_decide_ext; rewrite !to_i64_small by done; lia.
Qed.

Lemma find_omap_rows (id : EventId) (l : list (EventRow P)) :
  (event_id id < 2 ^ 63)%N → (∀ r, r ∈ l → row_faithful r ∧ (0 ≤ er_id r ≤ i64_max)%Z) →
  List.find (λ e, bool_decide (er_id e = to_i64 (event_id id))) l ≫= decode_event_row =
  List.find (λ e, bool_decide (e_id e = id)) (omap decode_event_row l).
Proof.
  intros Hid. induction l as [|r l IH]; intros Hl; [done|].
  destruct (Hl r) as [Hf Hr]; [left|]. destruct (decode_faithful r Hf) as (ev & Hd & _).
  cbn [List.find omap list_omap]. rewrite Hd. cbn [List.find with_id e_id].
  assert (bool_decide (er_id r = to_i64 (event_id id)) =
          bool_decide (mkEventId (of_i64 (er_id r)) = id)) as ->.
  { apply bool_decide_ext. rewrite to_i64_small by done. destruct id as [n]. simpl in *.
    unfold of_i64, i64_as_u64, wrap_u64, i64_max in *. rewrite Z.mod_small by lia.
    split; [intros ->; f_equal; lia|]. intros [= <-]. lia. }
  case_bool_decide; [done|]. apply IH. intros x Hx. apply Hl. by right.
Qed.

(** What the planner and the command line see of two stores is the same. The
    queries by file and by path agree on the events that the journal's are
    about, up to the names a rename led away from; the index gives other
    events too (stashed appends, and those of the file a path led to). *)
Record store_agrees (st st' : PlannerStore) : Prop := {
  sa_events : ∀ c, events_for_command st c ≡ₚ events_for_command st' c;
  sa_session : ∀ sess r, (sr_start r < 2 ^ 63)%N → (sr_end r < 2 ^ 63)%N →
    events_for_session st sess r ≡ₚ events_for_session st' sess r;
  sa_latest : ∀ sess, latest_command_for_session st sess = latest_command_for_session st' sess;
  sa_command : ∀ c, Probe.command_by_id st c = Probe.command_by_id st' c;
  sa_event : ∀ id, (event_id id < 2 ^ 63)%N → event_by_id st id = event_by_id st' id;
  sa_blob : ∀ h, blob_size_hint st h = blob_size_hint st' h;
  sa_inode : ∀ i since e, touches_inode (e_kind e) i = true → time_leb since (e_ts e) = true →
    (logical (e_ts e) < 2 ^ 63)%N → e ∈ events_touching_inode st i since ↔ e ∈ events_touching_inode st' i since;
  sa_path : ∀ p at_ e, touches_path (e_kind e) p = true → dn_path (denormalize (e_kind e)) = Some p →
    time_leb (e_ts e) at_ = true → (logical at_ < 2 ^ 63)%N →
    e ∈ events_touching_path st p at_ ↔ e ∈ events_touching_path st' p at_;
}.

Lemma time_leb_logical (a b : TimePoint) : time_leb a b = true → (logical a ≤ logical b)%N.
Proof.
  unfold time_leb, leb_of, time_cmp, on_cmp, pair_cmp, time_key. simpl.
  destruct (N.compare_spec (logical a) (logical b)); [lia|lia|done].
Qed.

(** An event is among the rows a query selects when it is journaled and the
    query's condition is met by what its row repeats of it. *)
Lemma elem_of_collect leb where_ db e :
  db_ok db →
  (∀ r, row_faithful r → decode_event_row r = Some e → where_ r = true) →
  e ∈ collect_events leb where_ db ↔ e ∈ journal db.
Proof.
  intros Hok Hw. unfold collect_events, journal. rewrite !list_elem_of_omap. setoid_rewrite elem_of_sort_by.
  setoid_rewrite elem_of_list_filter. split; [naive_solver|]. intros (r & Hr & Hd). exists r. split_and!; [done| |done].
  apply Hw; [by apply Hok|done].
Qed.

(** The columns of a row, by its event. *)
Lemma row_columns (r : EventRow P) (e : CaptureEvent) :
  row_faithful r → decode_event_row r = Some e →
  er_ts_logical r = to_i64 (logical (e_ts e)) ∧ er_dev r = dn_dev (denormalize (e_kind e))
  ∧ er_inode r = dn_inode (denormalize (e_kind e)) ∧ er_path r = dn_path (denormalize (e_kind e)).
Proof.
  intros (ev & Hev & _ & Ht & Hdev & Hino & Hp & _). unfold decode_event_row. rewrite Hev. by intros [= <-].
Qed.

Lemma touches_inode_columns (kind : CaptureEventKind) (i : InodeRef) :
  touches_inode kind i = true →
  dn_dev (denormalize kind) = Some (to_i64 (i_dev i)) ∧ dn_inode (denormalize kind) = Some (to_i64 (i_ino i)).
Proof.
  destruct kind; try done; [| |destruct op; try done]; simpl; case_bool_decide; try done; intros _; by subst.
Qed.

Lemma touching_inode_agree db i since e :
  db_ok db → touches_inode (e_kind e) i = true → time_leb since (e_ts e) = true → (logical (e_ts e) < 2 ^ 63)%N →
  e ∈ events_touching_inode (index_store db) i since
  ↔ e ∈ events_touching_inode (in_memory_store (abstract_store db)) i since.
Proof.
  intros Hok Ht Hts Hlt. cbn [events_touching_inode index_store in_memory_store abstract_store ms_events].
  unfold sort_events. rewrite elem_of_sort_by, elem_of_list_filter, Hts, Ht. simpl.
  rewrite elem_of_collect; [by split; [|intros []]|done|]. intros r Hf Hd.
  destruct (row_columns r e Hf Hd) as (-> & -> & -> & _). destruct (touches_inode_columns _ _ Ht) as [-> ->].
  apply time_leb_logical in Hts. unfold col_eq. rewrite !andb_true_iff, !bool_decide_eq_true.
  split_and!; [done|done|]. apply to_i64_mono; lia.
Qed.

Lemma touching_path_agree db p at_ e :
  db_ok db → touches_path (e_kind e) p = true → dn_path (denormalize (e_kind e)) = Some p →
  time_leb (e_ts e) at_ = true → (logical at_ < 2 ^ 63)%N →
  e ∈ events_touching_path (index_store db) p at_
  ↔ e ∈ events_touching_path (in_memory_store (abstract_store db)) p at_.
Proof.
  intros Hok Ht Hp Hts Hlt. cbn [events_touching_path index_store in_memory_store abstract_store ms_events].
  unfold sort_events. rewrite elem_of_sort_by, elem_of_list_filter, Hts, Ht. simpl.
  rewrite elem_of_collect; [by split; [|intros []]|done|]. intros r Hf Hd.
  destruct (row_columns r e Hf Hd) as (H1 & _ & _ & H4). unfold path_where, col_eq. rewrite H1, H4, Hp.
  apply time_leb_logical in Hts. rewrite !bool_decide_eq_true_2; [done|done|]. apply to_i64_mono; lia.
Qed.

Lemma index_store_agrees db :
  db_ok db → small_seqs db → store_agrees (index_store db) (in_memory_store (abstract_store db)).
Proof.
  intros Hok Hs. split.
  - intros c. by apply events_for_command_perm.
  - intros sess r. by apply events_for_session_perm.
  - intros sess. by apply latest_command_eq.
  - intros c. cbn [Probe.command_by_id index_store in_memory_store]. by rewrite abstract_command.
  - intros id Hid. apply find_omap_rows; [done|]. destruct Hok as [[Hl _ Hi _ Hr] _ _].
    intros r Hin. destruct (Hi r Hin). split; [by apply Hr|lia].
  - intros h. cbn [blob_size_hint index_store in_memory_store abstract_store ms_blobs].
    by rewrite lookup_fmap.
  - intros i since e. by apply touching_inode_agree.
  - intros p at_ e. by apply touching_path_agree.
Qed.

(** ** Simulation *)

(** The fields are values of their Rust types and the list of event
    identifiers, which no table stores, is empty. *)
Record record_fits (cmd : CommandRecord) : Prop := {
  rf_pid : (c_pid cmd < 2 ^ 32)%N;
  rf_started : u64_fits (logical (c_started_at cmd)) ∧ u64_fits (wallclock_unix_nanos (c_started_at cmd));
  rf_ended : ∀ t, c_ended_at cmd = Some t →
    u64_fits (logical t) ∧ u64_fits (wallclock_unix_nanos t);
  rf_ids : c_event_ids cmd = [];
}.

(** What recording [cmd] makes of the record of the same command: a later
    recording only closes the command and fills in a missing text. *)
Definition merged (old : option CommandRecord) (cmd : CommandRecord) : CommandRecord :=
  match old with
  | None => cmd
  | Some o => mkCommandRecord (c_command cmd) (coalesce (c_cmd_string cmd) (c_cmd_string o))
                (c_cwd o) (c_pid o) (c_shell_kind o) (c_started_at o) (c_ended_at cmd)
                (c_exit_code cmd) []
  end.

Lemma ended_roundtrip (t : option TimePoint) :
  (∀ x, t = Some x → u64_fits (logical x) ∧ u64_fits (wallclock_unix_nanos x)) →
  match (λ x, to_i64 (logical x)) <$> t, (λ x, to_i64 (wallclock_unix_nanos x)) <$> t with
  | Some l, Some w => Some (mkTime (of_i64 l) (of_i64 w))
  | _, _ => None
  end = t.
Proof.
  destruct t as [x|]; [|done]. intros H. destruct (H x eq_refl). simpl.
  rewrite !of_to_i64 by done. by destruct x.
Qed.

Lemma shell_roundtrip (k : ShellKind) :
  default ShellKind.Unknown (shell_from_str (shell_as_str k)) = k.
Proof. by destruct k. Qed.

Lemma put_command_simulates db (cmd : CommandRecord) :
  record_fits cmd →
  abstract_store (put_command db cmd) =
  Probe.put_command (abstract_store db)
    (merged (ms_commands (abstract_store db) !! c_command cmd) cmd).
Proof.
  intros [Hp [Hl Hw] He Hi]. unfold Probe.put_command, abstract_store at 1 2. f_equal.
  apply map_eq. intros c. rewrite map_lookup_imap. unfold put_command.
  assert (∀ o, c_command (merged o cmd) = c_command cmd) as -> by by intros [].
  cbn [commands set_commands ms_commands].
  destruct (decide (c = c_command cmd)) as [->|Hne];
    [rewrite !lookup_insert_eq|rewrite !lookup_insert_ne by done; by rewrite abstract_command].
  cbn [mbind option_bind]. f_equal. rewrite abstract_command.
  destruct (commands db !! c_command cmd) as [r|]; cbn [fmap option_fmap option_map merged].
  - unfold row_to_record at 1. simpl. f_equal. by apply ended_roundtrip.
  - unfold row_to_record. simpl. rewrite !of_to_i64, shell_roundtrip, ended_roundtrip by done.
    unfold i64_as_u32. rewrite Z.mod_small, N2Z.id by lia. rewrite <- Hi.
    destruct cmd as [id s cw pid k [l w] en ex ids]. done.
Qed.

Lemma bump_sizes (o : option BlobHash) db :
  (λ r, of_i64 (br_size r)) <$> blobs (bump_opt o db) = (λ r, of_i64 (br_size r)) <$> blobs db.
Proof.
  destruct o as [h|]; [|done]. apply map_eq. intros h'. rewrite !lookup_fmap. simpl.
  destruct (decide (h' = h)) as [->|]; [|by rewrite lookup_alter_ne by done].
  rewrite lookup_alter_eq. by destruct (blobs db !! h).
Qed.

Lemma put_event_simulates db db' (ev : CaptureEvent) (id : EventId) :
  put_event db ev = inl (db', id) →
  abstract_store db' = Probe.put_event (abstract_store db) (with_id id ev).
Proof.
  intros Hp. pose proof (put_event_inv _ _ _ _ Hp) as [(payload & Ha & He) Hid _ _ _ Hc _ _ Hb].
  unfold abstract_store, Probe.put_event. simpl. f_equal.
  - unfold journal. rewrite He, omap_app. f_equal. simpl. unfold decode_event_row at 1. simpl.
    rewrite (from_to_bytes _ _ Ha). unfold with_id. by rewrite Hid.
  - by rewrite Hc.
  - rewrite Hb. apply bump_sizes.
Qed.

Lemma put_blob_simulates db (h : BlobHash) (n : N) (c : bool) (ts : TimePoint) :
  u64_fits n → blobs db !! h = None →
  abstract_store (put_blob_record db h n c ts) = Probe.put_blob (abstract_store db) h n.
Proof.
  intros Hn Hh. unfold put_blob_record. rewrite Hh. unfold abstract_store, put_blob. simpl. f_equal.
  rewrite fmap_insert. simpl. by rewrite of_to_i64.
Qed.

(** C27. The persistent index refines the in-memory journal the planner is
    specified with, while sequence numbers are below [2^63], the range in which
    SQL compares them. In every such state the events of a command and of a
    range of a session are the journal's, up to their order; the latest command
    of a session, a command, an event and the size of a blob are the journal's.
    The queries by inode and by path, which the planner does not make, are
    answered differently: the index also gives stashed appends and the events
    of the file a path led to, and files a rename under one of its two names;
    only on the events the journal's answers are about, under the name the row
    carries, do they agree. Each recording operation on the tables is the
    corresponding operation on the journal, with the row identifier the index
    assigned to the event. *)
Theorem index_refines_store db :
  db_ok db → small_seqs db →
  store_agrees (index_store db) (in_memory_store (abstract_store db))
  ∧ (∀ ev db' id, put_event db ev = inl (db', id) →
       abstract_store db' = Probe.put_event (abstract_store db) (with_id id ev))
  ∧ (∀ cmd, record_fits cmd →
       abstract_store (put_command db cmd) =
       Probe.put_command (abstract_store db)
         (merged (ms_commands (abstract_store db) !! c_command cmd) cmd))
  ∧ (∀ h n c ts, u64_fits n → blobs db !! h = None →
       abstract_store (put_blob_record db h n c ts) = put_blob (abstract_store db) h n).
Proof.
  intros Hok Hs. split_and!; [by apply index_store_agrees| | |].
  - intros ev db' id. apply put_event_simulates.
  - intros cmd. apply put_command_simulates.
  - intros h n c ts. apply put_blob_simulates.
Qed.

(** ** Plans over the index *)

(** The planner asks the store only whether the blobs of its events exist. *)
Lemma emit_store_ext (syn : Network.NetSynth) (ev : CaptureEvent) (probe : StateProbe)
    (st st' : PlannerStore) (class : Classify.EventClassification) :
  (∀ h, event_blob (e_kind ev) = Some h →
     is_Some (blob_size_hint st h) ↔ is_Some (blob_size_hint st' h)) →
  Plan.emit_for_event syn ev probe st class = Plan.emit_for_event syn ev probe st' class.
Proof.
  unfold Plan.emit_for_event, event_blob. destruct (e_kind ev) as [i p blob_hash m post src| | | | | | | | | | | | | | |]; try done. simpl. intros Hb.
  specialize (Hb _ eq_refl). f_equal. unfold Plan.emit_file_pre_image.
  repeat (case_match; [done|]).
  assert (∀ c, Plan.blob_conflict blob_hash st c = Plan.blob_conflict blob_hash st' c) as Hx.
  { intros [c|]; [done|]. unfold Plan.blob_conflict.
    destruct (blob_size_hint st blob_hash), (blob_size_hint st' blob_hash); try done.
    - destruct (proj1 Hb); [by eexists|done].
    - destruct (proj2 Hb); [by eexists|done]. }
  by rewrite Hx.
Qed.

Lemma plan_store_ext (syn : Network.NetSynth) (ord : HashOrder InodeRef (gset PathBuf))
    (command : CommandRecord) (evs evs' : list CaptureEvent) (probe : StateProbe)
    (st st' : PlannerStore) :
  unique_ids evs → evs ≡ₚ evs' →
  (∀ e h, e ∈ evs → event_blob (e_kind e) = Some h →
     is_Some (blob_size_hint st h) ↔ is_Some (blob_size_hint st' h)) →
  Plan.plan syn ord command evs probe st = Plan.plan syn ord command evs' probe st'.
Proof.
  intros Hu Hp Hb. unfold Plan.plan. destruct (Plan.refuse_plan command); [done|].
  rewrite <- (PlanFacts.live_events_perm evs evs'),
    <- (PlanFacts.initial_warnings_perm command evs evs') by done.
  set (live := Plan.reverse_chronological _). set (class := Plan.classify _ _ _).
  assert (Plan.emit_or_skip syn probe st class <$> live =
          Plan.emit_or_skip syn probe st' class <$> live) as ->; [|done].
  apply list_fmap_ext. intros i e He%list_elem_of_lookup_2. unfold Plan.emit_or_skip.
  case_match; [done|]. apply emit_store_ext. intros h. apply Hb.
  unfold live, Plan.reverse_chronological, Plan.live_events in He.
  rewrite elem_of_sort_by, elem_of_list_filter in He. apply He.
Qed.

Lemma command_events_unique db (c : CommandId) :
  db_ok db → unique_ids (events_for_command (index_store db) c).
Proof.
  intros Hok. pose proof (journal_unique db Hok) as Hj. unfold unique_ids in *.
  rewrite (events_for_command_perm db c Hok). simpl. unfold sort_events. rewrite sort_by_perm.
  revert Hj. induction (journal db) as [|e l IH]; [done|]. rewrite fmap_cons, NoDup_cons. simpl.
  intros [He Hl]. case_bool_decide; [|by apply IH]. rewrite fmap_cons, NoDup_cons.
  split; [|by apply IH]. contradict He. apply list_elem_of_fmap in He as (x & Hx & Hin).
  rewrite elem_of_list_filter in Hin. apply list_elem_of_fmap. exists x. by destruct Hin.
Qed.

(** [undo_target]: the plan the daemon makes of a recorded command. *)
Definition stored_plan (syn : Network.NetSynth) (ord : HashOrder InodeRef (gset PathBuf))
    (probe : StateProbe) (st : PlannerStore) (c : CommandId) : option UndoPlan :=
  (λ rec, Plan.plan syn ord rec (events_for_command st c) probe st) <$> Probe.command_by_id st c.

(** A plan made from the tables is the plan made from the in-memory
    journal of the same events: on every state of the index, for every command
    and every live state of the file system. *)
Theorem index_plan_refines (syn : Network.NetSynth) (ord : HashOrder InodeRef (gset PathBuf))
    db (c : CommandId) (probe : StateProbe) :
  db_ok db → small_seqs db →
  stored_plan syn ord probe (index_store db) c =
  stored_plan syn ord probe (in_memory_store (abstract_store db)) c.
Proof.
  intros Hok Hs. destruct (index_store_agrees db Hok Hs) as [He _ _ Hc _ Hb _ _].
  unfold stored_plan. rewrite <- Hc. destruct (Probe.command_by_id _ c) as [rec|]; [|done].
  simpl. f_equal. apply plan_store_ext; [by apply command_events_unique|apply He|].
  intros e h _ _. by rewrite Hb.
Qed.

(** C25. Garbage collection does not change the undo of a command whose blobs have
    exact reference counts: however a pass ends, when such a command is still
    recorded afterwards it has the same record, the same events in the same
    order and the same plan, and the files of all blobs its events refer to
    are untouched. Counts are exact after any disciplined run of the store
    ([StoreRuns.refcounts_exact]); the blob of a container's report that was
    recorded late has none
    ([DaemonExamples.container_stash_not_counted]). *)
Theorem gc_keeps_undo (cmd_ord : HashOrder CommandId CommandRow)
    (blob_ord : HashOrder BlobHash BlobRow) (cancel : nat → bool) (remove_ok : BlobHash → bool)
    (vacuum : Db P → bool) (syn : Network.NetSynth) (ord : HashOrder InodeRef (gset PathBuf))
    db files (config : Gc.GcConfig) (now : N) (s : Gc.Pass P) (res : Gc.GcReport + Gc.GcError)
    (c : CommandId) (probe : StateProbe) :
  db_ok db →
  (∀ e h, e ∈ events_for_command (index_store db) c → event_blob (e_kind e) = Some h → ref_ok h db) →
  Gc.run_pass cmd_ord blob_ord cancel remove_ok vacuum db files config now = Some (s, res) →
  is_Some (commands (Gc.g_db s) !! c) →
  command_by_id (Gc.g_db s) c = command_by_id db c
  ∧ events_for_command (index_store (Gc.g_db s)) c = events_for_command (index_store db) c
  ∧ stored_plan syn ord probe (index_store (Gc.g_db s)) c = stored_plan syn ord probe (index_store db) c
  ∧ (∀ e h, e ∈ events_for_command (index_store db) c → event_blob (e_kind e) = Some h →
       Gc.g_files s !! h = files !! h).
Proof.
  intros Hok Hrefs Hp Hc. destruct (pass_intact _ _ _ _ _ _ _ _ _ _ _ _ Hok Hp Hc) as [Ic Ie Ib].
  assert (command_by_id (Gc.g_db s) c = command_by_id db c) as Hcmd
    by (unfold command_by_id; by rewrite Ic).
  assert (events_for_command (index_store (Gc.g_db s)) c = events_for_command (index_store db) c)
    as Hev by (rewrite !events_for_command_eq; by rewrite Ie).
  assert (∀ e h, e ∈ events_for_command (index_store db) c → event_blob (e_kind e) = Some h →
    br_size <$> blobs (Gc.g_db s) !! h = br_size <$> blobs db !! h ∧ Gc.g_files s !! h = files !! h)
    as Hb.
  { intros e h He Hh. pose proof (Hrefs e h He Hh) as Href. rewrite events_for_command_eq in He.
    apply list_elem_of_omap in He as (r & Hr & Hd). rewrite elem_of_sort_by in Hr.
    apply (Ib r); [done| |done]. rewrite elem_of_list_filter in Hr. destruct Hr as [Hr _].
    destruct (decode_faithful r) as (ev & Hd' & _ & <- & _); [by apply Hok|].
    rewrite Hd in Hd'. by injection Hd' as ->. }
  split_and!; [done|done| |by intros e h He Hh; apply (Hb e h)].
  unfold stored_plan. rewrite Hev. cbn [Probe.command_by_id index_store]. rewrite Hcmd.
  destruct (command_by_id db c) as [rec|]; [|done]. simpl. f_equal.
  apply plan_store_ext; [by apply command_events_unique|done|]. intros e h He Hh.
  destruct (Hb e h He Hh) as [Hsz _]. cbn [blob_size_hint index_store]. rewrite !fmap_is_Some.
  rewrite <- (fmap_is_Some br_size), Hsz, fmap_is_Some. done.
Qed.

End Refine.

End StorePlan.
