(* ===== verification/StoreExamples.v ===== *)
(** * A store, its collection and its plans, evaluated

    A journal of three commands built by the operations of the index, and the
    theorems on the store applied to it. The serialization of events is the
    identity. *)

From S2P Require Import Prelude Paths Base Events Inverse Probe Network Plan PlanFacts Tables Index Blobs.
From S2P Require Import Retention Gc StoreFacts StoreRuns GcFacts StorePlan.

Module StoreExamples.
Import Plan PlanFacts Index StoreFacts StoreRuns GcFacts StorePlan.

#[local] Instance plain_postcard : Postcard CaptureEvent :=
  {| to_allocvec := Some; from_bytes := Some |}.
#[local] Instance plain_postcard_laws : PostcardLaws CaptureEvent.
Proof. split. by intros e p [= <-]. Qed.

Section Runs.
Context {P : Type} `{!Postcard P} `{!PostcardLaws P}.

(** The conditions on a run, checked step by step. *)
Definition op_fitsb (o : Op) : bool :=
  match o with PutCommand cmd => bool_decide (u64_fits (seq (c_command cmd))) | _ => true end.

Definition recordedb (db : Db P) (ev : CaptureEvent) : bool :=
  match event_blob (e_kind ev) with
  | Some h => bool_decide (is_Some (blobs db !! h))
  | None => true
  end.

Definition records_firstb (db : Db P) (o : Op) : bool :=
  match o with
  | PutEvent ev => recordedb db ev
  | PutEventBatch evs => forallb (recordedb db) evs
  | _ => true
  end.

Definition run_ops (db : Db P) (ops : list Op) : Db P := foldl (apply_op map_order) db ops.

Fixpoint disciplined (db : Db P) (ops : list Op) : bool :=
  match ops with
  | [] => true
  | o :: ops' => op_fitsb o && records_firstb db o && disciplined (apply_op map_order db o) ops'
  end.

Lemma recordedb_spec (db : Db P) (ev : CaptureEvent) : recordedb db ev = true → recorded db ev.
Proof.
  unfold recordedb, recorded. intros Hb h Hh. rewrite Hh in Hb. by apply bool_decide_eq_true in Hb.
Qed.

Lemma op_fitsb_spec (o : Op) : op_fitsb o = true → op_fits o.
Proof. destruct o; simpl; try done. by rewrite bool_decide_eq_true. Qed.

Lemma records_firstb_spec (db : Db P) (o : Op) : records_firstb db o = true → records_first db o.
Proof.
  destruct o; simpl; try done; [apply recordedb_spec|]. rewrite forallb_forall, Forall_forall.
  intros H x Hx. apply recordedb_spec, H. by apply list_elem_of_In.
Qed.

Lemma run_inv (I : Db P → Prop) (db : Db P) (ops : list Op) :
  (∀ d o, I d → op_fits o → records_first d o → I (apply_op map_order d o)) →
  I db → disciplined db ops = true → I (run_ops db ops).
Proof.
  intros Hstep. unfold run_ops. revert db. induction ops as [|o ops IH]; intros db HI; [done|]. simpl.
  rewrite !andb_true_iff. intros [[Hf Hr] Hd]. apply IH; [|done].
  apply Hstep; [done|by apply op_fitsb_spec|by apply records_firstb_spec].
Qed.

Lemma run_ok (ops : list Op) :
  disciplined empty_db ops = true → db_ok (run_ops empty_db ops) ∧ refs_ok (run_ops empty_db ops).
Proof.
  apply (run_inv (λ d, db_ok d ∧ refs_ok d)); [|split; [apply empty_ok|apply empty_refs]].
  intros d o [H1 H2] Hf Hr. split; [by apply apply_op_ok|by apply apply_op_refs].
Qed.

Lemma run_reachable (ops : list Op) :
  disciplined empty_db ops = true → reachable map_order true (run_ops empty_db ops).
Proof.
  apply (run_inv (reachable map_order true)); [|constructor]. intros d o Hd Hf Hr. by constructor.
Qed.
End Runs.

(** ** Three commands *)

Definition sx_id (n : N) : CommandId := mkCommandId 7 n.

Definition sx_command (n started : N) : CommandRecord :=
  mkCommandRecord (sx_id n) (Some "make") (path_of_string "/w") 100 ShellKind.Bash
    (mkTime started 0) (Some (mkTime (started + 1) n)) (Some 0%Z) [].

Definition sx_pre_image (n : N) : CaptureEvent :=
  mkEvent (mkEventId 0) (sx_id n) (mkTime n 0) false
    (CaptureEventKind.FilePreImage (mkInode 1 n) (path_of_string "/w/f")
       (ex_hash n) (ex_meta 5) None FilePreImageSource.EsAuthPreMutation).

(** The first is old, the second is old and pinned, the third is recent. *)
Definition sx_ops : list Op :=
  [PutCommand (sx_command 1 5); PutCommand (sx_command 2 6); PutCommand (sx_command 3 90);
   PutBlobRecord (ex_hash 1) 5 false (mkTime 5 0); PutEvent (sx_pre_image 1);
   PutBlobRecord (ex_hash 2) 5 false (mkTime 6 0); PutEvent (sx_pre_image 2);
   PutBlobRecord (ex_hash 3) 5 false (mkTime 90 0); PutEvent (sx_pre_image 3);
   PinCommand (sx_id 2) None 1 None].

Definition sx_db : Db CaptureEvent := run_ops empty_db sx_ops.

Definition sx_files : Blobs.BlobFiles :=
  {[ex_hash 1 := [Byte.x00]; ex_hash 2 := [Byte.x00]; ex_hash 3 := [Byte.x00]]}.

Definition sx_config : Gc.GcConfig := Gc.mkGcConfig 50 None 100.

Definition sx_pass : option (Gc.Pass CaptureEvent * (Gc.GcReport + Gc.GcError)) :=
  Gc.run_pass map_order map_order (λ _, false) (λ _, true) (λ _, false) sx_db sx_files sx_config 100.

Definition sx_after : Db CaptureEvent :=
  match sx_pass with Some (s, _) => Gc.g_db s | None => sx_db end.

Definition sx_files_after : Blobs.BlobFiles :=
  match sx_pass with Some (s, _) => Gc.g_files s | None => sx_files end.

(** The pass drops the first command with its blob, and nothing else. *)
Example sx_pass_result :
  (bool_decide (is_Some (commands sx_after !! sx_id 1)),
   bool_decide (is_Some (commands sx_after !! sx_id 2)),
   bool_decide (is_Some (commands sx_after !! sx_id 3)),
   bool_decide (is_Some (sx_files_after !! ex_hash 1)),
   bool_decide (is_Some (sx_files_after !! ex_hash 2)), length (events sx_after)) =
  (false, true, true, false, true, 2).
Proof. vm_compute. reflexivity. Qed.

Lemma sx_disciplined : disciplined (P:=CaptureEvent) empty_db sx_ops = true.
Proof. vm_compute. reflexivity. Qed.

Lemma sx_ok : db_ok sx_db ∧ refs_ok sx_db.
Proof. apply run_ok, sx_disciplined. Qed.

Lemma sx_small : small_seqs sx_db.
Proof.
  intros c. assert (Forall (λ kr, seq kr.1 < 2 ^ 63)%N (map_to_list (commands sx_db))) as Hf.
  { apply (bool_decide_unpack _). vm_compute. exact I. }
  rewrite Forall_forall in Hf. intros [r Hr]. apply (Hf (c, r)). by apply elem_of_map_to_list.
Qed.

(** ** The theorems applied *)

Lemma index_invariant_witness : db_ok sx_db ∧ length (events sx_db) = 3.
Proof.
  split; [|vm_compute; reflexivity].
  apply (index_invariant map_order true), run_reachable, sx_disciplined.
Defined.

Lemma refcounts_exact_witness :
  refs_ok sx_db ∧ br_refcount <$> blobs sx_db !! ex_hash 2 = Some 1%Z.
Proof.
  split; [|vm_compute; reflexivity].
  apply (refcounts_exact map_order), run_reachable, sx_disciplined.
Defined.

Lemma gc_pass_safe_witness :
  ∃ s res, sx_pass = Some (s, res) ∧ intact sx_db sx_files (Gc.g_db s) (Gc.g_files s) (sx_id 2).
Proof.
  destruct sx_pass as [[s res]|] eqn:E; [|vm_compute in E; discriminate E].
  exists s, res. split; [done|].
  destruct (gc_pass_safe map_order map_order (λ _, false) (λ _, true) (λ _, false)
    sx_db sx_files sx_config 100 s res) as (_ & _ & H); [apply sx_ok|exact E|].
  assert (∃ r, commands sx_db !! sx_id 2 = Some r) as [r Hr] by (vm_compute; eauto).
  apply (H _ r); [done|]. left. vm_compute. reflexivity.
Defined.

Lemma gc_pass_complete_witness :
  ∃ s report, sx_pass = Some (s, inl report) ∧
    ∀ h, is_Some (blobs (Gc.g_db s) !! h) →
      ∃ e, e ∈ events (Gc.g_db s) ∧ er_blob_hash e = Some h.
Proof.
  destruct sx_pass as [[s [report|e]]|] eqn:E; [|vm_compute in E; discriminate E..].
  exists s, report. split; [done|].
  eapply (gc_pass_complete map_order map_order (λ _, false) (λ _, true) (λ _, false)
    sx_db sx_files sx_config 100 50 s report); [apply sx_ok|apply sx_ok|..|exact E].
  - simpl. lia.
  - vm_compute. reflexivity.
Defined.

Lemma index_refines_store_witness :
  events_for_command (index_store sx_db) (sx_id 3) ≡ₚ
  events_for_command (in_memory_store (abstract_store sx_db)) (sx_id 3).
Proof.
  destruct (index_refines_store sx_db) as [H _]; [apply sx_ok|apply sx_small|]. apply H.
Defined.

Lemma index_plan_refines_witness :
  stored_plan no_synth map_order ex_probe (index_store sx_db) (sx_id 3) =
  stored_plan no_synth map_order ex_probe (in_memory_store (abstract_store sx_db)) (sx_id 3).
Proof. apply index_plan_refines; [apply sx_ok|apply sx_small]. Defined.

Lemma gc_keeps_undo_witness :
  ∃ s res, sx_pass = Some (s, res)
  ∧ stored_plan no_synth map_order ex_probe (index_store (Gc.g_db s)) (sx_id 2) =
    stored_plan no_synth map_order ex_probe (index_store sx_db) (sx_id 2).
Proof.
  destruct sx_pass as [[s res]|] eqn:E; [|vm_compute in E; discriminate E].
  exists s, res. split; [done|].
  assert (is_Some (commands (Gc.g_db s) !! sx_id 2)) as Hc.
  { vm_compute in E. injection E as <- _. vm_compute. eauto. }
  apply (gc_keeps_undo map_order map_order (λ _, false) (λ _, true) (λ _, false) no_synth map_order
    sx_db sx_files sx_config 100 s res (sx_id 2) ex_probe);
    [apply sx_ok| |exact E|exact Hc].
  intros e h _ _. apply refs_ok_each, sx_ok.
Defined.

End StoreExamples.
