(* ===== verification/TierStash.v ===== *)
(** * Messages and stashes of the system tiers

    The requests the wrappers of package, service, network, process, database,
    container and cloud tools send ([ctl.rs] of [shit-proto]), and the stash
    in which the daemon keeps what a wrapper reported before the command until
    it reports again ([PkgPreStash], [SvcPreStash], [NetPreStash],
    [ProcPreStash] and [DbPreStash], which differ in their keys only). The
    wire enums have the variants of the planner's; where the code maps one
    onto the other it maps each to its namesake. *)

From S2P Require Import Prelude Paths Base Events Inverse Probe Runners Packages.

Module TierStash.

(** ** Wire enums *)

Module SvcTool.
Inductive SvcTool := Systemctl | Launchctl | Service.
End SvcTool.
Abbreviation SvcTool := SvcTool.SvcTool.

Module ProcTool.
Inductive ProcTool := Kill | Pkill | Killall.
End ProcTool.
Abbreviation ProcTool := ProcTool.ProcTool.

Module PkgPhase.
Inductive PkgPhase := Pre | Post.
End PkgPhase.
Abbreviation PkgPhase := PkgPhase.PkgPhase.

Module ContainerVerb.
Inductive ContainerVerb := Rm | Rmi | VolumeRm | NetworkRm | ComposeDown | Pull.
End ContainerVerb.
Abbreviation ContainerVerb := ContainerVerb.ContainerVerb.

Module CloudRuntime.
Inductive CloudRuntime := Terraform | Kubectl | Gh | Aws.
End CloudRuntime.
Abbreviation CloudRuntime := CloudRuntime.CloudRuntime.

Module CloudVerb.
Inductive CloudVerb :=
  | TerraformApply | TerraformDestroy | TerraformStateRm | TerraformImport
  | KubectlApply | KubectlDelete | GhReleaseCreate | GhReleaseDelete | AwsGeneric.
End CloudVerb.
Abbreviation CloudVerb := CloudVerb.CloudVerb.

#[export] Instance SvcTool_eq_dec : EqDecision SvcTool.
Proof. solve_decision. Defined.
#[export] Instance SvcTool_countable : Countable SvcTool.
Proof.
  refine (inj_countable' (λ t, match t with SvcTool.Systemctl => 0 | SvcTool.Launchctl => 1 | SvcTool.Service => 2 end)
    (λ n, match n with 0 => SvcTool.Systemctl | 1 => SvcTool.Launchctl | _ => SvcTool.Service end) _).
  by intros [].
Defined.

#[export] Instance ProcTool_eq_dec : EqDecision ProcTool.
Proof. solve_decision. Defined.
#[export] Instance ProcTool_countable : Countable ProcTool.
Proof.
  refine (inj_countable' (λ t, match t with ProcTool.Kill => 0 | ProcTool.Pkill => 1 | ProcTool.Killall => 2 end)
    (λ n, match n with 0 => ProcTool.Kill | 1 => ProcTool.Pkill | _ => ProcTool.Killall end) _).
  by intros [].
Defined.

#[export] Instance DbEngine_eq_dec : EqDecision DbEngine.
Proof. solve_decision. Defined.
#[export] Instance DbEngine_countable : Countable DbEngine.
Proof.
  refine (inj_countable' (λ t, match t with DbEngine.Postgres => 0 | DbEngine.Mysql => 1 | DbEngine.Sqlite3 => 2 end)
    (λ n, match n with 0 => DbEngine.Postgres | 1 => DbEngine.Mysql | _ => DbEngine.Sqlite3 end) _).
  by intros [].
Defined.

Definition net_tools : list NetworkTool :=
  [NetworkTool.Iptables; NetworkTool.Ip6tables; NetworkTool.Nft; NetworkTool.Ufw; NetworkTool.Pfctl;
   NetworkTool.IpRoute; NetworkTool.IpAddr; NetworkTool.IpLink; NetworkTool.Route; NetworkTool.Ifconfig;
   NetworkTool.Networksetup].

Definition net_code (t : NetworkTool) : nat :=
  match t with
  | NetworkTool.Iptables => 0 | NetworkTool.Ip6tables => 1 | NetworkTool.Nft => 2 | NetworkTool.Ufw => 3
  | NetworkTool.Pfctl => 4 | NetworkTool.IpRoute => 5 | NetworkTool.IpAddr => 6 | NetworkTool.IpLink => 7
  | NetworkTool.Route => 8 | NetworkTool.Ifconfig => 9 | NetworkTool.Networksetup => 10
  end.

#[export] Instance NetworkTool_countable : Countable NetworkTool.
Proof. refine (inj_countable' net_code (λ n, nth n net_tools NetworkTool.Iptables) _). by intros []. Defined.

(** ** Requests *)

Record PkgEventReq := mkPkgReq {
  pk_manager : PackageManager; pk_phase : PkgPhase; pk_pid : N; pk_packages : gmap string string;
  pk_op_hint : option string; pk_extras : gmap string string;
}.

Record SvcEventReq := mkSvcReq {
  sv_tool : SvcTool; sv_phase : PkgPhase; sv_scope : SystemdScope; sv_unit : string; sv_verb : string;
  sv_pid : N; sv_state_raw : string;
}.

Record NetEventReq := mkNetReq {
  nt_tool : NetworkTool; nt_phase : PkgPhase; nt_verb : string; nt_scope_hint : string; nt_pid : N;
  nt_state_raw : bytes;
}.

Record ProcSnapshot := mkSnap {
  ps_pid : N; ps_comm : string; ps_argv : list string; ps_cwd : string; ps_env_summary : gmap string string;
  ps_parent_pid : N; ps_start_time_secs : N; ps_tty : option string;
}.

Record ProcEventReq := mkProcReq {
  pr_tool : ProcTool; pr_phase : PkgPhase; pr_target_argv : list string; pr_targets : list ProcSnapshot;
  pr_pid : N;
}.

Record DbConnInfo := mkConn { dc_host : string; dc_port : option N; dc_user : string; dc_target : string }.

Record DbEventReq := mkDbReq {
  db_engine : DbEngine; db_phase : PkgPhase; db_conn : DbConnInfo; db_statements : list string;
  db_transaction_state : DbTxState; db_pid : N;
}.

Record ContainerEventReq := mkContainerReq {
  cn_runtime : ContainerRuntime; cn_verb : ContainerVerb; cn_captured_config : bytes;
  cn_stash_image : option string; cn_stash_tarball : option BlobHash; cn_stash_tarball_bytes : option bytes;
  cn_extras : gmap string string; cn_pid : N;
}.

Record CloudEventReq := mkCloudReq {
  cl_runtime : CloudRuntime; cl_verb : CloudVerb; cl_workdir : string; cl_prior_state : bytes;
  cl_extras : gmap string string; cl_pid : N;
}.

(** ** Stashes *)

(** By command where the process that reports descends from a shell with an
    open command, by process otherwise; [K] is what else a report is matched
    on. Values carry the time they came. *)
Record PreStash (K V : Type) `{Countable K} := mkStash {
  by_command : gmap (CommandId * K) (V * N);
  by_pid : gmap (N * K) (V * N);
}.
Arguments mkStash {K V _ _}.
Arguments by_command {K V _ _}.
Arguments by_pid {K V _ _}.

Section Stash.
Context {K V : Type} `{Countable K}.
Implicit Types s : PreStash K V.

Definition stash_new : PreStash K V := mkStash ∅ ∅.

Definition insert_by_command s (command : CommandId) (k : K) (v : V) (now : N) : PreStash K V :=
  mkStash (<[(command, k) := (v, now)]> (by_command s)) (by_pid s).

Definition insert_by_pid s (pid : N) (k : K) (v : V) (now : N) : PreStash K V :=
  mkStash (by_command s) (<[(pid, k) := (v, now)]> (by_pid s)).

Definition take_by_command s (command : CommandId) (k : K) : PreStash K V * option V :=
  (mkStash (delete (command, k) (by_command s)) (by_pid s), fst <$> by_command s !! (command, k)).

Definition take_by_pid s (pid : N) (k : K) : PreStash K V * option V :=
  (mkStash (by_command s) (delete (pid, k) (by_pid s)), fst <$> by_pid s !! (pid, k)).

(** How every handler stashes and takes. *)
Definition stash_pre s (resolved : option CommandId) (pid : N) (k : K) (v : V) (now : N) : PreStash K V :=
  match resolved with
  | Some c => insert_by_command s c k v now
  | None => insert_by_pid s pid k v now
  end.

Definition take_pre s (resolved : option CommandId) (pid : N) (k : K) : PreStash K V * option V :=
  match resolved with
  | Some c =>
      match take_by_command s c k with
      | (s', Some v) => (s', Some v)
      | (s', None) => take_by_pid s' pid k
      end
  | None => take_by_pid s pid k
  end.

Definition sweep_expired s (cutoff : N) : PreStash K V * nat :=
  let c := base.filter (λ kv : (CommandId * K) * (V * N), (cutoff ≤ kv.2.2)%N) (by_command s) in
  let p := base.filter (λ kv : (N * K) * (V * N), (cutoff ≤ kv.2.2)%N) (by_pid s) in
  (mkStash c p, (size (by_command s) - size c) + (size (by_pid s) - size p)).

(** A report is paired with the last one stashed under its command and key. *)
Lemma take_stashed s (c : CommandId) (pid pid' : N) (k : K) (v : V) (now : N) :
  (take_pre (stash_pre s (Some c) pid k v now) (Some c) pid' k).2 = Some v.
Proof. simpl. by rewrite lookup_insert_eq. Qed.

End Stash.

(** ** The stashes of the daemon *)

Record SvcPre := mkSvcPre { sv_pre_state : ServiceState; sv_pre_verb : string }.
Record NetPre := mkNetPre { nt_pre_raw : bytes; nt_pre_verb : string }.
Record ProcPre := mkProcPre { pr_pre_targets : list ProcSnapshot; pr_pre_argv : list string }.
Record DbPre := mkDbPre { db_pre_conn : DbConnInfo; db_pre_statements : list string }.

Record TierStashes := mkTierStashes {
  ts_pkg : PreStash unit PkgEventReq;
  ts_svc : PreStash (SvcTool * string) SvcPre;
  ts_net : PreStash (NetworkTool * string) NetPre;
  ts_proc : PreStash ProcTool ProcPre;
  ts_db : PreStash (DbEngine * string) DbPre;
}.

Definition tier_stashes_new : TierStashes := mkTierStashes stash_new stash_new stash_new stash_new stash_new.

Definition set_ts_pkg (s : TierStashes) (x : PreStash unit PkgEventReq) : TierStashes :=
  mkTierStashes x (ts_svc s) (ts_net s) (ts_proc s) (ts_db s).
Definition set_ts_svc (s : TierStashes) (x : PreStash (SvcTool * string) SvcPre) : TierStashes :=
  mkTierStashes (ts_pkg s) x (ts_net s) (ts_proc s) (ts_db s).
Definition set_ts_net (s : TierStashes) (x : PreStash (NetworkTool * string) NetPre) : TierStashes :=
  mkTierStashes (ts_pkg s) (ts_svc s) x (ts_proc s) (ts_db s).
Definition set_ts_proc (s : TierStashes) (x : PreStash ProcTool ProcPre) : TierStashes :=
  mkTierStashes (ts_pkg s) (ts_svc s) (ts_net s) x (ts_db s).
Definition set_ts_db (s : TierStashes) (x : PreStash (DbEngine * string) DbPre) : TierStashes :=
  mkTierStashes (ts_pkg s) (ts_svc s) (ts_net s) (ts_proc s) x.

End TierStash.
