(* ===== verification/Conn.v ===== *)
(** * Connections of the database clients

    [db/conn.rs]: what the wrappers of [psql], [mysql] and [sqlite3] learn
    from the arguments, without the password; and [run_event] of the helper's
    [db/mod.rs], which turns the arguments and the statement text into the
    message for the daemon. *)

From S2P Require Import Prelude Base Events Env Redirect Text Redact TierStash.

Module Conn.
Import Text Redact Sql TierStash.

Module ConnParseError.
Inductive ConnParseError :=
  | EmptyArgv
  | InvalidUri (what : string)
  | UnknownFlag (what : string)
  | MissingTarget (engine : string).
End ConnParseError.
Abbreviation ConnParseError := ConnParseError.ConnParseError.

Record ConnInfo := mkInfo {
  ci_host : string; ci_port : option N; ci_user : string; ci_target : string; ci_password_present : bool;
}.

Definition to_wire (i : ConnInfo) : DbConnInfo := mkConn (ci_host i) (ci_port i) (ci_user i) (ci_target i).

Definition blank : ConnInfo := mkInfo "" None "" "" false.

Definition set_host (h : string) (i : ConnInfo) : ConnInfo :=
  mkInfo h (ci_port i) (ci_user i) (ci_target i) (ci_password_present i).
Definition set_port (p : option N) (i : ConnInfo) : ConnInfo :=
  mkInfo (ci_host i) p (ci_user i) (ci_target i) (ci_password_present i).
Definition set_user (u : string) (i : ConnInfo) : ConnInfo :=
  mkInfo (ci_host i) (ci_port i) u (ci_target i) (ci_password_present i).
Definition set_target (t : string) (i : ConnInfo) : ConnInfo :=
  mkInfo (ci_host i) (ci_port i) (ci_user i) t (ci_password_present i).
Definition set_password (b : bool) (i : ConnInfo) : ConnInfo :=
  mkInfo (ci_host i) (ci_port i) (ci_user i) (ci_target i) b.

Definition parse_port (s : string) : option N := parse_uint 65535 s.

(** ** Connection strings *)

Definition before_char (c : Ascii.ascii) (s : string) : string :=
  match split_once c s with Some (a, _) => a | None => s end.

Definition userinfo_of (ui : option string) (i : ConnInfo) : ConnInfo :=
  match ui with
  | None => i
  | Some ui =>
      match split_once ":" ui with
      | Some (u, pw) => set_password (negb (bool_decide (pw = ""))) (set_user u i)
      | None => set_user ui i
      end
  end.

(** A bracketed address is kept whole, with its port. *)
Definition hostport_of (hp : string) (i : ConnInfo) : ConnInfo :=
  match rsplit_once ":" hp with
  | Some (h, p) => if Redirect.starts hp "[" then set_host hp i else set_port (parse_port p) (set_host h i)
  | None => set_host hp i
  end.

Definition parse_pg_uri (uri : string) (i : ConnInfo) : ConnInfo + ConnParseError :=
  match split_once_str "://" uri with
  | None => inr (ConnParseError.InvalidUri ("missing scheme separator in " +:+ uri))
  | Some (_, after) =>
      let authority_and_path := before_char "?" after in
      let '(authority, path) :=
        match split_once "/" authority_and_path with
        | Some (a, p) => (a, Some p)
        | None => (authority_and_path, None)
        end in
      let '(userinfo, hostport) :=
        match rsplit_once "@" authority with
        | Some (u, h) => (Some u, h)
        | None => (None, authority)
        end in
      let i := hostport_of hostport (userinfo_of userinfo i) in
      inl (match path with Some p => set_target p i | None => i end)
  end.

Definition is_libpq_kv (s : string) : bool :=
  Env.str_contains s "=" && negb (Redirect.starts s "-") && negb (Env.str_contains s "://").

Definition libpq_pair (i : ConnInfo) (pair : string) : ConnInfo :=
  match split_once "=" pair with
  | None => i
  | Some (k, v) =>
      if bool_decide (k ∈ ["host"; "hostaddr"]) then set_host v i
      else if bool_decide (k = "port") then set_port (parse_port v) i
      else if bool_decide (k = "user") then set_user v i
      else if bool_decide (k ∈ ["dbname"; "database"]) then set_target v i
      else if bool_decide (k = "password") then set_password (negb (bool_decide (v = ""))) i
      else i
  end.

Definition parse_libpq_kv (s : string) (i : ConnInfo) : ConnInfo := foldl libpq_pair i (split_whitespace s).

(** ** Arguments *)

Definition missing_value {A} (flag : string) : A + ConnParseError :=
  inr (ConnParseError.UnknownFlag (flag +:+ " missing value")).

(** The first argument that is a connection string outranks the flags. *)
Fixpoint psql_connstring (args : list string) : option (ConnInfo + ConnParseError) :=
  match args with
  | [] => None
  | a :: rest =>
      if Redirect.starts a "postgres://" || Redirect.starts a "postgresql://" then Some (parse_pg_uri a blank)
      else if is_libpq_kv a then Some (inl (parse_libpq_kv a blank))
      else psql_connstring rest
  end.

(** The flags, and the positional arguments in order. *)
Fixpoint psql_flags (args : list string) (i : ConnInfo) (pos : list string)
    : (ConnInfo * list string) + ConnParseError :=
  match args with
  | [] => inl (i, pos)
  | a :: rest =>
      let value (set : string → ConnInfo → ConnInfo) :=
        match rest with
        | v :: rest' => psql_flags rest' (set v i) pos
        | [] => missing_value a
        end in
      if bool_decide (a ∈ ["-h"; "--host"]) then value set_host
      else if bool_decide (a ∈ ["-p"; "--port"]) then value (λ v, set_port (parse_port v))
      else if bool_decide (a ∈ ["-U"; "--username"]) then value set_user
      else if bool_decide (a ∈ ["-d"; "--dbname"]) then value set_target
      else if bool_decide (a ∈ ["-W"; "--password"; "-w"; "--no-password"]) then
        psql_flags rest (set_password true i) pos
      else match Redirect.strip_prefix "--host=" a, Redirect.strip_prefix "--port=" a,
                 Redirect.strip_prefix "--username=" a, Redirect.strip_prefix "--dbname=" a with
           | Some v, _, _, _ => psql_flags rest (set_host v i) pos
           | _, Some v, _, _ => psql_flags rest (set_port (parse_port v) i) pos
           | _, _, Some v, _ => psql_flags rest (set_user v i) pos
           | _, _, _, Some v => psql_flags rest (set_target v i) pos
           | None, None, None, None =>
               psql_flags rest i (if Redirect.starts a "-" then pos else pos ++ [a])
           end
  end.

Definition positional_target (i : ConnInfo) (pos : list string) : ConnInfo * list string :=
  match pos with
  | p :: pos' => if bool_decide (ci_target i = "") then (set_target p i, pos') else (i, pos)
  | [] => (i, pos)
  end.

Definition positional_user (i : ConnInfo) (pos : list string) : ConnInfo :=
  match pos with
  | p :: _ => if bool_decide (ci_user i = "") then set_user p i else i
  | [] => i
  end.

Definition parse_psql_argv (args : list string) : ConnInfo + ConnParseError :=
  if bool_decide (args = []) then inr ConnParseError.EmptyArgv
  else match psql_connstring args with
       | Some r => r
       | None =>
           match psql_flags args blank [] with
           | inr e => inr e
           | inl (i, pos) => let '(i, pos) := positional_target i pos in inl (positional_user i pos)
           end
       end.

Fixpoint mysql_connstring (args : list string) : option (ConnInfo + ConnParseError) :=
  match args with
  | [] => None
  | a :: rest =>
      if Redirect.starts a "mysql://" || Redirect.starts a "mariadb://" then Some (parse_pg_uri a blank)
      else mysql_connstring rest
  end.

Fixpoint mysql_flags (args : list string) (i : ConnInfo) (pos : list string)
    : (ConnInfo * list string) + ConnParseError :=
  match args with
  | [] => inl (i, pos)
  | a :: rest =>
      let value (set : string → ConnInfo → ConnInfo) :=
        match rest with
        | v :: rest' => mysql_flags rest' (set v i) pos
        | [] => missing_value a
        end in
      if bool_decide (a ∈ ["-h"; "--host"]) then value set_host
      else if bool_decide (a ∈ ["-P"; "--port"]) then value (λ v, set_port (parse_port v))
      else if bool_decide (a ∈ ["-u"; "--user"]) then value set_user
      else if bool_decide (a ∈ ["-D"; "--database"]) then value set_target
      else if bool_decide (a = "--password") || Redirect.starts a "-p" || Redirect.starts a "--password=" then
        mysql_flags rest (set_password true i) pos
      else match Redirect.strip_prefix "--host=" a, Redirect.strip_prefix "--port=" a,
                 Redirect.strip_prefix "--user=" a, Redirect.strip_prefix "--database=" a with
           | Some v, _, _, _ => mysql_flags rest (set_host v i) pos
           | _, Some v, _, _ => mysql_flags rest (set_port (parse_port v) i) pos
           | _, _, Some v, _ => mysql_flags rest (set_user v i) pos
           | _, _, _, Some v => mysql_flags rest (set_target v i) pos
           | None, None, None, None =>
               mysql_flags rest i (if Redirect.starts a "-" then pos else pos ++ [a])
           end
  end.

Definition parse_mysql_argv (args : list string) : ConnInfo + ConnParseError :=
  if bool_decide (args = []) then inr ConnParseError.EmptyArgv
  else match mysql_connstring args with
       | Some r => r
       | None =>
           match mysql_flags args blank [] with
           | inr e => inr e
           | inl (i, pos) => inl (positional_target i pos).1
           end
       end.

(** The first argument that is neither a flag nor the value of one. *)
Fixpoint sqlite3_path (args : list string) : string :=
  match args with
  | [] => ""
  | a :: rest =>
      if Redirect.starts a "-" then
        if bool_decide (a ∈ ["-cmd"; "--cmd"; "-init"; "--init"; "-mmap"; "-newline"; "-nullvalue"; "-separator"])
        then match rest with _ :: rest' => sqlite3_path rest' | [] => "" end
        else if bool_decide (a ∈ ["-lookaside"; "-pagecache"])
        then match rest with _ :: _ :: rest' => sqlite3_path rest' | _ => "" end
        else sqlite3_path rest
      else a
  end.

Definition parse_sqlite3_argv (args : list string) : ConnInfo + ConnParseError :=
  if bool_decide (args = []) then inr ConnParseError.EmptyArgv else inl (set_target (sqlite3_path args) blank).

(** ** The report of the wrapper *)

Definition parse_argv (engine : DbEngine) (argv : list string) : ConnInfo + ConnParseError :=
  match engine with
  | DbEngine.Postgres => parse_psql_argv argv
  | DbEngine.Mysql => parse_mysql_argv argv
  | DbEngine.Sqlite3 => parse_sqlite3_argv argv
  end.

Definition argv_of (joined : string) : list string := if bool_decide (joined = "") then [] else str_lines joined.

(** [run_event] up to the socket: an error, nothing to report, or the message
    for the daemon. [SHIT_DURING_UNDO] suppresses it. *)
Definition db_event (blake3 : string → list N) (engine : DbEngine) (phase : PkgPhase) (during_undo : bool)
    (argv_joined : string) (blob : string) (pid : N) : option DbEventReq + ConnParseError :=
  if during_undo then inl None
  else match parse_argv engine (argv_of argv_joined) with
       | inr e => inr e
       | inl i =>
           let statements := filter_statements blake3 (str blob) in
           if bool_decide (statements = []) && bool_decide (ci_target i = "") then inl None
           else inl (Some (mkDbReq engine phase (to_wire i) statements DbTxState.Unknown pid))
       end.

End Conn.
