(* ===== verification/Procs.v ===== *)
(** * Processes a command is about to kill

    [proc.rs] of the planner parses the arguments of [kill], [pkill] and
    [killall]; [proc/mod.rs], [proc/kill_targets.rs] and [proc/enumerate.rs]
    of the helper resolve the targets against [/proc], snapshot them and
    report to the daemon. What the kernel shows of the processes is a record,
    the state these functions read. *)

From stdpp Require Import pretty.
From S2P Require Import Prelude Base Plan Env Redirect Runners Text TierStash.

Module Procs.
Import Text TierStash.

(** ** Arguments *)

Module KillTarget.
Inductive KillTarget :=
  | Pid (n : Z)
  | JobSpec (spec : string)
  | Pattern (pattern : string) (filters : gmap string string).
End KillTarget.
Abbreviation KillTarget := KillTarget.KillTarget.

Record KillCommand := mkKill { k_signal : string; k_targets : list KillTarget }.

Definition SIGNALS : list string :=
  ["HUP"; "INT"; "QUIT"; "ILL"; "TRAP"; "ABRT"; "BUS"; "FPE"; "KILL"; "USR1"; "SEGV"; "USR2"; "PIPE"; "ALRM";
   "TERM"; "STKFLT"; "CHLD"; "CONT"; "STOP"; "TSTP"; "TTIN"; "TTOU"; "URG"; "XCPU"; "XFSZ"; "VTALRM"; "PROF";
   "WINCH"; "IO"; "POLL"; "PWR"; "SYS"].

Definition u32_MAX : N := 4294967295.
Definition parse_u32 : string → option N := parse_uint u32_MAX.
Definition parse_i32 : string → option Z := Services.parse_int (- 2 ^ 31) (2 ^ 31 - 1).

Definition looks_like_signal (s : string) : bool :=
  match parse_u32 s with
  | Some n => bool_decide (1 ≤ n)%N && bool_decide (n ≤ 64)%N
  | None =>
      let upper := Env.to_ascii_uppercase s in
      bool_decide (default upper (Redirect.strip_prefix "SIG" upper) ∈ SIGNALS)
  end.

Definition kill_target_of (tok : string) : KillTarget :=
  match Redirect.strip_prefix "%" tok with
  | Some rest => KillTarget.JobSpec ("%" +:+ rest)
  | None =>
      match parse_i32 tok with
      | Some n => KillTarget.Pid n
      | None => KillTarget.Pattern tok ∅
      end
  end.

(** A dash and something after it. *)
Definition dashed (t : string) : option string :=
  match Redirect.strip_prefix "-" t with
  | Some (String _ _ as rest) => Some rest
  | _ => None
  end.

Fixpoint kill_scan (argv : list string) (signal : string) (targets : list KillTarget)
    : option (string * list KillTarget) :=
  match argv with
  | [] => Some (signal, targets)
  | tok :: rest =>
      if bool_decide (tok = "--") then Some (signal, targets ++ (kill_target_of <$> rest))
      else if bool_decide (tok ∈ ["-l"; "-L"]) then None
      else if bool_decide (tok ∈ ["-s"; "--signal"]) then
        match rest with
        | next :: rest' => kill_scan rest' next targets
        | [] => None
        end
      else match dashed tok with
           | Some name =>
               if looks_like_signal name then kill_scan rest name targets
               else kill_scan rest signal (targets ++ [kill_target_of tok])
           | None => kill_scan rest signal (targets ++ [kill_target_of tok])
           end
  end.

Definition parse_kill (argv : list string) : option KillCommand :=
  match kill_scan argv "TERM" [] with
  | Some (signal, targets) => if bool_decide (targets = []) then None else Some (mkKill signal targets)
  | None => None
  end.

Fixpoint pattern_scan (argv : list string) (signal : string) (filters : gmap string string) (pattern : option string)
    : option KillCommand :=
  match argv with
  | [] => (λ p, mkKill signal [KillTarget.Pattern p filters]) <$> pattern
  | tok :: rest =>
      let value (k : string → list string → option KillCommand) :=
        match rest with next :: rest' => k next rest' | [] => None end in
      if bool_decide (tok ∈ ["-s"; "--signal"]) then value (λ n rest', pattern_scan rest' n filters pattern)
      else if bool_decide (tok ∈ ["-u"; "--euid"; "--uid"]) then
        value (λ n rest', pattern_scan rest' signal (<["user" := n]> filters) pattern)
      else if bool_decide (tok ∈ ["-g"; "--group"; "-G"; "--pgroup"]) then
        value (λ n rest', pattern_scan rest' signal (<["group" := n]> filters) pattern)
      else match dashed tok with
           | Some name => pattern_scan rest (if looks_like_signal name then name else signal) filters pattern
           | None => pattern_scan rest signal filters (match pattern with None => Some tok | p => p end)
           end
  end.

Definition parse_pattern_kill (argv : list string) : option KillCommand := pattern_scan argv "TERM" ∅ None.

(** ** What the kernel shows *)

(** The names in [/proc], the files of a process, the password file, the
    clock ticks per second and the variable [SHIT_JOB_TABLE]. *)
Record ProcFs := mkProcFs {
  pf_names : option (list string);
  pf_stat : N → option string;
  pf_status : N → option string;
  pf_comm : N → option string;
  pf_cmdline : N → option bytes;
  pf_cwd : N → option string;
  pf_environ : N → option bytes;
  pf_passwd : option string;
  pf_clk_tck : N;
  pf_job_table : option string;
}.

(** ** Resolution *)

(** An entry without a colon ends the search. *)
Fixpoint job_entry (key : string) (entries : list string) : option N :=
  match entries with
  | [] => None
  | e :: rest =>
      match split_once ":" e with
      | None => None
      | Some (k, v) => if bool_decide (k = key) then parse_u32 v else job_entry key rest
      end
  end.
Definition resolve_job_spec_in (table spec : string) : option N :=
  job_entry (default spec (Redirect.strip_prefix "%" spec)) (split_char "," table).

(** The fields behind the name in parentheses. *)
Definition stat_field (n : nat) (stat : string) : option string :=
  match rsplit_once ")" stat with
  | Some (_, after) => split_whitespace after !! n
  | None => None
  end.

Definition pgrp_from_stat (stat : string) : option N :=
  match stat_field 2 stat with Some w => parse_u32 w | None => None end.

Fixpoint line_with (prefix : string) (lines : list string) : option string :=
  match lines with
  | [] => None
  | l :: rest => match Redirect.strip_prefix prefix l with Some r => Some r | None => line_with prefix rest end
  end.

Section Kernel.
Context (pf : ProcFs).

Definition resolve_job_spec (spec : string) : option N :=
  match pf_job_table pf with Some table => resolve_job_spec_in table spec | None => None end.

Definition pids_in_pgroup (pgid : N) : option (list N) :=
  match pf_names pf with
  | None => None
  | Some names =>
      Some (List.filter (λ pid, match pf_stat pf pid with
                                | Some stat => bool_decide (pgrp_from_stat stat = Some pgid)
                                | None => false
                                end) (omap parse_u32 names))
  end.

Definition uid_from_status (pid : N) : option N :=
  match pf_status pf pid with
  | None => None
  | Some status =>
      match line_with "Uid:" (str_lines status) with
      | Some rest => match split_whitespace rest !! 1 with Some w => parse_u32 w | None => None end
      | None => None
      end
  end.

(** A line with fewer than three fields ends the search. *)
Fixpoint passwd_uid (name : string) (lines : list string) : option N :=
  match lines with
  | [] => None
  | l :: rest =>
      match split_char ":" l with
      | n :: _ :: uid :: _ => if bool_decide (n = name) then parse_u32 uid else passwd_uid name rest
      | _ => None
      end
  end.

Definition resolve_uid (name_or_num : string) : option N :=
  match parse_u32 name_or_num with
  | Some n => Some n
  | None => match pf_passwd pf with Some p => passwd_uid name_or_num (str_lines p) | None => None end
  end.

Definition bind_opt {A B} (o : option A) (f : A → option B) : option B :=
  match o with Some a => f a | None => None end.

Definition matches_pattern (pattern : string) (user group : option N) (pid : N) : bool :=
  let comm := Plan.trim (default "" (pf_comm pf pid)) in
  let cmdline := from_utf8_lossy (default [] (pf_cmdline pf pid)) in
  (Env.str_contains comm pattern || Env.str_contains cmdline pattern)
  && match user with Some uid => bool_decide (uid_from_status pid = Some uid) | None => true end
  && match group with
     | Some g => bool_decide (pgrp_from_stat (default "" (pf_stat pf pid)) = Some g)
     | None => true
     end.

Definition pids_matching (pattern : string) (filters : gmap string string) : list N :=
  let user_filter := bind_opt (filters !! "user") resolve_uid in
  let group_filter := bind_opt (filters !! "group") parse_u32 in
  match pf_names pf with
  | None => []
  | Some names => List.filter (matches_pattern pattern user_filter group_filter) (omap parse_u32 names)
  end.

(** A negative number is a process group; [as u32] of its opposite. *)
Definition target_pids (t : KillTarget) : list N :=
  match t with
  | KillTarget.Pid pid =>
      if bool_decide (0 < pid)%Z then [Z.to_N pid]
      else default [] (pids_in_pgroup (Z.to_N ((- pid) mod 2 ^ 32)))
  | KillTarget.JobSpec spec => option_list (resolve_job_spec spec)
  | KillTarget.Pattern pattern filters => pids_matching pattern filters
  end.

(** First occurrences, in order. *)
Fixpoint dedup (seen : list N) (l : list N) : list N :=
  match l with
  | [] => []
  | p :: rest => if bool_decide (p ∈ seen) then dedup seen rest else p :: dedup (p :: seen) rest
  end.

Definition resolve_pids (targets : list KillTarget) : list N := dedup [] (mjoin (target_pids <$> targets)).

(** ** Snapshots *)

Definition ENV_WHITELIST : list string :=
  ["PATH"; "HOME"; "USER"; "LOGNAME"; "SHELL"; "PWD"; "LANG"; "LC_ALL"; "TERM"; "DISPLAY"].

(** [split(|&b| b == 0)]. *)
Fixpoint split_zero (b : bytes) : list bytes :=
  match b with
  | [] => [[]]
  | x :: rest =>
      if bool_decide (x = Byte.x00) then [] :: split_zero rest
      else match split_zero rest with w :: ws => (x :: w) :: ws | [] => [[x]] end
  end.

Fixpoint split_at_eq (b : bytes) : option (bytes * bytes) :=
  match b with
  | [] => None
  | x :: rest =>
      if bool_decide (x = Byte.x3d) then Some ([], rest)
      else (λ '(n, v), (x :: n, v)) <$> split_at_eq rest
  end.

Definition summary_entry (blake3 : string → list N) (out : gmap string string) (chunk : bytes) : gmap string string :=
  match split_at_eq chunk with
  | None => out
  | Some (n, v) =>
      let name := from_utf8_lossy n in
      let value := from_utf8_lossy v in
      if bool_decide (name ∈ ENV_WHITELIST) || Env.is_redacted Env.default_filter name
      then <[name := if Env.is_redacted Env.default_filter name then Env.redact_value blake3 value else value]> out
      else out
  end.

Definition summarize_env (blake3 : string → list N) (block : bytes) : gmap string string :=
  foldl (summary_entry blake3) ∅ (split_zero block).

Definition parse_ppid (status : string) : option N :=
  match line_with "PPid:" (str_lines status) with Some rest => parse_u32 (Plan.trim rest) | None => None end.

Definition parse_start_time (stat : string) : option N :=
  match stat_field 19 stat with
  | Some w =>
      match parse_uint u64_MAX w with
      | Some ticks => Some (if bool_decide (pf_clk_tck pf = 0)%N then ticks else (ticks / pf_clk_tck pf)%N)
      | None => None
      end
  | None => None
  end.

Definition parse_tty (stat : string) : option string :=
  match stat_field 4 stat with
  | Some w =>
      match parse_i32 w with
      | Some n => if bool_decide (n = 0)%Z then None else Some ("tty_nr=" +:+ pretty n)
      | None => None
      end
  | None => None
  end.

(** No snapshot of a process whose arguments cannot be read. *)
Definition snapshot (blake3 : string → list N) (pid : N) : option ProcSnapshot :=
  match pf_cmdline pf pid with
  | None => None
  | Some cmdline =>
      let argv := from_utf8_lossy <$> List.filter (λ s, negb (bool_decide (s = []))) (split_zero cmdline) in
      let stat := default "" (pf_stat pf pid) in
      Some (mkSnap pid (Plan.trim (default "" (pf_comm pf pid))) argv (default "" (pf_cwd pf pid))
        (summarize_env blake3 (default [] (pf_environ pf pid)))
        (default 0%N (parse_ppid (default "" (pf_status pf pid))))
        (default 0%N (parse_start_time stat)) (parse_tty stat))
  end.

(** [run_event] up to the socket. *)
Definition proc_event (blake3 : string → list N) (tool : ProcTool) (phase : PkgPhase) (during_undo : bool)
    (argv_joined : string) (pid : N) : option ProcEventReq :=
  if during_undo then None
  else
    let argv := if bool_decide (argv_joined = "") then [] else str_lines argv_joined in
    let parsed := match tool with
                  | ProcTool.Kill => parse_kill argv
                  | ProcTool.Pkill | ProcTool.Killall => parse_pattern_kill argv
                  end in
    match parsed with
    | None => None
    | Some k => Some (mkProcReq tool phase argv (omap (snapshot blake3) (resolve_pids (k_targets k))) pid)
    end.

End Kernel.

End Procs.
