(* ===== verification/ExecFacts.v ===== *)
(** * What the tiers report and what their executors do

    [ClientFacts], on the wrappers of database clients and of [kill]: the
    parsers read back what they are given: arguments joined into lines,
    the parts of a connection string without its password, the signal and the
    processes of [kill]; and the summary of an environment shows no secret.
    [ExecFacts]: the executors that suggest or run text. *)

From stdpp Require Import pretty.
From S2P Require Import Prelude Paths Base Events Inverse ShellRender Plan Executor Env EnvFacts Redirect.
From S2P Require Import Runners Text Redact Containers Notes TierStash Conn Procs.

Module ClientFacts.
Import EnvFacts Text TierStash Conn Procs.

(** ** Pieces of text *)

Lemma split_once_app (c : Ascii.ascii) (a b : string) :
  has_char c a = false → split_once c (a +:+ String c b) = Some (a, b).
Proof.
  induction a as [|x a IH]; intros Ha; [simpl; by rewrite bool_decide_eq_true_2|].
  simpl in Ha. apply orb_false_iff in Ha as [Hx Ha]. rewrite string_cons_app. cbn [split_once]. by rewrite Hx, IH.
Qed.

Lemma split_once_none (c : Ascii.ascii) (s : string) : has_char c s = false → split_once c s = None.
Proof. induction s as [|x s IH]; simpl; [done|]. intros [-> Hs]%orb_false_iff. by rewrite IH. Qed.

Lemma rsplit_once_none (c : Ascii.ascii) (s : string) : has_char c s = false → rsplit_once c s = None.
Proof. induction s as [|x s IH]; simpl; [done|]. intros [-> Hs]%orb_false_iff. by rewrite IH. Qed.

Lemma rsplit_once_app (c : Ascii.ascii) (a b : string) :
  has_char c b = false → rsplit_once c (a +:+ String c b) = Some (a, b).
Proof.
  intros Hb. induction a as [|x a IH]; [|rewrite string_cons_app; simpl; by rewrite IH].
  simpl. rewrite rsplit_once_none by done. by rewrite bool_decide_eq_true_2.
Qed.

(** ** Arguments joined into lines *)

Definition line_ok (w : string) : Prop := w ≠ "" ∧ has_char "010" w = false ∧ has_char "013" w = false.

Lemma lines_raw_app (a b : string) :
  has_char "010" a = false → Services.lines_raw (a +:+ String "010" b) = a :: Services.lines_raw b.
Proof.
  induction a as [|x a IH]; intros Ha; [done|]. simpl in Ha. apply orb_false_iff in Ha as [Hx Ha].
  rewrite string_cons_app. simpl. by rewrite Hx, IH.
Qed.

Lemma lines_raw_single (a : string) : a ≠ "" → has_char "010" a = false → Services.lines_raw a = [a].
Proof.
  induction a as [|x a IH]; intros Hn Ha; [done|]. simpl in *. apply orb_false_iff in Ha as [-> Ha].
  destruct a; [done|]. by rewrite IH.
Qed.

Lemma strip_cr_id (a : string) : has_char "013" a = false → strip_cr a = a.
Proof.
  induction a as [|x a IH]; intros Ha; [done|]. simpl in *. apply orb_false_iff in Ha as [Hx Ha].
  apply bool_decide_eq_false in Hx. rewrite bool_decide_eq_false_2 by tauto. by rewrite IH.
Qed.

Lemma lines_raw_join ws :
  Forall line_ok ws → Services.lines_raw (join (String "010" "") ws) = ws.
Proof.
  induction 1 as [|w ws (Hn & Hl & _) Hw IH]; [done|]. destruct ws as [|w' ws]; [by apply lines_raw_single|].
  change (join _ (w :: w' :: ws)) with (w +:+ String "010" (join (String "010" "") (w' :: ws))).
  by rewrite lines_raw_app, IH.
Qed.

Lemma strip_crs_id b ws : Forall line_ok ws → strip_crs b ws = ws.
Proof.
  induction 1 as [|w ws (_ & _ & Hc) Hw IH]; [done|]. destruct ws as [|w' ws]; cbn [strip_crs] in *.
  - destruct b; [|done]. by rewrite strip_cr_id.
  - by rewrite IH, strip_cr_id.
Qed.

(** The helper gets back the arguments the wrapper joined. *)
Lemma argv_of_joined ws : Forall line_ok ws → argv_of (join (String "010" "") ws) = ws.
Proof.
  intros Hw. unfold argv_of. case_bool_decide as Hj.
  - destruct Hw as [|w ws [Hn _] _]; [done|]. destruct w as [|c w]; [done|]. by destruct ws.
  - unfold str_lines. by rewrite lines_raw_join, strip_crs_id.
Qed.

(** ** Decimal numbers *)

Lemma pretty_char_digit (x : N) :
  (x < 10)%N → Redirect.is_ascii_digit (pretty_N_char x) = true
  ∧ (Z.of_N (Ascii.N_of_ascii (pretty_N_char x)) - 48)%Z = Z.of_N x.
Proof.
  intros Hx. destruct x as [|p]; [done|]. do 4 (destruct p as [p|p|]; try done; try lia).
Qed.

Lemma digits_go (n : N) (s : string) :
  ∃ k, ∀ acc, Services.digits acc (pretty_N_go n s) = Services.digits (acc * 10 ^ Z.of_nat k + Z.of_N n) s.
Proof.
  revert s. induction (N.lt_wf_0 n) as [n _ IH]; intros s. destruct (decide (n = 0)%N) as [-> |Hn].
  - exists 0. intros acc. rewrite pretty_N_go_0. f_equal. lia.
  - rewrite pretty_N_go_step by lia. pose proof (N.mod_lt n 10 ltac:(done)) as Hm.
    destruct (pretty_char_digit _ Hm) as [Hd Hv].
    destruct (IH (n `div` 10)%N (N.div_lt n 10 ltac:(lia) eq_refl) (String (pretty_N_char (n `mod` 10)) s)) as [k Hk].
    exists (S k). intros acc. rewrite Hk. cbn [Services.digits]. rewrite Hd, Hv. f_equal.
    rewrite Nat2Z.inj_succ, Z.pow_succ_r by lia. pose proof (N.div_mod n 10 ltac:(done)). lia.
Qed.

Lemma digits_pretty (n : N) : Services.digits 0 (pretty n) = Some (Z.of_N n).
Proof.
  unfold pretty, pretty_N. case_decide as Hn; [by subst|]. by destruct (digits_go n "") as [k ->].
Qed.

(** Nothing but digits, and at least one. *)
Lemma pretty_lacks (n : N) (c : Ascii.ascii) : Redirect.is_ascii_digit c = false → has_char c (pretty n) = false.
Proof.
  intros Hc. assert (∀ n s, has_char c s = false → has_char c (pretty_N_go n s) = false) as Hgo.
  { clear n. intros n. induction (N.lt_wf_0 n) as [n _ IH]; intros s Hs. destruct (decide (n = 0)%N) as [-> |Hn]; [done|].
    rewrite pretty_N_go_step by lia. apply IH; [by apply N.div_lt; lia|]. simpl. rewrite Hs, orb_false_r.
    apply bool_decide_eq_false. intros <-. destruct (pretty_char_digit (n `mod` 10)) as [Hd _]; [by apply N.mod_lt|congruence]. }
  unfold pretty, pretty_N. case_decide; [|by apply Hgo]. simpl. rewrite orb_false_r. by apply bool_decide_eq_false; intros <-.
Qed.

Lemma pretty_first (n : N) : ∃ c s, pretty n = String c s ∧ Redirect.is_ascii_digit c = true.
Proof.
  pose proof (digits_pretty n) as Hd. destruct (pretty n) as [|c s] eqn:Hp.
  - exfalso. unfold pretty, pretty_N in Hp. revert Hp. case_decide as Hn; [done|].
    intros Hp. simpl in Hd. injection Hd as Hd. lia.
  - exists c, s. split; [done|]. simpl in Hd. by destruct (Redirect.is_ascii_digit c).
Qed.

Lemma parse_int_pretty lo hi (n : N) : (lo ≤ Z.of_N n ≤ hi)%Z → Services.parse_int lo hi (pretty n) = Some (Z.of_N n).
Proof.
  intros Hr. pose proof (digits_pretty n) as Hd. destruct (pretty_first n) as (c & s & Hp & Hc). rewrite Hp in *.
  assert (Services.parse_int lo hi (String c s) = match Services.digits 0 (String c s) with
    | Some n => if bool_decide (lo ≤ n ≤ hi)%Z then Some n else None | None => None end) as ->
    by (clear Hd Hp; destruct c as [[] [] [] [] [] [] [] []]; try discriminate Hc; reflexivity).
  rewrite Hd. by rewrite bool_decide_eq_true_2.
Qed.

Lemma pretty_no_dash (n : N) (rest : string) : Redirect.strip_prefix (String "-" rest) (pretty n) = None.
Proof.
  destruct (pretty_first n) as (c & s & -> & Hc). cbn [Redirect.strip_prefix].
  rewrite bool_decide_eq_false_2; [done|]. by intros <-.
Qed.

Lemma parse_uint_pretty (max n : N) : (n ≤ max)%N → parse_uint max (pretty n) = Some n.
Proof.
  intros Hn. unfold parse_uint. unfold Redirect.starts. rewrite pretty_no_dash, parse_int_pretty by lia. cbn. by rewrite N2Z.id.
Qed.

(** ** Connection strings *)

Definition uri (scheme user pw host : string) (port : N) (db : string) : string :=
  scheme +:+ "://" +:+ user +:+ ":" +:+ pw +:+ "@" +:+ host +:+ ":" +:+ pretty port +:+ "/" +:+ db.

Definition without (cs : list Ascii.ascii) (s : string) : Prop := Forall (λ c, has_char c s = false) cs.

Record uri_ok (user pw host : string) (port : N) (db : string) : Prop := {
  user_ok : without [":"; "/"; "?"]%char user;
  pw_ok : without ["/"; "?"]%char pw;
  host_ok : without ["@"; "/"; "?"]%char host ∧ Redirect.starts host "[" = false;
  port_ok : (port ≤ 65535)%N;
  db_ok : without ["?"]%char db;
}.

(** A text without a character, from its pieces. *)
Ltac lacks :=
  repeat first [rewrite has_char_app|progress cbn [has_char]];
  repeat match goal with H : has_char _ _ = false |- _ => rewrite H end; done.

Lemma split_scheme (scheme r : string) :
  has_char ":" scheme = false → split_once_str "://" (scheme +:+ "://" +:+ r) = Some (scheme, r).
Proof.
  induction scheme as [|x s IH]; intros Hs; [by destruct r|]. simpl in Hs. apply orb_false_iff in Hs as [Hx Hs].
  apply bool_decide_eq_false in Hx. rewrite string_cons_app. cbn [split_once_str Redirect.strip_prefix].
  rewrite bool_decide_eq_false_2 by congruence. by rewrite IH.
Qed.

Lemma starts_bracket (host r : string) :
  Redirect.starts host "[" = false → Redirect.starts (host +:+ String ":" r) "[" = false.
Proof.
  destruct host as [|x h]; [done|]. rewrite string_cons_app. unfold Redirect.starts. cbn [Redirect.strip_prefix].
  by destruct (bool_decide ("["%char = x)).
Qed.

(** The parts of a connection string, without its password. *)
Lemma parse_uri scheme user pw host port db i :
  has_char ":" scheme = false → uri_ok user pw host port db →
  parse_pg_uri (uri scheme user pw host port db) i
  = inl (mkInfo host (Some port) user db (negb (bool_decide (pw = "")))).
Proof.
  intros Hs [Hu Hp [Hh Hb] Ht Hd]. unfold without in *. decompose_Forall_hyps. destruct_and?.
  assert (∀ c, Redirect.is_ascii_digit c = false → has_char c (pretty port) = false) as Hport
    by (intros c; apply pretty_lacks).
  pose proof (Hport ":"%char eq_refl). pose proof (Hport "@"%char eq_refl).
  pose proof (Hport "/"%char eq_refl). pose proof (Hport "?"%char eq_refl).
  unfold parse_pg_uri, uri. rewrite split_scheme by done.
  set (ui := user +:+ String ":" pw). set (hp := host +:+ String ":" (pretty port)).
  assert (user +:+ ":" +:+ pw +:+ "@" +:+ host +:+ ":" +:+ pretty port +:+ "/" +:+ db
    = (ui +:+ String "@" hp) +:+ String "/" db) as ->.
  { unfold ui, hp. by rewrite <- !string_app_assoc, !string_cons_app, <- !string_app_assoc. }
  unfold before_char. rewrite (split_once_none "?") by (unfold ui, hp; lacks).
  rewrite split_once_app by (unfold ui, hp; lacks). rewrite rsplit_once_app by (unfold hp; lacks).
  unfold userinfo_of, hostport_of, ui, hp. rewrite split_once_app, rsplit_once_app by done.
  rewrite starts_bracket by done. unfold parse_port. by rewrite parse_uint_pretty.
Qed.

(** The first argument of [psql] is one: the others do not matter. *)
Lemma parse_psql_uri scheme user pw host port db rest :
  scheme = "postgres" ∨ scheme = "postgresql" → uri_ok user pw host port db →
  parse_psql_argv (uri scheme user pw host port db :: rest)
  = inl (mkInfo host (Some port) user db (negb (bool_decide (pw = "")))).
Proof.
  intros Hs Hu. unfold parse_psql_argv. rewrite bool_decide_eq_false_2 by done. cbn [psql_connstring].
  assert (has_char ":" scheme = false) as Hc by (by destruct Hs as [-> | ->]).
  rewrite <- (parse_uri scheme user pw host port db blank Hc Hu). by destruct Hs as [-> | ->].
Qed.

(** ** [kill] *)

(** A signal and numbers: the parser reads them back. *)
Lemma kill_scan_pids sig (pids : list N) (ts : list KillTarget) :
  Forall (λ p, p < 2 ^ 31)%N pids →
  kill_scan (pretty <$> pids) sig ts = Some (sig, ts ++ ((λ p, KillTarget.Pid (Z.of_N p)) <$> pids)).
Proof.
  revert ts. induction pids as [|p pids IH]; intros ts Hp; [by rewrite app_nil_r|].
  apply Forall_cons in Hp as [Hp Hps]. rewrite !fmap_cons. cbn [kill_scan].
  assert (∀ x, pretty p ≠ String "-" x) as Hne.
  { intros x Hx. pose proof (pretty_no_dash p "") as Hd. rewrite Hx in Hd. by destruct x. }
  rewrite !bool_decide_eq_false_2 by (rewrite ?elem_of_cons, ?elem_of_nil; naive_solver).
  unfold dashed. rewrite pretty_no_dash, IH by done. rewrite <- app_assoc. cbn [app]. do 4 f_equal.
  unfold kill_target_of. destruct (Redirect.strip_prefix "%" (pretty p)) as [r|] eqn:Hpc.
  - exfalso. destruct (pretty_first p) as (c & s & Hs & Hc). rewrite Hs in Hpc. cbn in Hpc.
    revert Hpc. case_bool_decide as He; [by subst|done].
  - unfold parse_i32. by rewrite parse_int_pretty by lia.
Qed.

Lemma signal_not_flag sig : looks_like_signal sig = true → sig ∉ ["-"; "l"; "L"; "s"; "-signal"].
Proof.
  intros Hs Hx. repeat (apply elem_of_cons in Hx as [-> |Hx]; [by vm_compute in Hs|]). by apply elem_of_nil in Hx.
Qed.

Lemma parse_kill_pids sig (pids : list N) :
  looks_like_signal sig = true → pids ≠ [] → Forall (λ p, p < 2 ^ 31)%N pids →
  parse_kill (String "-" sig :: (pretty <$> pids)) = Some (mkKill sig ((λ p, KillTarget.Pid (Z.of_N p)) <$> pids)).
Proof.
  intros Hs Hne Hp. unfold parse_kill. cbn [kill_scan].
  pose proof (signal_not_flag sig Hs) as Hn. rewrite !not_elem_of_cons in Hn. destruct_and!.
  rewrite !bool_decide_eq_false_2 by (rewrite ?elem_of_cons, ?elem_of_nil; intros Hx; destruct_or?; simplify_eq).
  assert (dashed (String "-" sig) = Some sig) as -> by (by destruct sig).
  rewrite Hs, kill_scan_pids by done. rewrite bool_decide_eq_false_2; [done|]. by destruct pids.
Qed.

(** ** Environment summaries *)

(** Every variable a snapshot shows is on the list with its value, or has a
    telling name and a marker instead of its value. *)
Lemma summary_safe blake3 block k v :
  summarize_env blake3 block !! k = Some v →
  if Env.is_redacted Env.default_filter k then ∃ x, v = Env.redact_value blake3 x else k ∈ ENV_WHITELIST.
Proof.
  unfold summarize_env.
  assert (∀ l m, (∀ k v, m !! k = Some v →
      if Env.is_redacted Env.default_filter k then ∃ x, v = Env.redact_value blake3 x else k ∈ ENV_WHITELIST) →
    ∀ k v, foldl (summary_entry blake3) m l !! k = Some v →
      if Env.is_redacted Env.default_filter k then ∃ x, v = Env.redact_value blake3 x else k ∈ ENV_WHITELIST) as Hgo.
  { induction l as [|b l IH]; intros m Hm; simpl; [done|]. apply IH. intros k' v' Hk. unfold summary_entry in Hk.
    destruct (split_at_eq b) as [[n x]|]; [|by apply Hm]. case_match eqn:Hkeep; [|by apply Hm].
    apply lookup_insert_Some in Hk as [[<- <-]|[_ Hk]]; [|by apply Hm].
    destruct (Env.is_redacted _ _); [by eexists|]. rewrite orb_false_r in Hkeep. by apply bool_decide_eq_true in Hkeep. }
  apply Hgo. intros k' v' Hk. by rewrite lookup_empty in Hk.
Qed.

End ClientFacts.

(** * What the remaining executors do

    The text suggested for a killed process is read by a POSIX shell as what
    was captured; descriptors are filled in completely or not run; and some
    reversals that do not bring the old state back. *)

Module ExecFacts.
Import Executor ShellRender Env EnvFacts Runners Text Json Containers Clouds Notes Procs ClientFacts.

(** ** Reading a list of commands *)

(** Words with blanks between, commands with [&&] between. *)
Fixpoint read_commands (fuel : nat) (s : string) (cur : list string) : option (list (list string)) :=
  match fuel with
  | O => None
  | S fuel' =>
      match s with
      | EmptyString => Some [cur]
      | String " " s' =>
          match Redirect.strip_prefix "&& " s' with
          | Some rest => cons cur <$> read_commands fuel' rest []
          | None => read_commands fuel' s' cur
          end
      | _ =>
          match sh_word Unquoted s with
          | Some (w, rest) => read_commands fuel' rest (cur ++ [w])
          | None => None
          end
      end
  end.

(** A text that ends a word where it starts. *)
Definition stops (rest : string) : Prop := sh_word Unquoted rest = Some ("", rest).

Lemma stops_nil : stops "".
Proof. done. Qed.
Lemma stops_blank rest : stops (String " " rest).
Proof. done. Qed.

Lemma quoted_word (v rest : string) : stops rest → sh_word Unquoted (posix_single_quote v +:+ rest) = Some (v, rest).
Proof.
  intros Hr. rewrite posix_single_quote_eq, sh_word_quote, Hr. cbn. by rewrite string_app_nil_r.
Qed.

Lemma read_quoted fuel (v rest : string) cur :
  stops rest → read_commands (S fuel) (posix_single_quote v +:+ rest) cur = read_commands fuel rest (cur ++ [v]).
Proof.
  intros Hr. pose proof (quoted_word v rest Hr) as Hw. unfold posix_single_quote in *. rewrite string_cons_app in *.
  cbn [read_commands]. by rewrite Hw.
Qed.

Lemma read_blank fuel (c : Ascii.ascii) (s : string) cur :
  c ≠ "&"%char → read_commands (S fuel) (String " " (String c s)) cur = read_commands fuel (String c s) cur.
Proof. intros Hc. cbn [read_commands Redirect.strip_prefix]. by rewrite bool_decide_eq_false_2. Qed.

Lemma read_and fuel (s : string) cur :
  read_commands (S fuel) (" && " +:+ s) cur = cons cur <$> read_commands fuel s [].
Proof. done. Qed.

(** The name, the sign and the quoted value are one word. *)
Lemma read_assignment fuel (k v rest : string) cur :
  k ≠ "" → all_chars name_char k = true → stops rest →
  read_commands (S fuel) (k +:+ "=" +:+ posix_single_quote v +:+ rest) cur
  = read_commands fuel rest (cur ++ [k +:+ "=" +:+ v]).
Proof.
  intros Hne Hk Hr.
  assert (sh_word Unquoted (k +:+ "=" +:+ posix_single_quote v +:+ rest) = Some (k +:+ "=" +:+ v, rest)) as Hw.
  { clear Hne. induction k as [|c k IH].
    - change ("" +:+ ?x) with x. change ("=" +:+ ?x) with (String "=" x). cbn [sh_word].
      rewrite (quoted_word v rest Hr). done.
    - simpl in Hk. apply andb_true_iff in Hk as [Hc Hk]. destruct (name_char_literal c Hc) as (H1 & H2 & H3 & H4 & _).
      rewrite !(string_cons_app c k). cbn [sh_word]. by rewrite H1, H2, H3, H4, IH. }
  destruct k as [|c k]; [done|]. simpl in Hk. apply andb_true_iff in Hk as [Hc _].
  rewrite string_cons_app in Hw |- *. cbn [read_commands]. rewrite Hw.
  clear -Hc. destruct c as [[] [] [] [] [] [] [] []]; try discriminate Hc; reflexivity.
Qed.

Lemma read_word fuel (w rest : string) cur :
  w ≠ "" → all_chars name_char w = true → stops rest →
  read_commands (S fuel) (w +:+ rest) cur = read_commands fuel rest (cur ++ [w]).
Proof.
  intros Hne Hk Hr. pose proof (sh_word_name w rest Hk Hr) as Hw. destruct w as [|c w]; [done|].
  simpl in Hk. apply andb_true_iff in Hk as [Hc _]. rewrite string_cons_app in Hw |- *. cbn [read_commands]. rewrite Hw.
  clear -Hc. destruct c as [[] [] [] [] [] [] [] []]; try discriminate Hc; reflexivity.
Qed.

(** ** Restart suggestions *)

Definition exported (l : list (string * string)) : list (string * string) :=
  List.filter (λ kv, negb (Redirect.starts kv.2 "<redacted:")) l.

Definition export_command (kv : string * string) : list string := ["export"; kv.1 +:+ "=" +:+ kv.2].

Definition nameable (kv : string * string) : Prop := kv.1 ≠ "" ∧ all_chars name_char kv.1 = true.

Definition exports_text (l : list (string * string)) : string := foldr (λ kv acc, export_part kv +:+ acc) "" l.

Lemma exports_text_cons kv l (x : string) : exports_text (kv :: l) +:+ x = export_part kv +:+ (exports_text l +:+ x).
Proof. cbn [exports_text foldr]. fold (exports_text l). by rewrite <- string_app_assoc. Qed.

Lemma stops_exports l rest : stops (exports_text l +:+ " && " +:+ rest).
Proof.
  induction l as [|[k v] l IH]; [apply stops_blank|]. rewrite exports_text_cons. unfold export_part. cbn [fst snd].
  case_match; [exact IH|apply stops_blank].
Qed.

Lemma read_export fuel (k v tail : string) cur :
  Redirect.starts v "<redacted:" = false → nameable (k, v) → stops tail →
  read_commands (4 + fuel) (export_part (k, v) +:+ tail) cur = cons cur <$> read_commands fuel tail (export_command (k, v)).
Proof.
  intros Hv [Hne Hk] Hs. unfold export_part. cbn [fst snd] in *. rewrite Hv, <- !string_app_assoc.
  change (" && export " +:+ ?x) with (" && " +:+ "export" +:+ " " +:+ x).
  change (4 + fuel) with (S (S (S (S fuel)))). rewrite read_and. f_equal. rewrite read_word by done. cbn [app].
  destruct k as [|c k]; [done|]. rewrite (string_cons_app c k). change (" " +:+ ?x) with (String " " x).
  rewrite read_blank.
  - rewrite <- string_cons_app, read_assignment by done. done.
  - simpl in Hk. apply andb_true_iff in Hk as [Hc _]. by intros ->.
Qed.

(** What is read before a last command. *)
Lemma read_exports (l : list (string * string)) fuel rest last : ∀ cur,
  Forall nameable (exported l) → (∀ cur, read_commands fuel (" && " +:+ rest) cur = Some [cur; last]) →
  read_commands (4 * length (exported l) + fuel) (exports_text l +:+ " && " +:+ rest) cur
  = Some (cur :: (export_command <$> exported l) ++ [last]).
Proof.
  induction l as [|[k v] l IH]; intros cur Hn Hrest; [apply Hrest|]. rewrite exports_text_cons.
  assert (exported ((k, v) :: l) = if Redirect.starts v "<redacted:" then exported l else (k, v) :: exported l) as He
    by (unfold exported; cbn; by destruct (Redirect.starts v "<redacted:")).
  rewrite He in *. destruct (Redirect.starts v "<redacted:") eqn:Hv.
  { unfold export_part. cbn [snd]. rewrite Hv. by apply IH. }
  apply Forall_cons in Hn as [Hk Hn].
  replace (4 * length _ + fuel) with (4 + (4 * length (exported l) + fuel)) by (simpl; lia).
  rewrite read_export by (done || apply stops_exports). by rewrite IH.
Qed.

Lemma read_argv (argv : list string) : ∀ a cur,
  read_commands (2 * length argv + 2) (join " " (posix_single_quote <$> a :: argv)) cur = Some [cur ++ a :: argv].
Proof.
  induction argv as [|b argv IH]; intros a cur.
  - cbn [fmap list_fmap join length]. change (2 * 0 + 2) with 2. rewrite <- (string_app_nil_r (posix_single_quote a)).
    by rewrite read_quoted by apply stops_nil.
  - change (join " " (posix_single_quote <$> a :: b :: argv))
      with (posix_single_quote a +:+ " " +:+ join " " (posix_single_quote <$> b :: argv)).
    replace (2 * length (b :: argv) + 2) with (S (S (2 * length argv + 2))) by (simpl; lia).
    rewrite read_quoted by apply stops_blank.
    assert (∃ c x, join " " (posix_single_quote <$> b :: argv) = String c x ∧ c ≠ "&"%char) as (c & x & Hx & Hc).
    { unfold posix_single_quote. destruct argv; eexists _, _; split; done. }
    change (" " +:+ ?x) with (String " " x). rewrite Hx, read_blank by done. rewrite <- Hx, IH. by rewrite <- app_assoc.
Qed.

Lemma summary_nameable blake3 block : Forall nameable (exported (btree_iter (summarize_env blake3 block))).
Proof.
  apply Forall_forall. intros [k v] Hin. unfold exported in Hin. apply list_elem_of_In, filter_In in Hin as [Hin Hv].
  assert (summarize_env blake3 block !! k = Some v) as Hk.
  { apply elem_of_map_to_list. unfold btree_iter in Hin. apply list_elem_of_In in Hin. by rewrite sort_by_perm in Hin. }
  apply summary_safe in Hk. cbn [snd] in Hv. case_match.
  - destruct Hk as [x ->]. done.
  - unfold ENV_WHITELIST in Hk. split; cbn [fst]; repeat (apply elem_of_cons in Hk as [-> |Hk]; [done|]); by apply elem_of_nil in Hk.
Qed.

(** The text shown for a process of whom no service is known. Read by a POSIX
    shell, it is a list of commands, each run only if the one before
    succeeded: the directory of the process, an export for every variable of
    its summary that was not redacted, and its arguments, each exactly as
    captured, whatever characters they hold. *)
Theorem restart_snippet_exact uid blake3 block a argv cwd message :
  let env := summarize_env blake3 block in
  ∃ fuel, read_commands fuel (render_snippet uid (synthesize ∅ (a :: argv) cwd env message)) []
    = Some (["cd"; path_string cwd] :: (export_command <$> exported (btree_iter env)) ++ [a :: argv]).
Proof.
  intros env. unfold synthesize. rewrite lookup_empty. cbn [render_snippet rs_hint]. unfold render_raw_argv.
  cbn [rs_cwd rs_env_summary rs_original_argv]. fold (exports_text (btree_iter env)).
  set (rest := join " " (posix_single_quote <$> a :: argv)).
  exists (3 + (4 * length (exported (btree_iter env)) + (S (2 * length argv + 2)))).
  change ("cd " +:+ ?x) with ("cd" +:+ " " +:+ x). change (3 + ?n) with (S (S (S n))). rewrite read_word by done. cbn [app].
  assert (∃ x, posix_single_quote (path_string cwd) = String "'" x) as [x Hx] by (eexists; done).
  change (" " +:+ ?x) with (String " " x). rewrite Hx, string_cons_app, read_blank by done.
  rewrite <- string_cons_app, <- Hx. rewrite read_quoted by apply stops_exports.
  apply read_exports; [apply summary_nameable|]. intros cur. rewrite read_and. unfold rest. by rewrite read_argv.
Qed.

(** ** Descriptors *)

Lemma strip_prefix_length (lit s r : string) :
  Redirect.strip_prefix lit s = Some r → String.length s = String.length lit + String.length r.
Proof.
  revert s. induction lit as [|a lit IH]; intros s; simpl; [by intros [= ->]|].
  destruct s as [|b s]; [done|]. case_bool_decide; [|done]. intros Hr. simpl. by rewrite (IH s).
Qed.

Lemma split_once_str_length (sep s a b : string) :
  split_once_str sep s = Some (a, b) → String.length s = String.length a + String.length sep + String.length b.
Proof.
  revert a b. induction s as [|c s IH]; intros a b; cbn [split_once_str];
    destruct (Redirect.strip_prefix sep _) as [r|] eqn:Hp; try done.
  - intros [= <- <-]. by apply strip_prefix_length in Hp.
  - intros [= <- <-]. by apply strip_prefix_length in Hp.
  - destruct (split_once_str sep s) as [[a' b']|] eqn:Hs; [|done]. intros [= <- <-]. simpl. by rewrite (IH a' b').
Qed.

(** The length of the text is enough fuel. *)
Lemma interpolate_fuel (f g : nat) tok rest state :
  String.length rest ≤ f → String.length rest ≤ g → interpolate_from f tok rest state = interpolate_from g tok rest state.
Proof.
  revert g rest. induction f as [|f IH]; intros g rest Hf Hg.
  { destruct rest; [|simpl in Hf; lia]. by destruct g. }
  destruct g as [|g]; [destruct rest; [done|simpl in Hg; lia]|]. cbn [interpolate_from].
  destruct (split_once_str "{{" rest) as [[before after]|] eqn:H1; [|done].
  destruct (split_once_str "}}" after) as [[name rest']|] eqn:H2; [|done].
  apply split_once_str_length in H1, H2. simpl in H1, H2. rewrite (IH g) by lia. done.
Qed.

(** ** Reversals that are not *)

(** Undoing [terraform apply] destroys everything the directory manages, what
    was there before the command included: the captured state is not looked
    at. *)
Theorem terraform_apply_undo_destroys {T} (px : Programs T) stash_state workdir prior plan confirm policy t :
  terraform_execute px stash_state (InverseOp.TerraformReverse workdir TerraformOp.Apply prior plan confirm) false policy t
  = tool_outcome "terraform destroy" (run_in px workdir ["terraform"; "destroy"; "-auto-approve"; "-no-color"] t).
Proof. done. Qed.

(** Undoing the removal of a container that was not running starts it. *)
Theorem stopped_container_started {T} (px : Programs T) json_of load runtime id name config inspect policy t :
  json_of config = inl inspect →
  (∃ image, nonempty (field as_str "Image" (get_or_null "Config" (unwrap_one inspect))) = Some image) →
  ∃ args, container_execute px json_of load
      (InverseOp.ContainerRestore runtime (ContainerOp.Rm id name false) config None None true) false policy t
    = run_outcome [Lit (runtime_bin runtime); Lit " run (rm reverse)"]
        (system_run (px_exec px) (runtime_bin runtime :: "run" :: "-d" :: args) t).
Proof.
  intros Hj [image Hi]. cbn [container_execute]. unfold apply_rm. rewrite Hj. cbn [andb stash_guard].
  assert (resolved_image (unwrap_one inspect) None = Some image) as ->.
  { unfold resolved_image, get_or_null in *. cbn [nonempty]. destruct (get "Config" (unwrap_one inspect)); [exact Hi|].
    cbn in Hi. done. }
  eexists. unfold synthesize_container_run. cbn [app]. reflexivity.
Qed.

(** A dot in the name of a unit cuts off what is before it. *)
Theorem dotted_unit_misread :
  unit_to_process_key "php8.1-fpm.service" = Some "1-fpm" ∧ unit_to_process_key "redis-server@a.service" = Some "redis-server".
Proof. split; vm_compute; reflexivity. Qed.

End ExecFacts.
