(* ===== verification/DescFacts.v ===== *)
(** * Facts on descriptors

    The lint and the parser of extraction paths agree; a loaded descriptor is
    linted and filed under its authority and name; dispatch takes the best
    match; and the reverse command of a linted descriptor runs with exactly
    the captured values in place of its variables. *)

From S2P Require Import Prelude Paths Base Events Inverse Executor Env Redirect Runners Text Containers.
From S2P Require Import Notes Desc ExecFacts.

Module DescFacts.
Import Executor Runners Text Json Notes ExecFacts Desc.

(** ** Extraction paths *)

Lemma span_while_length p (s : string) : String.length (span_while p s).2 ≤ String.length s.
Proof. induction s as [|c s IH]; simpl; [done|]. destruct (p c); [|done]. destruct (span_while p s). simpl in *. lia. Qed.

(** What the lint accepts parses, unless an index does not fit in 64 bits. *)
Definition parses (path : string) (r : list Segment + ParseError) : Prop :=
  (∃ l, r = inl l) ∨ r = inr (ParseError.BadPath path "non-numeric index").

Lemma parses_cons path seg r : parses path r → parses path (cons_segment seg r).
Proof. intros [[l ->]| ->]; [left; by eexists|by right]. Qed.

Lemma cons_segment_inl seg r l : cons_segment seg r = inl l → ∃ l', r = inl l'.
Proof. destruct r; [by eexists|done]. Qed.

Lemma segments_agree (fuel : nat) (path s : string) : String.length s ≤ fuel →
  (structured_from fuel s = true → parses path (segments_from fuel path s))
  ∧ (∀ l, segments_from fuel path s = inl l → structured_from fuel s = true).
Proof.
  revert s. induction fuel as [|fuel IH]; intros [|c rest] Hf; simpl in Hf; try lia.
  1, 2: split; [left; by eexists|done].
  cbn [structured_from segments_from]. case_bool_decide.
  - destruct rest as [|a rest]; [done|]. destruct (name_start a); cbn [negb andb]; [|done].
    pose proof (span_while_length var_char (String a rest)) as Hl.
    destruct (span_while var_char (String a rest)) as [name after]. cbn [snd] in *.
    destruct (IH after) as [Hto Hfrom]; [simpl in *; lia|].
    split; [intros Hs; by apply parses_cons, Hto|]. intros l [l' Hl']%cons_segment_inl. by eapply Hfrom.
  - case_bool_decide; [|done]. pose proof (span_while_length Redirect.is_ascii_digit rest) as Hl.
    destruct (span_while Redirect.is_ascii_digit rest) as [digits after]. cbn [snd] in Hl.
    destruct after as [|x after]; [done|].
    destruct (Ascii.ascii_dec x "]"%char) as [->|Hx]; [|by destruct x as [[] [] [] [] [] [] [] []]].
    case_bool_decide; cbn [negb andb]; [done|].
    destruct (IH after) as [Hto Hfrom]; [simpl in *; lia|].
    destruct (parse_usize digits); [|split; [by right|done]].
    split; [intros Hs; by apply parses_cons, Hto|]. intros l [l' Hl']%cons_segment_inl. by eapply Hfrom.
Qed.

(** The two grammars of structured paths, in [schema.rs] and in [parse.rs],
    are one. *)
Theorem structured_path_agrees (path : string) :
  (is_structured_path path = true → parses path (parse_structured_path path))
  ∧ (∀ l, parse_structured_path path = inl l → is_structured_path path = true).
Proof.
  unfold is_structured_path, parse_structured_path. destruct (segments_agree (String.length path) path path) as [H1 H2]; [done|].
  split.
  - rewrite !andb_true_iff, !negb_true_iff, !bool_decide_eq_false. intros [[Ha Hb] Hs].
    rewrite !bool_decide_eq_false_2 by done. by apply H1.
  - intros l Hl. case_bool_decide; [done|]. case_bool_decide; [done|]. simpl. by eapply H2.
Qed.

(** ** The loader *)

(** What the loader holds under an authority and a name. *)
Definition filed (toml_of : string → Descriptor + Msg) (auth name : string) (ld : LoadedDescriptor) : Prop :=
  lint (ld_descriptor ld) = inl tt ∧ hd_name (ds_descriptor (ld_descriptor ld)) = name
  ∧ authority_display (hd_authority (ds_descriptor (ld_descriptor ld))) = auth
  ∧ extension (ld_source ld) = Some "toml" ∧ ∃ text, toml_of text = inl (ld_descriptor ld).

Lemma authority_matches_eq (a b : DescriptorAuthority) : authority_matches a b = true → a = b.
Proof. destruct a, b; simpl; try done. intros Hs. apply bool_decide_eq_true in Hs. by subst. Qed.

Section Loading.
Context (toml_of : string → Descriptor + Msg) (expected : DescriptorAuthority).

Abbreviation bucket_ok bucket := (map_Forall (filed toml_of (authority_display expected)) bucket).

Lemma load_file_ok path text bucket bucket' :
  load_file toml_of path text expected bucket = inl bucket' → bucket_ok bucket → bucket_ok bucket'.
Proof.
  unfold load_file. case_bool_decide as Hext; cbn [negb]; [|by intros [= <-]]. destruct text as [text|]; [|done].
  unfold from_toml. destruct (toml_of text) as [d|] eqn:Ht; [|done]. destruct (lint d) as [[]|] eqn:Hl; [|done].
  destruct (authority_matches _ _) eqn:Ha; cbn [negb]; [|done]. apply authority_matches_eq in Ha.
  destruct (bucket !! _) eqn:Hb; [done|]. intros [= <-] Hok. apply map_Forall_insert_2; [|done].
  split_and!; try done; [by rewrite <- Ha|by exists text].
Qed.

Fixpoint walk_dir_ok (root : PathBuf) (dir : Dir) (bucket bucket' : Bucket) {struct dir} :
  walk_dir toml_of root dir expected bucket = inl bucket' → bucket_ok bucket → bucket_ok bucket'
with walk_entry_ok (root : PathBuf) (entry : Entry) (bucket bucket' : Bucket) {struct entry} :
  walk_entry toml_of root entry expected bucket = inl bucket' → bucket_ok bucket → bucket_ok bucket'.
Proof.
  - destruct dir as [e|entries]; [done|]. cbn [walk_dir]. revert bucket.
    induction entries as [|en entries IH]; intros bucket; [by intros [= ->]|].
    destruct (walk_entry toml_of root en expected bucket) as [b|] eqn:He; [|done].
    intros Hgo Hok. eapply (IH b); [exact Hgo|]. by eapply walk_entry_ok.
  - destruct entry as [e|p e|p d|p text]; cbn [walk_entry]; try done; [apply walk_dir_ok|apply load_file_ok].
Qed.
End Loading.

Lemma from_roots_ok toml_of roots loader loader' :
  from_roots_with toml_of roots loader = inl loader' →
  map_Forall (λ auth, map_Forall (filed toml_of auth)) loader → map_Forall (λ auth, map_Forall (filed toml_of auth)) loader'.
Proof.
  revert loader. induction roots as [|[auth [path [dir|]]] roots IH]; intros loader; cbn [from_roots_with].
  - by intros [= ->].
  - destruct (walk_dir _ _ _ _ _) as [bucket|] eqn:Hw; [|done]. intros Hr Hok. eapply IH; [exact Hr|].
    apply map_Forall_insert_2; [|done]. eapply walk_dir_ok; [exact Hw|].
    destruct (loader !! _) eqn:Hl; [by apply (Hok _ _ Hl)|apply map_Forall_empty].
  - apply IH.
Qed.

(** A descriptor that is loaded passed the lint, stands under the authority it
    declares and under its own name, and was read from a TOML file. *)
Theorem loaded_descriptors_linted toml_of roots loader auth bucket name ld :
  from_roots toml_of roots = inl loader → loader !! auth = Some bucket → bucket !! name = Some ld →
  filed toml_of auth name ld.
Proof.
  intros Hr Ha Hn. pose proof (from_roots_ok _ _ _ _ Hr (map_Forall_empty _)) as Hok.
  exact (Hok _ _ Ha _ _ Hn).
Qed.

(** ** Dispatch *)

Lemma elem_of_loader_iter (l : Loader) auth ld :
  (auth, ld) ∈ loader_iter l ↔ ∃ bucket name, l !! auth = Some bucket ∧ bucket !! name = Some ld.
Proof.
  unfold loader_iter. rewrite list_elem_of_join. split.
  - intros (x & Hx & ([a b] & -> & Hab)%list_elem_of_fmap). apply elem_of_btree_iter in Hab.
    apply list_elem_of_fmap in Hx as ([n d] & [= -> ->] & Hnd). apply elem_of_btree_iter in Hnd. by exists b, n.
  - intros (bucket & name & Ha & Hn). eexists. split; [|apply list_elem_of_fmap; exists (auth, bucket);
      split; [reflexivity|by apply elem_of_btree_iter]].
    apply list_elem_of_fmap. exists (name, ld). split; [done|by apply elem_of_btree_iter].
Qed.

Definition candidate_of (argv : list string) (al : string * LoadedDescriptor) : Candidate :=
  (score (match_descriptor (ds_match (ld_descriptor al.2)) argv), authority_rank al.1, al.2).

Definition matches (argv : list string) (al : string * LoadedDescriptor) : Prop :=
  matched (match_descriptor (ds_match (ld_descriptor al.2)) argv) = true.

(** The fold keeps a match that no match so far beats. *)
Lemma dispatch_fold argv (l : list (string * LoadedDescriptor)) :
  match foldl (dispatch_step argv) None l with
  | None => Forall (λ al, ¬ matches argv al) l
  | Some c => (∃ al, al ∈ l ∧ matches argv al ∧ c = candidate_of argv al)
              ∧ ∀ al, al ∈ l → matches argv al → better (candidate_of argv al) c = false
  end.
Proof.
  induction l as [|al l IH] using rev_ind; [constructor|]. rewrite foldl_app. cbn [foldl].
  set (best := foldl _ _ l) in *. unfold dispatch_step. fold (candidate_of argv al).
  destruct (matched _) eqn:Hm; cbn [negb].
  - destruct best as [prev|].
    + destruct IH as [(x & Hx & Hmx & ->) Hall]. destruct (better (candidate_of argv al) (candidate_of argv x)) eqn:Hb.
      * split; [exists al; set_solver|]. intros y Hy Hmy. apply elem_of_app in Hy as [Hy|Hy%list_elem_of_singleton].
        { specialize (Hall y Hy Hmy). unfold better in *. rewrite ?orb_true_iff, ?orb_false_iff, ?andb_true_iff, ?andb_false_iff,
            ?bool_decide_eq_true, ?bool_decide_eq_false in *. lia. }
        subst y. unfold better. rewrite orb_false_iff, andb_false_iff, !bool_decide_eq_false. lia.
      * split; [exists x; set_solver|]. intros y Hy Hmy. apply elem_of_app in Hy as [Hy|Hy%list_elem_of_singleton]; [by apply Hall|].
        by subst.
    + split; [exists al; set_solver|]. intros y Hy Hmy. apply elem_of_app in Hy as [Hy|Hy%list_elem_of_singleton].
      { rewrite Forall_forall in IH. by destruct (IH y Hy). }
      subst y. unfold better. rewrite orb_false_iff, andb_false_iff, !bool_decide_eq_false. lia.
  - destruct best as [prev|].
    + destruct IH as [(x & Hx & Hmx & ->) Hall]. split; [exists x; set_solver|].
      intros y Hy Hmy. apply elem_of_app in Hy as [Hy|Hy%list_elem_of_singleton]; [by apply Hall|]. subst y.
      unfold matches in Hmy. congruence.
    + apply Forall_app. split; [done|]. constructor; [|constructor]. unfold matches. congruence.
Qed.

(** Dispatch finds a descriptor exactly where one matches; it takes one with
    the highest score and, among those, of the strongest authority: the user's
    before the built-in ones before those of third parties. *)
Theorem dispatch_best (l : Loader) (argv : list string) :
  match dispatch l argv with
  | None => ∀ auth bucket name ld, l !! auth = Some bucket → bucket !! name = Some ld →
      matched (match_descriptor (ds_match (ld_descriptor ld)) argv) = false
  | Some best => ∃ auth bucket name, l !! auth = Some bucket ∧ bucket !! name = Some best
      ∧ let out := match_descriptor (ds_match (ld_descriptor best)) argv in
        matched out = true
        ∧ ∀ auth' bucket' name' ld, l !! auth' = Some bucket' → bucket' !! name' = Some ld →
          let out' := match_descriptor (ds_match (ld_descriptor ld)) argv in
          matched out' = true → (score out' < score out)%N
          ∨ (score out' = score out ∧ (authority_rank auth ≤ authority_rank auth')%N)
  end.
Proof.
  unfold dispatch. pose proof (dispatch_fold argv (loader_iter l)) as Hf.
  destruct (foldl _ _ _) as [c|]; cbn [fmap option_fmap option_map].
  - destruct Hf as [([auth ld] & Hin & Hm & ->) Hall]. apply elem_of_loader_iter in Hin as (bucket & name & Ha & Hn).
    exists auth, bucket, name. split; [done|]. split; [done|]. split; [exact Hm|]. intros auth' bucket' name' ld' Ha' Hn' Hm'.
    assert ((auth', ld') ∈ loader_iter l) as Hin' by (apply elem_of_loader_iter; eauto).
    specialize (Hall _ Hin' Hm'). unfold better, candidate_of in Hall. cbn [fst snd] in Hall.
    rewrite orb_false_iff, andb_false_iff, !bool_decide_eq_false in Hall. cbn [candidate_of snd]. lia.
  - intros auth bucket name ld Ha Hn. apply not_true_iff_false. rewrite Forall_forall in Hf.
    apply (Hf (auth, ld)). apply elem_of_loader_iter. eauto.
Qed.

(** ** Specificity *)

(** [refines p q]: [p] is [q] with wildcards filled in. *)
Inductive refines : list string → list string → Prop :=
  | refines_nil : refines [] []
  | refines_tail p : refines p ["**"]
  | refines_token a b p q : a ≠ "**" → b ≠ "**" → a = b ∨ b = "*" → refines p q → refines (a :: p) (b :: q).

Lemma score_per_token (p argv : list string) s r :
  match_inner p argv s = yes r → (s + 25 * N.of_nat (length argv) ≤ r)%N.
Proof.
  revert argv s. induction p as [|tok p IH]; intros argv s; cbn [match_inner].
  - case_bool_decide; [|done]. subst. intros [= <-]. simpl. lia.
  - case_bool_decide; [case_bool_decide; intros [= <-]; subst; simpl; lia|]. destruct argv as [|a argv]; [done|].
    case_bool_decide; [intros Hm%IH; simpl in *; lia|]. case_bool_decide; [|done]. intros Hm%IH. simpl in *. lia.
Qed.

(** Of two patterns that match, the one with wildcards filled in scores at
    least as high, as long as [**] stands for something. *)
Theorem specific_scores_higher (p q argv : list string) s t rp rq :
  refines p q → length q ≤ length argv → (t ≤ s)%N →
  match_inner p argv s = yes rp → match_inner q argv t = yes rq → (rq ≤ rp)%N.
Proof.
  intros Hr. revert argv s t. induction Hr as [|p|a b p q Ha Hb Hab Hr IH]; intros argv s t Hl Hst; cbn [match_inner].
  - case_bool_decide; [|done]. intros [= <-] [= <-]. done.
  - rewrite (bool_decide_eq_true_2 ("**" = "**")) by done. intros Hp%score_per_token.
    destruct argv; [simpl in Hl; lia|]. rewrite bool_decide_eq_false_2 by done. intros [= <-]. simpl in *. lia.
  - rewrite !(bool_decide_eq_false_2 (_ = "**")) by done. destruct argv as [|x argv]; [simpl in Hl; lia|].
    intros Hp Hq. apply le_S_n in Hl.
    repeat case_bool_decide; try done; try (by destruct Hab; congruence);
      (eapply IH; [exact Hl| |exact Hp|exact Hq]; lia).
Qed.

(** An empty tail counts more than no tail: the exact pattern loses. *)
Theorem empty_tail_outscores :
  let argv := ["git"; "push"] in
  (score (match_pattern argv argv) < score (match_pattern ["git"; "push"; "**"] argv))%N.
Proof. by vm_compute. Qed.

(** ** Interpolation *)

(** A token: a literal, then variables each with the literal after it. *)
Definition Template : Type := string * list (string * string).

Definition render_tail (vs : list (string * string)) : string :=
  foldr (λ vl acc, "{{" +:+ vl.1 +:+ "}}" +:+ vl.2 +:+ acc) "" vs.
Definition render (t : Template) : string := t.1 +:+ render_tail t.2.

Definition substitute (state : gmap string string) (t : Template) : string :=
  t.1 +:+ foldr (λ vl acc, default "" (state !! vl.1) +:+ vl.2 +:+ acc) "" t.2.

Definition no_brace (s : string) : Prop := Forall (λ c, c ≠ "{"%char) (String.list_ascii_of_string s).

Definition well_formed (t : Template) : Prop :=
  no_brace t.1 ∧ Forall (λ vl, is_var_name vl.1 = true ∧ no_brace vl.2) t.2.

(** A text without the first character of the separator. *)
Lemma split_once_absent (a b : Ascii.ascii) (s rest : string) :
  Forall (λ c, c ≠ a) (String.list_ascii_of_string s) →
  split_once_str (String a (String b "")) (s +:+ String a (String b rest)) = Some (s, rest)
  ∧ split_once_str (String a (String b "")) s = None.
Proof.
  induction s as [|c s IH]; intros Hs.
  - change ("" +:+ ?x) with x. cbn [split_once_str Redirect.strip_prefix]. by rewrite !bool_decide_eq_true_2.
  - apply Forall_cons in Hs as [Hc Hs]. destruct (IH Hs) as [IH1 IH2]. rewrite string_cons_app.
    cbn [split_once_str Redirect.strip_prefix]. rewrite !bool_decide_eq_false_2 by (by intros ->). by rewrite IH1, IH2.
Qed.

Lemma var_name_no_close (name : string) : is_var_name name = true → Forall (λ c, c ≠ "}"%char) (String.list_ascii_of_string name).
Proof.
  destruct name as [|c name]; [done|]. cbn [is_var_name]. intros [_ Hall]%andb_true_iff.
  rewrite forallb_forall in Hall. apply Forall_forall. intros x Hx ->. apply list_elem_of_In, Hall in Hx. by vm_compute in Hx.
Qed.

Lemma split_variable (lit name rest : string) :
  no_brace lit → is_var_name name = true →
  split_once_str "{{" (lit +:+ "{{" +:+ name +:+ "}}" +:+ rest) = Some (lit, name +:+ "}}" +:+ rest)
  ∧ split_once_str "}}" (name +:+ "}}" +:+ rest) = Some (name, rest).
Proof.
  intros Hl Hn. split.
  - by apply (split_once_absent "{" "{" lit (name +:+ "}}" +:+ rest)).
  - by apply (split_once_absent "}" "}" name rest), var_name_no_close.
Qed.

Definition usable (state : gmap string string) (name : string) : Prop := ∃ v, state !! name = Some v ∧ v ≠ "".

Lemma render_tail_cons v lit vs : render_tail ((v, lit) :: vs) = "{{" +:+ v +:+ "}}" +:+ lit +:+ render_tail vs.
Proof. done. Qed.

Lemma vars_render (vs : list (string * string)) lit fuel :
  no_brace lit → Forall (λ vl, is_var_name vl.1 = true ∧ no_brace vl.2) vs → length vs ≤ fuel →
  vars_from fuel (lit +:+ render_tail vs) = vs.*1.
Proof.
  revert lit fuel. induction vs as [|[v l] vs IH]; intros lit fuel Hl Hvs Hf.
  - destruct fuel; [done|]. cbn [vars_from render_tail foldr]. rewrite string_app_nil_r.
    by destruct (split_once_absent "{" "{" lit "" Hl) as [_ ->].
  - apply Forall_cons in Hvs as [[Hv Hl'] Hvs]. destruct fuel as [|fuel]; [simpl in Hf; lia|]. cbn [vars_from].
    rewrite render_tail_cons. destruct (split_variable lit v (l +:+ render_tail vs) Hl Hv) as [-> ->].
    cbn [fst] in Hv. rewrite Hv, IH by (done || (simpl in Hf; lia)). done.
Qed.

Lemma token_render (vs : list (string * string)) lit fuel tok state :
  no_brace lit → Forall (λ vl, is_var_name vl.1 = true ∧ no_brace vl.2) vs → length vs ≤ fuel →
  Forall (usable state) vs.*1 →
  token_from fuel tok (lit +:+ render_tail vs) state = inl (substitute state (lit, vs)).
Proof.
  revert lit fuel. induction vs as [|[v l] vs IH]; intros lit fuel Hl Hvs Hf Hu.
  - unfold substitute. cbn [render_tail foldr fst snd]. rewrite !string_app_nil_r. destruct fuel; [done|]. cbn [token_from].
    by destruct (split_once_absent "{" "{" lit "" Hl) as [_ ->].
  - apply Forall_cons in Hvs as [[Hv Hl'] Hvs]. apply Forall_cons in Hu as [(x & Hx & Hne) Hu].
    destruct fuel as [|fuel]; [simpl in Hf; lia|]. cbn [token_from].
    rewrite render_tail_cons. destruct (split_variable lit v (l +:+ render_tail vs) Hl Hv) as [-> ->].
    cbn [fst snd] in *. rewrite Hv, Hx. cbn [negb]. rewrite (IH l fuel) by (done || (simpl in Hf; lia)).
    unfold substitute. cbn [fst snd foldr]. rewrite Hx. by destruct x.
Qed.

Lemma string_length_app (s t : string) : String.length (s +:+ t) = String.length s + String.length t.
Proof. induction s as [|c s IH]; [done|]. rewrite string_cons_app. simpl. by rewrite IH. Qed.

Lemma render_tail_length (vs : list (string * string)) lit : length vs ≤ String.length (lit +:+ render_tail vs).
Proof.
  revert lit. induction vs as [|[v l] vs IH]; intros lit; [simpl; lia|]. specialize (IH l).
  rewrite render_tail_cons, !string_length_app. rewrite string_length_app in IH. simpl. lia.
Qed.

(** The variables of a token are found by the lint; the token itself comes out
    with their values. *)
Lemma render_vars (t : Template) : well_formed t → interpolation_vars (render t) = t.2.*1.
Proof. destruct t as [lit vs]. intros [Hl Hvs]. apply vars_render; [done..|]. apply render_tail_length. Qed.

Lemma render_interpolate (t : Template) state :
  well_formed t → Forall (usable state) t.2.*1 → interpolate_token (render t) state = inl (substitute state t).
Proof. destruct t as [lit vs]. intros [Hl Hvs] Hu. apply token_render; [done..| |done]. apply render_tail_length. Qed.

(** The planner's own interpolation agrees with the one of the crate. *)
Definition agree {E} (x : string + E) (y : string + Msg) : Prop :=
  match x, y with inl a, inl b => a = b | inr _, inr _ => True | _, _ => False end.

Lemma interpolation_agrees (fuel : nat) tok rest state :
  agree (token_from fuel tok rest state) (interpolate_from fuel tok rest state).
Proof.
  revert rest. induction fuel as [|fuel IH]; intros rest; [done|]. cbn [token_from interpolate_from].
  destruct (split_once_str "{{" rest) as [[before after]|]; [|done].
  destruct (split_once_str "}}" after) as [[name rest']|]; [|done].
  destruct (is_var_name name); [cbn [negb]|done]. destruct (state !! name) as [[|c v]|]; [done| |done].
  specialize (IH rest'). destruct (token_from fuel tok rest' state), (interpolate_from fuel tok rest' state); try done.
  cbn in *. by subst.
Qed.

Lemma interpolate_argv_exact (ts : list Template) state :
  Forall well_formed ts → Forall (λ t : Template, Forall (usable state) t.2.*1) ts →
  interpolate_argv (render <$> ts) state = inl (substitute state <$> ts)
  ∧ Notes.interpolate_argv (render <$> ts) state = inl (substitute state <$> ts).
Proof.
  intros Hw Hu. induction ts as [|t ts IH]; [done|]. apply Forall_cons in Hw as [Ht Hw], Hu as [Hs Hu].
  destruct (IH Hw Hu) as [IH1 IH2]. pose proof (render_interpolate t state Ht Hs) as Hi.
  pose proof (interpolation_agrees (String.length (render t)) (render t) (render t) state) as Ha.
  unfold interpolate_token in Hi. rewrite Hi in Ha. cbn [fmap list_fmap interpolate_argv Notes.interpolate_argv].
  unfold interpolate_token, Notes.interpolate_token. rewrite Hi. rewrite IH1, IH2.
  destruct (interpolate_from _ _ _ _); [|done]. cbn in Ha. by subst.
Qed.

(** ** What the lint guarantees *)

Lemma first_of_none {E} (l : list (option E)) : first_of l = None ↔ Forall (λ x, x = None) l.
Proof.
  unfold first_of. induction l as [|[e|] l IH]; cbn; [by split|split; [done|by intros [? ?]%Forall_cons]|].
  rewrite IH. split; [by constructor|by intros [_ ?]%Forall_cons].
Qed.

Lemma unresolved_none extracted err tok :
  unresolved extracted err tok = None → Forall (λ var, var ∈ extracted) (interpolation_vars tok).
Proof.
  unfold unresolved. rewrite first_of_none, Forall_fmap. intros Hf. eapply Forall_impl; [exact Hf|]. intros var. cbn. by case_bool_decide.
Qed.

Lemma lint_resolves (d : Descriptor) :
  lint d = inl tt →
  Forall (λ tok, Forall (λ var, var ∈ extracted_keys (ds_snapshot d)) (interpolation_vars tok)) (rv_command (ds_reverse d))
  ∧ ∀ g, rv_guard (ds_reverse d) = Some g →
      Forall (λ var, var ∈ extracted_keys (ds_snapshot d)) (interpolation_vars (gd_expected_substring g)).
Proof.
  unfold lint. destruct (lint_error d) eqn:Hl; [done|]. intros _. unfold lint_error in Hl.
  rewrite first_of_none, !Forall_app in Hl. destruct Hl as (_ & _ & _ & Hrev & Hlast). split.
  - rewrite Forall_fmap in Hrev. eapply Forall_impl; [exact Hrev|]. intros tok. apply unresolved_none.
  - intros g Hg. rewrite Hg in Hlast. apply Forall_cons in Hlast as [Hlast _]. unfold check_guard in Hlast.
    rewrite first_of_none in Hlast. apply Forall_cons in Hlast as [Hlast _]. by apply unresolved_none in Hlast.
Qed.

Lemma extract_keys_dom f keys out out' :
  extract_keys f keys out = inl out' → dom out' = list_to_set keys.*1 ∪ dom out.
Proof.
  revert out. induction keys as [|[k path] keys IH]; intros out; cbn [extract_keys]; [intros [= ->]; set_solver|].
  destruct (f path); [|done]. intros Hr%IH. rewrite Hr, dom_insert_L. cbn. set_solver.
Qed.

Lemma extract_all_dom json_of toml_of kind stdout extracts out :
  extract_all json_of toml_of kind stdout extracts = inl out → dom out = dom extracts.
Proof.
  assert (∀ f, extract_keys f (btree_iter extracts) ∅ = inl out → dom out = dom extracts) as Hrun.
  { intros f Hf%extract_keys_dom. rewrite Hf. apply set_eq. intros k.
    rewrite elem_of_union, elem_of_list_to_set, list_elem_of_fmap, dom_empty_L, !elem_of_dom. split.
    - intros [([k' v] & -> & Hv)|?]; [|set_solver]. apply elem_of_btree_iter in Hv. by exists v.
    - intros [v Hv]. left. exists (k, v). by rewrite elem_of_btree_iter. }
  unfold extract_all. destruct (from_utf8 stdout); [|done].
  destruct kind; [apply Hrun|apply Hrun|destruct (json_of _); [apply Hrun|done]|destruct (toml_of _); [apply Hrun|done]].
Qed.

(** The state two snapshots leave: the second adds to the first. *)
Definition captured json_of toml_of (p : DescriptorSnapshotPair) (pre_out post_out : bytes) (state : gmap string string) : Prop :=
  ∃ pre post, extract_all json_of toml_of (sn_parse (sp_pre p)) pre_out (sn_extract (sp_pre p)) = inl pre
  ∧ match sp_post p with
    | Some sn => extract_all json_of toml_of (sn_parse sn) post_out (sn_extract sn) = inl post
    | None => post = ∅
    end
  ∧ state = post ∪ pre.

Lemma captured_dom json_of toml_of p pre_out post_out state :
  captured json_of toml_of p pre_out post_out state → dom state = extracted_keys p.
Proof.
  intros (pre & post & Hpre%extract_all_dom & Hpost & ->). rewrite dom_union_L, Hpre. unfold extracted_keys.
  destruct (sp_post p); [apply extract_all_dom in Hpost; rewrite Hpost; set_solver|subst; set_solver].
Qed.

(** C21. Undoing a command by its descriptor. The descriptor passed the lint; its
    reverse command is made of literals and well-formed variables, which the
    lint alone does not check ([lint_accepts_broken_template]), and has no
    guard; the values are those its snapshots gave, all of them non-empty; and
    no token has an opening pair of braces left once they are put in. Then the
    executor runs the reverse command once, token for token, with exactly the
    captured value in place of every variable; no value is split, scanned
    again or seen by a shell. *)
Theorem descriptor_reverse_runs {T} (px : Programs T) json_of toml_of (d : Descriptor) (ts : list Template)
    pre_out post_out state policy t :
  lint d = inl tt → rv_command (ds_reverse d) = render <$> ts → Forall well_formed ts →
  captured json_of toml_of (ds_snapshot d) pre_out post_out state → map_Forall (λ _ v, v ≠ "") state →
  Forall (λ t : Template, Env.str_contains (substitute state t) "{{" = false) ts →
  descriptor_execute px
      (InverseOp.DescriptorReverse (hd_name (ds_descriptor d)) (hd_version (ds_descriptor d)) state
         (rv_command (ds_reverse d)) (rv_privileged (ds_reverse d)) (rv_requires_confirmation (ds_reverse d)) None)
      false policy t
  = match system_run (px_exec px) (substitute state <$> ts) t with
    | (inl _, t') => (ExecutionOutcome.Applied, t')
    | (inr e, t') => (ExecutionOutcome.Failed e, t')
    end.
Proof.
  intros Hl Hcmd Hw Hcap Hne Hbr. apply lint_resolves in Hl as [Hl _]. rewrite Hcmd, Forall_fmap in Hl.
  apply captured_dom in Hcap.
  assert (Forall (λ t : Template, Forall (usable state) t.2.*1) ts) as Hu.
  { rewrite Forall_forall in Hl, Hw |- *. intros x Hx. specialize (Hl x Hx). cbn in Hl.
    rewrite render_vars in Hl by by apply Hw. eapply Forall_impl; [exact Hl|]. intros var Hvar. cbn in Hvar.
    rewrite <- Hcap, elem_of_dom in Hvar. destruct Hvar as [v Hv]. exists v. split; [done|]. exact (Hne _ _ Hv). }
  destruct (interpolate_argv_exact ts state Hw Hu) as [_ Hi]. cbn [descriptor_execute]. rewrite Hcmd, Hi.
  destruct (List.find _ _) as [tok|] eqn:Hfind.
  - apply find_some in Hfind as [Hin Hc]. apply list_elem_of_In, list_elem_of_fmap in Hin as (x & -> & Hx).
    rewrite Forall_forall in Hbr. by rewrite (Hbr x Hx) in Hc.
  - by destruct (system_run _ _ _) as [[|] ?].
Qed.

(** ** The built-in descriptor of hostname *)

Definition hostname_pack (authority : DescriptorAuthority) (argv command : list string) : Descriptor :=
  mkDescriptor
    (mkHead 1 "hostname-set" "Reverse hostname(1) changes by restoring the prior hostname." authority)
    (mkMatch argv [["hostname"; "-h"]; ["hostname"; "--help"]; ["hostname"; "-V"]; ["hostname"; "--version"]] [0%Z])
    (mkPair (mkSnapshot ["hostname"] ParseKind.Raw {["old_hostname" := ".raw"]}) None)
    (mkReverse (negb (bool_decide (authority = DescriptorAuthority.Builtin))) command
       (bool_decide (authority = DescriptorAuthority.Builtin)) None).

Definition hostname_builtin : Descriptor :=
  hostname_pack DescriptorAuthority.Builtin ["hostname"; "*"] ["hostname"; "{{old_hostname}}"].

(** A host whose state is its name. *)
Definition host_programs : Programs string :=
  mkPrograms
    (λ argv t, match argv with ["hostname"; new] => (Exited (Some 0%N), new) | _ => (Exited (Some 1%N), t) end)
    (λ _ _ t, (PipedExit (Some 1%N), t)) (λ _ t, (CapturedExit (Some 1%N) [], t)) (λ _ _ t, (Exited (Some 1%N), t)).

Lemma descriptor_reverse_runs_witness :
  let old := "my $(host) name" in
  descriptor_execute host_programs
    (InverseOp.DescriptorReverse "hostname-set" 1 {["old_hostname" := old]} ["hostname"; "{{old_hostname}}"] true false None)
    false ConflictPolicy.Abort "new" = (ExecutionOutcome.Applied, old).
Proof.
  intros old.
  refine (eq_trans (descriptor_reverse_runs host_programs (λ _, inr []) (λ _, inr []) hostname_builtin
    [("hostname", []); ("", [("old_hostname", "")])] (String.list_byte_of_string "my $(host) name" ++ [Byte.x0a]) []
    {["old_hostname" := old]} ConflictPolicy.Abort "new" _ _ _ _ _ _) _).
  - vm_compute. reflexivity.
  - reflexivity.
  - repeat constructor; done.
  - exists {["old_hostname" := old]}, ∅. split_and!; [vm_compute; reflexivity|reflexivity|vm_compute; reflexivity].
  - apply map_Forall_singleton. done.
  - repeat constructor.
  - vm_compute. reflexivity.
Defined.

Definition one_root (auth : DescriptorAuthority) : DescriptorAuthority * (PathBuf * option Dir) :=
  (auth, (path_of_string "/d", Some (Listing [Plain (path_of_string "/d/readme") (inr []);
    SubDir (path_of_string "/d/e") (Listing [Plain (path_of_string "/d/e/hostname.toml") (inl "text")])]))).

Lemma loaded_descriptors_linted_witness :
  filed (λ _, inl hostname_builtin) "builtin" "hostname-set" (mkLoaded hostname_builtin (path_of_string "/d/e/hostname.toml")).
Proof.
  apply (loaded_descriptors_linted (λ _, inl hostname_builtin) [one_root DescriptorAuthority.Builtin]
    {["builtin" := {["hostname-set" := mkLoaded hostname_builtin (path_of_string "/d/e/hostname.toml")]}]} "builtin"
    {["hostname-set" := mkLoaded hostname_builtin (path_of_string "/d/e/hostname.toml")]}).
  - vm_compute. reflexivity.
  - vm_compute. reflexivity.
  - vm_compute. reflexivity.
Defined.

(** ** What the lint and the dispatch let through *)

(** A template that no state fills passes the lint. *)
Theorem lint_accepts_broken_template :
  let d tok := hostname_pack DescriptorAuthority.User ["hostname"; "*"] ["hostname"; tok] in
  lint (d "{{old-hostname}}") = inl tt ∧ lint (d "{{old_hostname") = inl tt
  ∧ ∀ state, (∃ e, interpolate_token "{{old-hostname}}" state = inr e) ∧ (∃ e, interpolate_token "{{old_hostname" state = inr e).
Proof. intros d. split; [vm_compute; reflexivity|]. split; [vm_compute; reflexivity|]. intros state. split; eexists; reflexivity. Qed.

(** A user's descriptor of the same name does not replace the built-in one:
    for an argument vector both match, the higher score decides. *)
Theorem user_does_not_override :
  let user := mkLoaded (hostname_pack DescriptorAuthority.User ["hostname"; "**"] ["true"; "{{old_hostname}}"]) [] in
  let builtin := mkLoaded hostname_builtin [] in
  let loader := {["builtin" := {["hostname-set" := builtin]}; "user" := {["hostname-set" := user]}]} in
  dispatch loader ["hostname"; "new"] = Some builtin ∧ loader_get loader "hostname-set" = Some user.
Proof. split; vm_compute; reflexivity. Qed.

End DescFacts.
