(* ===== verification/Active.v ===== *)
(** * Attribution of events to commands

    [ancestry.rs] and [active_commands.rs] of [shitd]: the commands a shell
    has open, and the walk up the process tree that attributes an event to
    one of them. The operating system's parent relation is a parameter. *)

From S2P Require Import Prelude Paths Base Events.

Module Active.

(** ** ancestry.rs *)

Definition MAX_WALK_DEPTH : nat := 256.

Section Ancestry.
Context (parent_pid : N → option N).

(** The body of the loop, on the pids seen so far. *)
Fixpoint walk (fuel : nat) (seen : gset N) (cur : N) : list N :=
  match fuel with
  | O => []
  | S fuel' =>
      if bool_decide (cur ∈ seen) then []
      else cur ::
        match parent_pid cur with
        | None => []
        | Some p =>
            if bool_decide (p = 0%N) || bool_decide (p = 1%N) || bool_decide (p = cur) then []
            else walk fuel' ({[cur]} ∪ seen) p
        end
  end.

Definition ancestor_chain (start_pid : N) : list N := walk MAX_WALK_DEPTH ∅ start_pid.

Definition find_tracked_shell (start_pid : N) (tracked_shells : gset N) : option N :=
  List.find (λ pid, bool_decide (pid ∈ tracked_shells)) (ancestor_chain start_pid).

Lemma walk_seen (fuel : nat) (seen : gset N) (cur pid : N) :
  pid ∈ walk fuel seen cur → pid ∉ seen.
Proof.
  revert seen cur. induction fuel as [|fuel IH]; intros seen cur; simpl; [by intros ?%elem_of_nil|].
  case_bool_decide; [by intros ?%elem_of_nil|]. intros [->|Hin]%elem_of_cons; [done|].
  destruct (parent_pid cur) as [p|]; [|by apply elem_of_nil in Hin].
  destruct (_ || _ || _); [by apply elem_of_nil in Hin|]. apply IH in Hin. set_solver.
Qed.

Lemma walk_nodup (fuel : nat) (seen : gset N) (cur : N) : NoDup (walk fuel seen cur).
Proof.
  revert seen cur. induction fuel as [|fuel IH]; intros seen cur; simpl; [constructor|].
  case_bool_decide; [constructor|]. constructor.
  - destruct (parent_pid cur) as [p|]; [|apply not_elem_of_nil].
    destruct (_ || _ || _); [apply not_elem_of_nil|]. intros Hin%walk_seen. set_solver.
  - destruct (parent_pid cur) as [p|]; [|constructor]. destruct (_ || _ || _); [constructor|apply IH].
Qed.

Lemma walk_length (fuel : nat) (seen : gset N) (cur : N) : length (walk fuel seen cur) ≤ fuel.
Proof.
  revert seen cur. induction fuel as [|fuel IH]; intros seen cur; simpl; [done|].
  case_bool_decide; simpl; [lia|]. destruct (parent_pid cur) as [p|]; simpl; [|lia].
  destruct (_ || _ || _); simpl; [lia|]. specialize (IH ({[cur]} ∪ seen) p). lia.
Qed.

(** Each pid of the chain is the parent of the one before. *)
Inductive ancestry : list N → Prop :=
  | anc_one pid : ancestry [pid]
  | anc_step pid p l : parent_pid pid = Some p → ancestry (p :: l) → ancestry (pid :: p :: l).

Lemma walk_ancestry (fuel : nat) (seen : gset N) (cur : N) :
  walk fuel seen cur = [] ∨ (hd_error (walk fuel seen cur) = Some cur ∧ ancestry (walk fuel seen cur)).
Proof.
  revert seen cur. induction fuel as [|fuel IH]; intros seen cur; simpl; [by left|].
  case_bool_decide; [by left|]. right. split; [done|].
  destruct (parent_pid cur) as [p|] eqn:Hp; [|constructor]. destruct (_ || _ || _); [constructor|].
  destruct (IH ({[cur]} ∪ seen) p) as [->|[Hhd Ha]]; [constructor|].
  destruct (walk fuel ({[cur]} ∪ seen) p) as [|q l]; [constructor|].
  injection Hhd as ->. by constructor.
Qed.

(** The walk up the process tree ends for every parent relation the system
    reports, cyclic ones included: the chain starts at the pid asked for,
    follows the relation, never repeats a pid and is at most 256 long. *)
Theorem ancestor_chain_spec (start_pid : N) :
  hd_error (ancestor_chain start_pid) = Some start_pid
  ∧ ancestry (ancestor_chain start_pid)
  ∧ NoDup (ancestor_chain start_pid)
  ∧ length (ancestor_chain start_pid) ≤ MAX_WALK_DEPTH.
Proof.
  unfold ancestor_chain. destruct (walk_ancestry MAX_WALK_DEPTH ∅ start_pid) as [H|[Hhd Ha]].
  - exfalso. revert H. unfold MAX_WALK_DEPTH. simpl. done.
  - split_and!; [done|done|apply walk_nodup|apply walk_length].
Qed.

(** ** active_commands.rs *)

(** The open commands of each shell, the most recent last. *)
Abbreviation ActiveCommands := (gmap N (list CommandId)).

Implicit Types g : ActiveCommands.

Definition insert_active g (shell_pid : N) (command : CommandId) : ActiveCommands :=
  <[shell_pid := default [] (g !! shell_pid) ++ [command]]> g.

(** [Vec::remove] at the first position of the command. *)
Fixpoint remove_first (c : CommandId) (stack : list CommandId) : option (list CommandId) :=
  match stack with
  | [] => None
  | x :: rest => if bool_decide (x = c) then Some rest else cons x <$> remove_first c rest
  end.

Definition remove_active g (shell_pid : N) (command : CommandId) : ActiveCommands * bool :=
  match g !! shell_pid with
  | None => (g, false)
  | Some stack =>
      match remove_first command stack with
      | None => (g, false)
      | Some [] => (delete shell_pid g, true)
      | Some rest => (<[shell_pid := rest]> g, true)
      end
  end.

(** The loop over the chain. *)
Fixpoint resolve_in g (chain : list N) : option CommandId :=
  match chain with
  | [] => None
  | pid :: rest =>
      match g !! pid ≫= last with
      | Some cmd => Some cmd
      | None => resolve_in g rest
      end
  end.

Definition resolve_by_descendant g (emitter_pid : N) : option CommandId :=
  resolve_in g (ancestor_chain emitter_pid).

Definition tracked_shell_count g : nat := size g.

Definition active_command_count g : nat := sum_list (length <$> (map_to_list g).*2).

(** ** What the map stands for *)

(** The open commands in the order they were opened, with their shells. *)
Definition stack_of (opened : list (N * CommandId)) (pid : N) : list CommandId :=
  (List.filter (λ e, bool_decide (e.1 = pid)) opened).*2.

Definition represents g (opened : list (N * CommandId)) : Prop :=
  ∀ pid, g !! pid = match stack_of opened pid with [] => None | s => Some s end.

(** Closing takes the earliest entry of the shell for the command. *)
Fixpoint close_first (pid : N) (c : CommandId) (opened : list (N * CommandId))
    : list (N * CommandId) :=
  match opened with
  | [] => []
  | e :: rest => if bool_decide (e = (pid, c)) then rest else e :: close_first pid c rest
  end.

Lemma stack_of_app (l k : list (N * CommandId)) (pid : N) :
  stack_of (l ++ k) pid = stack_of l pid ++ stack_of k pid.
Proof. unfold stack_of. by rewrite List.filter_app, fmap_app. Qed.

Lemma represents_default g opened (pid : N) :
  represents g opened → default [] (g !! pid) = stack_of opened pid.
Proof. intros Hr. rewrite Hr. by destruct (stack_of opened pid). Qed.

Lemma insert_represents g opened (pid : N) (c : CommandId) :
  represents g opened → represents (insert_active g pid c) (opened ++ [(pid, c)]).
Proof.
  intros Hr q. unfold insert_active. rewrite stack_of_app. unfold stack_of at 2. simpl.
  destruct (decide (q = pid)) as [->|Hne].
  - rewrite lookup_insert_eq, (represents_default _ _ _ Hr), bool_decide_eq_true_2 by done. simpl.
    by destruct (stack_of opened pid).
  - rewrite lookup_insert_ne, bool_decide_eq_false_2 by done. simpl. by rewrite app_nil_r.
Qed.

Lemma stack_of_cons_eq (pid : N) (c : CommandId) (l : list (N * CommandId)) :
  stack_of ((pid, c) :: l) pid = c :: stack_of l pid.
Proof. unfold stack_of. simpl. by rewrite bool_decide_eq_true_2. Qed.

Lemma stack_of_cons_ne (pid q : N) (c : CommandId) (l : list (N * CommandId)) :
  q ≠ pid → stack_of ((q, c) :: l) pid = stack_of l pid.
Proof. intros Hne. unfold stack_of. simpl. by rewrite bool_decide_eq_false_2. Qed.

Lemma close_first_stack (pid : N) (c : CommandId) (l : list (N * CommandId)) :
  stack_of (close_first pid c l) pid = default (stack_of l pid) (remove_first c (stack_of l pid)).
Proof.
  induction l as [|[q d] l IH]; [done|]. cbn [close_first]. case_bool_decide as He.
  - injection He as -> ->. rewrite stack_of_cons_eq. simpl. by rewrite bool_decide_eq_true_2.
  - destruct (decide (q = pid)) as [->|Hne].
    + rewrite !stack_of_cons_eq, IH. simpl. rewrite bool_decide_eq_false_2 by congruence.
      by destruct (remove_first c (stack_of l pid)).
    + by rewrite !stack_of_cons_ne, IH by done.
Qed.

Lemma close_first_other (pid q : N) (c : CommandId) (l : list (N * CommandId)) :
  q ≠ pid → stack_of (close_first pid c l) q = stack_of l q.
Proof.
  intros Hne. induction l as [|[r d] l IH]; [done|]. cbn [close_first]. case_bool_decide as He.
  - injection He as -> ->. by rewrite stack_of_cons_ne.
  - unfold stack_of in *. simpl. by case_bool_decide; rewrite ?fmap_cons, IH.
Qed.

Lemma remove_represents g opened (pid : N) (c : CommandId) :
  represents g opened → represents (remove_active g pid c).1 (close_first pid c opened).
Proof.
  intros Hr q. destruct (decide (q = pid)) as [->|Hne].
  - rewrite close_first_stack. unfold remove_active. pose proof (Hr pid) as Hp.
    destruct (stack_of opened pid) as [|x s]; [by rewrite Hp|]. rewrite Hp.
    destruct (remove_first c (x :: s)) as [[|y t]|]; simpl;
      [by rewrite lookup_delete_eq|by rewrite lookup_insert_eq|done].
  - rewrite close_first_other by done. unfold remove_active.
    destruct (g !! pid); [|apply Hr]. destruct (remove_first c l) as [[|y t]|]; simpl;
      [rewrite lookup_delete_ne by done|rewrite lookup_insert_ne by done|]; apply Hr.
Qed.

(** ** Runs *)

Inductive ActiveOp := Open (pid : N) (c : CommandId) | Close (pid : N) (c : CommandId).

Definition active_step g (o : ActiveOp) : ActiveCommands :=
  match o with Open pid c => insert_active g pid c | Close pid c => (remove_active g pid c).1 end.

Definition opened_step (l : list (N * CommandId)) (o : ActiveOp) : list (N * CommandId) :=
  match o with Open pid c => l ++ [(pid, c)] | Close pid c => close_first pid c l end.

Lemma active_represents (ops : list ActiveOp) :
  represents (foldl active_step ∅ ops) (foldl opened_step [] ops).
Proof.
  assert (∀ g l, represents g l → represents (foldl active_step g ops) (foldl opened_step l ops)) as H.
  { induction ops as [|o ops IH]; intros g l Hg; [done|]. simpl. apply IH.
    destruct o; [by apply insert_represents|by apply remove_represents]. }
  apply H. intros pid. by rewrite lookup_empty.
Qed.

(** The nearest pid of the chain with an open command. *)
Definition nearest (opened : list (N * CommandId)) (chain : list N) (c : CommandId) : Prop :=
  ∃ above pid below, chain = above ++ pid :: below
    ∧ (∀ q, q ∈ above → stack_of opened q = []) ∧ last (stack_of opened pid) = Some c.

Lemma last_represents g opened (pid : N) :
  represents g opened → g !! pid ≫= last = last (stack_of opened pid).
Proof. intros Hr. rewrite Hr. by destruct (stack_of opened pid). Qed.

Lemma resolve_in_spec g opened (chain : list N) :
  represents g opened →
  match resolve_in g chain with
  | Some c => nearest opened chain c
  | None => ∀ q, q ∈ chain → stack_of opened q = []
  end.
Proof.
  intros Hr. induction chain as [|pid chain IH]; simpl; [by intros q ?%elem_of_nil|].
  rewrite (last_represents _ _ _ Hr). destruct (last (stack_of opened pid)) as [c|] eqn:Hl.
  - exists [], pid, chain. split_and!; [done|by intros q ?%elem_of_nil|done].
  - apply last_None in Hl. destruct (resolve_in g chain) as [c|].
    + destruct IH as (above & q & below & -> & Ha & Hq). exists (pid :: above), q, below.
      split_and!; [done| |done]. intros x [->|Hx]%elem_of_cons; [done|by apply Ha].
    + intros q [->|Hq]%elem_of_cons; [done|by apply IH].
Qed.

(** C33. Whatever sequence of commands opened and closed in whatever shells
    (background commands closing out of order included), an event is
    attributed to the most recently opened command that is still open in the
    nearest ancestor with an open command, and to none exactly when no
    ancestor has one. *)
Theorem active_commands_refine (ops : list ActiveOp) (emitter_pid : N) :
  let opened := foldl opened_step [] ops in
  match resolve_by_descendant (foldl active_step ∅ ops) emitter_pid with
  | Some c => nearest opened (ancestor_chain emitter_pid) c
  | None => ∀ q, q ∈ ancestor_chain emitter_pid → stack_of opened q = []
  end.
Proof. apply resolve_in_spec, active_represents. Qed.

End Ancestry.

End Active.
