(* ===== verification/Baseline.v ===== *)
(** * Live baseline

    [baseline.rs] of [shitd]: the per-directory cache of content captured before any command
    touched it, and its promotion to a command's pre-image. Each map sits behind a lock that is
    held for the whole operation; the maps are values and operations return the new ones. *)

From S2P Require Import Prelude Paths Base Events.

Module Baseline.

Module WalkState.
Inductive WalkState := Pending | Ready | Failed.
End WalkState.
Abbreviation WalkState := WalkState.WalkState.

Abbreviation Xattrs := (gmap string bytes).

Record BaselineEntry := mkEntry {
  be_inode : InodeRef;
  be_blob : BlobHash;
  be_size : N;
  be_xattrs : Xattrs;
  be_stale : bool;
  be_stale_for_command : option CommandId;
}.

Definition entry_new (inode : InodeRef) (blob : BlobHash) (size : N) (xattrs : Xattrs)
    : BaselineEntry :=
  mkEntry inode blob size xattrs false None.

Definition mark_stale (e : BaselineEntry) (command : CommandId)
    : BaselineEntry * option (BlobHash * Xattrs) :=
  if be_stale e && bool_decide (be_stale_for_command e = Some command) then (e, None)
  else (mkEntry (be_inode e) (be_blob e) (be_size e) (be_xattrs e) true (Some command),
        Some (be_blob e, be_xattrs e)).

Record BaselineCacheEntry := mkCache {
  bc_cwd : PathBuf;
  bc_state : WalkState;
  by_inode : gmap InodeRef BaselineEntry;
  by_path : gmap PathBuf InodeRef;
}.

Definition cache_new (cwd : PathBuf) : BaselineCacheEntry := mkCache cwd WalkState.Pending ∅ ∅.

Definition cache_insert (c : BaselineCacheEntry) (path : PathBuf) (e : BaselineEntry)
    : BaselineCacheEntry :=
  mkCache (bc_cwd c) (bc_state c) (<[be_inode e := e]> (by_inode c))
    (<[path := be_inode e]> (by_path c)).

Definition get_inode (c : BaselineCacheEntry) (i : InodeRef) : option BaselineEntry := by_inode c !! i.

Definition promote (c : BaselineCacheEntry) (i : InodeRef) (command : CommandId)
    : BaselineCacheEntry * option (BlobHash * Xattrs) :=
  match by_inode c !! i with
  | None => (c, None)
  | Some e =>
      let '(e', r) := mark_stale e command in
      (mkCache (bc_cwd c) (bc_state c) (<[i := e']> (by_inode c)) (by_path c), r)
  end.

Definition stale_for (command : CommandId) (e : BaselineEntry) : bool :=
  bool_decide (be_stale_for_command e = Some command).

Definition drain_stale_for (ord : HashOrder InodeRef BaselineEntry) (c : BaselineCacheEntry)
    (command : CommandId) : BaselineCacheEntry * list InodeRef :=
  (mkCache (bc_cwd c) (bc_state c)
     ((λ e, if stale_for command e
            then mkEntry (be_inode e) (be_blob e) (be_size e) (be_xattrs e) false None else e)
      <$> by_inode c) (by_path c),
   (List.filter (λ ie, stale_for command ie.2) (hash_iter (by_inode c))).*1).

Definition set_state (c : BaselineCacheEntry) (s : WalkState) : BaselineCacheEntry :=
  mkCache (bc_cwd c) s (by_inode c) (by_path c).

Definition mark_ready (c : BaselineCacheEntry) := set_state c WalkState.Ready.
Definition mark_failed (c : BaselineCacheEntry) := set_state c WalkState.Failed.

Definition snapshot_entries (ord : HashOrder PathBuf InodeRef) (c : BaselineCacheEntry)
    : list (PathBuf * BaselineEntry) :=
  omap (λ pi, (λ e, (pi.1, e)) <$> by_inode c !! pi.2) (hash_iter (by_path c)).

Definition entry_count (c : BaselineCacheEntry) : nat := size (by_inode c).

(** The map of caches; an [Arc] in it is the cache under its key. *)
Abbreviation LiveBaseline := (gmap PathBuf BaselineCacheEntry).

Definition entry_for_cwd (lb : LiveBaseline) (cwd : PathBuf) : LiveBaseline * BaselineCacheEntry :=
  match lb !! cwd with
  | Some c => (lb, c)
  | None => (<[cwd := cache_new cwd]> lb, cache_new cwd)
  end.

Definition get_cwd (lb : LiveBaseline) (cwd : PathBuf) : option BaselineCacheEntry := lb !! cwd.

Definition drop_cwd (lb : LiveBaseline) (cwd : PathBuf) : LiveBaseline * bool :=
  (delete cwd lb, bool_decide (is_Some (lb !! cwd))).

(** The key and the first cache, in the order of the map, that knows the
    inode. *)
Definition get_cwd_for_inode (ord : HashOrder PathBuf BaselineCacheEntry) (lb : LiveBaseline)
    (i : InodeRef) : option (PathBuf * BaselineCacheEntry) :=
  List.find (λ kc, bool_decide (is_Some (by_inode kc.2 !! i))) (hash_iter lb).

Definition cached_cwd_count (lb : LiveBaseline) : nat := size lb.

Definition path_in_watched_subtree (lb : LiveBaseline) (path : PathBuf) : bool :=
  existsb (λ kc, starts_with path kc.1) (map_to_list lb).

(** [get_cwd_for_inode(..).and_then(|cache| cache.promote(..))]. *)
Definition promote_in (ord : HashOrder PathBuf BaselineCacheEntry) (lb : LiveBaseline)
    (i : InodeRef) (command : CommandId) : LiveBaseline * option (BlobHash * Xattrs) :=
  match get_cwd_for_inode ord lb i with
  | None => (lb, None)
  | Some (cwd, c) => let '(c', r) := promote c i command in (<[cwd := c']> lb, r)
  end.

(** ** Promotion *)

Inductive CacheOp :=
  | Insert (path : PathBuf) (e : BaselineEntry)
  | Promote (i : InodeRef) (command : CommandId)
  | SetState (s : WalkState).

Definition cache_step (c : BaselineCacheEntry) (o : CacheOp) : BaselineCacheEntry :=
  match o with
  | Insert path e => cache_insert c path e
  | Promote i command => (promote c i command).1
  | SetState s => set_state c s
  end.

(** The operation neither stores nor promotes the inode for another command. *)
Definition keeps (i : InodeRef) (command : CommandId) (o : CacheOp) : Prop :=
  match o with
  | Insert _ e => be_inode e ≠ i
  | Promote j c => j = i → c = command
  | SetState _ => True
  end.

Definition promoted_for (c : BaselineCacheEntry) (i : InodeRef) (command : CommandId)
    (blob : BlobHash) : Prop :=
  ∃ e, by_inode c !! i = Some e ∧ be_stale e = true
    ∧ be_stale_for_command e = Some command ∧ be_blob e = blob.

Lemma promote_marks (c : BaselineCacheEntry) (i : InodeRef) (command : CommandId)
    (blob : BlobHash) (xs : Xattrs) :
  (promote c i command).2 = Some (blob, xs) → promoted_for (promote c i command).1 i command blob.
Proof.
  unfold promote. destruct (by_inode c !! i) as [e|] eqn:He; [|done]. unfold mark_stale.
  destruct (be_stale e && _); [done|]. intros [= <- _]. eexists. simpl. by rewrite lookup_insert_eq.
Qed.

Lemma keeps_promoted (c : BaselineCacheEntry) (i : InodeRef) (command : CommandId)
    (blob : BlobHash) (o : CacheOp) :
  keeps i command o → promoted_for c i command blob → promoted_for (cache_step c o) i command blob.
Proof.
  intros Hk (e & He & Hs & Hf & Hb). destruct o as [path e'|j d|s]; simpl in *.
  - exists e. simpl. by rewrite lookup_insert_ne.
  - unfold promote. destruct (by_inode c !! j) as [ej|] eqn:Hj; [|by exists e].
    destruct (decide (j = i)) as [->|Hne].
    + rewrite He in Hj. injection Hj as <-. rewrite (Hk eq_refl). unfold mark_stale.
      rewrite Hs, bool_decide_eq_true_2 by done. exists e. simpl. by rewrite lookup_insert_eq.
    + destruct (mark_stale ej d) as [e'' r]. exists e. simpl. by rewrite lookup_insert_ne.
  - by exists e.
Qed.

(** A baseline snapshot becomes the pre-image of a file at most once per
    command: after a promotion, whatever else happens in the cache short of a
    new snapshot of the file or a promotion for another command, promoting the
    same file for the same command again yields nothing, so later writes of
    the command cannot replace the state the file had before it. *)
Theorem baseline_promotes_once (c : BaselineCacheEntry) (i : InodeRef) (command : CommandId)
    (ops : list CacheOp) (r : BlobHash * Xattrs) :
  (promote c i command).2 = Some r → Forall (keeps i command) ops →
  (promote (foldl cache_step (promote c i command).1 ops) i command).2 = None.
Proof.
  destruct r as [blob xs]. intros Hp%promote_marks Hk.
  assert (promoted_for (foldl cache_step (promote c i command).1 ops) i command blob)
    as (e & He & Hs & Hf & _).
  { revert Hp Hk. generalize (promote c i command).1. induction ops as [|o ops IH]; intros d Hd Hk; [done|].
    apply Forall_cons in Hk as [Ho Hk]. simpl. apply IH; [|done]. by apply keeps_promoted. }
  unfold promote at 1. rewrite He. unfold mark_stale. by rewrite Hs, Hf, bool_decide_eq_true_2.
Qed.

(** A snapshot that was never promoted is what promotion returns. *)
Lemma promote_fresh (c : BaselineCacheEntry) (path : PathBuf) (e : BaselineEntry)
    (command : CommandId) :
  be_stale e = false →
  (promote (cache_insert c path e) (be_inode e) command).2 = Some (be_blob e, be_xattrs e).
Proof.
  intros Hs. unfold promote, cache_insert. simpl. rewrite lookup_insert_eq. unfold mark_stale.
  by rewrite Hs.
Qed.

End Baseline.
