(* ===== verification/WatchReady.v ===== *)
(** * Watch readiness

    [watch_ready.rs] of [shitd]: which commands' watches are armed, and the receivers that wait
    for them. The map sits behind a lock that is held for the whole operation. *)

From S2P Require Import Prelude Paths Base Events.

Module WatchReady.

(** The waiting receivers are numbered by their caller. *)
Module State.
Inductive State := Pending (senders : list N) | Ready | Failed.
End State.
Abbreviation State := State.State.

Abbreviation WatchReadyMap := (gmap CommandId State).

(** What a receiver gets: the signal, or an error because its sender is gone. *)
Inductive Signal := Sent (rx : N) | Dropped (rx : N).

Definition dropped (old : option State) : list Signal :=
  match old with Some (State.Pending senders) => Dropped <$> senders | _ => [] end.

Definition mark_ready (m : WatchReadyMap) (cmd : CommandId) : WatchReadyMap * list Signal :=
  (<[cmd := State.Ready]> m,
   match m !! cmd with Some (State.Pending senders) => Sent <$> senders | _ => [] end).

Definition mark_failed (m : WatchReadyMap) (cmd : CommandId) : WatchReadyMap * list Signal :=
  (<[cmd := State.Failed]> m, dropped (m !! cmd)).

(** The receiver [rx] of a fresh channel. *)
Definition await_ready (m : WatchReadyMap) (cmd : CommandId) (rx : N) : WatchReadyMap * list Signal :=
  match m !! cmd with
  | Some State.Ready => (m, [Sent rx])
  | Some State.Failed => (m, [Dropped rx])
  | Some (State.Pending senders) => (<[cmd := State.Pending (senders ++ [rx])]> m, [])
  | None => (<[cmd := State.Pending [rx]]> m, [])
  end.

Definition forget (m : WatchReadyMap) (cmd : CommandId) : WatchReadyMap * list Signal :=
  (delete cmd m, dropped (m !! cmd)).

(** ** Every waiter is answered *)

Inductive WatchOp := MarkReady (c : CommandId) | MarkFailed (c : CommandId)
  | Await (c : CommandId) (rx : N) | Forget (c : CommandId).

Definition watch_step (m : WatchReadyMap) (o : WatchOp) : WatchReadyMap * list Signal :=
  match o with
  | MarkReady c => mark_ready m c
  | MarkFailed c => mark_failed m c
  | Await c rx => await_ready m c rx
  | Forget c => forget m c
  end.

Definition watch_run (m : WatchReadyMap) (ops : list WatchOp) : WatchReadyMap * list Signal :=
  foldl (λ s o, let '(m', sig) := watch_step s.1 o in (m', s.2 ++ sig)) (m, []) ops.

Definition waiting (m : WatchReadyMap) (cmd : CommandId) (rx : N) : Prop :=
  ∃ senders, m !! cmd = Some (State.Pending senders) ∧ rx ∈ senders.

Definition answers (o : WatchOp) (cmd : CommandId) : Prop :=
  o = MarkReady cmd ∨ o = MarkFailed cmd ∨ o = Forget cmd.

Definition signal_rx (s : Signal) : N := match s with Sent rx | Dropped rx => rx end.

Lemma await_waits (m : WatchReadyMap) (cmd : CommandId) (rx : N) :
  waiting (await_ready m cmd rx).1 cmd rx
  ∨ rx ∈ signal_rx <$> (await_ready m cmd rx).2.
Proof.
  unfold await_ready. destruct (m !! cmd) as [[senders| |]|] eqn:Hm; simpl; try (right; by left).
  - left. exists (senders ++ [rx]). rewrite lookup_insert_eq. set_solver.
  - left. exists [rx]. rewrite lookup_insert_eq. set_solver.
Qed.

Lemma step_keeps_or_answers (m : WatchReadyMap) (cmd : CommandId) (rx : N) (o : WatchOp) :
  waiting m cmd rx →
  waiting (watch_step m o).1 cmd rx ∨ rx ∈ signal_rx <$> (watch_step m o).2.
Proof.
  intros (senders & Hm & Hin).
  assert (Hne : ∀ c, c ≠ cmd → ∀ s, waiting (<[c := s]> m) cmd rx).
  { intros c Hc s. exists senders. by rewrite lookup_insert_ne. }
  destruct o as [c|c|c r|c]; simpl; unfold mark_ready, mark_failed, await_ready, forget, dropped;
    destruct (decide (c = cmd)) as [->|Hc]; rewrite ?Hm; simpl;
    try (right; rewrite <- list_fmap_compose; apply list_elem_of_fmap; by exists rx);
    try (left; by apply Hne).
  - left. exists (senders ++ [r]). rewrite lookup_insert_eq. set_solver.
  - left. destruct (m !! c) as [[l| |]|]; simpl; try (by apply Hne); by exists senders.
  - left. exists senders. by rewrite lookup_delete_ne.
Qed.

Lemma answers_answers (m : WatchReadyMap) (cmd : CommandId) (rx : N) (o : WatchOp) :
  waiting m cmd rx → answers o cmd → rx ∈ signal_rx <$> (watch_step m o).2.
Proof.
  intros (senders & Hm & Hin) [->|[->| ->]]; simpl; unfold dropped; rewrite Hm; simpl;
    rewrite <- list_fmap_compose; apply list_elem_of_fmap; by exists rx.
Qed.

Lemma watch_run_cons (m : WatchReadyMap) (o : WatchOp) (ops : list WatchOp) :
  (watch_run m (o :: ops)).2 = (watch_step m o).2 ++ (watch_run (watch_step m o).1 ops).2.
Proof.
  unfold watch_run. simpl. destruct (watch_step m o) as [m' sig]. simpl.
  assert (∀ s l, (foldl (λ s o, let '(m', sig) := watch_step s.1 o in (m', s.2 ++ sig)) (s, l) ops).2
    = l ++ (foldl (λ s o, let '(m', sig) := watch_step s.1 o in (m', s.2 ++ sig)) (s, []) ops).2) as H.
  { induction ops as [|o' ops IH]; intros s l; simpl; [by rewrite app_nil_r|].
    destruct (watch_step s o') as [s' sig']. simpl. rewrite IH, (IH _ sig'). by rewrite app_assoc. }
  apply H.
Qed.

(** C34. A shell that waits for capture to be set up is never left hanging: if
    the command's watch is later reported ready, reported failed or torn down,
    whatever else happens in between, the waiting receiver gets a signal or an
    error. *)
Theorem watch_waiter_answered (m : WatchReadyMap) (cmd : CommandId) (rx : N) (ops : list WatchOp) :
  Exists (λ o, answers o cmd) ops →
  rx ∈ signal_rx <$> (watch_run m (Await cmd rx :: ops)).2.
Proof.
  intros Hex. rewrite watch_run_cons, fmap_app, elem_of_app. simpl.
  destruct (await_waits m cmd rx) as [Hw|Hin]; [right|by left].
  revert Hw Hex. generalize (await_ready m cmd rx).1. induction ops as [|o ops IH]; intros d Hw Hex.
  { by apply Exists_nil in Hex. }
  rewrite watch_run_cons, fmap_app, elem_of_app. apply Exists_cons in Hex as [Ho|Hex].
  - left. by eapply answers_answers.
  - destruct (step_keeps_or_answers d cmd rx o Hw) as [Hw'|Hin]; [right; by apply IH|by left].
Qed.

End WatchReady.
