(* ===== verification/Daemon.v ===== *)
(** * The daemon: shell hooks

    [server.rs], [env_track.rs], [shell_state_track.rs] and the sweep of
    [xattr.rs] of [shitd]: what each message of a shell hook does to the
    clock, the journal and the in-memory maps. Handlers run one at a time on
    one task. The wall clock, the file system as the daemon reads it and the
    hash function are arguments; a write the index refuses is logged and
    leaves the journal as it was. *)

From S2P Require Import Prelude Paths Base Events Probe Env Tables Index Blobs TierStash Active Baseline.
From S2P Require Import WatchReady.

Module Daemon.
Import Index Active.

(** ** Messages *)

Module HookMessage.
Inductive HookMessage :=
  | SessionOpen (session : Uuid) (shell_kind : ShellKind) (parent_pid : N) (tty : string)
      (ts_unix_nanos : N)
  | PreExec (session : Uuid) (seq pid cwd_inode cwd_dev : N) (cwd_path : string)
      (ts_unix_nanos : N) (shell_kind : ShellKind) (depth : N) (cmd_string : option string)
  | PostExec (session : Uuid) (seq : N) (exit_code : Z) (ts_unix_nanos : N)
  | PreExecEnv (session : Uuid) (seq : N) (env_block : string) (ts_unix_nanos : N)
  | PostExecEnv (session : Uuid) (seq : N) (env_block : string) (ts_unix_nanos : N)
  | PreExecShellState (session : Uuid) (seq : N) (pwd : string)
      (opts aliases : list (string * string)) (ts_unix_nanos : N)
  | PostExecShellState (session : Uuid) (seq : N) (pwd : string)
      (opts aliases : list (string * string)) (ts_unix_nanos : N)
  | SessionClose (session : Uuid) (ts_unix_nanos : N).
End HookMessage.
Abbreviation HookMessage := HookMessage.HookMessage.

(** The requests the hook handlers send to the helper. *)
Module HelperRequest.
Inductive HelperRequest :=
  | WatchTree (root_pid : N) (descendants_too : bool) (session : Uuid) (command_seq : N)
      (shell_kind : ShellKind) (cwd_path : string)
  | UnwatchTree (session : Uuid) (command_seq : N).
End HelperRequest.
Abbreviation HelperRequest := HelperRequest.HelperRequest.

(** What the helper reports of a privileged operation. *)
Module WireOutcome.
Inductive WireOutcome :=
  | Applied | OutOfScope | PermissionDenied | NotFound | Failed (detail : string).
End WireOutcome.
Abbreviation WireOutcome := WireOutcome.WireOutcome.

(** ** State *)

(** Stashed by a message before the command, with the time it came. *)
Record EnvPre := mkEnvPre { ep_hash : list N; ep_block : string; ep_ts : N }.

Record ShellStatePre := mkShellPre {
  sp_pwd : PathBuf;
  sp_opts : gmap string string;
  sp_aliases : gmap string string;
  sp_ts : N;
}.

Record Daemon (P : Type) := mkDaemon {
  d_clock : N;
  d_db : Db P;
  d_files : Blobs.BlobFiles;
  d_active : gmap N (list CommandId);
  d_env : gmap CommandId EnvPre;
  d_shell : gmap CommandId ShellStatePre;
  d_baseline : gmap PathBuf Baseline.BaselineCacheEntry;
  d_watch : gmap CommandId WatchReady.State;
  d_sent : list HelperRequest;
  d_waiters : gset (Uuid * N);
  d_delivered : list ((Uuid * N) * WireOutcome);
  d_tiers : TierStash.TierStashes;
}.
Arguments mkDaemon {P}.
Arguments d_clock {P}.
Arguments d_db {P}.
Arguments d_files {P}.
Arguments d_active {P}.
Arguments d_env {P}.
Arguments d_shell {P}.
Arguments d_baseline {P}.
Arguments d_watch {P}.
Arguments d_sent {P}.
Arguments d_waiters {P}.
Arguments d_delivered {P}.
Arguments d_tiers {P}.

Section State.
Context {P : Type}.
Implicit Types d : Daemon P.

Definition set_clock d (x : N) : Daemon P :=
  mkDaemon x (d_db d) (d_files d) (d_active d) (d_env d) (d_shell d)
    (d_baseline d) (d_watch d) (d_sent d) (d_waiters d) (d_delivered d) (d_tiers d).
Definition set_db d (x : Db P) : Daemon P :=
  mkDaemon (d_clock d) x (d_files d) (d_active d) (d_env d) (d_shell d)
    (d_baseline d) (d_watch d) (d_sent d) (d_waiters d) (d_delivered d) (d_tiers d).
Definition set_files d (x : Blobs.BlobFiles) : Daemon P :=
  mkDaemon (d_clock d) (d_db d) x (d_active d) (d_env d) (d_shell d)
    (d_baseline d) (d_watch d) (d_sent d) (d_waiters d) (d_delivered d) (d_tiers d).
Definition set_active d x : Daemon P :=
  mkDaemon (d_clock d) (d_db d) (d_files d) x (d_env d) (d_shell d)
    (d_baseline d) (d_watch d) (d_sent d) (d_waiters d) (d_delivered d) (d_tiers d).
Definition set_env d x : Daemon P :=
  mkDaemon (d_clock d) (d_db d) (d_files d) (d_active d) x (d_shell d)
    (d_baseline d) (d_watch d) (d_sent d) (d_waiters d) (d_delivered d) (d_tiers d).
Definition set_shell d x : Daemon P :=
  mkDaemon (d_clock d) (d_db d) (d_files d) (d_active d) (d_env d) x
    (d_baseline d) (d_watch d) (d_sent d) (d_waiters d) (d_delivered d) (d_tiers d).
Definition set_baseline d x : Daemon P :=
  mkDaemon (d_clock d) (d_db d) (d_files d) (d_active d) (d_env d) (d_shell d)
    x (d_watch d) (d_sent d) (d_waiters d) (d_delivered d) (d_tiers d).
Definition set_watch d x : Daemon P :=
  mkDaemon (d_clock d) (d_db d) (d_files d) (d_active d) (d_env d) (d_shell d)
    (d_baseline d) x (d_sent d) (d_waiters d) (d_delivered d) (d_tiers d).
Definition send d (r : HelperRequest) : Daemon P :=
  mkDaemon (d_clock d) (d_db d) (d_files d) (d_active d) (d_env d) (d_shell d)
    (d_baseline d) (d_watch d) (d_sent d ++ [r]) (d_waiters d) (d_delivered d) (d_tiers d).
(** The result of a privileged operation, to the waiter that registered. *)
Definition deliver d (key : Uuid * N) (outcome : WireOutcome) : Daemon P :=
  mkDaemon (d_clock d) (d_db d) (d_files d) (d_active d) (d_env d) (d_shell d)
    (d_baseline d) (d_watch d) (d_sent d) (d_waiters d ∖ {[key]}) (d_delivered d ++ [(key, outcome)]) (d_tiers d).

Definition set_tiers d (x : TierStash.TierStashes) : Daemon P :=
  mkDaemon (d_clock d) (d_db d) (d_files d) (d_active d) (d_env d) (d_shell d)
    (d_baseline d) (d_watch d) (d_sent d) (d_waiters d) (d_delivered d) x.

(** A daemon that has just started on a store: [LOGICAL_CLOCK] is one. *)
Definition daemon_new (db : Db P) (files : Blobs.BlobFiles) : Daemon P :=
  mkDaemon 1 db files ∅ ∅ ∅ ∅ ∅ [] ∅ [] TierStash.tier_stashes_new.
End State.

(** What [env_track] reports of a message after a command. *)
Module PostOutcome.
Inductive PostOutcome :=
  | Orphan
  | Unchanged
  | Changed (pre_hash post_hash : list N) (added removed modified : nat).
End PostOutcome.
Abbreviation PostOutcome := PostOutcome.PostOutcome.

(** What the daemon reads of its host: the wall clock when the logical clock
    shows a value, the monotonic clock likewise, the extended attributes and
    the status of a path, and whether a helper is connected. *)
Record Host := mkHost {
  h_wall : N → N;
  h_instant : N → N;
  h_xattrs : PathBuf → gmap string bytes;
  h_metadata : PathBuf → option ProbeStat;
  h_helper : bool;
}.

Section Handlers.
Context {P : Type} `{!Postcard P}.
Context (host : Host) (blake3 : string → list N) (filter : Env.EnvFilter).
Context (path_ord : HashOrder PathBuf InodeRef).
Implicit Types d : Daemon P.

(** ** The clock *)

Definition next_ts d : Daemon P * TimePoint :=
  (set_clock d ((d_clock d + 1) mod 2 ^ 64)%N, mkTime (d_clock d) (h_wall host (d_clock d))).

(** An event as the daemon builds it; the index assigns the identifier. *)
Definition new_event (command : CommandId) (ts : TimePoint) (kind : CaptureEventKind) : CaptureEvent :=
  mkEvent (mkEventId 0) command ts false kind.

(** [index.put_event(..)], its error only logged. *)
Definition journal d (ev : CaptureEvent) : Daemon P :=
  match put_event (d_db d) ev with
  | inl (db', _) => set_db d db'
  | inr _ => d
  end.

(** ** env_track.rs *)

(** [PRE_STASH_TTL] in nanoseconds. *)
Definition PRE_STASH_TTL : N := 300 * 1000000000.

Definition hash_env_block (block : string) : list N := blake3 block.

Definition env_handle_pre d (key : CommandId) (env_block : string) : Daemon P :=
  set_env d (<[key := mkEnvPre (hash_env_block env_block) env_block (h_instant host (d_clock d))]>
    (d_env d)).

Definition diff_is_empty (diff : Env.EnvDiff) : bool :=
  bool_decide (Env.added diff = ∅) && bool_decide (Env.removed diff = ∅) && bool_decide (Env.modified diff = ∅).

Definition env_handle_post d (key : CommandId) (env_block : string) : Daemon P * PostOutcome :=
  match d_env d !! key with
  | None => (d, PostOutcome.Orphan)
  | Some pre =>
      let d := set_env d (delete key (d_env d)) in
      let post_hash := hash_env_block env_block in
      if bool_decide (post_hash = ep_hash pre) then (d, PostOutcome.Unchanged)
      else
        let diff := Env.diff_env_blocks blake3 (ep_block pre) env_block filter in
        if diff_is_empty diff then (d, PostOutcome.Unchanged)
        else
          let '(d, ts) := next_ts d in
          (journal d (new_event key ts
             (CaptureEventKind.EnvDiff (Env.added diff) (Env.removed diff) (Env.modified diff))),
           PostOutcome.Changed (ep_hash pre) post_hash (size (Env.added diff)) (size (Env.removed diff))
             (size (Env.modified diff)))
  end.

(** [checked_sub], or the present when the clock is younger than that. *)
Definition env_cutoff (now : N) : N :=
  if bool_decide (PRE_STASH_TTL ≤ now)%N then (now - PRE_STASH_TTL)%N else now.

Definition env_sweep_expired d (now : N) : Daemon P * nat :=
  let kept := base.filter (λ kv : CommandId * EnvPre, (env_cutoff now ≤ ep_ts kv.2)%N) (d_env d) in
  (set_env d kept, size (d_env d) - size kept).

(** ** shell_state_track.rs *)

(** Collecting pairs into a [BTreeMap]: the last of a name wins. *)
Definition pairs_to_map (pairs : list (string * string)) : gmap string string :=
  foldl (λ m kv, <[kv.1 := kv.2]> m) ∅ pairs.

(** The names of both maps, ascending. *)
Definition all_names (pre post : gmap string string) : list string :=
  (btree_iter (pre ∪ post)).*1.

Definition diff_string_map (pre post : gmap string string) : list (string * string * string) :=
  omap (λ name, let p := default "" (pre !! name) in let q := default "" (post !! name) in
    if bool_decide (p = q) then None else Some (name, p, q)) (all_names pre post).

Definition diff_optional_map (pre post : gmap string string)
    : list (string * option string * option string) :=
  omap (λ name, if bool_decide (pre !! name = post !! name) then None
                else Some (name, pre !! name, post !! name)) (all_names pre post).

Definition shell_handle_pre d (command : CommandId) (pwd : PathBuf)
    (opts aliases : list (string * string)) : Daemon P :=
  set_shell d (<[command := mkShellPre pwd (pairs_to_map opts) (pairs_to_map aliases)
    (h_instant host (d_clock d))]> (d_shell d)).

Definition shell_handle_post d (command : CommandId) (pwd_after : PathBuf)
    (opts aliases : list (string * string)) (ts : TimePoint) : Daemon P :=
  match d_shell d !! command with
  | None => d
  | Some pre =>
      let d := set_shell d (delete command (d_shell d)) in
      let opts_diff := diff_string_map (sp_opts pre) (pairs_to_map opts) in
      let aliases_diff := diff_optional_map (sp_aliases pre) (pairs_to_map aliases) in
      if bool_decide (sp_pwd pre = pwd_after) && bool_decide (opts_diff = [])
         && bool_decide (aliases_diff = []) then d
      else journal d (new_event command ts
             (CaptureEventKind.ShellStateDiff (sp_pwd pre) pwd_after opts_diff aliases_diff []))
  end.

Definition shell_sweep_expired d (now : N) : Daemon P * nat :=
  let kept := base.filter (λ kv : CommandId * ShellStatePre, (now - sp_ts kv.2 < PRE_STASH_TTL)%N)
    (d_shell d) in
  (set_shell d kept, size (d_shell d) - size kept).

(** ** xattr.rs *)

(** The live status with the given attributes and no flags. *)
Definition with_xattrs (m : FileMetadata) (xs : gmap string bytes) : FileMetadata :=
  mkMeta (m_mode m) (m_uid m) (m_gid m) (m_size m) (m_mtime_unix_nanos m) xs None 0.

Definition sweep_entry (command : CommandId) d (pe : PathBuf * Baseline.BaselineEntry) : Daemon P :=
  let '(path, entry) := pe in
  let current := h_xattrs host path in
  if bool_decide (current = Baseline.be_xattrs entry) then d
  else match h_metadata host path with
  | None => d
  | Some live =>
      let '(d, ts) := next_ts d in
      journal d (new_event command ts
        (CaptureEventKind.MetadataChange (s_inode live) path
           (with_xattrs (s_meta live) (Baseline.be_xattrs entry)) (with_xattrs (s_meta live) current)))
  end.

Definition post_exec_sweep d (cwd : PathBuf) (command : CommandId) : Daemon P :=
  match Baseline.get_cwd (d_baseline d) cwd with
  | None => d
  | Some cache => foldl (sweep_entry command) d (Baseline.snapshot_entries path_ord cache)
  end.

(** ** server.rs *)

Definition to_helper d (r : HelperRequest) : Daemon P := if h_helper host then send d r else d.

Definition close_command (cmd : CommandRecord) (ts : TimePoint) (exit_code : Z) : CommandRecord :=
  mkCommandRecord (c_command cmd) (c_cmd_string cmd) (c_cwd cmd) (c_pid cmd) (c_shell_kind cmd)
    (c_started_at cmd) (Some ts) (Some exit_code) (c_event_ids cmd).

Definition handle_pre_exec d (command : CommandId) (pid : N) (cwd_path : string)
    (shell_kind : ShellKind) (cmd_string : option string) (ts : TimePoint) : Daemon P :=
  let d := set_active d (insert_active (d_active d) pid command) in
  let cmd := mkCommandRecord command cmd_string (path_of_string cwd_path) pid shell_kind ts None None [] in
  let d := set_db d (put_command (d_db d) cmd) in
  to_helper d (HelperRequest.WatchTree pid true (session command) (seq command) shell_kind cwd_path).

Definition handle_post_exec d (command : CommandId) (exit_code : Z) (ts : TimePoint) : Daemon P :=
  let d := match command_by_id (d_db d) command with
    | None => d
    | Some existing =>
        let d := set_active d (remove_active (d_active d) (c_pid existing) command).1 in
        let d := set_db d (put_command (d_db d) (close_command existing ts exit_code)) in
        post_exec_sweep d (c_cwd existing) command
    end in
  let d := to_helper d (HelperRequest.UnwatchTree (session command) (seq command)) in
  if h_helper host then set_watch d (WatchReady.forget (d_watch d) command).1 else d.

(** [handle]: one message, with the time point taken first. *)
Definition handle d (msg : HookMessage) : Daemon P :=
  let '(d, ts) := next_ts d in
  match msg with
  | HookMessage.SessionOpen sess shell_kind parent_pid tty _ =>
      set_db d (put_session (d_db d) sess (shell_as_str shell_kind) parent_pid (Some tty) ts)
  | HookMessage.PreExec sess sq pid _ _ cwd_path _ shell_kind _ cmd_string =>
      handle_pre_exec d (mkCommandId sess sq) pid cwd_path shell_kind cmd_string ts
  | HookMessage.PostExec sess sq exit_code _ => handle_post_exec d (mkCommandId sess sq) exit_code ts
  | HookMessage.PreExecEnv sess sq env_block _ => env_handle_pre d (mkCommandId sess sq) env_block
  | HookMessage.PostExecEnv sess sq env_block _ =>
      (env_handle_post d (mkCommandId sess sq) env_block).1
  | HookMessage.PreExecShellState sess sq pwd opts aliases _ =>
      shell_handle_pre d (mkCommandId sess sq) (path_of_string pwd) opts aliases
  | HookMessage.PostExecShellState sess sq pwd opts aliases _ =>
      shell_handle_post d (mkCommandId sess sq) (path_of_string pwd) opts aliases ts
  | HookMessage.SessionClose sess _ => set_db d (close_session (d_db d) sess ts)
  end.

(** ** Deferred frames *)

Definition ROW_RETRY_MAX : N := 20.

Definition needs_command_row (msg : HookMessage) : option CommandId :=
  match msg with
  | HookMessage.PostExec sess sq _ _
  | HookMessage.PostExecEnv sess sq _ _
  | HookMessage.PostExecShellState sess sq _ _ _ _ => Some (mkCommandId sess sq)
  | _ => None
  end.

(** Handled now, or queued again with one more attempt. *)
Inductive Dispatched := Handled (d : Daemon P) | Deferred (msg : HookMessage) (attempt : N).

Definition dispatch d (msg : HookMessage) (attempt : N) : Dispatched :=
  match needs_command_row msg with
  | Some id =>
      if command_exists (d_db d) id then Handled (handle d msg)
      else if bool_decide (attempt < ROW_RETRY_MAX)%N then Deferred msg (attempt + 1)
      else Handled (handle d msg)
  | None => Handled (handle d msg)
  end.

End Handlers.

End Daemon.
