(* ===== verification/HelperEvents.v ===== *)
(** * The daemon: captures of the helper

    [helper_link.rs] of [shitd]: what each message of the privileged helper
    does to the blob store, the journal, the baseline and the waiting shells.
    The file descriptor of a message is the bytes of the file behind it.
    [RedirectTrack]: the stash of redirections ([redirect_track.rs]).
    [ShimEvents]: the notifications of the preload shim ([shim_listener.rs]). *)

From S2P Require Import Prelude Paths Base Events Probe Env Fs Redirect Tables Index Blobs Active Baseline.
From S2P Require Import WatchReady Daemon.

Module HelperEvents.
Import Index Daemon.

(** ** Messages *)

Module TreeOpWire.
Inductive TreeOpWire :=
  | Create (dev inode : N) (path : string) (kind : FileKind) (mode : N)
  | Unlink (dev inode : N) (path : string) (kind : FileKind) (mode : N)
  | Rename (from to : string) (dev inode : N)
  | Link (source_dev source_inode : N) (target : string)
  | Symlink (target path : string)
  | SymlinkRemoved (target path : string).
End TreeOpWire.
Abbreviation TreeOpWire := TreeOpWire.TreeOpWire.

Record FileMetadataWire := mkMetaWire {
  w_mode : N; w_uid : N; w_gid : N; w_size : N; w_mtime_unix_nanos : Z;
  w_xattrs : gmap string bytes; w_flags : N;
}.

(** A message with the content of a file: [CapturedPreImage]. *)
Record CapturedPreImage := mkCapture {
  cp_session : Uuid; cp_seq : N; cp_dev : N; cp_inode : N; cp_path : option string;
  cp_blob_hash : BlobHash; cp_stored_bytes : N; cp_post_content_hash : option BlobHash;
  cp_mode : N; cp_uid : N; cp_gid : N; cp_mtime_unix_nanos : Z;
  cp_xattrs : gmap string bytes; cp_is_delete : bool; cp_flags : N;
}.

Module HelperResponse.
Inductive HelperResponse :=
  | CapturedPreImage (c : HelperEvents.CapturedPreImage)
  | BaselineCaptured (session : Uuid) (cwd : string) (dev inode : N) (path : string)
      (blob_hash : BlobHash) (stored_bytes mode uid gid : N) (mtime_unix_nanos : Z)
      (xattrs : gmap string bytes)
  | BaselineWalkComplete (session : Uuid) (cwd : string) (file_count : N) (partial : bool)
  | TreeMutation (session : Uuid) (seq : N) (op : TreeOpWire) (ts_unix_nanos : N)
  | CapturedMetadataChange (session : Uuid) (seq dev inode : N) (path : option string)
      (before after : FileMetadataWire) (ts_unix_nanos : N)
  | WatchTreeReady (session : Uuid) (command_seq : N)
  | WatchTreeFailed (session : Uuid) (command_seq : N) (reason : string)
  | PrivilegedOpResult (session : Uuid) (command_seq : N) (outcome : WireOutcome)
  | Other.
End HelperResponse.
Abbreviation HelperResponse := HelperResponse.HelperResponse.

Module HelperLinkError.
Inductive HelperLinkError := Blob | HashMismatch (claimed computed : BlobHash) | PutEvent (e : IndexError).
End HelperLinkError.
Abbreviation HelperLinkError := HelperLinkError.HelperLinkError.

(** [Path::from(path.unwrap_or_default())]. *)
Definition path_or_empty (p : option string) : PathBuf := path_of_string (default "" p).

(** [S_IFMT] of the mode. *)
Definition kind_from_mode_bits (mode : N) : FileKind :=
  let m := N.land mode 0xF000 in
  if bool_decide (m = 0x4000%N) then FileKind.Directory
  else if bool_decide (m = 0x8000%N) then FileKind.Regular
  else if bool_decide (m = 0xA000%N) then FileKind.Symlink
  else if bool_decide (m = 0x1000%N) then FileKind.Fifo
  else if bool_decide (m = 0xC000%N) then FileKind.Socket
  else if bool_decide (m = 0x6000%N) then FileKind.BlockDevice
  else if bool_decide (m = 0x2000%N) then FileKind.CharDevice
  else FileKind.Regular.

(** At most the expected number of bytes, fewer at the end of the file. *)
Definition read_all_from_fd (fd : bytes) (expected_size : N) : bytes := take (N.to_nat expected_size) fd.

Section Handlers.
Context {P : Type} `{!Postcard P} `{!Blobs.BlobCodec}.
Context (host : Host) (kernel_tier : string) (cwd_ord : HashOrder PathBuf Baseline.BaselineCacheEntry).
Implicit Types d : Daemon P.

(** The state after a step, and the error the caller logs. *)
Abbreviation Res := (Daemon P * (unit + HelperLinkError))%type.

(** [index.put_event(..)?] *)
Definition put d (ev : CaptureEvent) : Res :=
  match put_event (d_db d) ev with
  | inl (db', _) => (set_db d db', inl ())
  | inr e => (d, inr (HelperLinkError.PutEvent e))
  end.

(** [?]. *)
Definition and_then (r : Res) (k : Daemon P → Res) : Res :=
  match r with (d, inl ()) => k d | (d, inr e) => (d, inr e) end.

Definition is_unlink_of (i : InodeRef) (path : PathBuf) (e : CaptureEvent) : bool :=
  match e_kind e with
  | CaptureEventKind.TreeOp (TreeOp.Unlink i' p' _ _) => bool_decide (i' = i) && bool_decide (p' = path)
  | _ => false
  end.

Definition journal_unlink_idempotent d (command : CommandId) (ts : TimePoint) (i : InodeRef)
    (path : PathBuf) (kind : FileKind) (mode : N) : Res :=
  if existsb (is_unlink_of i path) (events_for_command (index_store (d_db d)) command) then (d, inl ())
  else put d (new_event command ts (CaptureEventKind.TreeOp (TreeOp.Unlink i path kind mode))).

Definition tree_op_of (op : TreeOpWire) : TreeOp :=
  match op with
  | TreeOpWire.Create dev inode path kind mode =>
      TreeOp.Create (mkInode dev inode) (path_of_string path) kind mode
  | TreeOpWire.Unlink dev inode path kind mode =>
      TreeOp.Unlink (mkInode dev inode) (path_of_string path) kind mode
  | TreeOpWire.Rename from to dev inode =>
      TreeOp.Rename (path_of_string from) (path_of_string to) (mkInode dev inode)
  | TreeOpWire.Link dev inode target => TreeOp.Link (mkInode dev inode) (path_of_string target)
  | TreeOpWire.Symlink target path => TreeOp.Symlink target (path_of_string path)
  | TreeOpWire.SymlinkRemoved target path => TreeOp.SymlinkRemoved target (path_of_string path)
  end.

Definition handle_tree_mutation d (session : Uuid) (sq : N) (op : TreeOpWire) : Res :=
  let command := mkCommandId session sq in
  let '(d, ts) := next_ts host d in
  match op with
  | TreeOpWire.Unlink dev inode path kind mode =>
      journal_unlink_idempotent d command ts (mkInode dev inode) (path_of_string path) kind mode
  | _ => put d (new_event command ts (CaptureEventKind.TreeOp (tree_op_of op)))
  end.

Definition convert_meta (m : FileMetadataWire) : FileMetadata :=
  mkMeta (w_mode m) (w_uid m) (w_gid m) (w_size m) (w_mtime_unix_nanos m) (w_xattrs m) None (w_flags m).

Definition handle_metadata_change d (session : Uuid) (sq dev inode : N) (path : option string)
    (before after : FileMetadataWire) : Res :=
  let '(d, ts) := next_ts host d in
  put d (new_event (mkCommandId session sq) ts
    (CaptureEventKind.MetadataChange (mkInode dev inode) (path_or_empty path)
       (convert_meta before) (convert_meta after))).

(** The bytes of the descriptor into the store, checked against the claim. *)
Definition ingest d (fd : bytes) (stored_bytes : N) (claimed : BlobHash)
    (k : Daemon P → BlobHash → Blobs.BlobStat → Res) : Res :=
  match Blobs.put (d_files d) (read_all_from_fd fd stored_bytes) with
  | inr _ => (d, inr HelperLinkError.Blob)
  | inl (files', (canonical_hash, st)) =>
      let d := set_files d files' in
      if bool_decide (canonical_hash = claimed) then k d canonical_hash st
      else (d, inr (HelperLinkError.HashMismatch claimed canonical_hash))
  end.

Definition capture_meta (c : CapturedPreImage) (xattrs : gmap string bytes) : FileMetadata :=
  mkMeta (cp_mode c) (cp_uid c) (cp_gid c) (cp_stored_bytes c) (cp_mtime_unix_nanos c) xattrs None
    (cp_flags c).

Definition cp_command (c : CapturedPreImage) : CommandId := mkCommandId (cp_session c) (cp_seq c).
Definition cp_ref (c : CapturedPreImage) : InodeRef := mkInode (cp_dev c) (cp_inode c).

(** The pre-image, then the removal if there was one. *)
Definition journal_pre_image d (c : CapturedPreImage) (ts : TimePoint) (blob : BlobHash)
    (xattrs : gmap string bytes) (source : FilePreImageSource) : Res :=
  and_then
    (put d (new_event (cp_command c) ts
       (CaptureEventKind.FilePreImage (cp_ref c) (path_or_empty (cp_path c)) blob
          (capture_meta c xattrs) (cp_post_content_hash c) source)))
    (λ d, if cp_is_delete c then
            journal_unlink_idempotent d (cp_command c) ts (cp_ref c) (path_or_empty (cp_path c))
              (kind_from_mode_bits (cp_mode c)) (cp_mode c)
          else (d, inl ())).

Definition handle_captured_pre_image d (c : CapturedPreImage) (staging : bytes) : Res :=
  ingest d staging (cp_stored_bytes c) (cp_blob_hash c) (λ d h st,
    let '(d, ts) := next_ts host d in
    let d := set_db d (put_blob_record (d_db d) h (Blobs.stored_bytes st) (Blobs.compressed st) ts) in
    let source := if bool_decide (kernel_tier = "endpoint-security")
                  then FilePreImageSource.EsAuthPreMutation else FilePreImageSource.Other in
    journal_pre_image d c ts h (cp_xattrs c) source).

Definition handle_baseline_promoted_pre_image d (c : CapturedPreImage) (blob : BlobHash)
    (xattrs : gmap string bytes) : Res :=
  let '(d, ts) := next_ts host d in
  journal_pre_image d c ts blob xattrs FilePreImageSource.BaselineCachePromote.

Definition handle_baseline_captured d (cwd : PathBuf) (dev inode : N) (path : PathBuf)
    (claimed : BlobHash) (stored_bytes : N) (staging : bytes) : Res :=
  ingest d staging stored_bytes claimed (λ d h st,
    let '(d, ts) := next_ts host d in
    let d := set_db d (put_blob_record (d_db d) h (Blobs.stored_bytes st) (Blobs.compressed st) ts) in
    let entry := Baseline.entry_new (mkInode dev inode) h stored_bytes (h_xattrs host path) in
    let '(lb, cache) := Baseline.entry_for_cwd (d_baseline d) cwd in
    (set_baseline d (<[cwd := Baseline.cache_insert cache path entry]> lb), inl ())).

(** A capture without a descriptor: the removal alone, when it is a marker. *)
Definition handle_marker d (c : CapturedPreImage) : Res :=
  if bool_decide (cp_stored_bytes c = 0%N) && cp_is_delete c then
    let '(d, ts) := next_ts host d in
    journal_unlink_idempotent d (cp_command c) ts (cp_ref c) (path_or_empty (cp_path c))
      (kind_from_mode_bits (cp_mode c)) (cp_mode c)
  else (d, inl ()).

Definition handle_capture d (c : CapturedPreImage) (fd : option bytes) : Res :=
  match fd with
  | None => handle_marker d c
  | Some staging =>
      let '(lb, r) := Baseline.promote_in cwd_ord (d_baseline d) (cp_ref c) (cp_command c) in
      let d := set_baseline d lb in
      match r with
      | Some (blob, xattrs) => handle_baseline_promoted_pre_image d c blob xattrs
      | None => handle_captured_pre_image d c staging
      end
  end.

Definition walk_complete d (cwd : PathBuf) : Daemon P :=
  let '(lb, cache) := Baseline.entry_for_cwd (d_baseline d) cwd in
  set_baseline d (<[cwd := Baseline.mark_ready cache]> lb).

(** [dispatch_response]: an error is logged. *)
Definition dispatch_response d (resp : HelperResponse) (fd : option bytes) : Daemon P :=
  match resp with
  | HelperResponse.CapturedPreImage c => (handle_capture d c fd).1
  | HelperResponse.BaselineCaptured _ cwd dev inode path h n _ _ _ _ _ =>
      match fd with
      | None => d
      | Some staging =>
          (handle_baseline_captured d (path_of_string cwd) dev inode (path_of_string path) h n staging).1
      end
  | HelperResponse.BaselineWalkComplete _ cwd _ _ => walk_complete d (path_of_string cwd)
  | HelperResponse.TreeMutation sess sq op _ => (handle_tree_mutation d sess sq op).1
  | HelperResponse.CapturedMetadataChange sess sq dev inode path before after _ =>
      (handle_metadata_change d sess sq dev inode path before after).1
  | HelperResponse.WatchTreeReady sess sq =>
      set_watch d (WatchReady.mark_ready (d_watch d) (mkCommandId sess sq)).1
  | HelperResponse.WatchTreeFailed sess sq _ =>
      set_watch d (WatchReady.mark_failed (d_watch d) (mkCommandId sess sq)).1
  | HelperResponse.PrivilegedOpResult sess sq outcome =>
      if bool_decide ((sess, sq) ∈ d_waiters d) then deliver d (sess, sq) outcome else d
  | HelperResponse.Other => d
  end.

End Handlers.

End HelperEvents.

(** * The daemon: redirections

    [redirect_track.rs] of [shitd]: before the shell opens the targets of a
    redirection, the daemon stores the content of the files about to be
    truncated and the size of those about to grow. *)

Module RedirectTrack.
Import Index Daemon.

Inductive StashOutcome := Stashed | Skipped.

Module StashError.
Inductive StashError := NotRegular (k : FileKind) | BlobPut | PutEvent (e : IndexError).
End StashError.
Abbreviation StashError := StashError.StashError.

Section Handlers.
Context {P : Type} `{!Postcard P} `{!Blobs.BlobCodec}.
Context (host : Host) (fs : Fs.FS).
Implicit Types d : Daemon P.

Abbreviation Res := (Daemon P * (StashOutcome + StashError))%type.

Definition put_stashed d (ev : CaptureEvent) : Res :=
  match put_event (d_db d) ev with
  | inl (db', _) => (set_db d db', inl Stashed)
  | inr e => (d, inr (StashError.PutEvent e))
  end.

Definition stash_append d (path : PathBuf) (command : CommandId) : Res :=
  match Fs.find fs path with
  | None => (d, inl Skipped)
  | Some (ino, n) =>
      if negb (bool_decide (Fs.in_kind n = FileKind.Regular)) then
        (d, inr (StashError.NotRegular (Fs.in_kind n)))
      else if bool_decide (Fs.in_data n = []) then (d, inl Skipped)
      else
        let '(d, ts) := next_ts host d in
        put_stashed d (new_event command ts
          (CaptureEventKind.FileAppendPreStash (mkInode (Fs.device fs) ino) path
             (N.of_nat (length (Fs.in_data n)))))
  end.

(** Without extended attributes and flags. *)
Definition stash_meta (n : Fs.Inode) : FileMetadata :=
  mkMeta (N.lor (Fs.kind_bits (Fs.in_kind n)) (Fs.in_mode n)) (Fs.in_uid n) (Fs.in_gid n)
    (N.of_nat (length (Fs.in_data n))) (Fs.in_mtime n) ∅ None 0.

Definition stash_truncate d (path : PathBuf) (command : CommandId) : Res :=
  match Fs.find fs path with
  | None => (d, inl Skipped)
  | Some (ino, n) =>
      if negb (bool_decide (Fs.in_kind n = FileKind.Regular)) then
        (d, inr (StashError.NotRegular (Fs.in_kind n)))
      else match Blobs.put (d_files d) (Fs.in_data n) with
      | inr _ => (d, inr StashError.BlobPut)
      | inl (files', (h, st)) =>
          let d := set_files d files' in
          let '(d, ts) := next_ts host d in
          let d := set_db d (put_blob_record (d_db d) h (Blobs.stored_bytes st) (Blobs.compressed st) ts) in
          put_stashed d (new_event command ts
            (CaptureEventKind.FilePreImage (mkInode (Fs.device fs) ino) path h (stash_meta n) None
               FilePreImageSource.BaselineCachePromote))
      end
  end.

Definition stash_one d (target : Redirect.RedirectTarget) (command : CommandId) : Res :=
  match Redirect.t_op target with
  | Redirect.RedirectOp.Truncate | Redirect.RedirectOp.TeeTruncate | Redirect.RedirectOp.DdOf =>
      stash_truncate d (path_of_string (Redirect.t_path target)) command
  | Redirect.RedirectOp.Append | Redirect.RedirectOp.TeeAppend => stash_append d (path_of_string (Redirect.t_path target)) command
  end.

(** The count of stashed targets and the errors of the others. *)
Fixpoint stash_all d (targets : list Redirect.RedirectTarget) (command : CommandId) (stashed : nat)
    (errors : list (string * StashError)) : Daemon P * (nat * list (string * StashError)) :=
  match targets with
  | [] => (d, (stashed, errors))
  | t :: rest =>
      match stash_one d t command with
      | (d', inl Stashed) => stash_all d' rest command (S stashed) errors
      | (d', inl Skipped) => stash_all d' rest command stashed errors
      | (d', inr e) => stash_all d' rest command stashed (errors ++ [(Redirect.t_path t, e)])
      end
  end.

Definition handle_redirects d (session : Uuid) (command_seq : N) (targets : list Redirect.RedirectTarget)
    : Daemon P * (nat * list (string * StashError)) :=
  stash_all d targets (mkCommandId session command_seq) 0 [].

End Handlers.

End RedirectTrack.

(** * What the preload shim reports

    [shim_listener.rs] of [shitd], with the messages of [shim.rs] of
    [shit-proto]. A notification is received (the process is attributed and a
    logical time reserved) and acknowledged before it is journaled; between
    the two the intercepted call runs and other messages may be handled, so
    [receive] and [ingest_notification] are separate steps. *)

Module ShimEvents.
Import Index Daemon.

Record XattrPreImage := mkXattrPre { xp_name : string; xp_value : option bytes }.

Record ShimPreImage := mkShimPre {
  sp_path : string; sp_dev : N; sp_inode : N; sp_mode : N; sp_uid : N; sp_gid : N; sp_size : N;
  sp_mtime_unix_nanos : Z; sp_bytes : bytes; sp_xattr : option XattrPreImage; sp_flags : N;
}.

(** [read_all_user_xattrs] on Linux, and wherever else it is not macOS's or
    FreeBSD's. *)
Definition linux_read_all_user_xattrs (path : string) : gmap string bytes := ∅.

Module ShimFailure.
Inductive ShimFailure := CanonicalizeFailed (which_arg attempted_path error_chain : string).
End ShimFailure.
Abbreviation ShimFailure := ShimFailure.ShimFailure.

Record ShimNotification := mkNote {
  sn_pid : N; sn_syscall : string; sn_arg : string; sn_ts_unix_nanos : N;
  sn_pre_image : option ShimPreImage; sn_extra_pre_images : list ShimPreImage;
  sn_failure : option ShimFailure;
}.

(** [Path::is_absolute]. *)
Definition is_absolute (p : PathBuf) : bool := match p with RootDir :: _ => true | _ => false end.

Definition one_of (s : string) (l : list string) : bool := existsb (λ x, bool_decide (s = x)) l.

Definition metadata_syscalls : list string :=
  ["chmod"; "fchmod"; "fchmodat"; "chown"; "fchown"; "lchown"; "fchownat"; "utimes"; "futimes";
   "futimens"; "utimensat"; "setxattr"; "fsetxattr"; "removexattr"; "fremovexattr"; "chflags"; "fchflags"].

Definition content_syscalls : list string := ["open"; "openat"; "truncate"].
Definition rename_syscalls : list string := ["rename"; "renameat"; "renameat2"].
Definition unlink_syscalls : list string := ["unlink"; "unlinkat"].

Definition sentinel : InodeRef := mkInode 0 0.

Section Handlers.
Context {P : Type} `{!Postcard P} `{!Blobs.BlobCodec}.
Context (host : Host).
(** [parent_pid] of the system, [symlink_metadata] of a path and its extended
    attributes ([read_all_user_xattrs]) at the time of the call. *)
Context (parent_pid : N → option N) (inode_of : string → option InodeRef)
        (read_all_user_xattrs : string → gmap string bytes).
Implicit Types d : Daemon P.

Definition classify_tree_op (syscall arg : string) : option CaptureEventKind :=
  let path := path_of_string arg in
  let inode := default sentinel (inode_of arg) in
  if one_of syscall unlink_syscalls then
    Some (CaptureEventKind.TreeOp (TreeOp.Unlink sentinel path FileKind.Regular 33188))
  else if one_of syscall rename_syscalls then
    match split_once "009"%char arg with
    | None => None
    | Some (from, to) =>
        Some (CaptureEventKind.TreeOp (TreeOp.Rename (path_of_string from) (path_of_string to)
          (default sentinel (inode_of to))))
    end
  else if one_of syscall ["mkfifo"; "mkfifoat"] then
    Some (CaptureEventKind.TreeOp (TreeOp.Create inode path FileKind.Fifo 420))
  else if one_of syscall ["link"; "linkat"] then
    Some (CaptureEventKind.TreeOp (TreeOp.Create inode path FileKind.Regular 420))
  else if one_of syscall ["mkdir"; "mkdirat"] then
    Some (CaptureEventKind.TreeOp (TreeOp.Create inode path FileKind.Directory 493))
  else None.

Definition is_relative_create (kind : CaptureEventKind) : bool :=
  match kind with
  | CaptureEventKind.TreeOp (TreeOp.Create _ path _ _) => negb (is_absolute path)
  | _ => false
  end.

Definition build_xattrs_target (path : string) (xattr_pre : option XattrPreImage) : gmap string bytes :=
  let target := read_all_user_xattrs path in
  match xattr_pre with
  | Some x =>
      match xp_value x with
      | Some v => <[xp_name x := v]> target
      | None => delete (xp_name x) target
      end
  | None => target
  end.

Definition shim_meta (pre : ShimPreImage) : FileMetadata :=
  mkMeta (sp_mode pre) (sp_uid pre) (sp_gid pre) (sp_size pre) (sp_mtime_unix_nanos pre)
    (build_xattrs_target (sp_path pre) (sp_xattr pre)) None (sp_flags pre).

(** The bytes into the store, the record, and the event; an error stops there
    and is only logged. *)
Definition ingest_pre_image_with_source d (command : CommandId) (pre : ShimPreImage)
    (source : FilePreImageSource) (ts : TimePoint) : Daemon P :=
  match Blobs.put (d_files d) (sp_bytes pre) with
  | inr _ => d
  | inl (files', (h, st)) =>
      let d := set_files d files' in
      let d := set_db d (put_blob_record (d_db d) h (Blobs.stored_bytes st) (Blobs.compressed st) ts) in
      journal d (new_event command ts
        (CaptureEventKind.FilePreImage (mkInode (sp_dev pre) (sp_inode pre)) (path_of_string (sp_path pre)) h
           (shim_meta pre) None source))
  end.

Definition ingest_pre_image d (command : CommandId) (ts : TimePoint) (pre : ShimPreImage) : Daemon P :=
  ingest_pre_image_with_source d command pre FilePreImageSource.Other ts.

(** [if let Some(pre) = &note.pre_image]. *)
Definition ingest_attached d (command : CommandId) (ts : TimePoint) (note : ShimNotification) : Daemon P :=
  match sn_pre_image note with Some pre => ingest_pre_image d command ts pre | None => d end.

Definition ingest_failure d (command : CommandId) (ts : TimePoint) (failure : option ShimFailure) : Daemon P :=
  match failure with
  | None => d
  | Some (ShimFailure.CanonicalizeFailed which_arg attempted_path error_chain) =>
      journal d (new_event command ts
        (CaptureEventKind.CaptureRefused "capture-incomplete" (path_of_string attempted_path)
           ("shim canonicalize tripped on " +:+ which_arg +:+ " argument (" +:+ error_chain +:+ ")")))
  end.

(** [chmod] and the like: only the attached pre-image is kept. *)
Definition ingest_metadata d (command : CommandId) (ts : TimePoint) (note : ShimNotification) : Daemon P :=
  match sn_pre_image note with
  | None => d
  | Some pre =>
      ingest_pre_image_with_source d command pre
        (if one_of (sn_syscall note) ["chflags"; "fchflags"]
         then FilePreImageSource.ShimFlagsPreMutation else FilePreImageSource.Other) ts
  end.

(** [open] and the like: the attached pre-image, or else a new file unless the
    directory watch sees it or its path is relative. *)
Definition ingest_content d (command : CommandId) (ts : TimePoint) (note : ShimNotification) : Daemon P :=
  let path := path_of_string (sn_arg note) in
  match sn_pre_image note with
  | Some pre => ingest_pre_image d command ts pre
  | None =>
      if Baseline.path_in_watched_subtree (d_baseline d) path then d
      else if negb (is_absolute path) then d
      else journal d (new_event command ts
        (CaptureEventKind.TreeOp (TreeOp.Create sentinel path FileKind.Regular 420)))
  end.

(** Everything else: the pre-images of a rename or a removal, then the change
    of the tree itself. *)
Definition ingest_tree d (command : CommandId) (ts : TimePoint) (note : ShimNotification) : Daemon P :=
  let is_rename := one_of (sn_syscall note) rename_syscalls in
  let d := if is_rename then ingest_attached d command ts note else d in
  let d := if is_rename
           then foldl (λ d pre, ingest_pre_image d command ts pre) d (sn_extra_pre_images note) else d in
  let d := if one_of (sn_syscall note) unlink_syscalls then ingest_attached d command ts note else d in
  match classify_tree_op (sn_syscall note) (sn_arg note) with
  | None => d
  | Some kind =>
      if is_relative_create kind then d
      else if one_of (sn_syscall note) ["link"; "linkat"; "mkdir"; "mkdirat"]
              && Baseline.path_in_watched_subtree (d_baseline d) (path_of_string (sn_arg note)) then d
      else journal d (new_event command ts kind)
  end.

Definition ingest_notification d (note : ShimNotification) (resolved : option CommandId)
    (ingest_ts : TimePoint) : Daemon P :=
  match resolved with
  | None => d
  | Some command =>
      let d := ingest_failure d command ingest_ts (sn_failure note) in
      if one_of (sn_syscall note) metadata_syscalls then ingest_metadata d command ingest_ts note
      else if one_of (sn_syscall note) content_syscalls then ingest_content d command ingest_ts note
      else ingest_tree d command ingest_ts note
  end.

(** Up to the acknowledgement. *)
Definition receive d (note : ShimNotification) : Daemon P * (option CommandId * TimePoint) :=
  let resolved := Active.resolve_by_descendant parent_pid (d_active d) (sn_pid note) in
  let '(d, ts) := next_ts host d in (d, (resolved, ts)).

Definition handle_one d (note : ShimNotification) : Daemon P :=
  let '(d, (resolved, ts)) := receive d note in ingest_notification d note resolved ts.

End Handlers.

End ShimEvents.
