(* ===== verification/LinuxCapture.v ===== *)
(** * The helper's capture on Linux

    [capture/linux.rs] of [shit-helper], with the copy of [capture/streaming.rs]:
    what the helper remembers of a watched directory, how it answers the
    events of the kernel's security hooks and of fanotify, and what it sends to
    the daemon. A descriptor is the file it holds; what the system answers
    while a handler runs is a record. A message is sent with the bytes of its
    staging file. *)

From S2P Require Import Prelude Paths Base Events Probe Env Fs Redirect Tables Index Blobs Active Baseline.
From S2P Require Import WatchReady Daemon HelperEvents.

Module LinuxCapture.
Import HelperEvents.

(** Device and inode number, in the encoding of [stat]. *)
Abbreviation Key := (N * N)%type.

(** A descriptor: the file it holds, and whether it was opened with [O_PATH]. *)
Record Fd := mkFd { fd_key : Key; fd_path_only : bool }.

Record RawStat := mkRawStat {
  st_dev : N; st_ino : N; st_mode : N; st_uid : N; st_gid : N; st_size : N; st_mtime : Z; st_mtime_nsec : Z;
}.

(** One try of [symlink_metadata]: the answer, that there is no such file, or
    another error. *)
Module LstatTry.
Inductive LstatTry := Found (st : RawStat) | NotFound | Failed.
End LstatTry.
Abbreviation LstatTry := LstatTry.LstatTry.

Record Kernel := mkKernel {
  k_fstat : Fd → option RawStat;
  k_read : Fd → option bytes;               (** from the start to the end *)
  k_user_xattrs : Fd → gmap string bytes;
  k_fd_link : Fd → option string;           (** [/proc/self/fd/N] *)
  k_open : PathBuf → option Fd;             (** [O_NOFOLLOW] *)
  k_open_nonblock : PathBuf → option Fd;
  k_open_path : PathBuf → option Fd;        (** [O_PATH | O_NOFOLLOW] *)
  k_stat : PathBuf → option RawStat;
  k_lstat : PathBuf → option RawStat;
  k_lstat_try : PathBuf → nat → LstatTry;   (** the tries after a [mkdir] event *)
  k_read_dir : PathBuf → option (list string);
  k_stage : bytes → bool;                   (** the staging file could be written *)
  k_sends : HelperResponse → bool;          (** the socket takes the message *)
  k_now : N;
}.

Definition STREAM_COPY_CAP : N := 1024 * 1024 * 1024.
Definition STREAM_COPY_CHUNK : N := 64 * 1024.
Definition MAX_PRE_IMAGE_BYTES : N := STREAM_COPY_CAP.
Definition PRE_OPEN_TREE_DEPTH_LIMIT : nat := 8.
Definition PRE_OPEN_TREE_MAX_FILES : nat := 512.

Module FileType.
Inductive FileType := Regular | Directory | Fifo | Socket | Other.
End FileType.
Abbreviation FileType := FileType.FileType.

#[export] Instance FileType_eq_dec : EqDecision FileType.
Proof. solve_decision. Defined.

Record StatMeta := mkStatMeta {
  sm_mode : N; sm_uid : N; sm_gid : N; sm_size : N; sm_mtime_unix_nanos : Z; sm_xattrs : gmap string bytes;
}.

Record PreSnapshot := mkSnapshot { ps_meta : StatMeta; ps_bytes : bytes }.

Record PendingCreate := mkPending {
  pc_command : CommandId; pc_pid : N; pc_parent_dev : N; pc_parent_inode : N; pc_basename : string; pc_mode : N;
}.

Record DedupeEntry := mkDedupe { invalidated : bool }.

Record WatchState := mkWatch {
  dedupe : gmap Key DedupeEntry;
  pre_opens : gmap Key Fd;
  pre_snapshots : gmap Key PreSnapshot;
  watch_cwd : option PathBuf;
  dir_paths : gmap Key PathBuf;
  pending_creates : gmap Key (list PendingCreate);
  path_to_inode : gmap PathBuf Key;
  silent_send_failures : N;
}.

Definition default_watch : WatchState := mkWatch ∅ ∅ ∅ None ∅ ∅ ∅ 0.

Definition set_dedupe ws x := mkWatch x (pre_opens ws) (pre_snapshots ws) (watch_cwd ws) (dir_paths ws)
  (pending_creates ws) (path_to_inode ws) (silent_send_failures ws).
Definition set_pre_opens ws x := mkWatch (dedupe ws) x (pre_snapshots ws) (watch_cwd ws) (dir_paths ws)
  (pending_creates ws) (path_to_inode ws) (silent_send_failures ws).
Definition set_snapshots ws x := mkWatch (dedupe ws) (pre_opens ws) x (watch_cwd ws) (dir_paths ws)
  (pending_creates ws) (path_to_inode ws) (silent_send_failures ws).
Definition set_watch_cwd ws x := mkWatch (dedupe ws) (pre_opens ws) (pre_snapshots ws) x (dir_paths ws)
  (pending_creates ws) (path_to_inode ws) (silent_send_failures ws).
Definition set_dir_paths ws x := mkWatch (dedupe ws) (pre_opens ws) (pre_snapshots ws) (watch_cwd ws) x
  (pending_creates ws) (path_to_inode ws) (silent_send_failures ws).
Definition set_pending ws x := mkWatch (dedupe ws) (pre_opens ws) (pre_snapshots ws) (watch_cwd ws) (dir_paths ws)
  x (path_to_inode ws) (silent_send_failures ws).
Definition set_path_to_inode ws x := mkWatch (dedupe ws) (pre_opens ws) (pre_snapshots ws) (watch_cwd ws)
  (dir_paths ws) (pending_creates ws) x (silent_send_failures ws).
Definition set_failures ws x := mkWatch (dedupe ws) (pre_opens ws) (pre_snapshots ws) (watch_cwd ws) (dir_paths ws)
  (pending_creates ws) (path_to_inode ws) x.

(** [u32::saturating_add]. *)
Definition note_silent_send_failure (ws : WatchState) : WatchState :=
  set_failures ws (N.min (silent_send_failures ws + 1) (2 ^ 32 - 1)).

(** The runtime: the state of each watched command. *)
Abbreviation Runtime := (gmap CommandId WatchState).

(** What a handler sends, with the content of the staging file. *)
Abbreviation Sent := (HelperResponse * option bytes)%type.

(** ** Events *)

Module FanotifyCaptureKind.
Inductive FanotifyCaptureKind := OpenWrite | OpenExec | Delete.
End FanotifyCaptureKind.
Abbreviation FanotifyCaptureKind := FanotifyCaptureKind.FanotifyCaptureKind.

Record FanotifyEventView := mkFanotify { fe_command : CommandId; fe_fd : Fd; fe_kind : FanotifyCaptureKind }.

Record LsmUnlinkView := mkUnlinkView {
  lu_command : CommandId; lu_pid : N; lu_dev : N; lu_inode : N; lu_parent_inode : N; lu_basename : string;
  lu_is_directory : bool;
}.

Record LsmSetattrView := mkSetattrView {
  la_command : CommandId; la_pid : N; la_dev : N; la_inode : N; la_attr_valid : N;
  la_old_mode : N; la_old_uid : N; la_old_gid : N; la_old_size : N;
  la_new_mode : N; la_new_uid : N; la_new_gid : N; la_new_size : N;
}.

Record LsmMkdirView := mkMkdirView {
  lm_command : CommandId; lm_pid : N; lm_parent_dev : N; lm_parent_inode : N; lm_mode : N; lm_basename : string;
}.

Record LsmCreateView := mkCreateView {
  lc_command : CommandId; lc_pid : N; lc_parent_dev : N; lc_parent_inode : N; lc_mode : N; lc_basename : string;
}.

Record LsmOpenView := mkOpenView {
  lo_command : CommandId; lo_pid : N; lo_dev : N; lo_inode : N; lo_f_mode : N; lo_f_flags : N;
}.

Record LsmReleaseView := mkReleaseView {
  lr_command : CommandId; lr_pid : N; lr_dev : N; lr_inode : N; lr_f_mode : N; lr_f_flags : N;
}.

Record LsmRenameView := mkRenameView {
  ln_command : CommandId; ln_pid : N; ln_dev : N; ln_inode : N; ln_old_parent_inode : N; ln_new_parent_inode : N;
  ln_old_basename : string; ln_new_basename : string;
}.

(** ** Helpers *)

(** On [u64]: the high bits of a shift are lost. *)
Definition kernel_dev_to_userspace (kdev : N) : N :=
  let major := N.shiftr kdev 20 in
  let minor := N.land kdev 0xfffff in
  N.lor (N.lor (N.lor (N.land minor 0xff) (N.shiftl (N.land major 0xfff) 8 mod 2 ^ 64))
               (N.shiftl (N.ldiff minor 0xff) 12 mod 2 ^ 64))
        (N.shiftl (N.ldiff major 0xfff) 32 mod 2 ^ 64).

(** [Path::join]. *)
Definition join (dir : PathBuf) (name : string) : PathBuf :=
  match path_of_string name with
  | RootDir :: p => RootDir :: p
  | CurDir :: p => if path_is_empty dir then CurDir :: p else dir ++ p
  | p => dir ++ p
  end.

Definition resolve_via_parent (dirs : gmap Key PathBuf) (parent_dev parent_inode : N) (basename : string)
    : option string :=
  parent ← dirs !! (parent_dev, parent_inode); Some (path_string (join parent basename)).

Definition should_capture_dedupe (map : gmap Key DedupeEntry) (key : Key) : bool :=
  match map !! key with None => true | Some e => invalidated e end.

Definition file_type_of_mode (mode : N) : FileType :=
  let m := N.land mode 0xF000 in
  if bool_decide (m = 0x8000%N) then FileType.Regular
  else if bool_decide (m = 0x4000%N) then FileType.Directory
  else if bool_decide (m = 0x1000%N) then FileType.Fifo
  else if bool_decide (m = 0xC000%N) then FileType.Socket
  else FileType.Other.

(** [s.strip_suffix(" (deleted)")]. *)
Fixpoint strip_deleted (s : string) : option string :=
  if bool_decide (s = " (deleted)") then Some ""
  else match s with EmptyString => None | String c s' => String c <$> strip_deleted s' end.

(** The loop of [stream_into_fd]: at most the target, chunk by chunk. The
    fuel is the number of chunks. *)
Fixpoint stream_loop (fuel : nat) (src : bytes) (target : N) (out : bytes) : bytes :=
  match fuel with
  | O => out
  | S fuel' =>
      let offset := N.of_nat (length out) in
      if bool_decide (target ≤ offset)%N then out
      else
        let want := N.min (target - offset) STREAM_COPY_CHUNK in
        let chunk := take (N.to_nat want) (drop (length out) src) in
        if bool_decide (chunk = []) then out else stream_loop fuel' src target (out ++ chunk)
  end.

Definition stream_fuel (target : N) : nat := S (N.to_nat (target / STREAM_COPY_CHUNK)).

Definition stream_into_fd (src : bytes) (cap : N) : bytes := stream_loop (stream_fuel cap) src cap [].

Section Handlers.
Context `{!Blobs.BlobCodec} (k : Kernel).
Implicit Types (rt : Runtime) (ws : WatchState).

Definition fstat_dev_inode_kind (fd : Fd) : option (N * N * FileType) :=
  st ← k_fstat k fd; Some (st_dev st, st_ino st, file_type_of_mode (st_mode st)).

(** The multiplication does not saturate on 128 bits. *)
Definition fstat_meta (fd : Fd) : option StatMeta :=
  st ← k_fstat k fd;
  Some (mkStatMeta (st_mode st) (st_uid st) (st_gid st) (st_size st)
          (st_mtime st * 1000000000 + st_mtime_nsec st) (k_user_xattrs k fd)).

Definition read_pre_image (fd : Fd) : option bytes :=
  st ← k_fstat k fd;
  if bool_decide (MAX_PRE_IMAGE_BYTES < st_size st)%N then None else k_read k fd.

(** The copy into the staging directory. *)
Definition stream_copy_to_staging_path (fd : Fd) (cap : N) : option (bytes * BlobHash * N) :=
  st ← k_fstat k fd;
  if bool_decide (cap < st_size st)%N then None
  else src ← k_read k fd;
       let copied := stream_into_fd src (st_size st) in
       if k_stage k copied then Some (copied, Blobs.hash_bytes copied, N.of_nat (length copied)) else None.

Definition write_to_staging (b : bytes) : option bytes := if k_stage k b then Some b else None.

(** In the order of a [BTreeMap] over paths. *)
Definition path_of_key (m : gmap PathBuf Key) (key : Key) : option PathBuf :=
  fst <$> List.find (λ pk : PathBuf * Key, bool_decide (pk.2 = key))
            (sort_by (λ a b, path_leb a.1 b.1) (map_to_list m)).

Definition resolve_inode_to_path ws (dev inode : N) : option PathBuf :=
  match pre_opens ws !! (dev, inode) ≫= k_fd_link k with
  | Some s => Some (path_of_string (default s (strip_deleted s)))
  | None => path_of_key (path_to_inode ws) (dev, inode)
  end.

(** [send_response] and [send_response_with_fd]. *)
Definition send ws (resp : HelperResponse) (fd : option bytes) : WatchState * list Sent :=
  if k_sends k resp then (ws, [(resp, fd)]) else (note_silent_send_failure ws, []).

Definition mark ws (key : Key) (inv : bool) : WatchState := set_dedupe ws (<[key := mkDedupe inv]> (dedupe ws)).

(** [self.watches.entry(command).or_default()] and the handler on it. *)
Definition on_watch rt (command : CommandId) (f : WatchState → WatchState * list Sent) : Runtime * list Sent :=
  let '(ws, out) := f (default default_watch (rt !! command)) in (<[command := ws]> rt, out).

Definition on_watch_tree rt (command : CommandId) : Runtime :=
  <[command := default default_watch (rt !! command)]> rt.

Definition on_unwatch_tree rt (command : CommandId) : Runtime := delete command rt.

(** A message on what the file held. *)
Definition captured (command : CommandId) (key : Key) (path : option string) (hash : BlobHash) (n : N)
    (post : option BlobHash) (mode uid gid : N) (mtime : Z) (xattrs : gmap string bytes) (is_delete : bool)
    : HelperResponse :=
  HelperResponse.CapturedPreImage (mkCapture (session command) (seq command) key.1 key.2 path hash n post
    mode uid gid mtime xattrs is_delete 0).

(** The same from a snapshot. *)
Definition captured_snapshot (command : CommandId) (key : Key) (path : string) (post : option BlobHash)
    (snap : PreSnapshot) (is_delete : bool) : HelperResponse :=
  let m := ps_meta snap in
  captured command key (Some path) (Blobs.hash_bytes (ps_bytes snap)) (N.of_nat (length (ps_bytes snap))) post
    (sm_mode m) (sm_uid m) (sm_gid m) (sm_mtime_unix_nanos m) (sm_xattrs m) is_delete.

(** ** fanotify *)

Definition handle_event_on ws (ev : FanotifyEventView) : WatchState * list Sent :=
  match fstat_dev_inode_kind (fe_fd ev) with
  | None => (ws, [])
  | Some (dev, inode, file_type) =>
      if negb (bool_decide (file_type = FileType.Regular)) then (ws, [])
      else
        let is_delete := match fe_kind ev with FanotifyCaptureKind.Delete => true | _ => false end in
        if negb is_delete && negb (should_capture_dedupe (dedupe ws) (dev, inode)) then (ws, [])
        else
          match read_pre_image (fe_fd ev), fstat_meta (fe_fd ev) with
          | Some b, Some meta =>
              match write_to_staging b with
              | None => (ws, [])
              | Some staged =>
                  let resp := captured (fe_command ev) (dev, inode) (k_fd_link k (fe_fd ev))
                    (Blobs.hash_bytes b) (N.of_nat (length b)) None (sm_mode meta) (sm_uid meta) (sm_gid meta)
                    (sm_mtime_unix_nanos meta) (sm_xattrs meta) is_delete in
                  let '(ws, out) := send ws resp (Some staged) in
                  (mark ws (dev, inode) is_delete, out)
              end
          | _, _ => (ws, [])
          end
  end.

Definition handle_event rt (ev : FanotifyEventView) : Runtime * list Sent :=
  on_watch rt (fe_command ev) (λ ws, handle_event_on ws ev).

(** ** Removals *)

(** The held descriptor, which is given up, or an open of the path that may
    still be there. *)
Definition take_fd ws (key : Key) (path : PathBuf) : WatchState * option Fd :=
  match pre_opens ws !! key with
  | Some fd => (set_pre_opens ws (delete key (pre_opens ws)), Some fd)
  | None => (ws, k_open k path)
  end.

Definition race_won (key : Key) (is_directory : bool) (fd : option Fd) : bool :=
  match fd with
  | None => false
  | Some fd =>
      let '(dev, inode, file_type) := default (0%N, 0%N, FileType.Other) (fstat_dev_inode_kind fd) in
      bool_decide ((dev, inode) = key)
      && (if is_directory then bool_decide (file_type = FileType.Directory)
          else bool_decide (file_type ∈ [FileType.Regular; FileType.Fifo; FileType.Socket]))
  end.

Definition zero_hash : BlobHash := mkHash (repeat 0%N 32).

(** Bytes, hash, staged content and metadata of the message. *)
Definition unlink_content (fd : Fd) (is_directory : bool) : N * BlobHash * option bytes * option StatMeta :=
  let file_type := default FileType.Other (snd <$> fstat_dev_inode_kind fd) in
  if is_directory || bool_decide (file_type ∈ [FileType.Fifo; FileType.Socket])
  then (0%N, zero_hash, None, fstat_meta fd)
  else match stream_copy_to_staging_path fd MAX_PRE_IMAGE_BYTES, fstat_meta fd with
       | Some (staged, hash, n), Some meta => (n, hash, Some staged, Some meta)
       | _, _ => (0%N, zero_hash, None, None)
       end.

Definition handle_lsm_unlink_on ws (ev : LsmUnlinkView) : WatchState * list Sent :=
  let dev := kernel_dev_to_userspace (lu_dev ev) in
  let key := (dev, lu_inode ev) in
  let ws := mark ws key true in
  match resolve_via_parent (dir_paths ws) dev (lu_parent_inode ev) (lu_basename ev) with
  | None => (ws, [])
  | Some resolved_path =>
      let '(ws, fd) := take_fd ws key (path_of_string resolved_path) in
      let '(n, hash, staged, meta) :=
        match fd with
        | Some f => if race_won key (lu_is_directory ev) fd then unlink_content f (lu_is_directory ev)
                    else (0%N, zero_hash, None, None)
        | None => (0%N, zero_hash, None, None)
        end in
      send ws (captured (lu_command ev) key (Some resolved_path) hash n None
        (default 0%N (sm_mode <$> meta)) (default 0%N (sm_uid <$> meta)) (default 0%N (sm_gid <$> meta))
        (default 0%Z (sm_mtime_unix_nanos <$> meta)) (default ∅ (sm_xattrs <$> meta)) true) staged
  end.

Definition handle_lsm_unlink rt (ev : LsmUnlinkView) : Runtime * list Sent :=
  on_watch rt (lu_command ev) (λ ws, handle_lsm_unlink_on ws ev).

(** ** Changes of metadata *)

Definition handle_lsm_setattr_on ws (ev : LsmSetattrView) : WatchState * list Sent :=
  let dev := kernel_dev_to_userspace (la_dev ev) in
  let key := (dev, la_inode ev) in
  if negb (should_capture_dedupe (dedupe ws) key) then (ws, [])
  else
    match pre_snapshots ws !! key with
    | None => (mark ws key false, [])
    | Some snap =>
        match write_to_staging (ps_bytes snap) with
        | None => (ws, [])
        | Some staged =>
            match resolve_inode_to_path ws dev (la_inode ev) with
            | None => (ws, [])
            | Some path =>
                let resp := captured (la_command ev) key (Some (path_string path)) (Blobs.hash_bytes (ps_bytes snap))
                  (N.of_nat (length (ps_bytes snap))) None (la_old_mode ev) (la_old_uid ev) (la_old_gid ev)
                  (sm_mtime_unix_nanos (ps_meta snap)) ∅ false in
                let '(ws, out) := send ws resp (Some staged) in (mark ws key false, out)
            end
        end
    end.

Definition handle_lsm_setattr rt (ev : LsmSetattrView) : Runtime * list Sent :=
  on_watch rt (la_command ev) (λ ws, handle_lsm_setattr_on ws ev).

(** ** Creation *)

Definition process_lsm_create_resolved rt (command : CommandId) (resolved_path : PathBuf) (mode : N)
    : Runtime * list Sent :=
  let opened := k_open_nonblock k resolved_path in
  let '(dev, inode, file_type) := default (0%N, 0%N, FileType.Regular) (opened ≫= fstat_dev_inode_kind) in
  match file_type with
  | FileType.Directory | FileType.Other => (rt, [])
  | FileType.Regular | FileType.Fifo | FileType.Socket =>
      let kind := match file_type with
                  | FileType.Fifo => FileKind.Fifo
                  | FileType.Socket => FileKind.Socket
                  | _ => FileKind.Regular
                  end in
      let resp := HelperResponse.TreeMutation (session command) (seq command)
        (TreeOpWire.Create dev inode (path_string resolved_path) kind mode) (k_now k) in
      if negb (k_sends k resp) then (alter note_silent_send_failure command rt, [])
      else
        match opened with
        | None => (rt, [(resp, None)])
        | Some f =>
            let ws := default default_watch (rt !! command) in
            let ws :=
              if bool_decide (file_type = FileType.Regular) then
                match read_pre_image f, fstat_meta f with
                | Some b, Some meta => set_snapshots ws (<[(dev, inode) := mkSnapshot meta b]> (pre_snapshots ws))
                | _, _ => ws
                end
              else ws in
            let ws := set_pre_opens ws (<[(dev, inode) := f]> (pre_opens ws)) in
            let ws := set_path_to_inode ws (<[resolved_path := (dev, inode)]> (path_to_inode ws)) in
            (<[command := mark ws (dev, inode) false]> rt, [(resp, None)])
        end
  end.

Definition handle_lsm_create rt (ev : LsmCreateView) : Runtime * list Sent :=
  let ws := default default_watch (rt !! lc_command ev) in
  let dev := kernel_dev_to_userspace (lc_parent_dev ev) in
  match resolve_via_parent (dir_paths ws) dev (lc_parent_inode ev) (lc_basename ev) with
  | Some path =>
      process_lsm_create_resolved (<[lc_command ev := ws]> rt) (lc_command ev) (path_of_string path) (lc_mode ev)
  | None =>
      let pending := default [] (pending_creates ws !! (dev, lc_parent_inode ev)) in
      let entry := mkPending (lc_command ev) (lc_pid ev) dev (lc_parent_inode ev) (lc_basename ev) (lc_mode ev) in
      (<[lc_command ev := set_pending ws (<[(dev, lc_parent_inode ev) := pending ++ [entry]]> (pending_creates ws))]> rt, [])
  end.

(** The twenty tries of the directory's own identity. *)
Fixpoint stat_new_dir (path : PathBuf) (tries n : nat) : option Key :=
  match tries with
  | O => None
  | S tries' =>
      match k_lstat_try k path n with
      | LstatTry.Found st =>
          if bool_decide (file_type_of_mode (st_mode st) = FileType.Directory) then Some (st_dev st, st_ino st) else None
      | LstatTry.NotFound => stat_new_dir path tries' (S n)
      | LstatTry.Failed => None
      end
  end.

Definition drain_one (dir : PathBuf) (acc : Runtime * list Sent) (pc : PendingCreate) : Runtime * list Sent :=
  let '(rt, out) := acc in
  let '(rt, out') := process_lsm_create_resolved rt (pc_command pc) (join dir (pc_basename pc)) (pc_mode pc) in
  (rt, out ++ out').

Definition handle_lsm_mkdir rt (ev : LsmMkdirView) : Runtime * list Sent :=
  let ws := default default_watch (rt !! lm_command ev) in
  let parent_dev := kernel_dev_to_userspace (lm_parent_dev ev) in
  match resolve_via_parent (dir_paths ws) parent_dev (lm_parent_inode ev) (lm_basename ev) with
  | None => (<[lm_command ev := ws]> rt, [])
  | Some resolved =>
      let dir := path_of_string resolved in
      let key := default (0%N, 0%N) (stat_new_dir dir 20 0) in
      let '(ws, drained) :=
        if negb (bool_decide (key.1 = 0%N)) then
          (set_pending (set_dir_paths ws (<[key := dir]> (dir_paths ws))) (delete key (pending_creates ws)),
           default [] (pending_creates ws !! key))
        else (ws, []) in
      let resp := HelperResponse.TreeMutation (session (lm_command ev)) (seq (lm_command ev))
        (TreeOpWire.Create key.1 key.2 (path_string dir) FileKind.Directory (lm_mode ev)) (k_now k) in
      let '(ws, out) := send ws resp None in
      foldl (drain_one dir) (<[lm_command ev := ws]> rt, out) drained
  end.

(** ** Opens for writing and closes *)

Definition handle_lsm_open_on ws (ev : LsmOpenView) : WatchState * list Sent :=
  let dev := kernel_dev_to_userspace (lo_dev ev) in
  let key := (dev, lo_inode ev) in
  if negb (should_capture_dedupe (dedupe ws) key) then (ws, [])
  else
    match pre_snapshots ws !! key with
    | None => (ws, [])
    | Some snap =>
        match write_to_staging (ps_bytes snap) with
        | None => (ws, [])
        | Some staged =>
            match resolve_inode_to_path ws dev (lo_inode ev) with
            | None => (ws, [])
            | Some path =>
                let '(ws, out) :=
                  send ws (captured_snapshot (lo_command ev) key (path_string path) None snap false) (Some staged) in
                (mark ws key false, out)
            end
        end
    end.

Definition handle_lsm_open rt (ev : LsmOpenView) : Runtime * list Sent :=
  on_watch rt (lo_command ev) (λ ws, handle_lsm_open_on ws ev).

Definition handle_lsm_release_on ws (ev : LsmReleaseView) : WatchState * list Sent :=
  let dev := kernel_dev_to_userspace (lr_dev ev) in
  let key := (dev, lr_inode ev) in
  if negb (should_capture_dedupe (dedupe ws) key) then (ws, [])
  else
    match pre_snapshots ws !! key, pre_opens ws !! key ≫= read_pre_image with
    | Some snap, Some current =>
        if bool_decide (Blobs.hash_bytes (ps_bytes snap) = Blobs.hash_bytes current) then (ws, [])
        else
          match write_to_staging (ps_bytes snap) with
          | None => (ws, [])
          | Some staged =>
              match resolve_inode_to_path ws dev (lr_inode ev) with
              | None => (ws, [])
              | Some path =>
                  let '(ws, out) :=
                    send ws (captured_snapshot (lr_command ev) key (path_string path) (Some (Blobs.hash_bytes current))
                      snap false) (Some staged) in
                  (mark ws key false, out)
              end
          end
    | _, _ => (ws, [])
    end.

Definition handle_lsm_release rt (ev : LsmReleaseView) : Runtime * list Sent :=
  on_watch rt (lr_command ev) (λ ws, handle_lsm_release_on ws ev).

(** ** Renames *)

(** The file the rename replaces, if it is one the helper knows. *)
Definition send_replaced ws (command : CommandId) (to : string) : WatchState * list Sent :=
  match path_to_inode ws !! path_of_string to with
  | None => (ws, [])
  | Some old =>
      match pre_snapshots ws !! old with
      | None => (ws, [])
      | Some snap =>
          match write_to_staging (ps_bytes snap) with
          | None => (ws, [])
          | Some staged => send ws (captured_snapshot command old to None snap true) (Some staged)
          end
      end
  end.

Definition handle_lsm_rename_on ws (ev : LsmRenameView) : WatchState * list Sent :=
  let dev := kernel_dev_to_userspace (ln_dev ev) in
  match resolve_via_parent (dir_paths ws) dev (ln_old_parent_inode ev) (ln_old_basename ev),
        resolve_via_parent (dir_paths ws) dev (ln_new_parent_inode ev) (ln_new_basename ev) with
  | Some from, Some to =>
      let '(ws, out1) := send_replaced ws (ln_command ev) to in
      let '(ws, out2) := send ws (HelperResponse.TreeMutation (session (ln_command ev)) (seq (ln_command ev))
        (TreeOpWire.Rename from to dev (ln_inode ev)) (k_now k)) None in
      (ws, out1 ++ out2)
  | _, _ => (ws, [])
  end.

Definition handle_lsm_rename rt (ev : LsmRenameView) : Runtime * list Sent :=
  on_watch rt (ln_command ev) (λ ws, handle_lsm_rename_on ws ev).

(** ** Watching a directory *)

(** What the walk carries: the state, the files opened, and whether the cap
    was hit. *)
Record PreOpen := mkPreOpen { po_ws : WatchState; po_opened : nat; po_hit_cap : bool }.

Definition hold ws (path : PathBuf) (key : Key) (fd : Fd) : WatchState :=
  set_path_to_inode (set_pre_opens ws (<[key := fd]> (pre_opens ws))) (<[path := key]> (path_to_inode ws)).

(** A directory, a pipe or a socket is held with [O_PATH]. *)
Definition hold_path ws (path : PathBuf) (key : Key) : WatchState :=
  match k_open_path k path with Some fd => hold ws path key fd | None => ws end.

Definition pre_open_file (po : PreOpen) (path : PathBuf) : PreOpen :=
  match k_open k path with
  | None => po
  | Some fd =>
      match fstat_dev_inode_kind fd with
      | Some (dev, inode, FileType.Regular) =>
          let ws := match read_pre_image fd, fstat_meta fd with
                    | Some b, Some meta =>
                        set_snapshots (po_ws po) (<[(dev, inode) := mkSnapshot meta b]> (pre_snapshots (po_ws po)))
                    | _, _ => po_ws po
                    end in
          mkPreOpen (hold ws path (dev, inode) fd) (S (po_opened po)) (po_hit_cap po)
      | _ => po
      end
  end.

(** One entry; [descend] goes into a directory. *)
Definition pre_open_entry (descend : PathBuf → PreOpen → PreOpen) (dir : PathBuf) (root_dev : N) (po : PreOpen)
    (name : string) : PreOpen :=
  if bool_decide (PRE_OPEN_TREE_MAX_FILES ≤ po_opened po) then mkPreOpen (po_ws po) (po_opened po) true
  else
    let path := join dir name in
    match k_lstat k path with
    | None => po
    | Some st =>
        let key := (st_dev st, st_ino st) in
        match file_type_of_mode (st_mode st) with
        | FileType.Directory =>
            if negb (bool_decide (st_dev st = root_dev)) then po
            else
              let ws := set_dir_paths (po_ws po) (<[key := path]> (dir_paths (po_ws po))) in
              descend path (mkPreOpen (hold_path ws path key) (po_opened po) (po_hit_cap po))
        | FileType.Fifo | FileType.Socket => mkPreOpen (hold_path (po_ws po) path key) (po_opened po) (po_hit_cap po)
        | FileType.Regular => pre_open_file po path
        | FileType.Other => po
        end
    end.

(** [levels] is what the depth limit leaves. *)
Fixpoint pre_open_recurse (levels : nat) (root_dev : N) (dir : PathBuf) (po : PreOpen) : PreOpen :=
  match levels with
  | O => po
  | S levels' =>
      if bool_decide (PRE_OPEN_TREE_MAX_FILES ≤ po_opened po) then mkPreOpen (po_ws po) (po_opened po) true
      else match k_read_dir k dir with
           | None => po
           | Some names => foldl (pre_open_entry (pre_open_recurse levels' root_dev) dir root_dev) po names
           end
  end.

Definition pre_open_tree rt (command : CommandId) (cwd : PathBuf) : Runtime :=
  let ws := set_watch_cwd (default default_watch (rt !! command)) (Some cwd) in
  match k_stat k cwd with
  | None => <[command := ws]> rt
  | Some st =>
      let ws := set_dir_paths ws (<[(st_dev st, st_ino st) := cwd]> (dir_paths ws)) in
      <[command := po_ws (pre_open_recurse PRE_OPEN_TREE_DEPTH_LIMIT (st_dev st) cwd (mkPreOpen ws 0 false))]> rt
  end.

End Handlers.

End LinuxCapture.
