(* ===== verification/CaptureFacts.v ===== *)
(** * What the helper sends

    Facts on the capture runtime alone: the device numbers, the streaming
    copy, that every message agrees with the bytes it comes with (and passes
    the daemon's check), that a file is captured once per command, and that
    watching a directory holds every file in it. *)

From S2P Require Import Prelude Paths Base Events Probe Env Fs Redirect Tables Index Blobs Active Baseline.
From S2P Require Import WatchReady Daemon HelperEvents LinuxCapture.

Module CaptureFacts.
Import HelperEvents LinuxCapture.

(** ** Device numbers *)

Lemma lor_disjoint (a c n : N) : (a < 2 ^ n)%N → N.lor a (c * 2 ^ n) = (a + c * 2 ^ n)%N.
Proof.
  intros Ha. assert (N.land a (c * 2 ^ n) = 0%N) as Hz.
  { apply N.bits_inj. intros i. rewrite N.land_spec, N.bits_0. destruct (N.lt_ge_cases i n) as [Hi|Hi].
    - by rewrite (N.mul_pow2_bits_low c n i Hi), andb_false_r.
    - by rewrite <- (N.mod_small a (2 ^ n)), N.mod_pow2_bits_high. }
  by rewrite <- N.lxor_lor, <- N.add_nocarry_lxor.
Qed.

(** The encoding of [stat], as [gnu_dev_makedev] has it for a major number of
    twelve bits. *)
Definition gnu_makedev (major minor : N) : N := minor mod 256 + 256 * major + 2 ^ 20 * (minor / 256).

(** A device of thirty-two bits gets the number [stat] gives it, so that two
    devices never share a key. *)
Lemma kernel_dev_spec (kdev : N) :
  (kdev < 2 ^ 32)%N → kernel_dev_to_userspace kdev = gnu_makedev (kdev / 2 ^ 20) (kdev mod 2 ^ 20).
Proof.
  intros Hk. unfold kernel_dev_to_userspace, gnu_makedev.
  change 0xfffff%N with (N.ones 20). change 0xff%N with (N.ones 8). change 0xfff%N with (N.ones 12).
  rewrite !N.land_ones, N.shiftr_div_pow2. set (ma := (kdev / 2 ^ 20)%N). set (mi := (kdev mod 2 ^ 20)%N).
  assert (ma < 4096)%N as Hma by (apply N.Div0.div_lt_upper_bound; lia).
  assert (mi < 2 ^ 20)%N as Hmi by (by apply N.mod_lt).
  rewrite (N.mod_small ma) by (change (2 ^ 12)%N with 4096%N; done).
  rewrite !N.ldiff_ones_r. rewrite !N.shiftr_div_pow2, !N.shiftl_mul_pow2.
  rewrite (N.div_small ma (2 ^ 12)) by (change (2 ^ 12)%N with 4096%N; done).
  change (2 ^ 8)%N with 256%N. set (hi := (mi / 256)%N). set (lo := (mi mod 256)%N).
  assert (hi < 4096)%N as Hhi by (apply N.Div0.div_lt_upper_bound; lia).
  assert (lo < 256)%N as Hlo by (by apply N.mod_lt).
  rewrite !(N.mod_small _ (2 ^ 64)) by (simpl; lia). change (0 * 2 ^ 12 * 2 ^ 32)%N with 0%N. rewrite N.lor_0_r.
  replace (hi * 256 * 2 ^ 12)%N with (hi * 2 ^ 20)%N by (change (2 ^ 20)%N with (256 * 2 ^ 12)%N; lia).
  change 256%N with (2 ^ 8)%N. rewrite (lor_disjoint lo ma 8) by done.
  rewrite lor_disjoint; simpl; lia.
Qed.

Lemma kernel_dev_inj (a b : N) :
  (a < 2 ^ 32)%N → (b < 2 ^ 32)%N → kernel_dev_to_userspace a = kernel_dev_to_userspace b → a = b.
Proof.
  intros Ha Hb. rewrite !kernel_dev_spec by done. unfold gnu_makedev.
  assert (∀ x, (x < 2 ^ 32)%N → (x / 2 ^ 20 < 4096)%N ∧ (x mod 2 ^ 20 < 2 ^ 20)%N) as Hx.
  { intros x Hx. split; [apply N.Div0.div_lt_upper_bound; lia|by apply N.mod_lt]. }
  destruct (Hx a Ha) as [Ha1 Ha2], (Hx b Hb) as [Hb1 Hb2].
  pose proof (N.div_mod a (2 ^ 20) ltac:(done)) as Ea. pose proof (N.div_mod b (2 ^ 20) ltac:(done)) as Eb.
  revert Ha1 Ha2 Hb1 Hb2 Ea Eb. generalize (a / 2 ^ 20)%N, (a mod 2 ^ 20)%N, (b / 2 ^ 20)%N, (b mod 2 ^ 20)%N.
  intros a1 a2 b1 b2 ? ? ? ? -> ->.
  pose proof (N.div_mod a2 256 ltac:(done)) as Fa. pose proof (N.div_mod b2 256 ltac:(done)) as Fb.
  pose proof (N.mod_lt a2 256 ltac:(done)) as Ma. pose proof (N.mod_lt b2 256 ltac:(done)) as Mb.
  change (2 ^ 20)%N with 1048576%N in *. revert Fa Fb Ma Mb.
  generalize (a2 / 256)%N, (a2 mod 256)%N, (b2 / 256)%N, (b2 mod 256)%N. intros. lia.
Qed.

(** ** The streaming copy *)

Lemma stream_loop_done (fuel : nat) (src : bytes) (target : N) : stream_loop fuel src target src = src.
Proof.
  destruct fuel as [|fuel]; simpl; [done|]. case_bool_decide; [done|].
  rewrite drop_ge, take_nil by done. by rewrite bool_decide_eq_true_2.
Qed.

Lemma stream_loop_take (fuel : nat) (src : bytes) (target : N) : ∀ out,
  out = take (length out) src → (N.of_nat (length out) ≤ target)%N →
  (target - N.of_nat (length out) ≤ N.of_nat fuel * STREAM_COPY_CHUNK)%N →
  stream_loop fuel src target out = take (N.to_nat target) src.
Proof.
  induction fuel as [|fuel IH]; intros out Ho Hle Hf; simpl.
  { rewrite Ho at 1. f_equal. lia. }
  case_bool_decide as Ht; [rewrite Ho at 1; f_equal; lia|].
  set (want := N.min (target - N.of_nat (length out)) STREAM_COPY_CHUNK).
  set (chunk := take (N.to_nat want) (drop (length out) src)).
  assert (0 < want)%N as Hw by (unfold want, STREAM_COPY_CHUNK; lia).
  assert (want ≤ target - N.of_nat (length out))%N as Hwt by (unfold want; lia).
  assert (out ++ chunk = take (length out + N.to_nat want) src) as Hoc.
  { rewrite Ho at 1. unfold chunk. by rewrite take_take_drop. }
  case_bool_decide as Hc.
  - apply (f_equal length) in Hc. unfold chunk in Hc. rewrite length_take, length_drop in Hc. simpl in Hc.
    rewrite Ho at 1. rewrite !take_ge by lia. done.
  - destruct (decide (length out + N.to_nat want ≤ length src)) as [Hfit|Hend].
    + assert (length chunk = N.to_nat want) as Hcl by (unfold chunk; rewrite length_take, length_drop; lia).
      apply IH; rewrite length_app, Hcl; [by rewrite Hoc|lia|].
      clear -Hf Ht. unfold want, STREAM_COPY_CHUNK in *. lia.
    + rewrite Hoc, (take_ge src) by lia. rewrite stream_loop_done. rewrite take_ge by lia. done.
Qed.

(** The copy is the first [cap] bytes: the fuel is enough for every chunk. *)
Lemma stream_into_fd_spec (src : bytes) (cap : N) : stream_into_fd src cap = take (N.to_nat cap) src.
Proof.
  apply stream_loop_take; [done|simpl; lia|]. unfold stream_fuel.
  pose proof (N.div_mod cap STREAM_COPY_CHUNK ltac:(done)). pose proof (N.mod_lt cap STREAM_COPY_CHUNK ltac:(done)).
  rewrite Nat2N.inj_succ, N2Nat.id. simpl length. lia.
Qed.

(** ** The runtime as a machine *)

(** What reaches the helper, with what the system answers meanwhile. *)
Inductive Event :=
  | Watch (command : CommandId)
  | PreOpenTree (k : Kernel) (command : CommandId) (cwd : PathBuf)
  | Unwatch (command : CommandId)
  | Fanotify (k : Kernel) (ev : FanotifyEventView)
  | LsmUnlink (k : Kernel) (ev : LsmUnlinkView)
  | LsmSetattr (k : Kernel) (ev : LsmSetattrView)
  | LsmMkdir (k : Kernel) (ev : LsmMkdirView)
  | LsmCreate (k : Kernel) (ev : LsmCreateView)
  | LsmOpen (k : Kernel) (ev : LsmOpenView)
  | LsmRelease (k : Kernel) (ev : LsmReleaseView)
  | LsmRename (k : Kernel) (ev : LsmRenameView).

Section Machine.
Context `{!Blobs.BlobCodec}.
Implicit Types (rt : Runtime) (ws : WatchState).

Definition helper_step rt (e : Event) : Runtime * list Sent :=
  match e with
  | Watch command => (on_watch_tree rt command, [])
  | PreOpenTree k command cwd => (pre_open_tree k rt command cwd, [])
  | Unwatch command => (on_unwatch_tree rt command, [])
  | Fanotify k ev => handle_event k rt ev
  | LsmUnlink k ev => handle_lsm_unlink k rt ev
  | LsmSetattr k ev => handle_lsm_setattr k rt ev
  | LsmMkdir k ev => handle_lsm_mkdir k rt ev
  | LsmCreate k ev => handle_lsm_create k rt ev
  | LsmOpen k ev => handle_lsm_open k rt ev
  | LsmRelease k ev => handle_lsm_release k rt ev
  | LsmRename k ev => handle_lsm_rename k rt ev
  end.

Fixpoint helper_run rt (evs : list Event) : Runtime * list Sent :=
  match evs with
  | [] => (rt, [])
  | e :: evs' =>
      let '(rt1, out1) := helper_step rt e in
      let '(rt2, out2) := helper_run rt1 evs' in (rt2, out1 ++ out2)
  end.

(** ** Messages agree with their bytes *)

(** A capture comes with the bytes whose length and hash it states, or it is
    the bare report of a removal. *)
Definition message_ok (m : Sent) : Prop :=
  match m.1 with
  | HelperResponse.CapturedPreImage c =>
      match m.2 with
      | Some b => cp_blob_hash c = Blobs.hash_bytes b ∧ cp_stored_bytes c = N.of_nat (length b)
      | None => cp_stored_bytes c = 0%N ∧ cp_is_delete c = true
      end
  | _ => m.2 = None
  end.

Lemma send_ok k ws resp fd : message_ok (resp, fd) → Forall message_ok (send k ws resp fd).2.
Proof. unfold send. intros Hm. destruct (k_sends k resp); simpl; auto. Qed.

Lemma send_mark_ok k ws resp fd key inv :
  message_ok (resp, fd) → Forall message_ok (let '(ws', out) := send k ws resp fd in (mark ws' key inv, out)).2.
Proof. unfold send. intros Hm. destruct (k_sends k resp); simpl; auto. Qed.

Lemma on_watch_ok rt command f :
  (∀ ws, Forall message_ok (f ws).2) → Forall message_ok (on_watch rt command f).2.
Proof. intros Hf. unfold on_watch. specialize (Hf (default default_watch (rt !! command))). by destruct (f _). Qed.

Lemma stage_eq k b staged : write_to_staging k b = Some staged → staged = b.
Proof. unfold write_to_staging. destruct (k_stage k b); congruence. Qed.

Lemma stream_copy_ok k fd cap staged hash n :
  stream_copy_to_staging_path k fd cap = Some (staged, hash, n) →
  hash = Blobs.hash_bytes staged ∧ n = N.of_nat (length staged).
Proof.
  unfold stream_copy_to_staging_path. intros (st & _ & Hx)%bind_Some. case_bool_decide; [done|].
  apply bind_Some in Hx as (src & _ & Hx). destruct (k_stage k _); [|done]. by injection Hx as <- <- <-.
Qed.

Lemma unlink_ok k ws ev : Forall message_ok (handle_lsm_unlink_on k ws ev).2.
Proof.
  unfold handle_lsm_unlink_on. destruct (resolve_via_parent _ _ _ _); [|constructor].
  destruct (take_fd _ _ _ _) as [ws' [fd|]]; [|by apply send_ok].
  destruct (race_won _ _ _ _); [|by apply send_ok].
  unfold unlink_content. destruct (_ || _); [by apply send_ok|].
  destruct (stream_copy_to_staging_path _ _ _) as [[[staged hash] n]|] eqn:Hs; [|by apply send_ok].
  destruct (fstat_meta _ _); [|by apply send_ok]. apply send_ok. by apply stream_copy_ok in Hs as [-> ->].
Qed.

Lemma create_ok k rt command path mode : Forall message_ok (process_lsm_create_resolved k rt command path mode).2.
Proof.
  unfold process_lsm_create_resolved. destruct (default _ _) as [[dev inode] []]; cbn [snd];
    [| constructor | | | constructor];
    (destruct (negb _); [constructor|]; destruct (k_open_nonblock k path); by repeat constructor).
Qed.

Lemma drain_ok k dir l : ∀ rt out, Forall message_ok out → Forall message_ok (foldl (drain_one k dir) (rt, out) l).2.
Proof.
  induction l as [|pc l IH]; intros rt out Ho; [done|]. cbn [foldl]. unfold drain_one at 2.
  pose proof (create_ok k rt (pc_command pc) (join dir (pc_basename pc)) (pc_mode pc)) as Hc.
  destruct (process_lsm_create_resolved _ _ _ _ _) as [rt' out']. apply IH. by apply Forall_app.
Qed.

Ltac by_staging := repeat first
  [ apply send_ok | apply send_mark_ok | constructor
  | match goal with H : write_to_staging _ _ = Some _ |- _ => apply stage_eq in H; subst end
  | case_match ]; simpl; try done.

(** Whatever reaches the helper and whatever the system answers, every message
    it sends agrees with its bytes. *)
Lemma helper_messages_ok rt (e : Event) : Forall message_ok (helper_step rt e).2.
Proof.
  destruct e; cbn [helper_step snd]; try constructor; try (apply on_watch_ok; intros ws).
  - unfold handle_event_on. by_staging.
  - apply unlink_ok.
  - unfold handle_lsm_setattr_on. by_staging.
  - unfold handle_lsm_mkdir. destruct (resolve_via_parent _ _ _ _); [|constructor].
    destruct (if negb _ then _ else _) as [ws drained]. pose proof (send_ok k ws) as Hs.
    match goal with |- context [send k ws ?r None] => specialize (Hs r None eq_refl); destruct (send k ws r None) as [ws' out] end.
    by apply drain_ok.
  - unfold handle_lsm_create. destruct (resolve_via_parent _ _ _ _); [apply create_ok|constructor].
  - unfold handle_lsm_open_on. by_staging.
  - unfold handle_lsm_release_on. by_staging.
  - unfold handle_lsm_rename_on. destruct (resolve_via_parent _ _ _ _); [|constructor].
    destruct (resolve_via_parent _ _ _ _); [|constructor].
    assert (∀ to, Forall message_ok (send_replaced k ws (ln_command ev) to).2) as Hr by (intros; unfold send_replaced; by_staging).
    match goal with |- context [send_replaced k ws _ ?t] => specialize (Hr t); destruct (send_replaced k ws (ln_command ev) t) as [ws1 out1] end.
    pose proof (send_ok k ws1) as Hs.
    match goal with |- context [send k ws1 ?r None] => specialize (Hs r None eq_refl); destruct (send k ws1 r None) as [ws' out] end.
    by apply Forall_app.
Qed.

(** ** A file is captured once *)

(** The message is a capture of the file for the command, of its removal included. *)
Definition captures_file (c : CommandId) (key : Key) (m : Sent) : bool :=
  match m.1 with
  | HelperResponse.CapturedPreImage p =>
      bool_decide (cp_command p = c) && bool_decide ((cp_dev p, cp_inode p) = key)
  | _ => false
  end.

Definition captures (c : CommandId) (key : Key) (out : list Sent) : nat :=
  length (List.filter (captures_file c key) out).

Lemma captures_app c key out out' : captures c key (out ++ out') = captures c key out + captures c key out'.
Proof. unfold captures. by rewrite List.filter_app, length_app. Qed.

(** The file was captured and has not been removed since. *)
Definition seen ws (key : Key) : Prop := dedupe ws !! key = Some (mkDedupe false).

(** From [ws], a step captures the file at most once, remembers it, and does
    not when it remembers one. *)
Definition once_more c (key : Key) ws (r : WatchState * list Sent) : Prop :=
  captures c key r.2 ≤ 1 ∧ (captures c key r.2 = 1 → seen r.1 key)
  ∧ (seen ws key → captures c key r.2 = 0 ∧ seen r.1 key).

(** Nothing of the kind is sent, and what was seen stays seen. *)
Lemma once_quiet c key ws ws' out :
  captures c key out = 0 → (seen ws key → seen ws' key) → once_more c key ws (ws', out).
Proof. intros Hz Hs. unfold once_more. simpl. rewrite Hz. split_and!; auto; lia. Qed.

Lemma once_refl c key ws : once_more c key ws (ws, []).
Proof. by apply once_quiet. Qed.

Lemma captures_one c key m : captures c key [m] = Nat.b2n (captures_file c key m).
Proof. unfold captures. simpl. by destruct (captures_file c key m). Qed.

(** Sending something else changes nothing. *)
Lemma once_send_other k c key ws resp fd :
  captures_file c key (resp, fd) = false → once_more c key ws (send k ws resp fd).
Proof.
  intros Hf. unfold send. destruct (k_sends k resp); apply once_quiet; try done. by rewrite captures_one, Hf.
Qed.

(** The captures by snapshot or descriptor: checked, sent, remembered. *)
Lemma once_send_mark k c key ws resp fd key' :
  should_capture_dedupe (dedupe ws) key' = true →
  (captures_file c key (resp, fd) = true → key' = key) →
  once_more c key ws (let '(ws', out) := send k ws resp fd in (mark ws' key' false, out)).
Proof.
  intros Hsc Hk. assert (seen ws key → key' ≠ key) as Hne.
  { intros Hs ->. unfold should_capture_dedupe in Hsc. by rewrite Hs in Hsc. }
  assert (Hd : dedupe (send k ws resp fd).1 = dedupe ws) by (unfold send; by destruct (k_sends k resp)).
  assert (Hle : captures c key (send k ws resp fd).2 ≤ Nat.b2n (captures_file c key (resp, fd))).
  { unfold send. destruct (k_sends k resp); simpl; [by rewrite captures_one|]. unfold captures. simpl. lia. }
  destruct (send k ws resp fd) as [ws' out]. simpl in *. unfold once_more, seen, mark. simpl. rewrite Hd.
  destruct (captures_file c key (resp, fd)); simpl in Hle.
  - rewrite (Hk eq_refl) in *. split_and!; [lia|intros _; by rewrite lookup_insert_eq|naive_solver].
  - split_and!; [lia|lia|]. intros Hs. split; [lia|]. rewrite lookup_insert_ne; auto.
Qed.

Lemma captures_captured c key command key' path h n post mode uid gid mtime xs del fd :
  captures_file c key (captured command key' path h n post mode uid gid mtime xs del, fd) = true →
  command = c ∧ key' = key.
Proof.
  unfold captures_file, captured. simpl. rewrite !andb_true_iff, !bool_decide_eq_true.
  unfold cp_command. simpl. intros [<- <-]. by destruct command, key'.
Qed.

Ltac by_once := repeat first
  [ apply once_refl
  | apply once_send_mark; [by apply negb_false_iff|by intros (? & ?)%captures_captured]
  | case_match ]; try done.

(** The file a rename replaces, as far as the helper knows. *)
Definition replaced ws (ev : LsmRenameView) : option Key :=
  to ← resolve_via_parent (dir_paths ws) (kernel_dev_to_userspace (ln_dev ev)) (ln_new_parent_inode ev) (ln_new_basename ev);
  path_to_inode ws !! path_of_string to.

(** An event spares the file of the command: it neither ends the watch nor
    reports that the command removed the file, by name or by moving another
    over it. *)
Definition spares (c : CommandId) (key : Key) rt (e : Event) : Prop :=
  match e with
  | Unwatch c' => c' ≠ c
  | LsmUnlink _ ev => lu_command ev = c → (kernel_dev_to_userspace (lu_dev ev), lu_inode ev) ≠ key
  | Fanotify k ev =>
      fe_kind ev = FanotifyCaptureKind.Delete → fe_command ev = c →
      ∀ dev inode t, fstat_dev_inode_kind k (fe_fd ev) = Some (dev, inode, t) → (dev, inode) ≠ key
  | LsmRename _ ev => ln_command ev = c → replaced (default default_watch (rt !! c)) ev ≠ Some key
  | _ => True
  end.

(** Every event of a run does. *)
Fixpoint spared (c : CommandId) (key : Key) rt (evs : list Event) : Prop :=
  match evs with
  | [] => True
  | e :: evs' => spares c key rt e ∧ spared c key (helper_step rt e).1 evs'
  end.

Lemma once_on_watch rt c key command f :
  (command = c → once_more c key (default default_watch (rt !! command)) (f (default default_watch (rt !! command)))) →
  (command ≠ c → captures c key (f (default default_watch (rt !! command))).2 = 0) →
  once_more c key (default default_watch (rt !! c)) 
    (default default_watch ((on_watch rt command f).1 !! c), (on_watch rt command f).2).
Proof.
  intros Hf Hc. unfold on_watch. destruct (f _) as [ws out]. simpl in *.
  destruct (decide (command = c)) as [->|Hne]; [rewrite lookup_insert_eq; by apply Hf|].
  rewrite lookup_insert_ne by done. by apply once_quiet; [apply Hc|].
Qed.

Lemma captures_send k c key ws resp fd :
  captures_file c key (resp, fd) = false → captures c key (send k ws resp fd).2 = 0.
Proof. intros Hf. unfold send. destruct (k_sends k resp); simpl; [by rewrite captures_one, Hf|done]. Qed.

Lemma captures_send_mark k c key ws resp fd key' inv :
  captures_file c key (resp, fd) = false →
  captures c key (let '(ws', out) := send k ws resp fd in (mark ws' key' inv, out)).2 = 0.
Proof. intros Hf%(captures_send k c key ws). by destruct (send k ws resp fd). Qed.

Lemma captured_other c key command key' path h n post mode uid gid mtime xs del fd :
  command ≠ c ∨ key' ≠ key →
  captures_file c key (captured command key' path h n post mode uid gid mtime xs del, fd) = false.
Proof. intros Ho. apply not_true_is_false. intros (? & ?)%captures_captured. naive_solver. Qed.

Ltac by_quiet := repeat first
  [ done | apply captures_send | apply captures_send_mark | apply captured_other; by auto | case_match ].

Lemma seen_mark ws key key' inv : key' ≠ key ∨ inv = false → seen ws key → seen (mark ws key' inv) key.
Proof.
  unfold seen, mark. simpl. intros Hk Hs. destruct (decide (key' = key)) as [->|Hne].
  - rewrite lookup_insert_eq. naive_solver.
  - by rewrite lookup_insert_ne.
Qed.

Lemma send_dedupe k ws resp fd : dedupe (send k ws resp fd).1 = dedupe ws.
Proof. unfold send. by destruct (k_sends k resp). Qed.

(** The same for a file other than the one that is sent. *)
Lemma once_send_other_mark k c key ws resp fd key' inv :
  key' ≠ key → captures_file c key (resp, fd) = false →
  once_more c key ws (let '(ws', out) := send k ws resp fd in (mark ws' key' inv, out)).
Proof.
  intros Hne Hf. pose proof (captures_send k c key ws resp fd Hf) as Hz. pose proof (send_dedupe k ws resp fd) as Hd.
  destruct (send k ws resp fd) as [ws' out]. simpl in *. apply once_quiet; [done|]. intros Hs.
  apply seen_mark; [by left|]. unfold seen. by rewrite Hd.
Qed.

Lemma unlink_once c key k ws (ev : LsmUnlinkView) :
  (lu_command ev = c → (kernel_dev_to_userspace (lu_dev ev), lu_inode ev) ≠ key) →
  lu_command ev = c → once_more c key ws (handle_lsm_unlink_on k ws ev).
Proof.
  intros Hsp Hc. specialize (Hsp Hc). unfold handle_lsm_unlink_on. set (key' := (_, lu_inode ev)) in *.
  assert (∀ ws', (seen ws key → seen ws' key) → once_more c key ws (ws', [])) as Hq by (intros; by apply once_quiet).
  destruct (resolve_via_parent _ _ _ _) as [path|]; [|apply Hq, seen_mark; auto].
  destruct (take_fd k (mark ws key' true) key' (path_of_string path)) as [ws1 fd] eqn:Ht.
  assert (seen ws key → seen ws1 key) as Hs1.
  { intros Hs. assert (dedupe ws1 = dedupe (mark ws key' true)) as Hd by (unfold take_fd in Ht; case_match; by injection Ht as <- _).
    unfold seen. rewrite Hd. apply seen_mark; auto. }
  destruct (match fd with Some f => _ | None => _ end) as [[[n hash] staged] meta].
  match goal with |- context [send k ws1 ?r staged] =>
    pose proof (captures_send k c key ws1 r staged) as Hz; pose proof (send_dedupe k ws1 r staged) as Hd;
    destruct (send k ws1 r staged) as [ws2 out] end.
  apply once_quiet; [apply Hz, captured_other; auto|]. intros Hs. unfold seen. simpl in Hd. rewrite Hd. by apply Hs1.
Qed.

Lemma rename_quiet c key k ws (ev : LsmRenameView) :
  ln_command ev ≠ c ∨ replaced ws ev ≠ Some key →
  captures c key (handle_lsm_rename_on k ws ev).2 = 0
  ∧ dedupe (handle_lsm_rename_on k ws ev).1 = dedupe ws.
Proof.
  unfold handle_lsm_rename_on, replaced. intros Hsp. destruct (resolve_via_parent _ _ _ (ln_old_basename ev)) as [from|]; [|done].
  destruct (resolve_via_parent _ _ _ _) as [to|]; [|done]. cbn [mbind option_bind] in Hsp.
  assert (captures c key (send_replaced k ws (ln_command ev) to).2 = 0
    ∧ dedupe (send_replaced k ws (ln_command ev) to).1 = dedupe ws) as [H1 H2].
  { unfold send_replaced. destruct (path_to_inode ws !! path_of_string to) as [old|]; [|done]. repeat case_match; try done.
    split; [|apply send_dedupe]. apply captures_send, captured_other. destruct Hsp; [by left|right; congruence]. }
  destruct (send_replaced k ws (ln_command ev) to) as [ws1 out1]. simpl in *.
  match goal with |- context [send k ws1 ?r None] =>
    pose proof (captures_send k c key ws1 r None eq_refl) as Hz; pose proof (send_dedupe k ws1 r None) as Hd;
    destruct (send k ws1 r None) as [ws2 out] end.
  simpl in *. rewrite captures_app. split; [lia|congruence].
Qed.

(** Creation marks files as seen and captures none. *)
Lemma create_once c key k rt command path mode :
  let r := process_lsm_create_resolved k rt command path mode in
  captures c key r.2 = 0
  ∧ (seen (default default_watch (rt !! c)) key → seen (default default_watch (r.1 !! c)) key).
Proof.
  cbn zeta. unfold process_lsm_create_resolved. destruct (default _ _) as [[dev inode] ft] eqn:Hd.
  assert (∀ f rt', (∀ ws, dedupe (f ws) = dedupe ws) → rt' = alter f command rt →
    seen (default default_watch (rt !! c)) key → seen (default default_watch (rt' !! c)) key) as Halt.
  { intros f rt' Hf -> Hs. destruct (decide (command = c)) as [->|Hne].
    - rewrite lookup_alter_eq. destruct (rt !! c) as [ws|]; [|done]. unfold seen in *. simpl in *. by rewrite Hf.
    - by rewrite lookup_alter_ne. }
  set (resp := HelperResponse.TreeMutation _ _ _ _).
  destruct ft; try done; (destruct (negb _); [split; [done|by apply (Halt note_silent_send_failure)]|]);
    (destruct (k_open_nonblock k path) as [f|]; [|by split]); split; try done; cbn [fst];
    intros Hs; (destruct (decide (command = c)) as [->|Hne]; [rewrite lookup_insert_eq|by rewrite lookup_insert_ne]);
    simpl; apply seen_mark; auto; unfold seen in *; simpl; repeat case_match; exact Hs.
Qed.

Lemma drain_once c key k dir l : ∀ rt out,
  captures c key out = 0 →
  let r := foldl (drain_one k dir) (rt, out) l in
  captures c key r.2 = 0
  ∧ (seen (default default_watch (rt !! c)) key → seen (default default_watch (r.1 !! c)) key).
Proof.
  induction l as [|pc l IH]; intros rt out Ho; [done|]. cbn zeta. cbn [foldl]. unfold drain_one at 2 4.
  destruct (create_once c key k rt (pc_command pc) (join dir (pc_basename pc)) (pc_mode pc)) as [H1 H2].
  destruct (process_lsm_create_resolved _ _ _ _ _) as [rt' out']. simpl in *.
  destruct (IH rt' (out ++ out')) as [H3 H4]; [by rewrite captures_app, Ho, H1|]. split; [done|]. auto.
Qed.

(** What the walk does not touch: the memory and the creates that wait. *)
Definition kept ws := (dedupe ws, pending_creates ws).

Lemma hold_path_kept k ws path key : kept (hold_path k ws path key) = kept ws.
Proof. unfold hold_path. by destruct (k_open_path k path). Qed.

Lemma pre_open_kept k levels : ∀ root_dev dir po,
  kept (po_ws (pre_open_recurse k levels root_dev dir po)) = kept (po_ws po).
Proof.
  induction levels as [|levels IH]; intros root_dev dir po; [done|]. cbn [pre_open_recurse].
  case_bool_decide as Hcap; [done|]. destruct (k_read_dir k dir) as [names|]; [|done]. clear Hcap.
  assert (∀ po name, kept (po_ws (pre_open_entry k (pre_open_recurse k levels root_dev) dir root_dev po name))
    = kept (po_ws po)) as He.
  { intros po' name. unfold pre_open_entry. case_bool_decide; [done|]. destruct (k_lstat k _) as [st|]; [|done].
    destruct (file_type_of_mode _).
    - unfold pre_open_file. by repeat case_match.
    - destruct (negb _); [done|]. rewrite IH. cbn [po_ws]. by rewrite hold_path_kept.
    - cbn [po_ws]. by rewrite hold_path_kept.
    - cbn [po_ws]. by rewrite hold_path_kept.
    - done. }
  revert po. induction names as [|name names IHn]; intros po; [done|]. cbn [foldl]. by rewrite IHn, He.
Qed.

Lemma pre_open_dedupe k levels root_dev dir po :
  dedupe (po_ws (pre_open_recurse k levels root_dev dir po)) = dedupe (po_ws po).
Proof. by pose proof (f_equal fst (pre_open_kept k levels root_dev dir po)). Qed.

Lemma pre_open_pending k levels root_dev dir po :
  pending_creates (po_ws (pre_open_recurse k levels root_dev dir po)) = pending_creates (po_ws po).
Proof. by pose proof (f_equal snd (pre_open_kept k levels root_dev dir po)). Qed.

Lemma pre_open_tree_seen k rt command cwd c key :
  seen (default default_watch (rt !! c)) key →
  seen (default default_watch (pre_open_tree k rt command cwd !! c)) key.
Proof.
  intros Hs. unfold pre_open_tree. destruct (decide (command = c)) as [->|Hne].
  - destruct (k_stat k cwd); rewrite lookup_insert_eq; [|exact Hs]. unfold seen. cbn [from_option]. unfold id.
    by rewrite pre_open_dedupe.
  - destruct (k_stat k cwd); by rewrite lookup_insert_ne.
Qed.

(** A state with the same memory, in place of the old one. *)
Lemma seen_insert rt c key command ws :
  dedupe ws = dedupe (default default_watch (rt !! command)) →
  seen (default default_watch (rt !! c)) key → seen (default default_watch (<[command := ws]> rt !! c)) key.
Proof.
  intros Hd Hs. destruct (decide (command = c)) as [->|Hne]; [rewrite lookup_insert_eq|by rewrite lookup_insert_ne].
  unfold seen in *. simpl. by rewrite Hd.
Qed.

Lemma mkdir_once c key k rt (ev : LsmMkdirView) :
  once_more c key (default default_watch (rt !! c))
    (default default_watch ((handle_lsm_mkdir k rt ev).1 !! c), (handle_lsm_mkdir k rt ev).2).
Proof.
  unfold handle_lsm_mkdir. destruct (resolve_via_parent _ _ _ _) as [path|];
    [|apply once_quiet; [done|by apply seen_insert]].
  destruct (if negb _ then _ else _) as [ws drained] eqn:Hw.
  assert (dedupe ws = dedupe (default default_watch (rt !! lm_command ev))) as Hd
    by (destruct (negb _) in Hw; by injection Hw as <- _).
  match goal with |- context [send k ws ?r None] =>
    pose proof (captures_send k c key ws r None eq_refl) as Hz; pose proof (send_dedupe k ws r None) as Hd';
    destruct (send k ws r None) as [ws2 out] end. simpl in Hz, Hd'.
  destruct (drain_once c key k (path_of_string path) drained (<[lm_command ev := ws2]> rt) out Hz) as [H1 H2].
  apply once_quiet; [exact H1|]. intros Hs. apply H2, seen_insert; [congruence|done].
Qed.

Lemma create_event_once c key k rt (ev : LsmCreateView) :
  once_more c key (default default_watch (rt !! c))
    (default default_watch ((handle_lsm_create k rt ev).1 !! c), (handle_lsm_create k rt ev).2).
Proof.
  unfold handle_lsm_create. destruct (resolve_via_parent _ _ _ _) as [path|];
    [|apply once_quiet; [done|by apply seen_insert]].
  destruct (create_once c key k (<[lc_command ev := default default_watch (rt !! lc_command ev)]> rt) (lc_command ev)
    (path_of_string path) (lc_mode ev)) as [H1 H2].
  apply once_quiet; [exact H1|]. intros Hs. by apply H2, seen_insert.
Qed.

Lemma helper_step_once c key rt (e : Event) :
  spares c key rt e →
  once_more c key (default default_watch (rt !! c))
    (default default_watch ((helper_step rt e).1 !! c), (helper_step rt e).2).
Proof.
  intros Hsp. destruct e; cbn [helper_step fst snd].
  - apply once_quiet; [done|]. unfold on_watch_tree. destruct (decide (command = c)) as [->|Hne].
    + by rewrite lookup_insert_eq.
    + by rewrite lookup_insert_ne.
  - apply once_quiet; [done|]. apply pre_open_tree_seen.
  - apply once_quiet; [done|]. unfold on_unwatch_tree. by rewrite lookup_delete_ne.
  - simpl in Hsp. apply once_on_watch; intros Hc; unfold handle_event_on; [|by_quiet].
    destruct (fstat_dev_inode_kind _ _) as [[[dev inode] t]|] eqn:Hst; [|apply once_refl].
    destruct (negb (bool_decide _)); [apply once_refl|].
    destruct (fe_kind ev) eqn:Hk; cbn [negb andb]; [by_once..|].
    assert ((dev, inode) ≠ key) as Hne by (by eapply Hsp).
    destruct (read_pre_image _ _); [|apply once_refl]. destruct (fstat_meta _ _); [|apply once_refl].
    destruct (write_to_staging _ _); [|apply once_refl]. apply once_send_other_mark; [done|]. by apply captured_other; right.
  - apply once_on_watch; intros Hc; [by apply unlink_once|].
    unfold handle_lsm_unlink_on. destruct (resolve_via_parent _ _ _ _); [|done].
    destruct (take_fd _ _ _ _) as [ws1 fd]. destruct (match fd with Some f => _ | None => _ end) as [[[n hash] staged] meta].
    by_quiet.
  - apply once_on_watch; intros Hc; unfold handle_lsm_setattr_on; [|by_quiet].
    destruct (negb _) eqn:Hn; [apply once_refl|]. destruct (pre_snapshots _ !! _); [|apply once_quiet; [done|]; apply seen_mark; auto].
    by_once.
  - apply mkdir_once.
  - apply create_event_once.
  - apply once_on_watch; intros Hc; unfold handle_lsm_open_on; [by_once|by_quiet].
  - apply once_on_watch; intros Hc; unfold handle_lsm_release_on; [by_once|by_quiet].
  - apply once_on_watch; intros Hc; [|apply rename_quiet; by left]. simpl in Hsp. rewrite Hc.
    destruct (rename_quiet c key k (default default_watch (rt !! c)) ev ltac:(auto)) as [Hz Hd].
    destruct (handle_lsm_rename_on _ _ _) as [ws' out]. apply once_quiet; [done|]. unfold seen. simpl in Hd. by rewrite Hd.
Qed.

(** C6. The first capture of a file is the only one: between the watch of a command
    and its end, whatever events arrive in whatever order and whatever the
    system answers, a file is captured for the command at most once (by its
    content, or as gone), as long as none of them reports that the command
    removed it, by its name or by moving another file over it. *)
Theorem captured_once c key rt (evs : list Event) :
  spared c key rt evs → captures c key (helper_run rt evs).2 ≤ 1.
Proof.
  intros Hsp. assert (once_more c key (default default_watch (rt !! c))
    (default default_watch ((helper_run rt evs).1 !! c), (helper_run rt evs).2)) as [Hle _]; [|exact Hle].
  revert rt Hsp. induction evs as [|e evs IH]; intros rt Hsp; [apply once_refl|]. cbn [helper_run].
  destruct Hsp as [He Hsp]. pose proof (helper_step_once c key rt e He) as (A1 & A2 & A3).
  destruct (helper_step rt e) as [rt1 out1]. destruct (IH rt1 Hsp) as (B1 & B2 & B3).
  destruct (helper_run rt1 evs) as [rt2 out2]. simpl in *. unfold once_more. simpl. rewrite captures_app.
  destruct (decide (captures c key out1 = 0)) as [Hz|Hnz].
  - rewrite Hz. split_and!; [lia|intros; apply B2; lia|]. intros Hs. destruct (A3 Hs) as [_ Hs1]. by apply B3.
  - destruct (B3 (A2 ltac:(lia))) as [Hz2 Hs2]. rewrite Hz2. split_and!; [lia|done|]. intros Hs. by destruct (A3 Hs).
Qed.

End Machine.

(** ** Watching a directory *)

Definition type_of_kind (kd : FileKind) : FileType :=
  match kd with
  | FileKind.Regular => FileType.Regular | FileKind.Directory => FileType.Directory
  | FileKind.Fifo => FileType.Fifo | FileKind.Socket => FileType.Socket | _ => FileType.Other
  end.

Lemma file_type_of_kind (kd : FileKind) (mode : N) :
  (mode < 4096)%N → file_type_of_mode (N.lor (Fs.kind_bits kd) mode) = type_of_kind kd.
Proof.
  intros Hm. unfold file_type_of_mode. rewrite N.land_lor_distr_l.
  assert (N.land mode 0xF000 = 0%N) as ->.
  { change 0xF000%N with (N.shiftl (N.ones 4) 12). apply N.bits_inj. intros i. rewrite N.land_spec, N.bits_0.
    destruct (N.lt_ge_cases i 12) as [Hi|Hi]; [by rewrite N.shiftl_spec_low, andb_false_r|].
    rewrite <- (N.mod_small mode (2 ^ 12)), N.mod_pow2_bits_high; done. }
  rewrite N.lor_0_r. by destruct kd.
Qed.

(** The answer of [stat] on a file. *)
Record raw_shows (dev i : N) (n : Fs.Inode) (st : RawStat) : Prop := {
  rw_dev : st_dev st = dev;
  rw_ino : st_ino st = i;
  rw_mode : st_mode st = N.lor (Fs.kind_bits (Fs.in_kind n)) (Fs.in_mode n);
  rw_uid : st_uid st = Fs.in_uid n;
  rw_gid : st_gid st = Fs.in_gid n;
  rw_size : st_size st = N.of_nat (length (Fs.in_data n));
  rw_mtime : (st_mtime st * 1000000000 + st_mtime_nsec st = Fs.in_mtime n)%Z;
}.

(** What a descriptor shows of the file it holds. *)
Record fd_shows (k : Kernel) (fd : Fd) (dev i : N) (n : Fs.Inode) : Prop := {
  fs_stat : ∃ st, k_fstat k fd = Some st ∧ raw_shows dev i n st;
  fs_read b : fd_path_only fd = false → k_read k fd = Some b → b = Fs.in_data n;
  fs_xattrs : k_user_xattrs k fd = Fs.in_xattrs n;
}.

(** The system answers from a file system; opening may be denied. *)
Record kernel_shows (k : Kernel) (fs : Fs.FS) : Prop := {
  ks_mode i n : Fs.inodes fs !! i = Some n → (Fs.in_mode n < 4096)%N;
  ks_lstat p st : k_lstat k p = Some st → ∃ i n, Fs.find fs p = Some (i, n) ∧ raw_shows (Fs.device fs) i n st;
  ks_stat p st i n : k_stat k p = Some st → Fs.find fs p = Some (i, n) → Fs.in_kind n ≠ FileKind.Symlink →
    raw_shows (Fs.device fs) i n st;
  ks_open p fd : k_open k p = Some fd → ∃ i n, Fs.find fs p = Some (i, n) ∧ fd = mkFd (Fs.device fs, i) false;
  ks_open_path p fd : k_open_path k p = Some fd → ∃ i n, Fs.find fs p = Some (i, n) ∧ fd = mkFd (Fs.device fs, i) true;
  ks_fd fd i n : fd_key fd = (Fs.device fs, i) → Fs.inodes fs !! i = Some n → fd_shows k fd (Fs.device fs) i n;
}.

Lemma find_inode (fs : Fs.FS) (p : PathBuf) (i : N) (n : Fs.Inode) :
  Fs.find fs p = Some (i, n) → Fs.inodes fs !! i = Some n.
Proof.
  unfold Fs.find. intros (j & _ & (m & Hm & [= <- <-])%bind_Some)%bind_Some. done.
Qed.

Definition snapshot_of (n : Fs.Inode) : PreSnapshot :=
  mkSnapshot (mkStatMeta (N.lor (Fs.kind_bits (Fs.in_kind n)) (Fs.in_mode n)) (Fs.in_uid n) (Fs.in_gid n)
    (N.of_nat (length (Fs.in_data n))) (Fs.in_mtime n) (Fs.in_xattrs n)) (Fs.in_data n).

Section Tree.
Context (k : Kernel) (fs : Fs.FS) (Hk : kernel_shows k fs).
Implicit Types ws : WatchState.

Abbreviation dev := (Fs.device fs).

(** The helper's picture of the directory is true. *)
Record faithful ws : Prop := {
  fa_open key fd : pre_opens ws !! key = Some fd → fd_key fd = key ∧ key.1 = dev
    ∧ ∃ n, Fs.inodes fs !! key.2 = Some n ∧ (Fs.in_kind n = FileKind.Regular → fd_path_only fd = false);
  fa_snapshot key snap : pre_snapshots ws !! key = Some snap → key.1 = dev
    ∧ ∃ n, Fs.inodes fs !! key.2 = Some n ∧ Fs.in_kind n = FileKind.Regular ∧ snap = snapshot_of n;
  fa_dir key p : dir_paths ws !! key = Some p → key.1 = dev
    ∧ ∃ n, Fs.find fs p = Some (key.2, n) ∧ Fs.in_kind n = FileKind.Directory;
  fa_path p key : path_to_inode ws !! p = Some key → key.1 = dev ∧ ∃ n, Fs.find fs p = Some (key.2, n);
}.

Record grows ws ws' : Prop := {
  gr_open key : is_Some (pre_opens ws !! key) → is_Some (pre_opens ws' !! key);
  gr_snapshot key : is_Some (pre_snapshots ws !! key) → is_Some (pre_snapshots ws' !! key);
  gr_dir key : is_Some (dir_paths ws !! key) → is_Some (dir_paths ws' !! key);
}.

Lemma grows_refl ws : grows ws ws.
Proof. by split. Qed.

Lemma grows_trans ws1 ws2 ws3 : grows ws1 ws2 → grows ws2 ws3 → grows ws1 ws3.
Proof. intros [] []. split; auto. Qed.

Lemma insert_is_Some {A} (m : gmap Key A) (key key' : Key) (x : A) :
  is_Some (m !! key) → is_Some (<[key' := x]> m !! key).
Proof. destruct (decide (key' = key)) as [->|Hne]; [rewrite lookup_insert_eq; by eexists|by rewrite lookup_insert_ne]. Qed.

Lemma fd_meta fd i n :
  fd_shows k fd dev i n → fstat_meta k fd = Some (ps_meta (snapshot_of n)).
Proof.
  intros [(st & Hst & Hr) _ Hx]. unfold fstat_meta. rewrite Hst. simpl. destruct Hr. by rewrite Hx, rw_mode0, rw_uid0, rw_gid0, rw_size0, rw_mtime0.
Qed.

Lemma fd_kind fd i n :
  Fs.inodes fs !! i = Some n → fd_shows k fd dev i n →
  fstat_dev_inode_kind k fd = Some (dev, i, type_of_kind (Fs.in_kind n)).
Proof.
  intros Hn [(st & Hst & Hr) _ _]. unfold fstat_dev_inode_kind. rewrite Hst. simpl.
  rewrite (rw_dev _ _ _ _ Hr), (rw_ino _ _ _ _ Hr), (rw_mode _ _ _ _ Hr).
  by rewrite file_type_of_kind by (by eapply ks_mode).
Qed.

(** ** The walk *)

Lemma hold_faithful ws path i n fd :
  faithful ws → Fs.find fs path = Some (i, n) → fd_key fd = (dev, i) →
  (Fs.in_kind n = FileKind.Regular → fd_path_only fd = false) →
  faithful (hold ws path (dev, i) fd).
Proof.
  intros [H1 H2 H3 H4] Hf Hfd Hp. split; cbn; [|exact H2|exact H3|].
  - intros key fd' [[<- <-]|[_ Hl]]%lookup_insert_Some; [|by apply H1].
    split_and!; [done..|]. exists n. split; [by eapply find_inode|done].
  - intros q key [[<- <-]|[_ Hl]]%lookup_insert_Some; [|by apply H4]. split; [done|by eexists].
Qed.

Lemma hold_grows ws path key fd : grows ws (hold ws path key fd).
Proof. split; cbn; auto using insert_is_Some. Qed.

Lemma hold_path_faithful ws path i n :
  faithful ws → Fs.find fs path = Some (i, n) → Fs.in_kind n ≠ FileKind.Regular →
  faithful (hold_path k ws path (dev, i)).
Proof.
  intros Hw Hf Hne. unfold hold_path. destruct (k_open_path k path) as [fd|] eqn:Ho; [|done].
  apply (ks_open_path _ _ Hk) in Ho as (i' & n' & Hf' & ->). rewrite Hf in Hf'. injection Hf' as <- <-.
  by eapply hold_faithful.
Qed.

Lemma hold_path_grows ws path key : grows ws (hold_path k ws path key).
Proof. unfold hold_path. destruct (k_open_path k path); [apply hold_grows|apply grows_refl]. Qed.

Lemma dir_faithful ws path i n :
  faithful ws → Fs.find fs path = Some (i, n) → Fs.in_kind n = FileKind.Directory →
  faithful (set_dir_paths ws (<[(dev, i) := path]> (dir_paths ws))).
Proof.
  intros [H1 H2 H3 H4] Hf Hd. split; cbn; [exact H1|exact H2| |exact H4].
  intros key q [[<- <-]|[_ Hl]]%lookup_insert_Some; [|by apply H3]. split; [done|by eexists].
Qed.

Lemma snapshot_faithful ws i n :
  faithful ws → Fs.inodes fs !! i = Some n → Fs.in_kind n = FileKind.Regular →
  faithful (set_snapshots ws (<[(dev, i) := snapshot_of n]> (pre_snapshots ws))).
Proof.
  intros [H1 H2 H3 H4] Hf Hd. split; cbn; [exact H1| |exact H3|exact H4].
  intros key q [[<- <-]|[_ Hl]]%lookup_insert_Some; [|by apply H2]. split; [done|by eexists].
Qed.

(** The walk goes from one state to another: the picture stays true, nothing
    held is let go, and a cap hit is remembered. *)
Record walked (po po' : PreOpen) : Prop := {
  wk_faithful : faithful (po_ws po) → faithful (po_ws po');
  wk_grows : grows (po_ws po) (po_ws po');
  wk_cap : po_hit_cap po = true → po_hit_cap po' = true;
}.

Lemma walked_refl po : walked po po.
Proof. split; auto using grows_refl. Qed.

Lemma walked_trans po1 po2 po3 : walked po1 po2 → walked po2 po3 → walked po1 po3.
Proof. intros [] []. split; eauto using grows_trans. Qed.

Lemma walked_capped po : walked po (mkPreOpen (po_ws po) (po_opened po) true).
Proof. split; auto using grows_refl. Qed.

Lemma walked_foldl (f : PreOpen → string → PreOpen) (l : list string) :
  (∀ po x, walked po (f po x)) → ∀ po, walked po (foldl f po l).
Proof.
  intros Hf. induction l as [|x l IH]; intros po; [apply walked_refl|]. simpl. eapply walked_trans; [apply Hf|apply IH].
Qed.

Lemma pre_open_file_open po path fd i n :
  k_open k path = Some fd → Fs.find fs path = Some (i, n) → Fs.in_kind n = FileKind.Regular →
  pre_open_file k po path = mkPreOpen (hold (match read_pre_image k fd with
    | Some _ => set_snapshots (po_ws po) (<[(dev, i) := snapshot_of n]> (pre_snapshots (po_ws po)))
    | None => po_ws po end) path (dev, i) fd) (S (po_opened po)) (po_hit_cap po).
Proof.
  intros Ho Hf Hr. unfold pre_open_file. rewrite Ho. pose proof (find_inode _ _ _ _ Hf) as Hn.
  destruct (ks_open _ _ Hk _ _ Ho) as (i' & n' & Hf' & ->). rewrite Hf in Hf'. injection Hf' as <- <-.
  pose proof (ks_fd _ _ Hk (mkFd (dev, i) false) i n eq_refl Hn) as Hs.
  rewrite (fd_kind _ i n Hn Hs), Hr. cbn [type_of_kind]. rewrite (fd_meta _ i n Hs).
  destruct (read_pre_image k _) as [b|] eqn:Hb; [|done].
  unfold read_pre_image in Hb. apply bind_Some in Hb as (st & _ & Hb). case_bool_decide; [done|].
  apply (fs_read _ _ _ _ _ Hs) in Hb as ->; done.
Qed.

Lemma pre_open_file_walked po path : walked po (pre_open_file k po path).
Proof.
  destruct (k_open k path) as [fd|] eqn:Ho; [|unfold pre_open_file; rewrite Ho; apply walked_refl].
  destruct (ks_open _ _ Hk _ _ Ho) as (i & n & Hf & Hfd). pose proof (find_inode _ _ _ _ Hf) as Hn.
  destruct (decide (Fs.in_kind n = FileKind.Regular)) as [Hr|Hr].
  - rewrite (pre_open_file_open po path fd i n Ho Hf Hr). split; cbn [po_ws po_hit_cap]; [| |done].
    + intros Hw. eapply hold_faithful; [|exact Hf|by subst|by subst].
      destruct (read_pre_image k fd); [by apply snapshot_faithful|done].
    + eapply grows_trans; [|apply hold_grows]. destruct (read_pre_image k fd); [|apply grows_refl].
      split; cbn; auto using insert_is_Some.
  - unfold pre_open_file. rewrite Ho. pose proof (ks_fd _ _ Hk fd i n ltac:(by subst) Hn) as Hs.
    rewrite (fd_kind _ i n Hn Hs). destruct (Fs.in_kind n); try done; apply walked_refl.
Qed.

Lemma type_of_stat path st i n :
  Fs.find fs path = Some (i, n) → raw_shows dev i n st →
  file_type_of_mode (st_mode st) = type_of_kind (Fs.in_kind n).
Proof.
  intros Hf Hr. rewrite (rw_mode _ _ _ _ Hr). apply file_type_of_kind. eapply ks_mode; [done|by eapply find_inode].
Qed.

(** What an entry that is a directory adds before the descent. *)
Definition entered (po : PreOpen) (path : PathBuf) (i : N) : PreOpen :=
  mkPreOpen (hold_path k (set_dir_paths (po_ws po) (<[(dev, i) := path]> (dir_paths (po_ws po)))) path (dev, i))
    (po_opened po) (po_hit_cap po).

Lemma entered_walked po path i n :
  Fs.find fs path = Some (i, n) → Fs.in_kind n = FileKind.Directory → walked po (entered po path i).
Proof.
  intros Hf Hd. split; cbn [entered po_ws po_hit_cap]; [| |done].
  - intros Hw. eapply hold_path_faithful; [by eapply dir_faithful|done|congruence].
  - eapply grows_trans; [|apply hold_path_grows]. split; cbn; auto using insert_is_Some.
Qed.

Lemma pre_open_entry_walked descend dir root_dev po name :
  (∀ path po, walked po (descend path po)) → walked po (pre_open_entry k descend dir root_dev po name).
Proof.
  intros Hd. unfold pre_open_entry. case_bool_decide; [apply walked_capped|].
  destruct (k_lstat k (join dir name)) as [st|] eqn:Hl; [|apply walked_refl].
  destruct (ks_lstat _ _ Hk _ _ Hl) as (i & n & Hf & Hr).
  rewrite (type_of_stat _ _ _ _ Hf Hr), (rw_dev _ _ _ _ Hr), (rw_ino _ _ _ _ Hr).
  destruct (Fs.in_kind n) eqn:Hkn; cbn [type_of_kind];
    [apply pre_open_file_walked| |apply walked_refl| | |apply walked_refl..].
  - destruct (negb _); [apply walked_refl|]. eapply walked_trans; [|apply Hd]. by eapply entered_walked.
  - split; cbn [po_ws po_hit_cap]; [intros Hw; eapply hold_path_faithful; [done..|congruence]|apply hold_path_grows|done].
  - split; cbn [po_ws po_hit_cap]; [intros Hw; eapply hold_path_faithful; [done..|congruence]|apply hold_path_grows|done].
Qed.

Lemma pre_open_recurse_walked levels : ∀ root_dev dir po, walked po (pre_open_recurse k levels root_dev dir po).
Proof.
  induction levels as [|levels IH]; intros root_dev dir po; [apply walked_refl|]. cbn [pre_open_recurse].
  case_bool_decide; [apply walked_capped|]. destruct (k_read_dir k dir); [|apply walked_refl].
  apply walked_foldl. intros po' name. apply pre_open_entry_walked. intros. apply IH.
Qed.

(** ** What the walk reaches *)

(** A directory that the walk from [dir] enters, so many levels being left. *)
Inductive reached : nat → PathBuf → PathBuf → Prop :=
  | reached_here levels dir : reached (S levels) dir dir
  | reached_below levels dir names sub i n q :
      k_read_dir k dir = Some names → sub ∈ names → is_Some (k_lstat k (join dir sub)) →
      Fs.find fs (join dir sub) = Some (i, n) → Fs.in_kind n = FileKind.Directory →
      reached levels (join dir sub) q → reached (S levels) dir q.

(** A file the helper may read, at its path. *)
Record readable (path : PathBuf) (i : N) (n : Fs.Inode) : Prop := {
  rd_find : Fs.find fs path = Some (i, n);
  rd_kind : Fs.in_kind n = FileKind.Regular;
  rd_size : (N.of_nat (length (Fs.in_data n)) ≤ MAX_PRE_IMAGE_BYTES)%N;
  rd_lstat : is_Some (k_lstat k path);
  rd_open : ∃ fd, k_open k path = Some fd ∧ is_Some (k_read k fd);
}.

(** The helper has the file open and its content read. *)
Definition held_open ws (i : N) : Prop :=
  is_Some (pre_opens ws !! (dev, i)) ∧ is_Some (pre_snapshots ws !! (dev, i)).

Lemma held_grows ws ws' i : grows ws ws' → held_open ws i → held_open ws' i.
Proof. intros [] []. split; auto. Qed.

(** Under the cap, the walk of an element of a list has what its entry added. *)
Lemma foldl_reaches (f : PreOpen → string → PreOpen) (Q : WatchState → Prop) (l : list string) (x : string) :
  (∀ po y, walked po (f po y)) → (∀ ws ws', grows ws ws' → Q ws → Q ws') →
  (∀ po, po_hit_cap (f po x) = false → Q (po_ws (f po x))) → x ∈ l →
  ∀ po, po_hit_cap (foldl f po l) = false → Q (po_ws (foldl f po l)).
Proof.
  intros Hf Hg Hx. induction l as [|y l IH]; [by intros ?%not_elem_of_nil|].
  intros [<-|Hin]%elem_of_cons po Hc; [|by apply (IH Hin)]. cbn [foldl] in *. pose proof (walked_foldl f l Hf (f po x)) as [_ Hgr Hcap].
  eapply Hg; [exact Hgr|]. apply Hx. destruct (po_hit_cap (f po x)); [by rewrite Hcap in Hc|done].
Qed.

Lemma pre_open_file_held po path i n : readable path i n → held_open (po_ws (pre_open_file k po path)) i.
Proof.
  intros [Hf Hr Hsz _ (fd & Ho & b & Hb)]. rewrite (pre_open_file_open po path fd i n Ho Hf Hr).
  destruct (ks_open _ _ Hk _ _ Ho) as (i' & n' & Hf' & ->). rewrite Hf in Hf'. injection Hf' as <- <-.
  pose proof (ks_fd _ _ Hk (mkFd (dev, i) false) i n eq_refl (find_inode _ _ _ _ Hf)) as [(st & Hst & Hs) _ _].
  unfold read_pre_image. rewrite Hst. cbn. rewrite (rw_size _ _ _ _ Hs), bool_decide_eq_false_2 by lia.
  rewrite Hb. unfold held_open. cbn. rewrite !lookup_insert_eq. eauto.
Qed.

Lemma pre_open_entry_held descend dir root_dev po name i n :
  (∀ path po, walked po (descend path po)) → readable (join dir name) i n →
  po_hit_cap (pre_open_entry k descend dir root_dev po name) = false →
  held_open (po_ws (pre_open_entry k descend dir root_dev po name)) i.
Proof.
  intros Hd Hrd. unfold pre_open_entry. case_bool_decide; [done|]. intros _. pose proof Hrd as [Hf Hr _ [st Hl] _].
  rewrite Hl. destruct (ks_lstat _ _ Hk _ _ Hl) as (i' & n' & Hf' & Hst).
  rewrite Hf in Hf'. injection Hf' as <- <-. rewrite (type_of_stat _ _ _ _ Hf Hst), Hr.
  by eapply pre_open_file_held.
Qed.

Lemma pre_open_entry_enters descend dir po name i n :
  is_Some (k_lstat k (join dir name)) → Fs.find fs (join dir name) = Some (i, n) →
  Fs.in_kind n = FileKind.Directory →
  po_hit_cap (pre_open_entry k descend dir dev po name) = false →
  pre_open_entry k descend dir dev po name = descend (join dir name) (entered po (join dir name) i).
Proof.
  intros [st Hl] Hf Hd. unfold pre_open_entry. case_bool_decide; [done|]. intros _. rewrite Hl.
  destruct (ks_lstat _ _ Hk _ _ Hl) as (i' & n' & Hf' & Hst). rewrite Hf in Hf'. injection Hf' as <- <-.
  rewrite (type_of_stat _ _ _ _ Hf Hst), (rw_dev _ _ _ _ Hst), (rw_ino _ _ _ _ Hst), Hd. cbn [type_of_kind].
  by rewrite bool_decide_eq_true_2.
Qed.

(** The directory is known by its own number. *)
Definition known ws (p : PathBuf) : Prop :=
  ∃ i n, Fs.find fs p = Some (i, n) ∧ is_Some (dir_paths ws !! (dev, i)).

Lemma known_grows ws ws' p : grows ws ws' → known ws p → known ws' p.
Proof. intros [_ _ Hg] (i & n & Hf & Hs). exists i, n. auto. Qed.

Lemma entered_known po path i n :
  Fs.find fs path = Some (i, n) → known (po_ws (entered po path i)) path.
Proof.
  intros Hf. exists i, n. split; [done|]. apply (gr_dir _ _ (hold_path_grows _ _ _)). cbn. rewrite lookup_insert_eq. eauto.
Qed.

(** Every readable file of a directory that was reached is held, and the
    directory known. *)
Lemma pre_open_recurse_reached levels dir q :
  reached levels dir q → ∀ po names name i n,
  known (po_ws po) dir → k_read_dir k q = Some names → name ∈ names → readable (join q name) i n →
  po_hit_cap (pre_open_recurse k levels dev dir po) = false →
  known (po_ws (pre_open_recurse k levels dev dir po)) q ∧ held_open (po_ws (pre_open_recurse k levels dev dir po)) i.
Proof.
  induction 1 as [levels dir|levels dir names' sub i' n' q Hrd Hsub Hst Hf Hd _ IH];
    intros po names name i n Hkn Hnames Hname Hr Hc.
  - split; [by eapply known_grows; [apply pre_open_recurse_walked|]|].
    cbn [pre_open_recurse] in *. case_bool_decide; [done|]. rewrite Hnames in *.
    eapply (foldl_reaches _ (λ ws, held_open ws i)); [| |intros po'; eapply pre_open_entry_held|exact Hname|exact Hc].
    + intros. apply pre_open_entry_walked. intros. apply pre_open_recurse_walked.
    + intros ws ws'. apply held_grows.
    + intros. apply pre_open_recurse_walked.
    + done.
  - cbn [pre_open_recurse] in *. case_bool_decide; [done|]. rewrite Hrd in *.
    eapply (foldl_reaches _ (λ ws, known ws q ∧ held_open ws i) names' sub); [| |intros po' Hc'|exact Hsub|exact Hc].
    + intros. apply pre_open_entry_walked. intros. apply pre_open_recurse_walked.
    + intros ws ws' Hg [H1 H2]. split; [by eapply known_grows|by eapply held_grows].
    + pose proof (pre_open_entry_enters _ _ _ _ _ _ Hst Hf Hd Hc') as He. rewrite He in *.
      eapply IH; [by eapply entered_known|done..].
Qed.

Lemma default_faithful : faithful default_watch.
Proof. by split. Qed.

(** A directory has one name. *)
Definition one_name : Prop :=
  ∀ p q i n, Fs.find fs p = Some (i, n) → Fs.find fs q = Some (i, n) → Fs.in_kind n = FileKind.Directory → p = q.

(** The state the walk starts from, and its result. *)
Definition watch_walk ws (cwd : PathBuf) : PreOpen :=
  let ws := set_watch_cwd ws (Some cwd) in
  match k_stat k cwd with
  | None => mkPreOpen ws 0 false
  | Some st =>
      pre_open_recurse k PRE_OPEN_TREE_DEPTH_LIMIT (st_dev st) cwd
        (mkPreOpen (set_dir_paths ws (<[(st_dev st, st_ino st) := cwd]> (dir_paths ws))) 0 false)
  end.

Lemma pre_open_tree_walk (rt : Runtime) command cwd :
  pre_open_tree k rt command cwd !! command
  = Some (po_ws (watch_walk (default default_watch (rt !! command)) cwd)).
Proof. unfold pre_open_tree, watch_walk. destruct (k_stat k cwd); by rewrite lookup_insert_eq. Qed.

(** What the helper needs of a file to report its change or its removal. *)
Record watched ws (q : PathBuf) (i : N) (n : Fs.Inode) : Prop := {
  wa_open : pre_opens ws !! (dev, i) = Some (mkFd (dev, i) false);
  wa_snapshot : pre_snapshots ws !! (dev, i) = Some (snapshot_of n);
  wa_dir qi : Fs.names fs !! q = Some qi → dir_paths ws !! (dev, qi) = Some q;
}.

Lemma faithful_watched ws q i n :
  faithful ws → one_name → known ws q → held_open ws i → Fs.inodes fs !! i = Some n →
  Fs.in_kind n = FileKind.Regular → watched ws q i n.
Proof.
  intros Hfa H1 (j & m & Hfj & p & Hp) [[fd Hfd] [snap Hsn]] Hn Hr. split.
  - rewrite Hfd. destruct (fa_open _ Hfa _ _ Hfd) as (Hkey & _ & n' & Hn' & Hpo). cbn in Hn'. rewrite Hn in Hn'. injection Hn' as <-.
    destruct fd as [fk fp]. cbn in *. by rewrite Hkey, Hpo.
  - rewrite Hsn. destruct (fa_snapshot _ Hfa _ _ Hsn) as (_ & n' & Hn' & _ & ->). cbn in Hn'. rewrite Hn in Hn'. by injection Hn' as <-.
  - intros qi Hqi. unfold Fs.find in Hfj. rewrite Hqi in Hfj. cbn in Hfj.
    destruct (Fs.inodes fs !! qi) as [mi|] eqn:Hmi; [|done]. injection Hfj as -> ->. rewrite Hp. f_equal.
    destruct (fa_dir _ Hfa _ _ Hp) as (_ & n' & Hp' & Hd). cbn in Hp'. pose proof (find_inode _ _ _ _ Hp') as Hm'.
    rewrite Hmi in Hm'. injection Hm' as <-. eapply H1; [exact Hp'| |done]. unfold Fs.find. rewrite Hqi. cbn. by rewrite Hmi.
Qed.

Lemma walk_start_faithful ws cwd ci cn st :
  faithful ws → Fs.find fs cwd = Some (ci, cn) → Fs.in_kind cn = FileKind.Directory → k_stat k cwd = Some st →
  let ws1 := set_watch_cwd ws (Some cwd) in
  st_dev st = dev ∧ faithful (set_dir_paths ws1 (<[(st_dev st, st_ino st) := cwd]> (dir_paths ws1)))
  ∧ known (set_dir_paths ws1 (<[(st_dev st, st_ino st) := cwd]> (dir_paths ws1))) cwd.
Proof.
  intros Hfa Hf Hd Hst. cbn zeta. pose proof (ks_stat _ _ Hk _ _ _ _ Hst Hf ltac:(congruence)) as Hr.
  rewrite (rw_dev _ _ _ _ Hr), (rw_ino _ _ _ _ Hr). split_and!; [done| |].
  - eapply dir_faithful; [|done..]. by destruct Hfa.
  - exists ci, cn. split; [done|]. cbn. rewrite lookup_insert_eq. eauto.
Qed.

(** Watching a directory holds every file in it: once the walk is through and
    has not met its cap, each regular file it may read, at most eight levels
    deep and below one gigabyte, is open in the helper with a true copy of
    what it holds, and the directory it is in is known by its number. *)
Theorem pre_open_tree_holds (rt : Runtime) command cwd ci cn q names name i n :
  faithful (default default_watch (rt !! command)) → one_name →
  Fs.find fs cwd = Some (ci, cn) → Fs.in_kind cn = FileKind.Directory → is_Some (k_stat k cwd) →
  reached PRE_OPEN_TREE_DEPTH_LIMIT cwd q → k_read_dir k q = Some names → name ∈ names →
  readable (join q name) i n →
  po_hit_cap (watch_walk (default default_watch (rt !! command)) cwd) = false →
  ∃ ws, pre_open_tree k rt command cwd !! command = Some ws ∧ faithful ws ∧ watched ws q i n.
Proof.
  intros Hfa H1 Hf Hd [st Hst] Hre Hnames Hname Hr. rewrite pre_open_tree_walk. unfold watch_walk. rewrite Hst.
  destruct (walk_start_faithful _ _ _ _ _ Hfa Hf Hd Hst) as (Hdev & Hfa1 & Hkn). cbn zeta in *. revert Hfa1 Hkn.
  generalize (set_dir_paths (set_watch_cwd (default default_watch (rt !! command)) (Some cwd))
    (<[(st_dev st, st_ino st) := cwd]> (dir_paths (set_watch_cwd (default default_watch (rt !! command)) (Some cwd))))).
  rewrite Hdev. intros ws Hfa1 Hkn Hc.
  destruct (pre_open_recurse_reached _ _ _ Hre (mkPreOpen ws 0 false) names name i n Hkn Hnames Hname Hr Hc) as [Hk' Hh].
  eexists. split; [done|]. pose proof (wk_faithful _ _ (pre_open_recurse_walked PRE_OPEN_TREE_DEPTH_LIMIT dev cwd (mkPreOpen ws 0 false)) Hfa1) as Hfa2.
  split; [done|]. apply faithful_watched; [done..|eapply find_inode; apply Hr|apply Hr].
Qed.

End Tree.

End CaptureFacts.
