(* ===== verification/HelperLoop.v ===== *)
(** * From kernel events to the capture

    The Linux helper around its capture runtime: the tracked process trees
    ([ProcTree], [fanotify/tree.rs]), the records of the ring buffers, their
    dispatch and their layout ([LsmReader], [Records],
    [ebpf/ringbuf_reader.rs]), the fanotify stream and its reader
    ([FanotifyLoop], [fanotify/parse.rs], [event_loop.rs], [runtime.rs]), the
    tier the helper starts in ([Startup]), and the threads around the two
    locks: the main loop with the two watch requests, and a reader per ring
    ([HelperLoop], [main.rs]). Integers are those of a little-endian machine.
    [/proc], the order of hash maps and the answers of the system are
    arguments. *)

From S2P Require Import Prelude Paths Base Events Probe Env Fs Redirect Runners Text Tables Index Blobs TierStash.
From S2P Require Import Procs Active Baseline WatchReady Daemon HelperEvents LinuxCapture CaptureFacts.

(** ** fanotify/tree.rs *)

Module ProcTree.
Import Procs.

Record TrackedTree := mkTree { t_session : Uuid; t_command_seq : N; root_pid : Z; members : gset Z }.

Record TreeMap := mkTreeMap { trees : gmap CommandId TrackedTree; pid_cache : gmap Z (option CommandId) }.

Definition tree_new : TreeMap := mkTreeMap ∅ ∅.

Definition watch (tm : TreeMap) (c : CommandId) (root : Z) : TreeMap :=
  mkTreeMap (<[c := mkTree (session c) (seq c) root {[root]}]> (trees tm)) ∅.

Definition unwatch (tm : TreeMap) (c : CommandId) : TreeMap := mkTreeMap (delete c (trees tm)) ∅.

Definition MAX_DEPTH : nat := 64.

(** The fourth field of [/proc/<pid>/stat]. *)
Definition parent_pid (read_stat : Z → option string) (pid : Z) : option Z :=
  raw ← read_stat pid; w ← stat_field 1 raw; parse_i32 w.

Section Resolve.
Context (ord : HashOrder CommandId TrackedTree) (read_stat : Z → option string).
Implicit Types tm : TreeMap.

(** The loops over the trees: the first whose root is the process. *)
Definition rooted_at tm (pid : Z) : option CommandId :=
  fst <$> List.find (λ ct : CommandId * TrackedTree, bool_decide (root_pid ct.2 = pid)) (hash_iter (trees tm)).

Fixpoint resolve_from (depth : nat) tm (current : Z) : option CommandId :=
  match depth with
  | O => None
  | S depth' =>
      match rooted_at tm current with
      | Some c => Some c
      | None =>
          match parent_pid read_stat current with
          | None => None
          | Some ppid => if bool_decide (ppid = 0 ∨ ppid = 1)%Z then None else resolve_from depth' tm ppid
          end
      end
  end.

Definition resolve tm (pid : Z) : option CommandId := resolve_from MAX_DEPTH tm pid.

Definition cache tm (pid : Z) (r : option CommandId) : TreeMap := mkTreeMap (trees tm) (<[pid := r]> (pid_cache tm)).

Definition add_member tm (r : option CommandId) (pid : Z) : TreeMap :=
  match r with
  | Some c => mkTreeMap (alter (λ t, mkTree (t_session t) (t_command_seq t) (root_pid t) ({[pid]} ∪ members t)) c (trees tm))
                (pid_cache tm)
  | None => tm
  end.

Definition is_tracked tm (pid : Z) : TreeMap * option CommandId :=
  match pid_cache tm !! pid with
  | Some cached => (tm, cached)
  | None => let r := resolve tm pid in (add_member (cache tm pid r) r pid, r)
  end.

Definition is_tracked_with_parent tm (pid parent : Z) : TreeMap * option CommandId :=
  match pid_cache tm !! pid with
  | Some cached => (tm, cached)
  | None =>
      match rooted_at tm pid with
      | Some c => (cache tm pid (Some c), Some c)
      | None =>
          match (if bool_decide (0 < parent)%Z then rooted_at tm parent else None) with
          | Some c => (add_member (cache tm pid (Some c)) (Some c) pid, Some c)
          | None => let r := resolve tm pid in (add_member (cache tm pid r) r pid, r)
          end
      end
  end.

End Resolve.

End ProcTree.

(** ** ebpf/ringbuf_reader.rs *)

Module LsmReader.
Import Text HelperEvents LinuxCapture CaptureFacts ProcTree.

(** A little-endian integer, and a field of a record. *)
Fixpoint le (b : bytes) : N :=
  match b with [] => 0 | x :: b' => Byte.to_N x + 256 * le b' end.

Definition field (off len : nat) (b : bytes) : N := le (take len (drop off b)).

(** [v as i32] of a [u32]. *)
Definition as_i32 (n : N) : Z := if bool_decide (n < 2 ^ 31)%N then Z.of_N n else Z.of_N n - 2 ^ 32.

Record EventHeader := mkHeader { h_kind : N; h_pid : N; h_tgid : N; h_parent_pid : N; h_ts_ns : N; h_comm : bytes }.

Definition header (b : bytes) : EventHeader :=
  mkHeader (field 0 1 b) (field 4 4 b) (field 8 4 b) (field 12 4 b) (field 16 8 b) (take 16 (drop 24 b)).

(** [kind], the tag of a record. *)
Module kind.
Definition UNLINK : N := 1.
Definition SETATTR : N := 2.
Definition MKDIR : N := 3.
Definition OPEN : N := 4.
Definition CREATE : N := 5.
Definition RENAME : N := 6.
Definition RMDIR : N := 7.
Definition RELEASE : N := 8.
Definition MKNOD : N := 9.
End kind.

Definition NAME_BUF_LEN : nat := 256.

Record UnlinkEvent := mkUnlinkEvent {
  u_hdr : EventHeader; u_dev : N; u_inode : N; u_parent_inode : N; u_name_len : N; u_name : bytes;
}.

Record SetattrEvent := mkSetattrEvent {
  a_hdr : EventHeader; a_dev : N; a_inode : N; a_attr_valid : N; a_old_mode : N; a_old_uid : N; a_old_gid : N;
  a_new_mode : N; a_new_uid : N; a_new_gid : N; a_old_size : N; a_new_size : N;
}.

(** [MkdirEvent] and [CreateEvent]. *)
Record CreateEvent := mkCreateEvent {
  c_hdr : EventHeader; c_parent_dev : N; c_parent_inode : N; c_mode : N; c_name_len : N; c_name : bytes;
}.

(** [OpenEvent] and [ReleaseEvent]. *)
Record OpenEvent := mkOpenEvent { o_hdr : EventHeader; o_dev : N; o_inode : N; o_f_mode : N; o_f_flags : N }.

Record RenameEvent := mkRenameEvent {
  r_hdr : EventHeader; r_dev : N; r_inode : N; r_old_parent_inode : N; r_new_parent_inode : N;
  r_old_name_len : N; r_new_name_len : N; r_old_name : bytes; r_new_name : bytes;
}.

Definition unlink_layout (b : bytes) : UnlinkEvent :=
  mkUnlinkEvent (header b) (field 40 8 b) (field 48 8 b) (field 56 8 b) (field 64 4 b) (take NAME_BUF_LEN (drop 72 b)).
Definition setattr_layout (b : bytes) : SetattrEvent :=
  mkSetattrEvent (header b) (field 40 8 b) (field 48 8 b) (field 56 4 b) (field 60 4 b) (field 64 4 b) (field 68 4 b)
    (field 72 4 b) (field 76 4 b) (field 80 4 b) (field 88 8 b) (field 96 8 b).
Definition create_layout (b : bytes) : CreateEvent :=
  mkCreateEvent (header b) (field 40 8 b) (field 48 8 b) (field 56 4 b) (field 60 4 b) (take NAME_BUF_LEN (drop 64 b)).
Definition open_layout (b : bytes) : OpenEvent :=
  mkOpenEvent (header b) (field 40 8 b) (field 48 8 b) (field 56 4 b) (field 60 4 b).
Definition rename_layout (b : bytes) : RenameEvent :=
  mkRenameEvent (header b) (field 40 8 b) (field 48 8 b) (field 56 8 b) (field 64 8 b) (field 72 4 b) (field 76 4 b)
    (take NAME_BUF_LEN (drop 80 b)) (take NAME_BUF_LEN (drop 336 b)).

(** A record too short for the structure or of another kind is refused. *)
Definition decode_event {T} (size : nat) (layout : bytes → T) (b : bytes) (expected_kind : N) : option T :=
  if bool_decide (length b < size) then None
  else if negb (bool_decide (field 0 1 b = expected_kind)) then None
  else Some (layout b).

Definition decode_unlink b := decode_event 328 unlink_layout b kind.UNLINK.
Definition decode_rmdir b := decode_event 328 unlink_layout b kind.RMDIR.
Definition decode_release b := decode_event 64 open_layout b kind.RELEASE.
Definition decode_setattr b := decode_event 104 setattr_layout b kind.SETATTR.
Definition decode_mkdir b := decode_event 320 create_layout b kind.MKDIR.
Definition decode_create b := decode_event 320 create_layout b kind.CREATE.
Definition decode_mknod b := decode_event 320 create_layout b kind.MKNOD.
Definition decode_open b := decode_event 64 open_layout b kind.OPEN.
Definition decode_rename b := decode_event 592 rename_layout b kind.RENAME.

(** [basename_str]: at most the buffer. *)
Definition basename_str (len : N) (name : bytes) : string := from_utf8_lossy (take (N.to_nat len `min` NAME_BUF_LEN) name).

(** The reader threads of [boot_ebpf_lsm], one per ring buffer. *)
Inductive Ring :=
  | UnlinkRing | SetattrRing | MkdirRing | CreateRing | OpenRing | RenameRing | SymlinkRing | LinkRing | RmdirRing
  | MknodRing | ReleaseRing.

#[export] Instance Ring_eq_dec : EqDecision Ring.
Proof. solve_decision. Defined.
#[export] Instance Ring_countable : Countable Ring.
Proof.
  refine (inj_countable'
    (λ r, match r with
          | UnlinkRing => 0 | SetattrRing => 1 | MkdirRing => 2 | CreateRing => 3 | OpenRing => 4 | RenameRing => 5
          | SymlinkRing => 6 | LinkRing => 7 | RmdirRing => 8 | MknodRing => 9 | ReleaseRing => 10 end)
    (λ n : nat, match n with
          | 0 => UnlinkRing | 1 => SetattrRing | 2 => MkdirRing | 3 => CreateRing | 4 => OpenRing | 5 => RenameRing
          | 6 => SymlinkRing | 7 => LinkRing | 8 => RmdirRing | 9 => MknodRing | _ => ReleaseRing end) _).
  by intros [].
Defined.

(** What a sink hands to the runtime. *)
Inductive LsmView :=
  | UnlinkV (v : LsmUnlinkView) | SetattrV (v : LsmSetattrView) | MkdirV (v : LsmMkdirView)
  | CreateV (v : LsmCreateView) | OpenV (v : LsmOpenView) | ReleaseV (v : LsmReleaseView) | RenameV (v : LsmRenameView).

Definition view_command (v : LsmView) : CommandId :=
  match v with
  | UnlinkV v => lu_command v | SetattrV v => la_command v | MkdirV v => lm_command v | CreateV v => lc_command v
  | OpenV v => lo_command v | ReleaseV v => lr_command v | RenameV v => ln_command v
  end.

Definition event_of (k : Kernel) (v : LsmView) : Event :=
  match v with
  | UnlinkV v => LsmUnlink k v | SetattrV v => LsmSetattr k v | MkdirV v => LsmMkdir k v | CreateV v => LsmCreate k v
  | OpenV v => LsmOpen k v | ReleaseV v => LsmRelease k v | RenameV v => LsmRename k v
  end.

Section Dispatch.
Context (ord : HashOrder CommandId TrackedTree) (read_stat : Z → option string) (excluded_pids : list N).
Implicit Types tm : TreeMap.

(** What every handler does first, under the lock of the trees: drop the events
    of excluded and of untracked processes. *)
Definition attributed tm (hdr : EventHeader) (view : CommandId → LsmView) : TreeMap * option LsmView :=
  if bool_decide (h_pid hdr ∈ excluded_pids) then (tm, None)
  else
    let '(tm, r) := is_tracked_with_parent ord read_stat tm (as_i32 (h_pid hdr)) (as_i32 (h_parent_pid hdr)) in
    (tm, view <$> r).

Definition unlink_view (is_directory : bool) (ev : UnlinkEvent) (c : CommandId) : LsmUnlinkView :=
  mkUnlinkView c (h_pid (u_hdr ev)) (u_dev ev) (u_inode ev) (u_parent_inode ev)
    (basename_str (u_name_len ev) (u_name ev)) is_directory.

Definition on_unlink tm (ev : UnlinkEvent) := attributed tm (u_hdr ev) (λ c, UnlinkV (unlink_view false ev c)).
Definition on_rmdir tm (ev : UnlinkEvent) := attributed tm (u_hdr ev) (λ c, UnlinkV (unlink_view true ev c)).
Definition on_release tm (ev : OpenEvent) := attributed tm (o_hdr ev) (λ c,
  ReleaseV (mkReleaseView c (h_pid (o_hdr ev)) (o_dev ev) (o_inode ev) (o_f_mode ev) (o_f_flags ev))).
Definition on_setattr tm (ev : SetattrEvent) := attributed tm (a_hdr ev) (λ c,
  SetattrV (mkSetattrView c (h_pid (a_hdr ev)) (a_dev ev) (a_inode ev) (a_attr_valid ev) (a_old_mode ev) (a_old_uid ev)
    (a_old_gid ev) (a_old_size ev) (a_new_mode ev) (a_new_uid ev) (a_new_gid ev) (a_new_size ev))).
Definition on_mkdir tm (ev : CreateEvent) := attributed tm (c_hdr ev) (λ c,
  MkdirV (mkMkdirView c (h_pid (c_hdr ev)) (c_parent_dev ev) (c_parent_inode ev) (c_mode ev)
    (basename_str (c_name_len ev) (c_name ev)))).
Definition on_create tm (ev : CreateEvent) := attributed tm (c_hdr ev) (λ c,
  CreateV (mkCreateView c (h_pid (c_hdr ev)) (c_parent_dev ev) (c_parent_inode ev) (c_mode ev)
    (basename_str (c_name_len ev) (c_name ev)))).
Definition on_open tm (ev : OpenEvent) := attributed tm (o_hdr ev) (λ c,
  OpenV (mkOpenView c (h_pid (o_hdr ev)) (o_dev ev) (o_inode ev) (o_f_mode ev) (o_f_flags ev))).
Definition on_rename tm (ev : RenameEvent) := attributed tm (r_hdr ev) (λ c,
  RenameV (mkRenameView c (h_pid (r_hdr ev)) (r_dev ev) (r_inode ev) (r_old_parent_inode ev) (r_new_parent_inode ev)
    (basename_str (r_old_name_len ev) (r_old_name ev)) (basename_str (r_new_name_len ev) (r_new_name ev)))).

(** A record that cannot be decoded is dropped. *)
Definition decoded {T} (ev : option T) (on : TreeMap → T → TreeMap * option LsmView) tm : TreeMap * option LsmView :=
  match ev with Some ev => on tm ev | None => (tm, None) end.

(** The handlers of the [spawn] functions. *)
Definition handle_record tm (ring : Ring) (b : bytes) : TreeMap * option LsmView :=
  match ring with
  | UnlinkRing => decoded (decode_unlink b) on_unlink tm
  | RmdirRing => decoded (decode_rmdir b) on_rmdir tm
  | ReleaseRing => decoded (decode_release b) on_release tm
  | SetattrRing => decoded (decode_setattr b) on_setattr tm
  | MkdirRing => decoded (decode_mkdir b) on_mkdir tm
  | CreateRing | SymlinkRing | LinkRing => decoded (decode_create b) on_create tm
  | MknodRing => decoded (decode_mknod b) on_create tm
  | OpenRing => decoded (decode_open b) on_open tm
  | RenameRing => decoded (decode_rename b) on_rename tm
  end.

End Dispatch.

End LsmReader.

(** ** Records *)

Module Records.
Import Text HelperEvents LinuxCapture CaptureFacts ProcTree LsmReader.

(** The [w] bytes of an integer. *)
Definition byte_of (v : N) : Byte.byte := default Byte.x00 (Byte.of_N (v mod 256)).

Fixpoint le_bytes (w : nat) (v : N) : bytes :=
  match w with O => [] | S w' => byte_of v :: le_bytes w' (v / 256) end.

Lemma byte_of_spec v : Byte.to_N (byte_of v) = (v mod 256)%N.
Proof.
  unfold byte_of. destruct (Byte.of_N (v mod 256)) as [b|] eqn:Hb; [by apply Byte.to_of_N|].
  apply Byte.of_N_None_iff in Hb. pose proof (N.mod_lt v 256 ltac:(done)). lia.
Qed.

Lemma le_bytes_length w : ∀ v, length (le_bytes w v) = w.
Proof. induction w as [|w IH]; intros v; [done|]. simpl. by rewrite IH. Qed.

Lemma le_le_bytes w : ∀ v, (v < 256 ^ N.of_nat w)%N → le (le_bytes w v) = v.
Proof.
  induction w as [|w IH]; intros v Hv; [simpl in *; lia|]. cbn [le le_bytes]. rewrite byte_of_spec, IH.
  - pose proof (N.div_mod v 256 ltac:(done)). lia.
  - apply N.Div0.div_lt_upper_bound. by rewrite Nat2N.inj_succ, N.pow_succ_r' in Hv.
Qed.

(** Reading a field of a concatenation. *)
Lemma field_here w v rest : (v < 256 ^ N.of_nat w)%N → field 0 w (le_bytes w v ++ rest) = v.
Proof. intros Hv. unfold field. rewrite drop_0, take_app_length' by (by rewrite le_bytes_length). by apply le_le_bytes. Qed.

Lemma field_last w v : (v < 256 ^ N.of_nat w)%N → field 0 w (le_bytes w v) = v.
Proof. intros Hv. rewrite <- (app_nil_r (le_bytes w v)). by apply field_here. Qed.

Lemma field_skip pre rest off w : length pre ≤ off → field off w (pre ++ rest) = field (off - length pre) w rest.
Proof. intros Hn. unfold field. by rewrite drop_app_ge. Qed.

Lemma drop_skip (pre rest : bytes) off : length pre ≤ off → drop off (pre ++ rest) = drop (off - length pre) rest.
Proof. intros Hn. by rewrite drop_app_ge. Qed.

(** The records as the kernel programs lay them out ([bpf/src/common.h]). *)
Definition header_bytes (kd : N) (h : EventHeader) : bytes :=
  le_bytes 1 kd ++ le_bytes 3 0 ++ le_bytes 4 (h_pid h) ++ le_bytes 4 (h_tgid h) ++ le_bytes 4 (h_parent_pid h)
  ++ le_bytes 8 (h_ts_ns h) ++ h_comm h.

Definition unlink_bytes (kd : N) (ev : UnlinkEvent) : bytes :=
  header_bytes kd (u_hdr ev) ++ le_bytes 8 (u_dev ev) ++ le_bytes 8 (u_inode ev) ++ le_bytes 8 (u_parent_inode ev)
  ++ le_bytes 4 (u_name_len ev) ++ le_bytes 4 0 ++ u_name ev.

Definition setattr_bytes (kd : N) (ev : SetattrEvent) : bytes :=
  header_bytes kd (a_hdr ev) ++ le_bytes 8 (a_dev ev) ++ le_bytes 8 (a_inode ev) ++ le_bytes 4 (a_attr_valid ev)
  ++ le_bytes 4 (a_old_mode ev) ++ le_bytes 4 (a_old_uid ev) ++ le_bytes 4 (a_old_gid ev) ++ le_bytes 4 (a_new_mode ev)
  ++ le_bytes 4 (a_new_uid ev) ++ le_bytes 4 (a_new_gid ev) ++ le_bytes 4 0 ++ le_bytes 8 (a_old_size ev)
  ++ le_bytes 8 (a_new_size ev).

Definition create_bytes (kd : N) (ev : CreateEvent) : bytes :=
  header_bytes kd (c_hdr ev) ++ le_bytes 8 (c_parent_dev ev) ++ le_bytes 8 (c_parent_inode ev) ++ le_bytes 4 (c_mode ev)
  ++ le_bytes 4 (c_name_len ev) ++ c_name ev.

Definition open_bytes (kd : N) (ev : OpenEvent) : bytes :=
  header_bytes kd (o_hdr ev) ++ le_bytes 8 (o_dev ev) ++ le_bytes 8 (o_inode ev) ++ le_bytes 4 (o_f_mode ev)
  ++ le_bytes 4 (o_f_flags ev).

Definition rename_bytes (kd : N) (ev : RenameEvent) : bytes :=
  header_bytes kd (r_hdr ev) ++ le_bytes 8 (r_dev ev) ++ le_bytes 8 (r_inode ev) ++ le_bytes 8 (r_old_parent_inode ev)
  ++ le_bytes 8 (r_new_parent_inode ev) ++ le_bytes 4 (r_old_name_len ev) ++ le_bytes 4 (r_new_name_len ev)
  ++ r_old_name ev ++ r_new_name ev.

Abbreviation fits w v := (v < 256 ^ N.of_nat w)%N.

(** The values fit their fields. *)
Record header_fits (kd : N) (h : EventHeader) : Prop := {
  hf_kind : h_kind h = kd ∧ fits 1 kd; hf_pid : fits 4 (h_pid h); hf_tgid : fits 4 (h_tgid h);
  hf_parent : fits 4 (h_parent_pid h); hf_ts : fits 8 (h_ts_ns h); hf_comm : length (h_comm h) = 16;
}.

Lemma header_bytes_length kd h : header_fits kd h → length (header_bytes kd h) = 40.
Proof. intros []. unfold header_bytes. rewrite !length_app, !le_bytes_length. lia. Qed.

(** Walk to the field that is read; [lens] rewrites the lengths of what is
    passed. *)
Ltac to_field lens := rewrite <- ?app_assoc; repeat first
  [ rewrite drop_0 | rewrite field_here by done | rewrite field_last by done
  | rewrite field_skip by (rewrite ?le_bytes_length; lens; lia); rewrite ?le_bytes_length; lens; cbn [Nat.sub]
  | rewrite drop_skip by (rewrite ?le_bytes_length; lens; lia); rewrite ?le_bytes_length; lens; cbn [Nat.sub] ].

Lemma header_header_bytes kd h rest : header_fits kd h → header (header_bytes kd h ++ rest) = h.
Proof.
  intros [[Hk Hk'] ? ? ? ? Hc]. unfold header, header_bytes. to_field idtac.
  rewrite take_app_length' by done. rewrite <- Hk. by destruct h.
Qed.

Record unlink_fits (kd : N) (ev : UnlinkEvent) : Prop := {
  uf_hdr : header_fits kd (u_hdr ev); uf_dev : fits 8 (u_dev ev); uf_inode : fits 8 (u_inode ev);
  uf_parent : fits 8 (u_parent_inode ev); uf_len : fits 4 (u_name_len ev); uf_name : length (u_name ev) = NAME_BUF_LEN;
}.

Record setattr_fits (kd : N) (ev : SetattrEvent) : Prop := {
  af_hdr : header_fits kd (a_hdr ev); af_dev : fits 8 (a_dev ev); af_inode : fits 8 (a_inode ev);
  af_valid : fits 4 (a_attr_valid ev); af_omode : fits 4 (a_old_mode ev); af_ouid : fits 4 (a_old_uid ev);
  af_ogid : fits 4 (a_old_gid ev); af_nmode : fits 4 (a_new_mode ev); af_nuid : fits 4 (a_new_uid ev);
  af_ngid : fits 4 (a_new_gid ev); af_osize : fits 8 (a_old_size ev); af_nsize : fits 8 (a_new_size ev);
}.

Record create_fits (kd : N) (ev : CreateEvent) : Prop := {
  cf_hdr : header_fits kd (c_hdr ev); cf_dev : fits 8 (c_parent_dev ev); cf_inode : fits 8 (c_parent_inode ev);
  cf_mode : fits 4 (c_mode ev); cf_len : fits 4 (c_name_len ev); cf_name : length (c_name ev) = NAME_BUF_LEN;
}.

Record open_fits (kd : N) (ev : OpenEvent) : Prop := {
  of_hdr : header_fits kd (o_hdr ev); of_dev : fits 8 (o_dev ev); of_inode : fits 8 (o_inode ev);
  of_mode : fits 4 (o_f_mode ev); of_flags : fits 4 (o_f_flags ev);
}.

Record rename_fits (kd : N) (ev : RenameEvent) : Prop := {
  rf_hdr : header_fits kd (r_hdr ev); rf_dev : fits 8 (r_dev ev); rf_inode : fits 8 (r_inode ev);
  rf_old : fits 8 (r_old_parent_inode ev); rf_new : fits 8 (r_new_parent_inode ev);
  rf_olen : fits 4 (r_old_name_len ev); rf_nlen : fits 4 (r_new_name_len ev);
  rf_oname : length (r_old_name ev) = NAME_BUF_LEN; rf_nname : length (r_new_name ev) = NAME_BUF_LEN;
}.

(** A record of the right length with the right tag is read by its layout. *)
Lemma decode_event_some {T} size (layout : bytes → T) b kd ev :
  length b = size → field 0 1 b = kd → layout b = ev → decode_event size layout b kd = Some ev.
Proof.
  intros Hl Hk <-. unfold decode_event. rewrite bool_decide_eq_false_2 by lia. by rewrite bool_decide_eq_true_2.
Qed.

Lemma kind_header_bytes kd h rest : header_fits kd h → field 0 1 (header_bytes kd h ++ rest) = kd.
Proof. intros [[_ Hk] _ _ _ _ _]. unfold header_bytes. by to_field idtac. Qed.

(** The length and the tag of a record, then its fields. *)
Ltac by_layout Hh lens :=
  apply decode_event_some;
  [ rewrite !length_app, !le_bytes_length, (header_bytes_length _ _ Hh); lens; done
  | by apply kind_header_bytes
  | rewrite header_header_bytes by exact Hh; to_field ltac:(rewrite ?(header_bytes_length _ _ Hh); lens);
    rewrite ?take_ge by (lens; done) ].

Lemma unlink_round_trip kd ev : unlink_fits kd ev → decode_event 328 unlink_layout (unlink_bytes kd ev) kd = Some ev.
Proof.
  intros [Hh ? ? ? ? Hn]. unfold unlink_layout, unlink_bytes. by_layout Hh ltac:(rewrite ?Hn). by destruct ev.
Qed.

Lemma setattr_round_trip kd ev : setattr_fits kd ev → decode_event 104 setattr_layout (setattr_bytes kd ev) kd = Some ev.
Proof. intros [Hh ? ? ? ? ? ? ? ? ? ? ?]. unfold setattr_layout, setattr_bytes. by_layout Hh idtac. by destruct ev. Qed.

Lemma create_round_trip kd ev : create_fits kd ev → decode_event 320 create_layout (create_bytes kd ev) kd = Some ev.
Proof.
  intros [Hh ? ? ? ? Hn]. unfold create_layout, create_bytes. by_layout Hh ltac:(rewrite ?Hn). by destruct ev.
Qed.

Lemma open_round_trip kd ev : open_fits kd ev → decode_event 64 open_layout (open_bytes kd ev) kd = Some ev.
Proof. intros [Hh ? ? ? ?]. unfold open_layout, open_bytes. by_layout Hh idtac. by destruct ev. Qed.

Lemma rename_round_trip kd ev : rename_fits kd ev → decode_event 592 rename_layout (rename_bytes kd ev) kd = Some ev.
Proof.
  intros [Hh ? ? ? ? ? ? Ho Hn]. unfold rename_layout, rename_bytes. by_layout Hh ltac:(rewrite ?Ho, ?Hn).
  rewrite take_app_length', drop_app_length', take_ge by (by rewrite ?Ho, ?Hn). by destruct ev.
Qed.

(** A record of one kind is not taken for another. *)
Lemma decode_event_other {T} size (layout : bytes → T) b kd kd' :
  field 0 1 b = kd → kd ≠ kd' → decode_event size layout b kd' = None.
Proof. intros <- Hne. unfold decode_event. case_bool_decide; [done|]. by rewrite bool_decide_eq_false_2. Qed.

End Records.

(** ** fanotify/parse.rs, event_loop.rs and runtime.rs *)

Module FanotifyLoop.
Import HelperEvents LinuxCapture CaptureFacts ProcTree LsmReader.

Definition FAN_Q_OVERFLOW : N := 0x4000.
Definition FAN_OPEN_PERM : N := 0x10000.
Definition FAN_ACCESS_PERM : N := 0x20000.
Definition FAN_OPEN_EXEC_PERM : N := 0x40000.
Definition FAN_ALLOW : N := 1.
Definition FAN_DENY : N := 2.
Definition FANOTIFY_METADATA_VERSION : N := 3.
Definition FANOTIFY_EVENT_METADATA_LEN : nat := 24.

Record FanEvent := mkFanEvent { fn_mask : N; fn_fd : Z; fn_pid : Z; fn_event_len : N }.

Definition is_overflow (ev : FanEvent) : bool := negb (bool_decide (N.land (fn_mask ev) FAN_Q_OVERFLOW = 0%N)).

Definition needs_permission (ev : FanEvent) : bool :=
  negb (bool_decide (N.land (fn_mask ev) (N.lor (N.lor FAN_OPEN_PERM FAN_ACCESS_PERM) FAN_OPEN_EXEC_PERM) = 0%N)).

Module ParseError.
Inductive ParseError :=
  | Truncated (have need : nat) | HeaderUnderflow (got : N) (header : nat) | Overflow (got : N) (remaining : nat)
  | VersionMismatch (got expected : N).
End ParseError.
Abbreviation ParseError := ParseError.ParseError.

(** [EventIter::next] on a buffer that is not empty: an event and the rest. *)
Definition next_event (buf : bytes) : (FanEvent * bytes) + ParseError :=
  if bool_decide (length buf < FANOTIFY_EVENT_METADATA_LEN)
  then inr (ParseError.Truncated (length buf) FANOTIFY_EVENT_METADATA_LEN)
  else
    let event_len := field 0 4 buf in
    let vers := field 4 1 buf in
    if negb (bool_decide (vers = FANOTIFY_METADATA_VERSION))
    then inr (ParseError.VersionMismatch vers FANOTIFY_METADATA_VERSION)
    else if bool_decide (N.to_nat event_len < FANOTIFY_EVENT_METADATA_LEN)
    then inr (ParseError.HeaderUnderflow event_len FANOTIFY_EVENT_METADATA_LEN)
    else if bool_decide (length buf < N.to_nat event_len) then inr (ParseError.Overflow event_len (length buf))
    else inl (mkFanEvent (field 8 8 buf) (as_i32 (field 16 4 buf)) (as_i32 (field 20 4 buf)) event_len,
              drop (N.to_nat event_len) buf).

(** What the iterator yields; nothing after an error. *)
Fixpoint event_iter (fuel : nat) (buf : bytes) : list (FanEvent + ParseError) :=
  match fuel with
  | O => []
  | S fuel' =>
      if bool_decide (buf = []) then []
      else match next_event buf with
           | inr e => [inr e]
           | inl (ev, rest) => inl ev :: event_iter fuel' rest
           end
  end.

Inductive Decision := Allow | Deny.

Definition as_kernel_response (d : Decision) : N := match d with Allow => FAN_ALLOW | Deny => FAN_DENY end.

Record fanotify_response := mkResponse { rs_fd : Z; rs_response : N }.

Definition RESPONSE_BATCH_MAX : nat := 32.

Inductive LoopError := Parse (e : ParseError) | QueueOverflow.

Section Batch.
Context {S : Type} (decide_event : S → FanEvent → S * option Decision).

(** The loop of [process_batch]: the state of [decide], the count of
    [observe], and the responses or the error. *)
Fixpoint process_events (items : list (FanEvent + ParseError)) (st : S) (seen : N) (responses : list fanotify_response)
    : S * N * (list fanotify_response + LoopError) :=
  match items with
  | [] => (st, seen, inl responses)
  | inr e :: _ => (st, seen, inr (Parse e))
  | inl ev :: rest =>
      let seen := (seen + 1)%N in
      if is_overflow ev then (st, seen, inr QueueOverflow)
      else if negb (needs_permission ev) then process_events rest st seen responses
      else
        let '(st, decision) := decide_event st ev in
        let responses := responses ++ [mkResponse (fn_fd ev) (as_kernel_response (default Allow decision))] in
        if bool_decide (RESPONSE_BATCH_MAX ≤ length responses) then (st, seen, inl responses)
        else process_events rest st seen responses
  end.

Definition process_batch (buf : bytes) (st : S) (seen : N) : S * N * (list fanotify_response + LoopError) :=
  process_events (event_iter (length buf) buf) st seen [].

End Batch.

(** The reader: the runtime, the trees, what was sent, and the counters. *)
Record Reader := mkReader {
  fr_runtime : Runtime; fr_tree : TreeMap; fr_sent : list Sent; fr_seen : N; fr_overflows : N; fr_alive : bool;
}.

Section Read.
Context `{!Blobs.BlobCodec} (ord : HashOrder CommandId TrackedTree) (k : Kernel) (read_stat : Z → option string).

(** The file an event descriptor holds. *)
Context (fd_of : Z → Fd).

(** The closure of [reader_thread]. *)
Definition decide_and_capture (st : Runtime * TreeMap * list Sent) (ev : FanEvent)
    : (Runtime * TreeMap * list Sent) * option Decision :=
  let '(rt, tm, sent) := st in
  let '(tm, resolved) := is_tracked ord read_stat tm (fn_pid ev) in
  match resolved with
  | None => ((rt, tm, sent), Some Allow)
  | Some c =>
      let kd := if negb (bool_decide (N.land (fn_mask ev) FAN_OPEN_EXEC_PERM = 0%N))
                then FanotifyCaptureKind.OpenExec else FanotifyCaptureKind.OpenWrite in
      let '(rt, out) := handle_event k rt (mkFanotify c (fd_of (fn_fd ev)) kd) in
      ((rt, tm, sent ++ out), Some Allow)
  end.

(** One turn of [reader_thread] on the bytes of a read; [writes] says whether
    the responses could be written. The result has the responses written. *)
Definition reader_turn (writes : bool) (r : Reader) (buf : bytes) : Reader * list fanotify_response :=
  if bool_decide (buf = []) then (r, [])
  else
    let '(rt, tm, sent, seen, result) :=
      process_batch decide_and_capture buf (fr_runtime r, fr_tree r, fr_sent r) (fr_seen r) in
    match result with
    | inl responses =>
        if bool_decide (responses = []) || writes
        then (mkReader rt tm sent seen (fr_overflows r) (fr_alive r), responses)
        else (mkReader rt tm sent seen (fr_overflows r) false, [])
    | inr QueueOverflow => (mkReader rt tm sent seen (fr_overflows r + 1) (fr_alive r), [])
    | inr (Parse _) => (mkReader rt tm sent seen (fr_overflows r) false, [])
    end.

End Read.

(** ** What the reader answers *)

Section Answers.
Import Records.
Implicit Types ev : FanEvent.

(** [i32] as the kernel writes it. *)
Definition of_i32 (z : Z) : N := Z.to_N (z mod 2 ^ 32).

Lemma as_of_i32 z : (- 2 ^ 31 ≤ z < 2 ^ 31)%Z → as_i32 (of_i32 z) = z.
Proof.
  intros Hz. unfold as_i32, of_i32. pose proof (Z.mod_pos_bound z (2 ^ 32) ltac:(lia)).
  destruct (decide (0 ≤ z)%Z) as [Hp|Hp].
  - rewrite Z.mod_small by lia. rewrite bool_decide_eq_true_2 by lia. lia.
  - assert (z mod 2 ^ 32 = z + 2 ^ 32)%Z as Hm by (symmetry; apply (Z.mod_unique_pos _ _ (-1)); lia).
    rewrite Hm. rewrite bool_decide_eq_false_2 by lia. lia.
Qed.

Lemma of_i32_fits z : fits 4 (of_i32 z).
Proof.
  unfold of_i32. pose proof (Z.mod_pos_bound z (2 ^ 32) ltac:(lia)).
  change (256 ^ N.of_nat 4)%N with 4294967296%N. change (2 ^ 32)%Z with 4294967296%Z in *. lia.
Qed.

(** [struct fanotify_event_metadata], and the records behind it. *)
Definition event_bytes (ev : FanEvent) (info : bytes) : bytes :=
  le_bytes 4 (fn_event_len ev) ++ le_bytes 1 FANOTIFY_METADATA_VERSION ++ le_bytes 1 0 ++ le_bytes 2 24
  ++ le_bytes 8 (fn_mask ev) ++ le_bytes 4 (of_i32 (fn_fd ev)) ++ le_bytes 4 (of_i32 (fn_pid ev)) ++ info.

Record event_fits (ev : FanEvent) (info : bytes) : Prop := {
  ef_mask : fits 8 (fn_mask ev);
  ef_fd : (- 2 ^ 31 ≤ fn_fd ev < 2 ^ 31)%Z;
  ef_pid : (- 2 ^ 31 ≤ fn_pid ev < 2 ^ 31)%Z;
  ef_len : fn_event_len ev = N.of_nat (FANOTIFY_EVENT_METADATA_LEN + length info);
  ef_short : fits 4 (fn_event_len ev);
}.

Lemma event_bytes_length ev info : event_fits ev info → length (event_bytes ev info) = N.to_nat (fn_event_len ev).
Proof.
  intros [_ _ _ Hl _]. unfold event_bytes. rewrite !length_app, !le_bytes_length, Hl. unfold FANOTIFY_EVENT_METADATA_LEN. lia.
Qed.

Lemma next_event_bytes ev info rest : event_fits ev info → next_event (event_bytes ev info ++ rest) = inl (ev, rest).
Proof.
  intros Hf. pose proof (event_bytes_length ev info Hf) as Hn. destruct Hf as [Hm Hfd Hpid Hl Hs].
  pose proof (of_i32_fits (fn_fd ev)). pose proof (of_i32_fits (fn_pid ev)).
  assert (fits 1 FANOTIFY_METADATA_VERSION) as Hv by done.
  unfold next_event. rewrite length_app, Hn, Hl. rewrite bool_decide_eq_false_2 by lia.
  replace (field 0 4 (event_bytes ev info ++ rest)) with (fn_event_len ev) by (unfold event_bytes; by to_field idtac).
  replace (field 4 1 (event_bytes ev info ++ rest)) with FANOTIFY_METADATA_VERSION by (unfold event_bytes; by to_field idtac).
  rewrite (bool_decide_eq_true_2 (FANOTIFY_METADATA_VERSION = _)) by done. cbn [negb].
  rewrite Hl, !bool_decide_eq_false_2 by lia.
  rewrite <- Hl. rewrite drop_app_length' by done. unfold event_bytes. to_field idtac.
  rewrite !as_of_i32 by done. by destruct ev.
Qed.

(** The events of a read, each with its records. *)
Definition read_bytes (evs : list (FanEvent * bytes)) : bytes := concat ((λ e, event_bytes e.1 e.2) <$> evs).

Lemma event_iter_read (evs : list (FanEvent * bytes)) : ∀ fuel,
  Forall (λ e, event_fits e.1 e.2) evs → length (read_bytes evs) ≤ fuel → event_iter fuel (read_bytes evs) = inl ∘ fst <$> evs.
Proof.
  induction evs as [|[ev info] evs IH]; intros fuel Hf Hn; [by destruct fuel|].
  apply Forall_cons in Hf as [Hev Hf]. simpl in Hev. unfold read_bytes in *. cbn [fmap list_fmap concat fst snd] in *.
  pose proof (event_bytes_length ev info Hev) as Hl. pose proof (ef_len _ _ Hev) as Hlen. rewrite length_app in Hn.
  unfold FANOTIFY_EVENT_METADATA_LEN in Hlen.
  destruct fuel as [|fuel]; [lia|]. cbn [event_iter]. rewrite bool_decide_eq_false_2.
  - rewrite next_event_bytes by done. simpl. f_equal. apply IH; [done|lia].
  - intros Hnil%(f_equal length). rewrite length_app in Hnil. simpl in Hnil. lia.
Qed.

Definition allowed (ev : FanEvent) : fanotify_response := mkResponse (fn_fd ev) FAN_ALLOW.

(** A decision that always allows, as the reader's. *)
Lemma process_events_allow {S} (d : S → FanEvent → S * option Decision) (evs : list FanEvent) :
  (∀ st ev, (d st ev).2 = Some Allow) → Forall (λ ev, is_overflow ev = false) evs →
  ∀ st seen responses, length responses < RESPONSE_BATCH_MAX →
  let answered := take (RESPONSE_BATCH_MAX - length responses) (List.filter needs_permission evs) in
  ∃ seen', process_events d (inl <$> evs) st seen responses
    = (foldl (λ st ev, (d st ev).1) st answered, seen', inl (responses ++ (allowed <$> answered))).
Proof.
  intros Hd. cbn zeta. induction evs as [|ev evs IH]; intros Ho st seen responses Hr; simpl.
  - rewrite take_nil, app_nil_r. eauto.
  - apply Forall_cons in Ho as [Hov Ho]. rewrite Hov. destruct (needs_permission ev) eqn:Hn; simpl; [|by apply IH].
    pose proof (Hd st ev) as Hdec. destruct (d st ev) as [st1 dec] eqn:Hst. simpl in Hdec. subst dec. simpl.
    destruct (RESPONSE_BATCH_MAX - length responses) as [|n] eqn:Hleft; [lia|].
    rewrite length_app. simpl. case_bool_decide as Hb.
    + replace n with 0 by lia. simpl. rewrite Hst. by eexists.
    + destruct (IH Ho st1 (seen + 1)%N (responses ++ [allowed ev])) as (seen' & Hx);
        [rewrite length_app; simpl; lia|].
      exists seen'. cbn [take foldl]. rewrite Hst. cbn [fst]. rewrite length_app in Hx. simpl in Hx.
      replace (RESPONSE_BATCH_MAX - (length responses + 1)) with n in Hx by lia. by rewrite <- app_assoc in Hx.
Qed.

Context `{!Blobs.BlobCodec} (ord : HashOrder CommandId TrackedTree) (k : Kernel) (read_stat : Z → option string)
  (fd_of : Z → Fd).

Lemma decide_allows st ev : (decide_and_capture ord k read_stat fd_of st ev).2 = Some Allow.
Proof. destruct st as [[rt tm] sent]. unfold decide_and_capture. by repeat case_match. Qed.

(** What a turn of the reader is on a read without an overflow: the first
    thirty-two events that wait for an answer are decided and allowed. *)
Lemma reader_turn_allows r (evs : list (FanEvent * bytes)) :
  Forall (λ e, event_fits e.1 e.2 ∧ is_overflow e.1 = false) evs →
  let t := reader_turn ord k read_stat fd_of true r (read_bytes evs) in
  let answered := take RESPONSE_BATCH_MAX (List.filter needs_permission evs.*1) in
  t.2 = allowed <$> answered ∧ fr_alive t.1 = fr_alive r
  ∧ (fr_runtime t.1, fr_tree t.1, fr_sent t.1)
    = foldl (λ st ev, (decide_and_capture ord k read_stat fd_of st ev).1) (fr_runtime r, fr_tree r, fr_sent r) answered.
Proof.
  intros Hf. cbn zeta. unfold reader_turn. case_bool_decide as Hnil.
  - destruct evs as [|[ev info] evs]; [done|]. apply Forall_cons in Hf as [[Hev _] _]. simpl in Hev.
    apply (f_equal length) in Hnil. unfold read_bytes in Hnil. cbn [fmap list_fmap concat fst snd] in Hnil.
    rewrite length_app, (event_bytes_length _ _ Hev), (ef_len _ _ Hev) in Hnil.
    unfold FANOTIFY_EVENT_METADATA_LEN in Hnil. change (length []) with 0 in Hnil. lia.
  - unfold process_batch. rewrite event_iter_read; [|by eapply Forall_impl; [done|]; intros e []|done].
    rewrite list_fmap_compose.
    destruct (process_events_allow (decide_and_capture ord k read_stat fd_of) evs.*1 decide_allows) with
      (st := (fr_runtime r, fr_tree r, fr_sent r)) (seen := fr_seen r) (responses := @nil fanotify_response)
      as (seen' & Hx); [|simpl; unfold RESPONSE_BATCH_MAX; lia|].
    { apply Forall_fmap. eapply Forall_impl; [done|]. by intros e []. }
    rewrite Hx. change (RESPONSE_BATCH_MAX - length []) with RESPONSE_BATCH_MAX.
    destruct (foldl _ _ _) as [[rt tm] sent]. by rewrite orb_true_r.
Qed.

(** C11. The reader answers a read. When a read has no overflow mark and no more
    than thirty-two events that wait for permission, and the write of the
    answers goes through, each of these events is decided
    in the order of the read, the processes of watched trees with a capture of
    the file first, and each is answered with ALLOW, in the same order and
    once; nothing else is answered, and the reader goes on. Of a read with more
    of them the reader answers the first thirty-two and drops the others, which
    the comment of [process_batch] says are served by a later call
    ([reader_answers_thirty_two]). *)
Theorem reader_answers_batch r (evs : list (FanEvent * bytes)) :
  Forall (λ e, event_fits e.1 e.2 ∧ is_overflow e.1 = false) evs →
  let waiting := List.filter needs_permission evs.*1 in
  length waiting ≤ RESPONSE_BATCH_MAX →
  let t := reader_turn ord k read_stat fd_of true r (read_bytes evs) in
  t.2 = allowed <$> waiting ∧ fr_alive t.1 = fr_alive r
  ∧ (fr_runtime t.1, fr_tree t.1, fr_sent t.1)
    = foldl (λ st ev, (decide_and_capture ord k read_stat fd_of st ev).1) (fr_runtime r, fr_tree r, fr_sent r) waiting.
Proof.
  intros Hf waiting Hle. cbn zeta. destruct (reader_turn_allows r evs Hf) as (H1 & H2 & H3).
  fold waiting in H1, H3. rewrite take_ge in H1, H3 by done. by split_and!.
Qed.

(** Beyond that number it does not: the rest of the buffer is neither answered
    nor captured, although a comment of the code says it follows with a later
    read. *)
Theorem reader_answers_thirty_two r (evs : list (FanEvent * bytes)) :
  Forall (λ e, event_fits e.1 e.2 ∧ is_overflow e.1 = false) evs →
  let t := reader_turn ord k read_stat fd_of true r (read_bytes evs) in
  let waiting := List.filter needs_permission evs.*1 in
  t.2 = allowed <$> take RESPONSE_BATCH_MAX waiting
  ∧ (t.2 = allowed <$> waiting ↔ length waiting ≤ RESPONSE_BATCH_MAX)
  ∧ fr_alive t.1 = fr_alive r.
Proof.
  intros Hf. cbn zeta. destruct (reader_turn_allows r evs Hf) as (H1 & H2 & _).
  split_and!; [done| |done]. rewrite H1. split; [|intros Hle; by rewrite take_ge].
  intros Heq%(f_equal length). rewrite !length_fmap, length_take in Heq. lia.
Qed.

End Answers.

End FanotifyLoop.

(** ** The tier the helper starts in *)

Module Startup.

(** [CaptureTier]. *)
Inductive CaptureTier :=
  | Fanotify | EbpfLsm | EbpfLsmAvailableButDeferred | EndpointSecurity | FsEventsDegraded | KqueueOnly
  | KqueuePreloadShim | ZfsSnapshot | Degraded.

Inductive LinuxCaptureStartupError :=
  | ForcedEbpfLoadFailed | NoFallback | FanotifyUnavailable | InvalidPreferredTier.

(** Why the helper gives up: the tier, or one of the two [ok_or_else]. *)
Inductive StartError := Unresolved (e : LinuxCaptureStartupError) | NoFanotifyFd | NoRuntime.

(** [ebpf_ok] is [should_attempt_load] of the probe, [forced] the variable
    [SHIT_FORCE_TIER]. *)
Definition pick_linux_tier (ebpf_ok : bool) (forced : option string) (have_fanotify_fd : bool) : CaptureTier :=
  let fallback := if have_fanotify_fd then Fanotify else Degraded in
  if bool_decide (forced = Some "ebpf-lsm") then EbpfLsm
  else if bool_decide (forced = Some "fanotify-perm") then
    if ebpf_ok && have_fanotify_fd then EbpfLsmAvailableButDeferred else fallback
  else if ebpf_ok then EbpfLsm else fallback.

Definition resolve_linux_capture_startup (preferred_tier : CaptureTier) (ebpf_boot_succeeded : bool)
    (forced_tier : option string) (have_fanotify_fd : bool) : CaptureTier + LinuxCaptureStartupError :=
  match preferred_tier with
  | EbpfLsm =>
      if ebpf_boot_succeeded then inl EbpfLsm
      else if bool_decide (forced_tier = Some "ebpf-lsm") then inr ForcedEbpfLoadFailed
      else if have_fanotify_fd then inl Fanotify else inr NoFallback
  | Fanotify | EbpfLsmAvailableButDeferred => if have_fanotify_fd then inl Fanotify else inr FanotifyUnavailable
  | Degraded => inl Degraded
  | EndpointSecurity | FsEventsDegraded | KqueueOnly | KqueuePreloadShim | ZfsSnapshot => inr InvalidPreferredTier
  end.

Definition degrade_on_runtime_failure (tier : CaptureTier) (init_ok : bool) : bool * CaptureTier :=
  match tier with
  | Degraded => (false, Degraded)
  | _ => if init_ok then (true, tier) else (false, Degraded)
  end.

(** The start of the Linux helper, [main.rs]: the tier picked while it has its
    privileges, the runtime, the programs, and the tier it runs in, with
    whether each reader was started. *)
Definition start (ebpf_ok : bool) (forced : option string) (have_fd init_ok boot_ok : bool)
    : (CaptureTier * bool * bool) + StartError :=
  let '(runtime, setup_tier) := degrade_on_runtime_failure (pick_linux_tier ebpf_ok forced have_fd) init_ok in
  let lsm := match setup_tier with EbpfLsm => boot_ok | _ => false end in
  match resolve_linux_capture_startup setup_tier lsm forced have_fd with
  | inr e => inr (Unresolved e)
  | inl Fanotify =>
      if negb have_fd then inr NoFanotifyFd else if negb runtime then inr NoRuntime else inl (Fanotify, true, lsm)
  | inl tier => inl (tier, false, lsm)
  end.

Ltac by_tiers :=
  unfold start, pick_linux_tier, resolve_linux_capture_startup, degrade_on_runtime_failure;
  repeat match goal with b : bool |- _ => destruct b end; simpl; repeat case_bool_decide; simpl; try done.

(** The two checks behind the resolution never fail. *)
Lemma start_error ebpf_ok forced have_fd init_ok boot_ok e :
  start ebpf_ok forced have_fd init_ok boot_ok = inr e → e = Unresolved ForcedEbpfLoadFailed ∨ e = Unresolved NoFallback.
Proof. by_tiers; intros [= <-]; auto. Qed.

(** A tier forced on a helper whose runtime does not come up is given up without
    an error. *)
Theorem forced_tier_degrades have_fd boot_ok :
  start true (Some "ebpf-lsm") have_fd false boot_ok = inl (Degraded, false, false).
Proof. done. Qed.

(** The helper claims a capture only with its reader running, never runs two,
    and gives up when its operator forced a tier that does not load. *)
Theorem start_tier_live ebpf_ok forced have_fd init_ok boot_ok tier fanotify lsm :
  start ebpf_ok forced have_fd init_ok boot_ok = inl (tier, fanotify, lsm) →
  (tier = EbpfLsm ↔ lsm = true) ∧ (tier = Fanotify ↔ fanotify = true) ∧ (tier = Degraded ↔ lsm = false ∧ fanotify = false)
  ∧ (tier ≠ Degraded → init_ok = true) ∧ (forced = Some "ebpf-lsm" → tier ≠ Fanotify).
Proof. by_tiers; intros Hx; simplify_eq; split_and!; try done; naive_solver. Qed.

End Startup.

(** ** Handlers and commands *)

Module Confined.
Import Text HelperEvents LinuxCapture CaptureFacts ProcTree LsmReader.

(** The command a message of the capture names. *)
Definition sent_command (m : Sent) : option CommandId :=
  match m.1 with
  | HelperResponse.CapturedPreImage c => Some (cp_command c)
  | HelperResponse.TreeMutation s q _ _ | HelperResponse.WatchTreeReady s q => Some (mkCommandId s q)
  | _ => None
  end.

Definition sent_by (c : CommandId) (m : Sent) : Prop := sent_command m = Some c.

(** A create that waits for its directory waits for its own command. *)
Definition own_pending (c : CommandId) (ws : WatchState) : Prop :=
  ∀ key l pc, pending_creates ws !! key = Some l → pc ∈ l → pc_command pc = c.

Definition own (rt : Runtime) : Prop := map_Forall own_pending rt.

Section Handlers.
Context `{!Blobs.BlobCodec}.
Implicit Types (rt : Runtime) (ws : WatchState) (c : CommandId).

(** A step for a command speaks for it only and leaves the others alone. *)
Definition confined c rt (r : Runtime * list Sent) : Prop :=
  own rt → own r.1 ∧ Forall (sent_by c) r.2 ∧ ∀ c', c' ≠ c → r.1 !! c' = rt !! c'.

(** The same of a step on the command's own state. *)
Definition confined_on c ws (r : WatchState * list Sent) : Prop :=
  pending_creates r.1 = pending_creates ws ∧ Forall (sent_by c) r.2.

Lemma own_default rt c : own rt → own_pending c (default default_watch (rt !! c)).
Proof. intros Ho. destruct (rt !! c) as [ws|] eqn:Hc; [by apply (Ho c)|]. intros key l pc. simpl. by rewrite lookup_empty. Qed.

Lemma own_insert rt c ws : own rt → own_pending c ws → own (<[c := ws]> rt).
Proof. intros Ho Hw. by apply map_Forall_insert_2. Qed.

Lemma confined_refl c rt : confined c rt (rt, []).
Proof. by intros Ho. Qed.

Lemma confined_insert c rt ws out :
  (own rt → own_pending c ws ∧ Forall (sent_by c) out) → confined c rt (<[c := ws]> rt, out).
Proof.
  intros Hw Ho. destruct (Hw Ho) as [Hp Hs]. split_and!; [by apply own_insert|done|].
  intros c' Hne. by apply lookup_insert_ne.
Qed.

Lemma confined_trans c rt rt' out r : confined c rt (rt', out) → confined c rt' r → confined c rt (r.1, out ++ r.2).
Proof.
  intros H1 H2 Ho. destruct (H1 Ho) as (Ho1 & Hs1 & Hf1), (H2 Ho1) as (Ho2 & Hs2 & Hf2).
  split_and!; [done|by apply Forall_app|]. intros c' Hne. simpl. by rewrite Hf2, Hf1.
Qed.

Lemma confined_on_watch c rt f : (∀ ws, confined_on c ws (f ws)) → confined c rt (on_watch rt c f).
Proof.
  intros Hf. unfold on_watch. destruct (Hf (default default_watch (rt !! c))) as [Hp Hs]. destruct (f _) as [ws out].
  apply confined_insert. intros Ho. split; [|done]. simpl in Hp. intros key l pc. rewrite Hp. by apply own_default.
Qed.

Lemma sent_captured c key path h n post mode uid gid mtime xs del fd :
  sent_by c (captured c key path h n post mode uid gid mtime xs del, fd).
Proof. unfold sent_by, sent_command. simpl. by destruct c. Qed.

Lemma confined_on_refl c ws : confined_on c ws (ws, []).
Proof. by split. Qed.

Lemma confined_on_send k c ws ws0 resp fd :
  pending_creates ws = pending_creates ws0 → sent_by c (resp, fd) → confined_on c ws0 (send k ws resp fd).
Proof. intros Hp Hs. unfold send. destruct (k_sends k resp); split; simpl; auto. Qed.

Lemma confined_on_send_mark k c ws ws0 resp fd key inv :
  pending_creates ws = pending_creates ws0 → sent_by c (resp, fd) →
  confined_on c ws0 (let '(ws', out) := send k ws resp fd in (mark ws' key inv, out)).
Proof. intros Hp Hs. unfold send. destruct (k_sends k resp); split; simpl; auto. Qed.

Lemma sent_tree c op ts fd : sent_by c (HelperResponse.TreeMutation (session c) (seq c) op ts, fd).
Proof. unfold sent_by, sent_command. simpl. by destruct c. Qed.

Ltac by_confined := repeat first
  [ done | apply confined_on_refl | apply sent_captured | apply sent_tree
  | apply confined_on_send | apply confined_on_send_mark | case_match ].

Lemma confined_unlink k ws ev : confined_on (lu_command ev) ws (handle_lsm_unlink_on k ws ev).
Proof.
  unfold handle_lsm_unlink_on. destruct (resolve_via_parent _ _ _ _) as [path|]; [|by split].
  unfold take_fd. destruct (pre_opens _ !! _) as [fd|].
  - destruct (if race_won _ _ _ _ then _ else _) as [[[n h] st] meta]. by_confined.
  - destruct (match k_open k _ with Some f => _ | None => _ end) as [[[n h] st] meta]. by_confined.
Qed.

Lemma confined_rename k ws ev : confined_on (ln_command ev) ws (handle_lsm_rename_on k ws ev).
Proof.
  unfold handle_lsm_rename_on. destruct (resolve_via_parent _ _ _ _) as [from|]; [|by split].
  destruct (resolve_via_parent _ _ _ _) as [to|]; [|by split].
  assert (confined_on (ln_command ev) ws (send_replaced k ws (ln_command ev) to)) as Hr
    by (unfold send_replaced; by_confined).
  destruct (send_replaced _ _ _ _) as [ws1 out1]. destruct Hr as [Hp1 Hs1]. cbn [fst snd] in *.
  assert (∀ op ts, confined_on (ln_command ev) ws (send k ws1
    (HelperResponse.TreeMutation (session (ln_command ev)) (seq (ln_command ev)) op ts) None)) as Hx
    by (intros op ts; apply confined_on_send, sent_tree; done).
  specialize (Hx (TreeOpWire.Rename from to (kernel_dev_to_userspace (ln_dev ev)) (ln_inode ev)) (k_now k)).
  destruct (send _ _ _ _) as [ws2 out2]. destruct Hx as [Hp2 Hs2]. split; [done|]. by apply Forall_app.
Qed.

Lemma confined_create k rt c path mode : confined c rt (process_lsm_create_resolved k rt c path mode).
Proof.
  unfold process_lsm_create_resolved. destruct (default _ _) as [[dev inode] ft].
  destruct ft; try apply confined_refl; (destruct (negb _);
    [intros Ho; split_and!; [|done|by intros c' Hne; apply lookup_alter_ne];
     cbn [fst]; intros c' ws'; rewrite lookup_alter_Some; intros [(<- & ws & Hc & ->)|[_ Hc]]; by apply (Ho _ _ Hc)|];
    destruct (k_open_nonblock k path); [apply confined_insert|intros Ho; split_and!; try done; repeat constructor; apply sent_tree];
    intros Ho; split; [|repeat constructor; apply sent_tree];
    intros key l pc; cbn [pending_creates mark set_dedupe set_path_to_inode set_pre_opens];
    repeat case_match; by apply own_default).
Qed.

Lemma confined_drain k c dir l : ∀ rt0 rt out,
  Forall (λ pc, pc_command pc = c) l → confined c rt0 (rt, out) →
  confined c rt0 (foldl (drain_one k dir) (rt, out) l).
Proof.
  induction l as [|pc l IH]; intros rt0 rt out Hl Hc; [done|]. apply Forall_cons in Hl as [Hpc Hl].
  cbn [foldl]. unfold drain_one at 2. rewrite Hpc.
  pose proof (confined_create k rt c (join dir (pc_basename pc)) (pc_mode pc)) as Hn.
  destruct (process_lsm_create_resolved _ _ _ _ _) as [rt' out'].
  apply IH; [done|]. by apply (confined_trans c rt0 rt out (rt', out')).
Qed.

Lemma confined_mkdir k rt ev : confined (lm_command ev) rt (handle_lsm_mkdir k rt ev).
Proof.
  unfold handle_lsm_mkdir. set (c := lm_command ev). intros Ho. pose proof (own_default rt c Ho) as Hd. revert Ho.
  destruct (resolve_via_parent _ _ _ _) as [path|]; [|by apply confined_insert].
  set (key := default _ _). destruct (if negb _ then _ else _) as [ws1 drained] eqn:Hw.
  assert (own_pending c ws1 ∧ Forall (λ pc, pc_command pc = c) drained) as [Hp Hl].
  { case_match; injection Hw as <- <-; [|done]. split.
    - intros key' l pc. simpl. rewrite lookup_delete_Some. intros [_ Hl]. by apply (Hd key' l).
    - destruct (pending_creates _ !! key) as [l|] eqn:Hl; [|constructor].
      apply Forall_forall. intros pc. by apply (Hd key l). }
  destruct (confined_on_send k c ws1 ws1 (HelperResponse.TreeMutation (session c) (seq c)
    (TreeOpWire.Create key.1 key.2 (path_string (path_of_string path)) FileKind.Directory (lm_mode ev)) (k_now k)) None
    eq_refl (sent_tree _ _ _ _)) as [Hp2 Hs].
  destruct (send _ _ _ _) as [ws2 out]. apply confined_drain; [done|]. apply confined_insert. intros _.
  split; [|done]. intros key' l pc. simpl in Hp2. rewrite Hp2. apply Hp.
Qed.

Lemma confined_create_event k rt ev : confined (lc_command ev) rt (handle_lsm_create k rt ev).
Proof.
  unfold handle_lsm_create. set (c := lc_command ev). destruct (resolve_via_parent _ _ _ _) as [path|].
  - pose proof (confined_trans c rt (<[c := default default_watch (rt !! c)]> rt) []
      (process_lsm_create_resolved k (<[c := default default_watch (rt !! c)]> rt) c (path_of_string path) (lc_mode ev))) as Ht.
    simpl in Ht. destruct (process_lsm_create_resolved _ _ _ _ _) eqn:Hr. rewrite <- Hr in Ht.
    rewrite <- Hr. apply Ht; [|apply confined_create]. apply confined_insert. intros Ho. split; [by apply own_default|done].
  - apply confined_insert. intros Ho. split; [|done]. intros key l pc. simpl.
    rewrite lookup_insert_Some. intros [[<- <-]|[_ Hl]]; [|by apply (own_default rt c Ho key)].
    intros [Hin| ->%list_elem_of_singleton]%elem_of_app; [|done].
    destruct (pending_creates _ !! _) as [l|] eqn:Hl; [by eapply (own_default rt c Ho)|by apply elem_of_nil in Hin].
Qed.

(** Each handler of the hooks is confined to the command of its view. *)
Lemma event_confined k v rt : confined (view_command v) rt (helper_step rt (event_of k v)).
Proof.
  destruct v; cbn [helper_step event_of view_command]; try (apply confined_on_watch; intros ws).
  - apply confined_unlink.
  - unfold handle_lsm_setattr_on. by_confined.
  - apply confined_mkdir.
  - apply confined_create_event.
  - unfold handle_lsm_open_on. by_confined.
  - unfold handle_lsm_release_on. by_confined.
  - apply confined_rename.
Qed.

Lemma confined_fanotify k ev rt : confined (fe_command ev) rt (handle_event k rt ev).
Proof. apply confined_on_watch. intros ws. unfold handle_event_on. by_confined. Qed.

Lemma confined_watched k c rt cwd : confined c rt (pre_open_tree k rt c cwd, []).
Proof.
  unfold pre_open_tree. destruct (k_stat k cwd); apply confined_insert; intros Ho; (split; [|done]);
    intros key l pc; rewrite ?pre_open_pending; by apply (own_default rt c Ho).
Qed.

Lemma confined_begin c rt : confined c rt (on_watch_tree rt c, []).
Proof. apply confined_insert. intros Ho. split; [by apply own_default|done]. Qed.

Lemma confined_end c rt : confined c rt (on_unwatch_tree rt c, []).
Proof.
  intros Ho. split_and!; [by apply map_Forall_delete|done|]. intros c' Hne. by apply lookup_delete_ne.
Qed.

End Handlers.

End Confined.

(** ** The threads of the helper *)

Module HelperLoop.
Import Text HelperEvents LinuxCapture CaptureFacts ProcTree LsmReader Confined.

(** The request the main loop is at: it has locked the trees, not yet the
    runtime. *)
Inductive Request := Idle | Watching (c : CommandId) | Unwatching (c : CommandId).

(** [hp_flight]: the view a reader has built and not yet handed over. *)
Record Helper := mkHelper {
  hp_runtime : Runtime; hp_tree : TreeMap; hp_flight : gmap Ring LsmView; hp_main : Request;
}.

Definition helper_new : Helper := mkHelper ∅ tree_new ∅ Idle.

(** What happens next: the main loop takes a request up or finishes it, a
    reader takes a record up or hands its view over; with what the system
    answers meanwhile. *)
Inductive Step :=
  | TakeWatch (c : CommandId) (root : N)
  | FinishWatch (k : Kernel) (cwd : option PathBuf)
  | TakeUnwatch (c : CommandId)
  | FinishUnwatch
  | TakeRecord (read_stat : Z → option string) (ring : Ring) (record : bytes)
  | HandOver (k : Kernel) (ring : Ring).

Section Loop.
Context `{!Blobs.BlobCodec} (ord : HashOrder CommandId TrackedTree) (excluded_pids : list N).
Implicit Types h : Helper.

(** [HelperRequest::WatchTree] up to the first lock it gives back, and from
    the second on. *)
Definition take_watch h (c : CommandId) (root : N) : Helper :=
  mkHelper (hp_runtime h) (watch (hp_tree h) c (as_i32 root)) (hp_flight h) (Watching c).

Definition finish_watch (k : Kernel) h (c : CommandId) (cwd : option PathBuf) : Helper * list Sent :=
  let rt := on_watch_tree (hp_runtime h) c in
  let rt := match cwd with Some cwd => pre_open_tree k rt c cwd | None => rt end in
  let ready := HelperResponse.WatchTreeReady (session c) (seq c) in
  (mkHelper rt (hp_tree h) (hp_flight h) Idle, if k_sends k ready then [(ready, None)] else []).

Definition take_unwatch h (c : CommandId) : Helper :=
  mkHelper (hp_runtime h) (unwatch (hp_tree h) c) (hp_flight h) (Unwatching c).

Definition finish_unwatch h (c : CommandId) : Helper :=
  mkHelper (on_unwatch_tree (hp_runtime h) c) (hp_tree h) (hp_flight h) Idle.

Definition take_record (read_stat : Z → option string) h (ring : Ring) (record : bytes) : Helper :=
  let '(tm, v) := handle_record ord read_stat excluded_pids (hp_tree h) ring record in
  mkHelper (hp_runtime h) tm (partial_alter (λ _, v) ring (hp_flight h)) (hp_main h).

Definition hand_over (k : Kernel) h (ring : Ring) (v : LsmView) : Helper * list Sent :=
  let '(rt, out) := helper_step (hp_runtime h) (event_of k v) in
  (mkHelper rt (hp_tree h) (delete ring (hp_flight h)) (hp_main h), out).

(** A step, unless the thread is not at that point. *)
Definition loop_step h (s : Step) : option (Helper * list Sent) :=
  match s, hp_main h with
  | TakeWatch c root, Idle => Some (take_watch h c root, [])
  | FinishWatch k cwd, Watching c => Some (finish_watch k h c cwd)
  | TakeUnwatch c, Idle => Some (take_unwatch h c, [])
  | FinishUnwatch, Unwatching c => Some (finish_unwatch h c, [])
  | TakeRecord read_stat ring record, _ =>
      match hp_flight h !! ring with
      | Some _ => None
      | None => Some (take_record read_stat h ring record, [])
      end
  | HandOver k ring, _ => v ← hp_flight h !! ring; Some (hand_over k h ring v)
  | _, _ => None
  end.

Fixpoint loop_run h (ss : list Step) : option (Helper * list Sent) :=
  match ss with
  | [] => Some (h, [])
  | s :: ss' =>
      '(h1, out1) ← loop_step h s; '(h2, out2) ← loop_run h1 ss'; Some (h2, out1 ++ out2)
  end.

End Loop.

(** The commands the daemon asked to watch. *)
Definition asked (ss : list Step) : gset CommandId :=
  list_to_set (omap (λ s, match s with TakeWatch c _ => Some c | _ => None end) ss).

(** ** What a run can do *)

Section Sound.
Context `{!Blobs.BlobCodec} (ord : HashOrder CommandId TrackedTree) (excluded_pids : list N).
Implicit Types (h : Helper) (tm : TreeMap) (W : gset CommandId) (c : CommandId).

(** A cached answer names a tree that is there. *)
Definition tree_ok tm : Prop := ∀ pid c, pid_cache tm !! pid = Some (Some c) → c ∈ dom (trees tm).

(** A look-up that answers from the trees and may grow the cache. *)
Definition looked_up tm (r : TreeMap * option CommandId) : Prop :=
  tree_ok tm → tree_ok r.1 ∧ dom (trees r.1) = dom (trees tm) ∧ (∀ c, r.2 = Some c → c ∈ dom (trees tm)).

Lemma rooted_at_tree tm pid c : rooted_at ord tm pid = Some c → ∃ t, trees tm !! c = Some t ∧ root_pid t = pid.
Proof.
  unfold rooted_at. intros ([c' t] & Hf & [= ->])%fmap_Some. apply find_some in Hf as [Hin Hb].
  apply bool_decide_eq_true in Hb. exists t. split; [|done]. by apply (elem_of_hash_iter ord), list_elem_of_In.
Qed.

Lemma rooted_at_none tm pid : rooted_at ord tm pid = None ↔ ∀ c t, trees tm !! c = Some t → root_pid t ≠ pid.
Proof.
  unfold rooted_at. rewrite fmap_None. split.
  - intros Hf c t Ht. apply (elem_of_hash_iter ord), list_elem_of_In in Ht.
    by apply (find_none _ _ Hf), bool_decide_eq_false in Ht.
  - intros Hn. destruct (List.find _ _) as [[c t]|] eqn:Hf; [|done]. apply find_some in Hf as [Hin Hb].
    apply bool_decide_eq_true in Hb. apply list_elem_of_In, (elem_of_hash_iter ord) in Hin. by destruct (Hn c t).
Qed.

Lemma rooted_at_dom tm pid c : rooted_at ord tm pid = Some c → c ∈ dom (trees tm).
Proof. intros (t & Ht & _)%rooted_at_tree. by apply elem_of_dom. Qed.

Lemma resolve_from_dom read_stat depth tm : ∀ pid c,
  resolve_from ord read_stat depth tm pid = Some c → c ∈ dom (trees tm).
Proof.
  induction depth as [|depth IH]; intros pid c; [done|]. simpl.
  destruct (rooted_at ord tm pid) eqn:Hr; [intros [= ->]; by eapply rooted_at_dom|].
  destruct (parent_pid read_stat pid); [|done]. case_bool_decide; [done|]. apply IH.
Qed.

Lemma add_member_dom tm r pid : dom (trees (add_member tm r pid)) = dom (trees tm).
Proof. destruct r; [|done]. simpl. apply dom_alter_L. Qed.

Lemma add_member_cache tm r pid : pid_cache (add_member tm r pid) = pid_cache tm.
Proof. by destruct r. Qed.

(** The ways a look-up ends. *)
Lemma looked_up_cached tm pid r : pid_cache tm !! pid = Some r → looked_up tm (tm, r).
Proof. intros Hc Hok. split_and!; [done..|]. intros c [= ->]. by apply (Hok pid). Qed.

Lemma looked_up_answer tm pid r :
  (∀ c, r = Some c → c ∈ dom (trees tm)) → looked_up tm (add_member (cache tm pid r) r pid, r).
Proof.
  intros Hr Hok. cbn [fst snd]. split_and!; [|by rewrite add_member_dom|done]. intros pid' c. simpl.
  rewrite add_member_cache, add_member_dom. simpl. rewrite lookup_insert_Some.
  intros [[<- ->]|[_ Hc]]; [by apply Hr|by apply (Hok pid')].
Qed.

Lemma is_tracked_ok read_stat tm pid : looked_up tm (is_tracked ord read_stat tm pid).
Proof.
  unfold is_tracked. destruct (pid_cache tm !! pid) eqn:Hc; [by eapply looked_up_cached|].
  apply looked_up_answer. intros c. apply resolve_from_dom.
Qed.

Lemma is_tracked_with_parent_ok read_stat tm pid parent :
  looked_up tm (is_tracked_with_parent ord read_stat tm pid parent).
Proof.
  unfold is_tracked_with_parent. destruct (pid_cache tm !! pid) eqn:Hc; [by eapply looked_up_cached|].
  destruct (rooted_at ord tm pid) as [c|] eqn:Hr.
  - apply rooted_at_dom in Hr. intros Hok. split_and!; [|done|by intros ? [= <-]].
    intros pid' c'. simpl. rewrite lookup_insert_Some. intros [[_ [= <-]]|[_ Hc']]; [done|by apply (Hok pid')].
  - destruct (if bool_decide _ then _ else _) as [c|] eqn:Hp.
    + apply looked_up_answer. intros c' [= <-]. case_bool_decide; [|done]. by apply rooted_at_dom in Hp.
    + apply looked_up_answer. intros c. apply resolve_from_dom.
Qed.

(** A record becomes a view of a watched command, or nothing. *)
Definition viewed tm (r : TreeMap * option LsmView) : Prop :=
  tree_ok tm → tree_ok r.1 ∧ dom (trees r.1) = dom (trees tm) ∧ (∀ v, r.2 = Some v → view_command v ∈ dom (trees tm)).

Lemma viewed_none tm : viewed tm (tm, None).
Proof. by intros Hok. Qed.

Lemma attributed_ok read_stat tm hdr view :
  (∀ c, view_command (view c) = c) → viewed tm (attributed ord read_stat excluded_pids tm hdr view).
Proof.
  intros Hv. unfold attributed. case_bool_decide; [apply viewed_none|]. intros Hok.
  destruct (is_tracked_with_parent_ok read_stat tm (as_i32 (h_pid hdr)) (as_i32 (h_parent_pid hdr)) Hok) as (H1 & H2 & H3).
  destruct (is_tracked_with_parent _ _ _ _ _) as [tm' r]. split_and!; [done..|].
  intros v (c & -> & ->)%fmap_Some. rewrite Hv. by apply H3.
Qed.

Lemma handle_record_ok read_stat tm ring b : viewed tm (handle_record ord read_stat excluded_pids tm ring b).
Proof.
  destruct ring; unfold handle_record, decoded; case_match; try apply viewed_none; by apply attributed_ok.
Qed.

Record sound W h : Prop := {
  so_cache : tree_ok (hp_tree h);
  so_trees : dom (trees (hp_tree h)) ⊆ W;
  so_flight : map_Forall (λ _ v, view_command v ∈ W) (hp_flight h);
  so_main c : hp_main h = Watching c → c ∈ W;
  so_own : own (hp_runtime h);
}.

(** A message that names a command of a set. *)
Definition speaks_of W (m : Sent) : Prop := ∃ c, sent_command m = Some c ∧ c ∈ W.

Lemma sent_by_speaks W c out : c ∈ W → Forall (sent_by c) out → Forall (speaks_of W) out.
Proof. intros Hc Hf. eapply Forall_impl; [done|]. intros m Hm. by exists c. Qed.

Lemma sound_mono W W' h : W ⊆ W' → sound W h → sound W' h.
Proof.
  intros Hw [H1 H2 H3 H4 H5]. split; [done|by etrans| |by intros c Hc; apply Hw, H4|done].
  intros ring v Hv. apply Hw. by apply (H3 ring).
Qed.

Lemma watch_ok tm c root : tree_ok (watch tm c root).
Proof. intros pid c'. simpl. by rewrite lookup_empty. Qed.

Lemma unwatch_ok tm c : tree_ok (unwatch tm c).
Proof. intros pid c'. simpl. by rewrite lookup_empty. Qed.

Lemma take_record_flight read_stat h ring record W :
  sound W h → sound W (take_record ord excluded_pids read_stat h ring record).
Proof.
  intros [H1 H2 H3 H4 H5]. unfold take_record.
  destruct (handle_record_ok read_stat (hp_tree h) ring record H1) as (Hc & Hd & Hv).
  destruct (handle_record _ _ _ _ _ _) as [tm v]. simpl in *. split; simpl; [done|by rewrite Hd| |done..].
  intros ring' v'. destruct (decide (ring' = ring)) as [->|Hne].
  - rewrite lookup_partial_alter_eq. intros Hx. by apply H2, Hv.
  - rewrite lookup_partial_alter_ne by done. apply H3.
Qed.

Lemma loop_step_sound W h s h' out :
  sound W h → loop_step ord excluded_pids h s = Some (h', out) →
  sound (W ∪ asked [s]) h' ∧ Forall (speaks_of (W ∪ asked [s])) out.
Proof.
  intros Hs Hx. destruct (sound_mono W (W ∪ asked [s]) h ltac:(set_solver) Hs) as [H1 H2 H3 H4 H5].
  destruct s; unfold loop_step in Hx.
  - destruct (hp_main h); try done. injection Hx as <- <-. split; [|constructor]. split; simpl; [apply watch_ok| |done| |done].
    + rewrite dom_insert. unfold asked. simpl. set_solver.
    + intros c' [= ->]. unfold asked. simpl. set_solver.
  - destruct (hp_main h) as [|c|c] eqn:Hm; try done. injection Hx as <- <-. pose proof (H4 c eq_refl) as Hc. split.
    + split; simpl; [done..|]. destruct (confined_begin c (hp_runtime h) H5) as (Ho & _).
      destruct cwd as [cwd|]; [|done]. by destruct (confined_watched k c (on_watch_tree (hp_runtime h) c) cwd Ho).
    + case_match; [|constructor]. repeat constructor. exists c. split; [by destruct c|done].
  - destruct (hp_main h); try done. injection Hx as <- <-. split; [|constructor]. split; simpl; [apply unwatch_ok| |done..].
    rewrite dom_delete. set_solver.
  - destruct (hp_main h) as [|c|c] eqn:Hm; try done. injection Hx as <- <-. split; [|constructor]. split; simpl; [done..|].
    by destruct (confined_end c (hp_runtime h) H5).
  - assert (loop_step ord excluded_pids h (TakeRecord read_stat ring record) = Some (h', out)) as Hx' by exact Hx.
    simpl in Hx'. destruct (hp_flight h !! ring); [by destruct (hp_main h)|].
    assert (h' = take_record ord excluded_pids read_stat h ring record ∧ out = []) as [-> ->]
      by (destruct (hp_main h); by injection Hx').
    split; [|constructor]. by apply take_record_flight.
  - assert (∃ v, hp_flight h !! ring = Some v ∧ hand_over k h ring v = (h', out)) as (v & Hv & Hh)
      by (destruct (hp_main h); apply bind_Some in Hx as (v & Hv & [= Hh]); eauto).
    unfold hand_over in Hh. pose proof (event_confined k v (hp_runtime h) H5) as Hc.
    destruct (helper_step _ _) as [rt o]. injection Hh as <- <-. destruct Hc as (Ho & Hsent & _). split.
    + split; simpl; [done..| |done|done]. by apply map_Forall_delete.
    + eapply sent_by_speaks; [|done]. by apply (H3 ring).
Qed.

Lemma asked_cons s ss : asked (s :: ss) = asked [s] ∪ asked ss.
Proof. unfold asked. simpl. destruct s; simpl; set_solver. Qed.

Lemma loop_run_sound W ss : ∀ h h' out,
  sound W h → loop_run ord excluded_pids h ss = Some (h', out) →
  sound (W ∪ asked ss) h' ∧ Forall (speaks_of (W ∪ asked ss)) out.
Proof.
  revert W. induction ss as [|s ss IH]; intros W h h' out Hs Hr.
  - injection Hr as <- <-. split; [|constructor]. eapply sound_mono; [|done]. set_solver.
  - simpl in Hr. apply bind_Some in Hr as ([h1 out1] & H1 & Hr). apply bind_Some in Hr as ([h2 out2] & H2 & [= <- <-]).
    destruct (loop_step_sound W h s h1 out1 Hs H1) as [Hs1 Ho1].
    destruct (IH _ h1 h2 out2 Hs1 H2) as [Hs2 Ho2].
    rewrite asked_cons, (assoc_L (∪)). split; [done|]. apply Forall_app. split; [|done].
    eapply Forall_impl; [done|]. intros m (c & Hm & Hc). exists c. set_solver.
Qed.

Lemma sound_new : sound ∅ helper_new.
Proof. split; simpl; [|by rewrite dom_empty_L|done..]. intros pid c. simpl. by rewrite lookup_empty. Qed.

(** C9. However the main loop and the readers interleave, and whatever the system
    and [/proc] answer, each message of the helper names a command that the
    daemon asked it to watch. *)
Theorem helper_speaks_of_watched ss h out :
  loop_run ord excluded_pids helper_new ss = Some (h, out) → Forall (speaks_of (asked ss)) out.
Proof. intros Hr. destruct (loop_run_sound ∅ ss _ _ _ sound_new Hr) as [_ Ho]. by rewrite (left_id_L ∅ (∪)) in Ho. Qed.

(** Nothing of a command is left, but for what the main loop is about to remove. *)
Record gone c h : Prop := {
  go_cache : tree_ok (hp_tree h);
  go_tree : c ∉ dom (trees (hp_tree h));
  go_flight : map_Forall (λ _ v, view_command v ≠ c) (hp_flight h);
  go_main : hp_main h ≠ Watching c;
  go_runtime : hp_main h = Unwatching c ∨ hp_runtime h !! c = None;
  go_own : own (hp_runtime h);
}.

Definition not_of c (m : Sent) : Prop := sent_command m ≠ Some c.

Lemma sent_by_other c c' out : c' ≠ c → Forall (sent_by c') out → Forall (not_of c) out.
Proof. intros Hne Hf. eapply Forall_impl; [done|]. unfold sent_by, not_of. naive_solver. Qed.

(** A confined step for another command. *)
Lemma gone_confined c c' rt r :
  c' ≠ c → own rt → confined c' rt r →
  own r.1 ∧ Forall (not_of c) r.2 ∧ r.1 !! c = rt !! c.
Proof. intros Hne Ho Hc. destruct (Hc Ho) as (H1 & H2 & H3). split_and!; [done|by eapply sent_by_other|by apply H3]. Qed.

Lemma take_record_gone read_stat c h ring record :
  gone c h → gone c (take_record ord excluded_pids read_stat h ring record).
Proof.
  intros [H1 H2 H3 H4 H5 H6]. unfold take_record.
  destruct (handle_record_ok read_stat (hp_tree h) ring record H1) as (Hc & Hd & Hv).
  destruct (handle_record _ _ _ _ _ _) as [tm v]. simpl in *. split; simpl; [done|by rewrite Hd| |done..].
  intros ring' v'. destruct (decide (ring' = ring)) as [->|Hne].
  - rewrite lookup_partial_alter_eq. intros Hx <-. by apply H2, Hv.
  - rewrite lookup_partial_alter_ne by done. apply H3.
Qed.

Lemma finish_watch_gone k cwd c c' h :
  hp_main h = Watching c' → gone c h →
  gone c (finish_watch k h c' cwd).1 ∧ Forall (not_of c) (finish_watch k h c' cwd).2.
Proof.
  intros Hm [H1 H2 H3 H4 H5 H6]. assert (c' ≠ c) as Hne by (intros ->; done).
  destruct H5 as [H5|H5]; [by rewrite Hm in H5|].
  destruct (gone_confined c c' _ _ Hne H6 (confined_begin c' (hp_runtime h))) as (Ho & _ & Hl). cbn [fst snd] in *.
  assert (∀ p, own (pre_open_tree k (on_watch_tree (hp_runtime h) c') c' p)
    ∧ pre_open_tree k (on_watch_tree (hp_runtime h) c') c' p !! c = None) as Hp.
  { intros p. destruct (gone_confined c c' _ _ Hne Ho (confined_watched k c' (on_watch_tree (hp_runtime h) c') p))
      as (Ho2 & _ & Hl2). cbn [fst snd] in *. split; [done|congruence]. }
  split.
  - destruct cwd as [p|]; split; simpl; try done; [right|apply Hp|right; congruence]. by destruct (Hp p).
  - simpl. case_match; repeat constructor. unfold not_of. simpl. intros [= Hc]. apply Hne. by rewrite <- Hc; destruct c'.
Qed.

Lemma hand_over_gone k c h ring v :
  hp_flight h !! ring = Some v → gone c h →
  gone c (hand_over k h ring v).1 ∧ Forall (not_of c) (hand_over k h ring v).2.
Proof.
  intros Hv [H1 H2 H3 H4 H5 H6]. unfold hand_over. pose proof (H3 _ _ Hv) as Hne. simpl in Hne.
  destruct (gone_confined c (view_command v) _ _ Hne H6 (event_confined k v (hp_runtime h))) as (Ho & Hs & Hl).
  destruct (helper_step _ _) as [rt o]. cbn [fst snd] in *. split; [|done].
  split; simpl; [done..|by apply map_Forall_delete|done|by rewrite Hl|done].
Qed.

Lemma loop_step_gone c h s h' out :
  gone c h → c ∉ asked [s] → loop_step ord excluded_pids h s = Some (h', out) →
  gone c h' ∧ Forall (not_of c) out.
Proof.
  intros Hg Ha Hx. destruct s; unfold loop_step in Hx.
  - destruct (hp_main h) eqn:Hm; try done. injection Hx as <- <-. split; [|constructor].
    unfold asked in Ha. simpl in Ha. destruct Hg as [H1 H2 H3 H4 H5 H6]. rewrite Hm in H5.
    split; simpl; [apply watch_ok| |done| |destruct H5; [done|by right]|done].
    + rewrite dom_insert. set_solver.
    + intros [= ->]. set_solver.
  - destruct (hp_main h) as [|c'|c'] eqn:Hm; try done. injection Hx as <- <-. by apply finish_watch_gone.
  - destruct (hp_main h) eqn:Hm; try done. injection Hx as <- <-. split; [|constructor].
    destruct Hg as [H1 H2 H3 H4 H5 H6]. rewrite Hm in H5.
    split; simpl; [apply unwatch_ok|rewrite dom_delete; set_solver|done|done|destruct H5; [done|by right]|done].
  - destruct (hp_main h) as [|c'|c'] eqn:Hm; try done. injection Hx as <- <-. split; [|constructor].
    destruct Hg as [H1 H2 H3 H4 H5 H6]. split; simpl; [done..| |].
    + right. unfold on_unwatch_tree. destruct (decide (c' = c)) as [->|Hne]; [by rewrite lookup_delete_eq|].
      rewrite lookup_delete_ne by done. rewrite Hm in H5. destruct H5 as [[= ->]|]; done.
    + by destruct (confined_end c' (hp_runtime h) H6).
  - assert (h' = take_record ord excluded_pids read_stat h ring record ∧ out = []) as [-> ->]
      by (destruct (hp_main h), (hp_flight h !! ring); try done; by injection Hx).
    split; [|constructor]. by apply take_record_gone.
  - assert (∃ v, hp_flight h !! ring = Some v ∧ hand_over k h ring v = (h', out)) as (v & Hv & Hh)
      by (destruct (hp_main h); apply bind_Some in Hx as (v & Hv & [= Hh]); eauto).
    destruct (hand_over_gone k c h ring v Hv Hg) as [H1 H2]. by rewrite Hh in H1, H2.
Qed.

Lemma loop_run_gone c ss : ∀ h h' out,
  gone c h → c ∉ asked ss → loop_run ord excluded_pids h ss = Some (h', out) → gone c h' ∧ Forall (not_of c) out.
Proof.
  induction ss as [|s ss IH]; intros h h' out Hg Ha Hr.
  - injection Hr as <- <-. by split.
  - rewrite asked_cons in Ha. simpl in Hr. apply bind_Some in Hr as ([h1 out1] & H1 & Hr).
    apply bind_Some in Hr as ([h2 out2] & H2 & [= <- <-]).
    destruct (loop_step_gone c h s h1 out1 Hg ltac:(set_solver) H1) as [Hg1 Ho1].
    destruct (IH h1 h2 out2 Hg1 ltac:(set_solver) H2). split; [done|]. by apply Forall_app.
Qed.

(** C10. Once the daemon has ended a watch, and no reader holds a view of the command
    at that moment, the helper sends nothing more for the command until it is
    watched again, and forgets what it kept of it. *)
Theorem silent_after_unwatch c ss0 h0 out0 ss h out :
  loop_run ord excluded_pids helper_new ss0 = Some (h0, out0) →
  map_Forall (λ _ v, view_command v ≠ c) (hp_flight h0) →
  c ∉ asked ss →
  loop_run ord excluded_pids h0 (TakeUnwatch c :: ss) = Some (h, out) →
  Forall (λ m, sent_command m ≠ Some c) out ∧ (hp_main h = Unwatching c ∨ hp_runtime h !! c = None).
Proof.
  intros H0 Hf Ha Hr. destruct (loop_run_sound ∅ ss0 _ _ _ sound_new H0) as [[_ _ _ _ Hown] _].
  simpl in Hr. apply bind_Some in Hr as ([h1 out1] & H1 & Hr). apply bind_Some in Hr as ([h2 out2] & H2 & [= <- <-]).
  destruct (hp_main h0); try done. injection H1 as <- <-.
  destruct (loop_run_gone c ss (take_unwatch h0 c) h2 out2) as [Hg Ho]; [|done|done|by split; [|apply Hg]].
  split; simpl; [apply unwatch_ok|rewrite dom_delete; set_solver|done|done|by left|done].
Qed.

(** The process is a child of the root of one watched command, of no other, and
    nothing is known of it yet. *)
Record child_of tm (hdr : EventHeader) c (t : TrackedTree) : Prop := {
  ch_tree : trees tm !! c = Some t;
  ch_parent : as_i32 (h_parent_pid hdr) = root_pid t;
  ch_positive : (0 < root_pid t)%Z;
  ch_only c' t' : trees tm !! c' = Some t' → root_pid t' = root_pid t → c' = c;
  ch_not_root c' t' : trees tm !! c' = Some t' → root_pid t' ≠ as_i32 (h_pid hdr);
  ch_unknown : pid_cache tm !! as_i32 (h_pid hdr) = None;
  ch_counted : h_pid hdr ∉ excluded_pids;
}.

Lemma child_tracked read_stat tm hdr c t view :
  child_of tm hdr c t → (attributed ord read_stat excluded_pids tm hdr view).2 = Some (view c).
Proof.
  intros [Ht Hp Hpos Honly Hroot Hu Hex]. unfold attributed. rewrite bool_decide_eq_false_2 by done.
  unfold is_tracked_with_parent. rewrite Hu. destruct (rooted_at ord tm (as_i32 (h_pid hdr))) as [c0|] eqn:Hr.
  { apply rooted_at_tree in Hr as (t0 & Ht0 & Hx). by destruct (Hroot c0 t0). }
  rewrite Hp, bool_decide_eq_true_2 by done. destruct (rooted_at ord tm (root_pid t)) as [c1|] eqn:Hr1.
  - apply rooted_at_tree in Hr1 as (t1 & Ht1 & Hx). by rewrite (Honly c1 t1).
  - rewrite rooted_at_none in Hr1. by destruct (Hr1 c t).
Qed.

(** C8. The removal of a file by a child of a watched shell reaches the capture of
    its command even if the process is already gone. The shell is the root of
    this watched command and of no other, as it is unless the end of an earlier
    command was lost; the process is the root of none, is no process of the
    helper's own and has no answer in the cache of processes; and the reader
    of the ring has finished the record before. Then whatever [/proc] answers,
    the record that the kernel program wrote is decoded, attributed to the
    command and handled. Where two commands have one root
    ([UndoExamples.LoopExamples.same_root_ambiguous]), it may be attributed to
    the other. *)
Theorem child_removal_captured read_stat k h c t ev :
  child_of (hp_tree h) (u_hdr ev) c t → Records.unlink_fits kind.UNLINK ev → hp_flight h !! UnlinkRing = None →
  ∃ h' out, loop_run ord excluded_pids h
      [TakeRecord read_stat UnlinkRing (Records.unlink_bytes kind.UNLINK ev); HandOver k UnlinkRing] = Some (h', out)
    ∧ (hp_runtime h', out) = handle_lsm_unlink k (hp_runtime h) (unlink_view false ev c).
Proof.
  intros Hc Hf Hfl. pose proof (child_tracked read_stat _ _ c t (λ c, UnlinkV (unlink_view false ev c)) Hc) as Ha.
  assert (handle_record ord read_stat excluded_pids (hp_tree h) UnlinkRing (Records.unlink_bytes kind.UNLINK ev)
    = attributed ord read_stat excluded_pids (hp_tree h) (u_hdr ev) (λ c, UnlinkV (unlink_view false ev c))) as Hr.
  { unfold handle_record, decode_unlink. by rewrite Records.unlink_round_trip. }
  assert (∀ m, loop_step ord excluded_pids (mkHelper (hp_runtime h) (hp_tree h) (hp_flight h) m)
    (TakeRecord read_stat UnlinkRing (Records.unlink_bytes kind.UNLINK ev))
    = Some (take_record ord excluded_pids read_stat (mkHelper (hp_runtime h) (hp_tree h) (hp_flight h) m) UnlinkRing
        (Records.unlink_bytes kind.UNLINK ev), [])) as H1 by (intros []; simpl; by rewrite Hfl).
  destruct h as [rt tm fl m]. cbn [hp_runtime hp_tree hp_flight] in *. cbn [loop_run]. rewrite H1. cbn [mbind option_bind].
  unfold take_record. cbn [hp_runtime hp_tree hp_flight hp_main]. rewrite Hr.
  destruct (attributed _ _ _ _ _ _) as [tm' v]. simpl in Ha. subst v.
  assert (∀ m, loop_step ord excluded_pids (mkHelper rt tm' (partial_alter (λ _, Some (UnlinkV (unlink_view false ev c)))
      UnlinkRing fl) m) (HandOver k UnlinkRing)
    = Some (hand_over k (mkHelper rt tm' (partial_alter (λ _, Some (UnlinkV (unlink_view false ev c))) UnlinkRing fl) m)
        UnlinkRing (UnlinkV (unlink_view false ev c)))) as H2 by (intros []; simpl; by rewrite lookup_partial_alter_eq).
  rewrite H2. unfold hand_over. cbn [hp_runtime event_of helper_step].
  destruct (handle_lsm_unlink _ _ _) as [rt' out]. simpl. eexists _, _. split; [done|]. simpl. by rewrite app_nil_r.
Qed.

(** ** The fanotify reader *)

Section Reader.
Import FanotifyLoop.
Context (k : Kernel) (read_stat : Z → option string) (fd_of : Z → Fd).

(** The state of the reader's closure: what was sent names watched commands. *)
Definition reads_well W (st : Runtime * TreeMap * list Sent) : Prop :=
  let '(rt, tm, sent) := st in tree_ok tm ∧ dom (trees tm) = W ∧ own rt ∧ Forall (speaks_of W) sent.

Lemma decide_reads_well W st ev : reads_well W st → reads_well W (decide_and_capture ord k read_stat fd_of st ev).1.
Proof.
  destruct st as [[rt tm] sent]. intros (Hok & Hd & Ho & Hs). unfold decide_and_capture.
  destruct (is_tracked_ok read_stat tm (fn_pid ev) Hok) as (Hok' & Hd' & Hr).
  destruct (is_tracked _ _ _ _) as [tm' [c|]]; cbn [fst snd] in *; [|by rewrite <- Hd' in Hd].
  set (view := mkFanotify c _ _). pose proof (confined_fanotify k view rt Ho) as (Ho' & Hs' & _).
  destruct (handle_event k rt view) as [rt' out]. split_and!; [done|by rewrite Hd'|done|].
  apply Forall_app. split; [done|]. eapply sent_by_speaks; [|done]. rewrite <- Hd. by apply Hr.
Qed.

Lemma process_events_reads_well W items : ∀ st seen responses,
  reads_well W st → reads_well W (process_events (decide_and_capture ord k read_stat fd_of) items st seen responses).1.1.
Proof.
  induction items as [|[ev|e] items IH]; intros st seen responses Hst; [done| |done]. simpl.
  destruct (is_overflow ev); [done|]. destruct (needs_permission ev); [|by apply IH]. simpl.
  pose proof (decide_reads_well W st ev Hst) as Hst'. destruct (decide_and_capture _ _ _ _ _ _) as [st' d].
  case_bool_decide; [done|]. by apply IH.
Qed.

(** Whatever bytes a read returns, the reader sends messages on watched commands
    only, and watches what it watched. *)
Lemma reader_speaks_of_watched W writes r buf :
  reads_well W (fr_runtime r, fr_tree r, fr_sent r) →
  let t := (reader_turn ord k read_stat fd_of writes r buf).1 in reads_well W (fr_runtime t, fr_tree t, fr_sent t).
Proof.
  intros Hr. cbn zeta. unfold reader_turn. case_bool_decide; [done|]. unfold process_batch.
  pose proof (process_events_reads_well W (event_iter (length buf) buf) _ (fr_seen r) [] Hr) as Hp.
  destruct (process_events _ _ _ _ _) as [[[[rt tm] sent] seen] [responses|[e|]]]; simpl in *; [|done..]. by case_match.
Qed.

End Reader.

End Sound.

End HelperLoop.
