(* ===== verification/BsdCapture.v ===== *)
(** * The helper's capture on the BSDs

    [capture/bsd.rs] of [shit-helper] with the subtree of [kqueue/vnode.rs]:
    what the pump holds of a watched directory, the baseline it sends, how it
    answers the events of kqueue, and its two channels with the drain thread of
    [kqueue/drain.rs]. Descriptors are numbers, which the system gives out
    again once they are closed; what the system answers while a handler runs is
    a record. [BsdFacts]: messages are about watched commands and agree with
    their bytes, a file is captured once, a directory is reported exactly, the
    scan of new directories ends, and a full channel ends the capture. *)

From S2P Require Import Prelude Paths Base Events Probe Env Fs Redirect Notes Tables Index Blobs Active Baseline.
From S2P Require Import WatchReady Daemon HelperEvents LinuxCapture CaptureFacts HelperLoop.

Module BsdCapture.
Import HelperEvents.

Abbreviation RawFd := Z.
Abbreviation Key := (N * N)%type.
Abbreviation Sent := (HelperResponse * option bytes)%type.

Record BsdStat := mkBsdStat {
  bs_dev : N; bs_ino : N; bs_mode : N; bs_uid : N; bs_gid : N; bs_size : N; bs_mtime : Z; bs_mtime_nsec : Z;
  bs_flags : N;
}.

(** [d_type] of a directory entry. *)
Inductive DType := DT_DIR | DT_LNK | DT_OTHER.

Record BsdSys := mkBsdSys {
  b_fstat : RawFd → option BsdStat;
  b_user_xattrs : RawFd → gmap string bytes;
  b_read : RawFd → option bytes;
  b_readdir : RawFd → option (list (string * DType));   (** but [.] and [..] *)
  b_fstatat : RawFd → string → option BsdStat;          (** not following *)
  b_readlinkat : RawFd → string → option string;
  b_lstat : PathBuf → option BsdStat;
  b_open_root : PathBuf → option RawFd;
  b_openat : RawFd → string → option RawFd;
  b_kevent : RawFd → bool;                              (** the watch could be registered *)
  b_stage : bytes → bool;
  b_sends : HelperResponse → bool;
  b_baseline_preexec : bool;                            (** [SHIT_BASELINE_PREEXEC] is not [0] *)
  b_now : N;
}.

(** ** kqueue/vnode.rs *)

Module VnodeEventKind.
Inductive VnodeEventKind := Delete | Write | Extend | Attrib | Link | Rename | Revoke.
End VnodeEventKind.
Abbreviation VnodeEventKind := VnodeEventKind.VnodeEventKind.

Definition NOTE_DELETE : N := 0x1.
Definition NOTE_WRITE : N := 0x2.
Definition NOTE_EXTEND : N := 0x4.
Definition NOTE_ATTRIB : N := 0x8.
Definition NOTE_LINK : N := 0x10.
Definition NOTE_RENAME : N := 0x20.
Definition NOTE_REVOKE : N := 0x40.

Definition has_note (fflags note : N) : bool := negb (bool_decide (N.land fflags note = 0%N)).

Definition from_fflags (fflags : N) : option VnodeEventKind :=
  if has_note fflags NOTE_DELETE then Some VnodeEventKind.Delete
  else if has_note fflags NOTE_RENAME then Some VnodeEventKind.Rename
  else if has_note fflags NOTE_REVOKE then Some VnodeEventKind.Revoke
  else if has_note fflags NOTE_WRITE then Some VnodeEventKind.Write
  else if has_note fflags NOTE_EXTEND then Some VnodeEventKind.Extend
  else if has_note fflags NOTE_ATTRIB then Some VnodeEventKind.Attrib
  else if has_note fflags NOTE_LINK then Some VnodeEventKind.Link
  else None.

Definition DEFAULT_DEPTH : nat := 8.

(** [TrackedSubtree]: the descriptors with the paths they were opened as. *)
Abbreviation TrackedSubtree := (list (RawFd * PathBuf)).

Definition path_for_fd (s : TrackedSubtree) (fd : RawFd) : option PathBuf :=
  snd <$> List.find (λ e : RawFd * PathBuf, bool_decide (e.1 = fd)) s.

Definition tracked_fds (s : TrackedSubtree) : list RawFd := s.*1.

Module KqueueError.
Inductive KqueueError := Kqueue | Kevent | Open (path : PathBuf) | NotImplemented (what : string).
End KqueueError.
Abbreviation KqueueError := KqueueError.KqueueError.

Section Vnode.
Context (sys : BsdSys).

(** One entry of a directory; [descend] goes into one. *)
Definition walk_entry (descend : RawFd → PathBuf → TrackedSubtree → TrackedSubtree) (parent_fd : RawFd)
    (parent_path : PathBuf) (out : TrackedSubtree) (e : string * DType) : TrackedSubtree :=
  match e.2 with
  | DT_LNK => out
  | d =>
      match b_openat sys parent_fd e.1 with
      | None => out
      | Some child =>
          let child_path := LinuxCapture.join parent_path e.1 in
          let out := out ++ [(child, child_path)] in
          match d with DT_DIR => descend child child_path out | _ => out end
      end
  end.

Fixpoint walk_descendants (depth_remaining : nat) (parent_fd : RawFd) (parent_path : PathBuf) (out : TrackedSubtree)
    : TrackedSubtree :=
  match depth_remaining with
  | O => out
  | S depth' =>
      match b_readdir sys parent_fd with
      | None => out
      | Some entries => foldl (walk_entry (walk_descendants depth') parent_fd parent_path) out entries
      end
  end.

Definition is_dir_mode (mode : N) : bool := bool_decide (N.land mode 0xF000 = 0x4000%N).

Definition register_entries (entries : TrackedSubtree) : bool := forallb (λ e, b_kevent sys e.1) entries.

(** [register_subtree], [register_subtree_at] and their common part; how the
    root is opened is the system's. *)
Definition register_subtree (root : PathBuf) (depth_limit : nat) : TrackedSubtree + KqueueError :=
  match b_open_root sys root with
  | None => inr (KqueueError.Open root)
  | Some root_fd =>
      let is_dir := match b_fstat sys root_fd with Some st => is_dir_mode (bs_mode st) | None => false end in
      let entries := [(root_fd, root)] in
      let entries := if is_dir then walk_descendants depth_limit root_fd root entries else entries in
      if register_entries entries then inl entries else inr KqueueError.Kevent
  end.

(** [TrackedSubtree::add_path]. *)
Definition add_path (s : TrackedSubtree) (path : PathBuf) : TrackedSubtree * option RawFd :=
  match parent path, Notes.file_name path with
  | Some parent_path, Some basename =>
      match List.find (λ e : RawFd * PathBuf, bool_decide (e.2 = parent_path)) s with
      | None => (s, None)
      | Some (parent_fd, _) =>
          match b_openat sys parent_fd basename with
          | None => (s, None)
          | Some fd => if b_kevent sys fd then (s ++ [(fd, path)], Some fd) else (s, None)
          end
      end
  | _, _ => (s, None)
  end.

End Vnode.

(** ** capture/bsd.rs *)

(** What the pump keeps of a directory entry. *)
Record DirEntryBaseline := mkDirEntry { de_dev : N; de_inode : N; de_symlink_target : option string }.

#[export] Instance DirEntryBaseline_eq_dec : EqDecision DirEntryBaseline.
Proof. solve_decision. Defined.

Record DirBaseline := mkDirBaseline { db_path : PathBuf; db_entries : gmap string DirEntryBaseline }.

Record StatMeta := mkStatMeta {
  sm_mode : N; sm_uid : N; sm_gid : N; sm_size : N; sm_mtime_unix_nanos : Z; sm_xattrs : gmap string bytes;
  sm_flags : N;
}.

#[export] Instance StatMeta_eq_dec : EqDecision StatMeta.
Proof. solve_decision. Defined.

Definition to_wire (m : StatMeta) : FileMetadataWire :=
  mkMetaWire (sm_mode m) (sm_uid m) (sm_gid m) (sm_size m) (sm_mtime_unix_nanos m) (sm_xattrs m) (sm_flags m).

Record WatchState := mkWatch {
  subtree : TrackedSubtree;
  dedupe : gmap Key LinuxCapture.DedupeEntry;
  dir_baselines : gmap RawFd DirBaseline;
  meta_baselines : gmap RawFd StatMeta;
}.

Definition set_subtree ws x := mkWatch x (dedupe ws) (dir_baselines ws) (meta_baselines ws).
Definition set_dedupe ws x := mkWatch (subtree ws) x (dir_baselines ws) (meta_baselines ws).
Definition set_dir_baselines ws x := mkWatch (subtree ws) (dedupe ws) x (meta_baselines ws).
Definition set_meta_baselines ws x := mkWatch (subtree ws) (dedupe ws) (dir_baselines ws) x.

Record PumpState := mkPump { watches : gmap CommandId WatchState; fd_to_command : gmap RawFd CommandId }.

Definition pump_new : PumpState := mkPump ∅ ∅.

Module FileType.
Inductive FileType := Regular | Directory | Other.
End FileType.
Abbreviation FileType := FileType.FileType.

#[export] Instance FileType_eq_dec : EqDecision FileType.
Proof. solve_decision. Defined.

Definition file_type_of_mode (mode : N) : FileType :=
  let m := N.land mode 0xF000 in
  if bool_decide (m = 0x8000%N) then FileType.Regular
  else if bool_decide (m = 0x4000%N) then FileType.Directory else FileType.Other.

(** The message that ends an attach. *)
Module CaptureAttachError.
Inductive CaptureAttachError :=
  | CwdUnavailable (root_pid : N) | ControlChannelFull | ControlChannelClosed
  | RegisterSubtree (root_path : PathBuf) (source : KqueueError).
End CaptureAttachError.
Abbreviation CaptureAttachError := CaptureAttachError.CaptureAttachError.

Section Pump.
Context `{!Blobs.BlobCodec} (sys : BsdSys) (reason : CaptureAttachError → string).
Implicit Types (st : PumpState) (ws : WatchState).

Definition attach_response (command : CommandId) (result : unit + CaptureAttachError) : HelperResponse :=
  match result with
  | inl _ => HelperResponse.WatchTreeReady (session command) (seq command)
  | inr e => HelperResponse.WatchTreeFailed (session command) (seq command) (reason e)
  end.

Definition fstat_dev_inode_kind (fd : RawFd) : option (N * N * FileType) :=
  s ← b_fstat sys fd; Some (bs_dev s, bs_ino s, file_type_of_mode (bs_mode s)).

Definition fstat_meta (fd : RawFd) : option StatMeta :=
  s ← b_fstat sys fd;
  Some (mkStatMeta (bs_mode s) (bs_uid s) (bs_gid s) (bs_size s) (bs_mtime s * 1000000000 + bs_mtime_nsec s)
          (b_user_xattrs sys fd) (bs_flags s)).

(** [stream_copy_to_staging]: the staging file, its hash and its length. *)
Definition stream_copy_to_staging (fd : RawFd) : option (bytes * BlobHash * N) :=
  s ← b_fstat sys fd;
  if bool_decide (LinuxCapture.STREAM_COPY_CAP < bs_size s)%N then None
  else src ← b_read sys fd;
       let copied := LinuxCapture.stream_into_fd src (bs_size s) in
       if b_stage sys copied then Some (copied, Blobs.hash_bytes copied, N.of_nat (length copied)) else None.

Definition send (resp : HelperResponse) (fd : option bytes) : list Sent :=
  if b_sends sys resp then [(resp, fd)] else [].

(** One entry of a directory, unless it is gone. *)
Definition read_dir_entry (dir_fd : RawFd) (out : gmap string DirEntryBaseline) (name : string)
    : gmap string DirEntryBaseline :=
  match b_fstatat sys dir_fd name with
  | None => out
  | Some s =>
      let symlink_target :=
        if bool_decide (N.land (bs_mode s) 0xF000 = 0xA000%N) then b_readlinkat sys dir_fd name else None in
      <[name := mkDirEntry (bs_dev s) (bs_ino s) symlink_target]> out
  end.

Definition read_dir_entries (dir_fd : RawFd) : option (gmap string DirEntryBaseline) :=
  entries ← b_readdir sys dir_fd; Some (foldl (read_dir_entry dir_fd) ∅ entries.*1).

Definition file_kind_at (dir_fd : RawFd) (name : string) : FileKind :=
  match b_fstatat sys dir_fd name with
  | None => FileKind.Regular
  | Some s =>
      let m := N.land (bs_mode s) 0xF000 in
      if bool_decide (m = 0x4000%N) then FileKind.Directory
      else if bool_decide (m = 0xA000%N) then FileKind.Symlink else FileKind.Regular
  end.

Definition file_mode_for (path : PathBuf) : option N := bs_mode <$> b_lstat sys path.

(** ** Attaching a watch *)

(** One descriptor of the baseline walk. *)
Definition baseline_entry (sess : Uuid) (cwd : PathBuf) (acc : list Sent * N * bool) (e : RawFd * PathBuf)
    : list Sent * N * bool :=
  let '(out, count, partial) := acc in
  match fstat_dev_inode_kind e.1 with
  | None => (out, count, true)
  | Some (dev, inode, kind) =>
      if negb (bool_decide (kind = FileType.Regular)) then (out, count, partial)
      else
        match fstat_meta e.1, stream_copy_to_staging e.1 with
        | Some meta, Some (staged, blob_hash, stored_bytes) =>
            let resp := HelperResponse.BaselineCaptured sess (path_string cwd) dev inode (path_string e.2) blob_hash
              stored_bytes (sm_mode meta) (sm_uid meta) (sm_gid meta) (sm_mtime_unix_nanos meta) (sm_xattrs meta) in
            if b_sends sys resp then (out ++ [(resp, Some staged)], (count + 1)%N, partial) else (out, count, true)
        | _, _ => (out, count, true)
        end
  end.

Definition baseline_walk_and_emit (s : TrackedSubtree) (sess : Uuid) (cwd : PathBuf) : list Sent :=
  let '(out, count, partial) := foldl (baseline_entry sess cwd) ([], 0%N, false) s in
  out ++ send (HelperResponse.BaselineWalkComplete sess (path_string cwd) count partial) None.

(** The two maps over the descriptors. *)
Definition dir_baselines_of (s : TrackedSubtree) : gmap RawFd DirBaseline :=
  foldl (λ m fd,
    match fstat_dev_inode_kind fd with
    | Some (_, _, FileType.Directory) =>
        match path_for_fd s fd with
        | Some dir_path => <[fd := mkDirBaseline dir_path (default ∅ (read_dir_entries fd))]> m
        | None => m
        end
    | _ => m
    end) ∅ (tracked_fds s).

Definition meta_baselines_of (s : TrackedSubtree) : gmap RawFd StatMeta :=
  foldl (λ m fd, match fstat_meta fd with Some x => <[fd := x]> m | None => m end) ∅ (tracked_fds s).

Definition index_fds (command : CommandId) (fds : list RawFd) (m : gmap RawFd CommandId) : gmap RawFd CommandId :=
  foldl (λ m fd, <[fd := command]> m) m fds.

Definition attach st (command : CommandId) (root_path : PathBuf)
    : PumpState * list Sent * (unit + CaptureAttachError) :=
  match register_subtree sys root_path DEFAULT_DEPTH with
  | inr e => (st, [], inr (CaptureAttachError.RegisterSubtree root_path e))
  | inl s =>
      let idx := index_fds command (tracked_fds s) (fd_to_command st) in
      let out := if b_baseline_preexec sys then baseline_walk_and_emit s (session command) root_path else [] in
      (mkPump (<[command := mkWatch s ∅ (dir_baselines_of s) (meta_baselines_of s)]> (watches st)) idx, out, inl ())
  end.

Definition detach st (command : CommandId) : PumpState :=
  match watches st !! command with
  | None => st
  | Some ws => mkPump (delete command (watches st)) (foldl (λ m fd, delete fd m) (fd_to_command st) (tracked_fds (subtree ws)))
  end.

(** ** Changes in a directory *)

Definition unchanged (prev : option DirEntryBaseline) (cur : DirEntryBaseline) : bool :=
  match prev with Some p => bool_decide (p = cur) | None => false end.

(** A name of the directory as it is now: the messages and what to watch. *)
Record Diff := mkDiff { df_events : list TreeOpWire; df_files : list PathBuf; df_dirs : list PathBuf }.

Definition diff_entry (fd : RawFd) (base : DirBaseline) (acc : Diff) (e : string * DirEntryBaseline) : Diff :=
  let '(name, cur) := e in
  let prev := db_entries base !! name in
  if unchanged prev cur then acc
  else
    let child := LinuxCapture.join (db_path base) name in
    let removed :=
      match prev ≫= de_symlink_target with
      | Some old_target =>
          if bool_decide (Some old_target = de_symlink_target cur) then []
          else [TreeOpWire.SymlinkRemoved old_target (path_string child)]
      | None => []
      end in
    let kind := file_kind_at fd name in
    let created := TreeOpWire.Create (de_dev cur) (de_inode cur) (path_string child) kind
      (default 0%N (file_mode_for child)) in
    mkDiff (df_events acc ++ removed ++ [created])
      (match kind with FileKind.Regular => df_files acc ++ [child] | _ => df_files acc end)
      (match kind with FileKind.Directory => df_dirs acc ++ [child] | _ => df_dirs acc end).

(** A name that is gone: only a symbolic link is reported here. *)
Definition gone_entry (base : DirBaseline) (current : gmap string DirEntryBaseline) (e : string * DirEntryBaseline)
    : list TreeOpWire :=
  let '(name, prev) := e in
  match current !! name, de_symlink_target prev with
  | None, Some old_target => [TreeOpWire.SymlinkRemoved old_target (path_string (LinuxCapture.join (db_path base) name))]
  | _, _ => []
  end.

Definition dir_diff (fd : RawFd) (base : DirBaseline) (current : gmap string DirEntryBaseline) : Diff :=
  let d := foldl (diff_entry fd base) (mkDiff [] [] []) (btree_iter current) in
  mkDiff (df_events d ++ concat (gone_entry base current <$> btree_iter (db_entries base))) (df_files d) (df_dirs d).

(** A new file or directory gets a watch; a directory is scanned next. *)
Definition watch_new (command : CommandId) (is_dir : bool) (acc : WatchState * gmap RawFd CommandId * list RawFd)
    (path : PathBuf) : WatchState * gmap RawFd CommandId * list RawFd :=
  let '(ws, idx, to_scan) := acc in
  let '(s, fd) := add_path sys (subtree ws) path in
  let ws := set_subtree ws s in
  match fd with
  | None => (ws, idx, to_scan)
  | Some fd =>
      let ws := match fstat_meta fd with
                | Some m => set_meta_baselines ws (<[fd := m]> (meta_baselines ws))
                | None => ws
                end in
      if is_dir then
        (set_dir_baselines ws (<[fd := mkDirBaseline path ∅]> (dir_baselines ws)), <[fd := command]> idx, to_scan ++ [fd])
      else (ws, <[fd := command]> idx, to_scan)
  end.

Definition scan_dir_emit_and_watch_children st (command : CommandId) (fd : RawFd) (to_scan : list RawFd)
    : PumpState * list Sent * list RawFd :=
  match watches st !! command with
  | None => (st, [], to_scan)
  | Some ws =>
      match dir_baselines ws !! fd with
      | None => (st, [], to_scan)
      | Some base =>
          match read_dir_entries fd with
          | None => (st, [], to_scan)
          | Some current =>
              let d := dir_diff fd base current in
              let ws := set_dir_baselines ws (<[fd := mkDirBaseline (db_path base) current]> (dir_baselines ws)) in
              let acc := foldl (watch_new command false) (ws, fd_to_command st, to_scan) (df_files d) in
              let '(ws, idx, to_scan) := foldl (watch_new command true) acc (df_dirs d) in
              (mkPump (<[command := ws]> (watches st)) idx,
               concat ((λ op, send (HelperResponse.TreeMutation (session command) (seq command) op (b_now sys)) None)
                       <$> df_events d), to_scan)
          end
      end
  end.

(** The work list of [handle_dir_change]: a stack, its top last. *)
Fixpoint scan_all (fuel : nat) st (command : CommandId) (to_scan : list RawFd) : PumpState * list Sent :=
  match fuel with
  | O => (st, [])
  | S fuel' =>
      match last to_scan with
      | None => (st, [])
      | Some fd =>
          let '(st, out, to_scan) := scan_dir_emit_and_watch_children st command fd (removelast to_scan) in
          let '(st, out') := scan_all fuel' st command to_scan in (st, out ++ out')
      end
  end.

Definition handle_dir_change (fuel : nat) st (command : CommandId) (fd : RawFd) : PumpState * list Sent :=
  scan_all fuel st command [fd].

(** ** Events *)

Definition handle_attrib st (fd : RawFd) : PumpState * list Sent :=
  match fd_to_command st !! fd with
  | None => (st, [])
  | Some command =>
      match watches st !! command with
      | None => (st, [])
      | Some ws =>
          match fstat_dev_inode_kind fd with
          | Some (dev, inode, FileType.Regular) =>
              match fstat_meta fd with
              | None => (st, [])
              | Some after =>
                  let refreshed := mkPump (<[command := set_meta_baselines ws (<[fd := after]> (meta_baselines ws))]> (watches st))
                    (fd_to_command st) in
                  match meta_baselines ws !! fd with
                  | None => (refreshed, [])
                  | Some before =>
                      if bool_decide (before = after) then (st, [])
                      else
                        let resp := HelperResponse.CapturedMetadataChange (session command) (seq command) dev inode
                          (path_string <$> path_for_fd (subtree ws) fd) (to_wire before) (to_wire after) (b_now sys) in
                        if b_sends sys resp then (refreshed, [(resp, None)]) else (st, [])
                  end
              end
          | _ => (st, [])
          end
      end
  end.

(** A capture of what the descriptor holds now. *)
Definition vnode_capture (command : CommandId) ws (fd : RawFd) (key : Key) (is_delete : bool)
    : option (HelperResponse * bytes) :=
  meta ← fstat_meta fd;
  '(staged, claimed_hash, stored_bytes) ← stream_copy_to_staging fd;
  Some (HelperResponse.CapturedPreImage (mkCapture (session command) (seq command) key.1 key.2
          (path_string <$> path_for_fd (subtree ws) fd) claimed_hash stored_bytes
          (if is_delete then None else Some claimed_hash)
          (sm_mode meta) (sm_uid meta) (sm_gid meta) (sm_mtime_unix_nanos meta) (sm_xattrs meta) is_delete
          (sm_flags meta)), staged).

Definition handle_vnode (fuel : nat) st (fd : RawFd) (kind : VnodeEventKind) : PumpState * list Sent :=
  match kind with
  | VnodeEventKind.Attrib => handle_attrib st fd
  | VnodeEventKind.Link | VnodeEventKind.Rename | VnodeEventKind.Revoke => (st, [])
  | VnodeEventKind.Write | VnodeEventKind.Extend | VnodeEventKind.Delete =>
      let is_delete := match kind with VnodeEventKind.Delete => true | _ => false end in
      match fd_to_command st !! fd with
      | None => (st, [])
      | Some command =>
          match watches st !! command with
          | None => (st, [])
          | Some ws =>
              match fstat_dev_inode_kind fd with
              | None | Some (_, _, FileType.Other) => (st, [])
              | Some (_, _, FileType.Directory) => handle_dir_change fuel st command fd
              | Some (dev, inode, FileType.Regular) =>
                  if negb is_delete && negb (LinuxCapture.should_capture_dedupe (dedupe ws) (dev, inode)) then (st, [])
                  else
                    match vnode_capture command ws fd (dev, inode) is_delete with
                    | None => (st, [])
                    | Some (resp, staged) =>
                        (mkPump (<[command := set_dedupe ws (<[(dev, inode) := LinuxCapture.mkDedupe is_delete]> (dedupe ws))]>
                                   (watches st)) (fd_to_command st), send resp (Some staged))
                    end
              end
          end
      end
  end.

End Pump.

(** ** The pump *)

Inductive ControlMsg := Attach (command : CommandId) (root_path : PathBuf) | Detach (command : CommandId) | Shutdown.

(** [DrainEvent]; the pump does not act on those of processes. *)
Inductive DrainEvent := Vnode (fd : RawFd) (kind : VnodeEventKind) | Proc.

(** [ProcEventKind::from_fflags], of which only whether it decodes matters. *)
Definition NOTE_EXIT : N := 0x80000000.
Definition NOTE_FORK : N := 0x40000000.
Definition NOTE_EXEC : N := 0x20000000.

Definition proc_decodes (fflags : N) : bool :=
  has_note fflags NOTE_EXIT || has_note fflags NOTE_EXEC || has_note fflags NOTE_FORK.

(** What [kevent] returns, by its filter. *)
Inductive KEvent := EVFILT_VNODE (ident : RawFd) (fflags : N) | EVFILT_PROC (ident : N) (fflags : N) | EVFILT_OTHER.

Definition decode (ev : KEvent) : option DrainEvent :=
  match ev with
  | EVFILT_VNODE ident fflags => Vnode ident <$> from_fflags fflags
  | EVFILT_PROC _ fflags => if proc_decodes fflags then Some Proc else None
  | EVFILT_OTHER => None
  end.

Definition CONTROL_CAPACITY : nat := 64.
Definition DRAIN_CAPACITY : nat := 4096.

(** The pump with the two channels it reads, and whether the drain thread and
    the pump still run. *)
Record Pump := mkPumpThread {
  pp_state : PumpState; pp_control : list ControlMsg; pp_events : list DrainEvent; pp_draining : bool;
  pp_alive : bool;
}.

(** [CaptureControl::on_watch_tree]; [pid_cwd] resolves the directory of a
    process. *)
Definition on_watch_tree (p : Pump) (pid_cwd : N → option PathBuf) (command : CommandId) (root_pid : N) (cwd_path : string)
    : Pump * (unit + CaptureAttachError) :=
  let path := if bool_decide (cwd_path = "") then pid_cwd root_pid else Some (path_of_string cwd_path) in
  match path with
  | None => (p, inr (CaptureAttachError.CwdUnavailable root_pid))
  | Some path =>
      if negb (pp_alive p) then (p, inr CaptureAttachError.ControlChannelClosed)
      else if bool_decide (CONTROL_CAPACITY ≤ length (pp_control p)) then (p, inr CaptureAttachError.ControlChannelFull)
      else (mkPumpThread (pp_state p) (pp_control p ++ [Attach command path]) (pp_events p) (pp_draining p) true, inl ())
  end.

(** [on_unwatch_tree]: a full channel drops the request. *)
Definition on_unwatch_tree (p : Pump) (command : CommandId) : Pump :=
  if negb (pp_alive p) || bool_decide (CONTROL_CAPACITY ≤ length (pp_control p)) then p
  else mkPumpThread (pp_state p) (pp_control p ++ [Detach command]) (pp_events p) (pp_draining p) true.

(** The drain thread, [run] of [kqueue/drain.rs], takes an event: one that
    finds the channel full, or the pump gone, ends the thread. *)
Definition drain (p : Pump) (ev : KEvent) : Pump :=
  match decode ev with
  | None => p
  | Some e =>
      if negb (pp_draining p) then p
      else if negb (pp_alive p) || bool_decide (DRAIN_CAPACITY ≤ length (pp_events p)) then
        mkPumpThread (pp_state p) (pp_control p) (pp_events p) false (pp_alive p)
      else mkPumpThread (pp_state p) (pp_control p) (pp_events p ++ [e]) true (pp_alive p)
  end.

Section PumpLoop.
Context `{!Blobs.BlobCodec} (reason : CaptureAttachError → string).

(** One turn of [pump]: a control message first, an event if there is none; a
    channel that the drain thread has left and that is empty ends it. *)
Definition pump_turn (sys : BsdSys) (fuel : nat) (p : Pump) : Pump * list Sent :=
  match pp_control p with
  | Attach command root_path :: rest =>
      let '(st, out, result) := attach sys (pp_state p) command root_path in
      let st := match result with inl _ => st | inr _ => detach st command end in
      (mkPumpThread st rest (pp_events p) (pp_draining p) true, out ++ send sys (attach_response reason command result) None)
  | Detach command :: rest => (mkPumpThread (detach (pp_state p) command) rest (pp_events p) (pp_draining p) true, [])
  | Shutdown :: rest => (mkPumpThread (pp_state p) rest (pp_events p) false false, [])
  | [] =>
      match pp_events p with
      | [] => (mkPumpThread (pp_state p) [] [] (pp_draining p) (pp_draining p), [])
      | Vnode fd kind :: events =>
          let '(st, out) := handle_vnode sys fuel (pp_state p) fd kind in
          (mkPumpThread st [] events (pp_draining p) true, out)
      | Proc :: events => (mkPumpThread (pp_state p) [] events (pp_draining p) true, [])
      end
  end.

(** What happens to the pump: the request loop hands a request over (and
    reports one it cannot), the drain thread an event, and the pump takes a
    turn; with what the system answers. *)
Inductive PumpStep :=
  | Watch (sys : BsdSys) (pid_cwd : N → option PathBuf) (command : CommandId) (root_pid : N) (cwd_path : string)
  | Unwatch (command : CommandId)
  | Drain (ev : KEvent)
  | Turn (sys : BsdSys) (fuel : nat).

Definition pump_step (p : Pump) (s : PumpStep) : Pump * list Sent :=
  match s with
  | Watch sys pid_cwd command root_pid cwd_path =>
      let '(p, result) := on_watch_tree p pid_cwd command root_pid cwd_path in
      (p, match result with inl _ => [] | inr e => send sys (attach_response reason command (inr e)) None end)
  | Unwatch command => (on_unwatch_tree p command, [])
  | Drain ev => (drain p ev, [])
  | Turn sys fuel => if pp_alive p then pump_turn sys fuel p else (p, [])
  end.

Fixpoint pump_run (p : Pump) (ss : list PumpStep) : Pump * list Sent :=
  match ss with
  | [] => (p, [])
  | s :: ss' => let '(p, out) := pump_step p s in let '(p, out') := pump_run p ss' in (p, out ++ out')
  end.

End PumpLoop.

Definition pump_start : Pump := mkPumpThread pump_new [] [] true true.

End BsdCapture.

(** ** What the pump sends *)

Module BsdFacts.
Import HelperEvents BsdCapture.

(** A message about a command, or about the directory of one. *)
Definition about (c : CommandId) (m : Sent) : Prop :=
  match m.1 with
  | HelperResponse.CapturedPreImage p => cp_command p = c
  | HelperResponse.TreeMutation s q _ _ | HelperResponse.WatchTreeReady s q | HelperResponse.WatchTreeFailed s q _
  | HelperResponse.CapturedMetadataChange s q _ _ _ _ _ _ => mkCommandId s q = c
  | HelperResponse.BaselineCaptured s _ _ _ _ _ _ _ _ _ _ _ | HelperResponse.BaselineWalkComplete s _ _ _ => s = session c
  | _ => False
  end.

Section Facts.
Context `{!Blobs.BlobCodec} (reason : CaptureAttachError → string).
Implicit Types (st : PumpState) (ws : WatchState) (c : CommandId).

(** ** The bytes of a message *)

(** A message with content states its hash and its length. *)
Definition bytes_ok (m : Sent) : Prop :=
  match m with
  | (HelperResponse.CapturedPreImage p, Some b) => cp_blob_hash p = Blobs.hash_bytes b ∧ cp_stored_bytes p = N.of_nat (length b)
  | (HelperResponse.BaselineCaptured _ _ _ _ _ h n _ _ _ _ _, Some b) => h = Blobs.hash_bytes b ∧ n = N.of_nat (length b)
  | (HelperResponse.CapturedPreImage _, None) | (HelperResponse.BaselineCaptured _ _ _ _ _ _ _ _ _ _ _ _, None) => False
  | _ => True
  end.

(** What is said of every message of a step for a command. *)
Definition sends_for c (out : list Sent) : Prop := Forall (λ m, about c m ∧ bytes_ok m) out.

Lemma sends_for_app c out out' : sends_for c out → sends_for c out' → sends_for c (out ++ out').
Proof. apply Forall_app_2. Qed.

Lemma sends_for_send sys c resp fd : about c (resp, fd) → bytes_ok (resp, fd) → sends_for c (send sys resp fd).
Proof. unfold send, sends_for. intros Ha Hb. case_match; auto. Qed.

Lemma sends_for_nil c : sends_for c [].
Proof. constructor. Qed.

Lemma stream_copy_exact sys fd staged h n :
  stream_copy_to_staging sys fd = Some (staged, h, n) → h = Blobs.hash_bytes staged ∧ n = N.of_nat (length staged).
Proof.
  unfold stream_copy_to_staging. intros (s & _ & Hx)%bind_Some. case_bool_decide; [done|].
  apply bind_Some in Hx as (src & _ & Hx). case_match; [|done]. by injection Hx as <- <- <-.
Qed.

Lemma baseline_sends sys c cwd l : ∀ out count partial,
  sends_for c out → sends_for c (foldl (baseline_entry sys (session c) cwd) (out, count, partial) l).1.1.
Proof.
  induction l as [|e l IH]; intros out count partial Ho; [done|]. cbn [foldl]. unfold baseline_entry at 2.
  destruct (fstat_dev_inode_kind sys e.1) as [[[dev inode] kd]|]; [|by apply IH].
  destruct (negb _); [by apply IH|]. destruct (fstat_meta sys e.1) as [meta|]; [|by apply IH].
  destruct (stream_copy_to_staging sys e.1) as [[[staged h] n]|] eqn:Hs; [|by apply IH].
  destruct (b_sends _ _); apply IH; [|done]. apply sends_for_app; [done|]. repeat constructor; by apply stream_copy_exact in Hs as [-> ->].
Qed.

Lemma attach_sends sys st c root : sends_for c (attach sys st c root).1.2.
Proof.
  unfold attach. destruct (register_subtree _ _ _) as [s|e]; [|apply sends_for_nil]. cbn [fst snd].
  destruct (b_baseline_preexec sys); [|apply sends_for_nil]. unfold baseline_walk_and_emit.
  pose proof (baseline_sends sys c root s [] 0%N false (sends_for_nil c)) as Hb.
  destruct (foldl _ _ _) as [[out count] partial]. apply sends_for_app; [done|]. by apply sends_for_send.
Qed.

Lemma scan_sends sys st c fd to_scan : sends_for c (scan_dir_emit_and_watch_children sys st c fd to_scan).1.2.
Proof.
  unfold scan_dir_emit_and_watch_children. repeat case_match; try apply sends_for_nil. simpl.
  apply Forall_concat, Forall_fmap, Forall_true. intros op. apply sends_for_send; [by destruct c|done].
Qed.

Lemma scan_all_sends sys c fuel : ∀ st to_scan, sends_for c (scan_all sys fuel st c to_scan).2.
Proof.
  induction fuel as [|fuel IH]; intros st to_scan; [apply sends_for_nil|]. cbn [scan_all].
  destruct (last to_scan) as [fd|]; [|apply sends_for_nil].
  pose proof (scan_sends sys st c fd (removelast to_scan)) as Hs.
  destruct (scan_dir_emit_and_watch_children _ _ _ _ _) as [[st1 out] to_scan1].
  pose proof (IH st1 to_scan1) as Hr. destruct (scan_all _ _ _ _ _) as [st2 out2]. by apply sends_for_app.
Qed.

Lemma attrib_sends sys st fd c : fd_to_command st !! fd = Some c → sends_for c (handle_attrib sys st fd).2.
Proof.
  intros Hc. unfold handle_attrib. rewrite Hc. repeat case_match; try apply sends_for_nil.
  repeat constructor. unfold about. simpl. by destruct c.
Qed.

(** An event is answered for the command whose watch has the descriptor. *)
Lemma vnode_sends sys fuel st fd kd :
  (handle_vnode sys fuel st fd kd).2 = []
  ∨ ∃ c, fd_to_command st !! fd = Some c ∧ sends_for c (handle_vnode sys fuel st fd kd).2.
Proof.
  destruct (fd_to_command st !! fd) as [c|] eqn:Hc.
  - right. exists c. split; [done|].
    assert (∀ is_delete ws key, sends_for c
      (match vnode_capture sys c ws fd key is_delete with
       | Some (resp, staged) => send sys resp (Some staged) | None => [] end)) as Hv.
    { intros is_delete ws key. destruct (vnode_capture _ _ _ _ _ _) as [[resp staged]|] eqn:Hx; [|apply sends_for_nil].
      unfold vnode_capture in Hx. apply bind_Some in Hx as (meta & _ & Hx).
      apply bind_Some in Hx as ([[staged' h] n] & Hs & [= <- <-]). apply stream_copy_exact in Hs as [-> ->].
      apply sends_for_send; [by destruct c|done]. }
    destruct kd; unfold handle_vnode; rewrite ?Hc; try apply sends_for_nil; [| | |by apply attrib_sends];
      destruct (watches st !! c) as [ws|]; try apply sends_for_nil;
      destruct (fstat_dev_inode_kind sys fd) as [[[dev inode] []]|]; try apply sends_for_nil; try apply scan_all_sends;
      cbn [negb andb]; try (destruct (negb _); [apply sends_for_nil|]);
      match goal with |- context [vnode_capture _ _ _ _ _ ?d] => specialize (Hv d ws (dev, inode)) end;
      destruct (vnode_capture _ _ _ _ _ _) as [[resp staged]|]; done.
  - left. destruct kd; unfold handle_vnode, handle_attrib; by rewrite ?Hc.
Qed.

(** ** Whose messages they are *)

(** The commands a run was asked to watch. *)
Definition asked (ss : list PumpStep) : gset CommandId :=
  list_to_set (omap (λ s, match s with Watch _ _ c _ _ => Some c | _ => None end) ss).

(** The index names commands of the set. *)
Definition index_in (W : gset CommandId) (m : gmap RawFd CommandId) : Prop := map_Forall (λ _ c, c ∈ W) m.

Lemma index_in_insert W m fd c : c ∈ W → index_in W m → index_in W (<[fd := c]> m).
Proof. intros Hc Hm. by apply map_Forall_insert_2. Qed.

Lemma index_fds_in W c fds : ∀ m, c ∈ W → index_in W m → index_in W (index_fds c fds m).
Proof. induction fds as [|fd fds IH]; intros m Hc Hm; [done|]. apply IH; [done|]. by apply index_in_insert. Qed.

Lemma delete_fds_in W fds : ∀ m, index_in W m → index_in W (foldl (λ m fd, delete fd m) m fds).
Proof. induction fds as [|fd fds IH]; intros m Hm; [done|]. apply IH. by apply map_Forall_delete. Qed.

Lemma watch_new_in sys W c is_dir l : ∀ acc,
  c ∈ W → index_in W acc.1.2 → index_in W (foldl (watch_new sys c is_dir) acc l).1.2.
Proof.
  induction l as [|path l IH]; intros [[ws idx] to_scan] Hc Hi; [done|]. apply IH; [done|]. unfold watch_new.
  destruct (add_path _ _ _) as [s [fd|]]; [|done]. destruct is_dir; by apply index_in_insert.
Qed.

Lemma scan_in sys W c st fd to_scan :
  c ∈ W → index_in W (fd_to_command st) →
  index_in W (fd_to_command (scan_dir_emit_and_watch_children sys st c fd to_scan).1.1).
Proof.
  intros Hc Hi. unfold scan_dir_emit_and_watch_children.
  destruct (watches st !! c) as [ws|]; [|done]. destruct (dir_baselines ws !! fd) as [base|]; [|done].
  destruct (read_dir_entries sys fd) as [current|]; [|done].
  set (ws' := set_dir_baselines ws _). set (d := dir_diff sys fd base current).
  pose proof (watch_new_in sys W c true (df_dirs d) _ Hc
    (watch_new_in sys W c false (df_files d) (ws', fd_to_command st, to_scan) Hc Hi)) as Hx.
  destruct (foldl (watch_new sys c true) _ _) as [[ws1 idx] to_scan1]. exact Hx.
Qed.

Lemma scan_all_in sys W c fuel : ∀ st to_scan,
  c ∈ W → index_in W (fd_to_command st) → index_in W (fd_to_command (scan_all sys fuel st c to_scan).1).
Proof.
  induction fuel as [|fuel IH]; intros st to_scan Hc Hi; [done|]. cbn [scan_all].
  destruct (last to_scan) as [fd|]; [|done]. pose proof (scan_in sys W c st fd (removelast to_scan) Hc Hi) as Hs.
  destruct (scan_dir_emit_and_watch_children _ _ _ _ _) as [[st1 out] to_scan1].
  pose proof (IH st1 to_scan1 Hc Hs) as Hr. by destruct (scan_all _ _ _ _ _).
Qed.

Lemma vnode_in sys W fuel st fd kd :
  index_in W (fd_to_command st) → index_in W (fd_to_command (handle_vnode sys fuel st fd kd).1).
Proof.
  intros Hi. destruct kd; unfold handle_vnode, handle_attrib;
    destruct (fd_to_command st !! fd) as [c|] eqn:Hc; try done; pose proof (Hi fd c Hc) as Hw;
    repeat (case_match; try done); try (by apply scan_all_in).
Qed.

Lemma detach_in W st c : index_in W (fd_to_command st) → index_in W (fd_to_command (detach st c)).
Proof. intros Hi. unfold detach. destruct (watches st !! c); [|done]. by apply delete_fds_in. Qed.

Lemma attach_in sys W st c root :
  c ∈ W → index_in W (fd_to_command st) → index_in W (fd_to_command (attach sys st c root).1.1).
Proof. intros Hc Hi. unfold attach. destruct (register_subtree _ _ _); [|done]. by apply index_fds_in. Qed.

(** The pump and its channels know commands of the set only. *)
Record pump_in (W : gset CommandId) (p : Pump) : Prop := {
  pi_index : index_in W (fd_to_command (pp_state p));
  pi_control : Forall (λ m, match m with Attach c _ => c ∈ W | _ => True end) (pp_control p);
}.

(** A message about a command of the set, which agrees with its bytes. *)
Definition fair (W : gset CommandId) (m : Sent) : Prop := ∃ c, c ∈ W ∧ about c m ∧ bytes_ok m.

Lemma sends_for_fair W c out : c ∈ W → sends_for c out → Forall (fair W) out.
Proof. intros Hc Hs. eapply Forall_impl; [done|]. intros m [Ha Hb]. by exists c. Qed.

Lemma turn_in W sys fuel p :
  pump_in W p → pump_in W (pump_turn reason sys fuel p).1 ∧ Forall (fair W) (pump_turn reason sys fuel p).2.
Proof.
  intros [Hi Hc]. unfold pump_turn. destruct (pp_control p) as [|[c root|c|] rest] eqn:Hq.
  - destruct (pp_events p) as [|[fd kd|] events]; [split; [by split|constructor]| |split; [by split|constructor]].
    pose proof (vnode_in sys W fuel (pp_state p) fd kd Hi) as Hv.
    destruct (vnode_sends sys fuel (pp_state p) fd kd) as [Ho|(c & Hfd & Ho)];
      destruct (handle_vnode _ _ _ _ _) as [st out]; cbn [fst snd] in *.
    + subst out. by split; [split|].
    + split; [by split|]. eapply sends_for_fair; [|done]. by apply (Hi fd).
  - apply Forall_cons in Hc as [Hw Hc]. pose proof (attach_in sys W (pp_state p) c root Hw Hi) as Ha.
    pose proof (attach_sends sys (pp_state p) c root) as Hs.
    destruct (attach _ _ _ _) as [[st out] result]. cbn [fst snd] in *. split.
    + split; [|done]. simpl. destruct result; [done|by apply detach_in].
    + apply (sends_for_fair W c); [done|]. apply sends_for_app; [done|].
      apply sends_for_send; destruct result, c; done.
  - apply Forall_cons in Hc as [_ Hc]. split; [|constructor]. split; [by apply detach_in|done].
  - apply Forall_cons in Hc as [_ Hc]. split; [|constructor]. by split.
Qed.

Lemma step_in W p s :
  pump_in W p →
  pump_in (W ∪ asked [s]) (pump_step reason p s).1 ∧ Forall (fair (W ∪ asked [s])) (pump_step reason p s).2.
Proof.
  intros Hp. assert (pump_in (W ∪ asked [s]) p) as Hp'.
  { destruct Hp as [Hi Hc]. split.
    - eapply map_Forall_impl; [done|]. intros fd c Hx. simpl in Hx. set_solver.
    - eapply Forall_impl; [done|]. intros []; set_solver. }
  destruct s as [sys pid_cwd c root_pid cwd|c|ev|sys fuel]; cbn [pump_step].
  - assert (c ∈ W ∪ asked [Watch sys pid_cwd c root_pid cwd]) as Hc by (unfold asked; simpl; set_solver).
    destruct Hp' as [Hi Hq]. unfold on_watch_tree. set (w := W ∪ _) in *.
    assert (∀ e, Forall (fair w) (send sys (attach_response reason c (inr e)) None)) as Hf.
    { intros e. apply (sends_for_fair w c); [done|]. apply sends_for_send; [by destruct c|done]. }
    repeat case_match; simplify_eq; split; try apply Hf; try done; split; try done;
      (apply Forall_app; by repeat constructor).
  - split; [|constructor]. destruct Hp' as [Hi Hq]. unfold on_unwatch_tree. case_match; [done|]. split; [done|].
    apply Forall_app. by repeat constructor.
  - split; [|constructor]. destruct Hp'. unfold drain. by repeat case_match.
  - destruct (pp_alive p); [by apply turn_in|done].
Qed.

Lemma pump_asked_cons s ss : asked (s :: ss) = asked [s] ∪ asked ss.
Proof. unfold asked. simpl. destruct s; simpl; set_solver. Qed.

(** However requests, events and turns of the pump interleave, and whatever the
    system answers, each message is about a command the daemon asked to watch,
    and what it carries is what it says. *)
Theorem pump_messages_fair W ss : ∀ p, pump_in W p → Forall (fair (W ∪ asked ss)) (pump_run reason p ss).2.
Proof.
  revert W. induction ss as [|s ss IH]; intros W p Hp; [constructor|]. cbn [pump_run].
  destruct (step_in W p s Hp) as [Hp1 Ho1]. destruct (pump_step _ _ _) as [p1 out1]. cbn [fst snd] in *.
  pose proof (IH _ p1 Hp1) as Ho2. destruct (pump_run _ _ _) as [p2 out2]. cbn [fst snd] in *.
  rewrite pump_asked_cons, (assoc_L (∪)). apply Forall_app. split; [|done].
  eapply Forall_impl; [done|]. intros m (c & Hc & Hm). exists c. set_solver.
Qed.

(** ** A full channel *)

Lemma drain_stopped p s : pp_draining p = false → pp_draining (pump_step reason p s).1 = false.
Proof.
  intros Hd. destruct s as [sys pid_cwd c root_pid cwd|c|ev|sys fuel]; cbn [pump_step].
  - unfold on_watch_tree. by repeat case_match; simplify_eq.
  - unfold on_unwatch_tree. by case_match.
  - unfold drain. rewrite Hd. by case_match.
  - destruct (pp_alive p); [|done]. unfold pump_turn. by repeat case_match; simplify_eq.
Qed.

(** The answer to a request once the pump is gone. *)
Definition refused (m : Sent) : Prop := ∃ c, m = (attach_response reason c (inr CaptureAttachError.ControlChannelClosed), None)
  ∨ ∃ root_pid, m = (attach_response reason c (inr (CaptureAttachError.CwdUnavailable root_pid)), None).

Lemma dead_pump_refuses ss : ∀ p, pp_alive p = false → Forall refused (pump_run reason p ss).2.
Proof.
  induction ss as [|s ss IH]; intros p Hp; [constructor|]. cbn [pump_run].
  assert (pp_alive (pump_step reason p s).1 = false ∧ Forall refused (pump_step reason p s).2) as [Hp1 Hf].
  { destruct s as [sys pid_cwd c root_pid cwd|c|ev|sys fuel]; cbn [pump_step].
    - unfold on_watch_tree. rewrite Hp. simpl. destruct (if bool_decide _ then _ else _); simpl; (split; [done|]);
        unfold send; case_match; repeat constructor; exists c; eauto.
    - unfold on_unwatch_tree. rewrite Hp. by split.
    - unfold drain. repeat case_match; (split; [done|constructor]).
    - rewrite Hp. by split. }
  destruct (pump_step _ _ _) as [p1 out1]. specialize (IH p1 Hp1). destruct (pump_run _ _ _) as [p2 out2]. by apply Forall_app.
Qed.

(** A turn serves a request or an event, or ends the pump. *)
Lemma turn_serves sys fuel p :
  pp_draining p = false → let p' := (pump_turn reason sys fuel p).1 in
  pp_alive p' = false ∨ length (pp_control p') + length (pp_events p') < length (pp_control p) + length (pp_events p).
Proof.
  intros Hd. unfold pump_turn. destruct (pp_control p) as [|[c root|c|] rest] eqn:Hc; simpl.
  - destruct (pp_events p) as [|[fd kd|] events] eqn:He; simpl; [by left| |right; lia].
    destruct (handle_vnode _ _ _ _ _). simpl. right. lia.
  - destruct (attach _ _ _ _) as [[st out] result]. simpl. right. lia.
  - right. lia.
  - by left.
Qed.

Lemma dead_stays ss : ∀ p, pp_alive p = false → pp_alive (pump_run reason p ((λ t : BsdSys * nat, Turn t.1 t.2) <$> ss)).1 = false.
Proof.
  induction ss as [|s ss IH]; intros p Hp; [done|]. rewrite fmap_cons. cbn [pump_run pump_step]. rewrite Hp.
  specialize (IH p Hp). by destruct (pump_run _ _ _).
Qed.

(** Once the channel of events was full, the pump serves what waits and ends, and
    every later request to watch is refused. *)
Theorem overflow_ends_capture p turns ss :
  pp_draining p = false → length (pp_control p) + length (pp_events p) < length turns →
  let p' := (pump_run reason p ((λ t : BsdSys * nat, Turn t.1 t.2) <$> turns)).1 in
  pp_alive p' = false ∧ Forall refused (pump_run reason p' ss).2.
Proof.
  intros Hd Hl. cbn zeta. assert (∀ q, pp_alive q = false → pp_alive q = false ∧ Forall refused (pump_run reason q ss).2) as Hend.
  { intros q Hq. split; [done|by apply dead_pump_refuses]. }
  apply Hend. clear Hend. revert p Hd Hl. induction turns as [|[sys fuel] turns IH]; intros p Hd Hl; [simpl in Hl; lia|].
  rewrite fmap_cons. cbn [pump_run fst snd]. pose proof (drain_stopped p (Turn sys fuel) Hd) as Hd1. cbn [pump_step] in *.
  destruct (pp_alive p) eqn:Ha.
  - destruct (turn_serves sys fuel p Hd) as [Hdead|Hlt]; destruct (pump_turn _ _ _ _) as [p1 out1]; cbn [fst snd] in *.
    + pose proof (dead_stays turns p1 Hdead). by destruct (pump_run _ _ _).
    + pose proof (IH p1 Hd1 ltac:(simpl in Hl; lia)). by destruct (pump_run _ _ _).
  - pose proof (dead_stays turns p Ha). by destruct (pump_run _ _ _).
Qed.

(** ** What a change in a directory is reported as *)

(** The child of a watched directory. *)
Abbreviation child base name := (path_string (LinuxCapture.join (db_path base) name)).

(** The messages of one name that is there. *)
Definition entry_events sys (fd : RawFd) (base : DirBaseline) (e : string * DirEntryBaseline) : list TreeOpWire :=
  df_events (diff_entry sys fd base (mkDiff [] [] []) e).

Lemma diff_events sys fd base l : ∀ acc,
  df_events (foldl (diff_entry sys fd base) acc l) = df_events acc ++ concat (entry_events sys fd base <$> l).
Proof.
  induction l as [|[name cur] l IH]; intros acc; cbn [foldl fmap list_fmap concat]; [by rewrite app_nil_r|].
  rewrite IH. unfold entry_events, diff_entry. destruct (unchanged _ _); [done|]. simpl. by rewrite <- !app_assoc.
Qed.

Lemma in_entry_events sys fd base name cur op :
  In op (entry_events sys fd base (name, cur)) ↔
  db_entries base !! name ≠ Some cur
  ∧ (op = TreeOpWire.Create (de_dev cur) (de_inode cur) (child base name) (file_kind_at sys fd name)
          (default 0%N (file_mode_for sys (LinuxCapture.join (db_path base) name)))
     ∨ ∃ prev target, db_entries base !! name = Some prev ∧ de_symlink_target prev = Some target
         ∧ de_symlink_target cur ≠ Some target ∧ op = TreeOpWire.SymlinkRemoved target (child base name)).
Proof.
  unfold entry_events, diff_entry, unchanged. destruct (db_entries base !! name) as [prev|] eqn:Hp; simpl.
  - case_bool_decide as Hu; simpl; [naive_solver|]. rewrite in_app_iff.
    destruct (de_symlink_target prev) as [old|] eqn:Ht; simpl; [case_bool_decide as Hc; simpl|]; naive_solver.
  - naive_solver.
Qed.

Lemma in_gone_entry base current name prev op :
  In op (gone_entry base current (name, prev)) ↔
  current !! name = None ∧ ∃ target, de_symlink_target prev = Some target ∧ op = TreeOpWire.SymlinkRemoved target (child base name).
Proof. unfold gone_entry. destruct (current !! name), (de_symlink_target prev); simpl; naive_solver. Qed.

Lemma in_concat_btree {V} (f : string * V → list TreeOpWire) (m : gmap string V) op :
  In op (concat (f <$> btree_iter m)) ↔ ∃ name v, m !! name = Some v ∧ In op (f (name, v)).
Proof.
  rewrite in_concat. split.
  - intros (l & Hl & Hop). apply list_elem_of_In, list_elem_of_fmap in Hl as ([name v] & -> & He).
    exists name, v. by apply elem_of_btree_iter in He.
  - intros (name & v & Hm & Hop). exists (f (name, v)). split; [|done].
    apply list_elem_of_In, list_elem_of_fmap. exists (name, v). split; [done|]. by apply elem_of_btree_iter.
Qed.

(** C36. A scan reports exactly the names that are new or stand for another file, as
    created, and exactly the symbolic links that are gone or lead elsewhere,
    with the target they had. *)
Theorem dir_diff_exact sys fd base current op :
  In op (df_events (dir_diff sys fd base current)) ↔
  (∃ name cur, current !! name = Some cur ∧ db_entries base !! name ≠ Some cur
     ∧ op = TreeOpWire.Create (de_dev cur) (de_inode cur) (child base name) (file_kind_at sys fd name)
              (default 0%N (file_mode_for sys (LinuxCapture.join (db_path base) name))))
  ∨ (∃ name prev target, db_entries base !! name = Some prev ∧ de_symlink_target prev = Some target
       ∧ current !! name ≫= de_symlink_target ≠ Some target ∧ op = TreeOpWire.SymlinkRemoved target (child base name)).
Proof.
  unfold dir_diff. cbn [df_events]. rewrite diff_events, in_app_iff. cbn [df_events app]. rewrite !in_concat_btree.
  setoid_rewrite in_entry_events. setoid_rewrite in_gone_entry. split.
  - intros [(name & cur & Hc & Hn & [->|(prev & target & Hp & Ht & Hne & ->)])|(name & prev & Hp & Hg & target & Ht & ->)].
    + left. eauto.
    + right. exists name, prev, target. by rewrite Hc.
    + right. exists name, prev, target. by rewrite Hg.
  - intros [(name & cur & Hc & Hn & ->)|(name & prev & target & Hp & Ht & Hne & ->)]; [left; eauto 10|].
    destruct (current !! name) as [cur|] eqn:Hc; simpl in Hne; [left|right; eauto 10].
    exists name, cur. split; [done|]. split; [intros Heq; naive_solver|]. right. eauto 10.
Qed.

(** ** A file is captured once *)

Import CaptureFacts.

(** The content of the file was sent for the command, and the file not removed. *)
Definition bsd_seen c (key : Key) st : Prop :=
  ∃ ws, watches st !! c = Some ws ∧ dedupe ws !! key = Some (LinuxCapture.mkDedupe false).

(** What the pump remembers of each command. *)
Definition memory st : gmap CommandId (gmap Key LinuxCapture.DedupeEntry) := dedupe <$> watches st.

Lemma seen_memory c key st :
  bsd_seen c key st ↔ ∃ m, memory st !! c = Some m ∧ m !! key = Some (LinuxCapture.mkDedupe false).
Proof. unfold bsd_seen, memory. rewrite lookup_fmap. destruct (watches st !! c); simpl; naive_solver. Qed.

Lemma memory_insert st c ws ws' :
  watches st !! c = Some ws → dedupe ws' = dedupe ws → dedupe <$> <[c := ws']> (watches st) = memory st.
Proof.
  intros Hc Hd. unfold memory. rewrite fmap_insert, Hd. apply insert_id. by rewrite lookup_fmap, Hc.
Qed.

Lemma watch_new_dedupe sys c is_dir l : ∀ acc, dedupe (foldl (watch_new sys c is_dir) acc l).1.1 = dedupe acc.1.1.
Proof.
  induction l as [|path l IH]; intros [[ws idx] to_scan]; [done|]. cbn [foldl]. rewrite IH. unfold watch_new.
  destruct (add_path _ _ _) as [s [fd|]]; [|done]. destruct (fstat_meta sys fd), is_dir; done.
Qed.

Lemma scan_memory sys st c fd to_scan :
  memory (scan_dir_emit_and_watch_children sys st c fd to_scan).1.1 = memory st.
Proof.
  unfold scan_dir_emit_and_watch_children.
  destruct (watches st !! c) as [ws|] eqn:Hw; [|done]. destruct (dir_baselines ws !! fd) as [base|]; [|done].
  destruct (read_dir_entries sys fd) as [current|]; [|done].
  set (ws' := set_dir_baselines ws _). set (d := dir_diff sys fd base current).
  pose proof (watch_new_dedupe sys c true (df_dirs d) (foldl (watch_new sys c false) (ws', fd_to_command st, to_scan) (df_files d))) as Hx.
  rewrite (watch_new_dedupe sys c false (df_files d)) in Hx.
  destruct (foldl (watch_new sys c true) _ _) as [[ws1 idx] to_scan1].
  exact (memory_insert st c ws _ Hw Hx).
Qed.

Lemma scan_all_memory sys c fuel : ∀ st to_scan, memory (scan_all sys fuel st c to_scan).1 = memory st.
Proof.
  induction fuel as [|fuel IH]; intros st to_scan; [done|]. cbn [scan_all]. destruct (last to_scan) as [fd|]; [|done].
  pose proof (scan_memory sys st c fd (removelast to_scan)) as Hs.
  destruct (scan_dir_emit_and_watch_children _ _ _ _ _) as [[st1 out] to_scan1].
  pose proof (IH st1 to_scan1) as Hr. destruct (scan_all _ _ _ _ _). cbn [fst snd] in *. congruence.
Qed.

(** Messages that are no captures. *)
Lemma captures_trees c key sys c' ops :
  captures c key (concat ((λ op, send sys (HelperResponse.TreeMutation (session c') (seq c') op (b_now sys)) None) <$> ops)) = 0.
Proof.
  induction ops as [|op ops IH]; [done|]. rewrite fmap_cons. cbn [concat]. rewrite captures_app, IH. unfold send. by case_match.
Qed.

Lemma scan_all_quiet sys c key c' fuel : ∀ st to_scan, captures c key (scan_all sys fuel st c' to_scan).2 = 0.
Proof.
  induction fuel as [|fuel IH]; intros st to_scan; [done|]. cbn [scan_all]. destruct (last to_scan) as [fd|]; [|done].
  assert (captures c key (scan_dir_emit_and_watch_children sys st c' fd (removelast to_scan)).1.2 = 0) as Hs.
  { unfold scan_dir_emit_and_watch_children. repeat case_match; try done. apply captures_trees. }
  destruct (scan_dir_emit_and_watch_children _ _ _ _ _) as [[st1 out] to_scan1].
  pose proof (IH st1 to_scan1) as Hr. destruct (scan_all _ _ _ _ _). cbn [fst snd] in *. by rewrite captures_app, Hs, Hr.
Qed.

(** An event, with what the system answers. *)
Record VnodeEvent := mkVnode { v_sys : BsdSys; v_fuel : nat; v_fd : RawFd; v_kind : VnodeEventKind }.

Definition vnode_run_step st (e : VnodeEvent) := handle_vnode (v_sys e) (v_fuel e) st (v_fd e) (v_kind e).

Fixpoint vnode_run st (evs : list VnodeEvent) : PumpState * list Sent :=
  match evs with
  | [] => (st, [])
  | e :: evs' => let '(st, out) := vnode_run_step st e in let '(st, out') := vnode_run st evs' in (st, out ++ out')
  end.

(** The event is not the removal of the file. *)
Definition spares_file (key : Key) (e : VnodeEvent) : Prop :=
  v_kind e = VnodeEventKind.Delete → ∀ dev inode t, fstat_dev_inode_kind (v_sys e) (v_fd e) = Some (dev, inode, t) → (dev, inode) ≠ key.

Lemma attrib_quiet sys st fd c key :
  memory (handle_attrib sys st fd).1 = memory st ∧ captures c key (handle_attrib sys st fd).2 = 0.
Proof.
  unfold handle_attrib. destruct (fd_to_command st !! fd) as [c'|]; [|done].
  destruct (watches st !! c') as [ws|] eqn:Hw; [|done]. repeat (case_match; try done); (split; [by apply (memory_insert st c' ws)|done]).
Qed.

(** A step captures the file at most once, remembers it, and does not when it
    remembers one. *)
Definition once c key st (r : PumpState * list Sent) : Prop :=
  captures c key r.2 ≤ 1 ∧ (captures c key r.2 = 1 → bsd_seen c key r.1)
  ∧ (bsd_seen c key st → captures c key r.2 = 0 ∧ bsd_seen c key r.1).

Lemma step_quiet c key st st' out : memory st' = memory st → captures c key out = 0 → once c key st (st', out).
Proof.
  intros Hm Hq. unfold once. cbn [fst snd]. rewrite Hq, !seen_memory, Hm. split_and!; [lia|done|done].
Qed.

Lemma capture_once sys st c key c' ws fd dev inode is_delete resp staged :
  watches st !! c' = Some ws → vnode_capture sys c' ws fd (dev, inode) is_delete = Some (resp, staged) →
  (is_delete = true → (dev, inode) ≠ key) →
  (is_delete = false → LinuxCapture.should_capture_dedupe (dedupe ws) (dev, inode) = true) →
  once c key st (mkPump (<[c' := set_dedupe ws (<[(dev, inode) := LinuxCapture.mkDedupe is_delete]> (dedupe ws))]> (watches st))
    (fd_to_command st), send sys resp (Some staged)).
Proof.
  intros Hw Hv Hdel Hded. unfold vnode_capture in Hv. apply bind_Some in Hv as (meta & _ & Hv).
  apply bind_Some in Hv as ([[staged' h] n] & _ & [= <- <-]).
  assert (∀ b, captures c key (send sys (HelperResponse.CapturedPreImage (mkCapture (session c') (seq c') dev inode
      (path_string <$> path_for_fd (subtree ws) fd) h n (if is_delete then None else Some h) (sm_mode meta) (sm_uid meta)
      (sm_gid meta) (sm_mtime_unix_nanos meta) (sm_xattrs meta) is_delete (sm_flags meta))) b)
    = 0 ∨ c' = c ∧ (dev, inode) = key ∧ is_delete = false) as Hcap.
  { intros b. unfold send. case_match; [|by left]. rewrite captures_one. unfold captures_file. simpl.
    destruct (decide (c' = c ∧ (dev, inode) = key ∧ is_delete = false)) as [|Hn]; [by right|left].
    rewrite (surjective_pairing key) in Hn. destruct c', c. unfold cp_command. simpl.
    repeat case_bool_decide; simpl; try done. destruct is_delete; [by destruct Hdel|]. naive_solver. }
  specialize (Hcap (Some staged')). set (sent := send sys _ _) in *.
  assert (captures c key sent ≤ 1) as Hle.
  { unfold sent, send. case_match; [|unfold captures; simpl; lia]. rewrite captures_one. destruct (captures_file _ _ _); simpl; lia. }
  set (ws' := set_dedupe ws _). unfold once, bsd_seen. cbn [fst snd watches]. split_and!; [done| |].
  - intros Hone. destruct Hcap as [Hz|(-> & <- & ->)]; [lia|]. exists ws'. split; [apply lookup_insert_eq|]. apply lookup_insert_eq.
  - intros (ws0 & Hw0 & Hs). split.
    + destruct Hcap as [Hz|(-> & <- & ->)]; [done|]. simplify_eq. specialize (Hded eq_refl).
      unfold LinuxCapture.should_capture_dedupe in Hded. by rewrite Hs in Hded.
    + destruct (decide (c' = c)) as [->|Hne]; [|exists ws0; by rewrite lookup_insert_ne]. simplify_eq.
      exists ws'. split; [apply lookup_insert_eq|]. simpl. destruct (decide ((dev, inode) = key)) as [<-|Hk].
      * destruct is_delete; [by destruct Hdel|apply lookup_insert_eq].
      * by rewrite lookup_insert_ne.
Qed.

Lemma vnode_once c key st e : spares_file key e → once c key st (vnode_run_step st e).
Proof.
  intros Hsp. unfold vnode_run_step. destruct e as [sys fuel fd kd]. cbn [v_sys v_fuel v_fd v_kind] in *.
  unfold spares_file in Hsp. cbn [v_sys v_fuel v_fd v_kind] in Hsp.
  assert (∀ is_delete, (is_delete = true → kd = VnodeEventKind.Delete) → once c key st
    (match fd_to_command st !! fd with
     | None => (st, [])
     | Some command =>
         match watches st !! command with
         | None => (st, [])
         | Some ws =>
             match fstat_dev_inode_kind sys fd with
             | None | Some (_, _, FileType.Other) => (st, [])
             | Some (_, _, FileType.Directory) => handle_dir_change sys fuel st command fd
             | Some (dev, inode, FileType.Regular) =>
                 if negb is_delete && negb (LinuxCapture.should_capture_dedupe (dedupe ws) (dev, inode)) then (st, [])
                 else
                   match vnode_capture sys command ws fd (dev, inode) is_delete with
                   | None => (st, [])
                   | Some (resp, staged) =>
                       (mkPump (<[command := set_dedupe ws (<[(dev, inode) := LinuxCapture.mkDedupe is_delete]> (dedupe ws))]>
                                  (watches st)) (fd_to_command st), send sys resp (Some staged))
                   end
             end
         end
     end)) as Hmain.
  { intros is_delete Hd. destruct (fd_to_command st !! fd) as [c'|]; [|by apply step_quiet].
    destruct (watches st !! c') as [ws|] eqn:Hw; [|by apply step_quiet].
    destruct (fstat_dev_inode_kind sys fd) as [[[dev inode] []]|] eqn:Hf; [| |by apply step_quiet..].
    - destruct (negb is_delete && _) eqn:Hn; [by apply step_quiet|].
      destruct (vnode_capture _ _ _ _ _ _) as [[resp staged]|] eqn:Hv; [|by apply step_quiet].
      apply (capture_once sys st c key c' ws fd dev inode is_delete resp staged); [done|done| |].
      + intros ->. by apply (Hsp (Hd eq_refl) dev inode FileType.Regular).
      + intros ->. by apply negb_false_iff in Hn.
    - unfold handle_dir_change. pose proof (scan_all_memory sys c' fuel st [fd]) as Hm.
      pose proof (scan_all_quiet sys c key c' fuel st [fd]) as Hq.
      destruct (scan_all _ _ _ _ _) as [st1 out1]. by apply step_quiet. }
  destruct kd; cbn [handle_vnode];
    [by apply Hmain|by apply Hmain|by apply Hmain| |by apply step_quiet..].
  destruct (attrib_quiet sys st fd c key). destruct (handle_attrib sys st fd). by apply step_quiet.
Qed.

(** Within one watch, whatever events arrive in whatever order and whatever the
    system answers, the content of a file is sent at most once, unless its
    removal is reported in between. *)
Theorem bsd_captured_once c key evs : ∀ st, Forall (spares_file key) evs → captures c key (vnode_run st evs).2 ≤ 1.
Proof.
  assert (∀ st, Forall (spares_file key) evs → once c key st (vnode_run st evs)) as Hall; [|intros st Hf; by apply Hall].
  induction evs as [|e evs IH]; intros st Hf; [by apply step_quiet|]. apply Forall_cons in Hf as [He Hf]. cbn [vnode_run].
  destruct (vnode_once c key st e He) as (H1 & H2 & H3). destruct (vnode_run_step st e) as [st1 out1]. cbn [fst snd] in *.
  destruct (IH st1 Hf) as (G1 & G2 & G3). destruct (vnode_run st1 evs) as [st2 out2]. cbn [fst snd] in *.
  unfold once. cbn [fst snd]. rewrite captures_app. split_and!.
  - destruct (captures c key out1) as [|[|n]] eqn:Hn; [lia| |lia]. destruct (G3 (H2 eq_refl)) as [-> _]. lia.
  - intros Hone. destruct (captures c key out1) as [|[|n]] eqn:Hn; [by apply G2| |lia]. by destruct (G3 (H2 eq_refl)).
  - intros Hs. destruct (H3 Hs) as [-> Hs1]. by destruct (G3 Hs1) as [-> ?].
Qed.

(** ** The scan of new directories ends *)

Section Scan.
Context (sys : BsdSys) (rank : RawFd → nat) (c : CommandId).

(** A name leads down: what is opened below a directory is of lower rank. *)
Hypothesis Hrank : ∀ p name f, b_openat sys p name = Some f → rank f < rank p.

(** What [readdir] lists are names. *)
Hypothesis Hnames : ∀ fd entries, b_readdir sys fd = Some entries → Forall (λ e, path_of_string e.1 = [Normal e.1]) entries.

Implicit Types (N L : nat).

Lemma read_dir_names fd current name e :
  read_dir_entries sys fd = Some current → current !! name = Some e → path_of_string name = [Normal name].
Proof.
  unfold read_dir_entries. intros (entries & Hr & [= <-])%bind_Some. apply Hnames in Hr.
  assert (∀ m, (∀ v, m !! name = Some v → path_of_string name = [Normal name]) →
    foldl (read_dir_entry sys fd) m entries.*1 !! name = Some e → path_of_string name = [Normal name]) as Hgen.
  { induction Hr as [|[n d] entries Hn Hr IH]; intros m Hm He; [by apply (Hm e)|]. apply (IH _) in He; [done|].
    intros v Hv. unfold read_dir_entry in Hv. simpl in *. destruct (b_fstatat _ _ _); [|by apply (Hm v)].
    apply lookup_insert_Some in Hv as [[<- _]|[_ Hv]]; [done|by apply (Hm v)]. }
  by apply Hgen.
Qed.

(** The paths of new directories are one name longer. *)
Definition child_of_base (base : DirBaseline) (p : PathBuf) : Prop := ∃ name, p = db_path base ++ [Normal name].

Lemma diff_dirs fd base current :
  read_dir_entries sys fd = Some current → Forall (child_of_base base) (df_dirs (dir_diff sys fd base current)).
Proof.
  intros Hr. unfold dir_diff. cbn [df_dirs].
  assert (Forall (λ e, path_of_string e.1 = [Normal e.1]) (btree_iter current)) as Hl.
  { apply Forall_forall. intros [name e] He. apply elem_of_btree_iter in He. by apply (read_dir_names fd current name e). }
  assert (Forall (child_of_base base) (df_dirs (mkDiff [] [] []))) as Ha by constructor. revert Ha.
  generalize (mkDiff [] [] []). induction Hl as [|[name e] l Hn Hl IH]; intros acc Ha; [done|]. apply IH. unfold diff_entry.
  destruct (unchanged _ _); [done|]. cbn [df_dirs]. destruct (file_kind_at sys fd name); try done.
  apply Forall_app. split; [done|]. repeat constructor. exists name. unfold LinuxCapture.join. simpl in Hn. by rewrite Hn.
Qed.

(** The depth of what is watched is bounded. *)
Definition bounded N ws : Prop := Forall (λ e, rank e.1 + length e.2 ≤ N) (subtree ws).

Lemma add_path_bounded N ws path s f :
  bounded N ws → add_path sys (subtree ws) path = (s, f) →
  Forall (λ e, rank e.1 + length e.2 ≤ N) s ∧ (is_Some f → length path ≤ N).
Proof.
  unfold bounded, add_path. intros Hb Ha.
  destruct (parent path) as [q|] eqn:Hq; [|simplify_eq; split; [done|by intros []]].
  destruct (Notes.file_name path) as [name|]; [|simplify_eq; split; [done|by intros []]].
  destruct (List.find _ _) as [[p q']|] eqn:Hf; [|simplify_eq; split; [done|by intros []]].
  destruct (b_openat sys p name) as [g|] eqn:Ho; [|simplify_eq; split; [done|by intros []]].
  destruct (b_kevent sys g); simplify_eq; [|split; [done|by intros []]].
  apply find_some in Hf as [Hin Hp]. apply bool_decide_eq_true in Hp. simpl in Hp. subst q'.
  rewrite Forall_forall in Hb. pose proof (Hb _ (proj2 (list_elem_of_In _ _) Hin)) as Hr. simpl in Hr.
  apply Hrank in Ho. apply parent_Some in Hq as [x ->]. rewrite length_app. simpl. split; [|lia].
  apply Forall_app. split; [by apply Forall_forall|]. repeat constructor. simpl. rewrite length_app. simpl. lia.
Qed.

(** Directories keep their paths, or are found deeper than [L]. *)
Definition deeper L ws ws' : Prop :=
  ∀ g b', dir_baselines ws' !! g = Some b' →
    (∃ b, dir_baselines ws !! g = Some b ∧ db_path b = db_path b') ∨ L < length (db_path b').

Definition found_below L ws (g : RawFd) : Prop := ∀ b, dir_baselines ws !! g = Some b → L < length (db_path b).

Lemma deeper_trans L ws1 ws2 ws3 : deeper L ws1 ws2 → deeper L ws2 ws3 → deeper L ws1 ws3.
Proof.
  intros H1 H2 g b Hb. destruct (H2 g b Hb) as [(b2 & Hb2 & Hp)|?]; [|by right].
  destruct (H1 g b2 Hb2) as [(b1 & Hb1 & Hp1)|?]; [left; exists b1; split; [done|congruence]|right; congruence].
Qed.

Lemma deeper_same L ws ws' : dir_baselines ws' = dir_baselines ws → deeper L ws ws'.
Proof. intros He g b. rewrite He. eauto. Qed.

Lemma deeper_weaken L L' ws ws' : L' ≤ L → deeper L ws ws' → deeper L' ws ws'.
Proof. intros Hl Hd g b Hb. destruct (Hd g b Hb); [by left|right; lia]. Qed.

Lemma deeper_found L ws ws' g : deeper L ws ws' → found_below L ws g → found_below L ws' g.
Proof. intros Hd Hf b Hb. destruct (Hd g b Hb) as [(b0 & Hb0 & <-)|?]; [by apply Hf|done]. Qed.

(** What the watches of new children leave of the watch and of the stack. *)
Definition grown N L (acc acc' : WatchState * gmap RawFd CommandId * list RawFd) : Prop :=
  ∃ new, acc'.2 = acc.2 ++ new ∧ bounded N acc'.1.1 ∧ deeper L acc.1.1 acc'.1.1
    ∧ Forall (found_below L acc'.1.1) new ∧ (new = [] ∨ L < N).

Lemma grown_trans N L acc1 acc2 acc3 : grown N L acc1 acc2 → grown N L acc2 acc3 → grown N L acc1 acc3.
Proof.
  intros (n1 & E1 & B1 & D1 & F1 & M1) (n2 & E2 & B2 & D2 & F2 & M2). exists (n1 ++ n2). split_and!.
  - by rewrite E2, E1, <- (assoc_L (++)).
  - done.
  - by apply (deeper_trans L _ acc2.1.1).
  - apply Forall_app. split; [|done]. eapply Forall_impl; [done|]. intros g. by apply deeper_found.
  - destruct M1 as [->|], M2 as [->|]; auto.
Qed.

Lemma watch_new_grown N L is_dir acc path :
  bounded N acc.1.1 → (is_dir = true → L < length path) → grown N L acc (watch_new sys c is_dir acc path).
Proof.
  destruct acc as [[ws idx] to_scan]. cbn [fst snd]. intros Hb Hl. unfold watch_new.
  destruct (add_path _ _ _) as [s fd] eqn:Ha. apply (add_path_bounded N) in Ha as [Hs Hn]; [|done].
  assert (∀ ws', dir_baselines ws' = dir_baselines ws → subtree ws' = s → ∀ i, grown N L (ws, idx, to_scan) (ws', i, to_scan)) as Hquiet.
  { intros ws' Hd Hsub i. exists []. cbn [fst snd]. unfold bounded. rewrite app_nil_r, Hsub.
    split_and!; [done|done|by apply deeper_same|constructor|by left]. }
  destruct fd as [fd|]; [|by apply Hquiet]. specialize (Hn ltac:(done)).
  set (ws1 := match fstat_meta sys fd with Some m => _ | None => _ end).
  assert (subtree ws1 = s ∧ dir_baselines ws1 = dir_baselines ws) as [Hsub Hdir] by (unfold ws1; by case_match).
  destruct is_dir; [|by apply Hquiet]. specialize (Hl eq_refl).
  assert (∀ g b', <[fd := mkDirBaseline path ∅]> (dir_baselines ws1) !! g = Some b' →
    (∃ b, dir_baselines ws !! g = Some b ∧ db_path b = db_path b') ∨ L < length (db_path b')) as Hd.
  { intros g b'. rewrite Hdir. intros [[<- <-]|[_ Hg]]%lookup_insert_Some; [by right|left; eauto]. }
  exists [fd]. cbn [fst snd]. split_and!; [done|by unfold bounded; simpl; rewrite Hsub|exact Hd| |right; lia].
  repeat constructor. intros b Hx. simpl in Hx. rewrite lookup_insert_eq in Hx. by injection Hx as <-.
Qed.

Lemma grown_refl N L acc : bounded N acc.1.1 → grown N L acc acc.
Proof. intros Hb. exists []. rewrite app_nil_r. split_and!; [done|done|by apply deeper_same|constructor|by left]. Qed.

Lemma watch_all_grown N L is_dir l : ∀ acc,
  bounded N acc.1.1 → (is_dir = true → Forall (λ p, L < length p) l) → grown N L acc (foldl (watch_new sys c is_dir) acc l).
Proof.
  induction l as [|path l IH]; intros acc Hb Hl; [by apply grown_refl|]. cbn [foldl].
  assert (grown N L acc (watch_new sys c is_dir acc path)) as Hg.
  { apply watch_new_grown; [done|]. intros Hd. specialize (Hl Hd). by apply Forall_cons in Hl as [? _]. }
  apply (grown_trans N L _ _ _ Hg). apply IH; [by destruct Hg as (? & _ & ? & _)|].
  intros Hd. specialize (Hl Hd). by apply Forall_cons in Hl as [_ ?].
Qed.

(** The watch of the command, while its directories are scanned. *)
Definition scanning N L st st' : Prop :=
  match watches st !! c, watches st' !! c with
  | Some ws, Some ws' => bounded N ws → bounded N ws' ∧ deeper L ws ws'
  | None, None => True
  | _, _ => False
  end.

Definition in_bounds N st : Prop := ∀ ws, watches st !! c = Some ws → bounded N ws.
Definition all_below L st (g : RawFd) : Prop := ∀ ws, watches st !! c = Some ws → found_below L ws g.
Definition at_least L st (g : RawFd) : Prop :=
  ∀ ws b, watches st !! c = Some ws → dir_baselines ws !! g = Some b → L ≤ length (db_path b).

Lemma scan_grows N L st fd rest :
  in_bounds N st → at_least L st fd →
  ∃ new st' out, scan_dir_emit_and_watch_children sys st c fd rest = (st', out, rest ++ new)
    ∧ scanning N L st st' ∧ Forall (all_below L st') new ∧ (new = [] ∨ L < N).
Proof.
  intros Hb Hl. unfold scan_dir_emit_and_watch_children.
  assert (∃ new st' out, (st, [] : list Sent, rest) = (st', out, rest ++ new)
    ∧ scanning N L st st' ∧ Forall (all_below L st') new ∧ (new = [] ∨ L < N)) as Hquiet.
  { exists [], st, []. rewrite app_nil_r. split_and!; [done| |constructor|by left].
    unfold scanning. destruct (watches st !! c); [|done]. intros ?. split; [done|by apply deeper_same]. }
  destruct (watches st !! c) as [ws|] eqn:Hw; [|exact Hquiet].
  destruct (dir_baselines ws !! fd) as [base|] eqn:Hbase; [|exact Hquiet].
  destruct (read_dir_entries sys fd) as [current|] eqn:Hr; [|exact Hquiet]. clear Hquiet.
  set (ws' := set_dir_baselines ws _). set (d := dir_diff sys fd base current).
  assert (deeper L ws ws') as Hd.
  { intros g b'. simpl. intros [[<- <-]|[_ Hg]]%lookup_insert_Some; left; eauto. }
  assert (grown N L (ws', fd_to_command st, rest)
    (foldl (watch_new sys c true) (foldl (watch_new sys c false) (ws', fd_to_command st, rest) (df_files d)) (df_dirs d))) as Hg.
  { pose proof (watch_all_grown N L false (df_files d) (ws', fd_to_command st, rest) (Hb ws Hw) ltac:(done)) as Hf.
    apply (grown_trans N L _ _ _ Hf). apply watch_all_grown; [by destruct Hf as (? & _ & ? & _)|]. intros _.
    eapply Forall_impl; [by apply diff_dirs|]. intros p [name ->]. rewrite length_app. simpl.
    pose proof (Hl ws base Hw Hbase). lia. }
  destruct (foldl (watch_new sys c true) _ _) as [[ws1 idx] to_scan1]. destruct Hg as (new & Hn & Hb1 & Hd1 & Hf1 & Hm).
  cbn [fst snd] in *. subst to_scan1. eexists new, _, _. split; [done|]. split_and!; [| |done].
  - unfold scanning. simpl. rewrite Hw, lookup_insert_eq. intros _. split; [done|]. by apply (deeper_trans L _ ws').
  - eapply Forall_impl; [done|]. intros g Hg ws2. simpl. rewrite lookup_insert_eq. by intros [= <-].
Qed.

Lemma scanning_trans N L st1 st2 st3 :
  in_bounds N st1 → scanning N L st1 st2 → scanning N L st2 st3 → scanning N L st1 st3.
Proof.
  unfold scanning, in_bounds. intros Hb. destruct (watches st1 !! c) as [w1|], (watches st2 !! c) as [w2|], (watches st3 !! c) as [w3|];
    try done. intros H1 H2 Hw. destruct (H1 Hw) as [Hw2 D1], (H2 Hw2) as [Hw3 D2]. split; [done|]. by apply (deeper_trans L _ w2).
Qed.

Lemma scanning_bounds N L st st' : in_bounds N st → scanning N L st st' → in_bounds N st'.
Proof.
  unfold scanning, in_bounds. intros Hb Hs ws' Hw'. rewrite Hw' in Hs. destruct (watches st !! c); [|done]. by apply Hs, Hb.
Qed.

Lemma scanning_below N L st st' g : in_bounds N st → scanning N L st st' → all_below L st g → all_below L st' g.
Proof.
  unfold scanning, in_bounds, all_below. intros Hb Hs Hf ws' Hw'. rewrite Hw' in Hs.
  destruct (watches st !! c) as [ws|]; [|done]. destruct (Hs (Hb ws eq_refl)) as [_ Hd]. apply (deeper_found L ws); [done|by apply Hf].
Qed.

Lemma scanning_weaken N L L' st st' : L' ≤ L → scanning N L st st' → scanning N L' st st'.
Proof.
  unfold scanning. intros Hl. destruct (watches st !! c), (watches st' !! c); try done.
  intros Hs Hb. destruct (Hs Hb). split; [done|by apply (deeper_weaken L)].
Qed.

(** With some fuel the stack down to [rest] is done, and [rest] goes on. *)
Definition done_to N L st (rest l : list RawFd) : Prop :=
  ∃ k st' out, scanning N L st st' ∧
    ∀ m, scan_all sys (k + m) st c (rest ++ l) = let '(st2, out2) := scan_all sys m st' c rest in (st2, out ++ out2).

Lemma done_list N L (l : list RawFd) :
  (∀ f st rest, in_bounds N st → all_below L st f → done_to N L st rest [f]) →
  ∀ st rest, in_bounds N st → Forall (all_below L st) l → done_to N L st rest l.
Proof.
  intros Hone. induction l as [|f l IH] using rev_ind; intros st rest Hb Hl.
  - exists 0, st, []. split.
    + unfold scanning. destruct (watches st !! c); [|done]. intros ?. split; [done|by apply deeper_same].
    + intros m. rewrite app_nil_r. by destruct (scan_all _ _ _ _ _).
  - apply Forall_app in Hl as [Hl Hf]. apply Forall_cons in Hf as [Hf _].
    destruct (Hone f st (rest ++ l) Hb Hf) as (k & st1 & out1 & S1 & H1).
    destruct (IH st1 rest) as (k2 & st2 & out2 & S2 & H2); [by apply (scanning_bounds N L st)| |].
    { eapply Forall_impl; [done|]. intros g. by apply (scanning_below N L st). }
    exists (k + k2), st2, (out1 ++ out2). split; [by apply (scanning_trans N L st st1)|].
    intros m. rewrite (assoc_L (++)), <- Nat.add_assoc, H1, H2.
    destruct (scan_all _ _ _ _ _) as [st3 out3]. by rewrite (assoc_L (++)).
Qed.

Lemma done_one N n : ∀ L f st rest, N ≤ L + n → in_bounds N st → at_least L st f → done_to N L st rest [f].
Proof.
  induction n as [|n IH]; intros L f st rest Hn Hb Hl;
    destruct (scan_grows N L st f rest Hb Hl) as (new & st1 & out1 & Hscan & S1 & Hf & Hm).
  - destruct Hm as [->|]; [|lia]. rewrite app_nil_r in Hscan. exists 1, st1, out1. split; [done|]. intros m.
    cbn [Nat.add scan_all]. by rewrite last_snoc, removelast_last, Hscan.
  - destruct (done_list N L new) with (st := st1) (rest := rest) as (k & st2 & out2 & S2 & H2);
      [|by apply (scanning_bounds N L st)|done|].
    { intros g st' rest' Hb' Hg. destruct (IH (S L) g st' rest') as (k & st2 & out2 & Hs & Hk); [lia|done| |].
      - intros ws b Hw Hx. by apply (Hg ws Hw).
      - exists k, st2, out2. split; [|done]. apply (scanning_weaken N (S L)); [lia|done]. }
    exists (S k), st2, (out1 ++ out2). split; [by apply (scanning_trans N L st st1)|]. intros m. cbn [Nat.add scan_all].
    rewrite last_snoc, removelast_last, Hscan, H2. destruct (scan_all _ _ _ _ _) as [st3 out3]. by rewrite (assoc_L (++)).
Qed.

Lemma some_bound st : ∃ N, in_bounds N st.
Proof.
  unfold in_bounds. destruct (watches st !! c) as [ws|]; [|by exists 0].
  exists (sum_list ((λ e, rank e.1 + length e.2) <$> subtree ws)). intros ? [= <-]. unfold bounded.
  induction (subtree ws) as [|e l IH]; [constructor|]. rewrite fmap_cons. simpl. constructor; [lia|].
  eapply Forall_impl; [exact IH|]. simpl. lia.
Qed.

(** C12. The scan that a change of a directory starts ends, however deep the tree
    that appeared below it: from some fuel on the result is the same. *)
Theorem handle_dir_change_terminates st fd :
  ∃ fuel, ∀ more, handle_dir_change sys (fuel + more) st c fd = handle_dir_change sys fuel st c fd.
Proof.
  destruct (some_bound st) as [N Hb].
  destruct (done_one N N 0 fd st [] ltac:(lia) Hb) as (k & st' & out & _ & Hk); [intros ws b _ _; lia|].
  exists k. intros more. unfold handle_dir_change. cbn [app] in Hk. pose proof (Hk 0) as H0. rewrite Nat.add_0_r in H0.
  rewrite Hk, H0. by destruct more.
Qed.

End Scan.

End Facts.

End BsdFacts.
