(* ===== verification/Shim.v ===== *)
(** * The preload shim

    The crate [shit-preload-shim] on Linux. [ShimGate]: the matcher of install
    prefixes ([prefix_match.rs]), the patterns of install commands
    ([install_pattern.rs]), the configuration ([install_config.rs]), the
    environment gates ([runtime.rs], [dispatch.rs]). [Shim]: what the
    interposed calls tell the daemon ([policy] and [interposers] of [lib.rs]),
    with what the operating system shows to the process as a record. *)

From stdpp Require Import pretty.
From S2P Require Import Prelude Paths Base Events Probe Env Frame Redirect Runners Text Notes Tables Index.
From S2P Require Import Blobs Active Baseline WatchReady Daemon HelperEvents.

Module ShimGate.
Import Text.

(** ** prefix_match.rs *)

Fixpoint trim_end_slashes (s : string) : string :=
  match s with
  | EmptyString => ""
  | String c rest =>
      let t := trim_end_slashes rest in
      if bool_decide (t = "") && bool_decide (c = "/"%char) then "" else String c t
  end.

Definition prefix_step (prefixes : list string) (s : string) : list string :=
  if negb (Redirect.starts s "/") || bool_decide (s = "/") then prefixes
  else
    let trimmed := trim_end_slashes s in
    if bool_decide (trimmed = "") || bool_decide (trimmed ∈ prefixes) then prefixes else prefixes ++ [trimmed].

(** [PrefixSet::new]. *)
Definition prefix_set (roots : list string) : list string := foldl prefix_step [] roots.

Definition prefix_hit (s p : string) : bool :=
  bool_decide (s = p)
  || (bool_decide (String.length p < String.length s)
      && bool_decide (String.get (String.length p) s = Some "/"%char) && Redirect.starts s p).

(** [PrefixSet::matches] and [matches_str]. *)
Definition matches_str (prefixes : list string) (s : string) : bool :=
  Redirect.starts s "/" && existsb (prefix_hit s) prefixes.

(** ** install_pattern.rs *)

Module InstallPattern.
Inductive InstallPattern :=
  | Make | CmakeInstall | NinjaInstall | CargoInstall | PipUserInstall | PythonSetupPyInstall | PythonInstaller
  | MesonInstall.
End InstallPattern.
Abbreviation InstallPattern := InstallPattern.InstallPattern.

Definition pattern_str (p : InstallPattern) : string :=
  match p with
  | InstallPattern.Make => "make-install"
  | InstallPattern.CmakeInstall => "cmake-install"
  | InstallPattern.NinjaInstall => "ninja-install"
  | InstallPattern.CargoInstall => "cargo-install"
  | InstallPattern.PipUserInstall => "pip-install-user"
  | InstallPattern.PythonSetupPyInstall => "python-setup-py-install"
  | InstallPattern.PythonInstaller => "python-installer"
  | InstallPattern.MesonInstall => "meson-install"
  end.

Definition has_token (argv : list string) (tok : string) : bool := existsb (λ t, bool_decide (t = tok)) argv.

Definition has_any_flag (argv flags : list string) : bool :=
  existsb (λ t, existsb (λ f, bool_decide (t = f)
    || (Redirect.starts t f && bool_decide (String.get (String.length f) t = Some "="%char))) flags) argv.

Definition basename (p : string) : string :=
  match rsplit_once "/" p with Some (_, b) => b | None => p end.

Definition if_token (rest : list string) (tok : string) (p : InstallPattern) : option InstallPattern :=
  if has_token rest tok then Some p else None.

Definition classify_cargo (rest : list string) : option InstallPattern :=
  match rest with
  | "install" :: opts =>
      if has_any_flag opts ["--path"; "--force"; "--root"] then Some InstallPattern.CargoInstall else None
  | _ => None
  end.

Definition classify_pip (rest : list string) : option InstallPattern :=
  match rest with
  | "install" :: opts => if_token opts "--user" InstallPattern.PipUserInstall
  | _ => None
  end.

Definition classify_python (rest : list string) : option InstallPattern :=
  match rest with
  | "-m" :: "pip" :: "install" :: opts => if_token opts "--user" InstallPattern.PipUserInstall
  | "-m" :: "installer" :: _ => Some InstallPattern.PythonInstaller
  | "setup.py" :: "install" :: _ => Some InstallPattern.PythonSetupPyInstall
  | _ => None
  end.

Definition classify_install_argv (argv : list string) : option InstallPattern :=
  match argv with
  | [] => None
  | first :: rest =>
      let head := basename first in
      if bool_decide (head ∈ ["make"; "gmake"; "remake"]) then if_token rest "install" InstallPattern.Make
      else if bool_decide (head = "cmake") then if_token rest "--install" InstallPattern.CmakeInstall
      else if bool_decide (head = "ninja") then if_token rest "install" InstallPattern.NinjaInstall
      else if bool_decide (head = "meson") then if_token rest "install" InstallPattern.MesonInstall
      else if bool_decide (head = "cargo") then classify_cargo rest
      else if bool_decide (head ∈ ["pip"; "pip3"]) then classify_pip rest
      else if bool_decide (head ∈ ["python"; "python2"; "python3"]) then classify_python rest
      else None
  end.

(** ** install_config.rs *)

Definition BUILTIN_PREFIXES : list string :=
  ["/usr/local"; "/opt"; "~/.local"; "~/.local/bin"; "~/.local/lib"; "~/.cargo/bin"].

Record PrefixEntry := mkEntry { pe_path : string; pe_optional : bool }.
Record Config := mkConfig { cf_replace : bool; cf_prefixes : list PrefixEntry }.

Definition empty_config : Config := mkConfig false [].

Fixpoint trim_start_slashes (s : string) : string :=
  match s with
  | String "/" rest => trim_start_slashes rest
  | _ => s
  end.

Definition expand_tilde (raw home : string) : string :=
  match Redirect.strip_prefix "~/" raw with
  | Some rest => trim_end_slashes home +:+ "/" +:+ trim_start_slashes rest
  | None => if bool_decide (raw = "~") then home else raw
  end.

Definition config_entries (cfg : Config) : list (string * bool) :=
  (if cf_replace cfg then [] else (λ p, (p, true)) <$> BUILTIN_PREFIXES)
  ++ ((λ e, (pe_path e, pe_optional e)) <$> cf_prefixes cfg).

(** The error is the required prefix that is not there. *)
Fixpoint resolve_entries (exists_ : string → bool) (home : string) (entries : list (string * bool)) (seen : gset string)
    : list string + string :=
  match entries with
  | [] => inl []
  | (raw, optional) :: rest =>
      let expanded := expand_tilde raw home in
      if bool_decide (expanded ∈ seen) then resolve_entries exists_ home rest seen
      else
        let seen := {[expanded]} ∪ seen in
        if exists_ expanded then
          match resolve_entries exists_ home rest seen with inl out => inl (expanded :: out) | inr e => inr e end
        else if optional then resolve_entries exists_ home rest seen
        else inr expanded
  end.

Definition resolve_prefixes (exists_ : string → bool) (home : string) (cfg : Config) : list string + string :=
  resolve_entries exists_ home (config_entries cfg) ∅.

(** ** runtime.rs and dispatch.rs *)

Abbreviation Environ := (list (string * string)).

(** [std::env::var]: the first entry. *)
Definition getenv (env : Environ) (name : string) : option string :=
  snd <$> List.find (λ kv : string * string, bool_decide (kv.1 = name)) env.

Definition is_active (env : Environ) : bool := bool_decide (getenv env "SHIT_PRELOAD_ACTIVE" = Some "1").

Definition current_depth (env : Environ) : N :=
  default 0%N (match getenv env "SHIT_PRELOAD_DEPTH" with Some s => parse_uint (2 ^ 32 - 1) s | None => None end).

Definition at_top_level (env : Environ) : bool := bool_decide (current_depth env = 0%N).

Definition stripped_env_names : list string :=
  ["SHIT_PRELOAD_ACTIVE"; "SHIT_PRELOAD_DEPTH"; "LD_PRELOAD"; "DYLD_INSERT_LIBRARIES"].

Definition strip_for_child_env (env : Environ) : Environ :=
  List.filter (λ kv, negb (bool_decide (kv.1 ∈ stripped_env_names))) env.

Definition injection_env (lib_path sock_path : string) : Environ :=
  [("LD_PRELOAD", lib_path); ("SHIT_PRELOAD_ACTIVE", "1"); ("SHIT_DAEMON_SOCK", sock_path)].

Definition prefix_set_from_env (env : Environ) : list string :=
  match getenv env "SHIT_INSTALL_PREFIXES" with
  | Some s => prefix_set (List.filter (λ x, negb (bool_decide (x = ""))) (split_char ":" s))
  | None => []
  end.

Definition should_capture (env : Environ) (prefixes : list string) (path : string) : bool :=
  is_active env && at_top_level env && matches_str prefixes path.

End ShimGate.

Module Shim.
Import Text ShimEvents.

(** What the system shows: an error with its code and text, the answer of
    [lstat], and the calls of the policy. *)
Record IoError := mkIoError { io_code : option N; io_text : string }.

Record Stat := mkStat {
  st_kind : FileKind; st_dev : N; st_ino : N; st_mode : N; st_uid : N; st_gid : N; st_size : N; st_mtime_nanos : Z;
}.

Record ShimSys := mkShimSys {
  sy_canonicalize : string → string + IoError;
  sy_lstat : string → option Stat;
  sy_read : string → option bytes;
  sy_read_dir : string → option (list string);  (** the names, unreadable entries left out *)
  sy_fd_link : Z → option string;               (** [/proc/self/fd/N] *)
  sy_connected : bool;                          (** the socket takes the frame *)
  sy_pid : N;
  sy_now : N;
}.

Definition SHIM_INLINE_PREIMAGE_CAP : N := 32 * 1024 * 1024.
Definition RECURSIVE_MAX_FILES : nat := Z.to_nat 1000.
Definition RECURSIVE_MAX_BYTES : N := 50 * 1024 * 1024.
Definition RECURSIVE_MAX_DEPTH : nat := 5.
Definition AT_FDCWD : Z := -100.
Definition O_WRONLY : N := 1.
Definition O_RDWR : N := 2.
Definition O_TRUNC : N := 512.
Definition PROT_WRITE : N := 2.
Definition MAP_SHARED : N := 1.
Definition ENOENT : N := 2.
Definition ENOTDIR : N := 20.

Definition should_skip_path (path : string) : bool :=
  Redirect.starts path "/dev/" || bool_decide (path = "/dev") || Redirect.starts path "/proc/"
  || Redirect.starts path "/sys/".

(** [Path::join] of a name or a path. *)
Definition path_join (dir path : string) : string :=
  if Redirect.starts path "/" then path
  else if bool_decide (dir = "") then path
  else if ends_with_char "/" dir then dir +:+ path
  else dir +:+ "/" +:+ path.

(** [{:?}] of a string: quotes, backslashes and control characters are
    escaped; other characters stand for themselves. *)
Definition escape_char (c : Ascii.ascii) : string :=
  let n := Ascii.N_of_ascii c in
  if bool_decide (n = 34)%N then "\" +:+ String c ""
  else if bool_decide (n = 92)%N then "\\"
  else if bool_decide (n = 0)%N then "\0"
  else if bool_decide (n = 9)%N then "\t"
  else if bool_decide (n = 10)%N then "\n"
  else if bool_decide (n = 13)%N then "\r"
  else if bool_decide (n < 32)%N || bool_decide (n = 127)%N then
    "\u{" +:+ (if bool_decide (n < 16)%N then "" else String (hex_digit (n / 16)) "") +:+ String (hex_digit (n mod 16)) "" +:+ "}"
  else String c "".

Fixpoint escape (s : string) : string :=
  match s with EmptyString => "" | String c rest => escape_char c +:+ escape rest end.

Definition debug_str (s : string) : string :=
  let q := String (Ascii.ascii_of_N 34) "" in q +:+ escape s +:+ q.

Module CanonicalizeError.
Inductive CanonicalizeError :=
  | NoFileName (path : string)
  | NoParent (path : string)
  | PathAndParentBothFailed (path : string) (path_err : IoError) (parent : string) (parent_err : IoError).
End CanonicalizeError.
Abbreviation CanonicalizeError := CanonicalizeError.CanonicalizeError.

Definition canonicalize_error_text (e : CanonicalizeError) : string :=
  match e with
  | CanonicalizeError.NoFileName path => "path has no file-name component: " +:+ debug_str path
  | CanonicalizeError.NoParent path => "path has no parent component: " +:+ debug_str path
  | CanonicalizeError.PathAndParentBothFailed path path_err parent parent_err =>
      "canonicalize " +:+ debug_str path +:+ " failed (" +:+ io_text path_err +:+ "); parent "
      +:+ debug_str parent +:+ " also failed (" +:+ io_text parent_err +:+ ")"
  end.

Module AtResolution.
Inductive AtResolution := Resolved (abs : string) | Failed (raw : string) (failure : ShimFailure) | Nothing.
End AtResolution.
Abbreviation AtResolution := AtResolution.AtResolution.

(** The walk below a directory that is renamed. *)
Record Walk := mkWalk { wk_out : list ShimPreImage; wk_total : N; wk_stop : bool }.

(** The calls that are interposed, with the arguments the policy looks at. *)
Module Call.
Inductive Call :=
  | Unlink (path : string)
  | Unlinkat (dirfd : Z) (path : string)
  | Open (path : string) (flags : N)
  | Openat (dirfd : Z) (path : string) (flags : N)
  | Rename (from to : string)
  | Renameat (fromfd : Z) (from : string) (tofd : Z) (to : string)
  | Renameat2 (fromfd : Z) (from : string) (tofd : Z) (to : string)
  | Mkfifo (path : string)
  | Mkfifoat (path : string)
  | Link (new : string)
  | Linkat (new : string)
  | Truncate (path : string)
  | Ftruncate (fd : Z)
  | Pwrite (fd : Z)
  | Mmap (prot flags : N) (fd : Z).
End Call.
Abbreviation Call := Call.Call.

Section Policy.
Context {E : Type} (to_allocvec : ShimNotification → Frame.frame_bytes + E) (sys : ShimSys).
(** [SHIT_SHIM_DISABLE=1], and that the thread is inside a notification. *)
Context (disabled reentrant : bool).

(** The notification that reaches the daemon, if any does. *)
Abbreviation Sent := (option ShimNotification).

(** ** Resolving paths *)

Definition join_at_path (dirfd : Z) (path : string) : string :=
  if Redirect.starts path "/" || bool_decide (dirfd = AT_FDCWD) then path
  else match sy_fd_link sys dirfd with Some dir => path_join dir path | None => path end.

Definition canonical_path (path : string) : string + CanonicalizeError :=
  match sy_canonicalize sys path with
  | inl abs => inl abs
  | inr direct_err =>
      let p := path_of_string path in
      match Notes.file_name p with
      | None => inr (CanonicalizeError.NoFileName path)
      | Some name =>
          match parent p with
          | None => inr (CanonicalizeError.NoParent path)
          | Some par =>
              let parent_in := if path_is_empty par then "." else path_string par in
              match sy_canonicalize sys parent_in with
              | inl parent_abs => inl (path_join parent_abs name)
              | inr parent_err =>
                  inr (CanonicalizeError.PathAndParentBothFailed path direct_err parent_in parent_err)
              end
          end
      end
  end.

Definition canonicalize_or_raw (path which_arg : string) : string * option ShimFailure :=
  match canonical_path path with
  | inl abs => (abs, None)
  | inr e => (path, Some (ShimFailure.CanonicalizeFailed which_arg path (canonicalize_error_text e)))
  end.

Definition missing_parent (e : CanonicalizeError) : bool :=
  match e with
  | CanonicalizeError.PathAndParentBothFailed _ _ _ parent_err =>
      bool_decide (io_code parent_err = Some ENOENT) || bool_decide (io_code parent_err = Some ENOTDIR)
  | _ => false
  end.

Definition resolve_at_for_notify (dirfd : Z) (path which_arg : string) : AtResolution :=
  let joined := join_at_path dirfd path in
  if negb (Redirect.starts joined "/") && negb (bool_decide (dirfd = AT_FDCWD)) then
    AtResolution.Failed path (ShimFailure.CanonicalizeFailed which_arg path
      ("dirfd " +:+ pretty dirfd +:+ " could not be resolved to a directory"))
  else match canonical_path joined with
       | inl abs => AtResolution.Resolved abs
       | inr e =>
           if missing_parent e then AtResolution.Nothing
           else AtResolution.Failed joined
                  (ShimFailure.CanonicalizeFailed which_arg joined (canonicalize_error_text e))
       end.

(** ** Pre-images *)

(** [read_st_flags] is not there on Linux: the flags are zero. *)
Definition capture_pre_image_resolved (path : string) (path_resolved : bool) : option ShimPreImage :=
  match sy_lstat sys path with
  | None => None
  | Some meta =>
      if negb (bool_decide (st_kind meta = FileKind.Regular)) then None
      else if bool_decide (SHIM_INLINE_PREIMAGE_CAP < st_size meta)%N then None
      else match sy_read sys path with
           | None => None
           | Some b =>
               let resolved :=
                 if path_resolved then path
                 else match sy_canonicalize sys path with inl abs => abs | inr _ => path end in
               Some (mkShimPre resolved (st_dev meta) (st_ino meta) (st_mode meta) (st_uid meta) (st_gid meta)
                       (st_size meta) (st_mtime_nanos meta) b None 0)
           end
  end.

Definition capture_pre_image (path : string) : option ShimPreImage := capture_pre_image_resolved path false.

(** [u64::saturating_add]. *)
Definition sat_add (a b : N) : N := N.min (a + b) (2 ^ 64 - 1).

(** One entry of a directory: directories are kept for later, the last one
    first. *)
Definition visit_entry (dir : string) (wd : Walk * list string) (name : string) : Walk * list string :=
  let '(w, dirs) := wd in
  if wk_stop w || bool_decide (RECURSIVE_MAX_FILES ≤ length (wk_out w)) then wd
  else
    let path := path_join dir name in
    match sy_lstat sys path with
    | None => wd
    | Some meta =>
        match st_kind meta with
        | FileKind.Directory => (w, path :: dirs)
        | FileKind.Regular =>
            if bool_decide (RECURSIVE_MAX_BYTES < sat_add (wk_total w) (st_size meta))%N
            then (mkWalk (wk_out w) (wk_total w) true, dirs)
            else if should_skip_path path then wd
            else match capture_pre_image path with
                 | Some pre =>
                     (mkWalk (wk_out w ++ [pre]) (sat_add (wk_total w) (N.of_nat (length (sp_bytes pre)))) false, dirs)
                 | None => wd
                 end
        | _ => wd
        end
    end.

(** The stack of directories: after a directory, those found in it are taken
    before the ones that were waiting, the last found first. *)
Fixpoint walk_tree (levels : nat) (dir : string) (w : Walk) : Walk :=
  match levels with
  | O => w
  | S levels' =>
      if wk_stop w || bool_decide (RECURSIVE_MAX_FILES ≤ length (wk_out w)) then w
      else match sy_read_dir sys dir with
           | None => w
           | Some names =>
               let '(w, dirs) := foldl (visit_entry dir) (w, []) names in
               foldl (λ w d, walk_tree levels' d w) w dirs
           end
  end.

Definition collect_recursive_pre_images (from_abs : string) : list ShimPreImage :=
  match sy_lstat sys from_abs with
  | Some meta =>
      if bool_decide (st_kind meta = FileKind.Directory)
      then wk_out (walk_tree (S RECURSIVE_MAX_DEPTH) from_abs (mkWalk [] 0 false)) else []
  | None => []
  end.

(** ** Notifying *)

(** A frame that is too large, or that the socket does not take, is dropped. *)
Definition try_notify (syscall arg : string) (pre_image : option ShimPreImage) (extra : list ShimPreImage)
    (failure : option ShimFailure) : Sent :=
  let note := mkNote (sy_pid sys) syscall arg (sy_now sys) pre_image extra failure in
  let cap := if bool_decide (is_Some pre_image) || negb (bool_decide (extra = []))
             then Frame.MAX_LARGE_FRAME_SIZE else Frame.MAX_FRAME_SIZE in
  if negb (sy_connected sys) then None
  else match Frame.encode_frame_with_cap to_allocvec note cap with
       | Some (inl _) => Some note
       | _ => None
       end.

Definition notify_inner_with_failure (syscall arg : string) (capture_path : option string)
    (failure : option ShimFailure) (path_resolved : bool) : Sent :=
  if disabled || reentrant then None
  else
    let pre_image := match capture_path with Some c => capture_pre_image_resolved c path_resolved | None => None end in
    let wire_arg :=
      match pre_image, capture_path with
      | Some pre, Some cap => if bool_decide (cap = arg) then sp_path pre else arg
      | _, _ => arg
      end in
    try_notify syscall wire_arg pre_image [] failure.

Definition notify_inner (syscall arg : string) (capture_path : option string) : Sent :=
  notify_inner_with_failure syscall arg capture_path None false.

Definition notify_pre_mutation (syscall arg : string) : Sent :=
  if should_skip_path arg then None else notify_inner syscall arg None.

Definition notify_pre_mutation_with_content (syscall path : string) : Sent :=
  if should_skip_path path then None else notify_inner syscall path (Some path).

Definition notify_pre_mutation_with_content_at (syscall : string) (dirfd : Z) (path : string) : Sent :=
  match resolve_at_for_notify dirfd path "path" with
  | AtResolution.Resolved abs =>
      if should_skip_path abs then None else notify_inner_with_failure syscall abs (Some abs) None true
  | AtResolution.Failed raw failure =>
      if should_skip_path raw then None else notify_inner_with_failure syscall raw None (Some failure) false
  | AtResolution.Nothing => None
  end.

Definition notify_rename_inner_with_recursive (syscall arg capture_path from_abs : string)
    (failure : option ShimFailure) : Sent :=
  if disabled || reentrant then None
  else
    let pre_image := capture_pre_image capture_path in
    let extras := collect_recursive_pre_images from_abs in
    let wire_arg :=
      match pre_image with
      | Some pre => if bool_decide (sp_path pre = capture_path) then sp_path pre else arg
      | None => arg
      end in
    try_notify syscall wire_arg pre_image extras failure.

Definition tabbed (from to : string) : string := from +:+ String (Ascii.ascii_of_N 9) to.

Definition notify_rename_with_dst_preimage (syscall from to : string) : Sent :=
  let '(from_abs, from_failure) := canonicalize_or_raw from "from" in
  let '(to_abs, to_failure) := canonicalize_or_raw to "to" in
  let failure := match from_failure with Some f => Some f | None => to_failure end in
  if bool_decide (from_abs = to_abs) then None
  else notify_rename_inner_with_recursive syscall (tabbed from_abs to_abs) to from_abs failure.

Definition notify_rename_at (syscall : string) (fromfd : Z) (from : string) (tofd : Z) (to : string) : Sent :=
  match resolve_at_for_notify fromfd from "from", resolve_at_for_notify tofd to "to" with
  | AtResolution.Nothing, _ | _, AtResolution.Nothing => None
  | AtResolution.Resolved a, AtResolution.Resolved b => notify_rename_with_dst_preimage syscall a b
  | AtResolution.Failed fa fe, AtResolution.Failed ta _
  | AtResolution.Failed fa fe, AtResolution.Resolved ta
  | AtResolution.Resolved fa, AtResolution.Failed ta fe =>
      notify_inner_with_failure syscall (tabbed fa ta) None (Some fe) false
  end.

Definition notify_create (syscall path : string) : Sent :=
  if should_skip_path path then None
  else
    let '(abs, failure) := canonicalize_or_raw path "path" in
    if should_skip_path abs then None else notify_inner_with_failure syscall abs None failure false.

(** ** The interposed calls, before the real one runs *)

Definition writes (flags : N) : bool :=
  negb (bool_decide (N.land flags O_WRONLY = 0)%N) || negb (bool_decide (N.land flags O_RDWR = 0)%N)
  || negb (bool_decide (N.land flags O_TRUNC = 0)%N).

Definition unlink (path : string) : Sent := notify_pre_mutation_with_content "unlink" path.

Definition unlinkat (dirfd : Z) (path : string) : Sent := notify_pre_mutation_with_content_at "unlinkat" dirfd path.

Definition open (path : string) (flags : N) : Sent :=
  if writes flags then notify_pre_mutation_with_content "open" path else None.

Definition openat (dirfd : Z) (path : string) (flags : N) : Sent :=
  if writes flags then notify_pre_mutation_with_content_at "openat" dirfd path else None.

Definition rename (from to : string) : Sent := notify_rename_with_dst_preimage "rename" from to.

Definition renameat (fromfd : Z) (from : string) (tofd : Z) (to : string) : Sent :=
  notify_rename_at "renameat" fromfd from tofd to.

Definition renameat2 (fromfd : Z) (from : string) (tofd : Z) (to : string) : Sent :=
  notify_rename_at "renameat2" fromfd from tofd to.

Definition mkfifo (path : string) : Sent := notify_create "mkfifo" path.
Definition mkfifoat (path : string) : Sent := notify_create "mkfifoat" path.
Definition link (new : string) : Sent := notify_create "link" new.
Definition linkat (new : string) : Sent := notify_create "linkat" new.
Definition truncate (path : string) : Sent := notify_pre_mutation_with_content "truncate" path.
Definition ftruncate (fd : Z) : Sent := notify_pre_mutation "ftruncate" ("fd:" +:+ pretty fd).
Definition pwrite (fd : Z) : Sent := notify_pre_mutation "pwrite" ("fd:" +:+ pretty fd).

Definition mmap (prot flags : N) (fd : Z) : Sent :=
  if negb (bool_decide (N.land prot PROT_WRITE = 0)%N) && negb (bool_decide (N.land flags MAP_SHARED = 0)%N)
  then notify_pre_mutation "mmap_shared_w" ("fd:" +:+ pretty fd) else None.

Definition interpose (c : Call) : Sent :=
  match c with
  | Call.Unlink path => unlink path
  | Call.Unlinkat dirfd path => unlinkat dirfd path
  | Call.Open path flags => open path flags
  | Call.Openat dirfd path flags => openat dirfd path flags
  | Call.Rename from to => rename from to
  | Call.Renameat fromfd from tofd to => renameat fromfd from tofd to
  | Call.Renameat2 fromfd from tofd to => renameat2 fromfd from tofd to
  | Call.Mkfifo path => mkfifo path
  | Call.Mkfifoat path => mkfifoat path
  | Call.Link new => link new
  | Call.Linkat new => linkat new
  | Call.Truncate path => truncate path
  | Call.Ftruncate fd => ftruncate fd
  | Call.Pwrite fd => pwrite fd
  | Call.Mmap prot flags fd => mmap prot flags fd
  end.

End Policy.

End Shim.
