(* ===== verification/TierTrack.v ===== *)
(** * Trackers of the system tiers

    [pkg.rs], [svc_track.rs], [net_track.rs], [proc_track.rs], [db_track.rs],
    [container_track.rs] and [cloud_track.rs] of [shitd]. The wrapper of a
    tool reports before and after it runs; the second report is paired with
    the first and journaled for the command it belongs to. Containers and
    cloud tools report once. *)

From S2P Require Import Prelude Paths Base Events Inverse Probe Network Plan Env Redirect Runners Packages.
From S2P Require Import Tables Index Blobs Retention TierStash Active Baseline WatchReady Daemon.

Module TierTrack.
Import Index TierStash Daemon.

#[local] Existing Instance Packages.PackageManager_eq_dec.
#[local] Existing Instance Services.ServiceState_eq_dec.

(** ** Packages *)

Record PkgDiff := mkPkgDiff {
  pd_installed : gmap string string;
  pd_removed : gmap string string;
  pd_changed : gmap string (string * string);
}.

Definition diff_packages (pre post : gmap string string) : PkgDiff :=
  let '(inst, ch) :=
    foldl (λ '(inst, ch) '(name, v_post),
      match pre !! name with
      | None => (<[name := v_post]> inst, ch)
      | Some v_pre => if bool_decide (v_pre = v_post) then (inst, ch) else (inst, <[name := (v_pre, v_post)]> ch)
      end) (∅, ∅) (btree_iter post) in
  let rem := foldl (λ rem '(name, v_pre),
      if bool_decide (is_Some (post !! name)) then rem else <[name := v_pre]> rem) ∅ (btree_iter pre) in
  mkPkgDiff inst rem ch.

Definition op_of_hint (s : string) : option PackageOpKind :=
  if bool_decide (s = "install") then Some PackageOpKind.Install
  else if bool_decide (s = "remove") then Some PackageOpKind.Remove
  else if bool_decide (s = "purge") then Some PackageOpKind.Purge
  else if bool_decide (s = "upgrade") then Some PackageOpKind.Upgrade
  else if bool_decide (s = "downgrade") then Some PackageOpKind.Downgrade
  else if bool_decide (s = "hold") then Some PackageOpKind.Hold
  else if bool_decide (s = "unhold") then Some PackageOpKind.Unhold
  else None.

Definition classify_op (op_hint : option string) (diff : PkgDiff) : PackageOpKind :=
  match op_hint ≫= op_of_hint with
  | Some k => k
  | None =>
      if negb (bool_decide (pd_changed diff = ∅)) then PackageOpKind.Upgrade
      else if negb (bool_decide (pd_installed diff = ∅)) && bool_decide (pd_removed diff = ∅)
      then PackageOpKind.Install
      else if negb (bool_decide (pd_removed diff = ∅)) && bool_decide (pd_installed diff = ∅)
      then PackageOpKind.Remove
      else PackageOpKind.Install
  end.

(** [a.or_else(|| b)]. *)
Definition or_else {A} (a b : option A) : option A := match a with Some _ => a | None => b end.

Definition repo_state_of (extras : gmap string string) : option string :=
  or_else (or_else (extras !! "dnf_history_id") (extras !! "apt_tx_id")) (extras !! "repo_state").

(** ** Processes *)

Definition signal_names : list (string * Z) :=
  [("HUP", 1%Z); ("INT", 2%Z); ("QUIT", 3%Z); ("KILL", 9%Z); ("USR1", 10%Z); ("USR2", 12%Z); ("PIPE", 13%Z);
   ("ALRM", 14%Z); ("TERM", 15%Z); ("STOP", 19%Z); ("CONT", 18%Z)].

Definition signal_number (s : string) : option Z :=
  match Services.parse_int (- 2 ^ 31) (2 ^ 31 - 1) s with
  | Some n => if bool_decide (1 ≤ n ≤ 64)%Z then Some n else None
  | None => None
  end.

(** A number out of range is looked up as a name like everything else. *)
Definition name_or_number_to_signum (s : string) : option Z :=
  match signal_number s with
  | Some n => Some n
  | None =>
      let upper := Env.to_ascii_uppercase s in
      let name := default upper (Redirect.strip_prefix "SIG" upper) in
      snd <$> List.find (λ kv : string * Z, bool_decide (kv.1 = name)) signal_names
  end.

Fixpoint parse_signal_from_argv (argv : list string) : option Z :=
  match argv with
  | [] => None
  | a :: rest =>
      if bool_decide (a = "-s") || bool_decide (a = "--signal") then
        match rest with next :: _ => name_or_number_to_signum next | [] => None end
      else match Redirect.strip_prefix "-" a with
           | Some (String _ _ as name) =>
               match name_or_number_to_signum name with
               | Some n => Some n
               | None => parse_signal_from_argv rest
               end
           | _ => parse_signal_from_argv rest
           end
  end.

Module TargetOutcome.
Inductive TargetOutcome := Killed (s : ProcSnapshot) | Survived (s : ProcSnapshot).
End TargetOutcome.
Abbreviation TargetOutcome := TargetOutcome.TargetOutcome.

Definition survives (post : list ProcSnapshot) (pre_snap : ProcSnapshot) : bool :=
  existsb (λ p, bool_decide (ps_pid p = ps_pid pre_snap)
                && bool_decide (ps_start_time_secs p = ps_start_time_secs pre_snap)) post.

Definition target_outcome (post : list ProcSnapshot) (s : ProcSnapshot) : TargetOutcome :=
  if survives post s then TargetOutcome.Survived s else TargetOutcome.Killed s.

(** ** Containers and cloud tools *)

Module HandleError.
Inductive HandleError :=
  | NoActiveCommand (pid : N)
  | VerbRuntimeMismatch (runtime : CloudRuntime) (verb : CloudVerb)
  | VerbNotImplemented (verb : CloudVerb)
  | MissingExtra (key : string)
  | JournalWrite
  | StashHashMismatch (claimed computed : BlobHash)
  | BlobWrite.
End HandleError.
Abbreviation HandleError := HandleError.HandleError.

Definition need (extras : gmap string string) (key : string) : string + HandleError :=
  match extras !! key with Some v => inl v | None => inr (HandleError.MissingExtra key) end.

Definition bind {A B} (x : A + HandleError) (f : A → B + HandleError) : B + HandleError :=
  match x with inl a => f a | inr e => inr e end.

Definition flag (extras : gmap string string) (key : string) : bool :=
  match extras !! key with Some s => bool_decide (s = "true") | None => false end.

(** [s.split(',')]. *)
Fixpoint split_commas (s : string) : list string :=
  match s with
  | EmptyString => [""]
  | String c rest =>
      if bool_decide (c = ","%char) then "" :: split_commas rest
      else match split_commas rest with
           | [] => [String c ""]
           | w :: ws => String c w :: ws
           end
  end.

Definition build_container_op (verb : ContainerVerb) (extras : gmap string string) : ContainerOp + HandleError :=
  match verb with
  | ContainerVerb.Rm =>
      bind (need extras "id") (λ id, inl (ContainerOp.Rm id (extras !! "name") (flag extras "was_running")))
  | ContainerVerb.Rmi => bind (need extras "image") (λ image, inl (ContainerOp.Rmi image (extras !! "digest")))
  | ContainerVerb.VolumeRm => bind (need extras "name") (λ name, inl (ContainerOp.VolumeRm name (extras !! "driver")))
  | ContainerVerb.NetworkRm => bind (need extras "name") (λ name, inl (ContainerOp.NetworkRm name))
  | ContainerVerb.ComposeDown =>
      bind (need extras "project") (λ project, bind (need extras "compose_file") (λ compose_file,
        inl (ContainerOp.ComposeDown project
          (match extras !! "services" with Some s => Plan.trim <$> split_commas s | None => [] end)
          (path_of_string compose_file) (flag extras "with_volumes"))))
  | ContainerVerb.Pull => bind (need extras "image") (λ image, inl (ContainerOp.Pull image (extras !! "resolved_id")))
  end.

Definition build_event_kind (req : CloudEventReq) : CaptureEventKind + HandleError :=
  let verb := cl_verb req in
  let mismatch := HandleError.VerbRuntimeMismatch (cl_runtime req) verb in
  match cl_runtime req with
  | CloudRuntime.Terraform =>
      bind (match verb with
            | CloudVerb.TerraformApply => inl TerraformOp.Apply
            | CloudVerb.TerraformDestroy => inl TerraformOp.Destroy
            | CloudVerb.TerraformStateRm => inl TerraformOp.StateRm
            | CloudVerb.TerraformImport => inl TerraformOp.Import
            | _ => inr mismatch
            end) (λ op, inl (CaptureEventKind.TerraformOp (path_of_string (cl_workdir req)) op (cl_prior_state req)))
  | CloudRuntime.Kubectl =>
      bind (need (cl_extras req) "kind") (λ kind, bind (need (cl_extras req) "name") (λ name,
      bind (need (cl_extras req) "context") (λ context,
      bind (match verb with
            | CloudVerb.KubectlDelete => inl (KubectlOp.Delete kind name)
            | CloudVerb.KubectlApply => inl (KubectlOp.Apply kind name)
            | _ => inr mismatch
            end) (λ op, inl (CaptureEventKind.KubectlOp context (cl_extras req !! "namespace") op (cl_prior_state req))))))
  | CloudRuntime.Gh =>
      bind (match verb with
            | CloudVerb.GhReleaseDelete => bind (need (cl_extras req) "tag") (λ tag, inl (GhOp.ReleaseDelete tag))
            | CloudVerb.GhReleaseCreate => inr (HandleError.VerbNotImplemented verb)
            | _ => inr mismatch
            end) (λ op, inl (CaptureEventKind.GhOp op (cl_prior_state req)))
  | CloudRuntime.Aws => inr (HandleError.VerbNotImplemented verb)
  end.

(** What [svc_track], [net_track], [proc_track] and [db_track] return. *)
Module TierOutcome.
Inductive TierOutcome :=
  | Orphan
  | Unchanged
  | SvcChanged (before after : ServiceState) (verb : string)
  | NetChanged (before_len after_len : nat) (verb : string)
  | ProcResolved (argv : list string) (targets : list TargetOutcome)
  | DbResolved (conn : DbConnInfo) (statements : list string) (state : DbTxState).
End TierOutcome.
Abbreviation TierOutcome := TierOutcome.TierOutcome.

Definition parse_state (tool : SvcTool) (raw : string) : ServiceState :=
  match tool with
  | SvcTool.Systemctl => Services.parse_systemctl_show raw
  | SvcTool.Launchctl => Services.parse_launchctl_print raw
  | SvcTool.Service => Services.parse_freebsd_service raw
  end.

Section Handlers.
Context {P : Type} `{!Postcard P} `{!Blobs.BlobCodec}.
Context (host : Host) (parent_pid : N → option N).
Implicit Types d : Daemon P.

Definition resolve d (pid : N) : option CommandId := Active.resolve_by_descendant parent_pid (d_active d) pid.

(** [Instant::now]. *)
Definition now d : N := h_instant host (d_clock d).

(** An event of this kind, with the next logical time; errors are logged. *)
Definition record d (command : CommandId) (kind : CaptureEventKind) : Daemon P :=
  let '(d, ts) := next_ts host d in journal d (new_event command ts kind).

Definition pkg_handle d (req : PkgEventReq) : Daemon P * option PkgDiff :=
  let resolved := resolve d (pk_pid req) in
  match pk_phase req with
  | PkgPhase.Pre =>
      (set_tiers d (set_ts_pkg (d_tiers d)
         (stash_pre (ts_pkg (d_tiers d)) resolved (pk_pid req) tt req (now d))), None)
  | PkgPhase.Post =>
      let '(s, pre) := take_pre (ts_pkg (d_tiers d)) resolved (pk_pid req) tt in
      let d := set_tiers d (set_ts_pkg (d_tiers d) s) in
      match pre with
      | None => (d, None)
      | Some pre =>
          if negb (bool_decide (pk_manager pre = pk_manager req)) then (d, None)
          else
            let diff := diff_packages (pk_packages pre) (pk_packages req) in
            match resolved with
            | None => (d, Some diff)
            | Some command =>
                (record d command (CaptureEventKind.PackageOp (pk_manager req) (classify_op (pk_op_hint req) diff)
                   (pk_packages pre) (pk_packages req) (repo_state_of (pk_extras req))), Some diff)
            end
      end
  end.

Definition svc_handle d (req : SvcEventReq) : Daemon P * TierOutcome :=
  let resolved := resolve d (sv_pid req) in
  let key := (sv_tool req, sv_unit req) in
  let state := parse_state (sv_tool req) (sv_state_raw req) in
  match sv_phase req with
  | PkgPhase.Pre =>
      (set_tiers d (set_ts_svc (d_tiers d)
         (stash_pre (ts_svc (d_tiers d)) resolved (sv_pid req) key (mkSvcPre state (sv_verb req)) (now d))),
       TierOutcome.Orphan)
  | PkgPhase.Post =>
      let '(s, pre) := take_pre (ts_svc (d_tiers d)) resolved (sv_pid req) key in
      let d := set_tiers d (set_ts_svc (d_tiers d) s) in
      match pre with
      | None => (d, TierOutcome.Orphan)
      | Some pre =>
          if bool_decide (sv_pre_state pre = state) then (d, TierOutcome.Unchanged)
          else
            (match resolved with
             | None => d
             | Some command =>
                 record d command (CaptureEventKind.SystemdOp (sv_scope req) (sv_unit req) (sv_pre_state pre) state)
             end, TierOutcome.SvcChanged (sv_pre_state pre) state (sv_pre_verb pre))
      end
  end.

Definition net_handle d (req : NetEventReq) : Daemon P * TierOutcome :=
  let resolved := resolve d (nt_pid req) in
  let key := (nt_tool req, nt_scope_hint req) in
  match nt_phase req with
  | PkgPhase.Pre =>
      (set_tiers d (set_ts_net (d_tiers d)
         (stash_pre (ts_net (d_tiers d)) resolved (nt_pid req) key (mkNetPre (nt_state_raw req) (nt_verb req)) (now d))),
       TierOutcome.Orphan)
  | PkgPhase.Post =>
      let '(s, pre) := take_pre (ts_net (d_tiers d)) resolved (nt_pid req) key in
      let d := set_tiers d (set_ts_net (d_tiers d) s) in
      match pre with
      | None => (d, TierOutcome.Orphan)
      | Some pre =>
          if bool_decide (nt_pre_raw pre = nt_state_raw req) then (d, TierOutcome.Unchanged)
          else
            (match resolved with
             | None => d
             | Some command =>
                 record d command (CaptureEventKind.NetworkOp (nt_tool req) (nt_pre_raw pre) (nt_state_raw req) [])
             end, TierOutcome.NetChanged (length (nt_pre_raw pre)) (length (nt_state_raw req)) (nt_pre_verb pre))
      end
  end.

(** One event per process that is gone. *)
Definition record_killed (command : CommandId) (signal : option Z) d (o : TargetOutcome) : Daemon P :=
  match o with
  | TargetOutcome.Survived _ => d
  | TargetOutcome.Killed s =>
      record d command (CaptureEventKind.ProcessOp ProcessOpKind.Killed (ps_pid s) (ps_argv s)
        (path_of_string (ps_cwd s)) (ps_env_summary s) (ps_parent_pid s) signal)
  end.

Definition proc_handle d (req : ProcEventReq) : Daemon P * TierOutcome :=
  let resolved := resolve d (pr_pid req) in
  match pr_phase req with
  | PkgPhase.Pre =>
      (set_tiers d (set_ts_proc (d_tiers d)
         (stash_pre (ts_proc (d_tiers d)) resolved (pr_pid req) (pr_tool req)
            (mkProcPre (pr_targets req) (pr_target_argv req)) (now d))), TierOutcome.Orphan)
  | PkgPhase.Post =>
      let '(s, pre) := take_pre (ts_proc (d_tiers d)) resolved (pr_pid req) (pr_tool req) in
      let d := set_tiers d (set_ts_proc (d_tiers d) s) in
      match pre with
      | None => (d, TierOutcome.Orphan)
      | Some pre =>
          let outcomes := target_outcome (pr_targets req) <$> pr_pre_targets pre in
          (match resolved with
           | None => d
           | Some command => foldl (record_killed command (parse_signal_from_argv (pr_pre_argv pre))) d outcomes
           end, TierOutcome.ProcResolved (pr_pre_argv pre) outcomes)
      end
  end.

Definition db_handle d (req : DbEventReq) : Daemon P * TierOutcome :=
  let resolved := resolve d (db_pid req) in
  let key := (db_engine req, dc_target (db_conn req)) in
  match db_phase req with
  | PkgPhase.Pre =>
      (set_tiers d (set_ts_db (d_tiers d)
         (stash_pre (ts_db (d_tiers d)) resolved (db_pid req) key (mkDbPre (db_conn req) (db_statements req)) (now d))),
       TierOutcome.Orphan)
  | PkgPhase.Post =>
      let '(s, pre) := take_pre (ts_db (d_tiers d)) resolved (db_pid req) key in
      let d := set_tiers d (set_ts_db (d_tiers d) s) in
      match pre with
      | None => (d, TierOutcome.Orphan)
      | Some pre =>
          (match resolved with
           | None => d
           | Some command =>
               record d command (CaptureEventKind.DbOp (db_engine req) (dc_target (db_pre_conn pre))
                 (db_pre_statements pre) (db_transaction_state req))
           end, TierOutcome.DbResolved (db_pre_conn pre) (db_pre_statements pre) (db_transaction_state req))
      end
  end.

(** An event with the next logical time, its error returned. *)
Definition put_new d (command : CommandId) (kind : CaptureEventKind) : Daemon P * (EventId + HandleError) :=
  let '(d, ts) := next_ts host d in
  match put_event (d_db d) (new_event command ts kind) with
  | inl (db', id) => (set_db d db', inl id)
  | inr _ => (d, inr HandleError.JournalWrite)
  end.

Definition cloud_handle d (req : CloudEventReq) : Daemon P * (EventId + HandleError) :=
  match resolve d (cl_pid req) with
  | None => (d, inr (HandleError.NoActiveCommand (cl_pid req)))
  | Some command =>
      match build_event_kind req with
      | inr e => (d, inr e)
      | inl kind => put_new d command kind
      end
  end.

Definition stash_kind (verb : ContainerVerb) : Stash.StashKind :=
  match verb with
  | ContainerVerb.Rmi | ContainerVerb.Rm => Stash.StashKind.ImageSave
  | ContainerVerb.VolumeRm => Stash.StashKind.VolumeTar
  | _ => Stash.StashKind.ImageSave
  end.

Definition runtime_as_str (r : ContainerRuntime) : string :=
  match r with ContainerRuntime.Docker => "docker" | ContainerRuntime.Podman => "podman" end.

(** The tarball that came with the request, if any, into the blob store and
    the table of stashes; [secs] is the time in seconds. *)
Definition ingest_tarball d (command : CommandId) (req : ContainerEventReq) (secs : N)
    : Daemon P * (unit + HandleError) :=
  match cn_stash_tarball_bytes req with
  | None => (d, inl tt)
  | Some b =>
      match cn_stash_tarball req with
      | None => (d, inr HandleError.BlobWrite)
      | Some claimed =>
          match Blobs.put (d_files d) b with
          | inr _ => (d, inr HandleError.BlobWrite)
          | inl (files', (canonical, st)) =>
              let d := set_files d files' in
              if negb (bool_decide (canonical = claimed))
              then (d, inr (HandleError.StashHashMismatch claimed canonical))
              else
                let name := default "" (or_else (cn_extras req !! "image") (cn_extras req !! "name")) in
                (set_db d (Stash.register (d_db d) secs
                   (Stash.mkRegister canonical (stash_kind (cn_verb req)) (runtime_as_str (cn_runtime req))
                      name (Blobs.stored_bytes st) (Some command) None)), inl tt)
          end
      end
  end.

Definition container_handle d (req : ContainerEventReq) (secs : N) : Daemon P * (EventId + HandleError) :=
  match resolve d (cn_pid req) with
  | None => (d, inr (HandleError.NoActiveCommand (cn_pid req)))
  | Some command =>
      match build_container_op (cn_verb req) (cn_extras req) with
      | inr e => (d, inr e)
      | inl op =>
          match ingest_tarball d command req secs with
          | (d, inr e) => (d, inr e)
          | (d, inl _) =>
              put_new d command (CaptureEventKind.ContainerOp (cn_runtime req) op (cn_captured_config req)
                (cn_stash_image req) (cn_stash_tarball req))
          end
      end
  end.

(** The requests, as the control socket dispatches them. *)
Inductive TierReq :=
  | PkgEvent (req : PkgEventReq)
  | SvcEvent (req : SvcEventReq)
  | NetEvent (req : NetEventReq)
  | ProcEvent (req : ProcEventReq)
  | DbEvent (req : DbEventReq)
  | ContainerEvent (req : ContainerEventReq) (secs : N)
  | CloudEvent (req : CloudEventReq).

Definition tier_handle d (r : TierReq) : Daemon P :=
  match r with
  | PkgEvent req => (pkg_handle d req).1
  | SvcEvent req => (svc_handle d req).1
  | NetEvent req => (net_handle d req).1
  | ProcEvent req => (proc_handle d req).1
  | DbEvent req => (db_handle d req).1
  | ContainerEvent req secs => (container_handle d req secs).1
  | CloudEvent req => (cloud_handle d req).1
  end.

(** What the janitor of [main.rs] drops. *)
Definition sweep_tiers d : Daemon P :=
  let cutoff := env_cutoff (now d) in
  let s := d_tiers d in
  set_tiers d (mkTierStashes (sweep_expired (ts_pkg s) cutoff).1 (sweep_expired (ts_svc s) cutoff).1
    (sweep_expired (ts_net s) cutoff).1 (sweep_expired (ts_proc s) cutoff).1 (sweep_expired (ts_db s) cutoff).1).

End Handlers.

End TierTrack.
