(* ===== verification/UndoCtl.v ===== *)
(** * The daemon: control requests, scheduled collection, undo

    The store side of [ctl.rs] and the schedule of [gc.rs] of [shitd]:
    collection, pins, bookmarks, removal of commands and container stashes.
    Parsing a UUID is a parameter. A pass that is asked for is not cancelled. *)

From S2P Require Import Prelude Paths Base Events Inverse ShellRender Probe Network Plan Executor.
From S2P Require Import Orchestrator Fs FileExec Tables Index Blobs Retention Gc Active Baseline WatchReady.
From S2P Require Import Daemon.

Module Ctl.
Import Index Daemon.

(** ** parse_command_id *)

Definition digit_value (c : Ascii.ascii) : option N :=
  let n := Ascii.N_of_ascii c in
  if bool_decide (48 ≤ n ≤ 57)%N then Some (n - 48)%N else None.

(** The digits of [str::parse::<u64>], with the overflow check of each. *)
Fixpoint parse_digits (acc : N) (s : string) : option N :=
  match s with
  | EmptyString => Some acc
  | String c rest =>
      match digit_value c with
      | None => None
      | Some v =>
          let acc' := (acc * 10 + v)%N in
          if bool_decide (acc' ≤ u64_MAX)%N then parse_digits acc' rest else None
      end
  end.

Definition parse_u64 (s : string) : option N :=
  match s with
  | EmptyString => None
  | String c rest =>
      if bool_decide (c = "+"%char) then
        match rest with EmptyString => None | _ => parse_digits 0 rest end
      else parse_digits 0 s
  end.

Inductive ParseError := NoColon | BadUuid | BadSeq.

Section Handlers.
Context {P : Type} (parse_uuid : string → option Uuid).
Context (cmd_ord : HashOrder CommandId CommandRow) (blob_ord : HashOrder BlobHash BlobRow)
        (bm_ord : HashOrder CommandId BookmarkRow) (stash_ord : HashOrder BlobHash StashRow).
Implicit Types d : Daemon P.

Definition parse_command_id (s : string) : CommandId + ParseError :=
  match split_once ":"%char s with
  | None => inr NoColon
  | Some (uuid_part, seq_part) =>
      match parse_uuid uuid_part with
      | None => inr BadUuid
      | Some u => match parse_u64 seq_part with
                  | None => inr BadSeq
                  | Some n => inl (mkCommandId u n)
                  end
      end
  end.

Inductive CtlError := Parse (e : ParseError) | Store (e : IndexError) | NoBookmark | Gc (e : Gc.GcError).

(** ** Requests on the store *)

Definition handle_pin d (id : string) (name : option string) : Daemon P * (unit + CtlError) :=
  match parse_command_id id with
  | inr e => (d, inr (Parse e))
  | inl c => (set_db d (pin_command (d_db d) c name (pin_count (d_db d) + 1) None), inl ())
  end.

Definition handle_forget d (id : string) : Daemon P * (unit + CtlError) :=
  match parse_command_id id with
  | inr e => (d, inr (Parse e))
  | inl c =>
      match Refcount.reap_commands (d_db d) [c] with
      | inl (db', _) => (set_db d db', inl ())
      | inr e => (d, inr (Store e))
      end
  end.

Definition handle_bookmark d (id : string) (note : option string) : Daemon P * (unit + CtlError) :=
  match parse_command_id id with
  | inr e => (d, inr (Parse e))
  | inl c => (set_db d (Bookmarks.bookmark_create (d_db d) c (pin_count (d_db d) + 1) note), inl ())
  end.

Definition handle_bookmark_remove d (id : string) : Daemon P * (unit + CtlError) :=
  match parse_command_id id with
  | inr e => (d, inr (Parse e))
  | inl c =>
      let '(db', removed) := Bookmarks.bookmark_remove (d_db d) c in
      (set_db d db', if removed then inl () else inr NoBookmark)
  end.

(** The first bookmark, the most recent first, with the note. *)
Definition resolve_bookmark_name_to_command d (name : string) : option CommandId :=
  Bookmarks.b_command <$>
  List.find (λ b, bool_decide (Bookmarks.b_note b = Some name)) (Bookmarks.bookmark_list bm_ord (d_db d)).

(** The number pruned and the bytes they had. *)
Definition handle_container_stashes_prune d (now older_than : N) : Daemon P * (nat * N) :=
  let sizes := (λ s, (Stash.cs_blob_hash s, Stash.cs_size_bytes s)) <$> Stash.stash_list stash_ord (d_db d) in
  let '(db', pruned) := Stash.prune_older_than stash_ord (d_db d) now older_than in
  (set_db d db',
   (length pruned,
    (foldr N.add 0 (omap (λ h, snd <$> List.find (λ kv, bool_decide (kv.1 = h)) sizes) pruned) mod 2 ^ 64)%N)).

(** ** Collection *)

Record GcRequest := mkGcRequest {
  gr_dry_run : bool;
  gr_aggressive : bool;
  gr_size_cap_bytes : option N;
  gr_age_cap_logical : option N;
}.

(** The configuration of a requested pass. *)
Definition request_config (req : GcRequest) : Gc.GcConfig :=
  let c := Gc.default_gc_config in
  let cap := match gr_size_cap_bytes req with Some s => Some s | None => Gc.size_cap_bytes c end in
  let age := default (Gc.age_threshold_logical c) (gr_age_cap_logical req) in
  Gc.mkGcConfig (if gr_aggressive req then 0%N else age) cap (Gc.batch_size c).

Context (remove_ok : BlobHash → bool) (vacuum : Db P → bool).

(** A pass over the daemon's store. *)
Definition collect (cancel : nat → bool) (config : Gc.GcConfig) (now : N) d
    : option (Daemon P * (Gc.GcReport + Gc.GcError)) :=
  (λ '(s, res), (set_files (set_db d (Gc.g_db s)) (Gc.g_files s), res)) <$>
  Gc.run_pass cmd_ord blob_ord cancel remove_ok vacuum (d_db d) (d_files d) config now.

(** [handle_gc]: the present is logical time one. *)
Definition handle_gc d (req : GcRequest) : option (Daemon P * (Gc.GcReport + Gc.GcError)) :=
  if gr_dry_run req then Some (d, inl Gc.default_report)
  else collect (λ _, false) (request_config req) 1 d.

(** The [n]-th pass of [run_loop], whose clock counts passes from one. *)
Definition scheduled_pass (n : N) (cancel : nat → bool) d
    : option (Daemon P * (Gc.GcReport + Gc.GcError)) :=
  collect cancel Gc.default_gc_config (1 + n) d.

End Handlers.

End Ctl.

(** * The undo request

    [handle_undo] of [ctl.rs]: the last commands that completed are undone one
    after the other, the newest first, each planned against the world its
    predecessors left. [MultiTierExecutor] routes an operation to the executor
    of its tier. The file executor is [FileExec]; the shell-state executor
    ([executors/shell_state.rs]) is modelled here; the executors that run
    other programs are arguments, over a world of their own. *)

Module UndoCtl.
Import Plan Executor Orchestrator Fs FileExec Index Daemon.

(** ** executors/shell_state.rs *)

Module ShellTarget.
Inductive ShellTarget := Bash | Zsh | Fish.
End ShellTarget.
Abbreviation ShellTarget := ShellTarget.ShellTarget.

Definition target_as_str (t : ShellTarget) : string :=
  match t with ShellTarget.Bash => "bash" | ShellTarget.Zsh => "zsh" | ShellTarget.Fish => "fish" end.

(** The queue files, by session. *)
Abbreviation Queues := (gmap Uuid string).

(** [queue_to_precmd]: append, and end with a newline; without a state
    directory it fails. *)
Definition queue_to_precmd (state_home : bool) (session : Uuid) (snippet : string) (q : Queues)
    : Queues + Msg :=
  if state_home then
    inl (<[session := default "" (q !! session) +:+ snippet
                      +:+ (if ShellRender.ends_with_nl snippet then "" else ShellRender.nl)]> q)
  else inr [Lit "neither XDG_STATE_HOME nor HOME is set"].

Definition build_informational_reason (bash zsh fish : option string) : Msg :=
  let part (s : option string) (name : string) := match s with Some _ => [name] | None => [] end in
  match part bash "bash" ++ part zsh "zsh" ++ part fish "fish" with
  | [] => [Lit "no shell snippet rendered (empty diff)"]
  | parts =>
      [Lit "shell-state restore is informational (snippets available for ";
       Lit (String.concat ", " parts);
       Lit "); pass `--apply-shell-state` to queue via precmd"]
  end.

(** [target] is set exactly when the snippets are to be applied. *)
Definition shell_state_execute (state_home : bool) (session : Uuid) (target : option ShellTarget)
    (op : InverseOp) (dry_run : bool) (q : Queues) : ExecutionOutcome * Queues :=
  match op with
  | InverseOp.ShellStateRestore _ _ _ _ snippet_bash snippet_zsh snippet_fish =>
      if dry_run then (ExecutionOutcome.WouldApply, q)
      else match target with
      | None =>
          (ExecutionOutcome.Skipped (build_informational_reason snippet_bash snippet_zsh snippet_fish), q)
      | Some ShellTarget.Fish =>
          let body := default "" snippet_fish in
          (ExecutionOutcome.Skipped
             (if bool_decide (body = "") then
                [Lit "fish has no safe precmd-queue equivalent (see DR-30); no fish snippet was rendered for this diff"]
              else [Lit "fish has no safe precmd-queue equivalent (see DR-30); source this manually:"; Lit body]), q)
      | Some t =>
          match (match t with ShellTarget.Bash => snippet_bash | _ => snippet_zsh end) with
          | None =>
              (ExecutionOutcome.Failed [Lit "no "; Lit (target_as_str t); Lit " snippet recorded on this op"], q)
          | Some body =>
              match queue_to_precmd state_home session body q with
              | inl q' => (ExecutionOutcome.Applied, q')
              | inr e => (ExecutionOutcome.Failed (Lit "queue-to-precmd: " :: e), q)
              end
          end
      end
  | _ => (ExecutionOutcome.Skipped [Lit "shell-state executor reached non-shell-state op"], q)
  end.

(** ** MultiTierExecutor *)

(** The executors that run other programs. *)
Record Tiers (T : Type) := mkTiers {
  package_executor : InverseOp → bool → ConflictPolicy → T → ExecutionOutcome * T;
  service_executor : InverseOp → bool → ConflictPolicy → T → ExecutionOutcome * T;
  network_executor : InverseOp → bool → ConflictPolicy → T → ExecutionOutcome * T;
  container_executor : InverseOp → bool → ConflictPolicy → T → ExecutionOutcome * T;
  terraform_executor : InverseOp → bool → ConflictPolicy → T → ExecutionOutcome * T;
  kubectl_executor : InverseOp → bool → ConflictPolicy → T → ExecutionOutcome * T;
  gh_executor : InverseOp → bool → ConflictPolicy → T → ExecutionOutcome * T;
}.
Arguments mkTiers {T}.
Arguments package_executor {T}.
Arguments service_executor {T}.
Arguments network_executor {T}.
Arguments container_executor {T}.
Arguments terraform_executor {T}.
Arguments kubectl_executor {T}.
Arguments gh_executor {T}.

Record World (T : Type) := mkWorld { w_fs : FS; w_queues : Queues; w_tiers : T }.
Arguments mkWorld {T}.
Arguments w_fs {T}.
Arguments w_queues {T}.
Arguments w_tiers {T}.

(** ** Messages *)

Module ConflictPolicyWire.
Inductive ConflictPolicyWire := Abort | Skip | Force.
End ConflictPolicyWire.
Abbreviation ConflictPolicyWire := ConflictPolicyWire.ConflictPolicyWire.

Record UndoRequest := mkUndo {
  ur_steps : N;
  ur_dry_run : bool;
  ur_on_conflict : ConflictPolicyWire;
  ur_paths : list string;
  ur_apply_shell_state : bool;
}.

(** The counters are [u32]s. *)
Record UndoReportWire := mkUndoReport {
  commands_attempted : N;
  ops_applied : N;
  ops_skipped : N;
  ops_failed : N;
  ops_conflicted : N;
  ops_refused : N;
  uw_dry_run : bool;
  detail_lines : list Msg;
  refusal_lines : list Msg;
}.

Definition policy_of (p : ConflictPolicyWire) : ConflictPolicy :=
  match p with
  | ConflictPolicyWire.Abort => ConflictPolicy.Abort
  | ConflictPolicyWire.Skip => ConflictPolicy.Skip
  | ConflictPolicyWire.Force => ConflictPolicy.Force
  end.

Definition target_of (k : ShellKind) : ShellTarget :=
  match k with
  | ShellKind.Bash => ShellTarget.Bash
  | ShellKind.Zsh => ShellTarget.Zsh
  | ShellKind.Fish => ShellTarget.Fish
  | ShellKind.Unknown => ShellTarget.Bash
  end.

(** [BlobReaderShim]: the blob store as the executors read it. *)
Definition blob_reader `{!Blobs.BlobCodec} (files : Blobs.BlobFiles) (h : BlobHash) : bytes + Msg :=
  match Blobs.get files h with
  | inl b => inl b
  | inr _ => inr [BlobDisplay h; Lit ": not readable"]
  end.

Section Request.
Context {P : Type} `{!Postcard P} `{!Blobs.BlobCodec} {T : Type}.
Context (syn : Network.NetSynth) (ord : HashOrder InodeRef (gset PathBuf))
        (cmd_ord : HashOrder CommandId CommandRow).
Context (router : PrivilegedOpRouter) (may_chown : FS → PathBuf → N → N → bool)
        (tmp_name : string) (os : Os) (tiers : Tiers T) (state_home : bool).
(** [globset]: the compiled union of some patterns. *)
Context (globset : list string → (PathBuf → bool) + Msg).
Implicit Types (d : Daemon P) (w : World T).

Definition lift_tiers w (r : ExecutionOutcome * T) : ExecutionOutcome * World T :=
  (r.1, mkWorld (w_fs w) (w_queues w) r.2).

(** The routing of [MultiTierExecutor::execute]; the shell-state executor is
    wired for the session of the command. *)
Definition multi_execute (files : Blobs.BlobFiles) (session : Uuid) (target : option ShellTarget)
    (op : InverseOp) (dry_run : bool) (policy : ConflictPolicy) w : ExecutionOutcome * World T :=
  if supports op then
    let '(o, fs') := file_execute (blob_reader files) router may_chown tmp_name os op dry_run policy (w_fs w) in
    (o, mkWorld fs' (w_queues w) (w_tiers w))
  else match op with
  | InverseOp.PackageRollback _ _ _ _ _ _ => lift_tiers w (package_executor tiers op dry_run policy (w_tiers w))
  | InverseOp.SystemdRollback _ _ _ _ => lift_tiers w (service_executor tiers op dry_run policy (w_tiers w))
  | InverseOp.NetworkRollback _ _ _ => lift_tiers w (network_executor tiers op dry_run policy (w_tiers w))
  | InverseOp.ContainerRestore _ _ _ _ _ _ => lift_tiers w (container_executor tiers op dry_run policy (w_tiers w))
  | InverseOp.TerraformReverse _ _ _ _ _ => lift_tiers w (terraform_executor tiers op dry_run policy (w_tiers w))
  | InverseOp.KubectlReverse _ _ _ _ _ => lift_tiers w (kubectl_executor tiers op dry_run policy (w_tiers w))
  | InverseOp.GhReverse _ _ _ => lift_tiers w (gh_executor tiers op dry_run policy (w_tiers w))
  | InverseOp.ShellStateRestore _ _ _ _ _ _ _ =>
      let '(o, q') := shell_state_execute state_home session target op dry_run (w_queues w) in
      (o, mkWorld (w_fs w) q' (w_tiers w))
  | _ => (ExecutionOutcome.Failed [Lit "no executor wired for tier "; tier_debug (tier op)], w)
  end.

Definition multi_runtime (files : Blobs.BlobFiles) (session : Uuid) (target : option ShellTarget)
    : Runtime (World T) :=
  mkRuntime (multi_execute files session target) (λ w, live_probe Blobs.hash_bytes (w_fs w)).

Definition kind_debug (k : OutcomeKind) : Piece :=
  DebugVariant (match k with
    | OutcomeKind.Applied => "Applied" | OutcomeKind.WouldApply => "WouldApply"
    | OutcomeKind.Skipped => "Skipped" | OutcomeKind.ConflictSoft => "ConflictSoft"
    | OutcomeKind.ConflictHard => "ConflictHard" | OutcomeKind.ConflictMissing => "ConflictMissing"
    | OutcomeKind.ConflictPhantom => "ConflictPhantom" | OutcomeKind.Failed => "Failed" end) [].

(** [+= 1] on a [u32], which wraps in a release build. *)
Definition incr32 (n : N) : N := (n + 1) mod 2 ^ 32.

(** One record into the report, with the lines the user sees. *)
Definition tally (cmd : CommandRecord) (r : UndoReportWire) (rec : ExecutionRecord) : UndoReportWire :=
  let '(mkUndoReport n a s f c rf dry details refusals) := r in
  let detail := default [Lit "(no detail)"] (r_detail rec) in
  match r_outcome_kind rec with
  | OutcomeKind.Applied | OutcomeKind.WouldApply => mkUndoReport n (incr32 a) s f c rf dry details refusals
  | OutcomeKind.Skipped =>
      match r_op rec with
      | InverseOp.Refuse _ _ _ =>
          mkUndoReport n a s f c (incr32 rf) dry details
            (refusals ++ match r_detail rec with
                         | Some d => [[Lit "`"; Lit (default "<unknown command>" (c_cmd_string cmd)); Lit "` -> "] ++ d]
                         | None => []
                         end)
      | InverseOp.ShellStateRestore _ _ _ _ _ _ _ =>
          mkUndoReport n a (incr32 s) f c rf dry
            (details ++ match r_detail rec with Some d => [Lit "shell-state: " :: d] | None => [] end) refusals
      | _ => mkUndoReport n a (incr32 s) f c rf dry details refusals
      end
  | OutcomeKind.Failed =>
      mkUndoReport n a s (incr32 f) c rf dry
        (details ++ [[Lit "failed: "; tier_debug (r_tier rec); Lit " — "] ++ detail]) refusals
  | OutcomeKind.ConflictSoft | OutcomeKind.ConflictHard | OutcomeKind.ConflictMissing
  | OutcomeKind.ConflictPhantom =>
      mkUndoReport n a s f (incr32 c) rf dry
        (details ++ [[Lit "conflict ("; kind_debug (r_outcome_kind rec); Lit "): "] ++ detail]) refusals
  end.

Definition attempted (r : UndoReportWire) : UndoReportWire :=
  mkUndoReport (incr32 (commands_attempted r)) (ops_applied r) (ops_skipped r) (ops_failed r) (ops_conflicted r)
    (ops_refused r) (uw_dry_run r) (detail_lines r) (refusal_lines r).

(** Plan one command against the live world and run the plan. *)
Definition undo_command d (filter : option (PathBuf → bool)) (dry_run : bool) (policy : ConflictPolicy)
    (apply_shell : bool) (cmd : CommandRecord) w : ExecutionReport * World T :=
  let target := if apply_shell then Some (target_of (c_shell_kind cmd)) else None in
  let store := index_store (d_db d) in
  let undo_plan := plan syn ord cmd (events_for_command store (c_command cmd))
                     (live_probe Blobs.hash_bytes (w_fs w)) store in
  run (multi_runtime (d_files d) (session (c_command cmd)) target) filter undo_plan dry_run policy w.

(** The loop over the commands. *)
Fixpoint undo_commands d (filter : option (PathBuf → bool)) (req : UndoRequest) (cmds : list CommandRecord)
    (r : UndoReportWire) w : UndoReportWire * World T :=
  match cmds with
  | [] => (r, w)
  | cmd :: cmds' =>
      let '(rep, w') := undo_command d filter (ur_dry_run req) (policy_of (ur_on_conflict req))
                          (ur_apply_shell_state req) cmd w in
      undo_commands d filter req cmds' (foldl (tally cmd) (attempted r) (records rep)) w'
  end.

Definition compile_paths_filter (patterns : list string) : option (PathBuf → bool) + Msg :=
  match patterns with
  | [] => inl None
  | _ => match globset patterns with inl f => inl (Some f) | inr e => inr e end
  end.

(** The report and the new world, or the error of a malformed filter. The
    summary line, which prints the counters, is left out. *)
Definition handle_undo d (req : UndoRequest) w : (UndoReportWire + Msg) * World T :=
  match compile_paths_filter (ur_paths req) with
  | inr e => (inr (Lit "undo: bad --paths filter: " :: e), w)
  | inl filter =>
      let empty := mkUndoReport 0 0 0 0 0 0 (ur_dry_run req) [] [] in
      let '(r, w') := undo_commands d filter req
                        (list_recent_commands cmd_ord (d_db d) (N.max (ur_steps req) 1)) empty w in
      (inl r, w')
  end.

End Request.

End UndoCtl.
