(* ===== verification/DaemonFacts.v ===== *)
(** * Facts on the daemon

    One step type for everything that reaches the daemon, and the invariant
    all steps keep: the index is well formed, reference counts are exact, and
    every blob an event or a cached baseline refers to is on disk, intact. *)

From S2P Require Import Prelude Paths Base Events Inverse Probe Env Fs Redirect Runners Packages Tables.
From S2P Require Import Index Blobs Retention Gc StoreFacts StoreRuns GcFacts TierStash Active Baseline.
From S2P Require Import WatchReady Daemon HelperEvents TierTrack.

Module DaemonFacts.
Import Index StoreFacts StoreRuns GcFacts Daemon HelperEvents RedirectTrack ShimEvents.

Section Facts.
Context {P : Type} `{!Postcard P} `{!PostcardLaws P} `{!Blobs.BlobCodec} `{!Blobs.BlobCodecLaws}.
Context (host : Host) (blake3 : string → list N) (filter : Env.EnvFilter) (kernel_tier : string).
Context (path_ord : HashOrder PathBuf InodeRef)
        (cwd_ord : HashOrder PathBuf Baseline.BaselineCacheEntry)
        (cmd_ord : HashOrder CommandId CommandRow) (blob_ord : HashOrder BlobHash BlobRow).
Implicit Types d : Daemon P.

(** ** The invariant *)

(** The invariant of the blobs outside [X]; those of [X] may have been lost, or
    be counted wrongly. *)
Context {X : gset BlobHash}.

(** Every baseline snapshot is of a recorded blob. *)
Definition baseline_ok (lb : gmap PathBuf Baseline.BaselineCacheEntry) (bs : gmap BlobHash BlobRow) : Prop :=
  ∀ cwd c i e, lb !! cwd = Some c → Baseline.by_inode c !! i = Some e →
    Baseline.be_blob e ∉ X → is_Some (bs !! Baseline.be_blob e).

Definition on_disk (bs : gmap BlobHash BlobRow) (fs : Blobs.BlobFiles) : Prop :=
  ∀ h, is_Some (bs !! h) → is_Some (fs !! h).

Record inv_but d : Prop := {
  in_db : db_ok (d_db d);
  in_refs : ∀ h, h ∉ X → ref_ok h (d_db d);
  in_files : Blobs.files_ok (d_files d);
  in_disk : on_disk (blobs (d_db d)) (d_files d);
  in_base : baseline_ok (d_baseline d) (blobs (d_db d));
}.

Abbreviation inv := inv_but.

(** The blob of an event is recorded. *)
Definition recorded_but (db : Db P) (ev : CaptureEvent) : Prop :=
  ∀ h, event_blob (e_kind ev) = Some h → h ∉ X → is_Some (blobs db !! h).

(** The parts the invariant speaks of. *)
Lemma inv_ext d d' :
  d_db d' = d_db d → d_files d' = d_files d → d_baseline d' = d_baseline d → inv d → inv d'.
Proof. intros H1 H2 H3 [A B C D E]. split; by rewrite ?H1, ?H2, ?H3. Qed.

(** A change the invariant does not see. *)
Ltac inv_frame := match goal with H : inv ?d |- inv _ => by apply (inv_ext d) end.

(** A change of the index that keeps the recorded blobs. *)
Lemma inv_set_db d (db' : Db P) :
  db_ok db' → (∀ h, h ∉ X → ref_ok h db') → (∀ h, is_Some (blobs db' !! h) ↔ is_Some (blobs (d_db d) !! h)) →
  inv d → inv (set_db d db').
Proof.
  intros H1 H2 Hb [_ _ C D E]. split; try done; simpl.
  - intros h. rewrite Hb. apply D.
  - intros cwd c i e Hc He. rewrite Hb. by eapply E.
Qed.

Lemma journal_inv d (ev : CaptureEvent) : recorded_but (d_db d) ev → inv d → inv (journal d ev).
Proof.
  intros Hr Hi. unfold journal. destruct (put_event (d_db d) ev) as [[db' id]|] eqn:Hp; [|done].
  pose proof Hi as [H1 H2 _ _ _].
  apply inv_set_db; [by eapply put_event_ok| | |done].
  - intros h Hh. eapply put_event_ref; [done| |by apply H2]. intros He. by apply Hr.
  - intros h. by eapply put_event_dom.
Qed.

Lemma put_inv d (ev : CaptureEvent) : recorded_but (d_db d) ev → inv d → inv (put d ev).1.
Proof.
  intros Hr Hi. pose proof (journal_inv d ev Hr Hi) as Hj. revert Hj. unfold journal, put.
  by destruct (put_event (d_db d) ev) as [[db' id]|].
Qed.

Lemma put_stashed_inv d (ev : CaptureEvent) : recorded_but (d_db d) ev → inv d → inv (put_stashed d ev).1.
Proof.
  intros Hr Hi. pose proof (journal_inv d ev Hr Hi) as Hj. revert Hj. unfold journal, put_stashed.
  by destruct (put_event (d_db d) ev) as [[db' id]|].
Qed.

(** An event that keeps no blob alive. *)
Lemma recorded_none (db : Db P) (ev : CaptureEvent) : event_blob (e_kind ev) = None → recorded_but db ev.
Proof. intros Hn h. by rewrite Hn. Qed.

Lemma next_ts_inv d : inv d → inv (next_ts host d).1.
Proof. intros Hi. inv_frame. Qed.

Lemma put_command_inv d (cmd : CommandRecord) :
  u64_fits (seq (c_command cmd)) → inv d → inv (set_db d (put_command (d_db d) cmd)).
Proof.
  intros Hf Hi. pose proof Hi as [H1 H2 _ _ _]. apply inv_set_db; [by apply commands_insert_ok| |done|done].
  exact H2.
Qed.

Lemma put_blob_record_dom (db : Db P) (h h' : BlobHash) (n : N) (c : bool) (ts : TimePoint) :
  is_Some (blobs (put_blob_record db h n c ts) !! h') ↔ h' = h ∨ is_Some (blobs db !! h').
Proof.
  unfold put_blob_record. destruct (blobs db !! h) as [r|] eqn:Hh; simpl.
  - split; [by right|]. intros [->|?]; [by eexists|done].
  - rewrite lookup_insert_is_Some'. split; (intros [->|?]; [by left|by right]).
Qed.

Lemma put_blob_record_inv d (h : BlobHash) (n : N) (c : bool) (ts : TimePoint) :
  is_Some (d_files d !! h) → inv d → inv (set_db d (put_blob_record (d_db d) h n c ts)).
Proof.
  intros Hf [H1 H2 C D E]. split; simpl.
  - unfold put_blob_record. by destruct (blobs (d_db d) !! h); destruct H1.
  - intros h' Hh'. by apply put_blob_record_ref, H2.
  - done.
  - intros h'. rewrite put_blob_record_dom. intros [->|Hh]; [done|by apply D].
  - intros cwd k i e Hc He Hx. rewrite put_blob_record_dom. right. by eapply E.
Qed.

(** Storing bytes. *)
Lemma put_files_inv d (b : bytes) (fs' : Blobs.BlobFiles) (h : BlobHash) (st : Blobs.BlobStat) :
  Blobs.put (d_files d) b = inl (fs', (h, st)) → inv d →
  inv (set_files d fs') ∧ is_Some (fs' !! h) ∧ h = Blobs.hash_bytes b.
Proof.
  intros Hp [H1 H2 C D E]. destruct (Blobs.put_spec _ _ _ _ _ C Hp) as (-> & Hok & Hs & Hsub & _).
  split; [|done]. split; try done. simpl. intros h Hh. destruct (D h Hh) as [raw Hr].
  exists raw. by eapply lookup_weaken.
Qed.

(** ** Hook messages *)

Lemma sweep_entry_inv (command : CommandId) d pe : inv d → inv (sweep_entry host command d pe).
Proof.
  destruct pe as [path entry]. intros Hi. unfold sweep_entry. case_bool_decide; [done|].
  destruct (h_metadata host path); [|done]. unfold next_ts. apply journal_inv; [by apply recorded_none|].
  by apply next_ts_inv.
Qed.

Lemma post_exec_sweep_inv d (cwd : PathBuf) (command : CommandId) :
  inv d → inv (post_exec_sweep host path_ord d cwd command).
Proof.
  intros Hi. unfold post_exec_sweep. destruct (Baseline.get_cwd _ _) as [cache|]; [|done].
  revert d Hi. induction (Baseline.snapshot_entries path_ord cache) as [|pe l IH]; intros d Hi; [done|].
  simpl. by apply IH, sweep_entry_inv.
Qed.

Lemma to_helper_inv d (r : HelperRequest) : inv d → inv (to_helper host d r).
Proof. unfold to_helper. destruct (h_helper host); [intros ?; inv_frame|done]. Qed.

Lemma handle_pre_exec_inv d (command : CommandId) pid cwd sk cs ts :
  u64_fits (seq command) → inv d → inv (handle_pre_exec host d command pid cwd sk cs ts).
Proof.
  intros Hf Hi. unfold handle_pre_exec. apply to_helper_inv, put_command_inv; [done|]. inv_frame.
Qed.

Lemma handle_post_exec_inv d (command : CommandId) (exit_code : Z) (ts : TimePoint) :
  inv d → inv (handle_post_exec host path_ord d command exit_code ts).
Proof.
  intros Hi. unfold handle_post_exec.
  set (d1 := match command_by_id _ _ with Some _ => _ | None => _ end). assert (inv d1) as H1.
  { unfold d1. destruct (command_by_id (d_db d) command) as [cmd|] eqn:Hc; [|done].
    apply post_exec_sweep_inv, put_command_inv; [|inv_frame].
    unfold command_by_id in Hc. destruct (commands (d_db d) !! command) as [r|] eqn:Hr; [|done].
    injection Hc as <-. simpl. destruct Hi as [[_ _ Hk] _ _ _ _]. apply Hk. by eexists. }
  destruct (h_helper host) eqn:Hh; [|by apply to_helper_inv].
  eapply inv_ext; [..|by apply to_helper_inv]; done.
Qed.

Lemma env_handle_post_inv d (key : CommandId) (block : string) :
  inv d → inv (env_handle_post host blake3 filter d key block).1.
Proof.
  intros Hi. unfold env_handle_post. destruct (d_env d !! key) as [pre|]; [|done].
  case_bool_decide; [inv_frame|]. destruct (diff_is_empty _); [inv_frame|]. unfold next_ts.
  apply journal_inv; [by apply recorded_none|]. inv_frame.
Qed.

Lemma shell_handle_post_inv d (command : CommandId) pwd opts aliases ts :
  inv d → inv (shell_handle_post d command pwd opts aliases ts).
Proof.
  intros Hi. unfold shell_handle_post. destruct (d_shell d !! command) as [pre|]; [|done].
  case_match; [inv_frame|]. apply journal_inv; [by apply recorded_none|]. inv_frame.
Qed.

(** The sequence number of a message is a [u64]. *)
Definition hook_fits (msg : HookMessage) : Prop :=
  match msg with HookMessage.PreExec _ sq _ _ _ _ _ _ _ _ => u64_fits sq | _ => True end.

Lemma handle_inv d (msg : HookMessage) :
  hook_fits msg → inv d → inv (handle host blake3 filter path_ord d msg).
Proof.
  intros Hf Hi. unfold handle. unfold next_ts.
  assert (inv (set_clock d ((d_clock d + 1) mod 2 ^ 64)%N)) as H1 by inv_frame.
  pose proof H1 as [[Hj Hho Hk] Hrefs _ _ _].
  destruct msg; simpl in Hf.
  - by apply inv_set_db.
  - by apply handle_pre_exec_inv.
  - by apply handle_post_exec_inv.
  - inv_frame.
  - by apply env_handle_post_inv.
  - inv_frame.
  - by apply shell_handle_post_inv.
  - by apply inv_set_db.
Qed.

(** ** Captures of the helper *)

Lemma journal_unlink_inv d (command : CommandId) ts i path kind mode :
  inv d → inv (journal_unlink_idempotent d command ts i path kind mode).1.
Proof.
  intros Hi. unfold journal_unlink_idempotent. case_match; [done|].
  apply put_inv; [by apply recorded_none|done].
Qed.

Lemma journal_pre_image_inv d (c : CapturedPreImage) ts (blob : BlobHash) xs src :
  (blob ∉ X → is_Some (blobs (d_db d) !! blob)) → inv d → inv (journal_pre_image d c ts blob xs src).1.
Proof.
  intros Hb Hi. unfold journal_pre_image.
  set (ev := new_event _ _ _). pose proof (put_inv d ev) as Hp.
  destruct (put d ev) as [d1 [[]|e]]; simpl in *.
  - destruct (cp_is_delete c); [apply journal_unlink_inv|]; apply Hp; try done; by intros h [= <-].
  - apply Hp; [by intros h [= <-]|done].
Qed.

Lemma ingest_inv d (fd : bytes) (n : N) (claimed : BlobHash) k :
  inv d →
  (∀ d' h st, inv d' → is_Some (d_files d' !! h) → inv (k d' h st).1) →
  inv (ingest d fd n claimed k).1.
Proof.
  intros Hi Hk. unfold ingest. destruct (Blobs.put _ _) as [[fs' [h st]]|] eqn:Hp; [|done].
  destruct (put_files_inv _ _ _ _ _ Hp Hi) as (H1 & H2 & _).
  case_bool_decide; [by apply Hk|done].
Qed.

Lemma handle_captured_inv d (c : CapturedPreImage) (staging : bytes) :
  inv d → inv (handle_captured_pre_image host kernel_tier d c staging).1.
Proof.
  intros Hi. apply ingest_inv; [done|]. intros d' h st Hd' Hh. unfold next_ts. apply journal_pre_image_inv.
  - intros _. simpl. apply put_blob_record_dom. by left.
  - apply put_blob_record_inv; [done|]. inv_frame.
Qed.

Lemma baseline_insert_ok (lb : gmap PathBuf Baseline.BaselineCacheEntry) bs (cwd : PathBuf) c' :
  baseline_ok lb bs →
  (∀ i e, Baseline.by_inode c' !! i = Some e → Baseline.be_blob e ∉ X → is_Some (bs !! Baseline.be_blob e)) →
  baseline_ok (<[cwd := c']> lb) bs.
Proof.
  intros Hb Hc cwd' c i e. rewrite lookup_insert_Some. intros [[_ <-]|[_ Hl]] He; [by eapply Hc|].
  by eapply Hb.
Qed.

Lemma entry_for_cwd_ok (lb lb' : gmap PathBuf Baseline.BaselineCacheEntry) bs (cwd : PathBuf) c :
  Baseline.entry_for_cwd lb cwd = (lb', c) → baseline_ok lb bs →
  baseline_ok lb' bs
  ∧ ∀ i e, Baseline.by_inode c !! i = Some e → Baseline.be_blob e ∉ X → is_Some (bs !! Baseline.be_blob e).
Proof.
  unfold Baseline.entry_for_cwd. destruct (lb !! cwd) as [c0|] eqn:Hl; intros [= <- <-] Hb.
  - split; [done|]. intros i e He. by eapply Hb.
  - split; [|intros i e He; simpl in He; by rewrite lookup_empty in He].
    apply baseline_insert_ok; [done|]. intros i e He. simpl in He. by rewrite lookup_empty in He.
Qed.

Lemma inv_set_baseline d lb : baseline_ok lb (blobs (d_db d)) → inv d → inv (set_baseline d lb).
Proof. intros Hb [A B C D _]. by split. Qed.

Lemma handle_baseline_captured_inv d (cwd : PathBuf) dev inode (path : PathBuf) claimed n staging :
  inv d → inv (handle_baseline_captured host d cwd dev inode path claimed n staging).1.
Proof.
  intros Hi. apply ingest_inv; [done|]. intros d' h st Hd' Hh. unfold next_ts.
  set (ts := mkTime _ _). set (d1 := set_db _ _).
  assert (inv d1) as H1 by (apply put_blob_record_inv; [done|inv_frame]).
  destruct (Baseline.entry_for_cwd (d_baseline d1) cwd) as [lb cache] eqn:He.
  destruct (entry_for_cwd_ok _ _ (blobs (d_db d1)) _ _ He) as [Hlb Hc]; [apply H1|].
  apply inv_set_baseline; [|done]. apply baseline_insert_ok; [done|].
  intros i e. unfold Baseline.cache_insert. simpl. rewrite lookup_insert_Some.
  intros [[_ <-]|[_ Hl]]; [|by eapply Hc]. intros _. simpl. apply put_blob_record_dom. by left.
Qed.

Lemma promote_in_ok (lb lb' : gmap PathBuf Baseline.BaselineCacheEntry) bs i command r :
  Baseline.promote_in cwd_ord lb i command = (lb', r) → baseline_ok lb bs →
  baseline_ok lb' bs ∧ ∀ blob xs, r = Some (blob, xs) → blob ∉ X → is_Some (bs !! blob).
Proof.
  unfold Baseline.promote_in, Baseline.get_cwd_for_inode.
  destruct (List.find _ _) as [[cwd c]|] eqn:Hf; [|intros [= <- <-] Hb; split; [done|by intros ? ? [=]]].
  apply List.find_some in Hf as [Hin _]. apply list_elem_of_In in Hin. rewrite elem_of_hash_iter in Hin.
  unfold Baseline.promote. destruct (Baseline.by_inode c !! i) as [e|] eqn:He.
  - destruct (Baseline.mark_stale e command) as [e' r'] eqn:Hm. intros [= <- <-] Hb.
    unfold Baseline.mark_stale in Hm. pose proof (Hb _ _ _ _ Hin He) as Hs.
    assert (Baseline.be_blob e' = Baseline.be_blob e) as Hbe by (case_match; by simplify_eq).
    split.
    + apply baseline_insert_ok; [done|]. intros j x. simpl. rewrite lookup_insert_Some.
      intros [[_ <-]|[_ Hx]]; [by rewrite Hbe|by eapply Hb].
    + intros blob xs ->. case_match; [done|]. by simplify_eq.
  - intros [= <- <-] Hb. split; [|by intros ? ? [=]]. apply baseline_insert_ok; [done|].
    intros j x Hx. by eapply Hb.
Qed.

Lemma handle_capture_inv d (c : CapturedPreImage) (fd : option bytes) :
  inv d → inv (handle_capture host kernel_tier cwd_ord d c fd).1.
Proof.
  intros Hi. unfold handle_capture. destruct fd as [staging|].
  - destruct (Baseline.promote_in _ _ _ _) as [lb r] eqn:Hp.
    destruct (promote_in_ok _ _ (blobs (d_db d)) _ _ _ Hp) as [Hlb Hr]; [apply Hi|].
    assert (inv (set_baseline d lb)) as H1 by by apply inv_set_baseline.
    destruct r as [[blob xs]|]; [|by apply handle_captured_inv].
    unfold handle_baseline_promoted_pre_image, next_ts. apply journal_pre_image_inv; [by eapply Hr|].
    inv_frame.
  - unfold handle_marker. case_match; [|done]. unfold next_ts. apply journal_unlink_inv. inv_frame.
Qed.

Lemma handle_tree_mutation_inv d sess sq (op : TreeOpWire) :
  inv d → inv (handle_tree_mutation host d sess sq op).1.
Proof.
  intros Hi. unfold handle_tree_mutation, next_ts.
  assert (inv (set_clock d ((d_clock d + 1) mod 2 ^ 64)%N)) as H1 by inv_frame.
  destruct op; try (apply put_inv; [by apply recorded_none|done]). by apply journal_unlink_inv.
Qed.

Lemma dispatch_response_inv d (resp : HelperResponse) (fd : option bytes) :
  inv d → inv (dispatch_response host kernel_tier cwd_ord d resp fd).
Proof.
  intros Hi. destruct resp; simpl; try done; try inv_frame.
  - by apply handle_capture_inv.
  - destruct fd; [by apply handle_baseline_captured_inv|done].
  - unfold walk_complete. destruct (Baseline.entry_for_cwd _ _) as [lb cache] eqn:He.
    destruct (entry_for_cwd_ok _ _ (blobs (d_db d)) _ _ He) as [Hlb Hc]; [apply Hi|].
    apply inv_set_baseline; [|done]. apply baseline_insert_ok; [done|]. intros i e. apply Hc.
  - by apply handle_tree_mutation_inv.
  - unfold handle_metadata_change, next_ts. apply put_inv; [by apply recorded_none|]. inv_frame.
  - case_match; [inv_frame|done].
Qed.

(** ** Redirections *)

Lemma stash_one_inv (fs : Fs.FS) d (t : Redirect.RedirectTarget) (command : CommandId) :
  inv d → inv (stash_one host fs d t command).1.
Proof.
  intros Hi. unfold stash_one.
  assert (∀ p, inv (stash_append host fs d p command).1) as Ha.
  { intros p. unfold stash_append, next_ts. destruct (Fs.find fs p) as [[ino n]|]; [|done].
    destruct (negb _); [done|]. case_bool_decide; [done|].
    apply put_stashed_inv; [by apply recorded_none|]. inv_frame. }
  assert (∀ p, inv (stash_truncate host fs d p command).1) as Ht.
  { intros p. unfold stash_truncate. destruct (Fs.find fs p) as [[ino n]|]; [|done].
    destruct (negb _); [done|]. destruct (Blobs.put _ _) as [[fs' [h st]]|] eqn:Hp; [|done].
    destruct (put_files_inv _ _ _ _ _ Hp Hi) as (H1 & H2 & _). unfold next_ts.
    apply put_stashed_inv.
    - intros h' [= <-] _. simpl. apply put_blob_record_dom. by left.
    - apply put_blob_record_inv; [done|]. inv_frame. }
  by destruct (Redirect.t_op t).
Qed.

Lemma handle_redirects_inv (fs : Fs.FS) d sess sq targets :
  inv d → inv (handle_redirects host fs d sess sq targets).1.
Proof.
  unfold handle_redirects. generalize 0. generalize (@nil (string * StashError)).
  revert d. induction targets as [|t l IH]; intros d errs n Hi; [done|]. simpl.
  pose proof (stash_one_inv fs d t (mkCommandId sess sq) Hi) as H1.
  destruct (stash_one _ _ _ _ _) as [d1 [[]|e]]; by apply IH.
Qed.

(** ** The shim *)

Lemma ingest_pre_image_inv xattrs_at d (command : CommandId) (pre : ShimPreImage) source ts :
  inv d → inv (ingest_pre_image_with_source xattrs_at d command pre source ts).
Proof.
  intros Hi. unfold ingest_pre_image_with_source.
  destruct (Blobs.put _ _) as [[fs' [h st]]|] eqn:Hp; [|done].
  destruct (put_files_inv _ _ _ _ _ Hp Hi) as (H1 & H2 & _). apply journal_inv.
  - intros h' [= <-] _. simpl. apply put_blob_record_dom. by left.
  - by apply put_blob_record_inv.
Qed.

Lemma ingest_attached_inv xattrs_at d (command : CommandId) ts (note : ShimNotification) :
  inv d → inv (ingest_attached xattrs_at d command ts note).
Proof. intros Hi. unfold ingest_attached. case_match; [by apply ingest_pre_image_inv|done]. Qed.

Lemma ingest_all_inv xattrs_at (command : CommandId) ts (l : list ShimPreImage) : ∀ d,
  inv d → inv (foldl (λ d pre, ingest_pre_image xattrs_at d command ts pre) d l).
Proof. induction l as [|pre l IH]; intros d Hi; [done|]. simpl. by apply IH, ingest_pre_image_inv. Qed.

Lemma classify_tree_op_none inode_of syscall arg kind :
  classify_tree_op inode_of syscall arg = Some kind → event_blob kind = None.
Proof. unfold classify_tree_op. repeat case_match; intros; by simplify_eq. Qed.

Lemma ingest_tree_inv inode_of xattrs_at d (command : CommandId) ts (note : ShimNotification) :
  inv d → inv (ingest_tree inode_of xattrs_at d command ts note).
Proof.
  intros Hi. unfold ingest_tree. set (d1 := if one_of _ rename_syscalls then ingest_attached _ _ _ _ _ else _).
  assert (inv d1) as H1 by (unfold d1; case_match; [by apply ingest_attached_inv|done]). clearbody d1.
  set (d2 := if one_of _ rename_syscalls then foldl _ _ _ else _).
  assert (inv d2) as H2 by (unfold d2; case_match; [by apply ingest_all_inv|done]). clearbody d2. set (d3 := if one_of _ unlink_syscalls then _ else _).
  assert (inv d3) as H3 by (unfold d3; case_match; [by apply ingest_attached_inv|done]). clearbody d3.
  destruct (classify_tree_op _ _ _) as [kind|] eqn:Hk; [|done]. destruct (is_relative_create kind); [done|].
  destruct (_ && _); [done|]. apply journal_inv; [|done]. apply recorded_none. by eapply classify_tree_op_none.
Qed.

Lemma ingest_notification_inv inode_of xattrs_at d (note : ShimNotification) resolved ts :
  inv d → inv (ingest_notification inode_of xattrs_at d note resolved ts).
Proof.
  intros Hi. unfold ingest_notification. destruct resolved as [command|]; [|done].
  assert (inv (ingest_failure d command ts (sn_failure note))) as Hf.
  { unfold ingest_failure. destruct (sn_failure note) as [[]|]; [|done].
    apply journal_inv; [by apply recorded_none|done]. }
  destruct (one_of _ metadata_syscalls); [|destruct (one_of _ content_syscalls)].
  - unfold ingest_metadata. case_match; [by apply ingest_pre_image_inv|done].
  - unfold ingest_content. case_match; [by apply ingest_pre_image_inv|].
    destruct (Baseline.path_in_watched_subtree _ _); [done|]. destruct (negb _); [done|].
    apply journal_inv; [by apply recorded_none|done].
  - by apply ingest_tree_inv.
Qed.

(** ** Collection *)

Lemma gc_inv d cancel remove_ok vacuum (config : Gc.GcConfig) (now : N) (s : Gc.Pass P) res :
  Gc.run_pass cmd_ord blob_ord cancel remove_ok vacuum (d_db d) (d_files d) config now = Some (s, res) →
  baseline_ok (d_baseline d) (blobs (Gc.g_db s)) → inv d → inv (set_files (set_db d (Gc.g_db s)) (Gc.g_files s)).
Proof.
  intros Hp Hb [H1 H2 C D E]. pose proof (pass_spec _ _ _ _ _ _ _ _ _ _ _ H1 Hp) as Hs.
  destruct (pass_cutoff blob_ord (d_db d) config now) as [cutoff|].
  - destruct Hs as [[_ _ _ _ Ho Hr Hbl Hf Hsub] _]. split; simpl; [by apply Ho|intros h Hx; by apply Hr, H2| | |].
    + intros h raw Hh. apply C. by eapply lookup_weaken.
    + intros h [r Hh]. rewrite Hf by by eexists. destruct (Hbl _ _ Hh) as (r' & Hr' & _).
      apply D. by eexists.
    + done.
  - destruct Hs as (-> & -> & _). by split.
Qed.

End Facts.

Arguments baseline_ok : clear implicits.
Arguments inv_but {P _ _} X d : rename.
Arguments recorded_but {P} X db ev : rename.

(** The invariant of all blobs. *)
Abbreviation inv := (inv_but ∅).

Lemma inv_but_mono {P : Type} `{!Postcard P} `{!Blobs.BlobCodec} (X Y : gset BlobHash) (d : Daemon P) :
  X ⊆ Y → inv_but X d → inv_but Y d.
Proof.
  intros Hs [A B C D E]. split; [done| |done|done|].
  - intros h Hh. apply B. set_solver.
  - intros cwd c i e Hc He Hx. eapply E; [done..|]. set_solver.
Qed.

Lemma inv_refs {P : Type} `{!Postcard P} `{!Blobs.BlobCodec} (d : Daemon P) : inv d → refs_ok (d_db d).
Proof. intros [_ B _ _ _]. apply refs_ok_each. intros h. apply B. set_solver. Qed.

End DaemonFacts.

(** * What the trackers journal

    A rule for the trackers of the system tiers: what holds before a report
    and is kept by stashing, by the clock, and by journaling an event of a
    system tier, holds after it. The invariant of the daemon follows. *)

Module TierTrackFacts.
Import Index StoreFacts StoreRuns TierStash Daemon HelperEvents TierTrack DaemonFacts.

Section Facts.
Context {P : Type} `{!Postcard P} `{!PostcardLaws P} `{!Blobs.BlobCodec} `{!Blobs.BlobCodecLaws}.
Context (host : Host) (parent_pid : N → option N) {X : gset BlobHash}.
Abbreviation inv := (inv_but X).
Implicit Types d : Daemon P.

(** The blob a request names in the journal. *)
Definition tarball (r : TierReq) : option BlobHash :=
  match r with ContainerEvent req _ => cn_stash_tarball req | _ => None end.

(** An event of a system tier. *)
Definition tier_event (ev : CaptureEvent) : Prop := ∀ i p, is_unlink_of i p ev = false.

Section Rule.
Context (Q : Daemon P → Prop) (blob : option BlobHash).
Hypothesis Hstash : ∀ d s, Q d → Q (set_tiers d s).
Hypothesis Hclock : ∀ d n, Q d → Q (set_clock d n).
Hypothesis Hjournal : ∀ d ev, tier_event ev → event_blob (e_kind ev) = None ∨ event_blob (e_kind ev) = blob →
  Q d → Q (journal d ev).
Hypothesis Hfiles : ∀ d b files' h st, Blobs.put (d_files d) b = inl (files', (h, st)) → Q d → Q (set_files d files').
Hypothesis Hregister : ∀ d secs req, Q d → Q (set_db d (Stash.register (d_db d) secs req)).

Lemma record_rule d (command : CommandId) (kind : CaptureEventKind) :
  tier_event (new_event command (mkTime 0 0) kind) → event_blob kind = None →
  Q d → Q (record host d command kind).
Proof. intros Ht Hb Hd. apply Hjournal; [exact Ht|by left|]. by apply Hclock. Qed.

Lemma put_new_rule d (command : CommandId) (kind : CaptureEventKind) :
  tier_event (new_event command (mkTime 0 0) kind) → event_blob kind = None ∨ event_blob kind = blob →
  Q d → Q (put_new host d command kind).1.
Proof.
  intros Ht Hb Hd. unfold put_new, next_ts. set (d1 := set_clock _ _). set (ev := new_event _ _ _).
  pose proof (Hjournal d1 ev Ht Hb (Hclock _ _ Hd)) as Hj. unfold journal in Hj.
  by destruct (put_event (d_db d1) ev) as [[db' id]|].
Qed.

Lemma record_killed_rule (command : CommandId) signal (l : list TargetOutcome) : ∀ d,
  Q d → Q (foldl (record_killed host command signal) d l).
Proof.
  induction l as [|[s|s] l IH]; intros d Hd; simpl; [done| |by apply IH]. apply IH. by apply record_rule.
Qed.

Lemma container_rule d (req : ContainerEventReq) secs :
  blob = cn_stash_tarball req → Q d → Q (container_handle host parent_pid d req secs).1.
Proof.
  intros Hb Hd. unfold container_handle. destruct (resolve _ _ _) as [command|]; [|done].
  destruct (build_container_op _ _) as [op|]; [|done].
  assert (Q (ingest_tarball d command req secs).1) as Hi.
  { unfold ingest_tarball. destruct (cn_stash_tarball_bytes req); [|done]. destruct (cn_stash_tarball req); [|done].
    destruct (Blobs.put _ _) as [[files' [h st]]|] eqn:Hp; [|done].
    case_bool_decide; [apply (Hregister (set_files d files'))|]; by eapply Hfiles. }
  destruct (ingest_tarball d command req secs) as [d1 [[]|e]]; [|done].
  apply put_new_rule; [done|right; by rewrite Hb|done].
Qed.

(** The rule. *)
Lemma tier_rule d (r : TierReq) : blob = tarball r → Q d → Q (tier_handle host parent_pid d r).
Proof.
  intros Hb Hd. destruct r; simpl.
  - unfold pkg_handle. destruct (pk_phase req); [by apply Hstash|].
    destruct (take_pre _ _ _ _) as [s [pre|]]; [|by apply Hstash].
    destruct (negb _); [by apply Hstash|]. destruct (resolve _ _ _); [|by apply Hstash].
    apply record_rule; [done|done|by apply Hstash].
  - unfold svc_handle. destruct (sv_phase req); [by apply Hstash|].
    destruct (take_pre _ _ _ _) as [s [pre|]]; [|by apply Hstash].
    case_bool_decide; [by apply Hstash|]. destruct (resolve _ _ _); [|by apply Hstash].
    apply record_rule; [done|done|by apply Hstash].
  - unfold net_handle. destruct (nt_phase req); [by apply Hstash|].
    destruct (take_pre _ _ _ _) as [s [pre|]]; [|by apply Hstash].
    case_bool_decide; [by apply Hstash|]. destruct (resolve _ _ _); [|by apply Hstash].
    apply record_rule; [done|done|by apply Hstash].
  - unfold proc_handle. destruct (pr_phase req); [by apply Hstash|].
    destruct (take_pre _ _ _ _) as [s [pre|]]; [|by apply Hstash].
    destruct (resolve _ _ _); [|by apply Hstash]. apply record_killed_rule. by apply Hstash.
  - unfold db_handle. destruct (db_phase req); [by apply Hstash|].
    destruct (take_pre _ _ _ _) as [s [pre|]]; [|by apply Hstash].
    destruct (resolve _ _ _); [|by apply Hstash]. apply record_rule; [done|done|by apply Hstash].
  - by apply container_rule.
  - unfold cloud_handle. destruct (resolve _ _ _); [|done].
    destruct (build_event_kind req) as [kind|] eqn:Hk; [|done].
    assert (event_blob kind = None ∧ ∀ c ts, tier_event (new_event c ts kind)) as [H1 H2].
    { revert Hk. unfold build_event_kind, bind, need. repeat case_match; intros; by simplify_eq. }
    apply put_new_rule; [apply H2|by left|done].
Qed.

End Rule.

(** The invariant, when a tarball named in the journal is recorded. *)
Lemma tier_handle_inv d (r : TierReq) :
  (∀ h, tarball r = Some h → h ∉ X → is_Some (blobs (d_db d) !! h)) → inv d → inv (tier_handle host parent_pid d r).
Proof.
  intros Ht Hi. set (Q := λ d', inv d' ∧ ∀ h, tarball r = Some h → h ∉ X → is_Some (blobs (d_db d') !! h)).
  apply (tier_rule Q (tarball r)); [..|done|by split].
  - intros d' s [H1 H2]. split; [by apply (inv_ext d')|done].
  - intros d' n [H1 H2]. split; [by apply (inv_ext d')|done].
  - intros d' ev _ Hb [H1 H2]. split.
    + apply journal_inv; [|done]. intros h Hh. apply H2. destruct Hb; congruence.
    + intros h Hh Hx. unfold journal. destruct (put_event _ _) as [[db' id]|] eqn:Hp; [|by apply H2].
      simpl. rewrite (put_event_dom _ _ _ _ h Hp). by apply H2.
  - intros d' b files' h st Hp [H1 H2]. split; [by eapply put_files_inv|done].
  - intros d' secs req [H1 H2]. pose proof H1 as [[Hj Hho Hk] Hr _ _ _].
    split; [by apply inv_set_db|done].
Qed.

End Facts.

End TierTrackFacts.
