(* ===== verification/UndoSteps.v ===== *)
(** * Undoing a session, command by command

    The undo request over the store: the account its report gives, dry runs,
    and the undo of the last commands, which takes the file system back to
    what it showed before the first of them. *)

From S2P Require Import Prelude Paths Base Events Inverse Cohort Probe Classify Network Plan PlanFacts PlanForward.
From S2P Require Import Executor Orchestrator OrchestratorFacts Fs FileExec FileFacts Undo Edits Tables.
From S2P Require Import Index Blobs StoreFacts StorePlan Active Baseline WatchReady Daemon HelperEvents.
From S2P Require Import UndoCtl DaemonFacts.

Module UndoSteps.
Import Plan PlanForward Executor Orchestrator OrchestratorFacts Fs FileExec FileFacts Undo Edits.
Import Index StoreFacts StorePlan Daemon DaemonFacts UndoCtl.
Import Cohort (as_u32).

(** ** The account of a report *)

(** How many records of a kind the runs have. *)
Definition count_if (p : ExecutionRecord → bool) (reps : list ExecutionReport) : nat :=
  length (List.filter p (concat (records <$> reps))).

Definition is_applied (r : ExecutionRecord) : bool :=
  match r_outcome_kind r with OutcomeKind.Applied | OutcomeKind.WouldApply => true | _ => false end.
Definition is_refused (r : ExecutionRecord) : bool :=
  match r_outcome_kind r, r_op r with OutcomeKind.Skipped, InverseOp.Refuse _ _ _ => true | _, _ => false end.
Definition is_skipped (r : ExecutionRecord) : bool :=
  bool_decide (r_outcome_kind r = OutcomeKind.Skipped) && negb (is_refused r).
Definition is_failed (r : ExecutionRecord) : bool := bool_decide (r_outcome_kind r = OutcomeKind.Failed).
Definition is_conflicted (r : ExecutionRecord) : bool :=
  negb (is_applied r || is_failed r || bool_decide (r_outcome_kind r = OutcomeKind.Skipped)).

(** The counters of a report are those of the runs, as far as a [u32] counts. *)
Record accounts (r : UndoReportWire) (reps : list ExecutionReport) : Prop := {
  ac_commands : commands_attempted r = as_u32 (length reps);
  ac_applied : ops_applied r = as_u32 (count_if is_applied reps);
  ac_skipped : ops_skipped r = as_u32 (count_if is_skipped reps);
  ac_failed : ops_failed r = as_u32 (count_if is_failed reps);
  ac_conflicted : ops_conflicted r = as_u32 (count_if is_conflicted reps);
  ac_refused : ops_refused r = as_u32 (count_if is_refused reps);
}.

Definition counted (k : nat) (n : N) : N := Nat.iter k incr32 n.

Lemma counted_add (k m : nat) (n : N) : counted (k + m) n = counted m (counted k n).
Proof. unfold counted. by rewrite Nat.add_comm, Nat.iter_add. Qed.

Lemma counted_u32 (k m : nat) : counted k (as_u32 m) = as_u32 (m + k).
Proof.
  induction k as [|k IH]; [by rewrite Nat.add_0_r|]. change (incr32 (counted k (as_u32 m)) = as_u32 (m + S k)). rewrite IH.
  unfold incr32, as_u32. rewrite N.Div0.add_mod_idemp_l. f_equal. lia.
Qed.

Lemma u32_small (n : nat) : (N.of_nat n < 2 ^ 32)%N → as_u32 n = N.of_nat n.
Proof. apply N.mod_small. Qed.

Lemma u32_le (n : nat) : (as_u32 n ≤ N.of_nat n)%N.
Proof. by apply N.Div0.mod_le. Qed.

Definition count_in (p : ExecutionRecord → bool) (recs : list ExecutionRecord) : nat :=
  length (List.filter p recs).

Lemma count_if_snoc p (reps : list ExecutionReport) (rep : ExecutionReport) :
  count_if p (reps ++ [rep]) = count_if p reps + count_in p (records rep).
Proof.
  unfold count_if, count_in. rewrite fmap_app, concat_app. simpl.
  by rewrite app_nil_r, List.filter_app, length_app.
Qed.

Lemma tally_counts (cmd : CommandRecord) (r : UndoReportWire) (rec : ExecutionRecord) :
  commands_attempted (tally cmd r rec) = commands_attempted r
  ∧ ops_applied (tally cmd r rec) = counted (Nat.b2n (is_applied rec)) (ops_applied r)
  ∧ ops_skipped (tally cmd r rec) = counted (Nat.b2n (is_skipped rec)) (ops_skipped r)
  ∧ ops_failed (tally cmd r rec) = counted (Nat.b2n (is_failed rec)) (ops_failed r)
  ∧ ops_conflicted (tally cmd r rec) = counted (Nat.b2n (is_conflicted rec)) (ops_conflicted r)
  ∧ ops_refused (tally cmd r rec) = counted (Nat.b2n (is_refused rec)) (ops_refused r).
Proof.
  destruct r as [n a s f c rf dry ls rl], rec as [i op t k dt].
  unfold tally, is_skipped, is_conflicted, is_failed, is_refused, is_applied.
  cbn [r_outcome_kind r_op r_detail]. destruct k; [..|destruct op| | | | |];
    repeat first [rewrite bool_decide_eq_true_2 by done|rewrite bool_decide_eq_false_2 by done];
    by split_and!.
Qed.

Lemma tally_all_counts (cmd : CommandRecord) (recs : list ExecutionRecord) (r : UndoReportWire) :
  let r' := foldl (tally cmd) r recs in
  commands_attempted r' = commands_attempted r
  ∧ ops_applied r' = counted (count_in is_applied recs) (ops_applied r)
  ∧ ops_skipped r' = counted (count_in is_skipped recs) (ops_skipped r)
  ∧ ops_failed r' = counted (count_in is_failed recs) (ops_failed r)
  ∧ ops_conflicted r' = counted (count_in is_conflicted recs) (ops_conflicted r)
  ∧ ops_refused r' = counted (count_in is_refused recs) (ops_refused r).
Proof.
  revert r. induction recs as [|rec recs IH]; intros r; [by cbn; split_and!|].
  cbn zeta. simpl. destruct (IH (tally cmd r rec)) as (A1 & A2 & A3 & A4 & A5 & A6).
  destruct (tally_counts cmd r rec) as (B1 & B2 & B3 & B4 & B5 & B6).
  assert (Hc : ∀ p, count_in p (rec :: recs) = Nat.b2n (p rec) + count_in p recs).
  { intros p. unfold count_in. simpl. by destruct (p rec). }
  rewrite !Hc, !counted_add. split_and!; congruence.
Qed.

Lemma accounts_snoc (cmd : CommandRecord) (r : UndoReportWire) (reps : list ExecutionReport) (rep : ExecutionReport) :
  accounts r reps → accounts (foldl (tally cmd) (attempted r) (records rep)) (reps ++ [rep]).
Proof.
  intros [A1 A2 A3 A4 A5 A6].
  destruct (tally_all_counts cmd (records rep) (attempted r)) as (B1 & B2 & B3 & B4 & B5 & B6).
  split; [rewrite length_app, <- counted_u32|rewrite count_if_snoc, <- counted_u32..]; simpl in *; congruence.
Qed.

(** A record is of one kind. *)
Lemma count_if_total (reps : list ExecutionReport) :
  length (concat (records <$> reps)) =
  count_if is_applied reps + count_if is_skipped reps + count_if is_failed reps + count_if is_conflicted reps
  + count_if is_refused reps.
Proof.
  unfold count_if. induction (concat (records <$> reps)) as [|[i op t k dt] l IH]; [done|]. simpl. rewrite IH.
  unfold is_skipped, is_conflicted, is_failed, is_refused, is_applied. simpl.
  destruct k; [..|destruct op| | | | |];
    repeat first [rewrite bool_decide_eq_true_2 by done|rewrite bool_decide_eq_false_2 by done]; simpl; lia.
Qed.

Section Request.
Context {P : Type} `{!Postcard P} `{!PostcardLaws P} `{!Blobs.BlobCodec} `{!Blobs.BlobCodecLaws} {T : Type}.
Context (syn : Network.NetSynth) (ord : HashOrder InodeRef (gset PathBuf))
        (cmd_ord : HashOrder CommandId CommandRow).
Context (router : PrivilegedOpRouter) (may_chown : FS → PathBuf → N → N → bool)
        (tmp_name : string) (os : Os) (tiers : Tiers T) (state_home : bool).
Context (globset : list string → (PathBuf → bool) + Msg).
Implicit Types (d : Daemon P) (w : World T).

Abbreviation command_undo := (undo_command syn ord router may_chown tmp_name os tiers state_home).
Abbreviation commands_undo := (undo_commands syn ord router may_chown tmp_name os tiers state_home).
Abbreviation request := (handle_undo syn ord cmd_ord router may_chown tmp_name os tiers state_home globset).

(** What the runs of a request are: one per command, in order, each against
    the world its predecessor left. *)
Inductive runs d (filter : option (PathBuf → bool)) (req : UndoRequest)
    : list CommandRecord → World T → list ExecutionReport → World T → Prop :=
  | runs_nil w : runs d filter req [] w [] w
  | runs_cons cmd cmds w rep w1 reps w2 :
      command_undo d filter (ur_dry_run req) (policy_of (ur_on_conflict req)) (ur_apply_shell_state req)
        cmd w = (rep, w1) →
      runs d filter req cmds w1 reps w2 → runs d filter req (cmd :: cmds) w (rep :: reps) w2.

Lemma commands_undo_runs d filter req cmds : ∀ w r reps0,
  accounts r reps0 →
  let '(r', w') := commands_undo d filter req cmds r w in
  ∃ reps, runs d filter req cmds w reps w' ∧ accounts r' (reps0 ++ reps).
Proof.
  induction cmds as [|cmd cmds IH]; intros w r reps0 Ha; simpl.
  { exists []. rewrite app_nil_r. by split; [constructor|]. }
  destruct (command_undo d filter _ _ _ cmd w) as [rep w1] eqn:E.
  specialize (IH w1 _ _ (accounts_snoc cmd r reps0 rep Ha)).
  destruct (commands_undo d filter req cmds _ w1) as [r' w'].
  destruct IH as (reps & Hr & Hacc). exists (rep :: reps). split; [by econstructor|].
  by rewrite <- app_assoc in Hacc.
Qed.

Lemma sql_limit_length {A} (n : N) (l : list A) : length (sql_limit (Z.of_N n) l) ≤ N.to_nat n.
Proof.
  unfold sql_limit. rewrite bool_decide_eq_false_2 by lia. rewrite length_take. lia.
Qed.

(** C22. The report of an undo request is an exact account: at most the number of
    commands asked for are attempted (at least one), newest first, each
    planned and run on the world the one before left, and every counter is
    the number of records of its kind in those runs, as a [u32] that wraps. So
    as long as the runs have fewer than [2^32] records, nothing an executor
    reported is lost or counted twice: the counters add up to the records. *)
Theorem undo_report_accounts d (req : UndoRequest) w (r : UndoReportWire) w' :
  request d req w = (inl r, w') →
  ∃ filter reps, compile_paths_filter globset (ur_paths req) = inl filter
    ∧ runs d filter req (list_recent_commands cmd_ord (d_db d) (N.max (ur_steps req) 1)) w reps w'
    ∧ accounts r reps
    ∧ (commands_attempted r ≤ N.max (ur_steps req) 1)%N
    ∧ let n := N.of_nat (length (concat (records <$> reps))) in
      (n < 2 ^ 32 →
       n = ops_applied r + ops_skipped r + ops_failed r + ops_conflicted r + ops_refused r)%N.
Proof.
  unfold handle_undo. destruct (compile_paths_filter _ _) as [filter|e]; [|done].
  set (cmds := list_recent_commands _ _ _). set (empty := mkUndoReport _ _ _ _ _ _ _ _ _).
  assert (accounts empty []) as He by done.
  pose proof (commands_undo_runs d filter req cmds w empty [] He) as Hr.
  destruct (commands_undo d filter req cmds empty w) as [r1 w1]. intros [= -> ->].
  destruct Hr as (reps & Hr & Ha). simpl in Ha. exists filter, reps. split_and!; [done|done|done| |].
  - rewrite (ac_commands _ _ Ha). assert (length reps = length cmds) as -> by (clear -Hr; by induction Hr; f_equal/=).
    etrans; [apply u32_le|]. unfold cmds, list_recent_commands. rewrite length_fmap.
    match goal with |- context [sql_limit _ ?l] => pose proof (sql_limit_length (N.max (ur_steps req) 1) l) end. lia.
  - cbn zeta. intros Hn. destruct Ha as [_ -> -> -> -> ->]. pose proof (count_if_total reps) as Ht.
    rewrite !u32_small; lia.
Qed.

(** ** Plans of file operations *)

(** A plan of the file tier runs in the whole world as in its file system. *)
Abbreviation files_runtime d := (file_runtime (blob_reader (d_files d)) router may_chown tmp_name os Blobs.hash_bytes).
Abbreviation world_runtime d sess target :=
  (multi_runtime router may_chown tmp_name os tiers state_home (d_files d) sess target).

Definition with_fs w (fs : FS) : World T := mkWorld fs (w_queues w) (w_tiers w).

Lemma attempt_files d sess target (n : PlanNode) dry_run policy w :
  tier (n_op n) = InverseTier.Files →
  attempt (world_runtime d sess target) n dry_run policy w =
  let '(o, fs') := attempt (files_runtime d) n dry_run policy (w_fs w) in (o, with_fs w fs').
Proof.
  intros Ht. unfold attempt, act_on_conflict. change (effective_conflict (world_runtime d sess target) n w)
    with (effective_conflict (files_runtime d) n (w_fs w)).
  assert (Hx : ∀ dr po, execute (world_runtime d sess target) (n_op n) dr po w =
    let '(o, fs') := execute (files_runtime d) (n_op n) dr po (w_fs w) in (o, with_fs w fs')).
  { intros dr po. simpl. unfold multi_execute, supports. rewrite bool_decide_eq_true_2 by done. done. }
  destruct (effective_conflict _ _ _); [destruct policy|]; rewrite ?Hx; try done; by destruct w.
Qed.

Lemma execute_one_files d sess target filter i (n : PlanNode) dry_run policy w :
  tier (n_op n) = InverseTier.Files →
  execute_one (world_runtime d sess target) filter i n dry_run policy w =
  let '(r, fs') := execute_one (files_runtime d) filter i n dry_run policy (w_fs w) in (r, with_fs w fs').
Proof.
  intros Ht. unfold execute_one. destruct (filtered_out filter (n_op n)); [by destruct w|].
  rewrite attempt_files by done. destruct (attempt (files_runtime d) n dry_run policy (w_fs w)) as [o fs'].
  by destruct (n_op n).
Qed.

Lemma run_from_files d sess target filter dry_run policy nodes : ∀ i w,
  Forall (λ n, tier (n_op n) = InverseTier.Files) nodes →
  run_from (world_runtime d sess target) filter i nodes dry_run policy w =
  let '(recs, fs') := run_from (files_runtime d) filter i nodes dry_run policy (w_fs w) in (recs, with_fs w fs').
Proof.
  induction nodes as [|n nodes IH]; intros i w Hn; [by destruct w|]. apply Forall_cons in Hn as [Ht Hn].
  simpl. rewrite execute_one_files by done.
  destruct (execute_one (files_runtime d) filter i n dry_run policy (w_fs w)) as [r fs'].
  destruct (halts policy (r_outcome_kind r)); [done|]. rewrite (IH (S i) (with_fs w fs') Hn). simpl.
  by destruct (run_from (files_runtime d) filter (S i) nodes dry_run policy fs').
Qed.

(** ** Dry runs *)

Definition tiers_dry : Prop := ∀ op policy t,
  (package_executor tiers op true policy t).2 = t ∧ (service_executor tiers op true policy t).2 = t
  ∧ (network_executor tiers op true policy t).2 = t ∧ (container_executor tiers op true policy t).2 = t
  ∧ (terraform_executor tiers op true policy t).2 = t ∧ (kubectl_executor tiers op true policy t).2 = t
  ∧ (gh_executor tiers op true policy t).2 = t.

Lemma world_runtime_dry d sess target : tiers_dry → DryRunPure (world_runtime d sess target).
Proof.
  intros Hd op policy w. destruct w as [fs q t]. simpl. unfold multi_execute, lift_tiers.
  destruct (supports op) eqn:Hs; simpl.
  - unfold file_execute. by rewrite Hs.
  - destruct (Hd op policy t) as (H1 & H2 & H3 & H4 & H5 & H6 & H7).
    destruct op; simpl; rewrite ?H1, ?H2, ?H3, ?H4, ?H5, ?H6, ?H7; done.
Qed.

Lemma runs_dry d filter req cmds w reps w' :
  tiers_dry → ur_dry_run req = true → runs d filter req cmds w reps w' → w' = w.
Proof.
  intros Hd Hdry. induction 1 as [|cmd cmds w rep w1 reps w2 Hr _ IH]; [done|]. rewrite IH.
  unfold undo_command in Hr. rewrite Hdry in Hr. pose proof (world_runtime_dry d (session (c_command cmd))
    (if ur_apply_shell_state req then Some (target_of (c_shell_kind cmd)) else None) Hd).
  match type of Hr with run ?rt ?f ?p true ?po ?w = _ =>
    pose proof (run_dry_run_pure rt f p po w) as Hp end. by rewrite Hr in Hp.
Qed.

(** A dry run of the undo request touches nothing: whatever commands it goes
    through and whatever its policy and filter are, files, queued shell
    snippets and the systems behind the other executors are as before, if
    those executors do nothing when told not to. *)
Theorem undo_dry_run_pure d (req : UndoRequest) w :
  tiers_dry → ur_dry_run req = true → (request d req w).2 = w.
Proof.
  intros Hd Hdry. unfold handle_undo. destruct (compile_paths_filter _ _) as [filter|e]; [|done].
  set (cmds := list_recent_commands _ _ _). set (empty := mkUndoReport _ _ _ _ _ _ _ _ _).
  assert (accounts empty []) as He by done.
  pose proof (commands_undo_runs d filter req cmds w empty [] He) as Hr.
  destruct (commands_undo d filter req cmds empty w) as [r1 w1].
  destruct Hr as (reps & Hr & _). by eapply runs_dry.
Qed.

(** ** Sequences of edits *)

(** The events of the command in the order of the journal. *)
Definition cmd_journal (cmd : CommandId) (db : Db P) : list CaptureEvent :=
  omap decode_event_row (List.filter (of_command cmd) (events db)).

Lemma events_for_command_journal (db : Db P) (cmd : CommandId) :
  events_for_command (index_store db) cmd ≡ₚ cmd_journal cmd db.
Proof. rewrite events_for_command_eq. unfold cmd_journal. by rewrite sort_by_perm. Qed.

Lemma put_event_journal (db db' : Db P) (ev : CaptureEvent) (id : EventId) :
  put_event db ev = inl (db', id) →
  ∃ id', cmd_journal (e_command ev) db' = cmd_journal (e_command ev) db ++ [with_id id' ev].
Proof.
  intros [(payload & Ha & He) _ _ _ _ _ _ _ _]%put_event_inv.
  unfold cmd_journal. rewrite He, List.filter_app, omap_app. simpl.
  change (of_command (e_command ev) (event_row _ ev payload)) with (bool_decide (e_command ev = e_command ev)).
  rewrite bool_decide_eq_true_2 by done. simpl. unfold decode_event_row at 2. simpl.
  rewrite (from_to_bytes _ _ Ha). eauto.
Qed.

Lemma unique_ids_perm (evs evs' : list CaptureEvent) :
  evs ≡ₚ evs' → unique_ids evs → unique_ids evs'.
Proof. unfold unique_ids. by intros ->. Qed.

Lemma edits_sorted (dev : N) post (cs : list Captured) (evs : list CaptureEvent) :
  Forall2 (edit_event dev post) cs evs →
  ∃ cs', cs ≡ₚ cs' ∧ Forall2 (edit_event dev post) cs' (sort_events evs).
Proof.
  intros Hed. assert (evs ≡ₚ sort_events evs) as Hpe by (unfold sort_events; by rewrite sort_by_perm).
  apply Forall2_flip in Hed. destruct (Permutation_Forall2 Hpe Hed) as (cs' & Hcs & Hed').
  exists cs'. split; [done|]. by apply Forall2_flip in Hed'.
Qed.

(** A command that edited files: what the capture recorded of each, on which
    device, and the hash of what it left where it looked again. *)
Record Edit := mkEdit {
  ed_cmd : CommandRecord;
  ed_files : list Captured;
  ed_dev : N;
  ed_post : Captured → option BlobHash;
}.

(** Its journal, and that it is not refused. *)
Definition recorded_edit d (s : Edit) : Prop :=
  refuse_plan (ed_cmd s) = None
  ∧ Forall2 (edit_event (ed_dev s) (ed_post s)) (ed_files s) (cmd_journal (c_command (ed_cmd s)) (d_db d)).

(** What it did, as names show it: [v0] before it, [v1] after it. *)
Definition edited (s : Edit) (v0 v1 : PathBuf → option Inode) : Prop :=
  NoDup (cp_path <$> ed_files s)
  ∧ (∀ q, q ∉ cp_path <$> ed_files s → v1 q = v0 q)
  ∧ ∀ c, c ∈ ed_files s → v0 (cp_path c) = Some (cp_node c)
      ∧ ∃ n, v1 (cp_path c) = Some n ∧ in_kind n = FileKind.Regular
          ∧ ∀ h, ed_post s c = Some h → Blobs.hash_bytes (in_data n) = h.

(** Commands that ran one after the other, the newest first. *)
Inductive history : list Edit → (PathBuf → option Inode) → (PathBuf → option Inode) → Prop :=
  | history_nil v v' : (∀ q, v q = v' q) → history [] v v'
  | history_cons s l v0 v1 v2 : history l v0 v1 → edited s v1 v2 → history (s :: l) v0 v2.

(** The file is one the store and the executor can bring back: of a kind that
    is captured in full, with an owner that can be given back, and a content
    that shares its hash with no other. *)
Definition restorable_file (c : Captured) : Prop :=
  let n := cp_node c in
  capturable os n ∧ (∀ fs, may_chown fs (cp_path c) (in_uid n) (in_gid n) = true)
  ∧ (∀ b, Blobs.hash_bytes b = cp_blob c → b = in_data n).

(** Its directory exists, and the temporary name in it is free. *)
Definition placed (v : PathBuf → option Inode) (c : Captured) : Prop :=
  cp_par c ≠ [] ∧ RootDir ∉ tail (cp_par c)
  ∧ (∃ n, v (cp_par c) = Some n ∧ in_kind n = FileKind.Directory)
  ∧ v (cp_par c ++ [Normal tmp_name]) = None ∧ cp_name c ≠ tmp_name.

Lemma placed_restorable (fs : FS) (c : Captured) (n : Inode) :
  wf fs → placed (view fs) c → view fs (cp_path c) = Some n → in_kind n = FileKind.Regular →
  restorable tmp_name fs (cp_par c) (cp_name c).
Proof.
  intros Hwf (Hp & Hr & Hd & Ht & Hn) Hv Hk. split_and!; try done.
  - by apply is_dir_view.
  - unfold is_dir. fold (cp_path c). rewrite Hv, Hk. done.
  - by apply view_None.
Qed.

(** Editing files moves no directory and makes no name. *)
Lemma placed_before (s : Edit) v0 v1 (c : Captured) : edited s v0 v1 → placed v1 c → placed v0 c.
Proof.
  intros (_ & Ho & Hf) (Hp & Hr & (n & Hn & Hk) & Ht & Hne).
  assert (Hsame : ∀ q, (∀ m, v1 q = Some m → in_kind m ≠ FileKind.Regular) → v1 q = v0 q).
  { intros q Hq. apply Ho. intros (c' & -> & Hc')%list_elem_of_fmap.
    destruct (Hf c' Hc') as (_ & m & Hm & Hreg & _). by apply (Hq m). }
  split_and!; [done|done| | |done].
  - exists n. rewrite <- Hsame; [done|]. intros m. rewrite Hn. intros [= <-]. congruence.
  - rewrite <- Hsame; [done|]. by rewrite Ht.
Qed.

(** The blob a journaled event names is there for the executor. *)
Lemma journal_recoverable X d (cmd : CommandId) (c : Captured) (e : CaptureEvent) :
  inv_but X d → cp_blob c ∉ X → e ∈ cmd_journal cmd (d_db d) → event_blob (e_kind e) = Some (cp_blob c) → restorable_file c →
  recoverable (index_store (d_db d)) (blob_reader (d_files d)) may_chown os c.
Proof.
  intros [Hdb Href Hf Hd _] HX He Hbe (Hcap & Hmay & Hcol). destruct (Href (cp_blob c) HX) as [_ Hcov].
  unfold cmd_journal in He. apply list_elem_of_omap in He as (row & Hrow & Hde).
  rewrite elem_of_list_filter in Hrow. destruct Hrow as [Hrow _].
  destruct (decode_faithful row) as (ev & Hd' & _ & Hb & _); [by apply Hdb|].
  rewrite Hde in Hd'. injection Hd' as ->. cbn [with_id e_kind] in Hbe. rewrite Hbe in Hb.
  destruct (Hcov _ Hrow (eq_sym Hb)) as [r Hr]. destruct (Hd (cp_blob c)) as [raw Hraw]; [by eexists|].
  destruct (Hf _ _ Hraw) as (b & Hdec & Hh). split_and!; [done| | |done].
  - cbn [blob_size_hint index_store]. rewrite Hr. by eexists.
  - unfold blob_reader, Blobs.get. rewrite Hraw, Hdec. by rewrite (Hcol _ Hh).
Qed.

Lemma edit_recoverable X d (s : Edit) (c : Captured) :
  inv_but X d → cp_blob c ∉ X → recorded_edit d s → c ∈ ed_files s → restorable_file c →
  recoverable (index_store (d_db d)) (blob_reader (d_files d)) may_chown os c.
Proof.
  intros Hi HX [_ Hed] [k Hk]%list_elem_of_lookup Hr.
  destruct (Forall2_lookup_l _ _ _ _ _ Hed Hk) as (e & He & _ & src & _ & Hkind).
  eapply journal_recoverable; [done|done|by eapply list_elem_of_lookup_2|by rewrite Hkind|done].
Qed.

(** The journal of a command, in order: what the planner reads. *)
Abbreviation sorted_journal d cmd := (sort_events (cmd_journal cmd (d_db d))).

Lemma sorted_journal_perm d (cmd : CommandId) :
  events_for_command (index_store (d_db d)) cmd ≡ₚ sorted_journal d cmd.
Proof. unfold sort_events. by rewrite events_for_command_journal, sort_by_perm. Qed.

Lemma sorted_journal_chronological X d (cmd : CommandId) : inv_but X d → chronological (sorted_journal d cmd).
Proof.
  intros Hi. split; [|apply sort_by_sorted; [apply event_leb_total|apply event_leb_trans]].
  eapply unique_ids_perm; [apply sorted_journal_perm|]. apply command_events_unique, Hi.
Qed.

(** A command whose plan is of files only is undone as its journal is. *)
Lemma command_undo_journal X d (rec : CommandRecord) apply_shell w :
  let evs := sorted_journal d (c_command rec) in
  inv_but X d →
  Forall (λ n, tier (n_op n) = InverseTier.Files)
    (p_nodes (plan syn ord rec evs (live_probe Blobs.hash_bytes (w_fs w)) (index_store (d_db d)))) →
  command_undo d None false ConflictPolicy.Abort apply_shell rec w =
  let '(rep, fs') := undo syn ord Blobs.hash_bytes (index_store (d_db d)) (blob_reader (d_files d)) router
                       may_chown tmp_name os rec evs (w_fs w) in (rep, with_fs w fs').
Proof.
  intros evs Hi Hfiles. unfold undo_command. set (store := index_store (d_db d)) in *.
  assert (unique_ids (events_for_command store (c_command rec))) as Hu by (apply command_events_unique, Hi).
  rewrite (plan_store_ext syn ord rec _ _ _ store store Hu (sorted_journal_perm d _)); [|done].
  unfold run. rewrite run_from_files by done. unfold undo, run.
  by destruct (run_from (files_runtime d) _ _ _ _ _ _).
Qed.

(** What only restores captured files is a plan of files. *)
Lemma restores_files (nodes : list PlanNode) dev cf (cs : list Captured) :
  Forall2 (λ n x, n_op n = x.1 ∧ n_conflict n = x.2) nodes (concat (restore_ops dev cf <$> cs)) →
  Forall (λ n, tier (n_op n) = InverseTier.Files) nodes.
Proof.
  intros Hp. apply Forall_forall. intros n Hn. apply list_elem_of_lookup in Hn as [i Hi].
  destruct (Forall2_lookup_l _ _ _ _ _ Hp Hi) as ([op c0] & Hx & Hop & _). rewrite Hop. simpl.
  apply list_elem_of_lookup_2 in Hx. apply list_elem_of_In, in_concat in Hx as (l & Hl & Hx).
  apply list_elem_of_In, list_elem_of_fmap in Hl as (c & -> & _).
  destruct Hx as [[= <- _]|[[= <- _]|[]]]; done.
Qed.

(** Undoing one command takes the file system back to what it showed before. *)
Lemma undo_edit_step X d (s : Edit) apply_shell w v0 :
  inv_but X d → recorded_edit d s → wf (w_fs w) → edited s v0 (view (w_fs w)) →
  (∀ c, c ∈ ed_files s → cp_blob c ∉ X ∧ restorable_file c ∧ placed (view (w_fs w)) c) →
  ∃ rep fs', command_undo d None false ConflictPolicy.Abort apply_shell (ed_cmd s) w = (rep, with_fs w fs')
    ∧ all_applied (records rep) = true ∧ wf fs' ∧ ∀ q, view fs' q = v0 q.
Proof.
  intros Hi Hre Hwf (Hnd & Ho & Hf) Hall. pose proof Hre as [Hrf Hed].
  pose proof (sorted_journal_chronological X d (c_command (ed_cmd s)) Hi) as Hc.
  destruct (edits_sorted _ _ _ _ Hed) as (cs & Hcs & Hed').
  rewrite (command_undo_journal X); [|done|eapply restores_files, plan_edits; eauto].
  destruct (run_any_edits syn ord Blobs.hash_bytes (index_store (d_db d)) (blob_reader (d_files d)) router may_chown
    tmp_name os (ed_cmd s) (sorted_journal d (c_command (ed_cmd s))) cs (ed_post s) (ed_dev s) (w_fs w))
    as (recs & fs' & -> & Hoth & _ & Hw' & Hv); auto.
  - by rewrite <- Hcs.
  - intros c Hc'. rewrite <- Hcs in Hc'. destruct (Hall c Hc') as (Hx & Hr & Hp). split; [by eapply edit_recoverable|].
    destruct (Hf c Hc') as (_ & n & Hn & Hk & _). by eapply placed_restorable.
  - eexists _, fs'. split; [done|]. cbn [records]. destruct Hv as [Ha Hv].
    { intros c Hc'. rewrite <- Hcs in Hc'. apply edit_conflict_soft. intros n h Hn Hh.
      destruct (Hf c Hc') as (_ & n' & Hn' & _ & Hh'). rewrite Hn' in Hn. injection Hn as <-. by apply Hh'. }
    split_and!; [done|done|]. intros q. destruct (decide (q ∈ cp_path <$> ed_files s)) as [Hq|Hq].
    + apply list_elem_of_fmap in Hq as (c & -> & Hc'). destruct (Hf c Hc') as [-> _]. apply Hv. by rewrite <- Hcs.
    + rewrite <- Ho by done. unfold view. rewrite Hoth; [done|]. by rewrite <- Hcs.
Qed.

Lemma edited_ext (s : Edit) v0 v1 v1' : (∀ q, v1 q = v1' q) → edited s v0 v1 → edited s v0 v1'.
Proof.
  intros Hv (Hnd & Ho & Hf). split_and!; [done|intros q; rewrite <- Hv; apply Ho|].
  intros c Hc. destruct (Hf c Hc) as (Hc0 & n & Hn & Hn'). split; [done|]. exists n. by rewrite <- Hv.
Qed.

Lemma placed_ext v v' (c : Captured) : (∀ q, v q = v' q) → placed v c → placed v' c.
Proof. unfold placed. intros Hv. by rewrite <- !(Hv _). Qed.

Lemma history_ext l v0 v1 v1' : (∀ q, v1 q = v1' q) → history l v0 v1 → history l v0 v1'.
Proof.
  intros Hv Hh. destruct Hh as [v v' Heq|s l v0 v v2 Hh He].
  - constructor. intros q. by rewrite Heq.
  - econstructor; [done|]. by eapply edited_ext.
Qed.

(** Nothing was skipped, failed, in conflict or refused. *)
Definition clean (r : UndoReportWire) : Prop :=
  (ops_skipped r = 0 ∧ ops_failed r = 0 ∧ ops_conflicted r = 0 ∧ ops_refused r = 0)%N.

Lemma tally_applied (cmd : CommandRecord) (recs : list ExecutionRecord) (r : UndoReportWire) :
  all_applied recs = true → clean r →
  clean (foldl (tally cmd) r recs) ∧ commands_attempted (foldl (tally cmd) r recs) = commands_attempted r.
Proof.
  intros Ha (H1 & H2 & H3 & H4).
  destruct (tally_all_counts cmd recs r) as (B1 & _ & B3 & B4 & B5 & B6). split; [|done].
  assert (∀ p, (∀ rec, r_outcome_kind rec = OutcomeKind.Applied → p rec = false) → count_in p recs = 0) as Hz.
  { intros p Hp. unfold count_in. rewrite list_filter_none; [done|]. intros rec Hrec. apply Hp.
    unfold all_applied in Ha. rewrite forallb_elem in Ha. by apply Ha, bool_decide_eq_true in Hrec. }
  rewrite Hz in B3, B4, B5, B6; first (rewrite H1 in B3; rewrite H2 in B4; rewrite H3 in B5; rewrite H4 in B6; done);
    intros rec Hk; unfold is_skipped, is_conflicted, is_failed, is_refused, is_applied; by rewrite Hk.
Qed.

Lemma commands_undo_edits X d (req : UndoRequest) (hist : list Edit) : ∀ w r v0,
  inv_but X d → ur_dry_run req = false → ur_on_conflict req = ConflictPolicyWire.Abort →
  wf (w_fs w) → history hist v0 (view (w_fs w)) → clean r →
  (∀ s, s ∈ hist → recorded_edit d s
     ∧ ∀ c, c ∈ ed_files s → cp_blob c ∉ X ∧ restorable_file c ∧ placed (view (w_fs w)) c) →
  ∃ r' fs', commands_undo d None req (ed_cmd <$> hist) r w = (r', with_fs w fs')
    ∧ clean r' ∧ commands_attempted r' = counted (length hist) (commands_attempted r) ∧ ∀ q, view fs' q = v0 q.
Proof.
  induction hist as [|s l IH]; intros w r v0 Hi Hdry Hpol Hwf Hh Hr Hall.
  { inversion_clear Hh as [? ? Hv|]. exists r, (w_fs w). split_and!; [by destruct w|done|done|].
    intros q. by rewrite Hv. }
  inversion_clear Hh as [|? ? ? v1 ? Hl He].
  destruct (Hall s) as [Hre Hfs]; [left|].
  destruct (undo_edit_step X d s (ur_apply_shell_state req) w v1 Hi Hre Hwf He Hfs)
    as (rep & fs1 & Hrun & Ha & Hw1 & Hv1).
  rewrite fmap_cons. cbn [undo_commands]. rewrite Hdry, Hpol. cbn [policy_of]. rewrite Hrun.
  destruct (tally_applied (ed_cmd s) (records rep) (attempted r) Ha Hr) as [Hc Hn].
  destruct (IH (with_fs w fs1) (foldl (tally (ed_cmd s)) (attempted r) (records rep)) v0)
    as (r' & fs' & Hrun' & Hc' & Hn' & Hv'); auto.
  { eapply history_ext; [|done]. intros q. by rewrite <- Hv1. }
  { intros s' Hs'. destruct (Hall s') as [Hre' Hfs']; [by right|]. split; [done|]. intros c Hc'.
    destruct (Hfs' c Hc') as (Hx & Hr' & Hp). split_and!; [done|done|].
    apply (placed_ext v1); [intros q; by rewrite <- Hv1|]. by eapply placed_before. }
  exists r', fs'. split_and!; [exact Hrun'|done| |done]. rewrite Hn', Hn. symmetry. exact (counted_add 1 (length l) _).
Qed.

(** C1. Undoing the last commands takes the files back to before the first of
    them. Let any number of commands have edited files one after the other,
    the same files or different ones, and let all of them be journaled with
    their bytes in the store. Then the undo of that many steps attempts
    exactly those commands, applies every operation without a conflict, and
    leaves every name of the file system showing what it showed before the
    oldest of them; nothing else in the world changes. *)
Theorem undo_steps_restores d (req : UndoRequest) w (hist : list Edit) (v0 : PathBuf → option Inode) :
  inv d → ur_dry_run req = false → ur_on_conflict req = ConflictPolicyWire.Abort → ur_paths req = [] →
  list_recent_commands cmd_ord (d_db d) (N.max (ur_steps req) 1) = ed_cmd <$> hist →
  wf (w_fs w) → history hist v0 (view (w_fs w)) →
  (∀ s, s ∈ hist → recorded_edit d s
     ∧ ∀ c, c ∈ ed_files s → restorable_file c ∧ placed (view (w_fs w)) c) →
  ∃ r fs', request d req w = (inl r, mkWorld fs' (w_queues w) (w_tiers w))
    ∧ commands_attempted r = as_u32 (length hist) ∧ clean r ∧ ∀ q, view fs' q = v0 q.
Proof.
  intros Hi Hdry Hpol Hpaths Hlist Hwf Hh Hall. unfold handle_undo. rewrite Hpaths. simpl. rewrite Hlist.
  destruct (commands_undo_edits ∅ d req hist w (mkUndoReport 0 0 0 0 0 0 (ur_dry_run req) [] []) v0)
    as (r & fs' & -> & Hc & Hn & Hv); [done..| |].
  { intros s Hs. destruct (Hall s Hs) as [H1 H2]. split; [done|]. intros c Hc. destruct (H2 c Hc). split_and!; set_solver. }
  exists r, fs'. split_and!; [done| |done|done]. rewrite Hn. apply (counted_u32 (length hist) 0).
Qed.

End Request.

End UndoSteps.
