(* ===== verification/DaemonRuns.v ===== *)
(** * Runs of the daemon

    Everything that reaches the daemon as one type of inputs, and the
    properties of all its runs: the bytes of every undo are there, a removal
    is journaled once, and collection by age. *)

From S2P Require Import Prelude Paths Base Events Probe Env Fs Redirect Tables Index Blobs Retention Gc.
From S2P Require Import StoreFacts StoreRuns GcFacts StorePlan TierStash Active Baseline WatchReady Daemon.
From S2P Require Import HelperEvents TierTrack UndoCtl DaemonFacts.

Module DaemonRuns.
Import Index StoreFacts StoreRuns GcFacts StorePlan Daemon HelperEvents RedirectTrack ShimEvents.
Import TierTrack Ctl DaemonFacts TierTrackFacts.

Inductive Input (P : Type) :=
  | Hook (msg : HookMessage)
  | Helper (resp : HelperResponse) (fd : option bytes)
  | Redirects (session : Uuid) (command_seq : N) (targets : list Redirect.RedirectTarget) (fs : Fs.FS)
  (** A notification of the shim up to its acknowledgement, and its later
      ingestion, with what was resolved and reserved then. *)
  | ShimReceive (parent_pid : N → option N) (note : ShimNotification)
  | ShimIngest (inode_of : string → option InodeRef) (xattrs_at : string → gmap string bytes)
      (note : ShimNotification) (resolved : option CommandId) (ts : TimePoint)
  (** A report of a wrapper, with the process tree at that time. *)
  | Tier (parent_pid : N → option N) (req : TierReq)
  | TierSweep
  | Pin (id : string) (name : option string)
  | Forget (id : string)
  | Bookmark (id : string) (note : option string)
  | BookmarkRemove (id : string)
  | StashPrune (now older_than : N)
  | EnvSweep (now : N)
  | ShellSweep (now : N)
  | Collect (cancel : nat → bool) (remove_ok : BlobHash → bool) (vacuum : Db P → bool)
      (config : Gc.GcConfig) (now : N).
Arguments Hook {P}.
Arguments Helper {P}.
Arguments Redirects {P}.
Arguments ShimReceive {P}.
Arguments ShimIngest {P}.
Arguments Tier {P}.
Arguments TierSweep {P}.
Arguments Pin {P}.
Arguments Forget {P}.
Arguments Bookmark {P}.
Arguments BookmarkRemove {P}.
Arguments StashPrune {P}.
Arguments EnvSweep {P}.
Arguments ShellSweep {P}.
Arguments Collect {P}.

Section Runs.
Context {P : Type} `{!Postcard P} `{!PostcardLaws P} `{!Blobs.BlobCodec} `{!Blobs.BlobCodecLaws}.
Context (host : Host) (blake3 : string → list N) (filter : Env.EnvFilter) (kernel_tier : string).
Context (parse_uuid : string → option Uuid).
Context (path_ord : HashOrder PathBuf InodeRef)
        (cwd_ord : HashOrder PathBuf Baseline.BaselineCacheEntry)
        (cmd_ord : HashOrder CommandId CommandRow) (blob_ord : HashOrder BlobHash BlobRow)
        (stash_ord : HashOrder BlobHash StashRow).
Implicit Types d : Daemon P.

Definition step d (i : Input P) : Daemon P :=
  match i with
  | Hook msg => handle host blake3 filter path_ord d msg
  | Helper resp fd => dispatch_response host kernel_tier cwd_ord d resp fd
  | Redirects sess sq targets fs => (handle_redirects host fs d sess sq targets).1
  | ShimReceive parent_pid note => (receive host parent_pid d note).1
  | ShimIngest inode_of xattrs_at note resolved ts => ingest_notification inode_of xattrs_at d note resolved ts
  | Tier parent_pid req => tier_handle host parent_pid d req
  | TierSweep => sweep_tiers host d
  | Pin id name => (handle_pin parse_uuid d id name).1
  | Forget id => (handle_forget parse_uuid d id).1
  | Bookmark id note => (handle_bookmark parse_uuid d id note).1
  | BookmarkRemove id => (handle_bookmark_remove parse_uuid d id).1
  | StashPrune now older => (handle_container_stashes_prune stash_ord d now older).1
  | EnvSweep now => (env_sweep_expired d now).1
  | ShellSweep now => (shell_sweep_expired d now).1
  | Collect cancel remove_ok vacuum config now =>
      match collect cmd_ord blob_ord remove_ok vacuum cancel config now d with
      | Some (d', _) => d'
      | None => d
      end
  end.

(** Sequence numbers are [u64]s. *)
Definition fits (i : Input P) : Prop := match i with Hook msg => hook_fits msg | _ => True end.

(** The blobs of the baseline snapshots. *)
Definition baseline_blobs (lb : gmap PathBuf Baseline.BaselineCacheEntry) : gset BlobHash :=
  list_to_set (concat ((λ kc, (λ ie, Baseline.be_blob ie.2) <$> map_to_list (Baseline.by_inode kc.2)) <$> map_to_list lb)).

Lemma elem_of_baseline_blobs (lb : gmap PathBuf Baseline.BaselineCacheEntry) cwd c i e :
  lb !! cwd = Some c → Baseline.by_inode c !! i = Some e → Baseline.be_blob e ∈ baseline_blobs lb.
Proof.
  intros Hc He. apply elem_of_list_to_set, list_elem_of_In, in_concat. eexists. split.
  - apply list_elem_of_In, list_elem_of_fmap. exists (cwd, c). split; [done|]. by apply elem_of_map_to_list.
  - apply list_elem_of_In, list_elem_of_fmap. exists (i, e). split; [done|]. by apply elem_of_map_to_list.
Qed.

(** The blobs a step takes out of the daemon's care. A pass sweeps a blob that
    only a baseline snapshot names, since such a blob has no event yet
    ([DaemonExamples.baseline_swept_before_promotion]); and the tracker of
    containers journals a tarball without recording its blob. *)
Definition lost d (i : Input P) : gset BlobHash :=
  match i with
  | Tier _ req =>
      match tarball req with
      | Some h => if bool_decide (is_Some (blobs (d_db d) !! h)) then ∅ else {[h]}
      | None => ∅
      end
  | Collect _ _ _ _ _ => base.filter (λ h, blobs (d_db (step d i)) !! h = None) (baseline_blobs (d_baseline d))
  | _ => ∅
  end.

(** The daemon's runs, with the blobs lost on the way. *)
Inductive reaches d : gset BlobHash → Daemon P → Prop :=
  | reaches_here : reaches d ∅ d
  | reaches_step X d' i : reaches d X d' → fits i → reaches d (X ∪ lost d' i) (step d' i).

(** ** Every step keeps the invariant *)

Lemma step_inv X d (i : Input P) : fits i → inv_but X d → inv_but (X ∪ lost d i) (step d i).
Proof.
  intros Ha Hx. assert (inv_but (X ∪ lost d i) d) as Hi by (eapply inv_but_mono; [|done]; set_solver).
  set (Y := X ∪ lost d i) in *. pose proof Hi as [[Hj Hho Hk] Hr _ _ _].
  destruct i; simpl in Ha |- *.
  - by apply handle_inv.
  - by apply dispatch_response_inv.
  - by apply handle_redirects_inv.
  - by apply (inv_ext d).
  - by apply ingest_notification_inv.
  - apply tier_handle_inv; [|done]. intros h Hh Hn. destruct (decide (is_Some (blobs (d_db d) !! h))) as [|Hne]; [done|].
    exfalso. apply Hn, elem_of_union_r. simpl. rewrite Hh, bool_decide_eq_false_2 by done. set_solver.
  - by apply (inv_ext d).
  - unfold handle_pin. destruct (parse_command_id _ _); [by apply inv_set_db|done].
  - unfold handle_forget. destruct (parse_command_id _ _) as [c|]; [|done].
    destruct (reap_commands_spec (d_db d) [c]) as (db' & s & -> & Hre).
    apply inv_set_db; [by eapply reaped_ok; [|split]| | |done].
    + intros h Hh. by apply (rp_ref _ _ _ _ Hre), Hr.
    + intros h. destruct Hre as [_ _ _ _ _ _ Hb _ _ _]. apply Hb.
  - unfold handle_bookmark. destruct (parse_command_id _ _); [by apply inv_set_db|done].
  - unfold handle_bookmark_remove. destruct (parse_command_id _ _); [by apply inv_set_db|done].
  - unfold handle_container_stashes_prune.
    destruct (Stash.prune_older_than _ _ _ _) as [db' pruned] eqn:Hp. unfold Stash.prune_older_than in Hp.
    case_match; simplify_eq; by apply inv_set_db.
  - by apply (inv_ext d).
  - by apply (inv_ext d).
  - assert (baseline_ok Y (d_baseline d) (blobs (d_db (step d (Collect cancel remove_ok vacuum config now0))))) as Hb.
    { intros cwd c i e Hc He Hn. destruct (blobs _ !! Baseline.be_blob e) eqn:Hd; [by eexists|].
      exfalso. apply Hn, elem_of_union_r. cbn [lost]. apply elem_of_filter. split; [done|]. by eapply elem_of_baseline_blobs. }
    revert Hb. cbn [step]. unfold collect. destruct (Gc.run_pass _ _ _ _ _ _ _ _ _) as [[s res]|] eqn:Hp; [|done].
    simpl. intros Hb. by eapply gc_inv.
Qed.

Lemma reaches_inv_but X Y d d' : inv_but X d → reaches d Y d' → inv_but (X ∪ Y) d'.
Proof.
  intros Hi. induction 1 as [|Y d' i _ IH Hf]; [by rewrite (right_id_L ∅ (∪))|].
  rewrite (assoc_L (∪)). by apply step_inv.
Qed.

Lemma reaches_inv X d d' : inv d → reaches d X d' → inv_but X d'.
Proof. intros Hi Hr. rewrite <- (left_id_L ∅ (∪) X). by eapply reaches_inv_but. Qed.

(** Runs that lose none but some blobs. *)
Definition runs_losing X d d' : Prop := ∃ Y, reaches d Y d' ∧ Y ⊆ X.

Lemma runs_losing_inv X d d' : inv_but X d → runs_losing X d d' → inv_but X d'.
Proof.
  intros Hi (Y & Hr & HY). eapply inv_but_mono; [|by eapply reaches_inv_but]. set_solver.
Qed.

Lemma new_inv (db : Db P) (files : Blobs.BlobFiles) :
  db_ok db → refs_ok db → Blobs.files_ok files → on_disk (blobs db) files →
  inv (daemon_new db files).
Proof. intros H1 H2 H3 H4. split; try done. intros h _. by apply refs_ok_each. Qed.


(** ** A removal is journaled once

    The shim reports removals without an inode and is not deduplicated; the
    claim is on the removals that name one. *)

Definition unlinks (c : CommandId) (i : InodeRef) (p : PathBuf) (db : Db P) : list CaptureEvent :=
  List.filter (is_unlink_of i p) (events_for_command (index_store db) c).

Definition unlink_once (db : Db P) : Prop := ∀ c i p, i ≠ sentinel → length (unlinks c i p db) ≤ 1.

(** The rows of each command are as before, or gone. *)
Definition shrinks (db db' : Db P) : Prop :=
  ∀ c, List.filter (of_command c) (events db') = List.filter (of_command c) (events db)
       ∨ List.filter (of_command c) (events db') = [].

Lemma shrinks_once (db db' : Db P) : shrinks db db' → unlink_once db → unlink_once db'.
Proof.
  intros Hs Ho c i p Hi. unfold unlinks. rewrite events_for_command_eq.
  destruct (Hs c) as [->| ->]; [|simpl; lia]. rewrite <- events_for_command_eq. by apply Ho.
Qed.

Lemma same_events_once (db db' : Db P) : events db' = events db → unlink_once db → unlink_once db'.
Proof. intros He. apply shrinks_once. intros c. left. by rewrite He. Qed.

Lemma put_event_unlinks (db db' : Db P) (ev : CaptureEvent) (id : EventId) c i p :
  put_event db ev = inl (db', id) →
  length (unlinks c i p db') =
  length (unlinks c i p db)
  + (if bool_decide (e_command ev = c) && is_unlink_of i p ev then 1 else 0).
Proof.
  intros [(payload & Ha & He) _ _ _ _ _ _ _ _]%put_event_inv. unfold unlinks.
  rewrite !events_for_command_eq. set (row := event_row _ _ _) in He.
  assert (decode_event_row row = Some (with_id (mkEventId (of_i64 (er_id row))) ev)) as Hd.
  { unfold decode_event_row, row. simpl. by rewrite (from_to_bytes _ _ Ha). }
  assert (∀ l : list (EventRow P), length (List.filter (is_unlink_of i p)
    (omap decode_event_row (sort_by ts_id_leb l))) =
    length (List.filter (is_unlink_of i p) (omap decode_event_row l))) as Hsort.
  { intros l. apply Permutation_length, list_filter_perm. by rewrite sort_by_perm. }
  rewrite !Hsort, He, List.filter_app, omap_app, List.filter_app, length_app. f_equal. simpl.
  change (of_command c row) with (bool_decide (e_command ev = c)). case_bool_decide; [|done].
  simpl. rewrite Hd. simpl. change (is_unlink_of i p (with_id _ ev)) with (is_unlink_of i p ev).
  by destruct (is_unlink_of i p ev).
Qed.

(** Events that are not removals of a known inode. *)
Definition not_unlink (ev : CaptureEvent) : Prop := ∀ i p, i ≠ sentinel → is_unlink_of i p ev = false.

Lemma put_event_once (db db' : Db P) (ev : CaptureEvent) (id : EventId) :
  put_event db ev = inl (db', id) →
  (not_unlink ev ∨ ∀ i p, is_unlink_of i p ev = true → unlinks (e_command ev) i p db = []) →
  unlink_once db → unlink_once db'.
Proof.
  intros Hp Hn Ho c i p Hi. rewrite (put_event_unlinks _ _ _ _ c i p Hp). specialize (Ho c i p Hi).
  destruct Hn as [Hn|Hn]; [rewrite Hn, andb_false_r by done; lia|].
  case_bool_decide as Hc; simpl; [|lia]. destruct (is_unlink_of i p ev) eqn:Hu; [|lia].
  rewrite <- Hc, (Hn i p Hu). simpl. lia.
Qed.

Definition once d : Prop := unlink_once (d_db d).

Lemma once_events d d' : events (d_db d') = events (d_db d) → once d → once d'.
Proof. apply same_events_once. Qed.

Lemma journal_once d (ev : CaptureEvent) : not_unlink ev → once d → once (journal d ev).
Proof.
  intros Hn Ho. unfold journal. destruct (put_event (d_db d) ev) as [[db' id]|] eqn:Hp; [|done].
  eapply put_event_once; [done|by left|done].
Qed.

Lemma put_once d (ev : CaptureEvent) : not_unlink ev → once d → once (put d ev).1.
Proof.
  intros Hn Ho. pose proof (journal_once d ev Hn Ho) as Hj. revert Hj. unfold journal, put.
  by destruct (put_event (d_db d) ev) as [[db' id]|].
Qed.

Lemma put_stashed_once d (ev : CaptureEvent) : not_unlink ev → once d → once (put_stashed d ev).1.
Proof.
  intros Hn Ho. pose proof (journal_once d ev Hn Ho) as Hj. revert Hj. unfold journal, put_stashed.
  by destruct (put_event (d_db d) ev) as [[db' id]|].
Qed.

Lemma journal_unlink_once d (command : CommandId) ts i path kind mode :
  once d → once (journal_unlink_idempotent d command ts i path kind mode).1.
Proof.
  intros Ho. unfold journal_unlink_idempotent. destruct (existsb _ _) eqn:He; [done|].
  unfold put. set (ev := new_event _ _ _).
  destruct (put_event (d_db d) ev) as [[db' id]|] eqn:Hp; [|done].
  eapply put_event_once; [done| |done]. right. intros i' p'. unfold is_unlink_of at 1. simpl.
  rewrite andb_true_iff, !bool_decide_eq_true. intros [<- <-]. unfold unlinks.
  revert He. induction (events_for_command _ _) as [|e l IH]; [done|]. simpl.
  rewrite orb_false_iff. intros [-> Hl]. by apply IH.
Qed.

Lemma journal_pre_image_once d (c : CapturedPreImage) ts blob xs src :
  once d → once (journal_pre_image d c ts blob xs src).1.
Proof.
  intros Ho. unfold journal_pre_image. set (ev := new_event _ _ _).
  assert (once (put d ev).1) as H1 by by apply put_once.
  destruct (put d ev) as [d1 [[]|e]]; simpl in *; [|done].
  destruct (cp_is_delete c); [by apply journal_unlink_once|done].
Qed.

Lemma ingest_once d (fd : bytes) (n : N) (claimed : BlobHash) k :
  once d → (∀ d' h st, once d' → once (k d' h st).1) → once (ingest d fd n claimed k).1.
Proof.
  intros Ho Hk. unfold ingest. destruct (Blobs.put _ _) as [[fs' [h st]]|]; [|done].
  case_bool_decide; [by apply Hk|done].
Qed.

Lemma put_blob_record_events (db : Db P) h n c ts : events (put_blob_record db h n c ts) = events db.
Proof. unfold put_blob_record. by destruct (blobs db !! h). Qed.

Lemma put_blob_record_once d h n c ts :
  once d → once (set_db d (put_blob_record (d_db d) h n c ts)).
Proof. apply once_events, put_blob_record_events. Qed.

Lemma dispatch_response_once d (resp : HelperResponse) (fd : option bytes) :
  once d → once (dispatch_response host kernel_tier cwd_ord d resp fd).
Proof.
  intros Ho. destruct resp; simpl; try done.
  - unfold handle_capture. destruct fd as [staging|].
    + destruct (Baseline.promote_in _ _ _ _) as [lb [[blob xs]|]].
      * by apply journal_pre_image_once.
      * apply ingest_once; [done|]. intros d' h st Hd'. by apply journal_pre_image_once, put_blob_record_once.
    + unfold handle_marker. case_match; [|done]. by apply journal_unlink_once.
  - destruct fd as [staging|]; [|done]. apply ingest_once; [done|]. intros d' h st Hd'.
    unfold next_ts. destruct (Baseline.entry_for_cwd _ _). by apply put_blob_record_once.
  - unfold walk_complete. by destruct (Baseline.entry_for_cwd _ _).
  - unfold handle_tree_mutation, next_ts. destruct op; try by apply put_once. by apply journal_unlink_once.
  - unfold handle_metadata_change, next_ts. by apply put_once.
  - by case_match.
Qed.

Lemma handle_once d (msg : HookMessage) : once d → once (handle host blake3 filter path_ord d msg).
Proof.
  intros Ho. unfold handle, next_ts. destruct msg; try done.
  - unfold handle_pre_exec, to_helper. by destruct (h_helper host).
  - unfold handle_post_exec, to_helper. destruct (h_helper host); cbn [d_db set_watch send].
    all: destruct (command_by_id _ _) as [cmd|]; [|done].
    all: unfold post_exec_sweep; destruct (Baseline.get_cwd _ _) as [cache|]; [|done].
    all: assert (∀ l d, once d → once (foldl (sweep_entry host (mkCommandId session seq)) d l)) as Hl.
    all: try (intros l; induction l as [|[p e] l IH]; intros d' Hd'; [done|]; simpl; apply IH;
      unfold sweep_entry; case_bool_decide; [done|]; destruct (h_metadata host p); [|done];
      by apply journal_once).
    all: by apply Hl.
  - unfold env_handle_post. simpl. destruct (d_env d !! _); [|done].
    case_bool_decide; [done|]. destruct (diff_is_empty _); [done|]. by apply journal_once.
  - unfold shell_handle_post. simpl. destruct (d_shell d !! _); [|done]. case_match; [done|].
    by apply journal_once.
Qed.

Lemma stash_one_once (fs : Fs.FS) d t (command : CommandId) :
  once d → once (stash_one host fs d t command).1.
Proof.
  intros Ho. unfold stash_one, stash_truncate, stash_append, next_ts.
  destruct (Redirect.t_op t), (Fs.find fs _) as [[ino n]|]; try done; destruct (negb _); try done.
  all: try (destruct (Blobs.put _ _) as [[fs' [h st]]|]; [|done];
            by apply put_stashed_once, put_blob_record_once).
  all: case_bool_decide; [done|]; by apply put_stashed_once.
Qed.

Lemma ingest_pre_image_once xattrs_at d (command : CommandId) (pre : ShimPreImage) source ts :
  once d → once (ingest_pre_image_with_source xattrs_at d command pre source ts).
Proof.
  intros Ho. unfold ingest_pre_image_with_source. destruct (Blobs.put _ _) as [[fs' [h st]]|]; [|done].
  by apply journal_once, put_blob_record_once.
Qed.

Lemma ingest_attached_once xattrs_at d (command : CommandId) ts (note : ShimNotification) :
  once d → once (ingest_attached xattrs_at d command ts note).
Proof. intros Ho. unfold ingest_attached. case_match; [by apply ingest_pre_image_once|done]. Qed.

Lemma ingest_all_once xattrs_at (command : CommandId) ts (l : list ShimPreImage) : ∀ d,
  once d → once (foldl (λ d pre, ingest_pre_image xattrs_at d command ts pre) d l).
Proof. induction l as [|pre l IH]; intros d Hi; [done|]. simpl. by apply IH, ingest_pre_image_once. Qed.

Lemma classify_tree_op_unlink inode_of syscall arg kind command ts :
  classify_tree_op inode_of syscall arg = Some kind → not_unlink (new_event command ts kind).
Proof.
  unfold classify_tree_op, not_unlink, is_unlink_of.
  repeat case_match; intros; simplify_eq; simpl in *; simplify_eq; try done.
  rewrite bool_decide_eq_false_2; [done|]. congruence.
Qed.

Lemma ingest_notification_once inode_of xattrs_at d (note : ShimNotification) resolved ts :
  once d → once (ingest_notification inode_of xattrs_at d note resolved ts).
Proof.
  intros Ho. unfold ingest_notification. destruct resolved as [command|]; [|done].
  assert (once (ingest_failure d command ts (sn_failure note))) as Hf.
  { unfold ingest_failure. destruct (sn_failure note) as [[]|]; [|done]. by apply journal_once. }
  revert Hf. generalize (ingest_failure d command ts (sn_failure note)). clear d Ho. intros d Ho.
  unfold ingest_metadata, ingest_content, ingest_tree.
  destruct (one_of _ metadata_syscalls); [by case_match; [apply ingest_pre_image_once|]|].
  destruct (one_of _ content_syscalls).
  { destruct (sn_pre_image note); [by apply ingest_pre_image_once|].
    destruct (Baseline.path_in_watched_subtree _ _); [done|]. destruct (negb _); [done|]. by apply journal_once. }
  set (d1 := if one_of _ rename_syscalls then ingest_attached _ _ _ _ _ else _).
  assert (once d1) as H1 by (unfold d1; case_match; [by apply ingest_attached_once|done]). clearbody d1.
  set (d2 := if one_of _ rename_syscalls then foldl _ _ _ else _).
  assert (once d2) as H2 by (unfold d2; case_match; [by apply ingest_all_once|done]). clearbody d2. set (d3 := if one_of _ unlink_syscalls then _ else _).
  assert (once d3) as H3 by (unfold d3; case_match; [by apply ingest_attached_once|done]). clearbody d3.
  destruct (classify_tree_op _ _ _) as [kind|] eqn:Hk; [|done]. destruct (is_relative_create kind); [done|].
  destruct (_ && _); [done|]. apply journal_once; [|done]. by eapply classify_tree_op_unlink.
Qed.

Lemma collected_shrinks (cutoff : N) (db db' : Db P) fs fs' :
  db_ok db' → collected cutoff db fs db' fs' → shrinks db db'.
Proof.
  intros Hok Hc c. destruct (commands db' !! c) as [r|] eqn:Hr.
  - left. apply Hc. by eexists.
  - right. apply list_filter_none. intros row Hrow. unfold of_command. apply bool_decide_eq_false.
    intros <-. destruct Hok as [[_ _ _ Hcm _] _ _]. destruct (Hcm _ Hrow). congruence.
Qed.

Lemma tier_handle_once parent_pid d (r : TierReq) : once d → once (tier_handle host parent_pid d r).
Proof.
  apply (tier_rule host parent_pid once (tarball r)); try done.
  intros d' ev Ht _. apply journal_once. intros i p _. apply Ht.
Qed.

Lemma step_once X d (i : Input P) : inv_but X d → once d → once (step d i).
Proof.
  intros Hi Ho. destruct i; simpl in *.
  - by apply handle_once.
  - by apply dispatch_response_once.
  - unfold handle_redirects. generalize 0. generalize (@nil (string * StashError)).
    clear Hi. revert d Ho. induction targets as [|t l IH]; intros d Ho errs n; [done|]. simpl.
    pose proof (stash_one_once fs d t (mkCommandId session command_seq) Ho) as H1.
    destruct (stash_one _ _ _ _ _) as [d1 [[]|e]]; by apply IH.
  - done.
  - by apply ingest_notification_once.
  - by apply tier_handle_once.
  - done.
  - unfold handle_pin. by destruct (parse_command_id _ _).
  - unfold handle_forget. destruct (parse_command_id _ _) as [c|]; [|done].
    destruct (reap_commands_spec (d_db d) [c]) as (db' & s & -> & Hre). revert Ho. apply shrinks_once.
    intros x. destruct (doomed (d_db d) [c] x) eqn:Hx; [right|left; by eapply reaped_events].
    simpl. rewrite (rp_events _ _ _ _ Hre). apply list_filter_none. intros row [_ Hn]%elem_of_list_filter.
    unfold of_command. apply bool_decide_eq_false. intros <-. by rewrite Hx in Hn.
  - unfold handle_bookmark. by destruct (parse_command_id _ _).
  - unfold handle_bookmark_remove. by destruct (parse_command_id _ _).
  - unfold handle_container_stashes_prune.
    destruct (Stash.prune_older_than _ _ _ _) as [db' pruned] eqn:Hp. unfold Stash.prune_older_than in Hp.
    revert Ho. apply once_events. simpl. by case_match; simplify_eq.
  - done.
  - done.
  - unfold collect. destruct (Gc.run_pass _ _ _ _ _ _ _ _ _) as [[s res]|] eqn:Hp; [|done]. simpl.
    pose proof (pass_spec _ _ _ _ _ _ _ _ _ _ _ (in_db _ Hi) Hp) as Hs.
    destruct (pass_cutoff _ _ _ _) as [cutoff|]; [|destruct Hs as (Hd & _); unfold once; simpl; by rewrite Hd].
    destruct Hs as [Hc _]. revert Ho. eapply shrinks_once, collected_shrinks; [|done]. by apply Hc, Hi.
Qed.

(** C32. Whatever reports of the same removal arrive from the helper (the capture
    of the file, a marker without content, the comparison of the directory),
    in whatever order and however often, the journal of a daemon that started
    on an empty index never has two removals of the same inode at the same
    path for one command. The shim's reports name no inode: they are journaled
    under the sentinel inode, each of them, and are not spoken of here. *)
Theorem unlink_journaled_once (files : Blobs.BlobFiles) X d (c : CommandId) (i : InodeRef) (p : PathBuf) :
  Blobs.files_ok files → i ≠ sentinel → reaches (daemon_new empty_db files) X d →
  length (List.filter (is_unlink_of i p) (events_for_command (index_store (d_db d)) c)) ≤ 1.
Proof.
  intros Hf Hi Hr. assert (inv (daemon_new empty_db files)) as Hnew.
  { apply new_inv; [apply empty_ok|apply empty_refs|done|by intros h [? ?]]. }
  assert (once d) as Ho; [|by apply Ho]. clear Hi. induction Hr as [|X d' x Hr IH Ha].
  - intros c' i' p' _. simpl. lia.
  - eapply step_once; [by eapply reaches_inv|done].
Qed.

(** ** Collection by age *)

(** A pass whose cutoff is not above the start of a command keeps it. *)
Lemma collect_keeps d d' cancel remove_ok vacuum (config : Gc.GcConfig) (now : N) res c r :
  inv d → collect cmd_ord blob_ord remove_ok vacuum cancel config now d = Some (d', res) →
  commands (d_db d) !! c = Some r →
  (∀ cutoff, pass_cutoff blob_ord (d_db d) config now = Some cutoff →
     (Gc.cutoff_signed cutoff ≤ cr_started_logical r)%Z) →
  commands (d_db d') !! c = Some r.
Proof.
  intros Hi Hcol Hc Hage. unfold collect in Hcol.
  destruct (Gc.run_pass _ _ _ _ _ _ _ _ _) as [[s res']|] eqn:Hp; [|done]. injection Hcol as <- <-.
  pose proof (pass_spec _ _ _ _ _ _ _ _ _ _ _ (in_db _ Hi) Hp) as Hs. simpl.
  destruct (pass_cutoff _ _ _ _) as [cutoff|]; [|by destruct Hs as (-> & _)].
  destruct Hs as [Hcl _]. destruct (co_commands _ _ _ _ _ Hcl c) as [->|[_ (r' & Hr' & He)]]; [done|].
  rewrite Hc in Hr'. injection Hr' as <-. specialize (Hage _ eq_refl). unfold Gc.eligible in He.
  rewrite !andb_true_iff in He. destruct He as [_ He]. simpl in He. case_bool_decide; [lia|done].
Qed.

(** The store is below nine tenths of its cap. *)
Definition roomy (config : Gc.GcConfig) (size_now : N) : Prop :=
  match Gc.size_cap_bytes config with
  | Some cap => (size_now * 10 < cap * 9)%N ∧ (cap * 10 < 2 ^ 64)%N
  | None => True
  end.

Lemma roomy_cutoff (config : Gc.GcConfig) (size_now now : N) :
  roomy config size_now →
  Gc.effective_cutoff config size_now now = (false, (now - Gc.age_threshold_logical config)%N).
Proof.
  unfold roomy, Gc.effective_cutoff, Gc.size_threshold_breached, Gc.u64_mul.
  destruct (Gc.size_cap_bytes config) as [cap|]; [|done]. intros [Hs Hc].
  rewrite (bool_decide_eq_false_2 (cap < size_now)%N) by lia. simpl.
  rewrite !N.mod_small by lia. by rewrite bool_decide_eq_false_2 by lia.
Qed.

Lemma roomy_keeps d d' cancel remove_ok vacuum (config : Gc.GcConfig) (now : N) res c r :
  inv d → collect cmd_ord blob_ord remove_ok vacuum cancel config now d = Some (d', res) →
  commands (d_db d) !! c = Some r →
  (∀ n, total_blob_size blob_ord (d_db d) = inl n → roomy config n) →
  (Gc.cutoff_signed (now - Gc.age_threshold_logical config) ≤ cr_started_logical r)%Z →
  commands (d_db d') !! c = Some r.
Proof.
  intros Hi Hcol Hc Hroom Hage. eapply collect_keeps; [done..|]. unfold pass_cutoff.
  destruct (total_blob_size blob_ord (d_db d)) as [n|]; [|done]. intros cutoff [= <-].
  by rewrite roomy_cutoff by auto.
Qed.

(** Scheduled collection never expires a command by age: while the store
    is below nine tenths of its cap, no pass drops any command, however old,
    before the 604800000th pass, because the loop counts its own passes where
    the age limit counts events. *)
Theorem scheduled_gc_never_ages d d' (n : N) cancel remove_ok vacuum res c r :
  inv d → (n < 604800000)%N →
  scheduled_pass cmd_ord blob_ord remove_ok vacuum n cancel d = Some (d', res) →
  (∀ size, total_blob_size blob_ord (d_db d) = inl size → roomy Gc.default_gc_config size) →
  commands (d_db d) !! c = Some r → (0 ≤ cr_started_logical r)%Z →
  commands (d_db d') !! c = Some r.
Proof.
  intros Hi Hn Hp Hroom Hc Hr. eapply roomy_keeps; [done..|]. simpl.
  by replace (1 + n - 604800000)%N with 0%N by lia.
Qed.

(** Asking for an aggressive collection drops no command either: the
    request runs at logical time one with an age limit of zero, and every
    command the daemon records starts at one or later. *)
Theorem aggressive_gc_drops_nothing d d' (req : GcRequest) remove_ok vacuum res c r :
  inv d → gr_aggressive req = true →
  handle_gc cmd_ord blob_ord remove_ok vacuum d req = Some (d', res) →
  (∀ size, total_blob_size blob_ord (d_db d) = inl size → roomy (request_config req) size) →
  commands (d_db d) !! c = Some r → (1 ≤ cr_started_logical r)%Z →
  commands (d_db d') !! c = Some r.
Proof.
  intros Hi Hag Hp Hroom Hc Hr. unfold handle_gc in Hp. destruct (gr_dry_run req).
  { by injection Hp as <- <-. }
  eapply roomy_keeps; [done..|]. unfold request_config. rewrite Hag. simpl. exact Hr.
Qed.

End Runs.

End DaemonRuns.
