(* ===== verification/RedirectUndo.v ===== *)
(** * A redirection, captured and undone

    The daemon's capture of a redirection, the store, the planner, the
    orchestrator and the file executor composed: files a shell truncates
    after the daemon stashed them come back with [shit undo], whatever
    reached the daemon in between without losing their bytes. *)

From S2P Require Import Prelude Paths Base Events Inverse Probe Classify Network Plan PlanFacts PlanForward.
From S2P Require Import Executor Env Orchestrator Fs FileExec FileFacts Undo Edits Redirect Tables Index.
From S2P Require Import Blobs Gc StoreFacts StoreRuns GcFacts StorePlan Active Baseline WatchReady Daemon.
From S2P Require Import HelperEvents UndoCtl DaemonFacts UndoSteps DaemonRuns.

Module RedirectUndo.
Import Index StoreFacts StorePlan Daemon RedirectTrack UndoCtl DaemonFacts UndoSteps DaemonRuns.

Section Capture.
Context {P : Type} `{!Postcard P} `{!PostcardLaws P} `{!Blobs.BlobCodec} `{!Blobs.BlobCodecLaws}.
Context (host : Host) (fs0 : Fs.FS) (cmd : CommandId).
Implicit Types d : Daemon P.

(** What the stash of one truncated file journals. *)
Definition stashed_event (p : PathBuf) (e : CaptureEvent) : Prop :=
  ∃ ino n, Fs.find fs0 p = Some (ino, n) ∧ e_partial e = false
    ∧ e_kind e = CaptureEventKind.FilePreImage (mkInode (Fs.device fs0) ino) p
        (Blobs.hash_bytes (Fs.in_data n)) (stash_meta n) None FilePreImageSource.BaselineCachePromote.

Definition truncates (t : Redirect.RedirectTarget) : Prop :=
  Redirect.t_op t ≠ Redirect.RedirectOp.Append ∧ Redirect.t_op t ≠ Redirect.RedirectOp.TeeAppend.

Lemma put_stashed_journal d d' (ev : CaptureEvent) :
  e_command ev = cmd → put_stashed d ev = (d', inl Stashed) →
  ∃ id, cmd_journal cmd (d_db d') = cmd_journal cmd (d_db d) ++ [with_id id ev].
Proof.
  intros <-. unfold put_stashed. destruct (put_event (d_db d) ev) as [[db' id]|] eqn:Hp; [|done].
  intros [= <-]. by apply put_event_journal in Hp.
Qed.

Lemma put_blob_record_journal (db : Db P) h n c ts :
  cmd_journal cmd (put_blob_record db h n c ts) = cmd_journal cmd db.
Proof. unfold cmd_journal. by rewrite put_blob_record_events. Qed.

Lemma stash_truncate_journal d d' (p : PathBuf) :
  inv d → stash_truncate host fs0 d p cmd = (d', inl Stashed) →
  ∃ e, cmd_journal cmd (d_db d') = cmd_journal cmd (d_db d) ++ [e] ∧ stashed_event p e.
Proof.
  intros Hi. unfold stash_truncate, next_ts. destruct (Fs.find fs0 p) as [[ino n]|] eqn:Hf; [|done].
  destruct (negb _); [done|]. destruct (Blobs.put _ _) as [[fs' [h st]]|] eqn:Hp; [|done].
  intros Hs. destruct (put_files_inv _ _ _ _ _ Hp Hi) as (_ & _ & ->).
  apply put_stashed_journal in Hs as [id Hj]; [|done]. simpl in Hj.
  rewrite put_blob_record_journal in Hj. eexists. split; [exact Hj|]. by exists ino, n.
Qed.

Lemma stash_all_count targets : ∀ d (k : nat) errs,
  (stash_all host fs0 d targets cmd k errs).2.1 ≤ k + length targets.
Proof.
  induction targets as [|t l IH]; intros d k errs; simpl; [lia|].
  destruct (stash_one _ _ _ _ _) as [d1 [[]|e]].
  - specialize (IH d1 (S k) errs). lia.
  - specialize (IH d1 k errs). lia.
  - specialize (IH d1 k (errs ++ [(Redirect.t_path t, e)])). lia.
Qed.

(** When every target was stashed, the journal has one event per target. *)
Lemma stash_all_journal targets : ∀ d d' (k : nat) errs errs',
  inv d → Forall truncates targets →
  stash_all host fs0 d targets cmd k errs = (d', (k + length targets, errs')) →
  ∃ evs, cmd_journal cmd (d_db d') = cmd_journal cmd (d_db d) ++ evs
    ∧ Forall2 (λ t e, stashed_event (path_of_string (Redirect.t_path t)) e) targets evs.
Proof.
  induction targets as [|t l IH]; intros d d' k errs errs' Hi Ht; simpl.
  { intros [= <- _ _]. exists []. by rewrite app_nil_r. }
  apply Forall_cons in Ht as [[Hna Hnt] Hl]. pose proof (stash_one_inv host fs0 d t cmd Hi) as Hi1.
  destruct (stash_one host fs0 d t cmd) as [d1 [[]|e]] eqn:Hs; intros Hr.
  - replace (k + S (length l)) with (S k + length l) in Hr by lia.
    assert (∃ e, cmd_journal cmd (d_db d1) = cmd_journal cmd (d_db d) ++ [e]
      ∧ stashed_event (path_of_string (Redirect.t_path t)) e) as (e & Hj & He).
    { unfold stash_one in Hs. destruct (Redirect.t_op t); try done; by apply stash_truncate_journal. }
    apply IH in Hr as (evs & Hj' & Hev); [|done|done]. exists (e :: evs).
    split; [by rewrite Hj', Hj, <- app_assoc|by constructor].
  - pose proof (stash_all_count l d1 k errs) as Hn. rewrite Hr in Hn. simpl in Hn. lia.
  - pose proof (stash_all_count l d1 k (errs ++ [(Redirect.t_path t, e)])) as Hn.
    rewrite Hr in Hn. simpl in Hn. lia.
Qed.

End Capture.

(** ** The whole way *)

Section EndToEnd.
Context {P : Type} `{!Postcard P} `{!PostcardLaws P} `{!Blobs.BlobCodec} `{!Blobs.BlobCodecLaws} {T : Type}.
Context (host : Host) (blake3 : string → list N) (filter : Env.EnvFilter) (kernel_tier : string).
Context (parse_uuid : string → option Uuid).
Context (path_ord : HashOrder PathBuf InodeRef)
        (cwd_ord : HashOrder PathBuf Baseline.BaselineCacheEntry)
        (cmd_ord : HashOrder CommandId CommandRow) (blob_ord : HashOrder BlobHash BlobRow)
        (stash_ord : HashOrder BlobHash StashRow).
Context (syn : Network.NetSynth) (ord : HashOrder InodeRef (gset PathBuf)).
Context (router : FileExec.PrivilegedOpRouter) (may_chown : Fs.FS → PathBuf → N → N → bool)
        (tmp_name : string) (os : FileExec.Os) (tiers : Tiers T) (state_home : bool).
Context (globset : list string → (PathBuf → bool) + Msg).
Implicit Types d : Daemon P.

(** The file a target names, before the redirection. *)
Definition targeted (fs0 : Fs.FS) (c : Undo.Captured) (t : Redirect.RedirectTarget) : Prop :=
  path_of_string (Redirect.t_path t) = Undo.cp_path c
  ∧ Fs.find fs0 (Undo.cp_path c) = Some (Undo.cp_ino c, Undo.cp_node c)
  ∧ Undo.cp_blob c = Blobs.hash_bytes (Fs.in_data (Undo.cp_node c)).

(** A regular file is at its place, and the executor can put the old one back. *)
Definition rewritable (fs1 : Fs.FS) (c : Undo.Captured) : Prop :=
  restorable_file may_chown os c ∧ placed tmp_name (Fs.view fs1) c
  ∧ ∃ n', Fs.view fs1 (Undo.cp_path c) = Some n' ∧ Fs.in_kind n' = FileKind.Regular.

(** It has no attributes the stash leaves out. *)
Definition stashable (fs1 : Fs.FS) (c : Undo.Captured) : Prop :=
  let n := Undo.cp_node c in Fs.in_xattrs n = ∅ ∧ Fs.in_flags n = 0%N ∧ rewritable fs1 c.

Lemma stashed_edit (fs0 fs1 : Fs.FS) (c : Undo.Captured) (t : Redirect.RedirectTarget) (e : CaptureEvent) :
  targeted fs0 c t → stashable fs1 c → stashed_event fs0 (path_of_string (Redirect.t_path t)) e →
  Edits.edit_event (Fs.device fs0) (λ _, None) c e.
Proof.
  intros (-> & Hf & Hb) (Hx & Hfl & _) (ino & n & Hf' & Hp & Hk). rewrite Hf in Hf'.
  injection Hf' as <- <-. split; [done|]. exists FilePreImageSource.BaselineCachePromote. split; [done|].
  rewrite Hk, Hb. f_equal. unfold stash_meta, Undo.captured_meta. by rewrite Hx, Hfl.
Qed.

Lemma stashed_edits (fs0 fs1 : Fs.FS) (cs : list Undo.Captured) targets (evs : list CaptureEvent) :
  Forall2 (targeted fs0) cs targets → (∀ c, c ∈ cs → stashable fs1 c) →
  Forall2 (λ t e, stashed_event fs0 (path_of_string (Redirect.t_path t)) e) targets evs →
  Forall2 (Edits.edit_event (Fs.device fs0) (λ _, None)) cs evs.
Proof.
  intros Htg Hall Hev. revert evs Hev.
  induction Htg as [|c t cs ts Hc _ IH]; intros evs Hev; inversion_clear Hev; constructor.
  - eapply stashed_edit; [done|by apply Hall; left|done].
  - apply IH; [|done]. intros x Hx. apply Hall. by right.
Qed.

(** What names show where the files of [cs] are as captured. *)
Definition with_captured (cs : list Undo.Captured) (v : PathBuf → option Fs.Inode) (q : PathBuf) : option Fs.Inode :=
  match find (λ c, bool_decide (Undo.cp_path c = q)) cs with
  | Some c => Some (Undo.cp_node c)
  | None => v q
  end.

Lemma with_captured_spec (cs : list Undo.Captured) v :
  NoDup (Undo.cp_path <$> cs) →
  (∀ c, c ∈ cs → with_captured cs v (Undo.cp_path c) = Some (Undo.cp_node c))
  ∧ (∀ q, q ∉ Undo.cp_path <$> cs → with_captured cs v q = v q).
Proof.
  unfold with_captured. induction cs as [|c0 cs IH]; simpl.
  { intros _. split; [by intros c []%elem_of_nil|done]. }
  intros [Hn Hd]%NoDup_cons. destruct (IH Hd) as [H1 H2]. split.
  - intros c [->|Hc]%elem_of_cons; [by rewrite bool_decide_eq_true_2|].
    rewrite bool_decide_eq_false_2; [by apply H1|]. intros Heq. apply Hn. rewrite Heq. by apply list_elem_of_fmap_2.
  - intros q [Hq Hq']%not_elem_of_cons. rewrite bool_decide_eq_false_2 by done. by apply H2.
Qed.

Lemma rewritten_edited (rec : CommandRecord) (cs : list Undo.Captured) (fs1 : Fs.FS) dev :
  NoDup (Undo.cp_path <$> cs) → (∀ c, c ∈ cs → rewritable fs1 c) →
  edited (mkEdit rec cs dev (λ _, None)) (with_captured cs (Fs.view fs1)) (Fs.view fs1).
Proof.
  intros Hnd Hall. destruct (with_captured_spec cs (Fs.view fs1) Hnd) as [H1 H2].
  split_and!; [done|intros q Hq; by rewrite H2|]. intros c Hc. split; [by apply H1|].
  destruct (Hall c Hc) as (_ & _ & n' & Hv & Hk). by exists n'.
Qed.

Abbreviation request := (handle_undo syn ord cmd_ord router may_chown tmp_name os tiers state_home globset).

(** The request, when what is journaled of the last command are edits. *)
Lemma undo_edits_request X d dev (w : World T) (rec : CommandRecord) (cs : list Undo.Captured) (apply_shell : bool) :
  inv_but X d → (∀ c, c ∈ cs → Undo.cp_blob c ∉ X) → Forall2 (Edits.edit_event dev (λ _, None)) cs (cmd_journal (c_command rec) (d_db d)) →
  list_recent_commands cmd_ord (d_db d) 1 = [rec] → Plan.refuse_plan rec = None →
  FileFacts.wf (w_fs w) → NoDup (Undo.cp_path <$> cs) → (∀ c, c ∈ cs → rewritable (w_fs w) c) →
  ∃ r fs', request d (mkUndo 1 false ConflictPolicyWire.Abort [] apply_shell) w
      = (inl r, mkWorld fs' (w_queues w) (w_tiers w))
    ∧ commands_attempted r = 1%N ∧ clean r
    ∧ (∀ c, c ∈ cs → Fs.view fs' (Undo.cp_path c) = Some (Undo.cp_node c))
    ∧ (∀ q, q ∉ Undo.cp_path <$> cs → Fs.view fs' q = Fs.view (w_fs w) q).
Proof.
  intros Hi HX Hed Hrec Hrf Hwf Hnd Hall. set (s := mkEdit rec cs dev (λ _, None)). unfold handle_undo. simpl.
  change (N.max 1 1) with 1%N. rewrite Hrec. change [rec] with (ed_cmd <$> [s]).
  pose proof (rewritten_edited rec cs (w_fs w) dev Hnd Hall) as Hed'.
  set (req := mkUndo 1 false ConflictPolicyWire.Abort [] apply_shell).
  destruct (commands_undo_edits syn ord router may_chown tmp_name os tiers state_home X d req [s] w
    (mkUndoReport 0 0 0 0 0 0 false [] []) (with_captured cs (Fs.view (w_fs w))))
    as (r & fs' & -> & Hc & Hn & Hv); try done.
  - by econstructor; [constructor|].
  - intros s' [->|[]%elem_of_nil]%elem_of_cons. split; [done|].
    intros c Hin. destruct (Hall c Hin) as (H1 & H2 & _). split_and!; [by apply HX|done|done].
  - destruct (with_captured_spec cs (Fs.view (w_fs w)) Hnd) as [H1 H2].
    exists r, fs'. split_and!; [done..| |]; intros; rewrite Hv; auto.
Qed.

(** C2. A redirection of plain files can be undone. The shell is about to
    truncate any number of files for a command (by [>], [tee] or [dd]), none
    of which has extended attributes or flags, which the stash leaves out; the
    daemon stashes them all, and nothing else is journaled of the command;
    then the shell overwrites them in place. Whatever else reaches the daemon
    (other commands, captures, collection passes) without adding to this
    command's journal or pruning it, and without losing the bytes of one of
    these files, undoing one step, when the command is the last that
    completed, plans from the index, reads the blob store, brings every file
    back with its content, mode, owner and times, reports nothing skipped,
    failed, in conflict or refused, and touches nothing else. *)
Theorem redirect_undo_restores X d d1 d2 (fs0 : Fs.FS) (w : World T)
    (cmd : CommandId) (rec : CommandRecord) (targets : list Redirect.RedirectTarget)
    (cs : list Undo.Captured) errs (apply_shell : bool) :
  inv d → List.filter (of_command cmd) (events (d_db d)) = [] →
  Forall truncates targets → Forall2 (targeted fs0) cs targets →
  handle_redirects host fs0 d (session cmd) (seq cmd) targets = (d1, (length targets, errs)) →
  reaches host blake3 filter kernel_tier parse_uuid path_ord cwd_ord cmd_ord blob_ord stash_ord d1 X d2 →
  (∀ c, c ∈ cs → Undo.cp_blob c ∉ X) →
  List.filter (of_command cmd) (events (d_db d2)) = List.filter (of_command cmd) (events (d_db d1)) →
  list_recent_commands cmd_ord (d_db d2) 1 = [rec] → c_command rec = cmd → Plan.refuse_plan rec = None →
  FileFacts.wf (w_fs w) → NoDup (Undo.cp_path <$> cs) → (∀ c, c ∈ cs → stashable (w_fs w) c) →
  ∃ r fs', request d2 (mkUndo 1 false ConflictPolicyWire.Abort [] apply_shell) w
      = (inl r, mkWorld fs' (w_queues w) (w_tiers w))
    ∧ commands_attempted r = 1%N ∧ clean r
    ∧ (∀ c, c ∈ cs → Fs.view fs' (Undo.cp_path c) = Some (Undo.cp_node c))
    ∧ (∀ q, q ∉ Undo.cp_path <$> cs → Fs.view fs' q = Fs.view (w_fs w) q).
Proof.
  intros Hi Hempty Htr Htg Hst Hre HX Hsame Hrec Hcmd Hrf Hwf Hnd Hall.
  pose proof (handle_redirects_inv host fs0 d (session cmd) (seq cmd) targets Hi) as Hi1.
  rewrite Hst in Hi1. apply reaches_inv in Hre as Hi2; [|done].
  unfold handle_redirects in Hst. replace (mkCommandId (session cmd) (seq cmd)) with cmd in Hst by by destruct cmd.
  apply stash_all_journal in Hst as (evs & Hj & Hev); [|done|done].
  assert (cmd_journal cmd (d_db d2) = evs) as Hj2.
  { unfold cmd_journal in *. rewrite Hsame, Hj, Hempty. done. }
  assert (Forall2 (Edits.edit_event (Fs.device fs0) (λ _, None)) cs evs) as Hed
    by (eapply stashed_edits; eauto).
  eapply undo_edits_request; [done|done|by rewrite Hcmd, Hj2|done..|]. intros c Hin. by apply Hall.
Qed.

End EndToEnd.

End RedirectUndo.
