(* ===== verification/ShimUndo.v ===== *)
(** * Removals seen by the preload shim, and undone

    The interposed [unlink] of a program, the notification it sends, the
    daemon that journals it after the call was let through, and the undo
    request, composed: the files come back. With it the facts on the shim's
    own decisions: the prefix matcher, the environment of children, and what
    a rename and an [open] tell the daemon. *)

From S2P Require Import Prelude Paths Base Events Inverse Probe Classify Network Plan PlanFacts PlanForward.
From S2P Require Import Executor Env Orchestrator Fs FileExec FileFacts Undo Edits Removals Frame Redirect.
From S2P Require Import Text Tables Index Blobs Gc StoreFacts StoreRuns GcFacts StorePlan Active Baseline.
From S2P Require Import WatchReady Daemon HelperEvents Shim UndoCtl DaemonFacts UndoSteps DaemonRuns.

Module ShimUndo.
Import Index StoreFacts StorePlan Daemon ShimEvents Shim UndoCtl DaemonFacts UndoSteps DaemonRuns.

(** ** Prefixes and environments *)

Section Gate.
Import ShimGate.

Lemma strip_prefix_spec (lit s rest : string) : Redirect.strip_prefix lit s = Some rest ↔ s = lit +:+ rest.
Proof.
  revert s. induction lit as [|a lit IH]; intros s; simpl; [naive_solver|].
  destruct s as [|b s]; [done|]. case_bool_decide as Hab; [subst; rewrite IH; rewrite string_cons_app; naive_solver|].
  rewrite string_cons_app. naive_solver.
Qed.

Lemma starts_spec (s lit : string) : Redirect.starts s lit = true ↔ ∃ rest, s = lit +:+ rest.
Proof.
  unfold Redirect.starts. rewrite bool_decide_eq_true. split.
  - intros [rest Hr]. exists rest. by apply strip_prefix_spec.
  - intros [rest Hr]. exists rest. by apply strip_prefix_spec.
Qed.

Lemma get_after (p r : string) : String.get (String.length p) (p +:+ r) = String.get 0 r.
Proof. by induction p as [|c p IH]. Qed.

Lemma length_app_str (a b : string) : String.length (a +:+ b) = String.length a + String.length b.
Proof. induction a as [|c a IH]; [done|]. rewrite string_cons_app. simpl. by rewrite IH. Qed.

(** A hit is the prefix itself or something below it. *)
Lemma prefix_hit_spec (s p : string) :
  prefix_hit s p = true ↔ s = p ∨ ∃ rest, s = p +:+ String "/" rest.
Proof.
  unfold prefix_hit. rewrite orb_true_iff, !andb_true_iff, !bool_decide_eq_true, starts_spec. split.
  - intros [->|[[_ Hg] [rest ->]]]; [by left|]. right. rewrite get_after in Hg.
    destruct rest as [|c rest]; [done|]. injection Hg as ->. by exists rest.
  - intros [->|[rest ->]]; [by left|]. right. split; [|by eexists]. rewrite get_after, length_app_str. simpl. split; [lia|done].
Qed.

Definition usable_root (root : string) : Prop :=
  Redirect.starts root "/" = true ∧ root ≠ "/" ∧ trim_end_slashes root ≠ "".

Lemma elem_of_prefix_step (prefixes : list string) (root p : string) :
  p ∈ prefix_step prefixes root ↔ p ∈ prefixes ∨ (usable_root root ∧ p = trim_end_slashes root).
Proof.
  unfold prefix_step, usable_root. destruct (Redirect.starts root "/"); cbn [negb orb]; [|naive_solver].
  case_bool_decide as H1; [naive_solver|]. case_bool_decide as H2; cbn [orb]; [naive_solver|].
  case_bool_decide as H3; [naive_solver|]. rewrite elem_of_app, list_elem_of_singleton. naive_solver.
Qed.

Lemma elem_of_prefix_set (roots : list string) (p : string) :
  p ∈ prefix_set roots ↔ ∃ root, root ∈ roots ∧ usable_root root ∧ p = trim_end_slashes root.
Proof.
  unfold prefix_set. assert (Hg : ∀ acc, p ∈ foldl prefix_step acc roots ↔
    p ∈ acc ∨ ∃ root, root ∈ roots ∧ usable_root root ∧ p = trim_end_slashes root).
  { induction roots as [|r roots IH]; intros acc; simpl; [set_solver|].
    rewrite IH, elem_of_prefix_step. set_solver. }
  rewrite Hg. set_solver.
Qed.

(** The matcher holds a path exactly when it is one of the configured roots or
    lies below one, at a component boundary; relative roots and the root
    directory are ignored, trailing slashes make no difference. *)
Theorem prefix_match_exact (roots : list string) (s : string) :
  matches_str (prefix_set roots) s = true ↔
  Redirect.starts s "/" = true
  ∧ ∃ root, root ∈ roots ∧ usable_root root
      ∧ (s = trim_end_slashes root ∨ ∃ rest, s = trim_end_slashes root +:+ String "/" rest).
Proof.
  unfold matches_str. rewrite andb_true_iff, existsb_exists. split; intros [Hs H]; (split; [done|]).
  - destruct H as (p & Hp%list_elem_of_In & Hh%prefix_hit_spec).
    apply elem_of_prefix_set in Hp as (root & Hr & Hu & ->). by exists root.
  - destruct H as (root & Hr & Hu & Hh). exists (trim_end_slashes root).
    rewrite prefix_hit_spec, <- list_elem_of_In, elem_of_prefix_set. eauto 10.
Qed.

Lemma getenv_stripped (env : Environ) (name : string) :
  name ∈ stripped_env_names → getenv (strip_for_child_env env) name = None.
Proof.
  intros Hn. unfold getenv, strip_for_child_env. induction env as [|[k v] env IH]; [done|]. simpl.
  case_bool_decide as Hk; simpl; [done|]. rewrite bool_decide_eq_false_2 by congruence. exact IH.
Qed.

(** A child started with the stripped environment captures nothing, and every
    other variable reaches it unchanged. *)
Theorem stripped_child_inert (env : Environ) :
  (∀ prefixes path, should_capture (strip_for_child_env env) prefixes path = false)
  ∧ ∀ name, name ∉ stripped_env_names → getenv (strip_for_child_env env) name = getenv env name.
Proof.
  split.
  - intros prefixes path. unfold should_capture, is_active. rewrite getenv_stripped by (apply (bool_decide_unpack _); vm_compute; exact I).
    done.
  - intros name Hn. unfold getenv, strip_for_child_env. induction env as [|[k v] env IH]; [done|]. simpl.
    case_bool_decide as Hk; simpl; [rewrite bool_decide_eq_false_2 by congruence; exact IH|].
    case_bool_decide; [done|exact IH].
Qed.

End Gate.

(** ** What an interposed removal sends *)

Section Note.
Context {E : Type} (to_allocvec : ShimNotification → Frame.frame_bytes + E).

Lemma try_notify_sent (sys : ShimSys) call arg pre ext f (note : ShimNotification) :
  try_notify to_allocvec sys call arg pre ext f = Some note →
  note = mkNote (sy_pid sys) call arg (sy_now sys) pre ext f.
Proof. unfold try_notify. repeat case_match; congruence. Qed.

(** The name the call gives the file by, as the process resolves it. *)
Definition removes_name (sys : ShimSys) (c : Call) (s : string) : Prop :=
  c = Call.Unlink s
  ∨ ∃ dirfd path, c = Call.Unlinkat dirfd path ∧ join_at_path sys dirfd path = s
      ∧ (Redirect.starts s "/" = true ∨ dirfd = AT_FDCWD).

Definition stat_of (dev : N) (r : Undo.Captured) : Stat :=
  let n := Undo.cp_node r in
  mkStat (Fs.in_kind n) dev (Undo.cp_ino r) (N.lor (Fs.kind_bits (Fs.in_kind n)) (Fs.in_mode n))
    (Fs.in_uid n) (Fs.in_gid n) (N.of_nat (length (Fs.in_data n))) (Fs.in_mtime n).

(** The process sees the file under the name it uses and under its canonical one. *)
Record shows (sys : ShimSys) (dev : N) (r : Undo.Captured) (s abs : string) : Prop := {
  sh_canonical : sy_canonicalize sys s = inl abs;
  sh_path : path_of_string abs = Undo.cp_path r;
  sh_stat x : x = s ∨ x = abs → sy_lstat sys x = Some (stat_of dev r);
  sh_read x : x = s ∨ x = abs → sy_read sys x = Some (Fs.in_data (Undo.cp_node r));
}.

Definition pre_of (dev : N) (r : Undo.Captured) (abs : string) : ShimPreImage :=
  let m := stat_of dev r in
  mkShimPre abs (st_dev m) (st_ino m) (st_mode m) (st_uid m) (st_gid m) (st_size m) (st_mtime_nanos m)
    (Fs.in_data (Undo.cp_node r)) None 0.

Lemma capture_shown (sys : ShimSys) dev r s abs x resolved :
  shows sys dev r s abs → (x = s ∧ resolved = false) ∨ (x = abs ∧ resolved = true) →
  capture_pre_image_resolved sys x resolved = None
  ∨ capture_pre_image_resolved sys x resolved = Some (pre_of dev r abs).
Proof.
  intros [Hc _ Hs Hr] Hx. unfold capture_pre_image_resolved. rewrite Hs by tauto. destruct (negb _); [by left|].
  case_bool_decide; [by left|]. rewrite Hr by tauto. right. unfold pre_of.
  destruct Hx as [[-> ->]|[-> ->]]; [by rewrite Hc|done].
Qed.

(** The note of a removal names the file by its canonical path and carries
    what it holds, or it carries nothing. *)
Lemma removal_note (sys : ShimSys) dev r (c : Call) s abs note :
  removes_name sys c s → shows sys dev r s abs → interpose to_allocvec sys false false c = Some note →
  one_of (sn_syscall note) unlink_syscalls = true ∧ sn_failure note = None
  ∧ (sn_pre_image note = None ∨ (sn_pre_image note = Some (pre_of dev r abs) ∧ sn_arg note = abs)).
Proof.
  intros Hn Hs.
  destruct Hn as [->|(dirfd & path & -> & Hj & Hd)]; simpl; intros Hi.
  - unfold unlink, notify_pre_mutation_with_content, notify_inner, notify_inner_with_failure in Hi.
    destruct (should_skip_path s); [done|]. cbn [orb] in Hi. apply try_notify_sent in Hi as ->. cbn. split_and!; [done..|].
    destruct (capture_shown sys dev r s abs s false Hs ltac:(tauto)) as [->| ->]; [by left|].
    right. by rewrite bool_decide_eq_true_2.
  - unfold unlinkat, notify_pre_mutation_with_content_at, resolve_at_for_notify in Hi. rewrite Hj in Hi.
    assert (negb (Redirect.starts s "/") && negb (bool_decide (dirfd = AT_FDCWD)) = false) as Hz.
    { destruct Hd as [-> | ->]; [done|]. by rewrite andb_comm. }
    rewrite Hz in Hi. unfold canonical_path in Hi. rewrite (sh_canonical _ _ _ _ _ Hs) in Hi.
    unfold notify_inner_with_failure in Hi. destruct (should_skip_path abs); [done|]. cbn [orb] in Hi.
    apply try_notify_sent in Hi as ->. cbn. split_and!; [done..|].
    destruct (capture_shown sys dev r s abs abs true Hs ltac:(tauto)) as [->| ->]; [by left|].
    right. by rewrite bool_decide_eq_true_2.
Qed.

End Note.

(** ** What a rename and an open send *)

Section OtherNotes.
Context {E : Type} (to_allocvec : ShimNotification → Frame.frame_bytes + E).

Lemma no_tab_no_split (c : Ascii.ascii) (s : string) :
  c ∉ String.list_ascii_of_string s → split_once c s = None.
Proof.
  induction s as [|x s IH]; simpl; [done|]. intros [Hx Hs]%not_elem_of_cons.
  by rewrite bool_decide_eq_false_2, (IH Hs) by done.
Qed.

(** A rename over an existing regular file that is named by its canonical path
    loses its source: the note names the destination alone, and the daemon
    makes no rename of it. *)
Theorem rename_over_file_forgotten (sys : ShimSys) (from to : string) (pre : ShimPreImage) (note : ShimNotification) inode_of :
  sy_canonicalize sys from = inl from → sy_canonicalize sys to = inl to → from ≠ to →
  "009"%char ∉ String.list_ascii_of_string to → capture_pre_image sys to = Some pre →
  interpose to_allocvec sys false false (Call.Rename from to) = Some note →
  sn_pre_image note = Some pre ∧ sn_arg note = to
  ∧ classify_tree_op inode_of (sn_syscall note) (sn_arg note) = None.
Proof.
  intros Hf Ht Hne Htab Hpre. cbn [interpose]. unfold rename, notify_rename_with_dst_preimage, canonicalize_or_raw, canonical_path.
  rewrite Hf, Ht, bool_decide_eq_false_2 by done. unfold notify_rename_inner_with_recursive. cbn [orb].
  rewrite Hpre. assert (sp_path pre = to) as Hp.
  { unfold capture_pre_image, capture_pre_image_resolved in Hpre. rewrite Ht in Hpre.
    repeat case_match; simplify_eq; done. }
  rewrite Hp, bool_decide_eq_true_2 by done. intros ->%(try_notify_sent to_allocvec). split_and!; [done..|].
  cbn [sn_syscall sn_arg]. unfold classify_tree_op. by rewrite no_tab_no_split.
Qed.

(** An existing file the shim reads nothing of (a symbolic link, a special
    file, one too large) is journaled as new when it is opened for writing,
    outside the watched directories. *)
Theorem opened_file_journaled_as_new {P : Type} `{!Postcard P} `{!Blobs.BlobCodec} (sys : ShimSys) (path : string)
    (flags : N) (m : Stat) (note : ShimNotification) inode_of xattrs_at (d : Daemon P) (cmd : CommandId) ts :
  sy_lstat sys path = Some m → st_kind m ≠ FileKind.Regular ∨ (SHIM_INLINE_PREIMAGE_CAP < st_size m)%N →
  writes flags = true → is_absolute (path_of_string path) = true →
  Baseline.path_in_watched_subtree (d_baseline d) (path_of_string path) = false →
  interpose to_allocvec sys false false (Call.Open path flags) = Some note →
  ingest_notification inode_of xattrs_at d note (Some cmd) ts =
  journal d (new_event cmd ts (CaptureEventKind.TreeOp (TreeOp.Create sentinel (path_of_string path) FileKind.Regular 420))).
Proof.
  intros Hs Hk Hw Ha Hb. cbn [interpose]. unfold open. rewrite Hw. unfold notify_pre_mutation_with_content.
  destruct (should_skip_path path); [done|]. unfold notify_inner, notify_inner_with_failure. cbn [orb].
  assert (capture_pre_image_resolved sys path false = None) as ->.
  { unfold capture_pre_image_resolved. rewrite Hs. destruct Hk as [Hk|Hk].
    - by rewrite (bool_decide_eq_false_2 _ Hk).
    - destruct (negb _); [done|]. by rewrite bool_decide_eq_true_2. }
  intros ->%(try_notify_sent to_allocvec). cbn. unfold ingest_content. cbn [sn_arg sn_pre_image]. by rewrite Hb, Ha.
Qed.

End OtherNotes.

(** ** What the daemon journals of it *)

Section Journal.
Context {P : Type} `{!Postcard P} `{!PostcardLaws P} `{!Blobs.BlobCodec} `{!Blobs.BlobCodecLaws} {X : gset BlobHash}.
Implicit Types d : Daemon P.

Lemma journal_grows d (ev : CaptureEvent) :
  cmd_journal (e_command ev) (d_db (journal d ev)) = cmd_journal (e_command ev) (d_db d)
  ∨ ∃ id, cmd_journal (e_command ev) (d_db (journal d ev)) = cmd_journal (e_command ev) (d_db d) ++ [with_id id ev].
Proof.
  unfold journal. destruct (put_event (d_db d) ev) as [[db' id]|] eqn:Hp; [|by left].
  right. by apply put_event_journal in Hp.
Qed.

Lemma ingest_pre_grows xattrs_at d (cmd : CommandId) (pre : ShimPreImage) ts :
  inv_but X d →
  let d' := ingest_pre_image xattrs_at d cmd ts pre in
  cmd_journal cmd (d_db d') = cmd_journal cmd (d_db d)
  ∨ ∃ e, cmd_journal cmd (d_db d') = cmd_journal cmd (d_db d) ++ [e] ∧ e_partial e = false
      ∧ e_kind e = CaptureEventKind.FilePreImage (mkInode (sp_dev pre) (sp_inode pre)) (path_of_string (sp_path pre))
          (Blobs.hash_bytes (sp_bytes pre)) (shim_meta xattrs_at pre) None FilePreImageSource.Other.
Proof.
  intros Hi. cbn zeta. unfold ingest_pre_image, ingest_pre_image_with_source.
  destruct (Blobs.put _ _) as [[fs' [h st]]|] eqn:Hp; [|by left].
  destruct (put_files_inv _ _ _ _ _ Hp Hi) as (_ & _ & ->).
  match goal with |- context [journal ?d0 ?ev] => destruct (journal_grows d0 ev) as [Hj|[id Hj]] end;
    cbn [new_event e_command] in Hj; rewrite Hj; cbn [set_db d_db];
    unfold cmd_journal; rewrite put_blob_record_events; [by left|right]. by eexists.
Qed.

(** Both halves of a removal were journaled when the journal is longer by two. *)
Lemma removal_journaled inode_of xattrs_at d (cmd : CommandId) (note : ShimNotification) ts dev (r : Undo.Captured) abs :
  inv_but X d → one_of (sn_syscall note) unlink_syscalls = true → sn_failure note = None →
  (sn_pre_image note = None ∨ (sn_pre_image note = Some (pre_of dev r abs) ∧ sn_arg note = abs)) →
  path_of_string abs = Undo.cp_path r → Undo.cp_blob r = Blobs.hash_bytes (Fs.in_data (Undo.cp_node r)) →
  xattrs_at abs = Fs.in_xattrs (Undo.cp_node r) → Fs.in_flags (Undo.cp_node r) = 0%N →
  let d' := ingest_notification inode_of xattrs_at d note (Some cmd) ts in
  length (cmd_journal cmd (d_db d')) = length (cmd_journal cmd (d_db d)) + 2 →
  ∃ e1 e2, cmd_journal cmd (d_db d') = cmd_journal cmd (d_db d) ++ [e1; e2]
    ∧ Removals.pre_event dev r e1 ∧ Removals.unlink_event dev r e2.
Proof.
  intros Hi Hu Hf Hpre Hpath Hb Hx Hfl. cbn zeta. unfold ingest_notification. rewrite Hf. cbn [ingest_failure].
  assert (Hc : (sn_syscall note = "unlink" ∨ sn_syscall note = "unlinkat")).
  { unfold one_of, unlink_syscalls in Hu. simpl in Hu. rewrite orb_false_r in Hu.
    by apply orb_prop in Hu as [?%bool_decide_eq_true|?%bool_decide_eq_true]; [left|right]. }
  assert (one_of (sn_syscall note) metadata_syscalls = false ∧ one_of (sn_syscall note) content_syscalls = false
    ∧ one_of (sn_syscall note) rename_syscalls = false ∧ one_of (sn_syscall note) ["link"; "linkat"; "mkdir"; "mkdirat"] = false)
    as (-> & -> & Hr & Hl) by (by destruct Hc as [-> | ->]).
  unfold ingest_tree. rewrite Hr, Hu, Hl. unfold classify_tree_op. rewrite Hu. cbn [is_relative_create andb].
  unfold ingest_attached. set (kind := CaptureEventKind.TreeOp _).
  destruct Hpre as [-> | [-> Harg]].
  { destruct (journal_grows d (new_event cmd ts kind)) as [Hj|[id Hj]]; cbn [new_event e_command] in Hj;
      rewrite Hj, ?length_app; simpl; lia. }
  destruct (ingest_pre_grows xattrs_at d cmd (pre_of dev r abs) ts Hi) as [H1|(e1 & H1 & Hp1 & Hk1)];
    set (d1 := ingest_pre_image _ _ _ _ _) in *;
    destruct (journal_grows d1 (new_event cmd ts kind)) as [Hj|[id Hj]]; cbn [new_event e_command] in Hj;
    rewrite Hj, ?H1, ?length_app; try (simpl; lia).
  intros _. rewrite <- app_assoc. eexists _, _. split; [done|]. split.
  - split; [done|]. exists FilePreImageSource.Other. split; [done|]. rewrite Hk1, Hb. cbn [pre_of sp_path sp_bytes].
    rewrite Hpath. f_equal. unfold shim_meta, Undo.captured_meta. cbn. by rewrite Hx, Hfl.
  - split; [done|]. exists sentinel, FileKind.Regular, 33188%N. split; [by right|]. cbn. unfold kind.
    by rewrite Harg, Hpath.
Qed.

End Journal.

(** ** The whole way *)

Section EndToEnd.
Context {P : Type} `{!Postcard P} `{!PostcardLaws P} `{!Blobs.BlobCodec} `{!Blobs.BlobCodecLaws} {T E : Type}.
Context (to_allocvec : ShimNotification → Frame.frame_bytes + E).
Context (host : Host) (blake3 : string → list N) (filter : Env.EnvFilter) (kernel_tier : string).
Context (parse_uuid : string → option Uuid).
Context (path_ord : HashOrder PathBuf InodeRef)
        (cwd_ord : HashOrder PathBuf Baseline.BaselineCacheEntry)
        (cmd_ord : HashOrder CommandId CommandRow) (blob_ord : HashOrder BlobHash BlobRow)
        (stash_ord : HashOrder BlobHash StashRow).
Context (syn : Network.NetSynth) (ord : HashOrder InodeRef (gset PathBuf)).
Context (router : FileExec.PrivilegedOpRouter) (may_chown : Fs.FS → PathBuf → N → N → bool)
        (tmp_name : string) (os : FileExec.Os) (tiers : Tiers T) (state_home : bool).
Context (globset : list string → (PathBuf → bool) + Msg).
(** Blobs that may be lost. *)
Context (X : gset BlobHash).
Implicit Types d : Daemon P.

Abbreviation runs_on :=
  (runs_losing host blake3 filter kernel_tier parse_uuid path_ord cwd_ord cmd_ord blob_ord stash_ord X).
Abbreviation same_journal cmd d d' := (cmd_journal cmd (d_db d') = cmd_journal cmd (d_db d)).

(** The processes of a command remove files one after the other, each call
    held until the daemon has received its notification; the daemon, on Linux,
    journals it when it gets to it, both events taken by the index (so the
    shim sent what the file held, which it does of files of up to 32 MiB it
    can read), and does anything else in between. *)
Inductive shim_removals (cmd : CommandId) d (fs : Fs.FS) : list Undo.Captured → Daemon P → Fs.FS → Prop :=
  | shim_removals_none : shim_removals cmd d fs [] d fs
  | shim_removals_other rs d1 d2 fs1 :
      shim_removals cmd d fs rs d1 fs1 → runs_on d1 d2 → same_journal cmd d1 d2 →
      shim_removals cmd d fs rs d2 fs1
  | shim_removals_call rs d1 d2 d3 fs1 fs2 sys c s abs (r : Undo.Captured) note parent_pid inode_of ts :
      shim_removals cmd d fs rs d1 fs1 →
      removes_name sys c s → shows sys (Fs.device fs1) r s abs →
      interpose to_allocvec sys false false c = Some note →
      receive host parent_pid d1 note = (d2, (Some cmd, ts)) →
      Fs.remove_file fs1 (Undo.cp_path r) = inl fs2 →
      runs_on d2 d3 → same_journal cmd d2 d3 →
      let d4 := ingest_notification inode_of linux_read_all_user_xattrs d3 note (Some cmd) ts in
      length (cmd_journal cmd (d_db d4)) = length (cmd_journal cmd (d_db d3)) + 2 →
      shim_removals cmd d fs (rs ++ [r]) d4 fs2.

(** A file whose removal can be undone: a regular one with no flags, of which
    the store has no other content under the same hash. *)
Definition rm_undoable (fs : Fs.FS) (r : Undo.Captured) : Prop :=
  Removals.removable tmp_name fs r ∧ restorable_file may_chown os r
  ∧ Undo.cp_blob r = Blobs.hash_bytes (Fs.in_data (Undo.cp_node r)) ∧ Fs.in_flags (Undo.cp_node r) = 0%N.

(** The daemon reads no extended attributes on Linux, so the file has none. *)
Definition shim_undoable (fs : Fs.FS) (r : Undo.Captured) : Prop :=
  rm_undoable fs r ∧ Fs.in_xattrs (Undo.cp_node r) = ∅.

Lemma shim_removals_journal (cmd : CommandId) d d' (fs fs' : Fs.FS) (rs : list Undo.Captured) :
  inv_but X d → FileFacts.wf fs → cmd_journal cmd (d_db d) = [] → (∀ r, r ∈ rs → shim_undoable fs r) →
  shim_removals cmd d fs rs d' fs' →
  inv_but X d' ∧ Removals.removals fs rs fs' ∧ Removals.removal_events (Fs.device fs) rs (cmd_journal cmd (d_db d')).
Proof.
  intros Hi Hwf He Hok.
  induction 1 as [|rs d1 d2 fs1 _ IH Hr Hs|rs d1 d2 d3 fs1 fs2 sys c s abs r note pp ino ts _ IH Hn Hsh Hc Hrc Hrm Hr Hs d4 Hlen].
  - split_and!; [done|constructor|]. rewrite He. constructor.
  - destruct (IH Hok) as (H1 & H2 & H3). split_and!; [by eapply runs_losing_inv|done|by rewrite Hs].
  - destruct IH as (H1 & H2 & H3); [intros; apply Hok; set_solver|].
    destruct (Removals.removals_spec fs fs1 rs Hwf H2) as (_ & Hdev & _). rewrite Hdev in Hsh.
    assert (inv_but X d2 ∧ cmd_journal cmd (d_db d2) = cmd_journal cmd (d_db d1)) as [Hi2 Hj2].
    { unfold receive, next_ts in Hrc. injection Hrc as <- _ _. split; [by apply (inv_ext d1)|done]. }
    assert (inv_but X d3) as Hi3 by (by eapply runs_losing_inv).
    destruct (Hok r) as [(_ & _ & Hb & Hfl) Hx]; [set_solver|]. symmetry in Hx.
    destruct (removal_note to_allocvec sys (Fs.device fs) r c s abs note Hn Hsh Hc) as (Hu & Hf & Hpre).
    destruct (removal_journaled ino linux_read_all_user_xattrs d3 cmd note ts (Fs.device fs) r abs Hi3 Hu Hf Hpre (sh_path _ _ _ _ _ Hsh) Hb Hx Hfl Hlen)
      as (e1 & e2 & Hj & He1 & He2).
    split_and!; [by apply ingest_notification_inv|by econstructor|]. unfold d4. rewrite Hj, Hs, Hj2. by constructor.
Qed.

(** Undoing a command whose journal is of removals. *)
Lemma undo_removal_step d (rec : CommandRecord) (rs : list Undo.Captured) apply_shell (w : World T) (fs : Fs.FS) :
  inv_but X d → Plan.refuse_plan rec = None → FileFacts.wf fs → Removals.removals fs rs (w_fs w) →
  Removals.removal_events (Fs.device fs) rs (cmd_journal (c_command rec) (d_db d)) →
  (∀ r, r ∈ rs → Undo.cp_blob r ∉ X) → (∀ r, r ∈ rs → rm_undoable fs r) → NoDup (Undo.cp_path <$> rs) → NoDup (Undo.cp_ino <$> rs) →
  ∃ rep fs', undo_command syn ord router may_chown tmp_name os tiers state_home d None false
      Executor.ConflictPolicy.Abort apply_shell rec w = (rep, with_fs w fs')
    ∧ Undo.all_applied (Executor.records rep) = true ∧ ∀ q, Fs.view fs' q = Fs.view fs q.
Proof.
  intros Hi Hrf Hwf Hrm Hev%Removals.removal_events_journal HX Hok Hnp Hni.
  assert (Hall : ∀ r, r ∈ rs → Removals.removable tmp_name fs r
    ∧ Undo.recoverable (index_store (d_db d)) (blob_reader (d_files d)) may_chown os r).
  { intros r Hr. destruct (Hok r Hr) as (H1 & H2 & _). split; [done|].
    destruct (Removals.removal_journal_pre _ _ _ _ Hev Hr) as (e & He & _ & src & _ & Hk).
    eapply journal_recoverable; [done|by apply HX|exact He|by rewrite Hk|done]. }
  pose proof (sorted_journal_chronological X d (c_command rec) Hi) as Hc.
  destruct (Removals.removal_journal_perm _ _ _ (Probe.sort_events (cmd_journal (c_command rec) (d_db d)))
    ltac:(unfold Probe.sort_events; by rewrite sort_by_perm) Hev) as (rs' & Hpe & Hev').
  rewrite (command_undo_journal _ _ _ _ _ _ _ _ X); [|done|].
  - destruct (Removals.run_any_removals syn ord Blobs.hash_bytes (index_store (d_db d)) (blob_reader (d_files d)) router
      may_chown tmp_name os rec _ rs rs' fs (w_fs w) Hwf Hrm Hall Hnp Hni Hpe Hrf Hc Hev')
      as (recs & fs2 & -> & Ha & _ & Hv). by eexists _, fs2.
  - eapply restores_files, Removals.plan_removals; [done..|by rewrite <- Hpe|]. intros r Hr. rewrite <- Hpe in Hr.
    by eapply (Removals.removed_unplanned (index_store (d_db d)) (blob_reader (d_files d)) may_chown tmp_name os fs (w_fs w) rs r).
Qed.

Abbreviation request := (handle_undo syn ord cmd_ord router may_chown tmp_name os tiers state_home globset).

(** The request, when what is journaled of the last command are removals. *)
Lemma undo_removals_request d (rec : CommandRecord) (rs : list Undo.Captured) apply_shell (w : World T) (fs : Fs.FS) :
  inv_but X d → FileFacts.wf fs → Removals.removals fs rs (w_fs w) →
  Removals.removal_events (Fs.device fs) rs (cmd_journal (c_command rec) (d_db d)) →
  (∀ r, r ∈ rs → Undo.cp_blob r ∉ X) → (∀ r, r ∈ rs → rm_undoable fs r) → NoDup (Undo.cp_path <$> rs) → NoDup (Undo.cp_ino <$> rs) →
  list_recent_commands cmd_ord (d_db d) 1 = [rec] → Plan.refuse_plan rec = None →
  ∃ r fs', request d (mkUndo 1 false ConflictPolicyWire.Abort [] apply_shell) w
      = (inl r, mkWorld fs' (w_queues w) (w_tiers w))
    ∧ commands_attempted r = 1%N ∧ clean r ∧ ∀ q, Fs.view fs' q = Fs.view fs q.
Proof.
  intros Hi Hwf Hrm Hev HX Hok Hnp Hni Hrec Hrf.
  unfold handle_undo. simpl. change (N.max 1 1) with 1%N. rewrite Hrec. set (req := mkUndo _ _ _ _ _).
  cbn [undo_commands]. cbn [req ur_dry_run ur_on_conflict ur_apply_shell_state policy_of].
  destruct (undo_removal_step d rec rs apply_shell w fs Hi Hrf Hwf Hrm Hev HX Hok Hnp Hni) as (rep & fs' & -> & Ha & Hv).
  destruct (tally_applied rec (Executor.records rep) (attempted (mkUndoReport 0 0 0 0 0 0 false [] [])) Ha) as [Hc Hn];
    [done|]. eexists _, fs'. by split_and!.
Qed.

(** C3. Removed through the shim, brought back by undo, on Linux. Programs of a
    command remove any number of regular files of up to 32 MiB, without
    extended attributes or flags, by [unlink] or [unlinkat], under any name
    (relative to the working directory or absolute); the shim sends what each
    held before the call goes through, and the daemon journals both the
    content and the removal afterwards, with anything else happening in
    between that adds nothing to the command's journal and loses none of these
    files' bytes. Then undoing the command, when it is the last that
    completed, brings every file back with its content, mode, owner and times,
    reports nothing skipped, failed, in conflict or refused, and every name
    of the file system shows what it showed before the command. *)
Theorem shim_rm_undo_restores d d' (fs : Fs.FS) (w : World T) (cmd : CommandId) (rec : CommandRecord)
    (rs : list Undo.Captured) (apply_shell : bool) :
  inv d → FileFacts.wf fs → cmd_journal cmd (d_db d) = [] →
  shim_removals cmd d fs rs d' (w_fs w) →
  (∀ r, r ∈ rs → Undo.cp_blob r ∉ X) → (∀ r, r ∈ rs → shim_undoable fs r) → NoDup (Undo.cp_path <$> rs) → NoDup (Undo.cp_ino <$> rs) →
  list_recent_commands cmd_ord (d_db d') 1 = [rec] → c_command rec = cmd → Plan.refuse_plan rec = None →
  ∃ r fs', request d' (mkUndo 1 false ConflictPolicyWire.Abort [] apply_shell) w
      = (inl r, mkWorld fs' (w_queues w) (w_tiers w))
    ∧ commands_attempted r = 1%N ∧ clean r ∧ ∀ q, Fs.view fs' q = Fs.view fs q.
Proof.
  intros Hi Hwf He Hrun HX Hok Hnp Hni Hrec <- Hrf. apply (inv_but_mono ∅ X) in Hi; [|set_solver].
  destruct (shim_removals_journal _ _ _ _ _ _ Hi Hwf He Hok Hrun) as (Hi' & Hrm & Hev).
  eapply undo_removals_request; try done. intros r Hr. by apply Hok.
Qed.

End EndToEnd.

End ShimUndo.
