(* ===== verification/CaptureUndo.v ===== *)
(** * Removals and writes seen by the kernel's hooks, and undone

    The helper that watches a directory, the security hook that reports each
    removal or open for writing, the message to the daemon, the journal and the undo request,
    composed: the files come back. With it, that the daemon accepts the bytes
    of every message the helper sends. *)

From S2P Require Import Prelude Paths Base Events Inverse Probe Classify Network Plan PlanFacts PlanForward.
From S2P Require Import Executor Env Orchestrator Fs FileExec FileFacts Undo Edits Removals Frame Redirect.
From S2P Require Import Text Tables Index Blobs Gc StoreFacts StoreRuns GcFacts StorePlan Active Baseline.
From S2P Require Import WatchReady Daemon HelperEvents LinuxCapture CaptureFacts Shim UndoCtl DaemonFacts.
From S2P Require Import UndoSteps DaemonRuns RedirectUndo ShimUndo.

Module CaptureUndo.
Import Index StoreFacts StorePlan Daemon HelperEvents LinuxCapture CaptureFacts UndoCtl DaemonFacts UndoSteps.
Import DaemonRuns RedirectUndo ShimUndo.

(** ** Names *)

Lemma join_normal (par : PathBuf) (name : string) :
  normal_ok (Normal name) = true → join par name = par ++ [Normal name].
Proof.
  intros Hn. pose proof (normal_ok_no_slash _ Hn) as Hs. pose proof (normal_ok_piece _ Hn) as Hp.
  cbn [component_string] in *. unfold join, path_of_string. rewrite split_slash_no_slash by done.
  simpl in Hn. destruct name as [|c name]; [done|]. rewrite bool_decide_eq_false_2 by (intros Hd; by rewrite Hd in Hn).
  cbn [omap list_omap]. by rewrite Hp.
Qed.

Lemma absolute_last_ok (par : PathBuf) (name : string) :
  absolute_ok (par ++ [Normal name]) = true → normal_ok (Normal name) = true.
Proof.
  destruct par as [|[] par]; try done. cbn [app absolute_ok]. rewrite forallb_app, andb_true_iff.
  intros [_ Hn]. cbn [forallb] in Hn. by rewrite andb_true_r in Hn.
Qed.

(** ** What the helper reports of a removal *)

(** The event of the hook on [unlink]. *)
Record unlink_of (fs : Fs.FS) (cmd : CommandId) (r : Undo.Captured) (ev : LsmUnlinkView) : Prop := {
  uo_command : lu_command ev = cmd;
  uo_dev : kernel_dev_to_userspace (lu_dev ev) = Fs.device fs;
  uo_ino : lu_inode ev = Undo.cp_ino r;
  uo_parent : Fs.names fs !! Undo.cp_par r = Some (lu_parent_inode ev);
  uo_name : lu_basename ev = Undo.cp_name r;
  uo_file : lu_is_directory ev = false;
}.

Section Report.
Context `{!Blobs.BlobCodec}.
Implicit Types ws : WatchState.

(** What the file held, as a message says it. *)
Definition full_capture (is_delete : bool) (cmd : CommandId) (dev : N) (r : Undo.Captured) : CapturedPreImage :=
  let n := Undo.cp_node r in
  mkCapture (session cmd) (seq cmd) dev (Undo.cp_ino r) (Some (path_string (Undo.cp_path r)))
    (Blobs.hash_bytes (Fs.in_data n)) (N.of_nat (length (Fs.in_data n))) None
    (N.lor (Fs.kind_bits (Fs.in_kind n)) (Fs.in_mode n)) (Fs.in_uid n) (Fs.in_gid n) (Fs.in_mtime n)
    (Fs.in_xattrs n) is_delete 0.

(** One message at most, which carries what the file held or nothing. *)
Inductive removal_report (cmd : CommandId) (dev : N) (r : Undo.Captured) : list Sent → Prop :=
  | report_lost : removal_report cmd dev r []
  | report_marker c : cp_command c = cmd → removal_report cmd dev r [(HelperResponse.CapturedPreImage c, None)]
  | report_full : removal_report cmd dev r
      [(HelperResponse.CapturedPreImage (full_capture true cmd dev r), Some (Fs.in_data (Undo.cp_node r)))].

Lemma unlink_content_shown k fs fd (r : Undo.Captured) :
  fd_shows k fd (Fs.device fs) (Undo.cp_ino r) (Undo.cp_node r) → fd_path_only fd = false →
  (Fs.in_mode (Undo.cp_node r) < 4096)%N → Fs.in_kind (Undo.cp_node r) = FileKind.Regular →
  let n := Undo.cp_node r in
  race_won k (Fs.device fs, Undo.cp_ino r) false (Some fd) = true
  ∧ (unlink_content k fd false = (0%N, zero_hash, None, None)
     ∨ unlink_content k fd false = (N.of_nat (length (Fs.in_data n)), Blobs.hash_bytes (Fs.in_data n),
         Some (Fs.in_data n), Some (ps_meta (snapshot_of n)))).
Proof.
  intros Hs Hp Hm Hr. cbn zeta. pose proof Hs as [(st & Hst & Hraw) Hrd _].
  assert (fstat_dev_inode_kind k fd = Some (Fs.device fs, Undo.cp_ino r, FileType.Regular)) as Hkd.
  { unfold fstat_dev_inode_kind. rewrite Hst. cbn. destruct Hraw as [-> -> -> _ _ _ _].
    by rewrite file_type_of_kind, Hr. }
  unfold race_won, unlink_content. rewrite Hkd. split; [cbn; by rewrite bool_decide_eq_true_2|].
  change (default FileType.Other (snd <$> Some (Fs.device fs, Undo.cp_ino r, FileType.Regular))) with FileType.Regular.
  rewrite bool_decide_eq_false_2 by (apply (bool_decide_unpack _); vm_compute; exact I). cbn [orb].
  rewrite (fd_meta k fs fd _ _ Hs). unfold stream_copy_to_staging_path. rewrite Hst. cbn [mbind option_bind].
  case_bool_decide; [by left|]. destruct (k_read k fd) as [src|] eqn:Hsrc; [|by left]. cbn [mbind option_bind].
  rewrite stream_into_fd_spec, (Hrd src Hp eq_refl), (rw_size _ _ _ _ Hraw), Nat2N.id, firstn_all.
  destruct (k_stage k _); [by right|by left].
Qed.

Lemma unlink_reported k ws fs (cmd : CommandId) (r : Undo.Captured) (ev : LsmUnlinkView) :
  watched fs ws (Undo.cp_par r) (Undo.cp_ino r) (Undo.cp_node r) → unlink_of fs cmd r ev →
  fd_shows k (mkFd (Fs.device fs, Undo.cp_ino r) false) (Fs.device fs) (Undo.cp_ino r) (Undo.cp_node r) →
  (Fs.in_mode (Undo.cp_node r) < 4096)%N → Fs.in_kind (Undo.cp_node r) = FileKind.Regular →
  normal_ok (Normal (Undo.cp_name r)) = true →
  removal_report cmd (Fs.device fs) r (handle_lsm_unlink_on k ws ev).2
  ∧ ∀ q i n, i ≠ Undo.cp_ino r → watched fs ws q i n → watched fs (handle_lsm_unlink_on k ws ev).1 q i n.
Proof.
  intros [Ho _ Hd] [<- Hdev Hino Hpar Hnm Hfile] Hs Hm Hr Hn.
  destruct (unlink_content_shown k fs _ r Hs eq_refl Hm Hr) as [Hw Hc].
  unfold handle_lsm_unlink_on. rewrite Hdev, Hino, Hnm, Hfile. unfold resolve_via_parent. cbn [mark set_dedupe dir_paths].
  rewrite (Hd _ Hpar). cbn [mbind option_bind]. rewrite join_normal by done.
  unfold take_fd. cbn [mark set_dedupe pre_opens]. rewrite Ho, Hw.
  assert (∀ x y, removal_report (lu_command ev) (Fs.device fs) r [(x, y)] → ∀ ws0,
    removal_report (lu_command ev) (Fs.device fs) r (send k ws0 x y).2
    ∧ pre_opens (send k ws0 x y).1 = pre_opens ws0 ∧ pre_snapshots (send k ws0 x y).1 = pre_snapshots ws0
    ∧ dir_paths (send k ws0 x y).1 = dir_paths ws0) as Hsend.
  { intros x y Hx ws0. unfold send. destruct (k_sends k x); split_and!; try done. constructor. }
  assert (∀ x y ws0, removal_report (lu_command ev) (Fs.device fs) r [(x, y)] →
    pre_opens ws0 = delete (Fs.device fs, Undo.cp_ino r) (pre_opens ws) → pre_snapshots ws0 = pre_snapshots ws →
    dir_paths ws0 = dir_paths ws →
    removal_report (lu_command ev) (Fs.device fs) r (send k ws0 x y).2
    ∧ ∀ q i n, i ≠ Undo.cp_ino r → watched fs ws q i n → watched fs (send k ws0 x y).1 q i n) as Hall.
  { intros x y ws0 Hx E1 E2 E3. destruct (Hsend x y Hx ws0) as (H1 & H2 & H3 & H4). split; [done|].
    intros q i n Hne [W1 W2 W3]. split; rewrite ?H2, ?H3, ?H4, ?E1, ?E2, ?E3; try done.
    rewrite lookup_delete_ne by congruence. done. }
  destruct Hc as [-> | ->]; apply Hall; try done; [by constructor; destruct (lu_command ev)|].
  apply report_full.
Qed.

Lemma handle_unlink_on_watch k (rt : Runtime) (cmd : CommandId) (ev : LsmUnlinkView) :
  lu_command ev = cmd →
  (handle_lsm_unlink k rt ev).2 = (handle_lsm_unlink_on k (default default_watch (rt !! cmd)) ev).2
  ∧ default default_watch ((handle_lsm_unlink k rt ev).1 !! cmd)
    = (handle_lsm_unlink_on k (default default_watch (rt !! cmd)) ev).1.
Proof.
  intros <-. unfold handle_lsm_unlink, on_watch. destruct (handle_lsm_unlink_on _ _ _). cbn [fst snd].
  by rewrite lookup_insert_eq.
Qed.

(** ** What the helper reports of a write *)

(** The event of the hook on an open for writing, of a file the helper can
    still name by the descriptor it holds. *)
Record open_of (k : Kernel) (fs : Fs.FS) (cmd : CommandId) (r : Undo.Captured) (ev : LsmOpenView) : Prop := {
  oo_command : lo_command ev = cmd;
  oo_dev : kernel_dev_to_userspace (lo_dev ev) = Fs.device fs;
  oo_ino : lo_inode ev = Undo.cp_ino r;
  oo_link : k_fd_link k (mkFd (Fs.device fs, Undo.cp_ino r) false) = Some (path_string (Undo.cp_path r));
  oo_name : strip_deleted (path_string (Undo.cp_path r)) = None;
}.

(** Watched, and not captured for the command so far. *)
Definition fresh fs ws (r : Undo.Captured) : Prop :=
  watched fs ws (Undo.cp_par r) (Undo.cp_ino r) (Undo.cp_node r)
  ∧ should_capture_dedupe (dedupe ws) (Fs.device fs, Undo.cp_ino r) = true.

Lemma fresh_ext fs ws ws' (r : Undo.Captured) :
  pre_opens ws' = pre_opens ws → pre_snapshots ws' = pre_snapshots ws → dir_paths ws' = dir_paths ws →
  dedupe ws' !! (Fs.device fs, Undo.cp_ino r) = dedupe ws !! (Fs.device fs, Undo.cp_ino r) →
  fresh fs ws r → fresh fs ws' r.
Proof.
  intros E1 E2 E3 E4 [[W1 W2 W3] Hc]. unfold fresh, should_capture_dedupe. rewrite E4. split; [|exact Hc].
  split; by rewrite ?E1, ?E2, ?E3.
Qed.

Lemma send_fields k ws resp fd :
  let ws' := (send k ws resp fd).1 in
  pre_opens ws' = pre_opens ws ∧ pre_snapshots ws' = pre_snapshots ws ∧ dir_paths ws' = dir_paths ws
  ∧ dedupe ws' = dedupe ws ∧ ((send k ws resp fd).2 = [] ∨ (send k ws resp fd).2 = [(resp, fd)]).
Proof. unfold send. destruct (k_sends k resp); cbn; auto 10. Qed.

(** Nothing, or all the file held; the other files stay as they were. *)
Lemma open_reported k ws fs (cmd : CommandId) (r : Undo.Captured) (ev : LsmOpenView) :
  fresh fs ws r → open_of k fs cmd r ev → absolute_ok (Undo.cp_path r) = true →
  let res := handle_lsm_open_on k ws ev in
  (res.2 = [] ∨ res.2 = [(HelperResponse.CapturedPreImage (full_capture false cmd (Fs.device fs) r),
                          Some (Fs.in_data (Undo.cp_node r)))])
  ∧ ∀ r', Undo.cp_ino r' ≠ Undo.cp_ino r → fresh fs ws r' → fresh fs res.1 r'.
Proof.
  intros [[Wo Ws _] Hc] [<- Hdev Hino Hl Hn] Hok. cbn zeta. unfold handle_lsm_open_on. rewrite Hdev, Hino, Hc, Ws. cbn [negb].
  change (ps_bytes (snapshot_of (Undo.cp_node r))) with (Fs.in_data (Undo.cp_node r)).
  unfold write_to_staging. destruct (k_stage k _); [|by split; [left|]].
  unfold resolve_inode_to_path. rewrite Wo. cbn [mbind option_bind]. rewrite Hl, Hn. cbn [from_option]. unfold id.
  rewrite path_string_roundtrip by done. set (resp := captured_snapshot _ _ _ _ _ _).
  destruct (send_fields k ws resp (Some (Fs.in_data (Undo.cp_node r)))) as (E1 & E2 & E3 & E4 & Ho).
  destruct (send k ws resp _) as [ws' out]. cbn [fst snd] in *. split; [exact Ho|].
  intros r' Hne. apply fresh_ext; cbn; try done. rewrite lookup_insert_ne by congruence. by rewrite E4.
Qed.

Lemma handle_open_on_watch k (rt : Runtime) (cmd : CommandId) (ev : LsmOpenView) :
  lo_command ev = cmd →
  (handle_lsm_open k rt ev).2 = (handle_lsm_open_on k (default default_watch (rt !! cmd)) ev).2
  ∧ default default_watch ((handle_lsm_open k rt ev).1 !! cmd)
    = (handle_lsm_open_on k (default default_watch (rt !! cmd)) ev).1.
Proof.
  intros <-. unfold handle_lsm_open, on_watch. destruct (handle_lsm_open_on _ _ _). cbn [fst snd].
  by rewrite lookup_insert_eq.
Qed.

End Report.

(** ** What the daemon journals of it *)

Section Journal.
Context {P : Type} `{!Postcard P} `{!PostcardLaws P} `{!Blobs.BlobCodec} `{!Blobs.BlobCodecLaws} {X : gset BlobHash}.
Context (host : Host) (kernel_tier : string) (cwd_ord : HashOrder PathBuf Baseline.BaselineCacheEntry).
Implicit Types d : Daemon P.

Definition deliver (d : Daemon P) (out : list Sent) : Daemon P :=
  foldl (λ d m, dispatch_response host kernel_tier cwd_ord d m.1 m.2) d out.

Lemma deliver_inv (out : list Sent) : ∀ d, inv_but X d → inv_but X (deliver d out).
Proof. induction out as [|m out IH]; intros d Hi; [done|]. apply (IH _). by apply dispatch_response_inv. Qed.

Abbreviation grown_by cmd d d' evs := (cmd_journal cmd (d_db d') = cmd_journal cmd (d_db d) ++ evs).

Lemma put_grows d (ev : CaptureEvent) :
  grown_by (e_command ev) d (put d ev).1 []
  ∨ (put d ev).2 = inl () ∧ ∃ id, grown_by (e_command ev) d (put d ev).1 [with_id id ev].
Proof.
  unfold put. destruct (put_event (d_db d) ev) as [[db' id]|] eqn:Hp; cbn [fst snd set_db d_db];
    [|left; by rewrite app_nil_r].
  right. split; [done|]. by apply put_event_journal in Hp.
Qed.

Lemma unlink_grows d (cmd : CommandId) ts i path kind mode :
  grown_by cmd d (journal_unlink_idempotent d cmd ts i path kind mode).1 []
  ∨ ∃ id, grown_by cmd d (journal_unlink_idempotent d cmd ts i path kind mode).1
      [with_id id (new_event cmd ts (CaptureEventKind.TreeOp (TreeOp.Unlink i path kind mode)))].
Proof.
  unfold journal_unlink_idempotent. destruct (existsb _ _); [left; by rewrite app_nil_r|].
  match goal with |- context [put d ?ev] => destruct (put_grows d ev) as [Hg|[_ [id Hg]]] end;
    [by left|right; by exists id].
Qed.

(** The first half: what the file held. *)
Lemma put_pre_image d (is_delete : bool) (cmd : CommandId) dev (r : Undo.Captured) ts xs src :
  let c := full_capture is_delete cmd dev r in
  let res := put d (new_event (cp_command c) ts (CaptureEventKind.FilePreImage (cp_ref c) (path_or_empty (cp_path c))
    (Undo.cp_blob r) (capture_meta c xs) None src)) in
  is_shim_flags src = false → xs = Fs.in_xattrs (Undo.cp_node r) → Fs.in_flags (Undo.cp_node r) = 0%N →
  absolute_ok (Undo.cp_path r) = true →
  grown_by cmd d res.1 [] ∨ res.2 = inl () ∧ ∃ e, grown_by cmd d res.1 [e] ∧ Removals.pre_event dev r e.
Proof.
  cbn zeta. intros Hsrc Hx Hfl Hok. assert (cp_command (full_capture is_delete cmd dev r) = cmd) as Hc by (by destruct cmd).
  unfold path_or_empty. rewrite Hc. cbn [full_capture cp_path from_option]. unfold id. rewrite path_string_roundtrip by done.
  match goal with |- context [put d ?ev] => destruct (put_grows d ev) as [H1|[Hr [id H1]]] end; [by left|].
  right. split; [done|]. eexists. split; [exact H1|]. split; [done|]. exists src. split; [done|]. cbn. f_equal.
  unfold capture_meta, Undo.captured_meta. cbn. by rewrite Hx, Hfl.
Qed.

(** Both events are there when the journal is longer by two. *)
Lemma journal_pre_grows d d0 (cmd : CommandId) dev (r : Undo.Captured) ts xs src :
  let d' := (journal_pre_image d0 (full_capture true cmd dev r) ts (Undo.cp_blob r) xs src).1 in
  cmd_journal cmd (d_db d0) = cmd_journal cmd (d_db d) → is_shim_flags src = false → xs = Fs.in_xattrs (Undo.cp_node r) → Fs.in_flags (Undo.cp_node r) = 0%N →
  absolute_ok (Undo.cp_path r) = true →
  length (cmd_journal cmd (d_db d')) = length (cmd_journal cmd (d_db d)) + 2 →
  ∃ e1 e2, grown_by cmd d d' [e1; e2] ∧ Removals.pre_event dev r e1 ∧ Removals.unlink_event dev r e2.
Proof.
  cbn zeta. intros <- Hsrc Hx Hfl Hok. unfold journal_pre_image.
  change (cp_post_content_hash (full_capture true cmd dev r)) with (@None BlobHash).
  change (cp_is_delete (full_capture true cmd dev r)) with true.
  assert (cp_command (full_capture true cmd dev r) = cmd) as Hc by (by destruct cmd).
  destruct (put_pre_image d0 true cmd dev r ts xs src Hsrc Hx Hfl Hok) as [H1|(Hr & e1 & H1 & He1)]; rewrite Hc in *;
    destruct (put d0 _) as [d1 [[]|]]; cbn [fst snd and_then] in *; try done; try (rewrite H1, ?length_app; simpl; lia);
    match goal with |- context [journal_unlink_idempotent d1 cmd ts ?i ?p ?kd ?m] =>
      destruct (unlink_grows d1 cmd ts i p kd m) as [H2|[id2 H2]] end; rewrite H2, H1, ?length_app; try (simpl; lia).
  intros _. rewrite <- app_assoc. eexists _, _. split; [done|]. split; [done|].
  split; [done|]. eexists _, _, _. split; [by left|].
  change (path_or_empty (cp_path (full_capture true cmd dev r))) with (path_of_string (path_string (Undo.cp_path r))).
  by rewrite path_string_roundtrip.
Qed.

(** What the baseline holds of the file, if anything, is what the file holds. *)
Definition baseline_agrees d (cmd : CommandId) dev (r : Undo.Captured) : Prop :=
  ∀ blob xs, (Baseline.promote_in cwd_ord (d_baseline d) (mkInode dev (Undo.cp_ino r)) cmd).2 = Some (blob, xs) →
  blob = Undo.cp_blob r ∧ xs = Fs.in_xattrs (Undo.cp_node r).

(** A full capture is stored and then journaled, unless the store refuses it. *)
Lemma capture_stored d (is_delete : bool) (cmd : CommandId) dev (r : Undo.Captured) :
  inv_but X d → baseline_agrees d cmd dev r → Undo.cp_blob r = Blobs.hash_bytes (Fs.in_data (Undo.cp_node r)) →
  let c := full_capture is_delete cmd dev r in
  let d' := dispatch_response host kernel_tier cwd_ord d (HelperResponse.CapturedPreImage c)
    (Some (Fs.in_data (Undo.cp_node r))) in
  grown_by cmd d d' []
  ∨ ∃ d0 ts src, cmd_journal cmd (d_db d0) = cmd_journal cmd (d_db d) ∧ is_shim_flags src = false
      ∧ d' = (journal_pre_image d0 c ts (Undo.cp_blob r) (Fs.in_xattrs (Undo.cp_node r)) src).1.
Proof.
  intros Hi Hbl Hb. cbn zeta. cbn [dispatch_response]. unfold handle_capture.
  assert (cp_command (full_capture is_delete cmd dev r) = cmd) as -> by (by destruct cmd).
  change (cp_ref (full_capture is_delete cmd dev r)) with (mkInode dev (Undo.cp_ino r)).
  unfold baseline_agrees in Hbl. destruct (Baseline.promote_in _ _ _ _) as [lb [[blob xs]|]].
  - destruct (Hbl blob xs eq_refl) as [-> ->]. unfold handle_baseline_promoted_pre_image, next_ts. right.
    eexists _, _, _. split; [|split; [|reflexivity]]; done.
  - unfold handle_captured_pre_image, ingest. cbn [full_capture cp_stored_bytes cp_blob_hash].
    unfold read_all_from_fd. rewrite Nat2N.id, firstn_all. cbn [set_baseline d_files].
    destruct (Blobs.put _ _) as [[fs' [h st]]|] eqn:Hp; [|left; by rewrite app_nil_r].
    destruct (put_files_inv _ _ _ _ _ Hp Hi) as (_ & _ & ->). rewrite bool_decide_eq_true_2 by done.
    unfold next_ts. rewrite <- Hb. right. eexists _, _, _. split; [|split; [|reflexivity]]; [|by case_bool_decide].
    unfold cmd_journal. cbn [set_db d_db set_clock set_files set_baseline]. by rewrite put_blob_record_events.
Qed.

Lemma capture_journaled d (cmd : CommandId) dev (r : Undo.Captured) :
  inv_but X d → baseline_agrees d cmd dev r → Undo.cp_blob r = Blobs.hash_bytes (Fs.in_data (Undo.cp_node r)) →
  Fs.in_flags (Undo.cp_node r) = 0%N → absolute_ok (Undo.cp_path r) = true →
  let d' := dispatch_response host kernel_tier cwd_ord d
    (HelperResponse.CapturedPreImage (full_capture true cmd dev r)) (Some (Fs.in_data (Undo.cp_node r))) in
  length (cmd_journal cmd (d_db d')) = length (cmd_journal cmd (d_db d)) + 2 →
  ∃ e1 e2, grown_by cmd d d' [e1; e2] ∧ Removals.pre_event dev r e1 ∧ Removals.unlink_event dev r e2.
Proof.
  intros Hi Hbl Hb Hfl Hok. cbn zeta.
  destruct (capture_stored d true cmd dev r Hi Hbl Hb) as [H1|(d0 & ts & src & Hj & Hs & ->)].
  - rewrite H1, app_nil_r. lia.
  - by apply journal_pre_grows.
Qed.

(** A write is journaled when the journal is longer. *)
Lemma write_journaled d (cmd : CommandId) dev (r : Undo.Captured) :
  inv_but X d → baseline_agrees d cmd dev r → Undo.cp_blob r = Blobs.hash_bytes (Fs.in_data (Undo.cp_node r)) →
  Fs.in_flags (Undo.cp_node r) = 0%N → absolute_ok (Undo.cp_path r) = true →
  let d' := dispatch_response host kernel_tier cwd_ord d
    (HelperResponse.CapturedPreImage (full_capture false cmd dev r)) (Some (Fs.in_data (Undo.cp_node r))) in
  length (cmd_journal cmd (d_db d')) = S (length (cmd_journal cmd (d_db d))) →
  ∃ e, grown_by cmd d d' [e] ∧ Edits.edit_event dev (λ _, None) r e.
Proof.
  intros Hi Hbl Hb Hfl Hok. cbn zeta.
  destruct (capture_stored d false cmd dev r Hi Hbl Hb) as [H1|(d0 & ts & src & Hj & Hs & ->)].
  - rewrite H1, app_nil_r. lia.
  - rewrite <- Hj. unfold journal_pre_image. change (cp_is_delete (full_capture false cmd dev r)) with false.
    change (cp_post_content_hash (full_capture false cmd dev r)) with (@None BlobHash).
    destruct (put_pre_image d0 false cmd dev r ts _ src Hs eq_refl Hfl Hok) as [H1|(Hr & e & H1 & He)];
      destruct (put d0 _) as [d1 [[]|]]; cbn [fst snd and_then] in *; try done;
      try (rewrite H1, app_nil_r; lia). intros _. by exists e.
Qed.

Lemma report_journaled d (cmd : CommandId) dev (r : Undo.Captured) (out : list Sent) :
  inv_but X d → removal_report cmd dev r out → baseline_agrees d cmd dev r →
  Undo.cp_blob r = Blobs.hash_bytes (Fs.in_data (Undo.cp_node r)) →
  Fs.in_flags (Undo.cp_node r) = 0%N → absolute_ok (Undo.cp_path r) = true →
  length (cmd_journal cmd (d_db (deliver d out))) = length (cmd_journal cmd (d_db d)) + 2 →
  ∃ e1 e2, grown_by cmd d (deliver d out) [e1; e2] ∧ Removals.pre_event dev r e1 ∧ Removals.unlink_event dev r e2.
Proof.
  intros Hi [|c Hc|] Hbl Hb Hfl Hok; [simpl; lia| |by apply capture_journaled].
  cbn. unfold handle_marker, next_ts. destruct (_ && _); [|cbn; lia]. rewrite Hc.
  match goal with |- context [journal_unlink_idempotent ?d1 cmd ?ts ?i ?p ?kd ?m] =>
    destruct (unlink_grows d1 cmd ts i p kd m) as [H2|[id2 H2]] end; rewrite H2, ?length_app; simpl; lia.
Qed.

Lemma put_not_mismatch d (ev : CaptureEvent) a b : (put d ev).2 ≠ inr (HelperLinkError.HashMismatch a b).
Proof. unfold put. by destruct (put_event _ _) as [[]|]. Qed.

Lemma journal_not_mismatch d (c : CapturedPreImage) ts h xs src a b :
  (journal_pre_image d c ts h xs src).2 ≠ inr (HelperLinkError.HashMismatch a b).
Proof.
  unfold journal_pre_image. match goal with |- context [put d ?ev] => pose proof (put_not_mismatch d ev a b) as Hp end.
  destruct (put d _) as [d1 [[]|e]]; cbn [and_then snd] in *; [|congruence]. destruct (cp_is_delete c); [|done].
  unfold journal_unlink_idempotent. destruct (existsb _ _); [done|apply put_not_mismatch].
Qed.

(** C7. Whatever reaches the helper, the daemon finds the bytes of every capture it
    sends to be the ones the message names. *)
Theorem helper_bytes_accepted (rt : Runtime) (e : Event) d (c : CapturedPreImage) (fd : option bytes) a b :
  inv_but X d → (HelperResponse.CapturedPreImage c, fd) ∈ (helper_step rt e).2 →
  (handle_capture host kernel_tier cwd_ord d c fd).2 ≠ inr (HelperLinkError.HashMismatch a b).
Proof.
  intros Hi Hin. pose proof (proj1 (Forall_forall _ _) (helper_messages_ok rt e) _ Hin) as Hm.
  unfold message_ok in Hm. cbn [fst snd] in Hm. destruct fd as [staged|]; cbn [handle_capture].
  - destruct Hm as [Hh Hn]. destruct (Baseline.promote_in _ _ _ _) as [lb [[blob xs]|]].
    + apply journal_not_mismatch.
    + unfold handle_captured_pre_image, ingest, read_all_from_fd. rewrite Hn, Nat2N.id, firstn_all, Hh.
      cbn [set_baseline d_files]. destruct (Blobs.put _ _) as [[fs' [h st]]|] eqn:Hp; [|done].
      destruct (put_files_inv _ _ _ _ _ Hp Hi) as (_ & _ & ->). rewrite bool_decide_eq_true_2 by done.
      apply journal_not_mismatch.
  - unfold handle_marker, next_ts. destruct (_ && _); [|done]. unfold journal_unlink_idempotent.
    destruct (existsb _ _); [done|apply put_not_mismatch].
Qed.

End Journal.

(** ** The whole way *)

Section EndToEnd.
Context {P : Type} `{!Postcard P} `{!PostcardLaws P} `{!Blobs.BlobCodec} `{!Blobs.BlobCodecLaws} {T : Type}.
Context (host : Host) (blake3 : string → list N) (filter : Env.EnvFilter) (kernel_tier : string).
Context (parse_uuid : string → option Uuid).
Context (path_ord : HashOrder PathBuf InodeRef)
        (cwd_ord : HashOrder PathBuf Baseline.BaselineCacheEntry)
        (cmd_ord : HashOrder CommandId CommandRow) (blob_ord : HashOrder BlobHash BlobRow)
        (stash_ord : HashOrder BlobHash StashRow).
Context (syn : Network.NetSynth) (ord : HashOrder InodeRef (gset PathBuf)).
Context (router : FileExec.PrivilegedOpRouter) (may_chown : Fs.FS → PathBuf → N → N → bool)
        (tmp_name : string) (os : FileExec.Os) (tiers : Tiers T) (state_home : bool).
Context (globset : list string → (PathBuf → bool) + Msg).
(** Blobs that may be lost. *)
Context (X : gset BlobHash).
Implicit Types d : Daemon P.

Abbreviation runs_on :=
  (runs_losing host blake3 filter kernel_tier parse_uuid path_ord cwd_ord cmd_ord blob_ord stash_ord X).
Abbreviation same_journal cmd d d' := (cmd_journal cmd (d_db d') = cmd_journal cmd (d_db d)).

(** A command removes watched files one after the other: the hook reports each
    while the helper holds it open, the message reaches the daemon later, and
    the index takes both events. In between, the helper serves other commands
    and the daemon does anything else. [fs] is the file system the helper
    walked. *)
Inductive lsm_removals (cmd : CommandId) (fs : Fs.FS) (rt : Runtime) d :
    list Undo.Captured → Runtime → Daemon P → Fs.FS → Prop :=
  | lsm_removals_none : lsm_removals cmd fs rt d [] rt d fs
  | lsm_removals_other rs rt1 rt2 d1 d2 fs1 :
      lsm_removals cmd fs rt d rs rt1 d1 fs1 →
      rt2 !! cmd = rt1 !! cmd → runs_on d1 d2 → same_journal cmd d1 d2 →
      lsm_removals cmd fs rt d rs rt2 d2 fs1
  | lsm_removals_event rs rt1 d1 d2 fs1 fs2 k ev (r : Undo.Captured) :
      lsm_removals cmd fs rt d rs rt1 d1 fs1 →
      unlink_of fs cmd r ev →
      fd_shows k (mkFd (Fs.device fs, Undo.cp_ino r) false) (Fs.device fs) (Undo.cp_ino r) (Undo.cp_node r) →
      Fs.remove_file fs1 (Undo.cp_path r) = inl fs2 →
      runs_on d1 d2 → same_journal cmd d1 d2 → baseline_agrees cwd_ord d2 cmd (Fs.device fs) r →
      let d3 := deliver host kernel_tier cwd_ord d2 (handle_lsm_unlink k rt1 ev).2 in
      length (cmd_journal cmd (d_db d3)) = length (cmd_journal cmd (d_db d2)) + 2 →
      lsm_removals cmd fs rt d (rs ++ [r]) (handle_lsm_unlink k rt1 ev).1 d3 fs2.

Abbreviation undoable := (rm_undoable may_chown tmp_name os).
Abbreviation watching fs rt cmd r :=
  (watched fs (default default_watch (rt !! cmd)) (Undo.cp_par r) (Undo.cp_ino r) (Undo.cp_node r)).

Lemma lsm_removals_journal (cmd : CommandId) (fs fs' : Fs.FS) (rt rt' : Runtime) d d' (rs : list Undo.Captured) :
  lsm_removals cmd fs rt d rs rt' d' fs' →
  inv_but X d → FileFacts.wf fs → cmd_journal cmd (d_db d) = [] → NoDup (Undo.cp_ino <$> rs) →
  (∀ r, r ∈ rs → undoable fs r ∧ absolute_ok (Undo.cp_path r) = true ∧ watching fs rt cmd r) →
  (inv_but X d' ∧ Removals.removals fs rs fs' ∧ Removals.removal_events (Fs.device fs) rs (cmd_journal cmd (d_db d')))
  ∧ ∀ r, watching fs rt cmd r → Undo.cp_ino r ∉ Undo.cp_ino <$> rs → watching fs rt' cmd r.
Proof.
  intros Hrun Hi Hwf He.
  induction Hrun as [|rs rt1 rt2 d1 d2 fs1 _ IH Hrt Hr Hs|rs rt1 d1 d2 fs1 fs2 k ev r _ IH Hev Hfd Hrm Hr Hs Hbl d3 Hlen];
    intros Hni Hok.
  - split; [|done]. split_and!; [done|constructor|]. rewrite He. constructor.
  - destruct (IH Hni Hok) as [(H1 & H2 & H3) H4]. split; [|intros r; rewrite Hrt; apply H4].
    split_and!; [by eapply runs_losing_inv|done|by rewrite Hs].
  - rewrite fmap_app, NoDup_app in Hni. destruct Hni as (Hni & Hfresh & _).
    destruct (Hok r) as (Hu & Hab & Hwt); [set_solver|].
    destruct IH as [(H1 & H2 & H3) H4]; [done|intros; apply Hok; set_solver|].
    assert (Undo.cp_ino r ∉ Undo.cp_ino <$> rs) as Hnew by (intros Hin; by apply (Hfresh _ Hin), list_elem_of_singleton).
    pose proof (H4 r Hwt Hnew) as Hwt1. assert (inv_but X d2) as Hi2 by (by eapply runs_losing_inv).
    destruct Hu as (Hrem & (Hcap & _ & _) & Hb & Hfl). destruct Hcap as (Hkind & Hmode & _).
    assert (normal_ok (Normal (Undo.cp_name r)) = true) as Hnorm by (by eapply absolute_last_ok).
    destruct (unlink_reported k _ fs cmd r ev Hwt1 Hev Hfd Hmode Hkind Hnorm) as [Hrep Hkeep].
    pose proof (handle_unlink_on_watch k rt1 cmd ev (uo_command _ _ _ _ Hev)) as [Hout Hst]. rewrite <- Hout in Hrep.
    destruct (report_journaled host kernel_tier cwd_ord d2 cmd (Fs.device fs) r _ Hi2 Hrep Hbl Hb Hfl Hab Hlen)
      as (e1 & e2 & Hj & He1 & He2).
    split; [|intros r' Hw' Hn'].
    + split_and!; [by apply deliver_inv|by econstructor|]. unfold d3. rewrite Hj, Hs. by constructor.
    + rewrite Hst. apply Hkeep; [set_solver|]. apply H4; [done|set_solver].
Qed.

(** The helper was told to watch the directory, and its walk met no cap. *)
Record watch_made (k : Kernel) (fs : Fs.FS) (rt : Runtime) (cmd : CommandId) (cwd : PathBuf) : Prop := {
  wm_shows : kernel_shows k fs;
  wm_one_name : one_name fs;
  wm_before : faithful fs (default default_watch (rt !! cmd));
  wm_cwd : ∃ ci cn, Fs.find fs cwd = Some (ci, cn) ∧ Fs.in_kind cn = FileKind.Directory;
  wm_stat : is_Some (k_stat k cwd);
  wm_cap : po_hit_cap (watch_walk k (default default_watch (rt !! cmd)) cwd) = false;
}.

(** The file is in the directory or at most seven levels below, and may be read. *)
Definition in_reach (k : Kernel) (fs : Fs.FS) (cwd : PathBuf) (r : Undo.Captured) : Prop :=
  absolute_ok (Undo.cp_path r) = true ∧ reached k fs PRE_OPEN_TREE_DEPTH_LIMIT cwd (Undo.cp_par r)
  ∧ (∃ names, k_read_dir k (Undo.cp_par r) = Some names ∧ Undo.cp_name r ∈ names)
  ∧ readable k fs (Undo.cp_path r) (Undo.cp_ino r) (Undo.cp_node r).

Lemma watch_made_watching k fs rt cmd cwd r :
  watch_made k fs rt cmd cwd → in_reach k fs cwd r → watching fs (pre_open_tree k rt cmd cwd) cmd r.
Proof.
  intros [Hk H1 Hb (ci & cn & Hf & Hd) Hst Hc] (Hab & Hre & (names & Hnm & Hin) & Hr).
  destruct (pre_open_tree_holds k fs Hk rt cmd cwd ci cn (Undo.cp_par r) names (Undo.cp_name r) (Undo.cp_ino r)
    (Undo.cp_node r) Hb H1 Hf Hd Hst Hre Hnm Hin) as (ws & -> & _ & Hw); [|done|exact Hw].
  rewrite join_normal; [exact Hr|by eapply absolute_last_ok].
Qed.

Abbreviation request := (handle_undo syn ord cmd_ord router may_chown tmp_name os tiers state_home globset).

(** C4. Removed in a watched directory, brought back by undo. The helper walks
    the directory a command starts in and holds the files of it; the command
    removes any number of them, and the kernel's hook reports each removal to
    the helper, which sends what the file held to the daemon, with anything
    else happening in between that keeps the command's journal and loses none
    of these files' bytes. Then undoing the command, when it is the last
    that completed, brings every file back with its content, mode, owner,
    times and attributes, reports nothing skipped, failed, in conflict or
    refused, and every name of the file system shows what it showed before. *)
Theorem lsm_rm_undo_restores k (rt rt' : Runtime) (cwd : PathBuf) d d' (fs : Fs.FS) (w : World T) (cmd : CommandId)
    (rec : CommandRecord) (rs : list Undo.Captured) (apply_shell : bool) :
  inv d → FileFacts.wf fs → cmd_journal cmd (d_db d) = [] → watch_made k fs rt cmd cwd →
  lsm_removals cmd fs (pre_open_tree k rt cmd cwd) d rs rt' d' (w_fs w) →
  (∀ r, r ∈ rs → Undo.cp_blob r ∉ X) → (∀ r, r ∈ rs → undoable fs r ∧ in_reach k fs cwd r) →
  NoDup (Undo.cp_path <$> rs) → NoDup (Undo.cp_ino <$> rs) →
  list_recent_commands cmd_ord (d_db d') 1 = [rec] → c_command rec = cmd → Plan.refuse_plan rec = None →
  ∃ r fs', request d' (mkUndo 1 false ConflictPolicyWire.Abort [] apply_shell) w
      = (inl r, mkWorld fs' (w_queues w) (w_tiers w))
    ∧ commands_attempted r = 1%N ∧ clean r ∧ ∀ q, Fs.view fs' q = Fs.view fs q.
Proof.
  intros Hi Hwf He Hwm Hrun HX Hok Hnp Hni Hrec <- Hrf. apply (inv_but_mono ∅ X) in Hi; [|set_solver].
  destruct (lsm_removals_journal _ _ _ _ _ _ _ _ Hrun Hi Hwf He Hni) as [(Hi' & Hrm & Hev) _].
  { intros r Hr. destruct (Hok r Hr) as [Hu Hre]. split_and!; [done|apply Hre|by apply watch_made_watching]. }
  eapply undo_removals_request; try done. intros r Hr. by apply Hok.
Qed.

(** ** Writes *)

(** A command opens watched files for writing one after the other; each open is
    reported before the first byte changes, or the helper's copy was made
    before. *)
Inductive lsm_writes (cmd : CommandId) (fs : Fs.FS) (rt : Runtime) d :
    list Undo.Captured → Runtime → Daemon P → Prop :=
  | lsm_writes_none : lsm_writes cmd fs rt d [] rt d
  | lsm_writes_other rs rt1 rt2 d1 d2 :
      lsm_writes cmd fs rt d rs rt1 d1 →
      rt2 !! cmd = rt1 !! cmd → runs_on d1 d2 → same_journal cmd d1 d2 → lsm_writes cmd fs rt d rs rt2 d2
  | lsm_writes_event rs rt1 d1 d2 k ev (r : Undo.Captured) :
      lsm_writes cmd fs rt d rs rt1 d1 → open_of k fs cmd r ev →
      runs_on d1 d2 → same_journal cmd d1 d2 → baseline_agrees cwd_ord d2 cmd (Fs.device fs) r →
      let d3 := deliver host kernel_tier cwd_ord d2 (handle_lsm_open k rt1 ev).2 in
      length (cmd_journal cmd (d_db d3)) = S (length (cmd_journal cmd (d_db d2))) →
      lsm_writes cmd fs rt d (rs ++ [r]) (handle_lsm_open k rt1 ev).1 d3.

(** What the daemon stores of the file is what it held. *)
Definition recordable (r : Undo.Captured) : Prop :=
  absolute_ok (Undo.cp_path r) = true ∧ Undo.cp_blob r = Blobs.hash_bytes (Fs.in_data (Undo.cp_node r))
  ∧ Fs.in_flags (Undo.cp_node r) = 0%N.

Abbreviation unwritten fs rt cmd r := (fresh fs (default default_watch (rt !! cmd)) r).

Lemma lsm_writes_journal (cmd : CommandId) (fs : Fs.FS) (rt rt' : Runtime) d d' (rs : list Undo.Captured) :
  lsm_writes cmd fs rt d rs rt' d' →
  inv_but X d → cmd_journal cmd (d_db d) = [] → NoDup (Undo.cp_ino <$> rs) →
  (∀ r, r ∈ rs → recordable r ∧ unwritten fs rt cmd r) →
  (inv_but X d' ∧ Forall2 (Edits.edit_event (Fs.device fs) (λ _, None)) rs (cmd_journal cmd (d_db d')))
  ∧ ∀ r, unwritten fs rt cmd r → Undo.cp_ino r ∉ Undo.cp_ino <$> rs → unwritten fs rt' cmd r.
Proof.
  intros Hrun Hi He.
  induction Hrun as [|rs rt1 rt2 d1 d2 _ IH Hrt Hr Hs|rs rt1 d1 d2 k ev r _ IH Hev Hr Hs Hbl d3 Hlen]; intros Hni Hok.
  - split; [|done]. split; [done|]. rewrite He. constructor.
  - destruct (IH Hni Hok) as [[H1 H3] H4]. split; [|intros r; rewrite Hrt; apply H4].
    split; [by eapply runs_losing_inv|by rewrite Hs].
  - rewrite fmap_app, NoDup_app in Hni. destruct Hni as (Hni & Hfresh & _).
    destruct (Hok r) as ((Hab & Hb & Hfl) & Hwt); [set_solver|].
    destruct IH as [[H1 H3] H4]; [done|intros; apply Hok; set_solver|].
    assert (Undo.cp_ino r ∉ Undo.cp_ino <$> rs) as Hnew by (intros Hin; by apply (Hfresh _ Hin), list_elem_of_singleton).
    assert (inv_but X d2) as Hi2 by (by eapply runs_losing_inv).
    destruct (open_reported k _ fs cmd r ev (H4 r Hwt Hnew) Hev Hab) as [Hrep Hkeep].
    pose proof (handle_open_on_watch k rt1 cmd ev (oo_command _ _ _ _ _ Hev)) as [Hout Hst]. rewrite <- Hout in Hrep.
    assert (∃ e, cmd_journal cmd (d_db d3) = cmd_journal cmd (d_db d2) ++ [e]
      ∧ Edits.edit_event (Fs.device fs) (λ _, None) r e) as (e & Hj & Hed).
    { unfold d3 in *. destruct Hrep as [Hz|Hz]; rewrite Hz in *; [simpl in Hlen; lia|]. by apply (write_journaled (X := X)). }
    split; [split; [by apply deliver_inv|]|].
    + rewrite Hj, Hs. apply Forall2_app; [done|]. constructor; [done|constructor].
    + intros r' Hw' Hn'. rewrite Hst. apply Hkeep; [set_solver|]. apply H4; [done|set_solver].
Qed.

Lemma watch_made_unwritten k fs rt cmd cwd r :
  watch_made k fs rt cmd cwd → rt !! cmd = None → in_reach k fs cwd r →
  unwritten fs (pre_open_tree k rt cmd cwd) cmd r.
Proof.
  intros Hw Hn Hr. split; [by apply watch_made_watching|]. rewrite pre_open_tree_walk, Hn. cbn [from_option]. unfold id.
  unfold should_capture_dedupe, watch_walk. destruct (k_stat k cwd); rewrite ?pre_open_dedupe; done.
Qed.

(** C5. Written in a watched directory, brought back by undo. The helper has
    read the files of the directory a command starts in; the command opens any
    number of them for writing, the kernel's hook reports each open, and the
    helper sends the copy it has to the daemon, with anything else happening
    in between that keeps the command's journal and loses none of these files'
    bytes; then the files are overwritten in place. Undoing the command,
    when it is the last that completed, brings every file back with its
    content, mode, owner, times and attributes, reports nothing skipped,
    failed, in conflict or refused, and touches nothing else. *)
Theorem lsm_write_undo_restores k (rt rt' : Runtime) (cwd : PathBuf) d d' (fs : Fs.FS) (w : World T) (cmd : CommandId)
    (rec : CommandRecord) (rs : list Undo.Captured) (apply_shell : bool) :
  inv d → cmd_journal cmd (d_db d) = [] → watch_made k fs rt cmd cwd → rt !! cmd = None →
  lsm_writes cmd fs (pre_open_tree k rt cmd cwd) d rs rt' d' →
  (∀ r, r ∈ rs → Undo.cp_blob r ∉ X) →
  (∀ r, r ∈ rs → recordable r ∧ in_reach k fs cwd r ∧ rewritable may_chown tmp_name os (w_fs w) r) →
  FileFacts.wf (w_fs w) → NoDup (Undo.cp_path <$> rs) → NoDup (Undo.cp_ino <$> rs) →
  list_recent_commands cmd_ord (d_db d') 1 = [rec] → c_command rec = cmd → Plan.refuse_plan rec = None →
  ∃ r fs', request d' (mkUndo 1 false ConflictPolicyWire.Abort [] apply_shell) w
      = (inl r, mkWorld fs' (w_queues w) (w_tiers w))
    ∧ commands_attempted r = 1%N ∧ clean r
    ∧ (∀ c, c ∈ rs → Fs.view fs' (Undo.cp_path c) = Some (Undo.cp_node c))
    ∧ (∀ q, q ∉ Undo.cp_path <$> rs → Fs.view fs' q = Fs.view (w_fs w) q).
Proof.
  intros Hi He Hwm Hn Hrun HX Hok Hwf Hnp Hni Hrec <- Hrf. apply (inv_but_mono ∅ X) in Hi; [|set_solver].
  destruct (lsm_writes_journal _ _ _ _ _ _ _ Hrun Hi He Hni) as [[Hi' Hev] _].
  { intros r Hr. destruct (Hok r Hr) as (H1 & H2 & _). split; [done|by apply watch_made_unwritten]. }
  eapply undo_edits_request; try done. intros r Hr. by apply Hok.
Qed.

End EndToEnd.

End CaptureUndo.
