(* ===== verification/TierRuns.v ===== *)
(** * Reports of a wrapper, paired

    Between the two reports of a wrapper anything may reach the daemon: the
    stash of the system tiers is changed by reports of the same tier and by
    the janitor only, so that the second report is journaled with the state
    the first one carried. *)

From stdpp Require Import pretty.
From S2P Require Import Prelude Paths Base Events Inverse Probe Env EnvFacts Fs Redirect Runners Text.
From S2P Require Import Redact Packages SqlFacts Tables Index Blobs Retention Gc StoreFacts StoreRuns.
From S2P Require Import StorePlan TierStash Conn Procs ExecFacts Active Baseline WatchReady Daemon.
From S2P Require Import HelperEvents TierTrack UndoCtl DaemonFacts UndoSteps DaemonRuns.

Module TierRuns.
Import Index StoreFacts StoreRuns TierStash Daemon HelperEvents RedirectTrack ShimEvents TierTrack Ctl DaemonFacts.
Import TierTrackFacts UndoSteps DaemonRuns.

Section Frame.
Context {P : Type} `{!Postcard P} `{!PostcardLaws P} `{!Blobs.BlobCodec} `{!Blobs.BlobCodecLaws}.
Context (host : Host) (blake3 : string → list N) (filter : Env.EnvFilter) (kernel_tier : string).
Context (parse_uuid : string → option Uuid).
Context (path_ord : HashOrder PathBuf InodeRef)
        (cwd_ord : HashOrder PathBuf Baseline.BaselineCacheEntry)
        (cmd_ord : HashOrder CommandId CommandRow) (blob_ord : HashOrder BlobHash BlobRow)
        (stash_ord : HashOrder BlobHash StashRow).
Implicit Types d : Daemon P.

(** ** Handlers that leave the stashes alone *)

Lemma journal_tiers d (ev : CaptureEvent) : d_tiers (journal d ev) = d_tiers d.
Proof. unfold journal. by destruct (put_event _ _) as [[]|]. Qed.

Lemma put_tiers d (ev : CaptureEvent) : d_tiers (put d ev).1 = d_tiers d.
Proof. unfold put. by destruct (put_event _ _) as [[]|]. Qed.

Lemma put_stashed_tiers d (ev : CaptureEvent) : d_tiers (put_stashed d ev).1 = d_tiers d.
Proof. unfold put_stashed. by destruct (put_event _ _) as [[]|]. Qed.

(** Case analysis down to the writes. *)
Ltac frame := repeat (case_match; simplify_eq/=; try done); rewrite ?journal_tiers, ?put_tiers, ?put_stashed_tiers; try done.

Lemma handle_tiers d (msg : HookMessage) : d_tiers (handle host blake3 filter path_ord d msg) = d_tiers d.
Proof.
  unfold handle, next_ts. destruct msg; try done.
  - unfold handle_pre_exec, to_helper. by destruct (h_helper host).
  - unfold handle_post_exec, to_helper. set (key := mkCommandId _ _).
    assert (∀ l d, d_tiers (foldl (sweep_entry host key) d l) = d_tiers d) as Hl.
    { intros l. induction l as [|[p e] l IH]; intros d'; [done|]. simpl. rewrite IH. unfold sweep_entry. frame. }
    unfold post_exec_sweep. repeat (case_match; try done); simpl; by rewrite Hl.
  - unfold env_handle_post. simpl. frame.
  - unfold shell_handle_post. simpl. frame.
Qed.

Lemma journal_unlink_tiers d c ts i path kind mode :
  d_tiers (journal_unlink_idempotent d c ts i path kind mode).1 = d_tiers d.
Proof. unfold journal_unlink_idempotent. frame. Qed.

Lemma journal_pre_image_tiers d (c : CapturedPreImage) ts blob xs src :
  d_tiers (journal_pre_image d c ts blob xs src).1 = d_tiers d.
Proof.
  unfold journal_pre_image. set (ev := new_event _ _ _). pose proof (put_tiers d ev) as Hp.
  destruct (put d ev) as [d1 [[]|e]]; simpl in *; [|done].
  destruct (cp_is_delete c); [by rewrite journal_unlink_tiers|done].
Qed.

Lemma ingest_tiers d (fd : bytes) (n : N) (claimed : BlobHash) k :
  (∀ d' h st, d_tiers (k d' h st).1 = d_tiers d') → d_tiers (ingest d fd n claimed k).1 = d_tiers d.
Proof.
  intros Hk. unfold ingest. destruct (Blobs.put _ _) as [[fs' [h st]]|]; [|done].
  case_bool_decide; [by rewrite Hk|done].
Qed.

Lemma dispatch_response_tiers d (resp : HelperResponse) (fd : option bytes) :
  d_tiers (dispatch_response host kernel_tier cwd_ord d resp fd) = d_tiers d.
Proof.
  destruct resp; simpl; try done.
  - unfold handle_capture. destruct fd as [staging|].
    + destruct (Baseline.promote_in _ _ _ _) as [lb [[blob xs]|]].
      * by etrans; [apply journal_pre_image_tiers|].
      * etrans; [apply ingest_tiers|done]. intros d' h st. by etrans; [apply journal_pre_image_tiers|].
    + unfold handle_marker. case_match; [|done]. by etrans; [apply journal_unlink_tiers|].
  - destruct fd as [staging|]; [|done]. etrans; [apply ingest_tiers|done]. intros d' h st. unfold next_ts.
    by destruct (Baseline.entry_for_cwd _ _).
  - unfold walk_complete. by destruct (Baseline.entry_for_cwd _ _).
  - unfold handle_tree_mutation, next_ts. destruct op; try (by etrans; [apply put_tiers|]).
    by etrans; [apply journal_unlink_tiers|].
  - unfold handle_metadata_change, next_ts. by etrans; [apply put_tiers|].
  - by case_match.
Qed.

Lemma handle_redirects_tiers (fs : Fs.FS) d sess sq targets :
  d_tiers (handle_redirects host fs d sess sq targets).1 = d_tiers d.
Proof.
  unfold handle_redirects. generalize 0. generalize (@nil (string * StashError)).
  revert d. induction targets as [|t l IH]; intros d errs n; [done|]. simpl.
  assert (d_tiers (stash_one host fs d t (mkCommandId sess sq)).1 = d_tiers d) as H1.
  { unfold stash_one, stash_truncate, stash_append, next_ts.
    destruct (Redirect.t_op t), (Fs.find fs _) as [[ino nd]|]; try done; destruct (negb _); try done;
      repeat (case_match; simplify_eq/=; try done); by rewrite put_stashed_tiers. }
  destruct (stash_one _ _ _ _ _) as [d1 [[]|e]]; simpl in H1; by rewrite IH.
Qed.

Lemma ingest_notification_tiers inode_of xattrs_at d (note : ShimNotification) resolved ts :
  d_tiers (ingest_notification inode_of xattrs_at d note resolved ts) = d_tiers d.
Proof.
  assert (∀ d c pre src, d_tiers (ingest_pre_image_with_source xattrs_at d c pre src ts) = d_tiers d) as Hp.
  { intros d' c pre src. unfold ingest_pre_image_with_source. frame. }
  assert (∀ d c, d_tiers (ingest_attached xattrs_at d c ts note) = d_tiers d) as Ha.
  { intros d' c. unfold ingest_attached. by case_match; [apply Hp|]. }
  assert (∀ c l d, d_tiers (foldl (λ d pre, ingest_pre_image xattrs_at d c ts pre) d l) = d_tiers d) as Hl.
  { intros c l. induction l as [|pre l IH]; intros d'; [done|]. simpl. rewrite IH. apply Hp. }
  unfold ingest_notification. destruct resolved as [c|]; [|done].
  assert (d_tiers (ingest_failure d c ts (sn_failure note)) = d_tiers d) as Hf by (unfold ingest_failure; frame).
  rewrite <- Hf. generalize (ingest_failure d c ts (sn_failure note)). clear d Hf. intros d.
  unfold ingest_metadata, ingest_content, ingest_tree.
  repeat case_match; rewrite ?journal_tiers, ?Ha, ?Hl, ?Hp; try done; rewrite ?Ha, ?Hl, ?Hp; first [done|apply Hp].
Qed.

(** ** Every step *)

Lemma put_new_tiers d (c : CommandId) (kind : CaptureEventKind) : d_tiers (put_new host d c kind).1 = d_tiers d.
Proof. unfold put_new, next_ts. frame. Qed.

Lemma record_tiers d (c : CommandId) (kind : CaptureEventKind) : d_tiers (record host d c kind) = d_tiers d.
Proof. unfold record, next_ts. by rewrite journal_tiers. Qed.

Lemma record_killed_tiers (c : CommandId) signal (l : list TargetOutcome) : ∀ d,
  d_tiers (foldl (record_killed host c signal) d l) = d_tiers d.
Proof. induction l as [|[s|s] l IH]; intros d; simpl; [done| |by rewrite IH]. by rewrite IH, record_tiers. Qed.

(** The inputs that touch the stash of one tier. *)
Definition touches_svc (i : Input P) : bool :=
  match i with Tier _ (SvcEvent _) | TierSweep => true | _ => false end.
Definition touches_net (i : Input P) : bool :=
  match i with Tier _ (NetEvent _) | TierSweep => true | _ => false end.
Definition touches_proc (i : Input P) : bool :=
  match i with Tier _ (ProcEvent _) | TierSweep => true | _ => false end.
Definition touches_db (i : Input P) : bool :=
  match i with Tier _ (DbEvent _) | TierSweep => true | _ => false end.

Lemma tier_handle_tiers parent_pid d (r : TierReq) :
  let t := d_tiers d in let t' := d_tiers (tier_handle host parent_pid d r) in
  (match r with SvcEvent _ => True | _ => ts_svc t' = ts_svc t end)
  ∧ (match r with NetEvent _ => True | _ => ts_net t' = ts_net t end)
  ∧ (match r with ProcEvent _ => True | _ => ts_proc t' = ts_proc t end)
  ∧ (match r with DbEvent _ => True | _ => ts_db t' = ts_db t end).
Proof.
  destruct r; simpl; split_and!; try exact I.
  all: unfold pkg_handle, svc_handle, net_handle, proc_handle, db_handle, container_handle, cloud_handle, ingest_tarball.
  all: repeat (case_match; simplify_eq/=; try done);
    rewrite ?record_tiers, ?record_killed_tiers, ?put_new_tiers; done.
Qed.

(** Only reports of wrappers and the janitor touch the stashes. *)
Lemma step_tiers d (i : Input P) :
  match i with Tier _ _ | TierSweep => True
  | _ => d_tiers (step host blake3 filter kernel_tier parse_uuid path_ord cwd_ord cmd_ord blob_ord stash_ord d i)
         = d_tiers d
  end.
Proof.
  destruct i; simpl; try done.
  - by rewrite handle_tiers.
  - by rewrite dispatch_response_tiers.
  - by rewrite handle_redirects_tiers.
  - by rewrite ingest_notification_tiers.
  - unfold handle_pin. by destruct (parse_command_id _ _).
  - unfold handle_forget. frame.
  - unfold handle_bookmark. by destruct (parse_command_id _ _).
  - unfold handle_bookmark_remove. by destruct (parse_command_id _ _).
  - unfold handle_container_stashes_prune. by destruct (Stash.prune_older_than _ _ _ _).
  - unfold collect. by destruct (Gc.run_pass _ _ _ _ _ _ _ _ _) as [[]|].
Qed.

(** ** Runs without some inputs *)

Abbreviation dstep := (step host blake3 filter kernel_tier parse_uuid path_ord cwd_ord cmd_ord blob_ord stash_ord).
Abbreviation dreaches := (reaches host blake3 filter kernel_tier parse_uuid path_ord cwd_ord cmd_ord blob_ord stash_ord).

(** Runs with only inputs that [touches] lets pass. *)
Inductive reaches_without (touches : Input P → bool) d : Daemon P → Prop :=
  | without_here : reaches_without touches d d
  | without_step d' i : reaches_without touches d d' → fits i → touches i = false →
      reaches_without touches d (dstep d' i).

Lemma without_reaches touches d d' : reaches_without touches d d' → ∃ X, dreaches d X d'.
Proof. induction 1 as [|d' i _ [X IH]]; [by eexists; constructor|]. eexists. by constructor. Qed.

Ltac frame_run :=
  induction 1 as [|d' i _ IH _ Hq]; [done|]; rewrite <- IH; pose proof (step_tiers d' i) as Hs;
  destruct i as [| | | | |pp req| | | | | | | | |]; try (by rewrite Hs); [|done];
  pose proof (tier_handle_tiers pp d' req) as (H1 & H2 & H3 & H4); by destruct req.

Lemma without_svc d d' : reaches_without touches_svc d d' → ts_svc (d_tiers d') = ts_svc (d_tiers d).
Proof. frame_run. Qed.
Lemma without_net d d' : reaches_without touches_net d d' → ts_net (d_tiers d') = ts_net (d_tiers d).
Proof. frame_run. Qed.
Lemma without_proc d d' : reaches_without touches_proc d d' → ts_proc (d_tiers d') = ts_proc (d_tiers d).
Proof. frame_run. Qed.
Lemma without_db d d' : reaches_without touches_db d d' → ts_db (d_tiers d') = ts_db (d_tiers d).
Proof. frame_run. Qed.

(** The index takes events of this kind for the command. *)
Definition accepts (db : Db P) (c : CommandId) (kind : CaptureEventKind) : Prop :=
  ∀ ts, ∃ db' id, put_event db (new_event c ts kind) = inl (db', id).

Lemma accepts_intro (db : Db P) (c : CommandId) (kind : CaptureEventKind) :
  (∀ ts, to_allocvec (new_event c ts kind) ≠ None) → command_exists db c = true → (events_seq db < i64_max)%Z →
  accepts db c kind.
Proof.
  intros He Hc Hs ts. unfold put_event, insert_event. destruct (to_allocvec _) as [payload|] eqn:Hp; [|by destruct (He ts)].
  cbn [new_event e_command]. rewrite Hc. simpl. rewrite bool_decide_eq_false_2 by lia. eauto.
Qed.

Lemma record_journal d (c : CommandId) (kind : CaptureEventKind) :
  accepts (d_db d) c kind →
  ∃ e, cmd_journal c (d_db (record host d c kind)) = cmd_journal c (d_db d) ++ [e]
    ∧ e_kind e = kind ∧ e_partial e = false.
Proof.
  intros Ha. unfold record, next_ts. set (ts := mkTime _ _). destruct (Ha ts) as (db' & id & Hp).
  destruct (put_event_journal _ _ _ _ Hp) as [id' Hj]. exists (StorePlan.with_id id' (new_event c ts kind)).
  split; [|done]. unfold journal. cbn [set_clock d_db]. by rewrite Hp.
Qed.

(** The second report of a wrapper, however much later, is journaled with the
    state of the first. *)
Lemma svc_reports_paired p0 p1 d d' (pre post : SvcEventReq) (c : CommandId) :
  sv_phase pre = PkgPhase.Pre → sv_phase post = PkgPhase.Post →
  sv_tool post = sv_tool pre → sv_unit post = sv_unit pre →
  resolve p0 d (sv_pid pre) = Some c → resolve p1 d' (sv_pid post) = Some c →
  reaches_without touches_svc (tier_handle host p0 d (SvcEvent pre)) d' →
  let before := parse_state (sv_tool pre) (sv_state_raw pre) in
  let after := parse_state (sv_tool post) (sv_state_raw post) in
  let kind := CaptureEventKind.SystemdOp (sv_scope post) (sv_unit post) before after in
  before ≠ after → accepts (d_db d') c kind →
  ∃ e, cmd_journal c (d_db (tier_handle host p1 d' (SvcEvent post))) = cmd_journal c (d_db d') ++ [e]
    ∧ e_kind e = kind ∧ e_partial e = false.
Proof.
  intros Hpre Hpost Ht Hu Hr0 Hr1 Hre before after kind Hne Ha. apply without_svc in Hre.
  simpl in Hre. unfold svc_handle in Hre. rewrite Hpre, Hr0 in Hre. simpl in Hre.
  simpl. unfold svc_handle. rewrite Hpost, Hr1, Hre. simpl. rewrite Ht, Hu, lookup_insert_eq. simpl.
  fold before. rewrite <- Ht. fold after. rewrite bool_decide_eq_false_2 by done. rewrite <- Hu. fold kind.
  by apply (record_journal (set_tiers d' _)).
Qed.

Lemma net_reports_paired p0 p1 d d' (pre post : NetEventReq) (c : CommandId) :
  nt_phase pre = PkgPhase.Pre → nt_phase post = PkgPhase.Post →
  nt_tool post = nt_tool pre → nt_scope_hint post = nt_scope_hint pre →
  resolve p0 d (nt_pid pre) = Some c → resolve p1 d' (nt_pid post) = Some c →
  reaches_without touches_net (tier_handle host p0 d (NetEvent pre)) d' →
  let kind := CaptureEventKind.NetworkOp (nt_tool post) (nt_state_raw pre) (nt_state_raw post) [] in
  nt_state_raw pre ≠ nt_state_raw post → accepts (d_db d') c kind →
  ∃ e, cmd_journal c (d_db (tier_handle host p1 d' (NetEvent post))) = cmd_journal c (d_db d') ++ [e]
    ∧ e_kind e = kind ∧ e_partial e = false.
Proof.
  intros Hpre Hpost Ht Hu Hr0 Hr1 Hre kind Hne Ha. apply without_net in Hre.
  simpl in Hre. unfold net_handle in Hre. rewrite Hpre, Hr0 in Hre. simpl in Hre.
  simpl. unfold net_handle. rewrite Hpost, Hr1, Hre. simpl. rewrite Ht, Hu, lookup_insert_eq. simpl.
  rewrite bool_decide_eq_false_2 by done. rewrite <- Ht. fold kind. by apply (record_journal (set_tiers d' _)).
Qed.

Lemma db_reports_paired p0 p1 d d' (pre post : DbEventReq) (c : CommandId) :
  db_phase pre = PkgPhase.Pre → db_phase post = PkgPhase.Post →
  db_engine post = db_engine pre → dc_target (db_conn post) = dc_target (db_conn pre) →
  resolve p0 d (db_pid pre) = Some c → resolve p1 d' (db_pid post) = Some c →
  reaches_without touches_db (tier_handle host p0 d (DbEvent pre)) d' →
  let kind := CaptureEventKind.DbOp (db_engine pre) (dc_target (db_conn pre)) (db_statements pre) (db_transaction_state post) in
  accepts (d_db d') c kind →
  ∃ e, cmd_journal c (d_db (tier_handle host p1 d' (DbEvent post))) = cmd_journal c (d_db d') ++ [e]
    ∧ e_kind e = kind ∧ e_partial e = false.
Proof.
  intros Hpre Hpost Ht Hu Hr0 Hr1 Hre kind Ha. apply without_db in Hre.
  simpl in Hre. unfold db_handle in Hre. rewrite Hpre, Hr0 in Hre. simpl in Hre.
  simpl. unfold db_handle. rewrite Hpost, Hr1, Hre. simpl. rewrite Ht, Hu, lookup_insert_eq. simpl.
  fold kind. by apply (record_journal (set_tiers d' _)).
Qed.

(** ** Several events of one report *)

(** Room for the events of these kinds. *)
Definition room (db : Db P) (c : CommandId) (kinds : list CaptureEventKind) : Prop :=
  command_exists db c = true ∧ (events_seq db + Z.of_nat (length kinds) ≤ i64_max)%Z
  ∧ Forall (λ k, ∀ ts, to_allocvec (new_event c ts k) ≠ None) kinds.

Definition kill_event (signal : option Z) (s : ProcSnapshot) : CaptureEventKind :=
  CaptureEventKind.ProcessOp ProcessOpKind.Killed (ps_pid s) (ps_argv s) (path_of_string (ps_cwd s))
    (ps_env_summary s) (ps_parent_pid s) signal.

Definition killed (post pre : list ProcSnapshot) : list ProcSnapshot := List.filter (λ s, negb (survives post s)) pre.

Lemma record_room d (c : CommandId) (k : CaptureEventKind) ks :
  room (d_db d) c (k :: ks) → room (d_db (record host d c k)) c ks.
Proof.
  intros (Hc & Hs & He). apply Forall_cons in He as [He1 He]. cbn [length] in Hs. unfold record, next_ts, journal.
  destruct (put_event _ _) as [[db' id]|e] eqn:Hput; cbn [d_db set_clock set_db] in *.
  - apply put_event_inv in Hput as [_ _ _ Hseq _ Hcmds _ _ _]. split_and!; [|rewrite Hseq; lia|done].
    unfold command_exists in *. by rewrite Hcmds.
  - split_and!; [done|lia|done].
Qed.

Lemma record_killed_journal (c : CommandId) signal (post pre : list ProcSnapshot) : ∀ d,
  room (d_db d) c (kill_event signal <$> killed post pre) →
  ∃ es, cmd_journal c (d_db (foldl (record_killed host c signal) d (target_outcome post <$> pre)))
      = cmd_journal c (d_db d) ++ es
    ∧ e_kind <$> es = kill_event signal <$> killed post pre ∧ Forall (λ e, e_partial e = false) es.
Proof.
  induction pre as [|s pre IH]; intros d Hr; [exists []; by rewrite app_nil_r|].
  unfold killed in *. cbn [List.filter] in *. rewrite fmap_cons. cbn [foldl].
  unfold target_outcome at 1. destruct (survives post s); cbn [negb record_killed] in *; [by apply IH|]. fold (kill_event signal s).
  rewrite fmap_cons in Hr |- *. pose proof Hr as (Hc & Hs & [He1 _]%Forall_cons). cbn [length] in Hs.
  destruct (record_journal d c (kill_event signal s)) as (e & Hj & Hk & Hp); [apply accepts_intro; [done|done|lia]|].
  destruct (IH (record host d c (kill_event signal s))) as (es & Hjs & Hks & Hps).
  - by apply record_room.
  - exists (e :: es). rewrite Hjs, Hj, fmap_cons, Hk, Hks, <- app_assoc. by split_and!; [| |constructor].
Qed.

End Frame.

End TierRuns.

(** * From a wrapped client to the journal

    The wrappers of [psql] and of [kill] report before and after the real
    program; the helper parses the arguments, the daemon pairs the reports.
    What is journaled in the end holds no password and no secret of a
    sensitive column, and is exactly the processes that are gone. *)

Module ClientRuns.
Import Text Redact RedactFacts Sql SqlFacts Index StoreFacts StoreRuns TierStash Conn Procs ClientFacts Daemon TierTrack.
Import DaemonFacts UndoSteps DaemonRuns TierRuns.

Lemma str_unstr (l : chars) : str (unstr l) = l.
Proof. apply String.list_ascii_of_string_of_list_ascii. Qed.

(** Arguments as the wrappers join them. *)
Definition joined (argv : list string) : string := Text.join (String "010" "") argv.

(** The processes of the first report that the second does not show any more:
    gone, or their number given to a process that started later. *)
Definition gone (blake3 : string → list N) (pf pf' : ProcFs) (pid : N) : option ProcSnapshot :=
  match snapshot pf blake3 pid with
  | None => None
  | Some s =>
      match snapshot pf' blake3 pid with
      | Some s' => if bool_decide (ps_start_time_secs s' = ps_start_time_secs s) then None else Some s
      | None => Some s
      end
  end.

Section Reports.
Context {P : Type} `{!Postcard P} `{!PostcardLaws P} `{!Blobs.BlobCodec} `{!Blobs.BlobCodecLaws}.
Context (host : Host) (blake3 : string → list N) (filter : Env.EnvFilter) (kernel_tier : string).
Context (parse_uuid : string → option Uuid).
Context (path_ord : HashOrder PathBuf InodeRef)
        (cwd_ord : HashOrder PathBuf Baseline.BaselineCacheEntry)
        (cmd_ord : HashOrder CommandId CommandRow) (blob_ord : HashOrder BlobHash BlobRow)
        (stash_ord : HashOrder BlobHash StashRow).
Implicit Types d : Daemon P.

Abbreviation quiet := (reaches_without host blake3 filter kernel_tier parse_uuid path_ord cwd_ord cmd_ord blob_ord
  stash_ord).

(** ** A database client *)

Lemma db_event_uri phase scheme user pw hostname port db rest (l : list Insert) pid :
  scheme = "postgres" ∨ scheme = "postgresql" → uri_ok user pw hostname port db →
  Forall line_ok (uri scheme user pw hostname port db :: rest) → Forall wf_insert l → l ≠ [] →
  db_event blake3 DbEngine.Postgres phase false (joined (uri scheme user pw hostname port db :: rest))
    (unstr (script (insert_text <$> l))) pid
  = inl (Some (mkDbReq DbEngine.Postgres phase (mkConn hostname (Some port) user db) (hidden_text blake3 <$> l)
           DbTxState.Unknown pid)).
Proof.
  intros Hs Hu Hl Hw Hne. unfold db_event, joined. rewrite argv_of_joined by done. cbn [parse_argv].
  rewrite parse_psql_uri by done. rewrite str_unstr, filter_script by done. by destruct l.
Qed.

(** C19. A script of [INSERT]s that [psql] runs over a connection string with a
    password, the URI being the first argument and each statement written as
    [INSERT INTO t (columns) VALUES (literals);], its keywords in capitals and
    its names plain identifiers. The two reports of its wrapper, with anything
    but other database reports and sweeps of the trackers between them, leave
    one event in the journal of the command, if the index takes it: the
    database and the statements as they were run, in which every literal of a
    sensitive column is its marker. The password is not part of it, nor any
    such literal, whatever quotes and semicolons the literals hold. Of other
    clients and statements this is not so
    ([TierExamples.DbExamples.psql_command_leaks]). *)
Theorem db_journal_hides_secrets scheme user pw hostname port db rest (l : list Insert) :
  scheme = "postgres" ∨ scheme = "postgresql" → uri_ok user pw hostname port db →
  let argv := uri scheme user pw hostname port db :: rest in
  let blob := unstr (script (insert_text <$> l)) in
  let kind := CaptureEventKind.DbOp DbEngine.Postgres db (hidden_text blake3 <$> l) DbTxState.Unknown in
  Forall line_ok argv → Forall wf_insert l → l ≠ [] →
  ∀ pid pid', ∃ first second,
    db_event blake3 DbEngine.Postgres PkgPhase.Pre false (joined argv) blob pid = inl (Some first)
    ∧ db_event blake3 DbEngine.Postgres PkgPhase.Post false (joined argv) blob pid' = inl (Some second)
    ∧ ∀ p p' d d' (c : CommandId), resolve p d pid = Some c → resolve p' d' pid' = Some c →
      quiet touches_db (tier_handle host p d (DbEvent first)) d' → accepts (d_db d') c kind →
      ∃ e, cmd_journal c (d_db (tier_handle host p' d' (DbEvent second))) = cmd_journal c (d_db d') ++ [e]
        ∧ e_kind e = kind ∧ e_partial e = false.
Proof.
  intros Hs Hu argv blob kind Hl Hw Hne pid pid'.
  pose (req phase pid := mkDbReq DbEngine.Postgres phase (mkConn hostname (Some port) user db)
    (hidden_text blake3 <$> l) DbTxState.Unknown pid).
  exists (req PkgPhase.Pre pid), (req PkgPhase.Post pid'). split_and!; [by apply db_event_uri|by apply db_event_uri|].
  intros p p' d d' c Hr Hr' Hq Ha.
  exact (db_reports_paired host blake3 filter kernel_tier parse_uuid path_ord cwd_ord cmd_ord blob_ord stash_ord
    p p' d d' (req PkgPhase.Pre pid) (req PkgPhase.Post pid') c eq_refl eq_refl eq_refl eq_refl Hr Hr' Hq Ha).
Qed.

(** ** [kill] *)

Lemma dedup_nodup (seen l : list N) : NoDup l → (∀ x, x ∈ l → x ∉ seen) → dedup seen l = l.
Proof.
  revert seen. induction l as [|x l IH]; intros seen Hn Hs; [done|]. apply NoDup_cons in Hn as [Hx Hn]. simpl.
  rewrite bool_decide_eq_false_2 by (apply Hs; by left). f_equal. apply IH; [done|].
  intros y Hy [-> |Hin]%elem_of_cons; [done|]. by apply (Hs y); [right|].
Qed.

Lemma resolve_pids_numbers (pf : ProcFs) (pids : list N) :
  NoDup pids → Forall (λ p, 0 < p)%N pids → resolve_pids pf ((λ p, KillTarget.Pid (Z.of_N p)) <$> pids) = pids.
Proof.
  intros Hn Hp. unfold resolve_pids. rewrite <- list_fmap_compose.
  assert (mjoin ((target_pids pf ∘ (λ p, KillTarget.Pid (Z.of_N p))) <$> pids) = pids) as ->.
  { clear Hn. induction Hp as [|p pids Hp _ IH]; [done|]. rewrite fmap_cons. change (mjoin (?x :: ?l)) with (x ++ mjoin l).
    rewrite IH. unfold compose, target_pids. rewrite bool_decide_eq_true_2 by lia. by rewrite N2Z.id. }
  apply dedup_nodup; [done|]. intros x _ []%elem_of_nil.
Qed.

Lemma proc_event_kill pf phase sig (pids : list N) pid :
  looks_like_signal sig = true → line_ok (String "-" sig) → pids ≠ [] → NoDup pids →
  Forall (λ p, 0 < p < 2 ^ 31)%N pids →
  let argv := String "-" sig :: (pretty <$> pids) in
  proc_event pf blake3 ProcTool.Kill phase false (joined argv) pid
  = Some (mkProcReq ProcTool.Kill phase argv (omap (snapshot pf blake3) pids) pid).
Proof.
  intros Hs Hl Hne Hn Hp argv. unfold proc_event.
  assert (Forall line_ok argv) as Hla.
  { constructor; [done|]. apply Forall_fmap, Forall_true. intros p.
    split_and!; [|by apply pretty_lacks|by apply pretty_lacks]. by destruct (pretty_first p) as (? & ? & -> & _). }
  fold (argv_of (joined argv)). unfold joined. rewrite argv_of_joined by done. unfold argv.
  rewrite parse_kill_pids; [|done|done|eapply Forall_impl; [exact Hp|]; simpl; lia].
  cbn [k_targets]. rewrite resolve_pids_numbers; [done|done|]. eapply Forall_impl; [exact Hp|]. simpl. lia.
Qed.

Lemma signal_of_pids (pids : list N) : parse_signal_from_argv (pretty <$> pids) = None.
Proof.
  induction pids as [|p pids IH]; [done|]. rewrite fmap_cons. cbn [parse_signal_from_argv].
  rewrite pretty_no_dash, !bool_decide_eq_false_2; [done| |].
  all: intros Hp; pose proof (pretty_no_dash p "") as Hd; by rewrite Hp in Hd.
Qed.

Lemma signal_of_argv sig (pids : list N) :
  looks_like_signal sig = true →
  parse_signal_from_argv (String "-" sig :: (pretty <$> pids)) = name_or_number_to_signum sig.
Proof.
  intros Hs. pose proof (signal_not_flag sig Hs) as Hn. rewrite !not_elem_of_cons in Hn. destruct_and!.
  cbn [parse_signal_from_argv]. rewrite !bool_decide_eq_false_2 by (intros [= ->]; done).
  destruct sig as [|x sig]; [by vm_compute in Hs|]. cbn [orb Redirect.strip_prefix].
  rewrite bool_decide_eq_true_2, signal_of_pids by done. by destruct (name_or_number_to_signum _).
Qed.

Lemma snapshot_pid pf p s : snapshot pf blake3 p = Some s → ps_pid s = p.
Proof. unfold snapshot. case_match; [|done]. by intros [= <-]. Qed.

Lemma survives_at pf' (pids : list N) s :
  ps_pid s ∈ pids →
  survives (omap (snapshot pf' blake3) pids) s
  = match snapshot pf' blake3 (ps_pid s) with
    | Some s' => bool_decide (ps_start_time_secs s' = ps_start_time_secs s)
    | None => false
    end.
Proof.
  intros Hin. apply eq_true_iff_eq. unfold survives. rewrite existsb_exists. split.
  - intros (s' & Hs' & [Hp Ht]%andb_true_iff). apply list_elem_of_In, list_elem_of_omap in Hs' as (p & _ & Hs').
    apply bool_decide_eq_true in Hp. rewrite <- Hp, (snapshot_pid _ _ _ Hs'), Hs'. done.
  - destruct (snapshot pf' blake3 (ps_pid s)) as [s'|] eqn:Hs'; [|done]. intros Ht. exists s'.
    rewrite Ht, bool_decide_eq_true_2 by (by apply snapshot_pid in Hs'). split; [|done].
    apply list_elem_of_In, list_elem_of_omap. eauto.
Qed.

Lemma killed_gone pf pf' (pids : list N) :
  killed (omap (snapshot pf' blake3) pids) (omap (snapshot pf blake3) pids) = omap (gone blake3 pf pf') pids.
Proof.
  assert (∀ l, l ⊆ pids → killed (omap (snapshot pf' blake3) pids) (omap (snapshot pf blake3) l)
    = omap (gone blake3 pf pf') l) as Hgo; [|by apply Hgo].
  induction l as [|p l IH]; intros Hl; [done|]. cbn [omap list_omap]. unfold gone at 1.
  destruct (snapshot pf blake3 p) as [s|] eqn:Hs; [|apply IH; set_solver].
  unfold killed in *. cbn [List.filter]. rewrite survives_at by (rewrite (snapshot_pid _ _ _ Hs); set_solver).
  rewrite (snapshot_pid _ _ _ Hs). destruct (snapshot pf' blake3 p) as [s'|]; [case_bool_decide|]; simpl.
  all: rewrite IH by set_solver; done.
Qed.

(** [kill] with a signal and numbers. The two reports of its wrapper, with
    anything but other reports on processes between them, leave one event per
    named process that was there before and is not any more (or whose number
    is another process's now), in the order of the arguments, each with the
    arguments, directory, parent and summary of the environment of the
    process, and the signal. *)
Theorem kill_journaled pf pf' sig (pids : list N) :
  looks_like_signal sig = true → line_ok (String "-" sig) → pids ≠ [] → NoDup pids →
  Forall (λ p, 0 < p < 2 ^ 31)%N pids →
  let argv := joined (String "-" sig :: (pretty <$> pids)) in
  let kinds := kill_event (name_or_number_to_signum sig) <$> omap (gone blake3 pf pf') pids in
  ∀ pid pid', ∃ first second,
    proc_event pf blake3 ProcTool.Kill PkgPhase.Pre false argv pid = Some first
    ∧ proc_event pf' blake3 ProcTool.Kill PkgPhase.Post false argv pid' = Some second
    ∧ ∀ p p' d d' (c : CommandId), resolve p d pid = Some c → resolve p' d' pid' = Some c →
      quiet touches_proc (tier_handle host p d (ProcEvent first)) d' → room (d_db d') c kinds →
      ∃ es, cmd_journal c (d_db (tier_handle host p' d' (ProcEvent second))) = cmd_journal c (d_db d') ++ es
        ∧ e_kind <$> es = kinds ∧ Forall (λ e, e_partial e = false) es.
Proof.
  intros Hs Hl Hne Hn Hp argv kinds pid pid'. eexists _, _.
  split_and!; [by apply proc_event_kill|by apply proc_event_kill|]. intros p p' d d' c Hr Hr' Hq Ha.
  pose proof (signal_of_argv sig pids Hs) as Hsig. clear argv.
  remember (String "-" sig :: (pretty <$> pids)) as toks eqn:Htoks. clear Htoks. apply without_proc in Hq. simpl in Hq. unfold proc_handle in Hq. cbn [pr_phase pr_pid] in Hq. rewrite Hr in Hq.
  simpl in Hq. simpl. unfold proc_handle. cbn [pr_phase pr_pid pr_tool pr_targets]. rewrite Hr', Hq. simpl.
  rewrite lookup_insert_eq. simpl. rewrite Hsig. unfold kinds in *. rewrite <- killed_gone in *.
  by apply (record_killed_journal host c _ _ _ (set_tiers d' _)).
Qed.

End Reports.

End ClientRuns.
