(* ===== verification/TierUndo.v ===== *)
(** * Undoing a change of the system

    Packages and services, all the way: the reports of the wrappers in the
    journal, the plan, the executors the daemon wires, and what the package
    manager and [systemctl] promise. *)

From S2P Require Import Prelude Paths Base Events Inverse Cohort Probe Classify Network Plan PlanFacts.
From S2P Require Import PlanForward Executor Env Orchestrator OrchestratorFacts Fs FileExec FileFacts Undo.
From S2P Require Import Edits Redirect Runners Text Packages Containers Notes NetworkDiff SystemFacts.
From S2P Require Import NetworkFacts Tables Index Blobs Retention StoreFacts StorePlan TierStash Active.
From S2P Require Import Baseline WatchReady Daemon HelperEvents TierTrack UndoCtl DaemonFacts UndoSteps.
From S2P Require Import DaemonRuns TierRuns.

Module TierUndo.
Import Plan PlanForward PlanFacts Executor Orchestrator OrchestratorFacts Fs FileExec Undo.
Import Runners Index StoreFacts StorePlan Daemon TierTrack UndoCtl DaemonFacts TierTrackFacts UndoSteps.
Import DaemonRuns TierRuns.

(** The executors [handle_undo] builds; those of containers and cloud tools
    are arguments. [stash] writes the temporary file of a network dump. *)
Definition daemon_tiers {T} (exec : list string → T → Exec * T) (is_file : string → bool) (uid : string)
    (stash : bytes → T → (string + Msg) * T)
    (container terraform kubectl gh : InverseOp → bool → ConflictPolicy → T → ExecutionOutcome * T) : Tiers T :=
  mkTiers (Packages.package_execute (pkg_run exec is_file) Packages.default_capture)
    (Services.service_execute uid (svc_run exec is_file))
    (NetworkExec.network_execute (net_run exec is_file) stash)
    container terraform kubectl gh.

(** The executors as the daemon wires them for one request: tarballs come
    from its blob store. *)
Definition system_tiers {T} `{!Blobs.BlobCodec} (px : Programs T) (is_file : string → bool) (uid : string)
    (stash : bytes → T → (string + Msg) * T) (stash_state : bytes → PathBuf → T → (PathBuf + Msg) * T)
    (json_of : bytes → Json.Json + Msg) (files : Blobs.BlobFiles) : Tiers T :=
  daemon_tiers (px_exec px) is_file uid stash
    (Containers.container_execute px json_of (λ h, match Blobs.get files h with inl b => Some b | inr _ => None end))
    (Clouds.terraform_execute px stash_state) (Clouds.kubectl_execute px) (Clouds.gh_execute px json_of).

(** ** Plans of packages, services, networks and containers *)

(** The inverse of an event of these tiers. *)
Definition rollback_of (syn : Network.NetSynth) (e : CaptureEvent) : option InverseOp :=
  match e_kind e with
  | CaptureEventKind.PackageOp manager op before after hint =>
      Some (InverseOp.PackageRollback manager op before after hint (native_delegation_for manager hint))
  | CaptureEventKind.SystemdOp scope unit before after => Some (InverseOp.SystemdRollback scope unit before after)
  | CaptureEventKind.NetworkOp tool before after invs => n_op <$> head (emit_network syn tool before after invs).1
  | CaptureEventKind.ContainerOp runtime op config image tarball =>
      n_op <$> head (emit_container runtime op config image tarball).1
  | _ => None
  end.

Lemma plan_system syn ord (store : PlannerStore) (probe : StateProbe) (command : CommandRecord)
    (evs : list CaptureEvent) (ops : list InverseOp) :
  refuse_plan command = None → chronological evs → Forall (λ e, e_partial e = false) evs →
  Forall2 (λ e op, rollback_of syn e = Some op) (reverse evs) ops →
  (λ n, (n_op n, n_conflict n)) <$> p_nodes (plan syn ord command evs probe store) = (λ op, (op, None)) <$> ops.
Proof.
  intros Hrf Hc Hp Hops. unfold plan. rewrite Hrf. cbn [p_nodes]. rewrite reverse_order by done.
  rewrite Cohort.assign_cohorts_ops. generalize (classify ord (reverse evs) probe). intros class. clear Hc Hp.
  induction Hops as [|e op l ops He _ IH]; [done|]. rewrite !fmap_cons. cbn [concat]. rewrite fmap_app, IH.
  assert ((emit_or_skip syn probe store class e).1 = [node op None]) as ->; [|done].
  unfold rollback_of in He. unfold emit_or_skip, skipped, event_path, emit_for_event.
  unfold emit_network in *. destruct (e_kind e); try done; repeat case_match; simplify_eq/=; done.
Qed.

(** ** Running them *)

Section Run.
Context {P : Type} `{!Postcard P} `{!PostcardLaws P} `{!Blobs.BlobCodec} `{!Blobs.BlobCodecLaws} {T : Type}.
Context (syn : Network.NetSynth) (ord : HashOrder InodeRef (gset PathBuf))
        (cmd_ord : HashOrder CommandId CommandRow).
Context (router : PrivilegedOpRouter) (may_chown : FS → PathBuf → N → N → bool)
        (tmp_name : string) (os : Os) (tiers : Tiers T) (state_home : bool).
Context (globset : list string → (PathBuf → bool) + Msg).
Implicit Types (d : Daemon P) (w : World T).

Abbreviation request := (handle_undo syn ord cmd_ord router may_chown tmp_name os tiers state_home globset).
Abbreviation world_runtime d sess target :=
  (multi_runtime router may_chown tmp_name os tiers state_home (d_files d) sess target).

Definition tier_exec (op : InverseOp) (t : T) : option (ExecutionOutcome * T) :=
  match op with
  | InverseOp.PackageRollback _ _ _ _ _ _ => Some (package_executor tiers op false ConflictPolicy.Abort t)
  | InverseOp.SystemdRollback _ _ _ _ => Some (service_executor tiers op false ConflictPolicy.Abort t)
  | InverseOp.NetworkRollback _ _ _ => Some (network_executor tiers op false ConflictPolicy.Abort t)
  | InverseOp.ContainerRestore _ _ _ _ _ _ => Some (container_executor tiers op false ConflictPolicy.Abort t)
  | _ => None
  end.

(** Done, or nothing to do. *)
Definition benign (o : ExecutionOutcome) : Prop :=
  o = ExecutionOutcome.Applied ∨ ∃ m, o = ExecutionOutcome.Skipped m.

Inductive tier_runs : list InverseOp → T → T → Prop :=
  | tier_runs_nil t : tier_runs [] t t
  | tier_runs_cons op ops t o t1 t2 :
      tier_exec op t = Some (o, t1) → benign o → tier_runs ops t1 t2 → tier_runs (op :: ops) t t2.

Definition uneventful (r : ExecutionRecord) : Prop :=
  is_failed r = false ∧ is_conflicted r = false ∧ is_refused r = false.

Lemma execute_one_tiers d sess target i (n : PlanNode) w (o : ExecutionOutcome) (t1 : T) :
  n_conflict n = None → tier_exec (n_op n) (w_tiers w) = Some (o, t1) →
  execute_one (world_runtime d sess target) None i n false ConflictPolicy.Abort w
  = (mkRecord i (n_op n) (tier (n_op n)) (from_outcome o) (outcome_detail o), mkWorld (w_fs w) (w_queues w) t1).
Proof.
  intros Hcf He. unfold execute_one, attempt, effective_conflict. rewrite Hcf. unfold tier_exec in He.
  destruct (n_op n); try done; injection He as He; cbn;
    unfold multi_execute, supports, lift_tiers; cbn; by rewrite He.
Qed.

Lemma run_from_tiers d sess target (ops : list InverseOp) : ∀ nodes i w t',
  (λ n, (n_op n, n_conflict n)) <$> nodes = (λ op, (op, None)) <$> ops →
  tier_runs ops (w_tiers w) t' →
  ∃ recs, run_from (world_runtime d sess target) None i nodes false ConflictPolicy.Abort w
      = (recs, mkWorld (w_fs w) (w_queues w) t') ∧ Forall uneventful recs.
Proof.
  induction ops as [|op ops IH]; intros [|n nodes] i w t' Hn Hr; try done.
  { inversion_clear Hr. exists []. by destruct w. }
  rewrite !fmap_cons in Hn. injection Hn as Hop Hcf Hn. inversion Hr as [|? ? ? o t1 ? He Hb Hr']; subst.
  destruct (IH nodes (S i) (mkWorld (w_fs w) (w_queues w) t1) t' Hn Hr') as (recs & Hrun & Hrecs).
  cbn [run_from]. rewrite (execute_one_tiers d sess target i n w o t1 Hcf He). cbn [r_outcome_kind].
  assert (halts ConflictPolicy.Abort (from_outcome o) = false) as -> by by destruct Hb as [->|[m ->]].
  rewrite Hrun. eexists. split; [done|]. constructor; [|done]. unfold tier_exec in He.
  destruct (n_op n), Hb as [->|[m ->]]; done.
Qed.

(** Nothing failed, was in conflict or refused. *)
Definition harmless (r : UndoReportWire) : Prop :=
  (ops_failed r = 0 ∧ ops_conflicted r = 0 ∧ ops_refused r = 0)%N.

Lemma tally_uneventful (cmd : CommandRecord) (recs : list ExecutionRecord) (r : UndoReportWire) :
  Forall uneventful recs → harmless r → harmless (foldl (tally cmd) r recs).
Proof.
  intros Hu (H1 & H2 & H3). destruct (tally_all_counts cmd recs r) as (_ & _ & _ & B4 & B5 & B6).
  assert (∀ p, (∀ rec, uneventful rec → p rec = false) → count_in p recs = 0) as Hz.
  { intros p Hp. unfold count_in. rewrite list_filter_none; [done|]. intros rec Hrec. apply Hp.
    rewrite Forall_forall in Hu. by apply Hu. }
  rewrite Hz in B4, B5, B6 by (by intros rec (? & ? & ?)). rewrite H1 in B4. rewrite H2 in B5. by rewrite H3 in B6.
Qed.

(** One step of undo on a command whose events are of these tiers. *)
Lemma request_tiers d (req : UndoRequest) (rec : CommandRecord) (ops : list InverseOp) w (t' : T) :
  db_ok (d_db d) → ur_dry_run req = false → ur_on_conflict req = ConflictPolicyWire.Abort → ur_paths req = [] →
  list_recent_commands cmd_ord (d_db d) (N.max (ur_steps req) 1) = [rec] → refuse_plan rec = None →
  let evs := sort_events (cmd_journal (c_command rec) (d_db d)) in
  Forall (λ e, e_partial e = false) evs → Forall2 (λ e op, rollback_of syn e = Some op) (reverse evs) ops →
  tier_runs ops (w_tiers w) t' →
  ∃ r, request d req w = (inl r, mkWorld (w_fs w) (w_queues w) t') ∧ commands_attempted r = 1%N ∧ harmless r.
Proof.
  intros Hi Hdry Hpol Hpaths Hlist Hrf evs Hpart Hops Hruns.
  unfold handle_undo. rewrite Hpaths. simpl. rewrite Hlist. cbn [undo_commands]. rewrite Hdry, Hpol.
  unfold undo_command. cbn [policy_of]. set (store := index_store (d_db d)).
  pose proof (events_for_command_journal (d_db d) (c_command rec)) as Hj. fold store in Hj.
  assert (unique_ids (events_for_command store (c_command rec))) as Hu by (apply command_events_unique, Hi).
  assert (events_for_command store (c_command rec) ≡ₚ evs) as Hp by (unfold evs, sort_events; by rewrite Hj, sort_by_perm).
  rewrite (plan_store_ext syn ord rec _ _ _ store store Hu Hp); [|done].
  assert (chronological evs) as Hc.
  { split; [by eapply unique_ids_perm|]. apply sort_by_sorted; [apply event_leb_total|apply event_leb_trans]. }
  pose proof (plan_system syn ord store (live_probe Blobs.hash_bytes (w_fs w)) rec evs ops Hrf Hc Hpart Hops) as Hn.
  unfold run.
  match goal with |- context [multi_runtime _ _ _ _ _ _ _ ?sess ?target] =>
    destruct (run_from_tiers d sess target ops _ 0 w t' Hn Hruns) as (recs & Hrun & Hrecs) end.
  rewrite Hrun. eexists. split; [done|]. cbn [records].
  destruct (tally_all_counts rec recs (attempted (mkUndoReport 0 0 0 0 0 0 false [] []))) as (B1 & _).
  split; [by rewrite B1|]. by apply tally_uneventful.
Qed.

Lemma tier_runs_app (ops ops' : list InverseOp) (t t1 t2 : T) :
  tier_runs ops t t1 → tier_runs ops' t1 t2 → tier_runs (ops ++ ops') t t2.
Proof. induction 1; [done|]. intros H'. econstructor; eauto. Qed.

End Run.

(** ** The daemon's executors *)

Section System.
Context {P : Type} `{!Postcard P} `{!PostcardLaws P} `{!Blobs.BlobCodec} `{!Blobs.BlobCodecLaws} {T : Type}.
Context (syn : Network.NetSynth) (ord : HashOrder InodeRef (gset PathBuf))
        (cmd_ord : HashOrder CommandId CommandRow).
Context (router : PrivilegedOpRouter) (may_chown : FS → PathBuf → N → N → bool)
        (tmp_name : string) (os : Os) (state_home : bool) (globset : list string → (PathBuf → bool) + Msg).
Context (exec : list string → T → Exec * T) (is_file : string → bool) (uid : string)
        (stash : bytes → T → (string + Msg) * T)
        (container terraform kubectl gh : InverseOp → bool → ConflictPolicy → T → ExecutionOutcome * T).
Implicit Types (d : Daemon P) (w : World T).

Abbreviation wired := (daemon_tiers exec is_file uid stash container terraform kubectl gh).
Abbreviation request := (handle_undo syn ord cmd_ord router may_chown tmp_name os wired state_home globset).

(** *** Packages *)

Section Packages.
Context (manager : PackageManager) (inst : T → Packages.Pkgs)
        (offered : string → string → Prop) (closed : Packages.Pkgs → Prop).
Context `{!PackageFacts.PackageSystem manager (pkg_run exec is_file) inst offered closed}.

(** A blank hint is no history identifier. *)
Lemma blank_not_digits (s : string) : trim s = "" → Packages.all_digits s = false ∨ s = "".
Proof.
  destruct s as [|c s]; [by right|]. intros Ht. left. unfold Packages.all_digits. simpl.
  destruct (Redirect.is_ascii_digit c) eqn:Hd; [|done]. exfalso. revert Ht.
  assert (Ascii.is_space c = false) as Hs.
  { revert Hd. destruct c as [[] [] [] [] [] [] [] []]; vm_compute; congruence. }
  unfold trim. simpl. rewrite Hs. simpl. rewrite Hs. by destruct (trim_end s).
Qed.

Lemma no_delegation_per_package hint :
  manager ≠ PackageManager.Brew → native_delegation_for manager hint = None →
  PackageFacts.per_package manager hint.
Proof.
  intros Hb Hn. split; [done|]. intros Hm id ->. rewrite Hm in Hn. simpl in Hn.
  case_bool_decide as He; [|done]. by apply blank_not_digits.
Qed.

(** Transactions one after the other, in the order of the journal: from the
    first set of packages to the last. Every one is complete, its old versions
    can still be had, and the sets on the way back have their dependencies. *)
Inductive transactions : list CaptureEvent → Packages.Pkgs → Packages.Pkgs → Prop :=
  | transactions_nil m : transactions [] m m
  | transactions_cons e op hint l m0 m1 m2 :
      e_partial e = false → e_kind e = CaptureEventKind.PackageOp manager op m0 m1 hint →
      native_delegation_for manager hint = None →
      (∀ n v, m0 !! n = Some v → m1 !! n ≠ Some v → offered n v) →
      PackageFacts.stages_closed manager closed m0 m1 →
      transactions l m1 m2 → transactions (e :: l) m0 m2.

Lemma transactions_run (l : list CaptureEvent) (m0 m2 : Packages.Pkgs) (t : T) :
  manager ≠ PackageManager.Brew → transactions l m0 m2 → inst t = m2 →
  ∃ ops t', Forall2 (λ e op, rollback_of syn e = Some op) (reverse l) ops
    ∧ tier_runs wired ops t t' ∧ inst t' = m0.
Proof.
  intros Hb Htx. induction Htx as [m|e op hint l m0 m1 m2 Hp Hk Hn Ho Hc _ IH]; intros Ht.
  { exists [], t. by split_and!; [|constructor|]. }
  destruct (IH Ht) as (ops & t1 & Hops & Hr & Ht1).
  destruct (PackageFacts.package_execute_restores manager (pkg_run exec is_file) inst offered closed m0 m1 Ho
    Packages.default_capture op hint ConflictPolicy.Abort t1 (no_delegation_per_package hint Hb Hn) Ht1 Hc)
    as (t' & Hx & Ht').
  exists (ops ++ [InverseOp.PackageRollback manager op m0 m1 hint None]), t'. split_and!; [| |done].
  - rewrite reverse_cons. apply Forall2_app; [done|]. constructor; [|constructor].
    unfold rollback_of. by rewrite Hk, Hn.
  - eapply tier_runs_app; [done|]. econstructor; [cbn [tier_exec package_executor daemon_tiers]; by rewrite Hx| |constructor].
    case_bool_decide; [right; eauto|by left].
Qed.

Lemma transactions_complete l m0 m2 : transactions l m0 m2 → Forall (λ e, e_partial e = false) l.
Proof. induction 1; by constructor. Qed.

(** C13. Undo of package transactions. The last command ran any number of
    transactions of one manager and their reports are in the journal. Then
    undoing one step brings back exactly the packages and versions there were
    before the first of them, with nothing failed, in conflict or refused,
    and touches nothing but the packages. The manager is assumed to install
    and remove what it is told where the versions are offered and the
    dependencies met; transactions it would roll back itself are left out
    ([PackageFacts.native_rollback_always_refused]), and so is [brew], which
    is not told versions ([PackageFacts.brew_forgets_version]). *)
Theorem package_undo_restores d (req : UndoRequest) (rec : CommandRecord) w (m0 m2 : Packages.Pkgs) :
  inv d → ur_dry_run req = false → ur_on_conflict req = ConflictPolicyWire.Abort → ur_paths req = [] →
  list_recent_commands cmd_ord (d_db d) (N.max (ur_steps req) 1) = [rec] → refuse_plan rec = None →
  manager ≠ PackageManager.Brew →
  transactions (sort_events (cmd_journal (c_command rec) (d_db d))) m0 m2 → inst (w_tiers w) = m2 →
  ∃ r t', request d req w = (inl r, mkWorld (w_fs w) (w_queues w) t')
    ∧ commands_attempted r = 1%N ∧ harmless r ∧ inst t' = m0.
Proof.
  intros Hi Hdry Hpol Hpaths Hlist Hrf Hb Htx Ht.
  destruct (transactions_run _ _ _ _ Hb Htx Ht) as (ops & t' & Hops & Hr & Ht').
  destruct (request_tiers syn ord cmd_ord router may_chown tmp_name os wired state_home globset d req rec ops w t')
    as (r & Hreq & Hn & Hh); try done; [apply Hi|by eapply transactions_complete|]. by exists r, t'.
Qed.

End Packages.

(** *** Services *)

Section Services.
Context (host : Host) (blake3 : string → list N) (filter : Env.EnvFilter) (kernel_tier : string).
Context (parse_uuid : string → option Uuid).
Context (path_ord : HashOrder PathBuf InodeRef)
        (cwd_ord : HashOrder PathBuf Baseline.BaselineCacheEntry)
        (blob_ord : HashOrder BlobHash BlobRow) (stash_ord : HashOrder BlobHash StashRow).
Context (unit_at : T → SystemdScope → string → ServiceFacts.UnitState) (installable : string → Prop).
Context `{!ServiceFacts.Systemctl (svc_run exec is_file) unit_at installable}.

Abbreviation dreaches := (reaches host blake3 filter kernel_tier parse_uuid path_ord cwd_ord cmd_ord blob_ord stash_ord).
Abbreviation quiet_svc := (reaches_without host blake3 filter kernel_tier parse_uuid path_ord cwd_ord cmd_ord blob_ord
  stash_ord touches_svc).

(** The executor, on what [systemctl show] said before and after. *)
Lemma service_execute_restores scope unit (before after : ServiceState) policy (t : T) :
  ServiceFacts.systemd_scope scope = true → (enabled before ≠ enabled after → installable unit) →
  (masked before = true → enabled before = false) →
  ServiceFacts.shows (unit_at t scope unit) after →
  ServiceFacts.plain_change before after (unit_at t scope unit) →
  ∃ o t', Services.service_execute uid (svc_run exec is_file) (InverseOp.SystemdRollback scope unit before after)
      false policy t = (o, t') ∧ benign o ∧ ServiceFacts.shows (unit_at t' scope unit) before.
Proof.
  intros Hs Hi Hm Hsh Hpc.
  destruct (ServiceFacts.systemctl_leads_back (svc_run exec is_file) unit_at installable scope unit before after
    Hs Hi _ Hsh Hm Hpc) as (u' & Hl & Hu'). destruct (Hl t eq_refl) as (t' & Hr & Ht').
  rewrite <- Ht' in Hu'. unfold Services.service_execute, Services.synthesize_argv.
  assert ((match scope with
    | SystemdScope.User | SystemdScope.System => Services.systemctl_argv scope unit before after
    | SystemdScope.LaunchdGui | SystemdScope.LaunchdSystem => Services.launchctl_argv uid scope unit before after
    | SystemdScope.RcBase => Services.service_argv unit before after
    end) = Services.systemctl_argv scope unit before after) as -> by by destruct scope.
  destruct (Services.systemctl_argv scope unit before after) as [|argv l].
  - injection Hr as ->. eexists _, t'. split_and!; [done|right; eauto|done].
  - rewrite Hr. eexists _, t'. by split_and!; [|left|].
Qed.

(** C14. Undo of a service change, from its first report on. The wrapper of
    [systemctl] reports a unit, the command changes it, and the wrapper
    reports the same unit again, with anything but other reports on services
    and sweeps of the trackers in between; the change is the first thing
    journaled of the command, and the index takes it. The unit is one
    [systemctl] can enable when the change was of that; a command that masked
    it left its links alone, and one that was masked before and after was not
    started in between. Then anything may reach the daemon as long as this
    command keeps its journal and is the last that completed. Undoing one step
    takes the unit, if it still is as the second report showed it, back to what
    the first one showed: running, enabled and masked as it was. *)
Theorem service_undo_restores X d d1 d2 (p0 p1 : N → option N) (pre post : TierStash.SvcEventReq)
    (rec : CommandRecord) (apply_shell : bool) w :
  let c := c_command rec in
  let d' := tier_handle host p1 d1 (SvcEvent post) in
  let before := Services.parse_systemctl_show (TierStash.sv_state_raw pre) in
  let after := Services.parse_systemctl_show (TierStash.sv_state_raw post) in
  let scope := TierStash.sv_scope post in
  let unit := TierStash.sv_unit post in
  inv d → TierStash.sv_phase pre = TierStash.PkgPhase.Pre → TierStash.sv_phase post = TierStash.PkgPhase.Post →
  TierStash.sv_tool pre = TierStash.SvcTool.Systemctl → TierStash.sv_tool post = TierStash.SvcTool.Systemctl →
  TierStash.sv_unit pre = unit → ServiceFacts.systemd_scope scope = true →
  resolve p0 d (TierStash.sv_pid pre) = Some c → resolve p1 d1 (TierStash.sv_pid post) = Some c →
  quiet_svc (tier_handle host p0 d (SvcEvent pre)) d1 →
  cmd_journal c (d_db d1) = [] → before ≠ after →
  accepts (d_db d1) c (CaptureEventKind.SystemdOp scope unit before after) →
  dreaches d' X d2 → cmd_journal c (d_db d2) = cmd_journal c (d_db d') →
  list_recent_commands cmd_ord (d_db d2) 1 = [rec] → refuse_plan rec = None →
  (enabled before ≠ enabled after → installable unit) →
  ServiceFacts.shows (unit_at (w_tiers w) scope unit) after →
  ServiceFacts.plain_change before after (unit_at (w_tiers w) scope unit) →
  ∃ r t', request d2 (mkUndo 1 false ConflictPolicyWire.Abort [] apply_shell) w
      = (inl r, mkWorld (w_fs w) (w_queues w) t')
    ∧ commands_attempted r = 1%N ∧ harmless r ∧ ServiceFacts.shows (unit_at t' scope unit) before.
Proof.
  intros c d' before after scope unit Hi Hpre Hpost Ht0 Ht1 Hu Hs Hr0 Hr1 Hq Hj1 Hne Ha Hre Hj2 Hlist Hrf Hin Hsh Hpc.
  pose proof (svc_reports_paired host blake3 filter kernel_tier parse_uuid path_ord cwd_ord cmd_ord blob_ord stash_ord
    p0 p1 d d1 pre post c Hpre Hpost) as Hpair.
  rewrite Ht0, Ht1, Hu in Hpair. destruct (Hpair eq_refl eq_refl Hr0 Hr1 Hq Hne Ha) as (e & Hj & Hk & Hp).
  assert (inv (tier_handle host p0 d (SvcEvent pre))) as Hi0 by by apply tier_handle_inv.
  apply without_reaches in Hq as HY. destruct HY as [Y HY].
  assert (inv_but Y d1) as Hi1 by (eapply reaches_inv; [exact Hi0|exact HY]).
  assert (inv_but (Y ∪ X) d2) as Hi2 by (eapply reaches_inv_but; [|exact Hre]; by apply tier_handle_inv).
  destruct (service_execute_restores scope unit before after ConflictPolicy.Abort (w_tiers w))
    as (o & t' & Hx & Ho & Ht'); try done; [apply ServiceFacts.parse_masked_not_enabled|].
  fold d' in Hj. rewrite Hj1 in Hj. simpl in Hj. rewrite Hj in Hj2.
  destruct (request_tiers syn ord cmd_ord router may_chown tmp_name os wired state_home globset d2
    (mkUndo 1 false ConflictPolicyWire.Abort [] apply_shell) rec [InverseOp.SystemdRollback scope unit before after] w t')
    as (r & Hreq & Hn & Hh); try done.
  - apply Hi2.
  - fold c. rewrite Hj2. by constructor.
  - fold c. rewrite Hj2. cbn. constructor; [|constructor]. unfold rollback_of. by rewrite Hk.
  - econstructor; [cbn [tier_exec service_executor daemon_tiers]; by rewrite Hx|done|constructor].
  - by exists r, t'.
Qed.

End Services.

End System.

End TierUndo.

(** * Undoing a change of the routes

    From the two reports of the wrapper of [ip route] to the request that
    undoes the command: the journal, the plan with the invocations derived
    from the two dumps, and the executor that runs them. *)

Module NetworkUndo.
Import Plan PlanFacts Executor Orchestrator Fs FileExec Undo Runners NetworkDiff NetworkFacts Index StoreFacts StorePlan.
Import TierStash Daemon TierTrack UndoCtl DaemonFacts TierTrackFacts UndoSteps DaemonRuns TierRuns TierUndo.

Section Routes.
Context {P : Type} `{!Postcard P} `{!PostcardLaws P} `{!Blobs.BlobCodec} `{!Blobs.BlobCodecLaws} {T : Type}.
Context (json : NetJson) (if_ord if_ord' : HashOrder string IpAddrIface).
Context (ord : HashOrder InodeRef (gset PathBuf)) (cmd_ord : HashOrder CommandId CommandRow).
Context (router : PrivilegedOpRouter) (may_chown : FS → PathBuf → N → N → bool)
        (tmp_name : string) (os : Os) (state_home : bool) (globset : list string → (PathBuf → bool) + Msg).
Context (exec : list string → T → Exec * T) (is_file : string → bool) (uid : string)
        (stash : bytes → T → (string + Msg) * T)
        (container terraform kubectl gh : InverseOp → bool → ConflictPolicy → T → ExecutionOutcome * T).
Context (host : Host) (blake3 : string → list N) (filter : Env.EnvFilter) (kernel_tier : string).
Context (parse_uuid : string → option Uuid).
Context (path_ord : HashOrder PathBuf InodeRef)
        (cwd_ord : HashOrder PathBuf Baseline.BaselineCacheEntry)
        (blob_ord : HashOrder BlobHash BlobRow) (stash_ord : HashOrder BlobHash StashRow).
Context (routes : T → gmap RouteId IpRouteRow) (good : IpRouteRow → Prop)
        (fits : gmap RouteId IpRouteRow → IpRouteRow → Prop).
Context `{!RouteTool (net_run exec is_file) routes good fits}.
Implicit Types (d : Daemon P) (w : World T).

Abbreviation syn := (network_diff json if_ord if_ord').
Abbreviation wired := (daemon_tiers exec is_file uid stash container terraform kubectl gh).
Abbreviation request := (handle_undo syn ord cmd_ord router may_chown tmp_name os wired state_home globset).
Abbreviation dreaches := (reaches host blake3 filter kernel_tier parse_uuid path_ord cwd_ord cmd_ord blob_ord stash_ord).
Abbreviation quiet_net := (reaches_without host blake3 filter kernel_tier parse_uuid path_ord cwd_ord cmd_ord blob_ord
  stash_ord touches_net).

(** The executor, on the invocations of the plan. *)
Lemma network_execute_restores (before : bytes) (pre post : list IpRouteRow) policy (t : T) :
  NoDup (route_identity <$> pre) → NoDup (route_identity <$> post) → unchanged_rows route_identity pre post →
  Forall good (pre ++ post) →
  all_fit route_identity fits (missing route_identity pre post) (common route_identity pre post) →
  routes t = rows route_identity post →
  ∃ o t', NetworkExec.network_execute (net_run exec is_file) stash
      (InverseOp.NetworkRollback NetworkTool.IpRoute before (route_inverse pre post)) false policy t = (o, t')
    ∧ benign o ∧ routes t' = rows route_identity pre.
Proof.
  intros Hn0 Hn1 Hu Hg Hf Ht.
  destruct (route_inverse_restores (net_run exec is_file) routes good fits pre post t) as (t' & Hr & Ht'); try done.
  cbn [NetworkExec.network_execute Network.restore_method]. unfold NetworkExec.diff_apply.
  destruct (route_inverse pre post) as [|argv l].
  - injection Hr as ->. eexists _, t'. split_and!; [done|right; eauto|done].
  - rewrite Hr. eexists _, t'. by split_and!; [|left|].
Qed.

(** Undo of route changes, from the first report on. The wrapper of
    [ip route] reports the routing table, the command adds and removes routes,
    the wrapper reports again, with anything but other network reports in
    between; then anything may reach the daemon as long as this command keeps
    its journal and is the last that completed. Undoing one step gives exactly
    the routes of the first report. Routes are assumed to be added and removed,
    not changed under their key ([NetworkFacts.route_change_not_undone]), and
    each removed one to be acceptable to the kernel when its turn comes. *)
Theorem route_undo_restores X d d1 d2 (p0 p1 : N → option N) (first second : NetEventReq)
    (rec : CommandRecord) (apply_shell : bool) w (pre post : list IpRouteRow) :
  let c := c_command rec in
  let d' := tier_handle host p1 d1 (NetEvent second) in
  let kind := CaptureEventKind.NetworkOp NetworkTool.IpRoute (nt_state_raw first) (nt_state_raw second) [] in
  inv d → nt_phase first = PkgPhase.Pre → nt_phase second = PkgPhase.Post →
  nt_tool first = NetworkTool.IpRoute → nt_tool second = NetworkTool.IpRoute →
  nt_scope_hint second = nt_scope_hint first →
  resolve p0 d (nt_pid first) = Some c → resolve p1 d1 (nt_pid second) = Some c →
  quiet_net (tier_handle host p0 d (NetEvent first)) d1 →
  cmd_journal c (d_db d1) = [] → nt_state_raw first ≠ nt_state_raw second → accepts (d_db d1) c kind →
  dreaches d' X d2 → cmd_journal c (d_db d2) = cmd_journal c (d_db d') →
  list_recent_commands cmd_ord (d_db d2) 1 = [rec] → refuse_plan rec = None →
  json_routes json (nt_state_raw first) = Some pre → json_routes json (nt_state_raw second) = Some post →
  NoDup (route_identity <$> pre) → NoDup (route_identity <$> post) → unchanged_rows route_identity pre post →
  Forall good (pre ++ post) →
  all_fit route_identity fits (missing route_identity pre post) (common route_identity pre post) →
  routes (w_tiers w) = rows route_identity post →
  ∃ r t', request d2 (mkUndo 1 false ConflictPolicyWire.Abort [] apply_shell) w
      = (inl r, mkWorld (w_fs w) (w_queues w) t')
    ∧ commands_attempted r = 1%N ∧ harmless r ∧ routes t' = rows route_identity pre.
Proof.
  intros c d' kind Hi Hpre Hpost Ht0 Ht1 Hh Hr0 Hr1 Hq Hj1 Hne Ha Hre Hj2 Hlist Hrf Hd0 Hd1 Hn0 Hn1 Hu Hg Hf Ht.
  pose proof (net_reports_paired host blake3 filter kernel_tier parse_uuid path_ord cwd_ord cmd_ord blob_ord stash_ord
    p0 p1 d d1 first second c Hpre Hpost) as Hpair.
  rewrite Ht0, Ht1 in Hpair. destruct (Hpair eq_refl Hh Hr0 Hr1 Hq Hne Ha) as (e & Hj & Hk & Hp).
  assert (inv (tier_handle host p0 d (NetEvent first))) as Hi0 by by apply tier_handle_inv.
  apply without_reaches in Hq as HY. destruct HY as [Y HY].
  assert (inv_but Y d1) as Hi1 by (eapply reaches_inv; [exact Hi0|exact HY]).
  assert (inv_but (Y ∪ X) d2) as Hi2 by (eapply reaches_inv_but; [|exact Hre]; by apply tier_handle_inv).
  destruct (network_execute_restores (nt_state_raw first) pre post ConflictPolicy.Abort (w_tiers w))
    as (o & t' & Hx & Ho & Ht'); try done.
  fold d' in Hj. rewrite Hj1 in Hj. simpl in Hj. rewrite Hj in Hj2.
  destruct (request_tiers syn ord cmd_ord router may_chown tmp_name os wired state_home globset d2
    (mkUndo 1 false ConflictPolicyWire.Abort [] apply_shell) rec
    [InverseOp.NetworkRollback NetworkTool.IpRoute (nt_state_raw first) (route_inverse pre post)] w t')
    as (r & Hreq & Hn & Hharm); try done.
  - apply Hi2.
  - fold c. rewrite Hj2. by constructor.
  - fold c. rewrite Hj2. cbn. constructor; [|constructor]. unfold rollback_of. rewrite Hk.
    cbn. unfold decoded. by rewrite Hd0, Hd1.
  - econstructor; [cbn [tier_exec network_executor daemon_tiers]; by rewrite Hx|done|constructor].
  - by exists r, t'.
Qed.

End Routes.

End NetworkUndo.

(** * Undoing the removal of an image

    From the report of the wrapper of [docker rmi], which carries the saved
    image, through the blob store, the journal and the plan, to [docker load]
    with exactly these bytes. *)

Module ContainerUndo.
Import Plan PlanFacts Executor Orchestrator Fs FileExec Undo Runners Json Containers Index StoreFacts StorePlan.
Import TierStash Daemon TierTrack UndoCtl DaemonFacts TierTrackFacts UndoSteps DaemonRuns TierRuns TierUndo.

(** What a container runtime promises: [load] brings the images of an archive
    back under their names. [holds b name img]: the bytes are an archive of
    this image. *)
Class ImageTool {T Img} (px : Programs T) (bin : string) (images : T → gmap string Img)
    (holds : bytes → string → Img → Prop) : Prop := {
  load_image b name img t : holds b name img →
    ∃ t', px_piped px [bin; "load"] b t = (PipedExit (Some 0%N), t') ∧ images t' = <[name := img]> (images t);
}.

Section Images.
Context {P : Type} `{!Postcard P} `{!PostcardLaws P} `{!Blobs.BlobCodec} `{!Blobs.BlobCodecLaws} {T Img : Type}.
Context (syn : Network.NetSynth) (ord : HashOrder InodeRef (gset PathBuf)) (cmd_ord : HashOrder CommandId CommandRow).
Context (router : PrivilegedOpRouter) (may_chown : FS → PathBuf → N → N → bool)
        (tmp_name : string) (os : Os) (state_home : bool) (globset : list string → (PathBuf → bool) + Msg).
Context (px : Programs T) (is_file : string → bool) (uid : string)
        (stash : bytes → T → (string + Msg) * T) (stash_state : bytes → PathBuf → T → (PathBuf + Msg) * T)
        (json_of : bytes → Json + Msg).
Context (host : Host) (runtime : ContainerRuntime) (images : T → gmap string Img) (holds : bytes → string → Img → Prop).
Context `{!ImageTool px (runtime_bin runtime) images holds}.
Implicit Types (d : Daemon P) (w : World T).

Abbreviation wired d := (system_tiers px is_file uid stash stash_state json_of (d_files d)).
Abbreviation request d := (handle_undo syn ord cmd_ord router may_chown tmp_name os (wired d) state_home globset d).

(** The executor, with the archive in the store. *)
Lemma rmi_execute_restores (files : Blobs.BlobFiles) image digest config (h : BlobHash) b img policy (t : T) :
  Blobs.get files h = inl b → holds b image img →
  ∃ t', container_executor (system_tiers px is_file uid stash stash_state json_of files)
      (InverseOp.ContainerRestore runtime (ContainerOp.Rmi image digest) config None (Some h) false) false policy t
      = (ExecutionOutcome.Applied, t') ∧ images t' = <[image := img]> (images t).
Proof.
  intros Hg Hh. destruct (load_image b image img t Hh) as (t' & Hl & Ht'). exists t'. split; [|done].
  cbn [container_executor system_tiers daemon_tiers container_execute]. unfold apply_rmi, tarball_of. rewrite Hg.
  unfold run_outcome, run_with_stdin. by rewrite Hl.
Qed.

Lemma put_new_journal d (c : CommandId) (kind : CaptureEventKind) :
  accepts (d_db d) c kind →
  d_files (put_new host d c kind).1 = d_files d
  ∧ ∃ e, cmd_journal c (d_db (put_new host d c kind).1) = cmd_journal c (d_db d) ++ [e]
    ∧ e_kind e = kind ∧ e_partial e = false.
Proof.
  intros Ha. unfold put_new, next_ts. set (ts := mkTime _ _). destruct (Ha ts) as (db' & id & Hp).
  destruct (put_event_journal _ _ _ _ Hp) as [id' Hj]. cbn [set_clock d_db]. rewrite Hp. split; [done|].
  exists (StorePlan.with_id id' (new_event c ts kind)). split; [exact Hj|done].
Qed.

(** The report of [docker rmi]: the archive is in the store and the event in
    the journal. *)
Lemma rmi_report d p (req : ContainerEventReq) secs (c : CommandId) image b h :
  let kind := CaptureEventKind.ContainerOp (cn_runtime req) (ContainerOp.Rmi image (cn_extras req !! "digest"))
    (cn_captured_config req) (cn_stash_image req) (Some h) in
  let d1 := tier_handle host p d (ContainerEvent req secs) in
  cn_verb req = ContainerVerb.Rmi → cn_extras req !! "image" = Some image →
  cn_stash_tarball_bytes req = Some b → cn_stash_tarball req = Some h → h = Blobs.hash_bytes b →
  Blobs.files_ok (d_files d) → (∀ b', Blobs.hash_bytes b' = Blobs.hash_bytes b → b' = b) →
  is_Some (Blobs.zstd_encode b) →
  resolve p d (cn_pid req) = Some c → room (d_db d) c [kind] →
  Blobs.get (d_files d1) h = inl b
  ∧ ∃ e, cmd_journal c (d_db d1) = cmd_journal c (d_db d) ++ [e] ∧ e_kind e = kind ∧ e_partial e = false.
Proof.
  intros kind d1 Hv Hx Hb Hh -> Hok Hcol Hw Hr Hroom. subst d1. simpl. unfold container_handle.
  rewrite Hr, Hv. simpl. unfold need. rewrite Hx. simpl. unfold ingest_tarball. rewrite Hb, Hh.
  destruct (Blobs.put_total (d_files d) b Hok Hw) as (fs' & h & st & Hp). rewrite Hp.
  pose proof (Blobs.put_get _ _ _ _ _ Hok Hcol Hp) as Hg. destruct (Blobs.put_spec _ _ _ _ _ Hok Hp) as (-> & _).
  rewrite bool_decide_eq_true_2 by done. cbn [negb]. set (d0 := set_db (set_files d fs') _).
  destruct (put_new_journal d0 c kind) as (Hf & e & Hj & Hk & Hpart).
  { destruct Hroom as (Hc & Hs & [He _]%Forall_cons). apply accepts_intro; [done|done|simpl in *; lia]. }
  split; [|by exists e]. unfold kind in Hf. cbn [fst]. rewrite Hf. exact Hg.
Qed.


(** Undo of [docker rmi], from the report on. The wrapper saved the image and
    reported its archive with the right hash; later, as long as the journal of
    the command and the file of the archive are still the same and the command
    is the last that completed, undoing one step gives back exactly the images
    there were. The collector does not protect the file of an archive
    ([DaemonExamples.container_stash_not_counted]). *)
Theorem image_undo_restores d d2 (p : N → option N) (req : ContainerEventReq) secs (rec : CommandRecord)
    (apply_shell : bool) w image b h (before : gmap string Img) img :
  let c := c_command rec in
  let d1 := tier_handle host p d (ContainerEvent req secs) in
  let kind := CaptureEventKind.ContainerOp runtime (ContainerOp.Rmi image (cn_extras req !! "digest"))
    (cn_captured_config req) None (Some h) in
  cn_runtime req = runtime → cn_verb req = ContainerVerb.Rmi → cn_extras req !! "image" = Some image →
  cn_stash_image req = None → cn_stash_tarball_bytes req = Some b → cn_stash_tarball req = Some h →
  h = Blobs.hash_bytes b → (∀ b', Blobs.hash_bytes b' = Blobs.hash_bytes b → b' = b) → is_Some (Blobs.zstd_encode b) →
  Blobs.files_ok (d_files d) → resolve p d (cn_pid req) = Some c → cmd_journal c (d_db d) = [] → room (d_db d) c [kind] →
  db_ok (d_db d2) → cmd_journal c (d_db d2) = cmd_journal c (d_db d1) → d_files d2 !! h = d_files d1 !! h →
  list_recent_commands cmd_ord (d_db d2) 1 = [rec] → refuse_plan rec = None →
  holds b image img → before !! image = Some img → images (w_tiers w) = delete image before →
  ∃ r t', request d2 (mkUndo 1 false ConflictPolicyWire.Abort [] apply_shell) w
      = (inl r, mkWorld (w_fs w) (w_queues w) t')
    ∧ commands_attempted r = 1%N ∧ harmless r ∧ images t' = before.
Proof.
  intros c d1 kind Hrt Hv Hx Hsi Hb Hh Hhash Hcol Hz Hok Hr Hj0 Hroom Hdb Hj2 Hfile Hlist Hrf Hholds Hbef Himg.
  destruct (rmi_report d p req secs c image b h) as (Hg & e & Hj & Hk & Hpart); try done; [by rewrite Hrt, Hsi|].
  fold d1 in Hg, Hj. rewrite Hj0 in Hj. simpl in Hj. rewrite Hj in Hj2. rewrite Hrt, Hsi in Hk.
  assert (Blobs.get (d_files d2) h = inl b) as Hg2 by (unfold Blobs.get in *; by rewrite Hfile).
  destruct (rmi_execute_restores (d_files d2) image (cn_extras req !! "digest") (cn_captured_config req) h b img
    ConflictPolicy.Abort (w_tiers w) Hg2 Hholds) as (t' & Hrun & Ht').
  destruct (request_tiers syn ord cmd_ord router may_chown tmp_name os (wired d2) state_home globset d2
    (mkUndo 1 false ConflictPolicyWire.Abort [] apply_shell) rec
    [InverseOp.ContainerRestore runtime (ContainerOp.Rmi image (cn_extras req !! "digest")) (cn_captured_config req) None
       (Some h) false] w t') as (r & Hreq & Hn & Hharm); try done.
  - fold c. rewrite Hj2. by constructor.
  - fold c. rewrite Hj2. cbn. constructor; [|constructor]. unfold rollback_of. by rewrite Hk.
  - econstructor; [cbn [tier_exec]; by rewrite Hrun|by left|constructor].
  - exists r, t'. split_and!; try done. by rewrite Ht', Himg, insert_delete_id.
Qed.

End Images.

End ContainerUndo.
