(* ===== verification/DaemonExamples.v ===== *)
(** * The daemon, evaluated

    A session of two commands, one of which redirects into a file, with a
    collection pass at the end; and the theorems on the daemon applied to it.
    The hash is the content itself and compression the identity. *)

From S2P Require Import Prelude Paths Base Events Inverse Probe Classify Network Plan PlanFacts PlanForward.
From S2P Require Import Executor Env Orchestrator Fs FileExec FileFacts Undo Edits Redirect Tables Index.
From S2P Require Import Blobs Retention Gc StoreFacts StoreRuns GcFacts StorePlan StoreExamples TierStash.
From S2P Require Import Active Baseline WatchReady Daemon HelperEvents TierTrack UndoCtl DaemonFacts.
From S2P Require Import UndoSteps DaemonRuns RedirectUndo.

Module DaemonExamples.
Import Plan PlanFacts Executor Orchestrator Undo Edits Index StoreFacts StoreRuns StorePlan StoreExamples.
Import Daemon HelperEvents RedirectTrack Ctl UndoCtl DaemonFacts UndoSteps DaemonRuns RedirectUndo.

#[local] Existing Instance plain_postcard.
#[local] Existing Instance plain_postcard_laws.

Instance plain_codec : Blobs.BlobCodec :=
  {| Blobs.hash_bytes := ex_digest; Blobs.zstd_encode := Some; Blobs.zstd_decode := Some |}.
Instance plain_codec_laws : Blobs.BlobCodecLaws.
Proof. split. by intros b z [= <-]. Qed.

Lemma ex_digest_inj (a b : bytes) : ex_digest a = ex_digest b → a = b.
Proof.
  intros [= H]. revert b H. induction a as [|x a IH]; intros [|y b]; simpl; try done.
  intros [= H1 H2]. f_equal; [|by apply IH].
  apply (f_equal Byte.of_N) in H1. rewrite !Byte.of_to_N in H1. by injection H1.
Qed.

Definition dx_host : Host := mkHost (λ n, n) (λ n, n) (λ _, ∅) (λ _, None) true.
Definition dx_uuid (s : string) : option Uuid := if bool_decide (s = "u") then Some 7%N else None.

Abbreviation dx_step :=
  (step dx_host (λ _, []) Env.default_filter "fanotify" dx_uuid map_order map_order map_order map_order
     map_order).
Abbreviation dx_reaches :=
  (reaches dx_host (λ _, []) Env.default_filter "fanotify" dx_uuid map_order map_order map_order map_order
     map_order).

Definition dx_run (d : Daemon CaptureEvent) (l : list (Input CaptureEvent)) : Daemon CaptureEvent :=
  foldl dx_step d l.

Abbreviation dx_lost_by :=
  (lost dx_host (λ _, []) Env.default_filter "fanotify" dx_uuid map_order map_order map_order map_order
     map_order).
Abbreviation dx_losing :=
  (runs_losing dx_host (λ _, []) Env.default_filter "fanotify" dx_uuid map_order map_order map_order map_order
     map_order).

Definition fitsb (i : Input CaptureEvent) : bool :=
  match i with
  | Hook (HookMessage.PreExec _ sq _ _ _ _ _ _ _ _) => bool_decide (u64_fits sq)
  | _ => true
  end.

(** What a run loses. *)
Fixpoint dx_lost (d : Daemon CaptureEvent) (l : list (Input CaptureEvent)) : gset BlobHash :=
  match l with [] => ∅ | i :: l' => dx_lost_by d i ∪ dx_lost (dx_step d i) l' end.

Lemma dx_run_loses (d : Daemon CaptureEvent) (l : list (Input CaptureEvent)) :
  forallb fitsb l = true → dx_reaches d (dx_lost d l) (dx_run d l).
Proof.
  assert (∀ d0 X, dx_reaches d0 X d → forallb fitsb l = true → dx_reaches d0 (X ∪ dx_lost d l) (dx_run d l)) as H.
  { revert d. induction l as [|i l IH]; intros d d0 X Hr; simpl; [by rewrite (right_id_L ∅ (∪))|].
    rewrite andb_true_iff. intros [Hi Hl]. rewrite (assoc_L (∪)). apply IH; [|done]. constructor; [done|].
    destruct i as [[]| | | | | | | | | | | | | |]; simpl in *; try done. by apply bool_decide_eq_true in Hi. }
  intros Hl. rewrite <- (left_id_L ∅ (∪) (dx_lost d l)). apply H; [constructor|done].
Qed.

(** The side conditions of a run that loses nothing, evaluated. *)
Definition all_allowed (d : Daemon CaptureEvent) (l : list (Input CaptureEvent)) : bool :=
  forallb fitsb l && bool_decide (dx_lost d l = ∅).

Lemma dx_run_reaches (d : Daemon CaptureEvent) (l : list (Input CaptureEvent)) :
  all_allowed d l = true → dx_reaches d ∅ (dx_run d l).
Proof.
  unfold all_allowed. rewrite andb_true_iff, bool_decide_eq_true. intros [Hl <-]. by apply dx_run_loses.
Qed.

Lemma dx_run_losing (d : Daemon CaptureEvent) (l : list (Input CaptureEvent)) :
  all_allowed d l = true → dx_losing ∅ d (dx_run d l).
Proof. intros Hl. exists ∅. split; [by apply dx_run_reaches|done]. Qed.

Lemma dx_still (d : Daemon CaptureEvent) : dx_losing ∅ d d.
Proof. exists ∅. split; [constructor|done]. Qed.

(** ** The session *)

Definition dx_pre (n : N) (cmd : string) : Input CaptureEvent :=
  Hook (HookMessage.PreExec 7 n 100 2 1 "/w" 0 ShellKind.Bash 0 (Some cmd)).
Definition dx_post (n : N) : Input CaptureEvent := Hook (HookMessage.PostExec 7 n 0 0).

Definition dx_new : Daemon CaptureEvent := daemon_new empty_db ∅.

(** [echo hi > /w/g] is about to run. *)
Definition dx_before : Daemon CaptureEvent :=
  dx_run dx_new [Hook (HookMessage.SessionOpen 7 ShellKind.Bash 99 "tty1" 0); dx_pre 1 "echo hi > /w/g"].

Definition dx_targets : list Redirect.RedirectTarget :=
  [Redirect.mkTarget Redirect.RedirectOp.Truncate "/w/g"].

Definition dx_stashed : Daemon CaptureEvent * (nat * list (string * StashError)) :=
  handle_redirects dx_host ex_two_fs dx_before 7 1 dx_targets.

(** It ends, another command removes a file, the first is pinned, and a pass
    drops everything older. *)
Definition dx_capture : CapturedPreImage :=
  mkCapture 7 2 1 3 (Some "/w/f") (ex_digest [Byte.x61]) 1 None 33188 0 0 5 ∅ true 0.

Definition dx_gc : Input CaptureEvent :=
  Collect (λ _, false) (λ _, true) (λ _, false) (Gc.mkGcConfig 0 None 100) 1000.

Definition dx_later : list (Input CaptureEvent) :=
  [dx_post 1; dx_pre 2 "rm f"; Helper (HelperResponse.CapturedPreImage dx_capture) (Some [Byte.x61]);
   Helper (HelperResponse.TreeMutation 7 2 (TreeOpWire.Unlink 1 3 "/w/f" FileKind.Regular 33188) 0) None;
   dx_post 2; Pin "u:1" None].

Definition dx_busy : Daemon CaptureEvent := dx_run dx_stashed.1 dx_later.
Definition dx_after : Daemon CaptureEvent := dx_run dx_stashed.1 (dx_later ++ [dx_gc]).

(** The removal is journaled once although it was reported twice, and the
    pass keeps the pinned command only. *)
Example dx_result :
  (length (events (d_db dx_busy)), size (commands (d_db dx_busy)), size (d_files dx_busy),
   length (events (d_db dx_after)), size (commands (d_db dx_after)), size (d_files dx_after)) =
  (3, 2, 2, 1, 1, 1).
Proof. vm_compute. reflexivity. Qed.

Lemma dx_new_inv : inv dx_new.
Proof.
  apply new_inv; [apply empty_ok|apply empty_refs| |].
  - intros h raw Hh. by rewrite lookup_empty in Hh.
  - by intros h [? ?].
Qed.

Lemma dx_before_inv : inv dx_before.
Proof. eapply reaches_inv; [apply dx_new_inv|]. apply dx_run_reaches. vm_compute. reflexivity. Qed.

Lemma dx_stashed_inv : inv dx_stashed.1.
Proof. apply handle_redirects_inv, dx_before_inv. Qed.

Lemma dx_busy_inv : inv dx_busy.
Proof. eapply reaches_inv; [apply dx_stashed_inv|]. apply dx_run_reaches. vm_compute. reflexivity. Qed.

Definition dx_all : list (Input CaptureEvent) :=
  [Hook (HookMessage.SessionOpen 7 ShellKind.Bash 99 "tty1" 0); dx_pre 1 "echo hi > /w/g";
   Redirects 7 1 dx_targets ex_two_fs] ++ dx_later ++ [dx_gc].

(** ** A snapshot that is collected before it is needed *)

(** The helper snapshots [/w/f], a pass runs (with room to spare, and dropping
    no command), and then the command overwrites the file and its snapshot
    becomes the pre-image. *)
Definition dx_snapshot : list (Input CaptureEvent) :=
  [dx_pre 1 "sed -i s/a/b/ f";
   Helper (HelperResponse.BaselineCaptured 7 "/w" 1 3 "/w/f" (ex_digest [Byte.x61]) 1 33188 0 0 5 ∅)
     (Some [Byte.x61])].

Definition dx_sweep : Input CaptureEvent :=
  Collect (λ _, false) (λ _, true) (λ _, false) Gc.default_gc_config 1.

Definition dx_overwrite : Input CaptureEvent :=
  Helper (HelperResponse.CapturedPreImage
    (mkCapture 7 1 1 3 (Some "/w/f") (ex_digest [Byte.x62]) 1 None 33188 0 0 6 ∅ false 0)) (Some [Byte.x62]).

(** A collection pass between the snapshot of a file and the write that needs
    it loses the bytes: the journal names a blob that is neither recorded nor
    on disk, while without the pass it is both. *)
Theorem baseline_swept_before_promotion :
  let naming d := omap er_blob_hash (events (d_db d)) in
  let kept d := (λ h, (bool_decide (is_Some (blobs (d_db d) !! h)), bool_decide (is_Some (d_files d !! h))))
                <$> naming d in
  let swept := dx_run dx_new (dx_snapshot ++ [dx_sweep; dx_overwrite]) in
  let unswept := dx_run dx_new (dx_snapshot ++ [dx_overwrite]) in
  naming swept = [ex_digest [Byte.x61]] ∧ kept swept = [(false, false)]
  ∧ naming unswept = [ex_digest [Byte.x61]] ∧ kept unswept = [(true, true)].
Proof. repeat split; vm_compute; reflexivity. Qed.

(** ** A tarball that is not counted *)

(** [docker rmi a] ships the image; then a file with the same bytes, an
    exported copy, is removed; then the first command is forgotten. *)
Definition dx_image : TierStash.ContainerEventReq :=
  TierStash.mkContainerReq ContainerRuntime.Docker TierStash.ContainerVerb.Rmi [] None (Some (ex_digest [Byte.x61]))
    (Some [Byte.x61]) {["image" := "a"]} 100.

Definition dx_exported : list (Input CaptureEvent) :=
  [dx_pre 1 "docker rmi a"; Tier (λ _, None) (TierTrack.ContainerEvent dx_image 1); dx_post 1; dx_pre 2 "rm a.tar";
   Helper (HelperResponse.CapturedPreImage dx_capture) (Some [Byte.x61]); dx_post 2].

(** The tracker stores the tarball without recording its blob, so its event is
    not counted: forgetting the command takes away the count of the other,
    and the next pass deletes the bytes of a file that can still be undone. *)
Theorem container_stash_not_counted :
  let counts d := br_refcount <$> blobs (d_db d) !! ex_digest [Byte.x61] in
  let named d := length (List.filter (λ r, bool_decide (er_blob_hash r = Some (ex_digest [Byte.x61]))) (events (d_db d))) in
  let before := dx_run dx_new dx_exported in
  let after := dx_run dx_new (dx_exported ++ [Forget "u:1"; dx_sweep]) in
  (named before, counts before) = (2, Some 1%Z) ∧ named after = 1
  ∧ counts after = None ∧ d_files after !! ex_digest [Byte.x61] = None.
Proof. repeat split; vm_compute; reflexivity. Qed.

(** ** The theorems applied *)



Lemma unlink_journaled_once_witness :
  length (List.filter (is_unlink_of (mkInode 1 3) (path_of_string "/w/f"))
    (events_for_command (index_store (d_db (dx_run dx_before dx_later))) (mkCommandId 7 2))) ≤ 1.
Proof.
  apply (unlink_journaled_once dx_host (λ _, []) Env.default_filter "fanotify" dx_uuid map_order map_order
    map_order map_order map_order ∅ ∅).
  - intros h raw Hr. by rewrite lookup_empty in Hr.
  - discriminate.
  - change (dx_run dx_before dx_later) with (dx_run dx_new
      ([Hook (HookMessage.SessionOpen 7 ShellKind.Bash 99 "tty1" 0); dx_pre 1 "echo hi > /w/g"] ++ dx_later)).
    apply dx_run_reaches. vm_compute. reflexivity.
Defined.

Lemma dx_roomy (config : Gc.GcConfig) (n : N) :
  Gc.size_cap_bytes config = Some (5 * 1024 * 1024 * 1024)%N →
  total_blob_size map_order (d_db dx_busy) = inl n → roomy config n.
Proof. intros Hc Hn. unfold roomy. rewrite Hc. vm_compute in Hn. injection Hn as <-. lia. Qed.

Lemma scheduled_gc_never_ages_witness :
  ∃ d res, scheduled_pass map_order map_order (λ _, true) (λ _, false) 5 (λ _, false) dx_busy = Some (d, res)
    ∧ is_Some (commands (d_db d) !! mkCommandId 7 2).
Proof.
  destruct (scheduled_pass map_order map_order (λ _, true) (λ _, false) 5 (λ _, false) dx_busy)
    as [[d res]|] eqn:E; [|vm_compute in E; discriminate E].
  exists d, res. split; [done|].
  assert (∃ r, commands (d_db dx_busy) !! mkCommandId 7 2 = Some r ∧ (0 ≤ cr_started_logical r)%Z)
    as (r & Hr & Hs) by (vm_compute; eexists; split; [reflexivity|discriminate]).
  exists r. refine (scheduled_gc_never_ages map_order map_order dx_busy d 5 (λ _, false) (λ _, true) (λ _, false)
    res (mkCommandId 7 2) r dx_busy_inv _ E _ Hr Hs).
  - lia.
  - intros n. apply dx_roomy. reflexivity.
Defined.

Lemma aggressive_gc_drops_nothing_witness :
  ∃ d res, handle_gc map_order map_order (λ _, true) (λ _, false) dx_busy (mkGcRequest false true None None)
      = Some (d, res)
    ∧ is_Some (commands (d_db d) !! mkCommandId 7 2).
Proof.
  destruct (handle_gc map_order map_order (λ _, true) (λ _, false) dx_busy (mkGcRequest false true None None))
    as [[d res]|] eqn:E; [|vm_compute in E; discriminate E].
  exists d, res. split; [done|].
  assert (∃ r, commands (d_db dx_busy) !! mkCommandId 7 2 = Some r ∧ (1 ≤ cr_started_logical r)%Z)
    as (r & Hr & Hs) by (vm_compute; eexists; split; [reflexivity|discriminate]).
  exists r. refine (aggressive_gc_drops_nothing map_order map_order dx_busy d (mkGcRequest false true None None)
    (λ _, true) (λ _, false) res (mkCommandId 7 2) r dx_busy_inv eq_refl E _ Hr Hs).
  intros n. apply dx_roomy. reflexivity.
Defined.

(** The file the shell truncates, and the file system afterwards. *)
Definition dx_file : Captured := mkCaptured (path_of_string "/w") "g" 4 ex_other (ex_digest [Byte.x7a]).
Definition dx_fs : Fs.FS := ex_edited [Byte.x61; Byte.x62] [Byte.x68; Byte.x69].

Definition dx_record : CommandRecord :=
  default (ex_cmd "") (command_by_id (d_db dx_after) (mkCommandId 7 1)).

(** No other programs are called. *)
Definition dx_tiers : Tiers unit :=
  let none (_ : InverseOp) (_ : bool) (_ : ConflictPolicy) (t : unit) := (ExecutionOutcome.Skipped [], t) in
  mkTiers none none none none none none none.
Definition dx_world (fs : Fs.FS) : World unit := mkWorld fs ∅ ().

Abbreviation dx_request :=
  (handle_undo no_synth map_order map_order FileExec.NoOpPrivilegedOpRouter ex_may ".shit-tmp-1" FileExec.Linux
     dx_tiers true (λ _, inr [])).

Lemma dx_placed (f g : bytes) : placed ".shit-tmp-1" (Fs.view (ex_edited f g)) dx_file.
Proof.
  split; [discriminate|]. split; [apply not_elem_of_cons; split; [discriminate|apply not_elem_of_nil]|].
  split_and!; [eexists; split; vm_compute; reflexivity|vm_compute; reflexivity|discriminate].
Qed.

Lemma dx_restorable : restorable_file ex_may FileExec.Linux dx_file.
Proof. split_and!; [apply ex_other_capturable|reflexivity|intros b; apply ex_digest_inj]. Qed.

Lemma dx_stashable : stashable ex_may ".shit-tmp-1" FileExec.Linux dx_fs dx_file.
Proof.
  split; [reflexivity|]. split; [reflexivity|]. split; [apply dx_restorable|]. split; [apply dx_placed|].
  eexists. split; [vm_compute; reflexivity|reflexivity].
Qed.

Lemma redirect_undo_restores_witness :
  ∃ r fs', dx_request dx_after (mkUndo 1 false ConflictPolicyWire.Abort [] false) (dx_world dx_fs)
      = (inl r, dx_world fs')
    ∧ Fs.view dx_fs (path_of_string "/w/g") ≠ Some ex_other
    ∧ Fs.view fs' (path_of_string "/w/g") = Some ex_other.
Proof.
  destruct (redirect_undo_restores dx_host (λ _, []) Env.default_filter "fanotify" dx_uuid
    map_order map_order map_order map_order map_order no_synth map_order FileExec.NoOpPrivilegedOpRouter ex_may
    ".shit-tmp-1" FileExec.Linux dx_tiers true (λ _, inr []) ∅ dx_before dx_stashed.1 dx_after ex_two_fs
    (dx_world dx_fs) (mkCommandId 7 1) dx_record dx_targets [dx_file] [] false dx_before_inv)
    as (r & fs' & Hr & _ & _ & Hv & _).
  - vm_compute. reflexivity.
  - constructor; [split; discriminate|constructor].
  - constructor; [split_and!; vm_compute; reflexivity|constructor].
  - vm_compute. reflexivity.
  - apply dx_run_reaches. vm_compute. reflexivity.
  - intros c _. apply not_elem_of_empty.
  - vm_compute. reflexivity.
  - vm_compute. reflexivity.
  - vm_compute. reflexivity.
  - vm_compute. reflexivity.
  - apply ex_edited_wf.
  - constructor; [apply not_elem_of_nil|constructor].
  - intros c [->|[]%elem_of_nil]%elem_of_cons. apply dx_stashable.
  - exists r, fs'. split; [exact Hr|]. split; [vm_compute; discriminate|]. apply (Hv dx_file). left.
Defined.

(** A snapshot promoted for a command, with other traffic in between. *)
Definition dx_entry : Baseline.BaselineEntry := Baseline.entry_new (mkInode 1 3) (ex_hash 1) 2 ∅.
Definition dx_cache : Baseline.BaselineCacheEntry :=
  Baseline.cache_insert (Baseline.cache_new (path_of_string "/w")) (path_of_string "/w/f") dx_entry.
Definition dx_cache_ops : list Baseline.CacheOp :=
  [Baseline.Insert (path_of_string "/w/g") (Baseline.entry_new (mkInode 1 4) (ex_hash 2) 1 ∅);
   Baseline.Promote (mkInode 1 4) (mkCommandId 7 2); Baseline.Promote (mkInode 1 3) (mkCommandId 7 1)].

Lemma baseline_promotes_once_witness :
  (Baseline.promote (foldl Baseline.cache_step (Baseline.promote dx_cache (mkInode 1 3) (mkCommandId 7 1)).1
     dx_cache_ops) (mkInode 1 3) (mkCommandId 7 1)).2 = None.
Proof.
  apply (Baseline.baseline_promotes_once dx_cache (mkInode 1 3) (mkCommandId 7 1) dx_cache_ops (ex_hash 1, ∅)).
  - vm_compute. reflexivity.
  - repeat constructor; discriminate.
Defined.

Lemma watch_waiter_answered_witness :
  5%N ∈ WatchReady.signal_rx <$> (WatchReady.watch_run ∅
    (WatchReady.Await (mkCommandId 7 1) 5 ::
     [WatchReady.Await (mkCommandId 7 1) 6; WatchReady.MarkReady (mkCommandId 7 2);
      WatchReady.MarkReady (mkCommandId 7 1)])).2.
Proof.
  apply (WatchReady.watch_waiter_answered ∅ (mkCommandId 7 1) 5).
  right. right. left. left. reflexivity.
Defined.

End DaemonExamples.
