(* ===== verification/UndoExamples.v ===== *)
(** * Undo requests, evaluated

    Two commands that overwrite the same file, undone in one request; a dry
    run of it; and what the report says. Then the cases in which a request
    does less, or more, than it reports. [ShimExamples]: what the preload shim
    reports of [rm], [mv] and a write through a link, undone. [CaptureExamples]
    and [LoopExamples]: the helper's capture on Linux, and its threads.
    [BsdExamples]: its capture on the BSDs. *)

From S2P Require Import Prelude Paths Base Events Inverse Probe Classify Network Plan PlanFacts PlanForward.
From S2P Require Import Executor Env Orchestrator Fs FileExec FileFacts Undo Edits Removals Frame Redirect.
From S2P Require Import Tables Index Blobs Retention Gc StoreFacts StoreRuns GcFacts StorePlan.
From S2P Require Import StoreExamples Active Baseline WatchReady Daemon HelperEvents LinuxCapture.
From S2P Require Import CaptureFacts HelperLoop BsdCapture Shim UndoCtl DaemonFacts UndoSteps DaemonRuns RedirectUndo.
From S2P Require Import ShimUndo CaptureUndo DaemonExamples.

Module UndoExamples.
Import Plan PlanFacts Executor Orchestrator Fs FileExec FileFacts Undo Edits Index StoreFacts StoreRuns StorePlan.
Import StoreExamples Daemon HelperEvents RedirectTrack Ctl UndoCtl DaemonFacts UndoSteps DaemonRuns.
Import DaemonExamples.

#[local] Existing Instance plain_postcard.
#[local] Existing Instance plain_postcard_laws.
#[local] Existing Instance plain_codec.
#[local] Existing Instance plain_codec_laws.

(** ** The same file, twice *)

(** [/w/g] with some content. *)
Definition ux_node (data : bytes) : Inode := ex_data ex_other data.
Definition ux_fs (data : bytes) : FS := set_inode ex_two_fs 4 (ux_node data).
Definition ux_a : bytes := [Byte.x61].
Definition ux_b : bytes := [Byte.x62; Byte.x62].

Definition ux_session : list (Input CaptureEvent) :=
  [Hook (HookMessage.SessionOpen 7 ShellKind.Bash 99 "tty1" 0);
   dx_pre 1 "echo a > /w/g"; Redirects 7 1 dx_targets ex_two_fs; dx_post 1;
   dx_pre 2 "echo bb > /w/g"; Redirects 7 2 dx_targets (ux_fs ux_a); dx_post 2].

Definition ux_daemon : Daemon CaptureEvent := dx_run dx_new ux_session.

Lemma ux_daemon_inv : inv ux_daemon.
Proof. eapply reaches_inv; [apply dx_new_inv|]. apply dx_run_reaches. vm_compute. reflexivity. Qed.

Definition ux_record (n : N) : CommandRecord :=
  default (ex_cmd "") (command_by_id (d_db ux_daemon) (mkCommandId 7 n)).

Definition ux_captured (n : Inode) : Captured :=
  mkCaptured (path_of_string "/w") "g" 4 n (ex_digest (in_data n)).

Definition ux_history : list Edit :=
  [mkEdit (ux_record 2) [ux_captured (ux_node ux_a)] 1 (λ _, None);
   mkEdit (ux_record 1) [ux_captured ex_other] 1 (λ _, None)].

Definition ux_request (dry : bool) : UndoRequest := mkUndo 2 dry ConflictPolicyWire.Abort [] false.

Lemma ux_fs_wf (data : bytes) : wf (ux_fs data).
Proof.
  apply (wf_set_inode _ (path_of_string "/w/g") 4 ex_other); [apply ex_two_fs_wf|vm_compute; reflexivity|done].
Qed.

Lemma ux_fs_other (data : bytes) (q : PathBuf) :
  q ≠ path_of_string "/w/g" → view (ux_fs data) q = view ex_two_fs q.
Proof.
  intros Hq. unfold view, ux_fs. rewrite find_set_inode, bool_decide_eq_false_2; [done|].
  unfold ex_two_fs, add_file. cbn [names]. rewrite lookup_insert_ne by done.
  unfold ex_fs, ex_w, add_file. cbn [names next_ino ex_root].
  rewrite !lookup_insert_Some, lookup_singleton_Some. naive_solver.
Qed.

Lemma ux_edited (rec : CommandRecord) (fs0 : FS) (n0 : Inode) (data : bytes) :
  view fs0 (path_of_string "/w/g") = Some n0 →
  (∀ q, q ≠ path_of_string "/w/g" → view fs0 q = view ex_two_fs q) →
  edited (mkEdit rec [ux_captured n0] 1 (λ _, None)) (view fs0) (view (ux_fs data)).
Proof.
  intros H0 Ho. split_and!.
  - constructor; [apply not_elem_of_nil|constructor].
  - intros q Hq. simpl in Hq. rewrite ux_fs_other, Ho; set_solver.
  - intros c [->|[]%elem_of_nil]%elem_of_cons. split; [exact H0|].
    exists (ux_node data). by split_and!; [vm_compute|..].
Qed.

Lemma ux_history_ok : history ux_history (view ex_two_fs) (view (ux_fs ux_b)).
Proof.
  eapply history_cons; [eapply history_cons; [by constructor|]|].
  - apply ux_edited; [vm_compute; reflexivity|done].
  - apply ux_edited; [vm_compute; reflexivity|apply ux_fs_other].
Qed.

Lemma ux_file_ok (n : Inode) (data : bytes) :
  capturable Linux n →
  restorable_file ex_may Linux (ux_captured n) ∧ placed ".shit-tmp-1" (view (ux_fs data)) (ux_captured n).
Proof.
  intros Hc. split; [split_and!; [done|done|intros b; apply ex_digest_inj]|].
  split; [discriminate|]. split; [apply not_elem_of_cons; split; [discriminate|apply not_elem_of_nil]|].
  split_and!; [eexists; split; vm_compute; reflexivity|vm_compute; reflexivity|discriminate].
Qed.

Lemma ux_node_capturable (data : bytes) : capturable Linux (ux_node data).
Proof. split_and!; try done. intros k [v Hv]. simpl in Hv. by rewrite lookup_empty in Hv. Qed.

Lemma ux_recorded (n : N) (c : Captured) (e : CaptureEvent) :
  refuse_plan (ux_record n) = None →
  cmd_journal (c_command (ux_record n)) (d_db ux_daemon) = [e] →
  edit_event 1 (λ _, None) c e → recorded_edit ux_daemon (mkEdit (ux_record n) [c] 1 (λ _, None)).
Proof.
  intros Hr Hj He. split; [exact Hr|]. cbn [ed_cmd ed_files ed_dev ed_post]. rewrite Hj.
  constructor; [exact He|constructor].
Qed.

Lemma ux_recorded_1 : recorded_edit ux_daemon (mkEdit (ux_record 1) [ux_captured ex_other] 1 (λ _, None)).
Proof.
  eapply ux_recorded; [vm_compute; reflexivity..|].
  split; [reflexivity|]. by exists FilePreImageSource.BaselineCachePromote.
Qed.

Lemma ux_recorded_2 :
  recorded_edit ux_daemon (mkEdit (ux_record 2) [ux_captured (ux_node ux_a)] 1 (λ _, None)).
Proof.
  eapply ux_recorded; [vm_compute; reflexivity..|].
  split; [reflexivity|]. by exists FilePreImageSource.BaselineCachePromote.
Qed.

Lemma undo_steps_restores_witness :
  ∃ r fs', dx_request ux_daemon (ux_request false) (dx_world (ux_fs ux_b)) = (inl r, dx_world fs')
    ∧ commands_attempted r = 2%N ∧ clean r ∧ ∀ q, view fs' q = view ex_two_fs q.
Proof.
  apply (undo_steps_restores no_synth map_order map_order NoOpPrivilegedOpRouter ex_may ".shit-tmp-1" Linux
    dx_tiers true (λ _, inr []) ux_daemon (ux_request false) (dx_world (ux_fs ux_b)) ux_history (view ex_two_fs)).
  - apply ux_daemon_inv.
  - reflexivity.
  - reflexivity.
  - reflexivity.
  - vm_compute. reflexivity.
  - apply ux_fs_wf.
  - apply ux_history_ok.
  - intros s [->|[->|[]%elem_of_nil]%elem_of_cons]%elem_of_cons; split.
    + apply ux_recorded_2.
    + intros c [->|[]%elem_of_nil]%elem_of_cons. apply ux_file_ok, ux_node_capturable.
    + apply ux_recorded_1.
    + intros c [->|[]%elem_of_nil]%elem_of_cons. apply ux_file_ok, ex_other_capturable.
Defined.

Lemma undo_report_accounts_witness :
  ∃ r w, dx_request ux_daemon (ux_request false) (dx_world (ux_fs ux_b)) = (inl r, w)
    ∧ (commands_attempted r ≤ 2)%N ∧ (ops_applied r, ops_failed r) = (4, 0)%N.
Proof.
  destruct (dx_request ux_daemon (ux_request false) (dx_world (ux_fs ux_b))) as [[r|e] w] eqn:E;
    [|vm_compute in E; discriminate E].
  exists r, w. split; [reflexivity|]. split; [|vm_compute in E; injection E as <- _; reflexivity].
  destruct (undo_report_accounts no_synth map_order map_order NoOpPrivilegedOpRouter ex_may ".shit-tmp-1" Linux
    dx_tiers true (λ _, inr []) ux_daemon (ux_request false) (dx_world (ux_fs ux_b)) r w E)
    as (_ & _ & _ & _ & _ & Hn & _). exact Hn.
Defined.

Lemma undo_dry_run_pure_witness :
  (dx_request ux_daemon (ux_request true) (dx_world (ux_fs ux_b))).2 = dx_world (ux_fs ux_b).
Proof.
  apply (undo_dry_run_pure no_synth map_order map_order NoOpPrivilegedOpRouter ex_may ".shit-tmp-1" Linux
    dx_tiers true (λ _, inr []) ux_daemon (ux_request true)).
  - intros op policy t. split_and!; reflexivity.
  - reflexivity.
Defined.

(** ** Later work that is lost *)

(** After the commands, an editor saves [/w/g] the way editors do: a new file
    renamed over the old name. *)
Definition ux_saved : FS :=
  add_file (ux_fs ux_b) (path_of_string "/w/g") (ux_node [Byte.x6e; Byte.x65; Byte.x77]).

(** The planner sees that the name holds another file, the conflict is
    reported nowhere, and under the abort policy the new file is overwritten
    and both steps count as applied. *)
Theorem undo_overwrites_replaced_file :
  let req := mkUndo 1 false ConflictPolicyWire.Abort [] false in
  let res := dx_request ux_daemon req (dx_world ux_saved) in
  view ux_saved (path_of_string "/w/g") = Some (ux_node [Byte.x6e; Byte.x65; Byte.x77])
  ∧ view (w_fs res.2) (path_of_string "/w/g") = Some (ux_node ux_a)
  ∧ ∃ r, res.1 = inl r ∧ ops_applied r = 2%N ∧ ops_conflicted r = 0%N ∧ detail_lines r = [].
Proof. split_and!; [vm_compute; reflexivity..|]. eexists. split_and!; vm_compute; reflexivity. Qed.

(** ** A restore that is never reached *)

(** The daemon of a host whose hash tells the environments apart. *)
Abbreviation uy_step :=
  (step dx_host (map Ascii.N_of_ascii ∘ String.list_ascii_of_string) Env.default_filter "fanotify" dx_uuid map_order
     map_order map_order map_order map_order).

Definition uy_block (v : string) : string := ("A=" +:+ v) +:+ String Ascii.zero "".

(** [export A=2; echo a > /w/g]. *)
Definition uy_daemon : Daemon CaptureEvent :=
  foldl uy_step dx_new
    [Hook (HookMessage.SessionOpen 7 ShellKind.Bash 99 "tty1" 0);
     dx_pre 1 "export A=2; echo a > /w/g"; Hook (HookMessage.PreExecEnv 7 1 (uy_block "1") 0);
     Redirects 7 1 dx_targets ex_two_fs; Hook (HookMessage.PostExecEnv 7 1 (uy_block "2") 0); dx_post 1].

(** A command that changes a variable and a file is not undone at all: the
    environment change is undone first, no executor is wired for it, and the
    abort policy stops there. Under the skip policy the file comes back. *)
Theorem undo_stops_at_environment :
  let after policy :=
    let res := dx_request uy_daemon (mkUndo 1 false policy [] false) (dx_world (ux_fs ux_a)) in
    (view (w_fs res.2) (path_of_string "/w/g"),
     match res.1 with inl r => (ops_applied r, ops_failed r) | inr _ => (0, 0)%N end) in
  after ConflictPolicyWire.Abort = (Some (ux_node ux_a), (0, 1)%N)
  ∧ after ConflictPolicyWire.Skip = (Some ex_other, (2, 1)%N).
Proof. split; vm_compute; reflexivity. Qed.

End UndoExamples.

Module ShimExamples.
Import Plan PlanFacts Executor Orchestrator Fs FileExec FileFacts Undo Index StoreFacts StorePlan StoreExamples.
Import Daemon Ctl UndoCtl DaemonFacts UndoSteps DaemonRuns ShimEvents Shim ShimUndo DaemonExamples UndoExamples.

#[local] Existing Instance plain_postcard.
#[local] Existing Instance plain_postcard_laws.
#[local] Existing Instance plain_codec.
#[local] Existing Instance plain_codec_laws.

(** A process on a file system without links in its directories. *)
Definition sx_lstat (fs : FS) (s : string) : option Stat :=
  (λ '(i, n), mkStat (in_kind n) (device fs) i (m_mode (inode_meta n)) (in_uid n) (in_gid n)
     (N.of_nat (length (in_data n))) (in_mtime n)) <$> find fs (path_of_string s).

Definition sx_sys (fs : FS) : ShimSys :=
  mkShimSys
    (λ s, match find fs (path_of_string s) with
          | Some _ => inl (path_string (path_of_string s))
          | None => inr (mkIoError (Some 2%N) "ENOENT")
          end)
    (sx_lstat fs) (λ s, in_data <$> view fs (path_of_string s)) (λ _, Some []) (λ _, None) true 100 0.

Abbreviation sx_encode := (λ _ : ShimNotification, inl [] : Frame.frame_bytes + unit).
Definition sx_note (fs : FS) (c : Call) : option ShimNotification := interpose sx_encode (sx_sys fs) false false c.
Definition sx_inode (fs : FS) (s : string) : option InodeRef :=
  (λ '(i, _), mkInode (device fs) i) <$> find fs (path_of_string s).

(** The call as the daemon hears of it. *)
Definition sx_tell (fs : FS) (c : Call) (d : Daemon CaptureEvent) : Daemon CaptureEvent :=
  match sx_note fs c with
  | Some note => handle_one dx_host (λ _, None) (sx_inode fs) (λ _, ∅) d note
  | None => d
  end.

Definition sx_open : Daemon CaptureEvent :=
  dx_run dx_new [Hook (HookMessage.SessionOpen 7 ShellKind.Bash 99 "tty1" 0); dx_pre 1 "rm /w/g"].

(** [rm /w/g]. *)
Definition sx_told : Daemon CaptureEvent := sx_tell ex_two_fs (Call.Unlink "/w/g") sx_open.
Definition sx_daemon : Daemon CaptureEvent := dx_run sx_told [dx_post 1].
Definition sx_gone : FS := set_names ex_two_fs (delete (path_of_string "/w/g") (names ex_two_fs)).
Definition sx_file : Captured := mkCaptured (path_of_string "/w") "g" 4 ex_other (ex_digest (in_data ex_other)).

Abbreviation sx_removals :=
  (shim_removals sx_encode dx_host (λ _, []) Env.default_filter "fanotify" dx_uuid map_order map_order map_order
     map_order map_order ∅ (mkCommandId 7 1)).

Lemma sx_shows : shows (sx_sys ex_two_fs) (device ex_two_fs) sx_file "/w/g" "/w/g".
Proof. split; [vm_compute; reflexivity..| |]; intros x [-> | ->]; vm_compute; reflexivity. Qed.

Lemma sx_removed : sx_removals sx_open ex_two_fs [sx_file] sx_daemon sx_gone.
Proof.
  apply shim_removals_other with sx_told; [|apply dx_run_losing; vm_compute; reflexivity|vm_compute; reflexivity].
  assert (Hn : ∃ note, sx_note ex_two_fs (Call.Unlink "/w/g") = Some note) by (eexists; vm_compute; reflexivity).
  destruct Hn as [note Hn]. unfold sx_told, sx_tell, handle_one. rewrite Hn.
  destruct (receive dx_host (λ _, None) sx_open note) as [d2 [c ts]] eqn:Hr.
  assert (c = Some (mkCommandId 7 1)) as ->.
  { revert Hr. vm_compute in Hn. injection Hn as <-. vm_compute. by intros [= <-]. }
  apply (shim_removals_call sx_encode dx_host (λ _, []) Env.default_filter "fanotify" dx_uuid map_order map_order map_order
    map_order map_order ∅ (mkCommandId 7 1) sx_open ex_two_fs [] sx_open d2 d2 ex_two_fs sx_gone (sx_sys ex_two_fs)
    (Call.Unlink "/w/g") "/w/g" "/w/g" sx_file note (λ _, None)); [constructor|by left|apply sx_shows|done|done| |apply dx_still|done|].
  - vm_compute. reflexivity.
  - vm_compute in Hn. injection Hn as <-. vm_compute in Hr. injection Hr as <- <-. vm_compute. reflexivity.
Qed.

Lemma shim_rm_undo_restores_witness :
  view sx_gone (path_of_string "/w/g") = None
  ∧ ∃ r fs', dx_request sx_daemon (mkUndo 1 false ConflictPolicyWire.Abort [] false) (dx_world sx_gone) = (inl r, dx_world fs')
      ∧ commands_attempted r = 1%N ∧ clean r ∧ ∀ q, view fs' q = view ex_two_fs q.
Proof.
  split; [vm_compute; reflexivity|].
  apply (shim_rm_undo_restores sx_encode dx_host (λ _, []) Env.default_filter "fanotify" dx_uuid map_order map_order map_order
    map_order map_order no_synth map_order NoOpPrivilegedOpRouter ex_may ".shit-tmp-1" Linux dx_tiers true (λ _, inr [])
    ∅ sx_open sx_daemon ex_two_fs (dx_world sx_gone) (mkCommandId 7 1)
    (default (ex_cmd "") (command_by_id (d_db sx_daemon) (mkCommandId 7 1))) [sx_file] false).
  - eapply reaches_inv; [apply dx_new_inv|]. apply dx_run_reaches. vm_compute. reflexivity.
  - apply ex_two_fs_wf.
  - vm_compute. reflexivity.
  - apply sx_removed.
  - intros r _. apply not_elem_of_empty.
  - intros r [->|[]%elem_of_nil]%elem_of_cons. split; [|reflexivity]. split_and!.
    + split_and!; try (vm_compute; reflexivity); try discriminate. apply (bool_decide_unpack _). vm_compute. exact I.
    + split_and!; [apply ex_other_capturable|done|intros b; apply ex_digest_inj].
    + reflexivity.
    + reflexivity.
  - apply (bool_decide_unpack _). vm_compute. exact I.
  - apply (bool_decide_unpack _). vm_compute. exact I.
  - vm_compute. reflexivity.
  - vm_compute. reflexivity.
  - vm_compute. reflexivity.
Defined.

(** [mv /w/f /w/g] where both exist. *)
Definition sx_moved : FS :=
  match Fs.rename ex_two_fs (path_of_string "/w/f") (path_of_string "/w/g") with inl fs => fs | inr _ => ex_two_fs end.
Definition sx_mv : Daemon CaptureEvent :=
  dx_run (sx_tell ex_two_fs (Call.Rename "/w/f" "/w/g") sx_open) [dx_post 1].

(** The undo of a move over an existing file, as the shim reports it, gives
    the overwritten file back and loses the moved one, and reports success. *)
Theorem shim_mv_undo_loses_source :
  let res := dx_request sx_mv (mkUndo 1 false ConflictPolicyWire.Abort [] false) (dx_world sx_moved) in
  is_Some (view ex_two_fs (path_of_string "/w/f"))
  ∧ view sx_moved (path_of_string "/w/g") = view ex_two_fs (path_of_string "/w/f")
  ∧ view (w_fs res.2) (path_of_string "/w/g") = view ex_two_fs (path_of_string "/w/g")
  ∧ view (w_fs res.2) (path_of_string "/w/f") = None
  ∧ ∃ r, res.1 = inl r ∧ ops_applied r = 2%N ∧ clean r.
Proof.
  split_and!; [vm_compute; by eexists|vm_compute; reflexivity..|]. eexists. unfold clean. split_and!; vm_compute; reflexivity.
Qed.

(** [echo >> /w/l] where [/w/l] is a link to [/w/g]. *)
Definition sx_link : Inode := mkIno FileKind.Symlink 511 0 0 5 ∅ 0 [] "/w/g".
Definition sx_linked : FS := add_file ex_two_fs (path_of_string "/w/l") sx_link.
Definition sx_wrote : Daemon CaptureEvent :=
  dx_run (sx_tell sx_linked (Call.Open "/w/l" O_WRONLY) sx_open) [dx_post 1].

(** The undo of a command that wrote through a link deletes the link, and
    reports success. *)
Theorem shim_open_undo_deletes_link :
  let res := dx_request sx_wrote (mkUndo 1 false ConflictPolicyWire.Abort [] false) (dx_world sx_linked) in
  view sx_linked (path_of_string "/w/l") = Some sx_link
  ∧ view (w_fs res.2) (path_of_string "/w/l") = None
  ∧ ∃ r, res.1 = inl r ∧ ops_applied r = 1%N ∧ clean r.
Proof. split_and!; [vm_compute; reflexivity..|]. eexists. unfold clean. split_and!; vm_compute; reflexivity. Qed.

End ShimExamples.

(** * The helper's capture, evaluated

    A helper on the in-memory file system: what it holds of a directory, and
    [rm] in it, undone. Then what a change of metadata and two renames onto
    one name make it send. *)

Module CaptureExamples.
Import Plan PlanFacts Executor Orchestrator Fs FileExec FileFacts Undo Index StoreFacts StorePlan StoreExamples.
Import Daemon Ctl UndoCtl DaemonFacts UndoSteps DaemonRuns HelperEvents LinuxCapture CaptureFacts ShimUndo CaptureUndo.
Import DaemonExamples UndoExamples ShimExamples.

#[local] Existing Instance plain_postcard.
#[local] Existing Instance plain_postcard_laws.
#[local] Existing Instance plain_codec.
#[local] Existing Instance plain_codec_laws.

(** ** A system that answers from a file system *)

Definition cx_raw (dev i : N) (n : Inode) : RawStat :=
  mkRawStat dev i (N.lor (kind_bits (in_kind n)) (in_mode n)) (in_uid n) (in_gid n) (N.of_nat (length (in_data n)))
    (in_mtime n / 1000000000) (in_mtime n mod 1000000000).

Definition cx_lookup (fs : FS) (fd : Fd) : option Inode :=
  if bool_decide ((fd_key fd).1 = device fs) then inodes fs !! (fd_key fd).2 else None.

Definition cx_open (fs : FS) (path_only : bool) (p : PathBuf) : option Fd :=
  (λ '(i, _), mkFd (device fs, i) path_only) <$> find fs p.

Definition cx_lstat (fs : FS) (p : PathBuf) : option RawStat := (λ '(i, n), cx_raw (device fs) i n) <$> find fs p.

Definition cx_last (p : PathBuf) : option string := match last p with Some (Normal s) => Some s | _ => None end.

Definition cx_children (fs : FS) (p : PathBuf) : list string :=
  omap cx_last (List.filter (λ q, bool_decide (parent q = Some p)) (map_to_list (names fs)).*1).

(** The first path under which the file is found is what its descriptor links to. *)
Definition cx_link (fs : FS) (fd : Fd) : option string :=
  (λ pi, path_string pi.1) <$> List.find (λ pi, bool_decide (pi.2 = (fd_key fd).2)) (map_to_list (names fs)).

Definition cx_kernel (fs : FS) : Kernel :=
  mkKernel (λ fd, cx_raw (device fs) (fd_key fd).2 <$> cx_lookup fs fd)
    (λ fd, if fd_path_only fd then None else in_data <$> cx_lookup fs fd)
    (λ fd, default ∅ (in_xattrs <$> cx_lookup fs fd))
    (cx_link fs) (cx_open fs false) (cx_open fs false) (cx_open fs true) (cx_lstat fs) (cx_lstat fs)
    (λ p _, match cx_lstat fs p with Some st => LstatTry.Found st | None => LstatTry.NotFound end)
    (λ p, Some (cx_children fs p)) (λ _, true) (λ _, true) 0.

Lemma cx_raw_shows dev i n : raw_shows dev i n (cx_raw dev i n).
Proof. split; try done. cbn. rewrite Z.mul_comm. symmetry. by apply Z.div_mod. Qed.

Lemma cx_fd_shows fs fd i n :
  fd_key fd = (device fs, i) → inodes fs !! i = Some n → fd_shows (cx_kernel fs) fd (device fs) i n.
Proof.
  intros Hk Hn. assert (cx_lookup fs fd = Some n) as Hl.
  { unfold cx_lookup. rewrite Hk. cbn. by rewrite bool_decide_eq_true_2. }
  split; cbn; rewrite Hl, ?Hk; cbn.
  - eexists. split; [done|]. apply cx_raw_shows.
  - intros b ->. cbn. congruence.
  - done.
Qed.

Lemma cx_kernel_shows fs :
  (∀ i n, inodes fs !! i = Some n → (in_mode n < 4096)%N) → kernel_shows (cx_kernel fs) fs.
Proof.
  intros Hm. split; [exact Hm| | | | |].
  - intros p st. cbn. unfold cx_lstat. intros ([i n] & Hf & ->)%fmap_Some. exists i, n. split; [done|]. apply cx_raw_shows.
  - intros p st i n. cbn. unfold cx_lstat. intros ([i' n'] & Hf & ->)%fmap_Some Hf' _. rewrite Hf in Hf'. injection Hf' as -> ->.
    apply cx_raw_shows.
  - intros p fd. cbn. unfold cx_open. intros ([i n] & Hf & ->)%fmap_Some. by exists i, n.
  - intros p fd. cbn. unfold cx_open. intros ([i n] & Hf & ->)%fmap_Some. by exists i, n.
  - intros fd i n. apply cx_fd_shows.
Qed.

(** ** [rm /w/g] in a watched [/w] *)

Definition cx_k : Kernel := cx_kernel ex_two_fs.
Definition cx_cmd : CommandId := mkCommandId 7 1.
Definition cx_watched : Runtime := pre_open_tree cx_k ∅ cx_cmd (path_of_string "/w").

(** Device 1 in the kernel's encoding; [/w] is inode 2. *)
Definition cx_unlink : LsmUnlinkView := mkUnlinkView cx_cmd 100 1 4 2 "g" false.

Definition cx_told : Daemon CaptureEvent :=
  deliver dx_host "fanotify" map_order sx_open (handle_lsm_unlink cx_k cx_watched cx_unlink).2.
Definition cx_daemon : Daemon CaptureEvent := dx_run cx_told [dx_post 1].

Abbreviation cx_removals :=
  (lsm_removals dx_host (λ _, []) Env.default_filter "fanotify" dx_uuid map_order map_order map_order
     map_order map_order ∅ cx_cmd).

Lemma cx_removed :
  cx_removals ex_two_fs cx_watched sx_open [sx_file] (handle_lsm_unlink cx_k cx_watched cx_unlink).1 cx_daemon sx_gone.
Proof.
  apply lsm_removals_other with (handle_lsm_unlink cx_k cx_watched cx_unlink).1 cx_told;
    [|done|apply dx_run_losing; vm_compute; reflexivity|vm_compute; reflexivity].
  apply (lsm_removals_event dx_host (λ _, []) Env.default_filter "fanotify" dx_uuid map_order map_order map_order
    map_order map_order ∅ cx_cmd ex_two_fs cx_watched sx_open [] cx_watched sx_open sx_open ex_two_fs sx_gone cx_k
    cx_unlink sx_file); [constructor| | | |apply dx_still|done| |].
  - split; vm_compute; reflexivity.
  - apply cx_fd_shows; vm_compute; reflexivity.
  - vm_compute. reflexivity.
  - intros blob xs. vm_compute. discriminate.
  - vm_compute. reflexivity.
Qed.

Lemma ex_two_modes i n : inodes ex_two_fs !! i = Some n → (in_mode n < 4096)%N.
Proof.
  intros Hn. assert (Forall (λ x : N * Inode, (in_mode x.2 < 4096)%N) (map_to_list (inodes ex_two_fs))) as Hall.
  { apply (bool_decide_unpack _). vm_compute. exact I. }
  rewrite Forall_forall in Hall. apply (Hall (i, n)). by apply elem_of_map_to_list.
Qed.

Lemma ex_two_one_name : one_name ex_two_fs.
Proof.
  assert (Forall (λ x : PathBuf * N, Forall (λ y : PathBuf * N, x.2 = y.2 → x.1 = y.1) (map_to_list (names ex_two_fs)))
    (map_to_list (names ex_two_fs))) as Hall.
  { apply (bool_decide_unpack _). vm_compute. exact I. }
  intros p q i n Hp Hq _. unfold find in Hp, Hq.
  apply bind_Some in Hp as (i1 & Hp & (m1 & _ & [= -> _])%bind_Some). apply bind_Some in Hq as (i2 & Hq & (m2 & _ & [= -> _])%bind_Some).
  rewrite Forall_forall in Hall. specialize (Hall (p, i) ltac:(by apply elem_of_map_to_list)).
  rewrite Forall_forall in Hall. by apply (Hall (q, i) ltac:(by apply elem_of_map_to_list)).
Qed.

Lemma cx_watch_made : watch_made cx_k ex_two_fs ∅ cx_cmd (path_of_string "/w").
Proof.
  split; [apply cx_kernel_shows, ex_two_modes|apply ex_two_one_name|apply default_faithful| | |].
  - eexists _, _. split; vm_compute; reflexivity.
  - vm_compute. by eexists.
  - vm_compute. reflexivity.
Qed.

Lemma cx_in_reach : in_reach cx_k ex_two_fs (path_of_string "/w") sx_file.
Proof.
  split_and!; [vm_compute; reflexivity|constructor| |].
  - eexists. split; [vm_compute; reflexivity|]. apply (bool_decide_unpack _). vm_compute. exact I.
  - split; [vm_compute; reflexivity..|vm_compute; discriminate|vm_compute; by eexists|].
    eexists. split; [vm_compute; reflexivity|]. vm_compute. by eexists.
Qed.

Lemma lsm_rm_undo_restores_witness :
  view sx_gone (path_of_string "/w/g") = None
  ∧ ∃ r fs', dx_request cx_daemon (mkUndo 1 false ConflictPolicyWire.Abort [] false) (dx_world sx_gone) = (inl r, dx_world fs')
      ∧ commands_attempted r = 1%N ∧ clean r ∧ ∀ q, view fs' q = view ex_two_fs q.
Proof.
  split; [vm_compute; reflexivity|].
  apply (lsm_rm_undo_restores dx_host (λ _, []) Env.default_filter "fanotify" dx_uuid map_order map_order map_order
    map_order map_order no_synth map_order NoOpPrivilegedOpRouter ex_may ".shit-tmp-1" Linux dx_tiers true (λ _, inr [])
    ∅ cx_k ∅ (handle_lsm_unlink cx_k cx_watched cx_unlink).1 (path_of_string "/w") sx_open cx_daemon ex_two_fs
    (dx_world sx_gone) cx_cmd (default (ex_cmd "") (command_by_id (d_db cx_daemon) cx_cmd)) [sx_file] false).
  - eapply reaches_inv; [apply dx_new_inv|]. apply dx_run_reaches. vm_compute. reflexivity.
  - apply ex_two_fs_wf.
  - vm_compute. reflexivity.
  - apply cx_watch_made.
  - apply cx_removed.
  - intros r _. apply not_elem_of_empty.
  - intros r [->|[]%elem_of_nil]%elem_of_cons. split; [|apply cx_in_reach]. split_and!.
    + split_and!; try (vm_compute; reflexivity); try discriminate. apply (bool_decide_unpack _). vm_compute. exact I.
    + split_and!; [apply ex_other_capturable|done|intros b; apply ex_digest_inj].
    + reflexivity.
    + reflexivity.
  - apply (bool_decide_unpack _). vm_compute. exact I.
  - apply (bool_decide_unpack _). vm_compute. exact I.
  - vm_compute. reflexivity.
  - vm_compute. reflexivity.
  - vm_compute. reflexivity.
Defined.

(** ** A write to [/w/g] in a watched [/w] *)

Definition cx_write : LsmOpenView := mkOpenView cx_cmd 100 1 4 2 1.
Definition cx_wrote : Daemon CaptureEvent :=
  deliver dx_host "fanotify" map_order sx_open (handle_lsm_open cx_k cx_watched cx_write).2.
Definition cx_written : Daemon CaptureEvent := dx_run cx_wrote [dx_post 1].

Abbreviation cx_writes :=
  (lsm_writes dx_host (λ _, []) Env.default_filter "fanotify" dx_uuid map_order map_order map_order
     map_order map_order ∅ cx_cmd).

Lemma cx_wrote_file :
  cx_writes ex_two_fs cx_watched sx_open [sx_file] (handle_lsm_open cx_k cx_watched cx_write).1 cx_written.
Proof.
  apply lsm_writes_other with (handle_lsm_open cx_k cx_watched cx_write).1 cx_wrote;
    [|done|apply dx_run_losing; vm_compute; reflexivity|vm_compute; reflexivity].
  apply (lsm_writes_event dx_host (λ _, []) Env.default_filter "fanotify" dx_uuid map_order map_order map_order
    map_order map_order ∅ cx_cmd ex_two_fs cx_watched sx_open [] cx_watched sx_open sx_open cx_k
    cx_write sx_file); [constructor| |apply dx_still|done| |].
  - split; vm_compute; reflexivity.
  - intros blob xs. vm_compute. discriminate.
  - vm_compute. reflexivity.
Qed.

Lemma lsm_write_undo_restores_witness :
  view (ux_fs ux_a) (path_of_string "/w/g") ≠ Some ex_other
  ∧ ∃ r fs', dx_request cx_written (mkUndo 1 false ConflictPolicyWire.Abort [] false) (dx_world (ux_fs ux_a))
      = (inl r, dx_world fs') ∧ view fs' (path_of_string "/w/g") = Some ex_other.
Proof.
  split; [vm_compute; discriminate|].
  destruct (lsm_write_undo_restores dx_host (λ _, []) Env.default_filter "fanotify" dx_uuid map_order map_order map_order
    map_order map_order no_synth map_order NoOpPrivilegedOpRouter ex_may ".shit-tmp-1" Linux dx_tiers true (λ _, inr [])
    ∅ cx_k ∅ (handle_lsm_open cx_k cx_watched cx_write).1 (path_of_string "/w") sx_open cx_written ex_two_fs
    (dx_world (ux_fs ux_a)) cx_cmd (default (ex_cmd "") (command_by_id (d_db cx_written) cx_cmd)) [sx_file] false)
    as (r & fs' & Hr & _ & _ & Hv & _).
  - eapply reaches_inv; [apply dx_new_inv|]. apply dx_run_reaches. vm_compute. reflexivity.
  - vm_compute. reflexivity.
  - apply cx_watch_made.
  - reflexivity.
  - apply cx_wrote_file.
  - intros r _. apply not_elem_of_empty.
  - intros r [->|[]%elem_of_nil]%elem_of_cons. split; [split_and!; vm_compute; reflexivity|]. split; [apply cx_in_reach|].
    destruct (ux_file_ok ex_other ux_a ex_other_capturable) as [H1 H2]. split; [exact H1|]. split; [exact H2|].
    eexists. split; vm_compute; reflexivity.
  - apply ux_fs_wf.
  - apply (bool_decide_unpack _). vm_compute. exact I.
  - apply (bool_decide_unpack _). vm_compute. exact I.
  - vm_compute. reflexivity.
  - vm_compute. reflexivity.
  - vm_compute. reflexivity.
  - exists r, fs'. split; [exact Hr|]. apply (Hv sx_file). left.
Defined.

(** ** Captured once *)

(** A program opens [/w/g] twice, closes it, and changes its mode. *)
Definition cx_busy : list Event :=
  [LsmOpen cx_k cx_write; LsmOpen cx_k cx_write; LsmRelease cx_k (mkReleaseView cx_cmd 100 1 4 2 1);
   LsmSetattr cx_k (mkSetattrView cx_cmd 100 1 4 1 33188 7 8 1 33152 7 8 1)].

Lemma captured_once_witness :
  captures cx_cmd (1, 4)%N (helper_run cx_watched cx_busy).2 = 1
  ∧ captures cx_cmd (1, 4)%N (helper_run cx_watched cx_busy).2 ≤ 1.
Proof.
  split; [vm_compute; reflexivity|]. apply (captured_once cx_cmd (1, 4)%N cx_watched cx_busy).
  cbn [spared cx_busy]. split_and!; done.
Defined.

Lemma helper_bytes_accepted_witness :
  ∃ c b, (HelperResponse.CapturedPreImage c, Some b) ∈ (helper_step cx_watched (LsmUnlink cx_k cx_unlink)).2
    ∧ (handle_capture dx_host "fanotify" map_order sx_open c (Some b)).2 = inl ()
    ∧ ∀ x y, (handle_capture dx_host "fanotify" map_order sx_open c (Some b)).2 ≠ inr (HelperLinkError.HashMismatch x y).
Proof.
  eexists _, _. split; [vm_compute; left|]. split; [vm_compute; reflexivity|]. intros x y.
  apply (helper_bytes_accepted (X := ∅) dx_host "fanotify" map_order cx_watched (LsmUnlink cx_k cx_unlink)).
  - eapply reaches_inv; [apply dx_new_inv|]. apply dx_run_reaches. vm_compute. reflexivity.
  - vm_compute. left.
Defined.

(** ** What is lost *)

(** The events of a command in [/w], and its undo. *)
Definition cx_undo (evs : list Event) (fs : FS) : (UndoReportWire + Msg) * World unit :=
  dx_request (dx_run (deliver dx_host "fanotify" map_order sx_open (helper_run cx_watched evs).2) [dx_post 1])
    (mkUndo 1 false ConflictPolicyWire.Abort [] false) (dx_world fs).

Definition cx_mode (n : Inode) (mode : N) (xs : gmap string bytes) : Inode :=
  mkIno (in_kind n) mode (in_uid n) (in_gid n) (in_mtime n) xs (in_flags n) (in_data n) (in_target n).

(** The undo of a change of mode takes the extended attributes of the file away:
    the capture carries none, and the restore removes those it does not name. *)
Theorem chmod_undo_strips_xattrs :
  let changed := set_inode ex_two_fs 3 (cx_mode ex_file 384 (in_xattrs ex_file)) in
  let ev := mkSetattrView cx_cmd 100 1 3 1 (0x8000 + in_mode ex_file) 7 8 2 33152 7 8 2 in
  let res := cx_undo [LsmSetattr cx_k ev] changed in
  in_xattrs ex_file ≠ ∅
  ∧ view (w_fs res.2) (path_of_string "/w/f") = Some (cx_mode ex_file (in_mode ex_file) ∅)
  ∧ ∃ r, res.1 = inl r ∧ ops_applied r = 2%N ∧ clean r.
Proof.
  split_and!; [vm_compute; discriminate|vm_compute; reflexivity|].
  eexists. unfold clean. split_and!; vm_compute; reflexivity.
Qed.

Definition cx_mv (a b : string) (fs : FS) : FS :=
  match Fs.rename fs (path_of_string a) (path_of_string b) with inl fs' => fs' | inr _ => fs end.
Definition cx_renamed (i : N) (a b : string) : Event := LsmRename cx_k (mkRenameView cx_cmd 100 1 i 2 2 a b).

(** The undo of [mv f g] where both exist gives [g] back and loses [f]: the
    planner takes the source of such a rename for a temporary file. *)
Theorem lsm_mv_undo_loses_source :
  let moved := cx_mv "/w/f" "/w/g" ex_two_fs in
  let res := cx_undo [cx_renamed 3 "f" "g"] moved in
  view moved (path_of_string "/w/g") = Some ex_file
  ∧ view (w_fs res.2) (path_of_string "/w/g") = Some ex_other
  ∧ view (w_fs res.2) (path_of_string "/w/f") = None
  ∧ ∃ r, res.1 = inl r ∧ ops_applied r = 2%N ∧ clean r.
Proof. split_and!; [vm_compute; reflexivity..|]. eexists. unfold clean. split_and!; vm_compute; reflexivity. Qed.

(** [mv f h; mv g h]: the helper does not follow the first rename, so the file
    the second replaces is not captured and [f] cannot come back. *)
Theorem renamed_file_not_followed :
  let moved := cx_mv "/w/g" "/w/h" (cx_mv "/w/f" "/w/h" ex_two_fs) in
  let evs := [cx_renamed 3 "f" "h"; cx_renamed 4 "g" "h"] in
  List.filter (λ m : Sent, bool_decide (m.2 ≠ None)) (helper_run cx_watched evs).2 = []
  ∧ view (w_fs (cx_undo evs moved).2) (path_of_string "/w/f") = None
  ∧ ∃ r, (cx_undo evs moved).1 = inl r ∧ ops_conflicted r = 1%N.
Proof. split_and!; [vm_compute; reflexivity..|]. eexists. split; vm_compute; reflexivity. Qed.

(** A file whose name ends like the mark of a removed one is taken for another. *)
Theorem deleted_suffix_ambiguous :
  let k := mkKernel (k_fstat cx_k) (k_read cx_k) (k_user_xattrs cx_k) (λ _, Some "/w/g (deleted)") (k_open cx_k)
    (k_open_nonblock cx_k) (k_open_path cx_k) (k_stat cx_k) (k_lstat cx_k) (k_lstat_try cx_k) (k_read_dir cx_k)
    (k_stage cx_k) (k_sends cx_k) (k_now cx_k) in
  resolve_inode_to_path k (default default_watch (cx_watched !! cx_cmd)) 1 4 = Some (path_of_string "/w/g").
Proof. vm_compute. reflexivity. Qed.

End CaptureExamples.

(** * The helper's threads, evaluated *)

Module LoopExamples.
Import HelperEvents LinuxCapture CaptureFacts ProcTree LsmReader Records FanotifyLoop Confined HelperLoop.

#[local] Existing Instance DaemonExamples.plain_codec.

(** A directory [/w] with the file [f], on a system that takes every message. *)
Definition lx_raw (ino mode : N) : RawStat := mkRawStat 5 ino mode 1000 1000 2 0 0.

Definition lx_kernel : Kernel :=
  mkKernel (λ fd, Some (lx_raw (fd_key fd).2 0x81a4)) (λ _, Some [Byte.x68; Byte.x69]) (λ _, ∅) (λ _, Some "/w/f")
    (λ p, if bool_decide (path_string p = "/w/f") then Some (mkFd (5%N, 7%N) false) else None) (λ _, None) (λ _, None)
    (λ p, if bool_decide (path_string p = "/w") then Some (lx_raw 3 0x41ed) else None)
    (λ p, if bool_decide (path_string p = "/w/f") then Some (lx_raw 7 0x81a4) else None)
    (λ _ _, LstatTry.NotFound) (λ p, if bool_decide (path_string p = "/w") then Some ["f"] else None)
    (λ _, true) (λ _, true) 0.

Definition lx_c : CommandId := mkCommandId 1 1.
Definition lx_d : CommandId := mkCommandId 1 2.

(** [rm f] by process 200, a child of the shell 100, already gone from [/proc]. *)
Definition lx_header : EventHeader := mkHeader kind.UNLINK 200 200 100 0 (replicate 16 Byte.x00).
Definition lx_event : UnlinkEvent := mkUnlinkEvent lx_header 5 7 3 1 (Byte.x66 :: replicate 255 Byte.x00).
Definition lx_record : Step := TakeRecord (λ _, None) UnlinkRing (unlink_bytes kind.UNLINK lx_event).

Definition lx_watch : list Step := [TakeWatch lx_c 100; FinishWatch lx_kernel (Some (path_of_string "/w"))].
Definition lx_remove : list Step := lx_watch ++ [lx_record; HandOver lx_kernel UnlinkRing].

Definition lx_run (ss : list Step) : Helper * list Sent := default (helper_new, []) (loop_run map_order [1%N] helper_new ss).

Lemma lx_watch_runs : loop_run map_order [1%N] helper_new lx_watch = Some (lx_run lx_watch).
Proof. vm_compute. reflexivity. Qed.

Lemma lx_remove_runs : loop_run map_order [1%N] helper_new lx_remove = Some (lx_run lx_remove).
Proof. vm_compute. reflexivity. Qed.

Lemma helper_speaks_of_watched_witness :
  length (lx_run lx_remove).2 = 2 ∧ Forall (speaks_of (asked lx_remove)) (lx_run lx_remove).2.
Proof.
  split; [vm_compute; reflexivity|]. apply (helper_speaks_of_watched map_order [1%N] lx_remove (lx_run lx_remove).1).
  rewrite lx_remove_runs. by destruct (lx_run lx_remove).
Defined.

(** The watch ends, and another record of the same shell comes in. *)
Definition lx_late : list Step := [FinishUnwatch; lx_record].

Definition lx_after : option (Helper * list Sent) :=
  loop_run map_order [1%N] (lx_run lx_remove).1 (TakeUnwatch lx_c :: lx_late).

Lemma lx_after_runs : lx_after = Some (default (helper_new, []) lx_after).
Proof. vm_compute. reflexivity. Qed.

Lemma silent_after_unwatch_witness :
  let r := default (helper_new, []) lx_after in
  Forall (λ m, sent_command m ≠ Some lx_c) r.2 ∧ (hp_main r.1 = Unwatching lx_c ∨ hp_runtime r.1 !! lx_c = None).
Proof.
  cbn zeta. apply (silent_after_unwatch map_order [1%N] lx_c lx_remove (lx_run lx_remove).1 (lx_run lx_remove).2 lx_late).
  - rewrite lx_remove_runs. by destruct (lx_run lx_remove).
  - assert (hp_flight (lx_run lx_remove).1 = ∅) as -> by (vm_compute; reflexivity). apply map_Forall_empty.
  - exact (not_elem_of_empty (C := gset CommandId) lx_c).
  - change (lx_after = Some ((default (helper_new, []) lx_after).1, (default (helper_new, []) lx_after).2)).
    rewrite lx_after_runs at 1. by destruct (default _ lx_after).
Defined.

Lemma lx_fits : unlink_fits kind.UNLINK lx_event.
Proof. by repeat split. Qed.

Definition lx_tree : TrackedTree := mkTree 1 1 100 {[100%Z]}.

Lemma lx_child : child_of [1%N] (hp_tree (lx_run lx_watch).1) lx_header lx_c lx_tree.
Proof.
  assert (hp_tree (lx_run lx_watch).1 = mkTreeMap {[lx_c := lx_tree]} ∅) as -> by (vm_compute; reflexivity).
  split; cbn [trees pid_cache].
  - by rewrite lookup_singleton_eq.
  - done.
  - done.
  - by intros c' t' [<- _]%lookup_singleton_Some.
  - by intros c' t' [_ <-]%lookup_singleton_Some.
  - by rewrite lookup_empty.
  - intros [=]%list_elem_of_singleton.
Qed.

Lemma child_removal_captured_witness :
  ∃ h' out, loop_run map_order [1%N] (lx_run lx_watch).1 [lx_record; HandOver lx_kernel UnlinkRing] = Some (h', out)
    ∧ (hp_runtime h', out)
      = handle_lsm_unlink lx_kernel (hp_runtime (lx_run lx_watch).1) (unlink_view false lx_event lx_c).
Proof.
  apply (child_removal_captured map_order [1%N] (λ _, None) lx_kernel (lx_run lx_watch).1 lx_c lx_tree lx_event).
  - exact lx_child.
  - exact lx_fits.
  - vm_compute. reflexivity.
Defined.

(** A record that was read just before the watch ends: the file is not reported,
    and the helper keeps a state for the ended command. *)
Lemma state_outlives_unwatch :
  let r := lx_run (lx_watch ++ [lx_record; TakeUnwatch lx_c; FinishUnwatch; HandOver lx_kernel UnlinkRing]) in
  length r.2 = 1 ∧ hp_main r.1 = Idle ∧ hp_flight r.1 = ∅ ∧ trees (hp_tree r.1) = ∅ ∧ is_Some (hp_runtime r.1 !! lx_c).
Proof. split_and!; [vm_compute; reflexivity..|]. vm_compute. eauto. Qed.

(** The other order of iteration. *)
Definition reverse_order {K V : Type} `{Countable K} : HashOrder K V.
Proof. refine {| hash_iter := λ m : gmap K V, reverse (map_to_list m) |}. intros m. apply reverse_Permutation. Defined.

(** Two commands of one shell, the end of the first having been lost: which of
    them a child's record belongs to is up to the order of the hash map. *)
Lemma same_root_ambiguous :
  let tm := watch (watch tree_new lx_c 100) lx_d 100 in
  let view := λ c, UnlinkV (unlink_view false lx_event c) in
  (attributed map_order (λ _, None) [] tm lx_header view).2 ≠ (attributed reverse_order (λ _, None) [] tm lx_header view).2.
Proof. cbn zeta. vm_compute. intros [=]. Qed.

(** Processes that wait for an answer. *)
Definition lx_fan (i : nat) : FanEvent * bytes := (mkFanEvent FAN_OPEN_PERM (Z.of_nat i) 200 24, []).
Definition lx_reader : Reader := mkReader ∅ tree_new [] 0 0 true.
Definition lx_turn (evs : list (FanEvent * bytes)) : Reader * list fanotify_response :=
  reader_turn map_order lx_kernel (λ _, None) (λ _, mkFd (5%N, 7%N) false) true lx_reader (read_bytes evs).

(** Programs of a watched command and of none. *)
Definition lx_watching : Reader := mkReader (lx_run lx_watch).1.(hp_runtime) (watch tree_new lx_c 200) [] 0 0 true.

Lemma reader_answers_batch_witness :
  let evs := [lx_fan 8; (mkFanEvent FAN_OPEN_PERM 9 300 24, []); (mkFanEvent 0 10 200 24, [])] in
  let t := reader_turn map_order lx_kernel (λ _, None) (λ _, mkFd (5%N, 7%N) false) true lx_watching (read_bytes evs) in
  t.2 = [mkResponse 8 FAN_ALLOW; mkResponse 9 FAN_ALLOW].
Proof.
  cbn zeta. match goal with |- (reader_turn _ _ _ _ _ _ (read_bytes ?evs)).2 = _ =>
    destruct (reader_answers_batch map_order lx_kernel (λ _, None) (λ _, mkFd (5%N, 7%N) false) lx_watching evs)
      as (H1 & _) end.
  - by repeat constructor.
  - vm_compute. lia.
  - exact H1.
Defined.

Example reader_captures_first :
  length (fr_sent (reader_turn map_order lx_kernel (λ _, None) (λ _, mkFd (5%N, 7%N) false) true lx_watching
    (read_bytes [lx_fan 8])).1) = 1.
Proof. vm_compute. reflexivity. Qed.

Lemma thirty_third_unanswered :
  let evs := lx_fan <$> List.seq 0 33 in
  ((lx_turn evs).2 = allowed <$> evs.*1 ↔ length evs.*1 ≤ RESPONSE_BATCH_MAX) ∧ length (lx_turn evs).2 = 32.
Proof.
  cbn zeta. split; [|vm_compute; reflexivity].
  destruct (reader_answers_thirty_two map_order lx_kernel (λ _, None) (λ _, mkFd (5%N, 7%N) false) lx_reader (lx_fan <$> List.seq 0 33))
    as (_ & Hiff & _); [by repeat constructor|exact Hiff].
Defined.

(** The responses collected before an overflow are not written. *)
Lemma overflow_drops_answers :
  (lx_turn [lx_fan 9; (mkFanEvent FAN_Q_OVERFLOW (-1) 0 24, [])]).2 = [] ∧ (lx_turn [lx_fan 9]).2 = [mkResponse 9 FAN_ALLOW].
Proof. by vm_compute. Qed.

End LoopExamples.

(** * The capture on the BSDs, evaluated *)

Module BsdExamples.
Import HelperEvents BsdCapture BsdFacts.

#[local] Existing Instance DaemonExamples.plain_codec.

(** Files and directories as the descriptors show them. *)
Definition bx_reg (ino : N) : BsdStat := mkBsdStat 5 ino 0x81a4 1000 1000 2 9 0 0.
Definition bx_dir (ino : N) : BsdStat := mkBsdStat 5 ino 0x41ed 1000 1000 2 9 0 0.

(** The root is at 10, and by the name of a descriptor's file below it a file or
    a directory is opened as the tables say. *)
Definition bx_sys (fstat : RawFd → option BsdStat) (readdir : RawFd → option (list (string * DType)))
    (fstatat : RawFd → string → option BsdStat) (openat : RawFd → string → option RawFd) : BsdSys :=
  mkBsdSys fstat (λ _, ∅) (λ _, Some [Byte.x68; Byte.x69]) readdir fstatat (λ _ _, None) (λ _, None)
    (λ _, Some 10%Z) openat (λ _, true) (λ _, true) (λ _, true) false 0.

Definition bx_c : CommandId := mkCommandId 1 1.
Definition bx_d : CommandId := mkCommandId 1 2.
Definition bx_root : PathBuf := path_of_string "/w".

(** [/w] with one file [f], whose inode is the argument. *)
Definition bx_one (ino : N) : BsdSys :=
  bx_sys (λ fd, if bool_decide (fd = 10%Z) then Some (bx_dir 3) else Some (bx_reg ino))
    (λ fd, if bool_decide (fd = 10%Z) then Some [("f", DT_OTHER)] else None)
    (λ _ name, if bool_decide (name = "f") then Some (bx_reg ino) else None)
    (λ _ name, if bool_decide (name = "f") then Some 11%Z else None).

Definition bx_run (ss : list PumpStep) : Pump * list Sent := pump_run (λ _, "") pump_start ss.
Definition bx_watch (sys : BsdSys) (c : CommandId) : PumpStep := Watch sys (λ _, None) c 100 "/w".

Definition bx_captures (out : list Sent) : list (CommandId * N * bool) :=
  omap (λ m : Sent, match m.1 with
                    | HelperResponse.CapturedPreImage p => Some (cp_command p, cp_inode p, cp_is_delete p)
                    | _ => None
                    end) out.

(** [echo > f] twice and [rm f]: the first write and the removal. *)
Definition bx_writes : list PumpStep :=
  [bx_watch (bx_one 7) bx_c; Turn (bx_one 7) 1; Drain (EVFILT_VNODE 11 NOTE_WRITE);
   Drain (EVFILT_VNODE 11 NOTE_EXTEND); Drain (EVFILT_VNODE 11 NOTE_DELETE);
   Turn (bx_one 7) 1; Turn (bx_one 7) 1; Turn (bx_one 7) 1].

Example write_then_removal : bx_captures (bx_run bx_writes).2 = [(bx_c, 7%N, false); (bx_c, 7%N, true)].
Proof. vm_compute. reflexivity. Qed.

Lemma pump_messages_fair_witness : Forall (fair {[bx_c]}) (bx_run bx_writes).2.
Proof.
  assert ({[bx_c]} = (∅ : gset CommandId) ∪ asked bx_writes) as -> by (vm_compute; reflexivity).
  apply (pump_messages_fair (λ _, "") ∅ bx_writes pump_start). split; [apply map_Forall_empty|constructor].
Defined.

(** The events of a watch wait while requests are served first. The watch ends
    and another begins, whose file gets the number of the old one: the removal
    that still waits is taken for a removal of the new file, which is there. *)
Example stale_event_misattributed :
  bx_captures (bx_run
    [bx_watch (bx_one 7) bx_c; Turn (bx_one 7) 1; Drain (EVFILT_VNODE 11 NOTE_DELETE);
     Unwatch bx_c; bx_watch (bx_one 8) bx_d; Turn (bx_one 8) 1; Turn (bx_one 8) 1; Turn (bx_one 8) 1]).2
  = [(bx_d, 8%N, true)].
Proof. vm_compute. reflexivity. Qed.

(** The writes and the rename of a file that come as one event count as the
    rename, which is not acted on. *)
Example rename_hides_write :
  from_fflags (N.lor NOTE_WRITE NOTE_RENAME) = Some VnodeEventKind.Rename
  ∧ ∀ sys fuel st fd, handle_vnode sys fuel st fd VnodeEventKind.Rename = (st, []).
Proof. by vm_compute. Qed.

(** [/w] with the empty directory [d], watched as 11. *)
Definition bx_with_dir : BsdSys :=
  bx_sys (λ fd, if bool_decide (fd = 10%Z) then Some (bx_dir 3) else Some (bx_dir 4))
    (λ fd, if bool_decide (fd = 10%Z) then Some [("d", DT_DIR)] else Some [])
    (λ _ name, if bool_decide (name = "d") then Some (bx_dir 4) else None)
    (λ _ name, if bool_decide (name = "d") then Some 11%Z else None).

Definition bx_empty : BsdSys := bx_sys (λ fd, if bool_decide (fd = 10%Z) then Some (bx_dir 3) else Some (bx_dir 4))
  (λ _, Some []) (λ _ _, None) (λ _ _, None).

(** [rmdir d]: neither the event of the directory nor the one of its parent is
    answered. *)
Example rmdir_not_reported :
  let st := (attach bx_with_dir pump_new bx_c bx_root).1.1 in
  let '(st1, out1) := handle_vnode bx_empty 9 st 11 VnodeEventKind.Delete in
  dom (fd_to_command st) = {[10%Z; 11%Z]} ∧ out1 = [] ∧ (handle_vnode bx_empty 9 st1 10 VnodeEventKind.Write).2 = [].
Proof. vm_compute. split_and!; reflexivity. Qed.

(** [d] is back, as another directory, with the file [f]: descriptor 12, below
    which [f] opens as 13; below the removed one, which is still held, nothing
    opens. *)
Definition bx_again : BsdSys :=
  bx_sys (λ fd, Some (if bool_decide (fd = 10%Z) then bx_dir 3 else if bool_decide (fd = 11%Z) then bx_dir 4
                      else if bool_decide (fd = 12%Z) then bx_dir 6 else bx_reg 7))
    (λ fd, if bool_decide (fd = 10%Z) then Some [("d", DT_DIR)]
           else if bool_decide (fd = 12%Z) then Some [("f", DT_OTHER)] else Some [])
    (λ fd name, if bool_decide (fd = 10%Z) then Some (bx_dir 6) else if bool_decide (fd = 12%Z) then Some (bx_reg 7) else None)
    (λ fd name, if bool_decide (fd = 10%Z) then Some 12%Z else if bool_decide (fd = 12%Z) then Some 13%Z else None).

Definition bx_before : PumpState := (attach bx_with_dir pump_new bx_c bx_root).1.1.

(** The file is reported as created, but gets no watch: its descriptor is looked
    for below the removed directory, which has the same path. *)
Example recreated_dir_children_unwatched :
  let '(st, out) := handle_dir_change bx_again 9 bx_before bx_c 10 in
  length out = 2 ∧ dom (fd_to_command st) = {[10%Z; 11%Z; 12%Z]}.
Proof. vm_compute. split; reflexivity. Qed.

(** In capability mode no absolute path can be looked at: the mode of a created
    file is 0. *)
Example created_mode_zero :
  omap (λ m : Sent, match m.1 with HelperResponse.TreeMutation _ _ op _ => Some op | _ => None end)
    (handle_dir_change bx_again 9 bx_before bx_c 10).2
  = [TreeOpWire.Create 5 6 "/w/d" FileKind.Directory 0; TreeOpWire.Create 5 7 "/w/d/f" FileKind.Regular 0].
Proof. vm_compute. reflexivity. Qed.

Lemma handle_dir_change_terminates_witness :
  (∃ fuel, ∀ more, handle_dir_change bx_again (fuel + more) bx_before bx_c 10 = handle_dir_change bx_again fuel bx_before bx_c 10)
  ∧ length (handle_dir_change bx_again 3 bx_before bx_c 10).2 = 2.
Proof.
  split; [|vm_compute; reflexivity].
  apply (handle_dir_change_terminates bx_again (λ fd, Z.to_nat (20 - fd)) bx_c).
  - intros p name f. simpl. repeat case_bool_decide; intros [= <-]; subst; vm_compute; lia.
  - intros fd entries. simpl. repeat case_bool_decide; intros [= <-]; repeat constructor.
Defined.

(** A burst of as many events as the channel holds and one more. *)
Definition bx_full : Pump :=
  (bx_run (bx_watch (bx_one 7) bx_c :: Turn (bx_one 7) 1 :: replicate 4097 (Drain (EVFILT_VNODE 11 NOTE_WRITE)))).1.

Lemma overflow_ends_capture_witness :
  let p' := (pump_run (λ _, "") bx_full ((λ t : BsdSys * nat, Turn t.1 t.2) <$> replicate 4097 (bx_one 7, 1))).1 in
  pp_alive p' = false ∧ Forall (refused (λ _, "")) (pump_run (λ _, "") p' [bx_watch (bx_one 7) bx_d]).2.
Proof.
  apply (overflow_ends_capture (λ _, "") bx_full (replicate 4097 (bx_one 7, 1)) [bx_watch (bx_one 7) bx_d]).
  - vm_compute. reflexivity.
  - apply Nat.ltb_lt. vm_compute. reflexivity.
Defined.

Lemma bsd_captured_once_witness :
  let evs := [mkVnode (bx_one 7) 1 11 VnodeEventKind.Write; mkVnode (bx_one 7) 1 11 VnodeEventKind.Extend] in
  CaptureFacts.captures bx_c (5%N, 7%N) (vnode_run (attach (bx_one 7) pump_new bx_c bx_root).1.1 evs).2 ≤ 1.
Proof. cbn zeta. apply (bsd_captured_once bx_c (5%N, 7%N)). repeat constructor; intros [=]. Defined.

End BsdExamples.
