(* ===== verification/TierExamples.v ===== *)
(** * Undo of packages and services, evaluated

    A host with [apt-get] and [systemctl] behind [sudo], small enough to
    evaluate, that keeps the promises the interfaces ask for; sessions that
    change packages and a unit; and the theorems on undoing them applied. *)

From stdpp Require Import pretty.
From S2P Require Import Prelude Paths Base Events Inverse Cohort Probe Classify Network Plan PlanFacts.
From S2P Require Import PlanForward Executor Env EnvFacts Orchestrator OrchestratorFacts Fs FileExec.
From S2P Require Import FileFacts Undo Edits Redirect Runners Text Redact Packages Containers Notes.
From S2P Require Import NetworkDiff SystemFacts NetworkFacts SqlFacts Tables Index Blobs Retention.
From S2P Require Import StoreFacts StoreRuns StorePlan StoreExamples TierStash Conn Procs ExecFacts Active.
From S2P Require Import Baseline WatchReady Daemon HelperEvents TierTrack UndoCtl DaemonFacts UndoSteps.
From S2P Require Import DaemonRuns TierRuns TierUndo DaemonExamples.

Module TierExamples.
Import Plan PlanFacts Executor Orchestrator FileExec FileFacts Undo Runners Index StoreFacts StoreExamples.
Import Daemon TierTrack UndoCtl DaemonFacts UndoSteps DaemonRuns TierRuns TierUndo DaemonExamples.

#[local] Existing Instance plain_postcard.
#[local] Existing Instance plain_postcard_laws.
#[local] Existing Instance plain_codec.
#[local] Existing Instance plain_codec_laws.

(** ** A host *)

#[local] Instance systemd_scope_eq : EqDecision SystemdScope.
Proof. solve_decision. Defined.

(** Its packages, its units and its firewall rules. *)
Record Machine := mkMachine {
  mc_pkgs : Packages.Pkgs; mc_unit : SystemdScope → string → ServiceFacts.UnitState; mc_rules : list bytes;
}.

Definition set_pkgs (t : Machine) (m : Packages.Pkgs) : Machine := mkMachine m (mc_unit t) (mc_rules t).

Definition set_unit (t : Machine) (scope : SystemdScope) (unit : string) (u : ServiceFacts.UnitState) : Machine :=
  mkMachine (mc_pkgs t)
    (λ s n, if bool_decide (s = scope ∧ n = unit) then u else mc_unit t s n) (mc_rules t).

(** The versions the archive has. *)
Definition tx_archive : list (string * string) := [("libc6", "2.36-9"); ("libc6", "2.36-10"); ("curl", "8.0")].
Definition tx_offered (n v : string) : Prop := (n, v) ∈ tx_archive.

Definition tx_spec (arg : string) : option (string * string) :=
  List.find (λ kv, bool_decide (arg = kv.1 +:+ "=" +:+ kv.2)) tx_archive.

Definition ok (t : Machine) : Exec * Machine := (Exited (Some 0%N), t).
Definition bad (t : Machine) : Exec * Machine := (Exited (Some 1%N), t).

Definition tx_verb (scope : SystemdScope) (verb unit : string) (t : Machine) : Exec * Machine :=
  match ServiceFacts.verb_effect verb (mc_unit t scope unit) with
  | Some u => ok (set_unit t scope unit u)
  | None => bad t
  end.

Definition tx_tool (argv : list string) (t : Machine) : Exec * Machine :=
  match argv with
  | "apt-get" :: "remove" :: "-y" :: names => ok (set_pkgs t (foldr delete (mc_pkgs t) names))
  | "apt-get" :: "install" :: "-y" :: "--allow-downgrades" :: args =>
      match mapM tx_spec args with
      | Some specs => ok (set_pkgs t (list_to_map specs ∪ mc_pkgs t))
      | None => bad t
      end
  | "systemctl" :: rest =>
      match rest with
      | [verb; unit] => tx_verb SystemdScope.System verb unit t
      | [flag; verb; unit] =>
          if bool_decide (flag = "--user") then tx_verb SystemdScope.User verb unit t else bad t
      | _ => bad t
      end
  | _ => bad t
  end.

(** Only root may do this, and [/usr/bin/sudo] is there. *)
Definition tx_exec (argv : list string) (t : Machine) : Exec * Machine :=
  match argv with
  | "/usr/bin/sudo" :: argv' => tx_tool argv' t
  | _ => bad t
  end.
Definition tx_is_file (p : string) : bool := bool_decide (p = "/usr/bin/sudo").

Lemma tx_spec_offered (n v : string) : tx_offered n v → tx_spec (n +:+ "=" +:+ v) = Some (n, v).
Proof.
  unfold tx_offered, tx_archive. intros H. repeat (apply elem_of_cons in H as [[= -> ->]|H]; [reflexivity|]).
  by apply elem_of_nil in H.
Qed.

Lemma tx_specs_offered (specs : list (string * string)) :
  (∀ n v, (n, v) ∈ specs → tx_offered n v) →
  mapM tx_spec ((λ kv, kv.1 +:+ "=" +:+ kv.2) <$> specs) = Some specs.
Proof.
  induction specs as [|[n v] specs IH]; intros H; [done|]. rewrite fmap_cons.
  cbn [mapM fst snd]. rewrite tx_spec_offered by (apply H; left). cbn [mbind option_bind].
  rewrite IH; [done|]. intros n' v' Hin. apply H. by right.
Qed.

Lemma tx_apt : PackageFacts.PackageSystem PackageManager.Apt (pkg_run tx_exec tx_is_file) mc_pkgs tx_offered (λ _, True).
Proof.
  split.
  - intros argv names t -> _ _. by eexists.
  - intros argv specs t -> Ho _. exists (set_pkgs t (list_to_map specs ∪ mc_pkgs t)). split; [|done].
    unfold pkg_run, privileged_run, run_command, tx_exec. cbn [app]. cbn -[mapM].
    by rewrite (tx_specs_offered specs Ho).
Qed.

Lemma tx_systemctl : ServiceFacts.Systemctl (svc_run tx_exec tx_is_file) mc_unit (λ _, True).
Proof.
  split. intros scope verb unit t u' Hs _ He. exists (set_unit t scope unit u'). split.
  - unfold svc_run, privileged_run, run_command, tx_exec, ServiceFacts.systemctl.
    destruct scope; try done; cbn; unfold tx_verb; by rewrite He.
  - simpl. by rewrite bool_decide_eq_true_2.
Qed.

(** ** Packages *)

Definition tx_v1 : Packages.Pkgs := {["libc6" := "2.36-9"]}.
Definition tx_v2 : Packages.Pkgs := {["libc6" := "2.36-10"; "curl" := "8.0"]}.
Definition tx_v3 : Packages.Pkgs := {["libc6" := "2.36-10"]}.

Definition tx_pkg (phase : TierStash.PkgPhase) (m : Packages.Pkgs) : Input CaptureEvent :=
  Tier (λ _, None) (PkgEvent (TierStash.mkPkgReq PackageManager.Apt phase 100 m None ∅)).

(** [apt-get install curl && apt-get remove curl]: the first transaction also
    upgrades the library. *)
Definition tx_session : list (Input CaptureEvent) :=
  [Hook (HookMessage.SessionOpen 7 ShellKind.Bash 99 "tty1" 0);
   dx_pre 1 "apt-get install curl && apt-get remove curl";
   tx_pkg TierStash.PkgPhase.Pre tx_v1; tx_pkg TierStash.PkgPhase.Post tx_v2;
   tx_pkg TierStash.PkgPhase.Pre tx_v2; tx_pkg TierStash.PkgPhase.Post tx_v3; dx_post 1].

Definition tx_daemon : Daemon CaptureEvent := dx_run dx_new tx_session.

Lemma tx_daemon_inv : inv tx_daemon.
Proof. eapply reaches_inv; [apply dx_new_inv|]. apply dx_run_reaches. vm_compute. reflexivity. Qed.

Definition tx_record (d : Daemon CaptureEvent) : CommandRecord :=
  default (ex_cmd "") (command_by_id (d_db d) (mkCommandId 7 1)).

Definition tx_machine (m : Packages.Pkgs) (u : ServiceFacts.UnitState) : Machine := mkMachine m (λ _ _, u) [].
Definition tx_world (t : Machine) : World Machine := mkWorld ex_fs ∅ t.

Definition tx_absent (_ : InverseOp) (_ : bool) (_ : ConflictPolicy) (t : Machine) : ExecutionOutcome * Machine :=
  (ExecutionOutcome.Skipped [], t).
Definition tx_stash (_ : bytes) (t : Machine) : (string + Msg) * Machine := (inl "/tmp/dump", t).

Abbreviation tx_request :=
  (handle_undo no_synth map_order map_order NoOpPrivilegedOpRouter ex_may ".shit-tmp-1" Linux
     (daemon_tiers tx_exec tx_is_file "1000" tx_stash tx_absent tx_absent tx_absent tx_absent) true (λ _, inr [])).

Definition tx_one : UndoRequest := mkUndo 1 false ConflictPolicyWire.Abort [] false.

Lemma tx_offered_back (m m' : Packages.Pkgs) (l : list (string * string)) :
  map_to_list m = l → Forall (λ kv, kv ∈ tx_archive) l →
  ∀ n v, m !! n = Some v → m' !! n ≠ Some v → tx_offered n v.
Proof.
  intros Hl Hf n v Hn _. apply elem_of_map_to_list in Hn. rewrite Hl in Hn.
  rewrite Forall_forall in Hf. exact (Hf (n, v) Hn).
Qed.

Lemma package_undo_restores_witness :
  ∃ r t', tx_request tx_daemon tx_one (tx_world (tx_machine tx_v3 (ServiceFacts.mkUnit true true false)))
      = (inl r, tx_world t')
    ∧ commands_attempted r = 1%N ∧ harmless r ∧ mc_pkgs t' = tx_v1.
Proof.
  apply (@package_undo_restores CaptureEvent _ _ Machine no_synth map_order map_order NoOpPrivilegedOpRouter
    ex_may ".shit-tmp-1" Linux true (λ _, inr []) tx_exec tx_is_file "1000" tx_stash tx_absent tx_absent tx_absent
    tx_absent PackageManager.Apt mc_pkgs tx_offered (λ _, True) tx_apt tx_daemon tx_one (tx_record tx_daemon)
    (tx_world (tx_machine tx_v3 (ServiceFacts.mkUnit true true false))) tx_v1 tx_v3).
  - apply tx_daemon_inv.
  - reflexivity.
  - reflexivity.
  - reflexivity.
  - vm_compute. reflexivity.
  - vm_compute. reflexivity.
  - discriminate.
  - destruct (sort_events (cmd_journal (c_command (tx_record tx_daemon)) (d_db tx_daemon)))
      as [|e1 [|e2 [|e3 l]]] eqn:E; try (vm_compute in E; discriminate E).
    vm_compute in E. injection E as <- <-.
    eapply (transactions_cons _ _ _ _ _ _ _ tx_v1 tx_v2); [vm_compute; reflexivity..| | |].
    + eapply tx_offered_back; [vm_compute; reflexivity|]. vm_compute. repeat constructor; set_solver.
    + by intros k _ _.
    + eapply (transactions_cons _ _ _ _ _ _ _ tx_v2 tx_v3); [vm_compute; reflexivity..| | |constructor].
      * eapply tx_offered_back; [vm_compute; reflexivity|]. vm_compute. repeat constructor; set_solver.
      * by intros k _ _.
  - reflexivity.
Defined.

(** ** A unit *)

(** [systemctl disable --now ssh], with what [systemctl show] printed before
    and after. *)
Definition nl : string := String (Ascii.ascii_of_nat 10) "".
Definition tx_shown (active unit_file : string) : string :=
  "ActiveState=" +:+ active +:+ nl +:+ "UnitFileState=" +:+ unit_file +:+ nl.

Definition tx_svc (phase : TierStash.PkgPhase) (raw : string) : TierStash.SvcEventReq :=
  TierStash.mkSvcReq TierStash.SvcTool.Systemctl phase SystemdScope.System "ssh.service" "disable" 100 raw.
Definition tx_svc_pre := tx_svc TierStash.PkgPhase.Pre (tx_shown "active" "enabled").
Definition tx_svc_post := tx_svc TierStash.PkgPhase.Post (tx_shown "inactive" "disabled").

Definition ty_start : Daemon CaptureEvent :=
  dx_run dx_new [Hook (HookMessage.SessionOpen 7 ShellKind.Bash 99 "tty1" 0); dx_pre 1 "systemctl disable --now ssh"].
Definition ty_between : Daemon CaptureEvent := tier_handle dx_host (λ _, None) ty_start (SvcEvent tx_svc_pre).
Definition ty_daemon : Daemon CaptureEvent :=
  dx_run (tier_handle dx_host (λ _, None) ty_between (SvcEvent tx_svc_post)) [dx_post 1].

Definition ty_off : ServiceFacts.UnitState := ServiceFacts.mkUnit false false false.

Lemma service_undo_restores_witness :
  ∃ r t', tx_request ty_daemon tx_one (tx_world (tx_machine tx_v1 ty_off)) = (inl r, tx_world t')
    ∧ commands_attempted r = 1%N ∧ harmless r
    ∧ ServiceFacts.shows (mc_unit t' SystemdScope.System "ssh.service")
        (Services.parse_systemctl_show (TierStash.sv_state_raw tx_svc_pre)).
Proof.
  apply (@service_undo_restores CaptureEvent _ _ _ _ Machine no_synth map_order map_order NoOpPrivilegedOpRouter
    ex_may ".shit-tmp-1" Linux true (λ _, inr []) tx_exec tx_is_file "1000" tx_stash tx_absent tx_absent tx_absent
    tx_absent dx_host (λ _, []) Env.default_filter "fanotify" dx_uuid map_order map_order map_order map_order
    mc_unit (λ _, True) tx_systemctl ∅ ty_start ty_between ty_daemon (λ _, None) (λ _, None) tx_svc_pre tx_svc_post
    (tx_record ty_daemon) false (tx_world (tx_machine tx_v1 ty_off))).
  - eapply reaches_inv; [apply dx_new_inv|]. apply dx_run_reaches. vm_compute. reflexivity.
  - reflexivity.
  - reflexivity.
  - reflexivity.
  - reflexivity.
  - reflexivity.
  - reflexivity.
  - vm_compute. reflexivity.
  - vm_compute. reflexivity.
  - constructor.
  - vm_compute. reflexivity.
  - vm_compute. discriminate.
  - apply accepts_intro; [by intros ts|vm_compute; reflexivity..].
  - apply dx_run_reaches. vm_compute. reflexivity.
  - vm_compute. reflexivity.
  - vm_compute. reflexivity.
  - vm_compute. reflexivity.
  - done.
  - split_and!; vm_compute; reflexivity.
  - split; vm_compute; congruence.
Defined.

(** ** A ruleset that only grows *)

(** [nft]: the rules loaded and the files it may load from. A file is run line
    by line; [flush ruleset] forgets the rules, any other line adds one. *)
Record Firewall := mkFirewall { fw_rules : list bytes; fw_files : gmap string bytes }.

Fixpoint byte_lines (b cur : bytes) : list bytes :=
  match b with
  | [] => match cur with [] => [] | _ => [cur] end
  | Byte.x0a :: b' => cur :: byte_lines b' []
  | c :: b' => byte_lines b' (cur ++ [c])
  end.

Definition nft_line (rules : list bytes) (line : bytes) : list bytes :=
  if bool_decide (line ++ [Byte.x0a] = NetworkExec.flush_prefix) then [] else rules ++ [line].

Definition nft_exec (argv : list string) (t : Firewall) : Exec * Firewall :=
  match argv with
  | ["nft"; "-f"; p] =>
      match fw_files t !! p with
      | Some text => (Exited (Some 0%N), mkFirewall (foldl nft_line (fw_rules t) (byte_lines text [])) (fw_files t))
      | None => (Exited (Some 1%N), t)
      end
  | _ => (SpawnError [], t)
  end.

Definition nft_stash (dump : bytes) (t : Firewall) : (string + Msg) * Firewall :=
  (inl "/tmp/dump", mkFirewall (fw_rules t) (<["/tmp/dump" := dump]> (fw_files t))).

(** Rules [a]; the command adds [b]. *)
Definition nft_a : bytes := [Byte.x61].
Definition nft_b : bytes := [Byte.x62].
Definition nft_dump : bytes := nft_a ++ [Byte.x0a].

(** Undoing a change of the [nft] rules loads the dump on top of the rules
    there are: what the command added stays, the rest is there twice, and the
    operation counts as applied. With the prefix that [with_nft_flush_prefix]
    adds, which no caller asks for, the old rules alone would be left. *)
Theorem nft_undo_keeps_added_rules :
  let undo dump :=
    let '(o, t) := NetworkExec.network_execute (net_run nft_exec (λ _, false)) nft_stash
      (InverseOp.NetworkRollback NetworkTool.Nft dump []) false ConflictPolicy.Abort
      (mkFirewall [nft_a; nft_b] ∅) in (o, fw_rules t) in
  undo nft_dump = (ExecutionOutcome.Applied, [nft_a; nft_b; nft_a])
  ∧ undo (NetworkExec.with_nft_flush_prefix nft_dump) = (ExecutionOutcome.Applied, [nft_a]).
Proof. split; vm_compute; reflexivity. Qed.

End TierExamples.

(** * Undo of route changes, evaluated

    A host with a routing table and [ip route] that keeps the promise the
    interface asks for; a session that changes routes; and a change whose undo
    fails. *)

Module NetworkExamples.
Import Plan PlanFacts Executor Orchestrator FileExec FileFacts Undo Runners NetworkDiff NetworkFacts Index StoreFacts.
Import StoreExamples TierStash Daemon TierTrack UndoCtl DaemonFacts UndoSteps DaemonRuns TierRuns TierUndo NetworkUndo.
Import DaemonExamples.

#[local] Existing Instance plain_postcard.
#[local] Existing Instance plain_postcard_laws.
#[local] Existing Instance plain_codec.
#[local] Existing Instance plain_codec_laws.

#[local] Instance route_row_eq : EqDecision IpRouteRow.
Proof. solve_decision. Defined.

Abbreviation Routes := (gmap RouteId IpRouteRow).

(** The default route, the link it goes through, and two routes behind it. *)
Definition nx_route (dst : string) (gateway : option string) (scope : option string) : IpRouteRow :=
  mkRoute dst gateway (Some "eth0") None scope None None None.
Definition nx_default : IpRouteRow := nx_route "default" (Some "192.168.1.1") None.
Definition nx_link : IpRouteRow := nx_route "192.168.1.0/24" None (Some "link").
Definition nx_old : IpRouteRow := nx_route "10.0.0.0/24" (Some "192.168.1.7") None.
Definition nx_new : IpRouteRow := nx_route "10.1.0.0/24" (Some "192.168.1.8") None.
Definition nx_rows : list IpRouteRow := [nx_default; nx_link; nx_old; nx_new].

(** A gateway has to be reached over a route of the same device that has
    none. *)
Definition nx_fits (m : Routes) (r : IpRouteRow) : bool :=
  bool_decide (ro_gateway r = None)
  || existsb (λ kv, bool_decide (ro_gateway kv.2 = None) && bool_decide (ro_dev kv.2 = ro_dev r)) (map_to_list m).

Definition nx_exec (argv : list string) (m : Routes) : Exec * Routes :=
  match List.find (λ r, bool_decide (argv = route_argv "add" r)) nx_rows with
  | Some r =>
      if bool_decide (m !! route_identity r = None) && nx_fits m r
      then (Exited (Some 0%N), <[route_identity r := r]> m) else (Exited (Some 2%N), m)
  | None =>
      match List.find (λ r, bool_decide (argv = route_argv "del" r)) nx_rows with
      | Some r =>
          if bool_decide (m !! route_identity r = Some r)
          then (Exited (Some 0%N), delete (route_identity r) m) else (Exited (Some 2%N), m)
      | None => (Exited (Some 255%N), m)
      end
  end.

Lemma nx_tool :
  RouteTool (net_run nx_exec (λ _, false)) id (λ r, r ∈ nx_rows) (λ m r, nx_fits m r = true).
Proof.
  split; intros t r Hr Ht.
  - intros Hf. exists (<[route_identity r := r]> t). split; [|done].
    assert (nx_exec (route_argv "add" r) t = (Exited (Some 0%N), <[route_identity r := r]> t)) as He.
    { unfold nx_exec. assert (List.find (λ r', bool_decide (route_argv "add" r = route_argv "add" r')) nx_rows = Some r)
        as -> by (unfold nx_rows in Hr; repeat (apply elem_of_cons in Hr as [->|Hr]; [by vm_compute|]); by apply elem_of_nil in Hr).
      unfold id in *. by rewrite bool_decide_eq_true_2, Hf. }
    unfold net_run, privileged_run, run_command. simpl in *. by rewrite He.
  - exists (delete (route_identity r) t). split; [|done].
    assert (nx_exec (route_argv "del" r) t = (Exited (Some 0%N), delete (route_identity r) t)) as He.
    { unfold nx_exec. assert (List.find (λ r', bool_decide (route_argv "del" r = route_argv "add" r')) nx_rows = None)
        as -> by (unfold nx_rows in Hr; repeat (apply elem_of_cons in Hr as [->|Hr]; [by vm_compute|]); by apply elem_of_nil in Hr).
      assert (List.find (λ r', bool_decide (route_argv "del" r = route_argv "del" r')) nx_rows = Some r)
        as -> by (unfold nx_rows in Hr; repeat (apply elem_of_cons in Hr as [->|Hr]; [by vm_compute|]); by apply elem_of_nil in Hr).
      unfold id in *. by rewrite bool_decide_eq_true_2. }
    unfold net_run, privileged_run, run_command. simpl in *. by rewrite He.
Qed.

(** ** A session *)

(** [ip route replace] would keep the key; this one moves a network:
    [ip route del 10.0.0.0/24 && ip route add 10.1.0.0/24 via 192.168.1.8]. *)
Definition nx_pre : list IpRouteRow := [nx_default; nx_link; nx_old].
Definition nx_post : list IpRouteRow := [nx_default; nx_link; nx_new].

(** Dumps of one byte. *)
Definition nx_json : NetJson :=
  mkJson (λ b, if bool_decide (b = [Byte.x31]) then Some nx_pre
               else if bool_decide (b = [Byte.x32]) then Some nx_post else None)
    (λ _, None) (λ _, None).

Definition nx_req (phase : PkgPhase) (raw : bytes) : NetEventReq :=
  mkNetReq NetworkTool.IpRoute phase "route" "" 100 raw.
Definition nx_first := nx_req PkgPhase.Pre [Byte.x31].
Definition nx_second := nx_req PkgPhase.Post [Byte.x32].

Definition nx_start : Daemon CaptureEvent :=
  dx_run dx_new [Hook (HookMessage.SessionOpen 7 ShellKind.Bash 99 "tty1" 0); dx_pre 1 "ip route"].
Definition nx_between : Daemon CaptureEvent := tier_handle dx_host (λ _, None) nx_start (NetEvent nx_first).
Definition nx_daemon : Daemon CaptureEvent :=
  dx_run (tier_handle dx_host (λ _, None) nx_between (NetEvent nx_second)) [dx_post 1].
Definition nx_record : CommandRecord := default (ex_cmd "") (command_by_id (d_db nx_daemon) (mkCommandId 7 1)).

Definition nx_absent (_ : InverseOp) (_ : bool) (_ : ConflictPolicy) (t : Routes) : ExecutionOutcome * Routes :=
  (ExecutionOutcome.Skipped [], t).
Definition nx_stash (_ : bytes) (t : Routes) : (string + Msg) * Routes := (inl "/tmp/dump", t).
Definition nx_world (m : Routes) : World Routes := mkWorld ex_fs ∅ m.

Abbreviation nx_request :=
  (handle_undo (network_diff nx_json map_order map_order) map_order map_order NoOpPrivilegedOpRouter ex_may
     ".shit-tmp-1" Linux (daemon_tiers nx_exec (λ _, false) "1000" nx_stash nx_absent nx_absent nx_absent nx_absent)
     true (λ _, inr [])).

Lemma nx_all_fit :
  all_fit route_identity (λ m r, nx_fits m r = true) (missing route_identity nx_pre nx_post)
    (common route_identity nx_pre nx_post).
Proof.
  intros l1 r l2 Hl. vm_compute in Hl. destruct l1 as [|? [|? ?]]; injection Hl as <- Hl; done.
Qed.

Lemma route_undo_restores_witness :
  ∃ r t', nx_request nx_daemon (mkUndo 1 false ConflictPolicyWire.Abort [] false)
      (nx_world (rows route_identity nx_post)) = (inl r, nx_world t')
    ∧ commands_attempted r = 1%N ∧ harmless r ∧ t' = rows route_identity nx_pre.
Proof.
  apply (@route_undo_restores CaptureEvent _ _ _ _ Routes nx_json map_order map_order map_order map_order
    NoOpPrivilegedOpRouter ex_may ".shit-tmp-1" Linux true (λ _, inr []) nx_exec (λ _, false) "1000" nx_stash
    nx_absent nx_absent nx_absent nx_absent dx_host (λ _, []) Env.default_filter "fanotify" dx_uuid map_order map_order
    map_order map_order id (λ r, r ∈ nx_rows) (λ m r, nx_fits m r = true) nx_tool ∅ nx_start nx_between nx_daemon
    (λ _, None) (λ _, None) nx_first nx_second nx_record false (nx_world (rows route_identity nx_post)) nx_pre nx_post).
  - eapply reaches_inv; [apply dx_new_inv|]. apply dx_run_reaches. vm_compute. reflexivity.
  - reflexivity.
  - reflexivity.
  - reflexivity.
  - reflexivity.
  - reflexivity.
  - vm_compute. reflexivity.
  - vm_compute. reflexivity.
  - constructor.
  - vm_compute. reflexivity.
  - discriminate.
  - apply accepts_intro; [by intros ts|vm_compute; reflexivity..].
  - apply dx_run_reaches. vm_compute. reflexivity.
  - vm_compute. reflexivity.
  - vm_compute. reflexivity.
  - vm_compute. reflexivity.
  - reflexivity.
  - reflexivity.
  - apply (bool_decide_unpack (NoDup (A:=string * string * string * N) _)). vm_compute. exact I.
  - apply (bool_decide_unpack (NoDup (A:=string * string * string * N) _)). vm_compute. exact I.
  - intros r r'. unfold nx_pre, nx_post. rewrite !elem_of_cons, !elem_of_nil.
    intros [->|[->|[->|[]]]] [->|[->|[->|[]]]]; vm_compute; congruence.
  - repeat constructor; set_solver.
  - apply nx_all_fit.
  - reflexivity.
Defined.

(** ** Routes put back in the wrong order *)

(** [ip route flush table main]: the dump shows the default route before the
    link it needs, and the routes are added in that order. The first addition
    fails, the executor stops there, and no route comes back; in the opposite
    order all of them would. *)
Theorem flushed_routes_not_restored :
  let pre := [nx_default; nx_link] in
  let undo invs := NetworkExec.network_execute (net_run nx_exec (λ _, false)) nx_stash
    (InverseOp.NetworkRollback NetworkTool.IpRoute [Byte.x31] invs) false ConflictPolicy.Abort (∅ : Routes) in
  let failed o := match o with ExecutionOutcome.Failed _ => true | _ => false end in
  prod_map failed map_to_list (undo (route_inverse pre [])) = (true, [])
  ∧ prod_map id map_to_list (undo (reverse (route_inverse pre [])))
    = (ExecutionOutcome.Applied, map_to_list (rows route_identity pre)).
Proof. split; vm_compute; reflexivity. Qed.

End NetworkExamples.

(** * Wrapped clients, evaluated

    Sessions in which [psql] and [kill] are reported, and arguments the
    parsers misread. *)

Module ClientExamples.
Import Text Redact RedactFacts Sql SqlFacts Index StoreFacts StoreExamples TierStash Conn Procs ClientFacts Daemon.
Import TierTrack DaemonFacts UndoSteps DaemonRuns TierRuns ClientRuns DaemonExamples.

#[local] Existing Instance plain_postcard.
#[local] Existing Instance plain_postcard_laws.
#[local] Existing Instance plain_codec.
#[local] Existing Instance plain_codec_laws.

(** ** A session *)

Definition cx_start : Daemon CaptureEvent :=
  dx_run dx_new [Hook (HookMessage.SessionOpen 7 ShellKind.Bash 99 "tty1" 0); dx_pre 1 "psql"].
Definition cx_cmd : CommandId := mkCommandId 7 1.

Definition cx_argv : string := joined [uri "postgres" "bob" "p@w" "db" 5432 "app"; "-f"; "seed.sql"].
Definition cx_insert : Insert := mkInsert (str "t") [str "id"; str "token"] [[VRaw (str "1"); VLit (str "a;b'c")]].
Definition cx_blob : string := unstr (script [insert_text cx_insert]).

Lemma cx_uri_ok : uri_ok "bob" "p@w" "db" 5432 "app".
Proof. split; [repeat constructor..|vm_compute; discriminate|repeat constructor]. Qed.

Definition cx_req (phase : PkgPhase) : DbEventReq :=
  mkDbReq DbEngine.Postgres phase (mkConn "db" (Some 5432%N) "bob" "app")
    ["INSERT INTO t (id, token) VALUES (1, '<redacted:01020304>')"] DbTxState.Unknown 100.
Definition cx_between : Daemon CaptureEvent := tier_handle dx_host (λ _, None) cx_start (DbEvent (cx_req PkgPhase.Pre)).

Lemma db_journal_hides_secrets_witness : ∃ e,
  db_event rx_hash DbEngine.Postgres PkgPhase.Pre false cx_argv cx_blob 100 = inl (Some (cx_req PkgPhase.Pre))
  ∧ db_event rx_hash DbEngine.Postgres PkgPhase.Post false cx_argv cx_blob 100 = inl (Some (cx_req PkgPhase.Post))
  ∧ cmd_journal cx_cmd (d_db (tier_handle dx_host (λ _, None) cx_between (DbEvent (cx_req PkgPhase.Post)))) = [e]
  ∧ e_kind e = CaptureEventKind.DbOp DbEngine.Postgres "app"
      ["INSERT INTO t (id, token) VALUES (1, '<redacted:01020304>')"] DbTxState.Unknown.
Proof.
  destruct (db_journal_hides_secrets dx_host rx_hash Env.default_filter "fanotify" dx_uuid map_order
    map_order map_order map_order map_order "postgres" "bob" "p@w" "db" 5432 "app" ["-f"; "seed.sql"] [cx_insert]
    (or_introl eq_refl) cx_uri_ok) with (pid := 100%N) (pid' := 100%N) as (first & second & H1 & H2 & Hgo).
  - repeat constructor; vm_compute; congruence.
  - repeat constructor; discriminate.
  - discriminate.
  - assert (first = cx_req PkgPhase.Pre) as -> by (vm_compute in H1 |- *; congruence).
    assert (second = cx_req PkgPhase.Post) as -> by (vm_compute in H2 |- *; congruence).
    destruct (Hgo (λ _, None) (λ _, None) cx_start cx_between cx_cmd) as (e & Hj & Hk & _).
    + vm_compute. reflexivity.
    + vm_compute. reflexivity.
    + constructor.
    + apply accepts_intro; [by intros ts|vm_compute; reflexivity..].
    + exists e. split_and!; [exact H1|exact H2| |exact Hk].
      assert (cmd_journal cx_cmd (d_db cx_between) = []) as Hn by (vm_compute; reflexivity).
      by rewrite Hn in Hj.
Defined.

(** ** Two processes, of which one survives the signal *)

Definition cx_bytes (s : string) : bytes := String.list_byte_of_string s.

Definition cx_kernel (alive : list N) : ProcFs :=
  mkProcFs (Some (pretty <$> alive))
    (λ p, if bool_decide (p ∈ alive) then Some (pretty p +:+ " (sleep) S 1 1 1 0 0 0 0 0 0 0 0 0 0 0 0 0 0 0 500") else None)
    (λ _, None) (λ _, Some "sleep")
    (λ p, if bool_decide (p ∈ alive) then Some (cx_bytes "sleep" ++ [Byte.x00] ++ cx_bytes "9") else None)
    (λ _, Some "/w") (λ _, Some (cx_bytes "HOME=/h" ++ [Byte.x00] ++ cx_bytes "API_TOKEN=x" ++ [Byte.x00] ++ cx_bytes "EDITOR=vi"))
    None 100 None.

Definition cx_snap (p : N) : ProcSnapshot :=
  mkSnap p "sleep" ["sleep"; "9"] "/w" (<["HOME" := "/h"]> {["API_TOKEN" := "<redacted:01020304>"]}) 0 5 None.
Definition cx_kill (phase : PkgPhase) (alive : list N) : ProcEventReq :=
  mkProcReq ProcTool.Kill phase ["-KILL"; "41"; "42"] (cx_snap <$> alive) 100.
Definition cx_killing : Daemon CaptureEvent :=
  tier_handle dx_host (λ _, None) cx_start (ProcEvent (cx_kill PkgPhase.Pre [41; 42]%N)).

Lemma kill_journaled_witness : ∃ es,
  proc_event (cx_kernel [41; 42]%N) rx_hash ProcTool.Kill PkgPhase.Pre false (joined ["-KILL"; "41"; "42"]) 100
    = Some (cx_kill PkgPhase.Pre [41; 42]%N)
  ∧ proc_event (cx_kernel [41]%N) rx_hash ProcTool.Kill PkgPhase.Post false (joined ["-KILL"; "41"; "42"]) 100
    = Some (cx_kill PkgPhase.Post [41]%N)
  ∧ cmd_journal cx_cmd (d_db (tier_handle dx_host (λ _, None) cx_killing (ProcEvent (cx_kill PkgPhase.Post [41]%N)))) = es
  ∧ e_kind <$> es = [kill_event (Some 9%Z) (cx_snap 42)].
Proof.
  destruct (kill_journaled dx_host rx_hash Env.default_filter "fanotify" dx_uuid map_order
    map_order map_order map_order map_order (cx_kernel [41; 42]%N) (cx_kernel [41]%N) "KILL" [41; 42]%N)
    with (pid := 100%N) (pid' := 100%N) as (first & second & H1 & H2 & Hgo).
  - vm_compute. reflexivity.
  - repeat constructor. discriminate.
  - discriminate.
  - apply (bool_decide_unpack _). vm_compute. exact I.
  - repeat constructor.
  - assert (first = cx_kill PkgPhase.Pre [41; 42]%N) as -> by (vm_compute in H1 |- *; congruence).
    assert (second = cx_kill PkgPhase.Post [41]%N) as -> by (vm_compute in H2 |- *; congruence).
    destruct (Hgo (λ _, None) (λ _, None) cx_start cx_killing cx_cmd) as (es & Hj & Hk & _).
    + vm_compute. reflexivity.
    + vm_compute. reflexivity.
    + constructor.
    + split_and!; [vm_compute; reflexivity|vm_compute; discriminate|]. vm_compute. repeat constructor. discriminate.
    + exists es. split_and!; [exact H1|exact H2| |].
      * assert (cmd_journal cx_cmd (d_db cx_killing) = []) as Hn by (vm_compute; reflexivity). by rewrite Hn in Hj.
      * rewrite Hk. vm_compute. reflexivity.
Defined.

(** ** Arguments that are misread *)

(** The text behind [-c] is taken for the name of the database: with a secret
    in it, the secret goes to the daemon beside the statement from which it
    was removed. *)
Theorem psql_command_leaks phase pid :
  db_event rx_hash DbEngine.Postgres phase false (joined ["-c"; "ALTER ROLE bob PASSWORD 'hunter2'"; "app"])
    "ALTER ROLE bob PASSWORD 'hunter2'" pid
  = inl (Some (mkDbReq DbEngine.Postgres phase (mkConn "" None "app" "ALTER ROLE bob PASSWORD 'hunter2'")
      ["ALTER ROLE bob PASSWORD '<redacted:01020304>'"] DbTxState.Unknown pid)).
Proof. vm_compute. reflexivity. Qed.

(** A statement with an equals sign is taken for a connection string, which
    hides the host and the database; and a quoted password with a blank in it
    shows. *)
Theorem psql_statement_as_connection :
  parse_psql_argv ["-h"; "db"; "-d"; "app"; "-c"; "UPDATE t SET a=1"] = inl blank
  ∧ parse_psql_argv ["host=db password='my user=secret'"] = inl (mkInfo "db" None "secret'" "" true).
Proof. split; vm_compute; reflexivity. Qed.

(** A process group with a number up to 64 is taken for a signal, the null
    signal for a process, and the number behind [-n] for a process. *)
Theorem kill_argv_misread :
  parse_kill ["-9"; "-30"] = None
  ∧ parse_kill ["-0"; "123"] = Some (mkKill "TERM" [KillTarget.Pid 0; KillTarget.Pid 123])
  ∧ parse_kill ["-n"; "9"; "123"]
    = Some (mkKill "TERM" [KillTarget.Pattern "-n" ∅; KillTarget.Pid 9; KillTarget.Pid 123]).
Proof. split_and!; vm_compute; reflexivity. Qed.

End ClientExamples.

(** * The removal of an image, undone

    A host whose container runtime keeps its images in a map and loads one
    archive; the session in which the image is removed. *)

Module ContainerExamples.
Import Plan PlanFacts Executor Orchestrator FileExec FileFacts Undo Runners Json Containers Index StoreFacts.
Import StoreExamples StoreRuns Retention TierStash Daemon TierTrack UndoCtl DaemonFacts UndoSteps DaemonRuns TierRuns TierUndo ContainerUndo.
Import DaemonExamples.

#[local] Existing Instance plain_postcard.
#[local] Existing Instance plain_postcard_laws.
#[local] Existing Instance plain_codec.
#[local] Existing Instance plain_codec_laws.

Abbreviation Images := (gmap string N).

(** The archive of one byte is the image [a]. *)
Definition ix_holds (b : bytes) (name : string) (img : N) : Prop := b = [Byte.x61] ∧ name = "a" ∧ img = 5%N.

Definition ix_programs : Programs Images :=
  mkPrograms (λ _ t, (Exited (Some 1%N), t))
    (λ argv b t, if bool_decide (argv = ["docker"; "load"]) && bool_decide (b = [Byte.x61])
                 then (PipedExit (Some 0%N), <["a" := 5%N]> t) else (PipedExit (Some 1%N), t))
    (λ _ t, (CapturedExit (Some 1%N) [], t)) (λ _ _ t, (Exited (Some 1%N), t)).

Lemma ix_tool : ImageTool ix_programs (runtime_bin ContainerRuntime.Docker) id ix_holds.
Proof. split. intros b name img t (-> & -> & ->). by exists (<["a" := 5%N]> t). Qed.

(** No operation of this session uses these. *)
Definition ix_stash (_ : bytes) (t : Images) : (string + Msg) * Images := (inr [], t).
Definition ix_stash_state (_ : bytes) (_ : PathBuf) (t : Images) : (PathBuf + Msg) * Images := (inr [], t).
Definition ix_json (_ : bytes) : Json + Msg := inr [].

Definition ix_start : Daemon CaptureEvent :=
  dx_run dx_new [Hook (HookMessage.SessionOpen 7 ShellKind.Bash 99 "tty1" 0); dx_pre 1 "docker rmi a"].
Definition ix_reported : Daemon CaptureEvent := tier_handle dx_host (λ _, None) ix_start (ContainerEvent dx_image 1).
Definition ix_done : Daemon CaptureEvent := dx_run ix_reported [dx_post 1].
Definition ix_record : CommandRecord := default (ex_cmd "") (command_by_id (d_db ix_done) (mkCommandId 7 1)).
Definition ix_before : Images := <["b" := 6%N]> {["a" := 5%N]}.
Definition ix_world : World Images := mkWorld ex_fs ∅ (delete "a" ix_before).

(** The writes the session leaves in the index. *)
Definition ix_ops : list Op :=
  [PutSession 7 "bash" 99 (Some "tty1") (mkTime 1 1); PutCommand ix_record;
   StashRegister 1 (Stash.mkRegister (ex_digest [Byte.x61]) Stash.StashKind.ImageSave "docker" "a" 2
     (Some (mkCommandId 7 1)) None);
   PutEvent (mkEvent (mkEventId 0) (mkCommandId 7 1) (mkTime 3 3) false
     (CaptureEventKind.ContainerOp ContainerRuntime.Docker (ContainerOp.Rmi "a" None) [] None
       (Some (ex_digest [Byte.x61]))))].

Lemma ix_ok : db_ok (d_db ix_done).
Proof.
  replace (d_db ix_done) with (run_ops empty_db ix_ops) by (vm_compute; reflexivity).
  apply (index_invariant map_order false). unfold run_ops, ix_ops. cbn [foldl].
  repeat (apply reach_step; [|by apply op_fitsb_spec|done]). constructor.
Qed.

Lemma image_undo_restores_witness :
  ∃ r t', handle_undo no_synth map_order map_order NoOpPrivilegedOpRouter ex_may ".shit-tmp-1" Linux
      (system_tiers ix_programs (λ _, false) "1000" ix_stash ix_stash_state ix_json (d_files ix_done)) true (λ _, inr [])
      ix_done (mkUndo 1 false ConflictPolicyWire.Abort [] false) ix_world
      = (inl r, mkWorld (w_fs ix_world) (w_queues ix_world) t')
    ∧ commands_attempted r = 1%N ∧ harmless r ∧ t' = ix_before.
Proof.
  apply (@image_undo_restores CaptureEvent _ _ _ _ Images N no_synth map_order map_order NoOpPrivilegedOpRouter ex_may
    ".shit-tmp-1" Linux true (λ _, inr []) ix_programs (λ _, false) "1000" ix_stash ix_stash_state ix_json dx_host
    ContainerRuntime.Docker id ix_holds ix_tool ix_start ix_done (λ _, None) dx_image 1 ix_record false ix_world "a"
    [Byte.x61] (ex_digest [Byte.x61]) ix_before 5%N).
  all: try (vm_compute; reflexivity).
  - intros b'. apply ex_digest_inj.
  - by eexists.
  - replace (d_files ix_start) with (∅ : Blobs.BlobFiles) by (vm_compute; reflexivity).
    intros h raw Hh. by rewrite lookup_empty in Hh.
  - split_and!; [by vm_compute..|]. constructor; [by vm_compute|constructor].
  - apply ix_ok.
  - done.
Defined.

End ContainerExamples.
